(* ===== verification/_CoqProject ===== *)
-Q . S2P
Prelude.v
Pmm.v
Vma.v
ReadyQueue.v
Scheduler.v
Ring.v
Pipe.v
Tty.v
PageTable.v
Vfs.v
RamFs.v
FlatFs.v
FileLock.v
BTree.v
FdTable.v
Epoll.v
FdSys.v
Futex.v
Process.v
Disk.v
Ext4.v
MemSys.v
Elf.v
Loader.v
Sync.v
KLog.v
Ota.v
TokPipe.v
Wire.v
Fabric.v
FileSys.v
LinuxSys.v
Services.v
Vga.v
Extents.v
ExtFile.v
