(* ===== verification/Prelude.v ===== *)
(** * A verification of the Karte kernel

    The program is a kernel for riscv64 and x86_64 written in Rust
    (kernel/src), with a vendored ext4 library (kernel/vendor/ext4_rs). This
    library is a shallow embedding of its core: functions of the source are
    functions here, structures are records, statics are explicit state.

    ** Parts of the program and where they are

    Memory
    - [Pmm]: the bitmap frame allocator (mm/pmm.rs) and heap sizing (mm/heap.rs).
    - [Vma]: the region tables per address space (mm/vma.rs).
    - [PageTable]: page tables of both architectures (mm/vmm.rs,
      mm/page_table.rs) over one store of 64-bit words. Frames come through the
      class [FrameSource], which the allocator of [Pmm] implements.
    - [MemSys]: brk, mmap, mprotect, munmap, madvise, the preparation of user
      buffers (syscall/mod.rs) and the x86_64 page-fault handler
      (arch/x86_64/idt.rs), over the three components above.

    Tasks and processes
    - [ReadyQueue]: scheduling classes and the priority-bitmap queue
      (sched/class.rs, sched/ready_queue.rs).
    - [Scheduler]: the task table and every scheduling path (sched/mod.rs,
      sched/task.rs).
    - [Futex]: futex queues (syscall/mod.rs), also run against [Scheduler].
    - [Process]: the process table (process/mod.rs) and exit, exit_group, kill
      and the wait calls (syscall/mod.rs).

    Files and communication
    - [Ring]: the list in a circular buffer; [Pipe]: pipes (driver/pipe.rs);
      [Tty]: terminal input (driver/tty.rs).
    - [Vfs]: the VFS layer over the class [FileSystem] (driver/vfs.rs);
      [RamFs]: the RAM file system (driver/ramfs.rs), an instance of it.
    - [FlatFs]: the flat store and the helpers that combine it with the disk
      file systems; [FileLock]: byte-range locks; [FdTable]: descriptor tables
      (all driver/fs.rs).
    - [BTree]: the ordered map of the Rust library; [Epoll]: epoll and eventfd
      (syscall/epoll); [FdSys]: pipe, dup, fcntl, close, fork, clone, exec and
      exit on the descriptor tables of all processes (syscall/mod.rs).
    - [Disk]: the cached block access of ext4 (driver/ext4_x86_64.rs) and the
      stream FAT32 uses (driver/fat32.rs) over a sector device, the class
      [BlockIO]; [Ext4]: CRC-32C, bitmaps and the inode allocator of the
      vendored library, on the device of [Disk]; [Extents]: its extent trees,
      block allocator and inodes; [ExtFile]: its file reads and directories.
    - [FileSys]: the file system calls and user copies (syscall/mod.rs,
      syscall/user_ptr.rs); [Vga]: the text console (driver/vga.rs).

    Programs, locks and services
    - [Elf]: the ELF parser (process/elf.rs); [Loader]: segments and initial
      stack of a new process (process/mod.rs).
    - [LinuxSys]: signals, clocks, random bytes, system information and both
      entries of the system calls (syscall/mod.rs, syscall/linux.rs).
    - [Sync]: the locks (sync), against the class [Lock]; [KLog]: the kernel
      log and the environment (kernel_log.rs, env.rs).
    - [Ota]: update slots (ota.rs); [TokPipe]: the token pipe (tokpipe.rs);
      [Wire]: MQTT packets, tool-call frames and mDNS announcements (mqtt.rs,
      mcp_cb.rs, mdns.rs); [Fabric]: capability descriptors and the device
      table (capability.rs, drt.rs); [Services]: tokens, leader election, the
      model table and the interpreter (capauth.rs, arbiter.rs, model.rs,
      wasm.rs).

    ** Conventions

    An unsigned machine integer is a [Z] within its range; additions,
    subtractions and products that the source writes plainly wrap, as in the
    release build ([+!], [-!], [*!]). [exec] is code that may panic, [result]
    is Result, [option] is Option. Slot numbers are [nat]. What an operation
    does to components outside its file (wake-ups, stores to user memory,
    echo) is part of its result. Where the source blocks or yields, what the
    rest of the system does meanwhile is an argument; locks are therefore taken
    one operation at a time, except where a [try_lock] can fail, whose
    outcome is an argument, and where the source gives a lock back between two
    steps of one operation ([FileLock]), where what others do is an argument too. Inputs from hardware and user memory are
    arguments. Console output is left out.

    Loops that are not structural take fuel. It is computed from the state by
    the definition that starts the loop (the number of regions, slots, sectors
    or pages) and each such loop has a lemma that the fuel is enough; the
    blocking epoll wait returns once its time-out has passed. The loops over
    the entries of a directory block return [None] when they do not end within
    one round per byte, after which further rounds change nothing; growing an
    extent tree inserts again at most once. The addresses of
    [PageTable] are those its tables cover (39 and 48 bits), physical
    addresses have 52 bits.

    ** What is shown

    - Refinement: the frame allocator is a set of frames, a region table a map
      from addresses to protections, the ready queue the linear scan of its
      test, a pipe a byte stream, the terminal a line discipline, the RAM file
      system a map from paths, the flat store a map from names, the cached disk
      a byte array, the checksum table bitwise CRC-32C, an extent tree a map
      from file blocks to disk blocks, the text console the last lines of what
      was printed.
    - Invariants over histories of operations: task table against ready queue
      and process map, reference counts of pipes against descriptors, process
      slots against the free list, lock exclusion, well-typed descriptor tables.
      Where some operations break an invariant (killing the running task, dup2
      onto a pipe end, fork of a table with pipe ends, two byte-range locks
      taken at once), the theorem names them and leaves them out.
    - Functional behaviour of each call on its branches, error values
      included, and round trips (write/read, context switch, FAT32 storage).
    - Composition: what mmap, brk, mprotect and munmap do to regions, page
      tables and frames together, and what a later page fault then does; an
      eventfd write waking an epoll wait; waits and wakes on the scheduler; a
      file read, and search, insertion and removal in a directory, through
      extent tree, cache and disk, for directory blocks with and without a
      checksum tail.
    - Where the code does something other than it means to, the theorem states
      what the code does.

    ** Not modelled

    - Device drivers and platform code (AHCI, NVMe, VirtIO, UART, network
      cards, PCI, interrupt controllers, boot and trap assembly, SMP start):
      register and port access with no state of their own worth a model. The
      disk drivers appear as [BlockIO].
    - Third-party crates: smoltcp, fatfs, linked_list_allocator, spin.
    - The rest of the vendored ext4 library: removal of extents, allocation of
      many blocks at once, writing, truncating, creating and removing files,
      opening by path, and the kernel's file layer above it. Open work.
    - Kernel stacks, the copy of kernel mappings and whole-process fork and
      clone of process/mod.rs: open work.
    - Weak memory, preemption inside a lock, TLB and CR3 switching.
    - User programs (user/), device firmware (devices/, scratch32/), scripts
      and tools, the network stack glue and the message loops of the services
      whose formats and tables are modelled.

    ** This file

    Shared notation, the types above, the tactics and the hint database
    [karte], and generic lemmas on integers, lists and options. *)

From stdpp Require Import base numbers list list_numbers gmap strings sets.
From Stdlib Require Import ZArith Lia.

#[global] Set Default Goal Selector "!".

(** ** Rust values

    [Result<A, E>], and [exec A] for code that may panic. *)

Inductive result (A E : Type) : Type :=
| Ok (a : A)
| Err (e : E).
Arguments Ok {A E} a.
Arguments Err {A E} e.

Inductive exec (A : Type) : Type :=
| Ret (a : A)
| Panic.
Arguments Ret {A} a.
Arguments Panic {A}.

Definition exec_bind {A B : Type} (m : exec A) (k : A → exec B) : exec B :=
  match m with
  | Ret a => k a
  | Panic => Panic
  end.

Definition result_bind {A B E : Type} (m : result A E) (k : A → result B E) : result B E :=
  match m with
  | Ok a => k a
  | Err e => Err e
  end.

(** [.ok_or(e)] *)
Definition ok_or {A E : Type} (o : option A) (e : E) : result A E :=
  match o with
  | Some a => Ok a
  | None => Err e
  end.

Declare Scope rust_scope.
Delimit Scope rust_scope with rust.

Notation "'let!' x := m 'in' k" := (exec_bind m (fun x => k))
  (at level 10, x pattern, m at level 100, k at level 200) : rust_scope.
Notation "'let?' x := m 'in' k" := (result_bind m (fun x => k))
  (at level 10, x pattern, m at level 100, k at level 200) : rust_scope.

(** ** Machine integers: a [w]-bit unsigned integer is a [Z] in [0, 2^w). *)

Definition wrap (w x : Z) : Z := (x `mod` 2 ^ w)%Z.
Definition u64 (x : Z) : Z := wrap 64 x.
Definition u32 (x : Z) : Z := wrap 32 x.
Definition u16 (x : Z) : Z := wrap 16 x.
Definition u8 (x : Z) : Z := wrap 8 x.
Definition USIZE_MAX : Z := (2 ^ 64 - 1)%Z.

Notation "a '+!' b" := (u64 (a + b)%Z) (at level 50, left associativity) : rust_scope.
Notation "a '-!' b" := (u64 (a - b)%Z) (at level 50, left associativity) : rust_scope.
Notation "a '*!' b" := (u64 (a * b)%Z) (at level 40, left associativity) : rust_scope.

Definition saturating_sub (a b : Z) : Z := Z.max 0 (a - b).
Definition saturating_add (a b : Z) : Z := Z.min USIZE_MAX (a + b).
Definition checked_add (a b : Z) : option Z :=
  if decide (a + b <= USIZE_MAX)%Z then Some (a + b)%Z else None.

(** [!x] on 64 bits. *)
Definition not64 (x : Z) : Z := u64 (Z.lnot x).

Definition is_u64 (x : Z) : Prop := (0 <= x < 2 ^ 64)%Z.

(** [x as iN] for the unsigned pattern [x]: signed integers are [Z] in
    [-2^(w-1), 2^(w-1)). *)
Definition to_signed (w x : Z) : Z :=
  let y := wrap w x in if (y <? 2 ^ (w - 1))%Z then y else (y - 2 ^ w)%Z.
Definition i64 (x : Z) : Z := to_signed 64 x.
Definition i32 (x : Z) : Z := to_signed 32 x.
Definition i16 (x : Z) : Z := to_signed 16 x.
Definition is_signed (w x : Z) : Prop := (- 2 ^ (w - 1) <= x < 2 ^ (w - 1))%Z.
Definition is_byte (b : Z) : Prop := (0 <= b < 256)%Z.

(** [to_ne_bytes] / [from_ne_bytes] of an [n]-byte integer: both targets are
    little endian. *)
Definition le_bytes (n x : Z) : list Z := Z_to_little_endian n 8 x.
Definition of_le (bs : list Z) : Z := little_endian_to_Z 8 bs.

(** [&v[off..off + n]], when in range. *)
Definition slice {A : Type} (off n : nat) (l : list A) : list A := take n (drop off l).

(** ** Automation *)

Create HintDb karte.

Ltac invert H := inversion H; subst; clear H.

(** Split conjunctions only (not records or inequalities). *)
Ltac splits := repeat match goal with |- _ ∧ _ => split end.

(** Case analysis on the tests the definitions branch on. *)
Ltac split_test :=
  match goal with
  | |- context [if ?b then _ else _] => destruct b eqn:?
  | H : context [if ?b then _ else _] |- _ => destruct b eqn:?
  end.

Ltac bool_to_prop :=
  repeat match goal with
  | H : (_ =? _)%Z = true |- _ => apply Z.eqb_eq in H
  | H : (_ =? _)%Z = false |- _ => apply Z.eqb_neq in H
  | H : (_ <? _)%Z = true |- _ => apply Z.ltb_lt in H
  | H : (_ <? _)%Z = false |- _ => apply Z.ltb_ge in H
  | H : (_ <=? _)%Z = true |- _ => apply Z.leb_le in H
  | H : (_ <=? _)%Z = false |- _ => apply Z.leb_gt in H
  | H : (_ =? _)%nat = true |- _ => apply Nat.eqb_eq in H
  | H : (_ =? _)%nat = false |- _ => apply Nat.eqb_neq in H
  | H : (_ <? _)%nat = true |- _ => apply Nat.ltb_lt in H
  | H : (_ <? _)%nat = false |- _ => apply Nat.ltb_ge in H
  | H : (_ <=? _)%nat = true |- _ => apply Nat.leb_le in H
  | H : (_ <=? _)%nat = false |- _ => apply Nat.leb_gt in H
  | H : _ && _ = true |- _ => apply andb_true_iff in H; destruct H
  | H : _ || _ = false |- _ => apply orb_false_iff in H; destruct H
  | H : negb _ = true |- _ => apply negb_true_iff in H
  | H : negb _ = false |- _ => apply negb_false_iff in H
  | H : bool_decide _ = true |- _ => apply bool_decide_eq_true in H
  | H : bool_decide _ = false |- _ => apply bool_decide_eq_false in H
  end.

(** ** Machine-integer lemmas *)

Lemma wrap_small (w x : Z) : (0 <= x < 2 ^ w)%Z → wrap w x = x.
Proof. intros. unfold wrap. by apply Z.mod_small. Qed.

Lemma wrap_range (w x : Z) : (0 <= w)%Z → (0 <= wrap w x < 2 ^ w)%Z.
Proof. intros. unfold wrap. apply Z.mod_pos_bound. lia. Qed.

Lemma u64_small (x : Z) : (0 <= x < 2 ^ 64)%Z → u64 x = x.
Proof. apply wrap_small. Qed.

Lemma u64_range (x : Z) : is_u64 (u64 x).
Proof. by apply wrap_range. Qed.

#[export] Hint Resolve u64_range : karte.

Lemma to_signed_id (w x : Z) : (0 < w)%Z → is_signed w x → to_signed w x = x.
Proof.
  intros Hw [H1 H2]. unfold to_signed, wrap.
  assert (2 ^ w = 2 * 2 ^ (w - 1))%Z as E by (rewrite <- Z.pow_succ_r by lia; f_equal; lia).
  destruct (decide (0 <= x)%Z).
  - rewrite Z.mod_small by lia. by rewrite (proj2 (Z.ltb_lt _ _)) by lia.
  - rewrite <- (Z_mod_plus_full x 1), Z.mod_small by lia.
    rewrite (proj2 (Z.ltb_ge _ _)) by lia. lia.
Qed.

Lemma to_signed_wrap (w x : Z) : (0 < w)%Z → wrap w (to_signed w x) = wrap w x.
Proof.
  intros Hw. unfold to_signed. set (y := wrap w x).
  assert (wrap w y = y) as Hy by (apply wrap_small, wrap_range; lia).
  destruct (y <? 2 ^ (w - 1))%Z; [done|]. unfold wrap in *.
  rewrite <- (Z_mod_plus_full _ 1). etransitivity; [|exact Hy]. f_equal. lia.
Qed.

Lemma to_signed_mod (w x : Z) : (0 < w)%Z → to_signed w (wrap w x) = to_signed w x.
Proof. intros Hw. unfold to_signed, wrap. by rewrite Z.mod_mod by lia. Qed.

Lemma to_signed_range (w x : Z) : (0 < w)%Z → is_signed w (to_signed w x).
Proof.
  intros Hw. unfold is_signed, to_signed. pose proof (wrap_range w x ltac:(lia)).
  assert (2 ^ w = 2 * 2 ^ (w - 1))%Z as E by (rewrite <- Z.pow_succ_r by lia; f_equal; lia).
  destruct (Z.ltb_spec (wrap w x) (2 ^ (w - 1))); lia.
Qed.

(** ** Little-endian bytes *)

Lemma le_bytes_length (n : nat) (x : Z) : length (le_bytes (Z.of_nat n) x) = n.
Proof. apply Nat2Z.inj. unfold le_bytes. by rewrite length_Z_to_little_endian by lia. Qed.

Lemma le_bytes_byte (n x : Z) : (0 <= n)%Z → Forall is_byte (le_bytes n x).
Proof. intros. by apply (Z_to_little_endian_bound n 8 x). Qed.

Lemma of_le_bytes (n x : Z) : (0 <= n)%Z → of_le (le_bytes n x) = wrap (n * 8) x.
Proof. intros. by apply (little_endian_to_Z_to_little_endian n 8 x). Qed.

Lemma le_bytes_of_le (n : Z) (bs : list Z) :
  n = Z.of_nat (length bs) → Forall is_byte bs → le_bytes n (of_le bs) = bs.
Proof. intros. by apply (Z_to_little_endian_to_Z n 8 bs). Qed.

Lemma le_bytes_wrap (n x : Z) : (0 <= n)%Z → le_bytes n (wrap (n * 8) x) = le_bytes n x.
Proof.
  intros Hn. rewrite <- of_le_bytes by done. apply le_bytes_of_le; [|by apply le_bytes_byte].
  by rewrite <- (Z2Nat.id n), le_bytes_length by lia.
Qed.

Lemma slice_app {A : Type} (l1 l2 l3 : list A) (off n : nat) :
  length l1 = off → length l2 = n → slice off n (l1 ++ l2 ++ l3) = l2.
Proof. intros <- <-. unfold slice. by rewrite drop_app_length, take_app_length. Qed.

Lemma slice_lookup {A : Type} (off n k : nat) (l : list A) : slice off n l !! k = if decide (k < n)%nat then l !! (off + k)%nat else None.
Proof. unfold slice. case_decide; [by rewrite lookup_take_lt, lookup_drop by done|]. by rewrite lookup_take_ge by lia. Qed.

Lemma slice_length {A : Type} (off n : nat) (l : list A) : (off + n <= length l)%nat → length (slice off n l) = n.
Proof. intros Hl. unfold slice. rewrite length_take, length_drop. lia. Qed.

Lemma slice_bytes (off n : nat) (l : list Z) : Forall is_byte l → Forall is_byte (slice off n l).
Proof. intros Hl. unfold slice. by apply Forall_take, Forall_drop. Qed.

Lemma slice_slice {A : Type} (l : list A) (off n m : nat) :
  slice off n l ++ slice (off + n) m l = slice off (n + m) l.
Proof.
  unfold slice. rewrite <- drop_drop. symmetry. rewrite <- (take_drop n (take (n + m) (drop off l))) at 1.
  rewrite take_take, skipn_firstn_comm. f_equal; f_equal; lia.
Qed.

(** ** Bits of machine words *)

Lemma bit_test (w b : Z) :
  (0 <= b)%Z → (Z.land w (Z.shiftl 1 b) =? 0)%Z = negb (Z.testbit w b).
Proof.
  intros Hb. rewrite Z.shiftl_1_l.
  destruct (Z.testbit w b) eqn:E; simpl.
  - apply Z.eqb_neq. intros H0.
    assert (Z.testbit (Z.land w (2 ^ b)) b = false) as H1 by (rewrite H0; apply Z.testbit_0_l).
    rewrite Z.land_spec, E, Z.pow2_bits_true in H1 by lia. done.
  - apply Z.eqb_eq, Z.bits_inj'. intros n Hn.
    rewrite Z.land_spec, Z.testbit_0_l, Z.pow2_bits_eqb by lia.
    destruct (Z.eqb_spec b n); [subst; by rewrite E|apply andb_false_r].
Qed.

Lemma bit_set (w b c : Z) :
  (0 <= b)%Z → Z.testbit (Z.lor w (Z.shiftl 1 b)) c = Z.testbit w c || (b =? c)%Z.
Proof. intros Hb. by rewrite Z.lor_spec, Z.shiftl_1_l, Z.pow2_bits_eqb. Qed.

Lemma not64_testbit (x c : Z) :
  (0 <= c < 64)%Z → Z.testbit (not64 x) c = negb (Z.testbit x c).
Proof.
  intros Hc. unfold not64, u64, wrap.
  rewrite Z.mod_pow2_bits_low by lia. apply Z.lnot_spec. lia.
Qed.

Lemma bit_clear (w b c : Z) :
  (0 <= b)%Z → (0 <= c < 64)%Z →
  Z.testbit (Z.land w (not64 (Z.shiftl 1 b))) c = Z.testbit w c && negb (b =? c)%Z.
Proof.
  intros Hb Hc.
  by rewrite Z.land_spec, not64_testbit, Z.shiftl_1_l, Z.pow2_bits_eqb by lia.
Qed.

Lemma bits_above (w n x : Z) : (0 <= n)%Z → (0 <= x < 2 ^ n)%Z → (n <= w)%Z → Z.testbit x w = false.
Proof.
  intros Hn Hx Hw. destruct (decide (x = 0)%Z) as [->|]; [apply Z.testbit_0_l|].
  apply Z.bits_above_log2; [lia|].
  assert (Z.log2 x < n)%Z by (apply Z.log2_lt_pow2; lia). lia.
Qed.

Lemma range_of_bits (n x : Z) :
  (0 <= n)%Z → (0 <= x)%Z → (∀ c, (n <= c)%Z → Z.testbit x c = false) → (0 <= x < 2 ^ n)%Z.
Proof.
  intros Hn Hx Hb. split; [done|].
  destruct (decide (x = 0)%Z) as [->|]; [lia|].
  apply Z.log2_lt_pow2; [lia|].
  destruct (Z_lt_ge_dec (Z.log2 x) n); [done|].
  specialize (Hb (Z.log2 x) ltac:(lia)). rewrite Z.bit_log2 in Hb; [done|lia].
Qed.

Lemma lor_range (n x y : Z) :
  (0 <= n)%Z → (0 <= x < 2 ^ n)%Z → (0 <= y < 2 ^ n)%Z → (0 <= Z.lor x y < 2 ^ n)%Z.
Proof.
  intros Hn Hx Hy. apply range_of_bits; [done|apply Z.lor_nonneg; lia|].
  intros c Hc. rewrite Z.lor_spec, (bits_above c n x), (bits_above c n y); auto.
Qed.

Lemma land_range (n x y : Z) :
  (0 <= n)%Z → (0 <= x < 2 ^ n)%Z → (0 <= Z.land x y < 2 ^ n)%Z.
Proof.
  intros Hn Hx. apply range_of_bits; [done|apply Z.land_nonneg; lia|].
  intros c Hc. by rewrite Z.land_spec, (bits_above c n x).
Qed.

Lemma pow2_range (n b : Z) : (0 <= b < n)%Z → (0 <= Z.shiftl 1 b < 2 ^ n)%Z.
Proof.
  intros Hb. rewrite Z.shiftl_1_l. split; [lia|]. apply Z.pow_lt_mono_r; lia.
Qed.

(** [x & !(2^k - 1)]: rounding down to a multiple of [2^k]. *)
Lemma land_not_ones (x k : Z) :
  (0 <= k <= 64)%Z → is_u64 x →
  Z.land x (not64 (2 ^ k - 1)) = (x / 2 ^ k * 2 ^ k)%Z.
Proof.
  intros Hk Hx. apply Z.bits_inj'. intros n Hn.
  rewrite Z.land_spec, <- Z.shiftl_mul_pow2, Z.shiftl_spec by lia.
  rewrite <- Z.shiftr_div_pow2 by lia.
  destruct (decide (n < 64)%Z).
  - rewrite not64_testbit by lia.
    replace (2 ^ k - 1)%Z with (Z.ones k) by (rewrite Z.ones_equiv; lia).
    destruct (decide (n < k)%Z).
    + rewrite Z.ones_spec_low by lia. simpl.
      rewrite andb_false_r, Z.testbit_neg_r by lia. done.
    + rewrite Z.ones_spec_high by lia. simpl.
      rewrite andb_true_r, Z.shiftr_spec by lia. f_equal; lia.
  - rewrite (bits_above n 64 x) by (unfold is_u64 in Hx; lia). simpl.
    rewrite Z.shiftr_spec by lia. symmetry. apply (bits_above _ 64); unfold is_u64 in *; lia.
Qed.

(** ** Loops over vectors *)

(** [for x in v.iter_mut() { if p(x) { *x = f(x); return .. } }]: update the
    first match; [None] when the loop falls through. *)
Fixpoint update_first {A : Type} (p : A → bool) (f : A → A) (l : list A) : option (list A) :=
  match l with
  | [] => None
  | x :: l' =>
      if p x then Some (f x :: l')
      else match update_first p f l' with
           | Some l'' => Some (x :: l'')
           | None => None
           end
  end.

(** [v.iter().find(p)] *)
Fixpoint find_first {A : Type} (p : A → bool) (l : list A) : option A :=
  match l with
  | [] => None
  | x :: l' => if p x then Some x else find_first p l'
  end.

Section loops.
Context {A : Type}.
Implicit Types (p q : A → bool) (f : A → A) (l : list A) (x : A).

Lemma update_first_Some p f l l' :
  update_first p f l = Some l' →
  ∃ l1 x l2, l = l1 ++ x :: l2 ∧ l' = l1 ++ f x :: l2 ∧ p x = true ∧
    Forall (fun y => p y = false) l1.
Proof.
  revert l'. induction l as [|y l IH]; intros l' H; simpl in H; [done|].
  destruct (p y) eqn:E.
  - simplify_eq. by exists [], y, l.
  - destruct (update_first p f l) as [l0|] eqn:E'; simplify_eq.
    destruct (IH _ eq_refl) as (l1 & x & l2 & -> & -> & Hx & Hl1).
    exists (y :: l1), x, l2. repeat split; auto.
Qed.

Lemma update_first_insert p f l l' :
  update_first p f l = Some l' →
  ∃ k x, l !! k = Some x ∧ p x = true ∧ l' = <[k := f x]> l.
Proof.
  intros (l1 & x & l2 & -> & -> & Hx & _)%update_first_Some.
  exists (length l1), x. split; [by rewrite list_lookup_middle|]. split; [done|].
  by rewrite insert_app_r_alt, Nat.sub_diag by lia.
Qed.

Lemma update_first_None p f l :
  update_first p f l = None ↔ Forall (fun y => p y = false) l.
Proof.
  induction l as [|y l IH]; simpl; [done|]. rewrite Forall_cons.
  destruct (p y) eqn:E; [split; [done|by intros [? _]]|].
  destruct (update_first p f l); [|naive_solver].
  split; [done|]. intros [_ H]. by apply IH in H.
Qed.

Lemma update_first_length p f l l' : update_first p f l = Some l' → length l' = length l.
Proof.
  intros (l1 & x & l2 & -> & -> & _)%update_first_Some. by rewrite !length_app.
Qed.

Lemma find_first_Some p l x :
  find_first p l = Some x →
  ∃ l1 l2, l = l1 ++ x :: l2 ∧ p x = true ∧ Forall (fun y => p y = false) l1.
Proof.
  induction l as [|y l IH]; intros H; simpl in H; [done|].
  destruct (p y) eqn:E; simplify_eq.
  - by exists [], l.
  - destruct (IH H) as (l1 & l2 & -> & Hx & Hl1). exists (y :: l1), l2. auto.
Qed.

Lemma find_first_None p l : find_first p l = None ↔ Forall (fun y => p y = false) l.
Proof.
  induction l as [|y l IH]; simpl; [done|]. rewrite Forall_cons.
  destruct (p y); [split; [done|by intros [? _]]|]. naive_solver.
Qed.

Lemma find_first_skip p l1 l2 :
  Forall (fun y => p y = false) l1 → find_first p (l1 ++ l2) = find_first p l2.
Proof. induction 1 as [|y l Hy _ IH]; simpl; [done|]. by rewrite Hy. Qed.

Lemma find_first_app p l1 l2 :
  find_first p (l1 ++ l2) =
    match find_first p l1 with Some x => Some x | None => find_first p l2 end.
Proof. induction l1 as [|y l IH]; simpl; [done|]. by destruct (p y). Qed.

Lemma find_first_elem p l x : find_first p l = Some x → x ∈ l ∧ p x = true.
Proof.
  intros (l1 & l2 & -> & Hx & _)%find_first_Some. split; [|done]. set_solver.
Qed.

Lemma find_first_is_Some p l x : x ∈ l → p x = true → ∃ y, find_first p l = Some y.
Proof.
  intros Hin Hp. destruct (find_first p l) eqn:E; [eauto|].
  apply find_first_None in E. rewrite Forall_forall in E. rewrite E in Hp; done.
Qed.

(** The element an update hits is the one the search finds, afterwards. *)
Lemma find_first_update_same p f l l' :
  update_first p f l = Some l' → (∀ x, p x = true → p (f x) = true) →
  ∃ x, find_first p l = Some x ∧ find_first p l' = Some (f x).
Proof.
  intros (l1 & x & l2 & -> & -> & Hx & Hl1)%update_first_Some Hf. exists x.
  rewrite !find_first_skip by done. simpl. by rewrite Hx, (Hf x Hx).
Qed.

(** A search for something else does not see the update. *)
Lemma find_first_update_other p q f l l' :
  update_first p f l = Some l' →
  (∀ x, p x = true → q x = false ∧ q (f x) = false) →
  find_first q l' = find_first q l.
Proof.
  intros (l1 & x & l2 & -> & -> & Hx & _)%update_first_Some Hf.
  rewrite !find_first_app. simpl. by destruct (Hf x Hx) as [-> ->].
Qed.
End loops.

Lemma take_length_take {A : Type} (n : nat) (l : list A) : take (length (take n l)) l = take n l.
Proof.
  rewrite length_take. destruct (decide (n <= length l)).
  - by rewrite Nat.min_l.
  - by rewrite !take_ge by lia.
Qed.

Lemma list_filter_all {A : Type} (P : A → Prop) `{∀ x, Decision (P x)} (l : list A) :
  Forall P l → filter P l = l.
Proof.
  induction 1 as [|x l Hx _ IH]; [done|]. rewrite filter_cons. by rewrite decide_True, IH.
Qed.

Lemma NoDup_fmap_filter {A B : Type} (f : A → B) (P : A → Prop) `{∀ x, Decision (P x)} (l : list A) :
  NoDup (f <$> l) → NoDup (f <$> filter P l).
Proof.
  induction l as [|x l IH]; [done|]. rewrite fmap_cons. intros [Hnin Hnd]%NoDup_cons.
  rewrite filter_cons. case_decide; [|auto]. rewrite fmap_cons. constructor; [|auto].
  intros (y & Hy & [_ Hin]%list_elem_of_filter)%list_elem_of_fmap. apply Hnin.
  apply list_elem_of_fmap. by exists y.
Qed.

(** ** Reachability *)

(** States reached from [init] by [step]. *)
Inductive reachable {S : Type} (init : S → Prop) (step : S → S → Prop) : S → Prop :=
| reach_init s : init s → reachable init step s
| reach_step s s' : reachable init step s → step s s' → reachable init step s'.

Lemma reachable_invariant {S : Type} (init : S → Prop) (step : S → S → Prop) (I : S → Prop) :
  (∀ s, init s → I s) → (∀ s s', I s → step s s' → I s') →
  ∀ s, reachable init step s → I s.
Proof. intros Hi Hs s. induction 1; eauto. Qed.
