(* ===== verification/Pmm.v ===== *)
(** Physical memory: the bitmap frame allocator of [kernel/src/mm/pmm.rs]
    and the heap sizing of [kernel/src/mm/heap.rs] that draws on it.

    A usize is a [Z]; array indexing that Rust bounds-checks is [exec]
    ([Panic] when out of range); subtraction and addition on usize wrap
    as in a release build.  Console output is not modelled. *)

From stdpp Require Import base numbers list gmap sets.
From S2P Require Import Prelude.
Local Open Scope Z_scope.
Local Open Scope rust_scope.

Module Pmm.

Definition PAGE_SIZE : Z := 4096.

(** The target the kernel is built for: [cfg(target_arch = ...)]. *)
Inductive arch := Riscv64 | X86_64.

Definition MEMORY_START (a : arch) : Z :=
  match a with
  | Riscv64 => 0x80200000
  | X86_64 => 0x00200000
  end.

(** [MEMORY_SIZE] (riscv64) and the initial value of the x86_64 static. *)
Definition DEFAULT_MEMORY_SIZE : Z := 128 * 1024 * 1024.

Record FrameAllocator := mkFrameAllocator {
  start : Z;
  bitmap : list Z;
  total_frames : Z;
  next_free : Z;
}.

(** [self.bitmap[i / 64] & (1u64 << (i % 64)) == 0] *)
Definition frame_is_free (bm : list Z) (i : Z) : exec bool :=
  match bm !! Z.to_nat (i / 64) with
  | None => Panic
  | Some w => Ret (Z.land w (Z.shiftl 1 (i mod 64)) =? 0)
  end.

(** [self.bitmap[i / 64] |= 1u64 << (i % 64)] *)
Definition mark_used (bm : list Z) (i : Z) : exec (list Z) :=
  match bm !! Z.to_nat (i / 64) with
  | None => Panic
  | Some w => Ret (<[Z.to_nat (i / 64) := Z.lor w (Z.shiftl 1 (i mod 64))]> bm)
  end.

(** [self.bitmap[i / 64] &= !(1u64 << (i % 64))] *)
Definition mark_free (bm : list Z) (i : Z) : exec (list Z) :=
  match bm !! Z.to_nat (i / 64) with
  | None => Panic
  | Some w => Ret (<[Z.to_nat (i / 64) := Z.land w (not64 (Z.shiftl 1 (i mod 64)))]> bm)
  end.

(** [FrameAllocator::new]; [kernel_end] is the address of [_ekernel]. *)
Definition new (a : arch) (mem_size kernel_end : Z) : FrameAllocator :=
  let start := Z.land (kernel_end +! PAGE_SIZE -! 1) (not64 (PAGE_SIZE - 1)) in
  let end_ := MEMORY_START a +! mem_size in
  let total_frames := (end_ -! start) / PAGE_SIZE in
  let bitmap_words := (total_frames +! 63) / 64 in
  let bitmap_size := bitmap_words *! 8 in
  let bitmap_start := start in
  let managed_start :=
    Z.land (bitmap_start +! bitmap_size +! PAGE_SIZE -! 1) (not64 (PAGE_SIZE - 1)) in
  let managed_frames := (end_ -! managed_start) / PAGE_SIZE in
  {| start := managed_start;
     bitmap := replicate (Z.to_nat bitmap_words) 0;
     total_frames := managed_frames;
     next_free := 0 |}.

(** [for i in lo..lo+n { if free(i) { .. return } }]: the first free index. *)
Fixpoint scan_free (bm : list Z) (i : Z) (n : nat) : exec (option Z) :=
  match n with
  | O => Ret None
  | S n' =>
      let! free := frame_is_free bm i in
      if free then Ret (Some i) else scan_free bm (i + 1) n'
  end.

(** The body of both search loops of [alloc] once a free index is found. *)
Definition take_frame (fa : FrameAllocator) (i : Z) : exec (option Z * FrameAllocator) :=
  let! bm := mark_used (bitmap fa) i in
  Ret (Some (start fa +! i *! PAGE_SIZE),
       {| start := start fa; bitmap := bm; total_frames := total_frames fa;
          next_free := i +! 1 |}).

Definition alloc (fa : FrameAllocator) : exec (option Z * FrameAllocator) :=
  let! r := scan_free (bitmap fa) (next_free fa)
              (Z.to_nat (total_frames fa - next_free fa)) in
  match r with
  | Some i => take_frame fa i
  | None =>
      let! r := scan_free (bitmap fa) 0 (Z.to_nat (next_free fa)) in
      match r with
      | Some i => take_frame fa i
      | None => Ret (None, fa)
      end
  end.

(** The scan of [alloc_contiguous]: the start of the first run of [count]
    free frames met from [i] on, given the run in progress. *)
Fixpoint scan_run (bm : list Z) (count i : Z) (n : nat) (run_start run_length : Z)
  : exec (option Z) :=
  match n with
  | O => Ret None
  | S n' =>
      let! free := frame_is_free bm i in
      if free then
        let run_start := if run_length =? 0 then i else run_start in
        let run_length := run_length +! 1 in
        if run_length =? count then Ret (Some run_start)
        else scan_run bm count (i + 1) n' run_start run_length
      else scan_run bm count (i + 1) n' run_start 0
  end.

(** [for j in j..j+n { mark j }] *)
Fixpoint mark_range (bm : list Z) (j : Z) (n : nat) : exec (list Z) :=
  match n with
  | O => Ret bm
  | S n' => let! bm := mark_used bm j in mark_range bm (j + 1) n'
  end.

Definition alloc_contiguous (fa : FrameAllocator) (count : Z)
  : exec (option Z * FrameAllocator) :=
  if count =? 0 then Ret (None, fa)
  else
    let! r := scan_run (bitmap fa) count 0 (Z.to_nat (total_frames fa)) 0 0 in
    match r with
    | None => Ret (None, fa)
    | Some run_start =>
        let! bm := mark_range (bitmap fa) run_start (Z.to_nat count) in
        Ret (Some (start fa +! run_start *! PAGE_SIZE),
             {| start := start fa; bitmap := bm; total_frames := total_frames fa;
                next_free := run_start +! count |})
    end.

Definition dealloc (fa : FrameAllocator) (frame : Z) : exec FrameAllocator :=
  let idx := (frame -! start fa) / PAGE_SIZE in
  if idx <? total_frames fa then
    let! bm := mark_free (bitmap fa) idx in
    Ret {| start := start fa; bitmap := bm; total_frames := total_frames fa;
           next_free := if idx <? next_free fa then idx else next_free fa |}
  else Ret fa.

(** ** The global allocator: [static FRAME_ALLOCATOR: Mutex<Option<..>>] *)

Definition total_memory (mem_size : Z) : Z := MEMORY_START X86_64 +! mem_size.

Definition is_ram_frame (a : arch) (mem_size addr : Z) : bool :=
  (MEMORY_START a <=? addr) && (addr <? MEMORY_START a +! mem_size).

Definition alloc_frame (g : option FrameAllocator)
  : exec (option Z * option FrameAllocator) :=
  match g with
  | None => Ret (None, None)
  | Some fa => let! (r, fa') := alloc fa in Ret (r, Some fa')
  end.

Definition dealloc_frame (g : option FrameAllocator) (frame : Z)
  : exec (option FrameAllocator) :=
  match g with
  | None => Ret None
  | Some fa => let! fa' := dealloc fa frame in Ret (Some fa')
  end.

Definition alloc_contiguous_frames (g : option FrameAllocator) (count : Z)
  : exec (option Z * option FrameAllocator) :=
  match g with
  | None => Ret (None, None)
  | Some fa => let! (r, fa') := alloc_contiguous fa count in Ret (r, Some fa')
  end.

(** [for i in i..i+n { if used(i) { used += 1 } }] *)
Fixpoint count_used (bm : list Z) (i : Z) (n : nat) (used : Z) : exec Z :=
  match n with
  | O => Ret used
  | S n' =>
      let! free := frame_is_free bm i in
      count_used bm (i + 1) n' (if free then used else used +! 1)
  end.

Definition debug_stats (g : option FrameAllocator) : exec (Z * Z * Z) :=
  match g with
  | Some fa =>
      let! used := count_used (bitmap fa) 0 (Z.to_nat (total_frames fa)) 0 in
      Ret (total_frames fa, used, next_free fa)
  | None => Ret (0, 0, 0)
  end.

(** [heap::init]: sizes the kernel heap and takes it from the allocator.
    Returns (HEAP_START, HEAP_SIZE); [expect] panics when the run is missing. *)
Definition heap_init (g : option FrameAllocator)
  : exec ((Z * Z) * option FrameAllocator) :=
  let! (total_frames, _, _) := debug_stats g in
  let total_ram := total_frames *! PAGE_SIZE in
  let heap_pages := Z.min (Z.max (total_ram / 16 / PAGE_SIZE) 2048) 16384 in
  let! (r, g') := alloc_contiguous_frames g heap_pages in
  match r with
  | None => Panic
  | Some heap_start => Ret ((heap_start, heap_pages *! PAGE_SIZE), g')
  end.

(** A small run: 24 KB of RAM above 2 MB, the kernel ending at 2 MB + 1. *)
Example new_alloc_small :
  let fa := new X86_64 0x6000 0x200001 in
  (start fa, total_frames fa, length (bitmap fa)) = (0x202000, 4, 1%nat) ∧
  (let! (a, fa) := alloc fa in
   let! (b, fa) := alloc fa in
   let! fa := dealloc fa 0x202000 in
   let! (c, fa) := alloc fa in
   let! (d, fa) := alloc fa in
   let! (e, fa) := alloc fa in
   let! (f, fa) := alloc fa in
   Ret (a, b, c, d, e, f))
  = Ret (Some 0x202000, Some 0x203000, Some 0x202000, Some 0x204000, Some 0x205000, None).
Proof. split; reflexivity. Qed.

(** ** Well-formed allocators and their abstraction *)

(** Bit [i] of the bitmap. *)
Definition bit_at (bm : list Z) (i : Z) : bool :=
  match bm !! Z.to_nat (i / 64) with
  | Some w => Z.testbit w (i mod 64)
  | None => false
  end.

Record wf (fa : FrameAllocator) : Prop := {
  wf_start : 0 <= start fa;
  wf_aligned : start fa mod PAGE_SIZE = 0;
  wf_end : start fa + total_frames fa * PAGE_SIZE < 2 ^ 64;
  wf_total : 0 <= total_frames fa <= 64 * Z.of_nat (length (bitmap fa));
  wf_next : 0 <= next_free fa <= total_frames fa;
  wf_words : Forall is_u64 (bitmap fa);
}.

(** What the allocator promises: a finite set of used frame indices. *)
Definition used (fa : FrameAllocator) : gset Z :=
  list_to_set (filter (fun i => bit_at (bitmap fa) i = true) (seqZ 0 (total_frames fa))).

(** The physical address of frame [i]. *)
Definition frame_addr (fa : FrameAllocator) (i : Z) : Z := start fa + i * PAGE_SIZE.

Lemma elem_of_used (fa : FrameAllocator) (i : Z) :
  i ∈ used fa ↔ 0 <= i < total_frames fa ∧ bit_at (bitmap fa) i = true.
Proof.
  unfold used. rewrite elem_of_list_to_set, list_elem_of_filter, elem_of_seqZ.
  split; intros [? ?]; split; (done || lia).
Qed.

Lemma word_index_lt (bm : list Z) (i : Z) :
  0 <= i < 64 * Z.of_nat (length bm) → (Z.to_nat (i / 64) < length bm)%nat.
Proof. intros H. assert (i / 64 < Z.of_nat (length bm)) by (apply Z.div_lt_upper_bound; lia). lia. Qed.

Lemma lookup_word (bm : list Z) (i : Z) :
  0 <= i < 64 * Z.of_nat (length bm) → ∃ w, bm !! Z.to_nat (i / 64) = Some w.
Proof. intros H. apply lookup_lt_is_Some, word_index_lt, H. Qed.

Lemma frame_is_free_spec (bm : list Z) (i : Z) :
  0 <= i < 64 * Z.of_nat (length bm) → frame_is_free bm i = Ret (negb (bit_at bm i)).
Proof.
  intros H. destruct (lookup_word bm i H) as [w Hw]. unfold frame_is_free, bit_at.
  rewrite Hw. rewrite bit_test by (pose proof (Z.mod_pos_bound i 64); lia). done.
Qed.

(** Updating the word of [i]: what [|=] and [&=] do to the bits. *)
Lemma bit_at_update (bm : list Z) (f : Z → Z) (i j w : Z) :
  0 <= i < 64 * Z.of_nat (length bm) → 0 <= j →
  bm !! Z.to_nat (i / 64) = Some w →
  bit_at (<[Z.to_nat (i / 64) := f w]> bm) j =
    if i / 64 =? j / 64 then Z.testbit (f w) (j mod 64) else bit_at bm j.
Proof.
  intros Hi Hj Hw. unfold bit_at. destruct (Z.eqb_spec (i / 64) (j / 64)) as [E|E].
  - rewrite <- E, list_lookup_insert_eq by (by apply word_index_lt). done.
  - assert (0 <= i / 64) by (apply Z.div_pos; lia). assert (0 <= j / 64) by (apply Z.div_pos; lia).
    rewrite list_lookup_insert_ne by lia. done.
Qed.

Lemma same_frame (i j : Z) : i / 64 = j / 64 → (i mod 64 =? j mod 64) = (i =? j).
Proof.
  intros E. pose proof (Z.div_mod i 64). pose proof (Z.div_mod j 64).
  destruct (Z.eqb_spec (i mod 64) (j mod 64)), (Z.eqb_spec i j); lia.
Qed.

Lemma mark_used_spec (bm : list Z) (i : Z) :
  0 <= i < 64 * Z.of_nat (length bm) → Forall is_u64 bm →
  ∃ bm', mark_used bm i = Ret bm' ∧ length bm' = length bm ∧ Forall is_u64 bm' ∧
    ∀ j, 0 <= j → bit_at bm' j = bit_at bm j || (i =? j).
Proof.
  intros Hi Hbm. destruct (lookup_word bm i Hi) as [w Hw]. unfold mark_used. rewrite Hw.
  pose proof (Z.mod_pos_bound i 64 ltac:(lia)) as Hm.
  eexists. split; [done|]. split; [by rewrite length_insert|]. split.
  - apply Forall_insert; [done|]. apply lor_range; [lia| |by apply pow2_range].
    eapply (Forall_lookup_1 is_u64); eauto.
  - intros j Hj. rewrite (bit_at_update bm (fun w => Z.lor w (Z.shiftl 1 (i mod 64)))) by done.
    destruct (Z.eqb_spec (i / 64) (j / 64)) as [E|E].
    + rewrite bit_set by lia. rewrite same_frame by done. unfold bit_at. by rewrite <- E, Hw.
    + destruct (Z.eqb_spec i j); [congruence|]. by rewrite orb_false_r.
Qed.

Lemma mark_free_spec (bm : list Z) (i : Z) :
  0 <= i < 64 * Z.of_nat (length bm) → Forall is_u64 bm →
  ∃ bm', mark_free bm i = Ret bm' ∧ length bm' = length bm ∧ Forall is_u64 bm' ∧
    ∀ j, 0 <= j → bit_at bm' j = bit_at bm j && negb (i =? j).
Proof.
  intros Hi Hbm. destruct (lookup_word bm i Hi) as [w Hw]. unfold mark_free. rewrite Hw.
  pose proof (Z.mod_pos_bound i 64 ltac:(lia)) as Hm.
  eexists. split; [done|]. split; [by rewrite length_insert|]. split.
  - apply Forall_insert; [done|]. apply land_range; [lia|].
    eapply (Forall_lookup_1 is_u64); eauto.
  - intros j Hj. pose proof (Z.mod_pos_bound j 64 ltac:(lia)) as Hmj.
    rewrite (bit_at_update bm (fun w => Z.land w (not64 (Z.shiftl 1 (i mod 64))))) by done.
    destruct (Z.eqb_spec (i / 64) (j / 64)) as [E|E].
    + rewrite bit_clear by lia. rewrite same_frame by done. unfold bit_at. by rewrite <- E, Hw.
    + destruct (Z.eqb_spec i j); [congruence|]. by rewrite andb_true_r.
Qed.

Lemma scan_free_spec (bm : list Z) (n : nat) : ∀ i,
  0 <= i → i + Z.of_nat n <= 64 * Z.of_nat (length bm) →
  ∃ r, scan_free bm i n = Ret r ∧
    match r with
    | Some j => i <= j < i + Z.of_nat n ∧ bit_at bm j = false ∧
                ∀ k, i <= k < j → bit_at bm k = true
    | None => ∀ k, i <= k < i + Z.of_nat n → bit_at bm k = true
    end.
Proof.
  induction n as [|n IH]; intros i Hi Hn; simpl.
  { exists None. split; [done|]. lia. }
  rewrite frame_is_free_spec by lia. simpl.
  destruct (bit_at bm i) eqn:E; simpl.
  - destruct (IH (i + 1)) as (r & -> & Hr); [lia..|]. exists r. split; [done|].
    destruct r as [j|].
    + destruct Hr as (Hj & Hb & Hk). repeat split; [lia..|done|].
      intros k Hk'. destruct (decide (k = i)) as [->|]; [done|]. apply Hk. lia.
    + intros k Hk'. destruct (decide (k = i)) as [->|]; [done|]. apply Hr. lia.
  - exists (Some i). split; [done|]. repeat split; [lia..|done|]. intros; lia.
Qed.

(** A run of [count] free frames at [s]. *)
Definition free_run (bm : list Z) (s count : Z) : Prop :=
  ∀ k, s <= k < s + count → bit_at bm k = false.

(** The scan in progress at [i]: the last [len] frames are free, and no run
    of [count] frames starts before them. *)
Definition scan_inv (bm : list Z) (count i rs len : Z) : Prop :=
  0 <= len < count ∧ len <= i ∧ (0 < len → rs = i - len) ∧
  free_run bm (i - len) len ∧
  ∀ s, 0 <= s < i - len → ¬ free_run bm s count.

Lemma scan_inv_free (bm : list Z) (count i rs len : Z) :
  scan_inv bm count i rs len → bit_at bm i = false → len + 1 < count →
  scan_inv bm count (i + 1) (if len =? 0 then i else rs) (len + 1).
Proof.
  intros (H1 & H2 & H3 & H4 & H5) Hb Hlt. unfold scan_inv, free_run in *.
  replace (i + 1 - (len + 1)) with (i - len) by lia.
  repeat split; [lia..| | |done].
  - intros _. destruct (Z.eqb_spec len 0); lia.
  - intros k Hk. destruct (decide (k = i)) as [->|]; [done|]. apply H4; lia.
Qed.

Lemma scan_inv_used (bm : list Z) (count i rs len : Z) :
  scan_inv bm count i rs len → bit_at bm i = true → scan_inv bm count (i + 1) rs 0.
Proof.
  intros (H1 & H2 & H3 & H4 & H5) Hb. unfold scan_inv, free_run in *.
  repeat split; [lia..|intros; lia|].
  intros s Hs Hrun. destruct (decide (s < i - len)); [apply (H5 s); [lia|done]|].
  specialize (Hrun i ltac:(lia)). congruence.
Qed.

(** The result of a scan from [i + 1] is one of a scan from [i]. *)
Ltac scan_shift Hr :=
  match goal with
  | |- match ?r with Some _ => _ | None => _ end =>
      destruct r as [?|];
      [ destruct Hr as (?&?&?&?); repeat split; (done || lia)
      | intros ???; apply Hr; lia ]
  end.

Lemma scan_run_spec (bm : list Z) (count : Z) (n : nat) : ∀ i rs len,
  scan_inv bm count i rs len → i + Z.of_nat n <= 64 * Z.of_nat (length bm) →
  count < 2 ^ 64 →
  ∃ r, scan_run bm count i n rs len = Ret r ∧
    match r with
    | Some s => 0 <= s ∧ s + count <= i + Z.of_nat n ∧ free_run bm s count ∧
                ∀ s', 0 <= s' < s → ¬ free_run bm s' count
    | None => ∀ s', 0 <= s' → s' + count <= i + Z.of_nat n → ¬ free_run bm s' count
    end.
Proof.
  induction n as [|n IH]; intros i rs len Hinv Hn Hc; cbn [scan_run].
  - exists None. split; [done|]. destruct Hinv as (H1 & H2 & _ & _ & H5).
    intros s' Hs Hle. apply H5. lia.
  - assert (Hinv0 := Hinv). destruct Hinv as (H1 & H2 & H3 & H4 & H5).
    rewrite frame_is_free_spec by lia. cbn [exec_bind].
    destruct (bit_at bm i) eqn:E; cbn [negb].
    + destruct (IH (i + 1) rs 0) as (r & -> & Hr); [by eapply scan_inv_used|lia..|].
      exists r. split; [done|]. scan_shift Hr.
    + rewrite u64_small by lia. destruct (Z.eqb_spec (len + 1) count) as [Hlc|Hlc].
      * eexists. split; [done|].
        assert ((if len =? 0 then i else rs) = i - len) as ->
          by (destruct (Z.eqb_spec len 0); lia).
        repeat split; [lia..| |done].
        intros k Hk. destruct (decide (k = i)) as [->|]; [done|]. apply H4; lia.
      * destruct (IH (i + 1) (if len =? 0 then i else rs) (len + 1)) as (r & -> & Hr);
          [apply scan_inv_free; [done..|lia]|lia..|].
        exists r. split; [done|]. scan_shift Hr.
Qed.

Lemma mark_range_spec (n : nat) : ∀ (bm : list Z) (j : Z),
  0 <= j → j + Z.of_nat n <= 64 * Z.of_nat (length bm) → Forall is_u64 bm →
  ∃ bm', mark_range bm j n = Ret bm' ∧ length bm' = length bm ∧ Forall is_u64 bm' ∧
    ∀ k, 0 <= k → bit_at bm' k = bit_at bm k || bool_decide (j <= k < j + Z.of_nat n).
Proof.
  induction n as [|n IH]; intros bm j Hj Hn Hbm; cbn [mark_range].
  - exists bm. repeat split; auto. intros k Hk.
    rewrite bool_decide_eq_false_2 by lia. by rewrite orb_false_r.
  - destruct (mark_used_spec bm j) as (bm1 & -> & Hl1 & Hw1 & Hb1); [lia|done|].
    cbn [exec_bind]. destruct (IH bm1 (j + 1)) as (bm2 & -> & Hl2 & Hw2 & Hb2); [lia|lia|done|].
    exists bm2. repeat split; [congruence|done|]. intros k Hk.
    rewrite Hb2, Hb1 by done. rewrite <- orb_assoc. f_equal.
    destruct (Z.eqb_spec j k); repeat case_bool_decide; simpl; auto; lia.
Qed.

Lemma count_used_spec (bm : list Z) (n : nat) : ∀ (i u : Z),
  0 <= i → 0 <= u → i + Z.of_nat n <= 64 * Z.of_nat (length bm) →
  u + Z.of_nat n < 2 ^ 64 →
  count_used bm i n u =
    Ret (u + Z.of_nat (length (filter (fun k => bit_at bm k = true) (seqZ i (Z.of_nat n))))).
Proof.
  induction n as [|n IH]; intros i u Hi Hu Hn Hmax; cbn [count_used].
  - rewrite seqZ_nil by lia. simpl. f_equal; lia.
  - rewrite frame_is_free_spec by lia. cbn [exec_bind].
    rewrite (seqZ_cons i) by lia.
    replace (Z.pred (Z.of_nat (S n))) with (Z.of_nat n) by lia.
    replace (Z.succ i) with (i + 1) by lia.
    destruct (bit_at bm i) eqn:E; cbn [negb].
    + rewrite u64_small by lia. rewrite IH by lia.
      rewrite filter_cons_True by done. cbn [length]. f_equal; lia.
    + rewrite IH by lia. rewrite filter_cons_False by congruence. f_equal; lia.
Qed.

(** ** Allocation and release as updates of the set of used frames *)

Lemma take_frame_spec (fa : FrameAllocator) (i : Z) :
  wf fa → 0 <= i < total_frames fa →
  ∃ fa', take_frame fa i = Ret (Some (frame_addr fa i), fa') ∧ wf fa' ∧
    start fa' = start fa ∧ total_frames fa' = total_frames fa ∧ next_free fa' = i + 1 ∧
    used fa' = {[i]} ∪ used fa.
Proof.
  intros [Hs Ha He Ht Hn Hw] Hi. unfold take_frame, PAGE_SIZE in *.
  destruct (mark_used_spec (bitmap fa) i) as (bm & -> & Hl & Hw' & Hb); [lia|done|].
  cbn [exec_bind]. eexists. split.
  { unfold frame_addr, PAGE_SIZE. rewrite (u64_small (i * 4096)), u64_small by lia. done. }
  cbn [start total_frames next_free bitmap]. rewrite u64_small by lia.
  repeat split; cbn [start total_frames next_free bitmap]; unfold PAGE_SIZE; try (done || lia).
  apply set_eq. intros j. rewrite elem_of_union, elem_of_singleton, !elem_of_used.
  cbn [total_frames bitmap]. split.
  - intros [Hj Hbit]. rewrite Hb in Hbit by lia. destruct (Z.eqb_spec i j); [by left|right].
    by rewrite orb_false_r in Hbit.
  - intros [->|[Hj Hbit]]; (split; [lia|]); rewrite Hb by lia.
    + by rewrite Z.eqb_refl, orb_true_r.
    + by rewrite Hbit.
Qed.

Lemma alloc_spec (fa : FrameAllocator) :
  wf fa →
  ∃ r fa', alloc fa = Ret (r, fa') ∧ wf fa' ∧
    start fa' = start fa ∧ total_frames fa' = total_frames fa ∧
    match r with
    | Some a => ∃ i, a = frame_addr fa i ∧ 0 <= i < total_frames fa ∧
                     (i ∉ used fa) ∧ used fa' = {[i]} ∪ used fa
    | None => fa' = fa ∧ ∀ i, 0 <= i < total_frames fa → i ∈ used fa
    end.
Proof.
  intros Hwf. assert (Hwf0 := Hwf). destruct Hwf as [Hs Ha He Ht Hn Hw]. unfold alloc.
  destruct (scan_free_spec (bitmap fa) (Z.to_nat (total_frames fa - next_free fa)) (next_free fa))
    as (r1 & -> & H1); [lia..|]. cbn [exec_bind].
  destruct r1 as [i|].
  { destruct H1 as (Hi & Hb & _).
    destruct (take_frame_spec fa i Hwf0 ltac:(lia)) as (fa' & -> & ? & ? & ? & _ & ?).
    eexists _, _. split; [done|]. splits; try done. exists i. repeat split; [lia..| |done].
    rewrite elem_of_used. intros [_ ?]. congruence. }
  destruct (scan_free_spec (bitmap fa) (Z.to_nat (next_free fa)) 0) as (r2 & -> & H2); [lia..|].
  cbn [exec_bind]. destruct r2 as [i|].
  { destruct H2 as (Hi & Hb & _).
    destruct (take_frame_spec fa i Hwf0 ltac:(lia)) as (fa' & -> & ? & ? & ? & _ & ?).
    eexists _, _. split; [done|]. splits; try done. exists i. repeat split; [lia..| |done].
    rewrite elem_of_used. intros [_ ?]. congruence. }
  eexists _, _. split; [done|]. splits; try done. intros i Hi. rewrite elem_of_used. split; [done|].
  destruct (decide (next_free fa <= i)); [apply H1; lia|apply H2; lia].
Qed.

(** Releasing any 64-bit address: inside the managed range its frame is
    freed (the address need not be aligned), outside nothing changes. *)
Lemma dealloc_spec (fa : FrameAllocator) (frame : Z) :
  wf fa → is_u64 frame →
  ∃ fa', dealloc fa frame = Ret fa' ∧ wf fa' ∧
    start fa' = start fa ∧ total_frames fa' = total_frames fa ∧
    used fa' = (if decide (start fa <= frame < frame_addr fa (total_frames fa))
                then used fa ∖ {[(frame - start fa) / PAGE_SIZE]} else used fa).
Proof.
  intros Hwf Hf. assert (Hwf0 := Hwf). destruct Hwf as [Hs Ha He Ht Hn Hw].
  unfold dealloc, frame_addr, PAGE_SIZE, is_u64 in *. case_decide as Hin.
  - rewrite u64_small by lia. set (i := (frame - start fa) / 4096).
    assert (0 <= i < total_frames fa) as Hi
      by (split; [apply Z.div_pos|apply Z.div_lt_upper_bound]; lia).
    rewrite (proj2 (Z.ltb_lt i (total_frames fa))) by lia.
    destruct (mark_free_spec (bitmap fa) i) as (bm & -> & Hl & Hw' & Hb); [lia|done|].
    cbn [exec_bind]. eexists. split; [done|].
    repeat split; cbn [start total_frames next_free bitmap]; unfold PAGE_SIZE;
      try (done || lia); try (destruct (Z.ltb_spec i (next_free fa)); lia).
    apply set_eq. intros j. rewrite elem_of_difference, elem_of_singleton, !elem_of_used.
    cbn [total_frames bitmap]. split.
    + intros [Hj Hbit]. rewrite Hb in Hbit by lia. apply andb_true_iff in Hbit as [? Hne].
      apply negb_true_iff, Z.eqb_neq in Hne. split; [done|congruence].
    + intros [[Hj Hbit] Hne]. split; [done|]. rewrite Hb, Hbit by lia.
      by rewrite (proj2 (Z.eqb_neq i j)) by congruence.
  - assert (((frame -! start fa) / 4096 <? total_frames fa) = false) as ->; [|by exists fa].
    apply Z.ltb_ge, Z.div_le_lower_bound; [lia|]. unfold u64, wrap.
    destruct (decide (frame < start fa)).
    + rewrite <- (Z.mod_add _ 1), Z.mod_small by lia. lia.
    + rewrite Z.mod_small by lia. lia.
Qed.

Lemma frame_addr_div (fa : FrameAllocator) (i : Z) :
  (frame_addr fa i - start fa) / PAGE_SIZE = i.
Proof.
  unfold frame_addr. replace (start fa + i * PAGE_SIZE - start fa) with (i * PAGE_SIZE) by lia.
  by apply Z.div_mul.
Qed.

(** The indices of a run of [count] frames from [s]. *)
Definition run_set (s count : Z) : gset Z := list_to_set (seqZ s count).

Lemma elem_of_run_set (s count i : Z) : i ∈ run_set s count ↔ s <= i < s + count.
Proof. unfold run_set. rewrite elem_of_list_to_set, elem_of_seqZ. done. Qed.

Lemma alloc_contiguous_spec (fa : FrameAllocator) (count : Z) :
  wf fa → 0 < count < 2 ^ 64 →
  ∃ r fa', alloc_contiguous fa count = Ret (r, fa') ∧ wf fa' ∧
    start fa' = start fa ∧ total_frames fa' = total_frames fa ∧
    match r with
    | Some a => ∃ s, a = frame_addr fa s ∧ 0 <= s ∧ s + count <= total_frames fa ∧
                     run_set s count ## used fa ∧ used fa' = run_set s count ∪ used fa
    | None => fa' = fa ∧
              ∀ s, 0 <= s → s + count <= total_frames fa → ∃ i, i ∈ run_set s count ∩ used fa
    end.
Proof.
  intros Hwf Hc. assert (Hwf0 := Hwf). destruct Hwf as [Hs Ha He Ht Hn Hw].
  unfold alloc_contiguous. rewrite (proj2 (Z.eqb_neq count 0)) by lia.
  destruct (scan_run_spec (bitmap fa) count (Z.to_nat (total_frames fa)) 0 0 0)
    as (r & -> & Hr); [unfold scan_inv, free_run; repeat split; intros; lia|lia..|].
  rewrite Z2Nat.id in Hr by lia. cbn [exec_bind]. destruct r as [s|].
  - destruct Hr as (Hs0 & Hle & Hfree & _).
    destruct (mark_range_spec (Z.to_nat count) (bitmap fa) s) as (bm & -> & Hl & Hw' & Hb);
      [lia|lia|done|].
    rewrite Z2Nat.id in Hb by lia.
    cbn [exec_bind]. eexists _, _. split; [done|]. unfold PAGE_SIZE in *.
    cbn [start total_frames next_free bitmap]. rewrite !u64_small by (rewrite ?u64_small; lia).
    repeat split; cbn [start total_frames next_free bitmap]; unfold PAGE_SIZE; try (done || lia).
    exists s. repeat split; [lia..| |].
    + apply elem_of_disjoint. intros i. rewrite elem_of_run_set, elem_of_used.
      intros Hi [_ Hbit]. rewrite Hfree in Hbit; [done|lia].
    + apply set_eq. intros j. rewrite elem_of_union, elem_of_run_set, !elem_of_used.
      cbn [total_frames bitmap]. split.
      * intros [Hj Hbit]. rewrite Hb in Hbit by lia. case_bool_decide; [by left|right].
        by rewrite orb_false_r in Hbit.
      * intros [Hj|[Hj Hbit]]; (split; [lia|]); rewrite Hb by lia.
        -- rewrite bool_decide_eq_true_2 by lia. apply orb_true_r.
        -- by rewrite Hbit.
  - eexists _, _. split; [done|]. splits; try done. intros s Hs0 Hle.
    destruct (decide (Forall (fun k => bit_at (bitmap fa) k = false) (seqZ s count))) as [F|F].
    + exfalso. apply (Hr s Hs0 ltac:(lia)). intros k Hk.
      rewrite Forall_forall in F. apply F, elem_of_seqZ. lia.
    + apply not_Forall_Exists in F; [|apply _]. apply Exists_exists in F as (k & Hk & Hb).
      apply elem_of_seqZ in Hk. exists k. rewrite elem_of_intersection, elem_of_run_set, elem_of_used.
      repeat split; [lia..|]. by apply not_false_is_true.
Qed.

(** ** The allocator as a state machine over the set of used frames *)

Inductive pmm_op :=
| OpAlloc
| OpAllocContiguous (count : Z)
| OpDealloc (frame : Z).

Definition exec_op (fa : FrameAllocator) (op : pmm_op) : exec (option Z * FrameAllocator) :=
  match op with
  | OpAlloc => alloc fa
  | OpAllocContiguous count => alloc_contiguous fa count
  | OpDealloc frame => let! fa' := dealloc fa frame in Ret (None, fa')
  end.

(** The abstract allocator over frames [0, total) at [base]: any free frame or
    run may be handed out, refusal only when there is none. *)
Inductive set_step (base total : Z) : gset Z → pmm_op → option Z → gset Z → Prop :=
| set_alloc U i :
    0 <= i < total → (i ∉ U) →
    set_step base total U OpAlloc (Some (base + i * PAGE_SIZE)) ({[i]} ∪ U)
| set_full U :
    (∀ i, 0 <= i < total → i ∈ U) → set_step base total U OpAlloc None U
| set_run U s count :
    0 <= s → 0 < count → s + count <= total → run_set s count ## U →
    set_step base total U (OpAllocContiguous count) (Some (base + s * PAGE_SIZE))
      (run_set s count ∪ U)
| set_no_run U count :
    (∀ s, 0 < count → 0 <= s → s + count <= total → ∃ i, i ∈ run_set s count ∩ U) →
    set_step base total U (OpAllocContiguous count) None U
| set_free U frame :
    base <= frame < base + total * PAGE_SIZE →
    set_step base total U (OpDealloc frame) None (U ∖ {[(frame - base) / PAGE_SIZE]})
| set_ignore U frame :
    ¬ base <= frame < base + total * PAGE_SIZE →
    set_step base total U (OpDealloc frame) None U.

Definition op_ok (op : pmm_op) : Prop :=
  match op with
  | OpAlloc => True
  | OpAllocContiguous count => is_u64 count
  | OpDealloc frame => is_u64 frame
  end.

(** C1: every operation of the bitmap allocator terminates without an
    out-of-range access, keeps the allocator well formed, and acts on the set
    of used frames as the abstract allocator does: [alloc] returns a free
    frame and refuses only when every frame is used, [alloc_contiguous]
    returns a run of free frames and refuses only when no such run exists,
    [dealloc] frees exactly the frame its address falls in. *)
Theorem pmm_refines_frame_set (fa : FrameAllocator) (op : pmm_op) :
  wf fa → op_ok op →
  ∃ r fa', exec_op fa op = Ret (r, fa') ∧ wf fa' ∧
    start fa' = start fa ∧ total_frames fa' = total_frames fa ∧
    set_step (start fa) (total_frames fa) (used fa) op r (used fa').
Proof.
  intros Hwf Hop. destruct op as [|count|frame]; cbn [exec_op op_ok] in *.
  - destruct (alloc_spec fa Hwf) as ([a|] & fa' & -> & ? & ? & ? & Hr); eexists _, _; splits; try done.
    + destruct Hr as (i & -> & ? & ? & ->). by apply set_alloc.
    + destruct Hr as [-> ?]. by apply set_full.
  - destruct (decide (count = 0)) as [->|].
    { eexists _, _. splits; try done. apply set_no_run. lia. }
    unfold is_u64 in Hop.
    destruct (alloc_contiguous_spec fa count Hwf ltac:(lia)) as ([a|] & fa' & -> & ? & ? & ? & Hr);
      eexists _, _; splits; try done.
    + destruct Hr as (s & -> & ? & ? & ? & ->). apply set_run; (done || lia).
    + destruct Hr as [-> ?]. apply set_no_run. auto.
  - destruct (dealloc_spec fa frame Hwf Hop) as (fa' & -> & ? & ? & ? & Hu).
    eexists _, _. splits; try done. rewrite Hu. case_decide; by constructor.
Qed.

(** The allocator of the small run above, four managed frames. *)
Definition small : FrameAllocator := new X86_64 0x6000 0x200001.

Lemma small_wf : wf small.
Proof.
  split; [vm_compute; intuition discriminate..|].
  apply Forall_replicate. unfold is_u64. lia.
Qed.

Lemma pmm_refines_frame_set_witness :
  let fa := small in
  ∃ r fa', exec_op fa (OpAllocContiguous 3) = Ret (r, fa') ∧ wf fa' ∧
    start fa' = start fa ∧ total_frames fa' = total_frames fa ∧
    set_step (start fa) (total_frames fa) (used fa) (OpAllocContiguous 3) r (used fa').
Proof.
  intros fa. apply pmm_refines_frame_set.
  - apply small_wf.
  - vm_compute. done.
Defined.

(** ** Clients that free only what they hold *)

(** [held fa live]: a history of allocations and releases from a fresh
    allocator, [live] being the frames handed out and not yet released. *)
Inductive held : FrameAllocator → list Z → Prop :=
| held_fresh fa :
    wf fa → used fa = ∅ → held fa []
| held_alloc fa live a fa' :
    held fa live → alloc fa = Ret (Some a, fa') → held fa' (a :: live)
| held_contiguous fa live count a fa' :
    held fa live → 0 < count < 2 ^ 64 →
    alloc_contiguous fa count = Ret (Some a, fa') →
    held fa' (((fun i => a + i * PAGE_SIZE) <$> seqZ 0 count) ++ live)
| held_dealloc fa live1 a live2 fa' :
    held fa (live1 ++ a :: live2) → dealloc fa a = Ret fa' → held fa' (live1 ++ live2).

Lemma frame_addr_inj (fa : FrameAllocator) (i j : Z) :
  frame_addr fa i = frame_addr fa j → i = j.
Proof. unfold frame_addr, PAGE_SIZE. lia. Qed.

(** The frames a client holds are exactly the used ones, each held once. *)
Definition accounts (fa : FrameAllocator) (live : list Z) : Prop :=
  wf fa ∧ NoDup live ∧
  ∀ a, a ∈ live ↔ ∃ i, i ∈ used fa ∧ a = frame_addr fa i.

Lemma accounts_grow (fa fa' : FrameAllocator) (live new : list Z) (I : gset Z) :
  accounts fa live → wf fa' → start fa' = start fa → NoDup new →
  (∀ a, a ∈ new ↔ ∃ i, i ∈ I ∧ a = frame_addr fa i) →
  I ## used fa → used fa' = I ∪ used fa → accounts fa' (new ++ live).
Proof.
  intros (_ & Hnd & Hlive) Hwf Hst Hnew Hin Hdisj Hu.
  assert (∀ i, frame_addr fa' i = frame_addr fa i) as Haddr
    by (intros; unfold frame_addr; by rewrite Hst).
  split; [done|]. split.
  - apply NoDup_app. split; [done|]. split; [|done].
    intros a (i & Hi & ->)%Hin (j & Hj & Heq)%Hlive.
    apply frame_addr_inj in Heq as ->. by apply (Hdisj j).
  - intros a. rewrite elem_of_app, Hin, Hlive, Hu. setoid_rewrite elem_of_union.
    setoid_rewrite Haddr. naive_solver.
Qed.

Lemma accounts_shrink (fa fa' : FrameAllocator) (l1 l2 : list Z) (a : Z) :
  accounts fa (l1 ++ a :: l2) → dealloc fa a = Ret fa' → accounts fa' (l1 ++ l2).
Proof.
  intros (Hwf & Hnd & Hlive) Ha.
  assert (a ∈ l1 ++ a :: l2) as Hin by set_solver.
  destruct (proj1 (Hlive a) Hin) as (i & Hi & ->).
  apply elem_of_used in Hi as Hi'. destruct Hi' as [Hi' _].
  assert (is_u64 (frame_addr fa i)) as Hu64
    by (destruct Hwf; unfold is_u64, frame_addr, PAGE_SIZE in *; lia).
  destruct (dealloc_spec fa _ Hwf Hu64) as (fa1 & E & Hwf1 & Hst & _ & Hu).
  rewrite E in Ha. simplify_eq.
  rewrite decide_True, frame_addr_div in Hu by (unfold frame_addr, PAGE_SIZE; lia).
  apply NoDup_app in Hnd as (Hnd1 & Hsep & Hnd2). apply NoDup_cons in Hnd2 as [Hna Hnd2].
  split; [done|]. split; [apply NoDup_app; set_solver|].
  intros b. rewrite Hu. assert (∀ j, frame_addr fa' j = frame_addr fa j) as Haddr
    by (intros; unfold frame_addr; by rewrite Hst).
  setoid_rewrite Haddr. setoid_rewrite elem_of_difference. setoid_rewrite elem_of_singleton.
  specialize (Hlive b). split.
  - intros Hb. destruct (proj1 Hlive) as (j & Hj & ->); [set_solver|].
    exists j. split; [|done]. split; [done|]. intros ->. set_solver.
  - intros (j & [Hj Hne] & ->). assert (frame_addr fa j ∈ l1 ++ frame_addr fa i :: l2) as Hb
      by (apply Hlive; eauto).
    apply elem_of_app. apply elem_of_app in Hb as [?|[Heq|?]%elem_of_cons]; [by left| |by right].
    by apply frame_addr_inj in Heq.
Qed.

Lemma held_accounts (fa : FrameAllocator) (live : list Z) : held fa live → accounts fa live.
Proof.
  induction 1 as [fa Hwf Hu|fa live a fa' _ IH Ha|fa live count a fa' _ IH Hc Ha
                 |fa l1 a l2 fa' _ IH Ha].
  - split; [done|]. split; [constructor|]. intros a. rewrite Hu. set_solver.
  - destruct (alloc_spec fa (proj1 IH)) as (r & fa1 & E & Hwf & Hst & _ & Hr).
    rewrite E in Ha. simplify_eq. destruct Hr as (i & -> & _ & Hi & Hu).
    change (frame_addr fa i :: live) with ([frame_addr fa i] ++ live).
    eapply (accounts_grow fa fa' live _ {[i]}); eauto using NoDup_singleton; [|set_solver].
    intros b. rewrite list_elem_of_singleton. set_solver.
  - destruct (alloc_contiguous_spec fa count (proj1 IH) Hc) as (r & fa1 & E & Hwf & Hst & _ & Hr).
    rewrite E in Ha. simplify_eq. destruct Hr as (s & -> & _ & _ & Hd & Hu).
    eapply (accounts_grow fa fa' live _ (run_set s count)); eauto.
    + apply NoDup_fmap_2_strong; [unfold PAGE_SIZE; intros; lia|apply NoDup_seqZ].
    + intros b. rewrite list_elem_of_fmap. setoid_rewrite elem_of_run_set.
      setoid_rewrite elem_of_seqZ. unfold frame_addr. split; intros (i & Hi & Hj).
      * exists (s + i). lia.
      * exists (i - s). unfold PAGE_SIZE in *. lia.
  - destruct IH as (Hwf & Hnd & Hlive). eapply accounts_shrink; [by split|done].
Qed.

(** Whatever sequence of [alloc], [alloc_contiguous] and [dealloc] a
    client that frees only frames it holds runs on a fresh allocator, no frame
    is ever held twice, and a frame is marked used in the bitmap exactly when
    it is held. *)
Theorem pmm_no_double_allocation (fa : FrameAllocator) (live : list Z) :
  held fa live →
  NoDup live ∧ ∀ i, 0 <= i < total_frames fa → (i ∈ used fa ↔ frame_addr fa i ∈ live).
Proof.
  intros (Hwf & Hnd & Hlive)%held_accounts. split; [done|]. intros i Hi. rewrite Hlive. split.
  - eauto.
  - intros (j & Hj & Heq). by apply frame_addr_inj in Heq as ->.
Qed.

(** Two frames taken, the first released, a run of two taken. *)
Lemma pmm_no_double_allocation_witness :
  ∃ fa live, held fa live ∧ length live = 3%nat ∧
    NoDup live ∧ ∀ i, 0 <= i < total_frames fa → (i ∈ used fa ↔ frame_addr fa i ∈ live).
Proof.
  destruct (alloc small) as [[[a|] fa1]|] eqn:E1; [|vm_compute in E1; discriminate..].
  destruct (alloc fa1) as [[[b|] fa2]|] eqn:E2; [|vm_compute in E1; simplify_eq; vm_compute in E2; discriminate..].
  destruct (dealloc fa2 a) as [fa3|] eqn:E3;
    [|vm_compute in E1; simplify_eq; vm_compute in E2; simplify_eq; vm_compute in E3; discriminate].
  destruct (alloc_contiguous fa3 2) as [[[c|] fa4]|] eqn:E4;
    [|vm_compute in E1; simplify_eq; vm_compute in E2; simplify_eq;
      vm_compute in E3; simplify_eq; vm_compute in E4; discriminate..].
  assert (held fa4 (((fun i => c + i * PAGE_SIZE) <$> seqZ 0 2) ++ ([b] ++ []))) as H.
  { eapply held_contiguous; [|lia|exact E4]. eapply (held_dealloc fa2 [b] a []); [|exact E3].
    eapply held_alloc; [|exact E2]. eapply held_alloc; [|exact E1].
    apply held_fresh; [apply small_wf|]. by apply set_eq; vm_compute. }
  exists fa4, (((fun i => c + i * PAGE_SIZE) <$> seqZ 0 2) ++ ([b] ++ [])).
  split; [done|]. split; [done|]. by apply pmm_no_double_allocation.
Defined.

(** ** The layout [FrameAllocator::new] computes *)

Definition align_up (x : Z) : Z := (x + (PAGE_SIZE - 1)) / PAGE_SIZE * PAGE_SIZE.

Lemma align_up_bounds (x : Z) : 0 <= x → x <= align_up x < x + PAGE_SIZE.
Proof.
  unfold align_up, PAGE_SIZE. change (4096 - 1) with 4095. intros.
  pose proof (Z.div_mod (x + 4095) 4096). pose proof (Z.mod_pos_bound (x + 4095) 4096). lia.
Qed.

Lemma align_up_land (x : Z) :
  0 <= x → x + PAGE_SIZE <= 2 ^ 64 → Z.land (x +! PAGE_SIZE -! 1) (not64 (PAGE_SIZE - 1)) = align_up x.
Proof.
  unfold align_up, PAGE_SIZE. intros H0 H1.
  change (4096 - 1) with 4095. assert ((x +! 4096 -! 1) = x + 4095) as ->.
  { unfold u64, wrap. rewrite Zminus_mod_idemp_l, Z.mod_small; lia. }
  change 4095 with (2 ^ 12 - 1) at 2. rewrite land_not_ones; [done|lia|unfold is_u64; lia].
Qed.

(** [FrameAllocator::new] yields a well-formed allocator with every frame
    free, provided the kernel image ends inside RAM: its bitmap has a bit for
    every managed frame and lies between the page-aligned kernel end and the
    first managed frame, and the managed frames end inside RAM. *)
Theorem pmm_new_layout (a : arch) (mem_size kernel_end : Z) :
  0 <= kernel_end → 0 <= mem_size →
  let end_ := MEMORY_START a + mem_size in
  align_up kernel_end <= end_ → end_ + 2 * PAGE_SIZE < 2 ^ 64 →
  let fa := new a mem_size kernel_end in
  wf fa ∧ used fa = ∅ ∧
  kernel_end <= align_up kernel_end ∧
  align_up kernel_end + 8 * Z.of_nat (length (bitmap fa)) <= start fa ∧
  start fa + total_frames fa * PAGE_SIZE <= end_.
Proof.
  intros Hk Hm end_ Hle Hend fa.
  pose proof (align_up_bounds kernel_end Hk) as Hup. unfold PAGE_SIZE in *.
  unfold fa, new. rewrite (align_up_land kernel_end) by (unfold PAGE_SIZE; lia).
  assert (0 <= MEMORY_START a) by (by destruct a).
  rewrite (u64_small (MEMORY_START a + mem_size)) by lia. fold end_.
  set (st := align_up kernel_end) in *. unfold PAGE_SIZE.
  rewrite (u64_small (end_ - st)) by lia.
  set (tf := (end_ - st) / 4096). assert (0 <= tf <= 2 ^ 52 ∧ tf * 4096 <= end_ - st) as [Htf Htf'].
  { pose proof (Z.div_mod (end_ - st) 4096). pose proof (Z.mod_pos_bound (end_ - st) 4096).
    unfold tf. split; [|lia]. split; [apply Z.div_pos; lia|]. lia. }
  rewrite (u64_small (tf + 63)) by lia. set (bw := (tf + 63) / 64).
  assert (0 <= bw <= tf ∧ tf <= 64 * bw) as [Hbw Hbw'].
  { pose proof (Z.div_mod (tf + 63) 64). pose proof (Z.mod_pos_bound (tf + 63) 64). unfold bw. lia. }
  rewrite (u64_small (bw * 8)), (u64_small (st + bw * 8)) by lia.
  change 4096 with PAGE_SIZE. rewrite (align_up_land (st + bw * 8)) by (unfold PAGE_SIZE; lia).
  pose proof (align_up_bounds (st + bw * 8) ltac:(lia)) as Hms. unfold PAGE_SIZE in Hms.
  set (ms := align_up (st + bw * 8)) in *.
  assert (ms <= st + tf * 4096) as Hms'.
  { unfold ms, align_up, PAGE_SIZE, st, align_up, PAGE_SIZE. change (4096 - 1) with 4095.
    set (q := (kernel_end + 4095) / 4096).
    pose proof (Z.div_mod (q * 4096 + bw * 8 + 4095) 4096).
    pose proof (Z.mod_pos_bound (q * 4096 + bw * 8 + 4095) 4096). nia. }
  unfold PAGE_SIZE. rewrite u64_small by lia. set (mf := (end_ - ms) / 4096).
  assert (0 <= mf <= tf ∧ ms + mf * 4096 <= end_) as [Hmf Hmf'].
  { pose proof (Z.div_mod (end_ - ms) 4096). pose proof (Z.mod_pos_bound (end_ - ms) 4096).
    unfold mf, tf. split; [split; [apply Z.div_pos; lia|apply Z.div_le_mono; lia]|lia]. }
  splits; cbn [start total_frames bitmap]; rewrite ?length_replicate; try lia.
  - split; cbn [start total_frames bitmap next_free]; rewrite ?length_replicate; unfold PAGE_SIZE; try lia.
    + unfold ms, align_up, PAGE_SIZE. apply Z.mod_mul. lia.
    + apply Forall_replicate. unfold is_u64. lia.
  - apply set_eq. intros i. rewrite elem_of_used. cbn [bitmap]. unfold bit_at.
    split; [|set_solver]. intros [_ Hb]. destruct (replicate _ _ !! _) as [w|] eqn:E; [|done].
    apply lookup_replicate in E as [-> _]. by rewrite Z.testbit_0_l in Hb.
Qed.

(** The riscv64 machine of the sources: 128 MB, a 2 MB kernel image. *)
Lemma pmm_new_layout_witness :
  let fa := new Riscv64 DEFAULT_MEMORY_SIZE 0x80400123 in
  start fa = 0x80402000 ∧ wf fa ∧ used fa = ∅ ∧
  0x80400123 <= align_up 0x80400123 ∧
  align_up 0x80400123 + 8 * Z.of_nat (length (bitmap fa)) <= start fa ∧
  start fa + total_frames fa * PAGE_SIZE <= MEMORY_START Riscv64 + DEFAULT_MEMORY_SIZE.
Proof.
  intros fa. split; [by vm_compute|].
  apply (pmm_new_layout Riscv64 DEFAULT_MEMORY_SIZE 0x80400123); vm_compute; intuition discriminate.
Defined.

(** ** The kernel heap *)

Definition heap_pages (fa : FrameAllocator) : Z :=
  Z.min (Z.max (total_frames fa * PAGE_SIZE / 16 / PAGE_SIZE) 2048) 16384.

(** [heap::init] takes between 8 MB and 64 MB as one run of frames that were
    free, and panics exactly when there is no such run. *)
Lemma heap_init_spec (fa : FrameAllocator) :
  wf fa →
  (heap_init (Some fa) = Panic ∧
   ∀ s, 0 <= s → s + heap_pages fa <= total_frames fa →
        ∃ i, i ∈ run_set s (heap_pages fa) ∩ used fa) ∨
  (∃ s fa', heap_init (Some fa) = Ret ((frame_addr fa s, heap_pages fa * PAGE_SIZE), Some fa') ∧
     wf fa' ∧ 0 <= s ∧ s + heap_pages fa <= total_frames fa ∧
     run_set s (heap_pages fa) ## used fa ∧
     used fa' = run_set s (heap_pages fa) ∪ used fa ∧
     8 * 1024 * 1024 <= heap_pages fa * PAGE_SIZE <= 64 * 1024 * 1024).
Proof.
  intros Hwf. assert (Hwf0 := Hwf). destruct Hwf as [Hs Ha He Ht Hn Hw].
  unfold heap_init, debug_stats. unfold PAGE_SIZE in He.
  rewrite count_used_spec by lia. cbn [exec_bind alloc_contiguous_frames].
  rewrite (u64_small (_ * PAGE_SIZE)) by (unfold PAGE_SIZE; lia). fold (heap_pages fa).
  assert (2048 <= heap_pages fa <= 16384) as Hp by (unfold heap_pages; lia).
  destruct (alloc_contiguous_spec fa (heap_pages fa) Hwf0 ltac:(lia))
    as ([a|] & fa' & -> & Hwf' & _ & _ & Hr); cbn [exec_bind].
  - right. destruct Hr as (s & -> & ? & ? & ? & ?). exists s, fa'.
    rewrite u64_small by (unfold PAGE_SIZE; lia). unfold PAGE_SIZE. splits; (done || lia).
  - left. split; [done|]. apply Hr.
Qed.

End Pmm.
