(* ===== verification/Vma.v ===== *)
(** Virtual memory areas: the per-address-space region tables of
    [kernel/src/mm/vma.rs].

    The registry is the array [VM_STATES], keyed by page-table root; each
    entry holds a fixed array of regions and the mmap bump pointer.  The array
    types fix the lengths ([MAX_VMAS], [MAX_ADDRESS_SPACES]), so a loop over
    [0..MAX_VMAS] is a loop over the indices of the list. *)

From stdpp Require Import base numbers list gmap.
From S2P Require Import Prelude.
Local Open Scope Z_scope.
Local Open Scope rust_scope.

Module Vma.

Definition MAX_VMAS : nat := 1024.
Definition MAX_ADDRESS_SPACES : nat := 512.

(** [process::USER_MMAP_BASE], [process::USER_MMAP_LIMIT], [pmm::page_size()] *)
Definition USER_MMAP_BASE : Z := 0x20000000.
Definition USER_MMAP_LIMIT : Z := 0x00007FFFFFFFF000.
Definition page_size : Z := 4096.

Record VmaRegion := mkVma {
  v_start : Z;
  v_end : Z;
  v_prot : Z;
  v_active : bool;
}.

Definition empty : VmaRegion := mkVma 0 0 0 false.

Record VmState := mkVmState {
  vmas : list VmaRegion;
  next_mmap_addr : Z;
  max_elf_vaddr : Z;
}.

Definition clear (st : VmState) : VmState :=
  mkVmState ((fun _ => empty) <$> vmas st) 0 0.

Definition copy_from (self other : VmState) : VmState :=
  mkVmState (vmas other) (next_mmap_addr other) (max_elf_vaddr other).

Record VmStateSlot := mkSlot {
  s_root : Z;
  s_active : bool;
  s_state : VmState;
}.

Definition vm_state_slot_default : VmStateSlot :=
  mkSlot 0 false (mkVmState (replicate MAX_VMAS empty) 0 0).

Definition VM_STATES : list VmStateSlot := replicate MAX_ADDRESS_SPACES vm_state_slot_default.

(** [slot.active && slot.root == root] *)
Definition has_root (root : Z) (s : VmStateSlot) : bool := s_active s && (s_root s =? root).

(** ** Registry management *)

Definition init_root (reg : list VmStateSlot) (root : Z) : result unit unit * list VmStateSlot :=
  if root =? 0 then (Err tt, reg)
  else
    match update_first (has_root root)
            (fun s => mkSlot (s_root s) (s_active s) (clear (s_state s))) reg with
    | Some reg' => (Ok tt, reg')
    | None =>
        match update_first (fun s => negb (s_active s))
                (fun s => mkSlot root true (clear (s_state s))) reg with
        | Some reg' => (Ok tt, reg')
        | None => (Err tt, reg)
        end
    end.

Definition release_root (reg : list VmStateSlot) (root : Z) : list VmStateSlot :=
  if root =? 0 then reg
  else
    match update_first (has_root root) (fun s => mkSlot 0 false (clear (s_state s))) reg with
    | Some reg' => reg'
    | None => reg
    end.

(** The scan of [clone_root_state]: the last slot of [src_root], the first
    inactive slot. *)
Fixpoint clone_scan (reg : list VmStateSlot) (src_root : Z) (i : nat)
    (src_idx dst_idx : option nat) : option nat * option nat :=
  match reg with
  | [] => (src_idx, dst_idx)
  | s :: reg' =>
      let src_idx := if has_root src_root s then Some i else src_idx in
      let dst_idx :=
        if negb (s_active s) && match dst_idx with None => true | Some _ => false end
        then Some i else dst_idx in
      clone_scan reg' src_root (S i) src_idx dst_idx
  end.

Definition clone_root_state (reg : list VmStateSlot) (src_root dst_root : Z)
  : result unit unit * list VmStateSlot :=
  if (src_root =? 0) || (dst_root =? 0) then (Err tt, reg)
  else
    match clone_scan reg src_root 0 None None with
    | (Some src_idx, Some dst_idx) =>
        match reg !! src_idx, reg !! dst_idx with
        | Some src, Some dst =>
            let state :=
              if decide (src_idx = dst_idx) then s_state dst
              else copy_from (s_state dst) (s_state src) in
            (Ok tt, <[dst_idx := mkSlot dst_root true state]> reg)
        | _, _ => (Err tt, reg)
        end
    | _ => (Err tt, reg)
    end.

Definition with_state {R : Type} (reg : list VmStateSlot) (root : Z) (f : VmState → R * VmState)
  : result R unit * list VmStateSlot :=
  match find_first (has_root root) reg with
  | Some s =>
      match update_first (has_root root)
              (fun s => mkSlot (s_root s) (s_active s) (snd (f (s_state s)))) reg with
      | Some reg' => (Ok (fst (f (s_state s))), reg')
      | None => (Err tt, reg)
      end
  | None => (Err tt, reg)
  end.

Definition with_state_ref {R : Type} (reg : list VmStateSlot) (root : Z) (f : VmState → R)
  : result R unit :=
  match find_first (has_root root) reg with
  | Some s => Ok (f (s_state s))
  | None => Err tt
  end.

Definition unwrap_or {A E : Type} (r : result A E) (d : A) : A :=
  match r with Ok a => a | Err _ => d end.

(** ** Queries *)

(** [vma.active && addr >= vma.start && addr < vma.end] *)
Definition covers_addr (addr : Z) (v : VmaRegion) : bool :=
  v_active v && (v_start v <=? addr) && (addr <? v_end v).

(** [vma.active && vma.start < end && vma.end > start] *)
Definition overlaps (start end_ : Z) (v : VmaRegion) : bool :=
  v_active v && (v_start v <? end_) && (start <? v_end v).

(** One iteration of [vma_check]: (best_prot, best_size). *)
Definition check_step (addr : Z) (best : option Z * Z) (v : VmaRegion) : option Z * Z :=
  if covers_addr addr v then
    let size := v_end v -! v_start v in
    let cur_accessible := negb (v_prot v =? 0) in
    let best_accessible := match fst best with Some p => negb (p =? 0) | None => false end in
    if (cur_accessible && negb best_accessible)
       || (eqb cur_accessible best_accessible && (size <? snd best))
    then (if v_prot v =? 0 then None else Some (v_prot v), size)
    else best
  else best.

Definition vma_check (reg : list VmStateSlot) (root addr : Z) : option Z :=
  unwrap_or (with_state_ref reg root
    (fun st => fst (foldl (check_step addr) (None, USIZE_MAX) (vmas st)))) None.

Definition vma_query (reg : list VmStateSlot) (root addr : Z) : option Z :=
  unwrap_or (with_state_ref reg root
    (fun st => v_prot <$> find_first (covers_addr addr) (vmas st))) None.

Definition vma_overlaps (reg : list VmStateSlot) (root start end_ : Z) : bool :=
  unwrap_or (with_state_ref reg root
    (fun st => existsb (overlaps start end_) (vmas st))) false.

(** ** Updates *)

Definition insert_vma (vs : list VmaRegion) (start end_ prot : Z)
  : result unit unit * list VmaRegion :=
  if end_ <=? start then (Ok tt, vs)
  else
    match update_first (fun v => negb (v_active v))
            (fun _ => mkVma start end_ prot true) vs with
    | Some vs' => (Ok tt, vs')
    | None => (Err tt, vs)
    end.

(** The body of the loop of [split_overlapping_vmas] at index [i]. *)
Definition split_at (vs : list VmaRegion) (i : nat) (start end_ : Z)
  : result unit unit * list VmaRegion :=
  match vs !! i with
  | None => (Ok tt, vs)
  | Some v =>
      if negb (v_active v) || (end_ <=? v_start v) || (v_end v <=? start) then (Ok tt, vs)
      else if (v_start v <? start) && (end_ <? v_end v) then
        insert_vma (<[i := mkVma (v_start v) start (v_prot v) (v_active v)]> vs)
          end_ (v_end v) (v_prot v)
      else if v_start v <? start then
        (Ok tt, <[i := mkVma (v_start v) start (v_prot v) (v_active v)]> vs)
      else if end_ <? v_end v then
        (Ok tt, <[i := mkVma end_ (v_end v) (v_prot v) (v_active v)]> vs)
      else
        (Ok tt, <[i := mkVma (v_start v) (v_end v) (v_prot v) false]> vs)
  end.

Fixpoint split_loop (vs : list VmaRegion) (i n : nat) (start end_ : Z)
  : result unit unit * list VmaRegion :=
  match n with
  | O => (Ok tt, vs)
  | S n' =>
      match split_at vs i start end_ with
      | (Ok _, vs') => split_loop vs' (S i) n' start end_
      | (Err e, vs') => (Err e, vs')
      end
  end.

Definition split_overlapping_vmas (vs : list VmaRegion) (start end_ : Z)
  : result unit unit * list VmaRegion :=
  split_loop vs 0 (length vs) start end_.

Definition set_vmas (st : VmState) (vs : list VmaRegion) : VmState :=
  mkVmState vs (next_mmap_addr st) (max_elf_vaddr st).

(** The closure of [vma_add]. *)
Definition add_vma (start end_ prot : Z) (map_fixed : bool) (st : VmState)
  : result unit unit * VmState :=
  match (if map_fixed then split_overlapping_vmas (vmas st) start end_ else (Ok tt, vmas st)) with
  | (Err e, vs) => (Err e, set_vmas st vs)
  | (Ok _, vs) =>
      match insert_vma vs start end_ prot with
      | (r, vs') => (r, set_vmas st vs')
      end
  end.

(** [with_state(..)?]: a missing root and a failed closure are both [Err]. *)
Definition flatten {A : Type} (r : result (result A unit) unit) : result A unit :=
  match r with
  | Ok r' => r'
  | Err e => Err e
  end.

Definition vma_add (reg : list VmStateSlot) (root start end_ prot : Z) (map_fixed : bool)
  : result unit unit * list VmStateSlot :=
  match with_state reg root (add_vma start end_ prot map_fixed) with
  | (r, reg') => (flatten r, reg')
  end.

Definition vma_remove_range (reg : list VmStateSlot) (root start end_ : Z) : list VmStateSlot :=
  snd (with_state reg root
    (fun st => (tt, set_vmas st (snd (split_overlapping_vmas (vmas st) start end_))))).

Definition vma_update_prot (reg : list VmStateSlot) (root start end_ new_prot : Z)
  : list VmStateSlot :=
  snd (with_state reg root
    (fun st => (tt, set_vmas st
      ((fun v => if overlaps start end_ v
                 then mkVma (v_start v) (v_end v) new_prot (v_active v) else v) <$> vmas st)))).

Definition ensure_mmap_above (reg : list VmStateSlot) (root min_addr : Z) : list VmStateSlot :=
  let aligned := Z.land (min_addr +! 4095) (not64 4095) in
  snd (with_state reg root
    (fun st => (tt, mkVmState (vmas st)
      (if next_mmap_addr st <? aligned then aligned else next_mmap_addr st)
      (if max_elf_vaddr st <? aligned then aligned else max_elf_vaddr st)))).

Definition register_elf_vma (reg : list VmStateSlot) (root start end_ prot : Z)
  : list VmStateSlot :=
  snd (vma_add reg root start end_ prot false).

Definition vma_is_elf (reg : list VmStateSlot) (root addr : Z) : bool :=
  unwrap_or (with_state_ref reg root
    (fun st => negb (max_elf_vaddr st =? 0) && (0x400000 <=? addr) && (addr <? max_elf_vaddr st)
               && existsb (covers_addr addr) (vmas st))) false.

(** [.map(|v| v.end).max()] *)
Definition max_end (vs : list VmaRegion) : option Z :=
  foldl (fun m v => match m with Some e => Some (Z.max e (v_end v)) | None => Some (v_end v) end)
    None vs.

(** The [loop] of [reserve_mmap_addr]; [None] when the fuel runs out. *)
Fixpoint reserve_loop (fuel : nat) (st : VmState) (aligned_len : Z)
  : option (result Z unit * VmState) :=
  match fuel with
  | O => None
  | S fuel' =>
      let base := next_mmap_addr st in
      let candidate :=
        if 0 <? base then base
        else if 0 <? USER_MMAP_BASE then USER_MMAP_BASE else base in
      let end_addr := match checked_add candidate aligned_len with Some e => e | None => 0 end in
      if (USER_MMAP_LIMIT <? end_addr) || (end_addr =? 0) then Some (Err tt, st)
      else if existsb (overlaps candidate end_addr) (vmas st) then
        let conflict_end :=
          match max_end (filter (fun v => overlaps candidate end_addr v = true) (vmas st)) with
          | Some e => e
          | None => candidate +! aligned_len
          end in
        reserve_loop fuel'
          (mkVmState (vmas st)
             (Z.land (conflict_end +! page_size -! 1) (not64 (page_size - 1)))
             (max_elf_vaddr st))
          aligned_len
      else Some (Ok candidate, mkVmState (vmas st) end_addr (max_elf_vaddr st))
  end.

(** One iteration per region at most, and one to succeed. *)
Definition reserve_fuel (st : VmState) : nat := S (length (vmas st)).

Definition reserve_mmap_addr (reg : list VmStateSlot) (root len : Z)
  : result Z unit * list VmStateSlot :=
  let aligned_len := Z.land (len +! page_size -! 1) (not64 (page_size - 1)) in
  match with_state reg root
          (fun st => match reserve_loop (reserve_fuel st) st aligned_len with
                     | Some (r, st') => (r, st')
                     | None => (Err tt, st)
                     end) with
  | (r, reg') => (flatten r, reg')
  end.

Definition vma_clear_root (reg : list VmStateSlot) (root : Z) : list VmStateSlot :=
  snd (with_state reg root (fun st => (tt, clear st))).

(** ** Tables as partial maps from addresses to protections *)

(** Some active region contains [a] with protection [p]. *)
Definition covered (vs : list VmaRegion) (a p : Z) : Prop :=
  ∃ i v, vs !! i = Some v ∧ covers_addr a v = true ∧ v_prot v = p.

(** No address lies in two active regions. *)
Definition unique_cover (vs : list VmaRegion) : Prop :=
  ∀ a i j v w, vs !! i = Some v → vs !! j = Some w →
    covers_addr a v = true → covers_addr a w = true → i = j.

Lemma covers_addr_true (a : Z) (v : VmaRegion) :
  covers_addr a v = true ↔ v_active v = true ∧ v_start v <= a < v_end v.
Proof. unfold covers_addr. rewrite !andb_true_iff, Z.leb_le, Z.ltb_lt. tauto. Qed.

Lemma overlaps_true (s e : Z) (v : VmaRegion) :
  overlaps s e v = true ↔ v_active v = true ∧ v_start v < e ∧ s < v_end v.
Proof. unfold overlaps. rewrite !andb_true_iff, !Z.ltb_lt. tauto. Qed.

(** What replacing region [i] by [x] does to the map, when inside [P] the new
    region covers what the old one did. *)
Lemma covered_replace (vs : list VmaRegion) (i : nat) (v x : VmaRegion) (a p : Z) :
  vs !! i = Some v →
  (covers_addr a x = true ∧ v_prot x = p ↔ covers_addr a v = true ∧ v_prot v = p) →
  covered (<[i := x]> vs) a p ↔ covered vs a p.
Proof.
  intros Hi Heq. assert (i < length vs)%nat by (by eapply lookup_lt_Some). split.
  - intros (j & w & Hj & Hw). destruct (decide (j = i)) as [->|].
    + rewrite list_lookup_insert_eq in Hj by done. simplify_eq. exists i, v. tauto.
    + rewrite list_lookup_insert_ne in Hj by done. by exists j, w.
  - intros (j & w & Hj & Hw). destruct (decide (j = i)) as [->|].
    + simplify_eq. exists i, x. rewrite list_lookup_insert_eq by done. tauto.
    + exists j, w. by rewrite list_lookup_insert_ne.
Qed.

Lemma covered_fill (vs : list VmaRegion) (k : nat) (v x : VmaRegion) (a p : Z) :
  vs !! k = Some v → v_active v = false →
  covered (<[k := x]> vs) a p ↔ covered vs a p ∨ (covers_addr a x = true ∧ v_prot x = p).
Proof.
  intros Hk Hv. assert (k < length vs)%nat by (by eapply lookup_lt_Some). split.
  - intros (j & w & Hj & Hw). destruct (decide (j = k)) as [->|].
    + rewrite list_lookup_insert_eq in Hj by done. simplify_eq. by right.
    + rewrite list_lookup_insert_ne in Hj by done. left. by exists j, w.
  - intros [(j & w & Hj & Hw & Hp)|[Hx Hp]].
    + assert (j ≠ k) by (intros ->; apply covers_addr_true in Hw as [Hw _]; congruence).
      exists j, w. by rewrite list_lookup_insert_ne.
    + exists k, x. by rewrite list_lookup_insert_eq.
Qed.

(** [insert_vma] succeeds by filling an inactive slot. *)
Lemma insert_vma_Ok (vs vs' : list VmaRegion) (s e prot : Z) :
  insert_vma vs s e prot = (Ok tt, vs') →
  (e <= s ∧ vs' = vs) ∨
  (s < e ∧ ∃ k v, vs !! k = Some v ∧ v_active v = false ∧ vs' = <[k := mkVma s e prot true]> vs).
Proof.
  unfold insert_vma. destruct (Z.leb_spec e s); [intros; simplify_eq; by left|].
  destruct (update_first _ _ _) as [vs1|] eqn:E; intros; simplify_eq.
  apply update_first_insert in E as (k & v & Hk & Hv & ->). right. split; [done|].
  exists k, v. by apply negb_true_iff in Hv.
Qed.

Lemma insert_vma_covered (vs vs' : list VmaRegion) (s e prot a p : Z) :
  insert_vma vs s e prot = (Ok tt, vs') →
  covered vs' a p ↔ covered vs a p ∨ (s <= a < e ∧ p = prot).
Proof.
  intros [[Hle ->]|(Hlt & k & v & Hk & Hv & ->)]%insert_vma_Ok.
  - split; [by left|intros [?|[? _]]; [done|lia]].
  - rewrite (covered_fill _ _ v) by done. rewrite covers_addr_true. simpl.
    assert (prot = p ↔ p = prot) by (split; congruence). tauto.
Qed.

(** The [continue] test of the split loop. *)
Lemma skip_guard (s e : Z) (v : VmaRegion) :
  negb (v_active v) || (e <=? v_start v) || (v_end v <=? s) = negb (overlaps s e v).
Proof. unfold overlaps. by rewrite !Z.ltb_antisym, !negb_andb, !negb_involutive. Qed.

(** The shape of a successful step of the split loop. *)
Lemma split_at_Ok (vs vs' : list VmaRegion) (i : nat) (s e : Z) (v : VmaRegion) :
  split_at vs i s e = (Ok tt, vs') → vs !! i = Some v →
  (vs' = vs ∧ overlaps s e v = false) ∨
  (overlaps s e v = true ∧ ∃ x, vs' = <[i := x]> vs ∧ v_prot x = v_prot v ∧
     overlaps s e x = false ∧
     ∀ a, covers_addr a x = true ↔ covers_addr a v = true ∧ ¬ s <= a < e) ∨
  (overlaps s e v = true ∧ v_start v < s ∧ e < v_end v ∧
   ∃ k w, vs !! k = Some w ∧ v_active w = false ∧
     vs' = <[k := mkVma e (v_end v) (v_prot v) true]>
             (<[i := mkVma (v_start v) s (v_prot v) true]> vs)).
Proof.
  unfold split_at. intros H Hi. rewrite Hi in H.
  rewrite skip_guard in H. destruct (overlaps s e v) eqn:Hov; simpl in H.
  2:{ left. by simplify_eq. }
  right. pose proof Hov as (Ha & H1 & H2)%overlaps_true. rewrite Ha in H.
  assert (∀ x, v_active x = true → v_prot x = v_prot v → vs' = <[i := x]> vs →
            (v_end x <= s ∨ e <= v_start x) →
            (∀ a, v_start x <= a < v_end x ↔ v_start v <= a < v_end v ∧ ¬ s <= a < e) →
            ∃ x, vs' = <[i := x]> vs ∧ v_prot x = v_prot v ∧ overlaps s e x = false ∧
              ∀ a, covers_addr a x = true ↔ covers_addr a v = true ∧ ¬ s <= a < e) as Hmk.
  { intros x Hax Hpx -> Hno Hcov. exists x. split; [done|]. split; [done|]. split.
    - apply not_true_is_false. rewrite overlaps_true. lia.
    - intros a. rewrite !covers_addr_true, Hax, Ha. specialize (Hcov a). tauto. }
  destruct (Z.ltb_spec (v_start v) s), (Z.ltb_spec e (v_end v)); simpl in H.
  - right. apply insert_vma_Ok in H as [[? _]|(_ & k & w & Hk & Hw & ->)]; [lia|].
    split; [done|]. split; [done|]. split; [done|]. exists k, w. split; [|done].
    destruct (decide (k = i)) as [->|]; [|by rewrite list_lookup_insert_ne in Hk].
    rewrite list_lookup_insert_eq in Hk by (by eapply lookup_lt_Some). by simplify_eq.
  - left. split; [done|]. simplify_eq. eapply Hmk; [..|reflexivity| |]; simpl; try done; lia.
  - left. split; [done|]. simplify_eq. eapply Hmk; [..|reflexivity| |]; simpl; try done; lia.
  - left. split; [done|]. simplify_eq. exists (mkVma (v_start v) (v_end v) (v_prot v) false).
    split; [done|]. split; [done|]. split; [done|]. intros a.
    rewrite !covers_addr_true. simpl. split; [by intros [? _]|lia].
Qed.

Definition clear_of (vs : list VmaRegion) (j : nat) (s e : Z) : Prop :=
  ∀ v, vs !! j = Some v → overlaps s e v = false.

Lemma lookup_insert_cases {A : Type} (l : list A) (i j : nat) (x y : A) :
  <[i := x]> l !! j = Some y → (j = i ∧ y = x) ∨ (j ≠ i ∧ l !! j = Some y).
Proof.
  intros H. destruct (decide (j = i)) as [->|Hne].
  - left. split; [done|]. apply list_lookup_insert_Some in H. naive_solver.
  - right. by rewrite list_lookup_insert_ne in H.
Qed.

(** One step of the split: region [i] no longer meets [s, e), regions that did
    not meet it still do not, and nothing changes outside. *)
Lemma split_at_spec (vs vs' : list VmaRegion) (i : nat) (s e : Z) :
  split_at vs i s e = (Ok tt, vs') →
  length vs' = length vs ∧
  (∀ j, j = i ∨ clear_of vs j s e → clear_of vs' j s e) ∧
  ∀ a p, ¬ s <= a < e → covered vs' a p ↔ covered vs a p.
Proof.
  intros H. destruct (vs !! i) as [v|] eqn:Hi.
  2:{ unfold split_at in H. rewrite Hi in H. simplify_eq. split; [done|]. split; [|done].
      intros j [->|?]; [|done]. intros w Hw. congruence. }
  destruct (split_at_Ok _ _ _ _ _ _ H Hi)
    as [[-> Hno]|[(Hov & x & -> & Hp & Hx & Hcov)|(Hov & H1 & H2 & k & w & Hk & Hw & ->)]].
  - split; [done|]. split; [|done]. intros j [->|?]; [|done]. intros w Hw. by simplify_eq.
  - rewrite length_insert. split; [done|]. split.
    + intros j Hj w [[-> ->]|[Hne Hw]]%lookup_insert_cases; [done|]. destruct Hj; [done|auto].
    + intros a p Ha. apply (covered_replace vs i v); [done|]. rewrite Hcov, Hp. tauto.
  - rewrite !length_insert. split; [done|]. split.
    + intros j Hj u [[-> ->]|[Hne [[-> ->]|[Hne' Hu]]%lookup_insert_cases]]%lookup_insert_cases.
      * apply not_true_is_false. rewrite overlaps_true. simpl. lia.
      * apply not_true_is_false. rewrite overlaps_true. simpl. lia.
      * destruct Hj; [done|auto].
    + intros a p Ha. apply overlaps_true in Hov as (Hact & Hov1 & Hov2).
      assert (k ≠ i) by congruence.
      rewrite (covered_fill _ k w) by (by rewrite ?list_lookup_insert_ne).
      rewrite covers_addr_true. simpl. split.
      * intros [(j & u & [[-> ->]|[Hne Hu]]%lookup_insert_cases & Hc & Hp)|[[_ ?] <-]].
        -- exists i, v. rewrite covers_addr_true in *. simpl in *. split; [done|]. split; [|done]. split; [done|lia].
        -- by exists j, u.
        -- exists i, v. rewrite covers_addr_true. split; [done|]. split; [|done]. split; [done|lia].
      * intros (j & u & Hu & Hc & Hp). destruct (decide (j = i)) as [->|].
        -- simplify_eq. rewrite covers_addr_true in Hc. destruct (decide (e <= a)).
           ++ right. split; [|done]. split; [done|lia].
           ++ left. exists i, (mkVma (v_start v) s (v_prot v) true).
              rewrite list_lookup_insert_eq by (by eapply lookup_lt_Some).
              rewrite covers_addr_true. simpl. split; [done|]. split; [|done]. split; [done|lia].
        -- left. exists j, u. by rewrite list_lookup_insert_ne.
Qed.

Lemma split_loop_spec (n : nat) : ∀ (vs vs' : list VmaRegion) (i : nat) (s e : Z),
  split_loop vs i n s e = (Ok tt, vs') →
  length vs' = length vs ∧
  (∀ j, (i <= j < i + n)%nat ∨ clear_of vs j s e → clear_of vs' j s e) ∧
  ∀ a p, ¬ s <= a < e → covered vs' a p ↔ covered vs a p.
Proof.
  induction n as [|n IH]; intros vs vs' i s e H; simpl in H.
  { simplify_eq. split; [done|]. split; [|done]. intros j [?|?]; [lia|done]. }
  destruct (split_at vs i s e) as [[[]|] vs1] eqn:E; [|done].
  apply split_at_spec in E as (Hl1 & Hc1 & Ho1). apply IH in H as (Hl & Hc & Ho).
  split; [congruence|]. split.
  - intros j Hj. apply Hc. destruct (decide (j = i)); [right; apply Hc1; by left|].
    destruct Hj; [left; lia|right; apply Hc1; by right].
  - intros a p Ha. rewrite Ho by done. auto.
Qed.

(** Removing a range: the table afterwards covers exactly what it covered
    outside the range. *)
Lemma split_overlapping_spec (vs vs' : list VmaRegion) (s e : Z) :
  split_overlapping_vmas vs s e = (Ok tt, vs') →
  length vs' = length vs ∧
  ∀ a p, covered vs' a p ↔ covered vs a p ∧ ¬ s <= a < e.
Proof.
  intros (Hl & Hc & Ho)%split_loop_spec. split; [done|]. intros a p.
  assert (covered vs' a p → ¬ s <= a < e) as Hout.
  { intros (j & v & Hj & Hv & _) Ha. assert (clear_of vs' j s e) as Hclear.
    { apply Hc. left. apply lookup_lt_Some in Hj. lia. }
    specialize (Hclear v Hj). apply not_true_iff_false in Hclear. apply Hclear.
    apply covers_addr_true in Hv. apply overlaps_true. split; [tauto|]. lia. }
  split.
  - intros Hcov. specialize (Hout Hcov). split; [|done]. by apply Ho.
  - intros [Hcov Ha]. by apply Ho.
Qed.

(** The closure of a successful fixed mapping, as a map update. *)
Lemma add_vma_fixed (st st' : VmState) (s e prot : Z) :
  add_vma s e prot true st = (Ok tt, st') →
  ∀ a p, covered (vmas st') a p ↔
    (s <= a < e ∧ p = prot) ∨ (¬ s <= a < e ∧ covered (vmas st) a p).
Proof.
  unfold add_vma. destruct (split_overlapping_vmas (vmas st) s e) as [[[]|] vs] eqn:E; [|done].
  destruct (insert_vma vs s e prot) as [r vs'] eqn:E'. intros H. simplify_eq. simpl.
  intros a p. rewrite (insert_vma_covered _ _ _ _ _ _ _ E').
  apply split_overlapping_spec in E as [_ Hc]. rewrite Hc. tauto.
Qed.

(** ** Disjoint tables *)

Lemma unique_cover_insert (vs : list VmaRegion) (i : nat) (x : VmaRegion) :
  unique_cover vs →
  (∀ a j w, j ≠ i → vs !! j = Some w → covers_addr a x = true → covers_addr a w = false) →
  unique_cover (<[i := x]> vs).
Proof.
  intros Hu Hx a j k v w [[-> ->]|[Hj Hv]]%lookup_insert_cases
    [[-> ->]|[Hk Hw]]%lookup_insert_cases Hcv Hcw; try done.
  - by rewrite (Hx a k w) in Hcw.
  - by rewrite (Hx a j v) in Hcv.
  - by eapply Hu.
Qed.

(** A region that only shrinks keeps the table disjoint. *)
Lemma unique_cover_shrink (vs : list VmaRegion) (i : nat) (v x : VmaRegion) :
  unique_cover vs → vs !! i = Some v →
  (∀ a, covers_addr a x = true → covers_addr a v = true) →
  unique_cover (<[i := x]> vs).
Proof.
  intros Hu Hi Hx. apply unique_cover_insert; [done|]. intros a j w Hj Hw Ha.
  apply not_true_is_false. intros Hc. apply Hj. by eapply Hu; eauto.
Qed.

Lemma split_at_unique (vs vs' : list VmaRegion) (i : nat) (s e : Z) :
  s <= e → split_at vs i s e = (Ok tt, vs') → unique_cover vs → unique_cover vs'.
Proof.
  intros Hse H Hu. destruct (vs !! i) as [v|] eqn:Hi.
  2:{ unfold split_at in H. rewrite Hi in H. by simplify_eq. }
  destruct (split_at_Ok _ _ _ _ _ _ H Hi)
    as [[-> Hno]|[(Hov & x & -> & Hp & Hx & Hcov)|(Hov & H1 & H2 & k & w & Hk & Hw & ->)]].
  - done.
  - apply (unique_cover_shrink _ _ v); [done|done|]. intros a. rewrite Hcov. tauto.
  - apply overlaps_true in Hov as (Hact & Hov1 & Hov2). assert (k ≠ i) by congruence.
    apply unique_cover_insert.
    + apply (unique_cover_shrink _ _ v); [done|done|]. intros a.
      rewrite !covers_addr_true. simpl. intros [_ ?]. split; [done|lia].
    + intros a j u Hj Hu' [_ Ha]%covers_addr_true. simpl in Ha. apply not_true_is_false.
      apply lookup_insert_cases in Hu' as [[-> ->]|[Hji Hu']].
      * rewrite covers_addr_true. simpl. lia.
      * intros Hcu. apply Hji. eapply (Hu a); [done|done|done|].
        apply covers_addr_true. split; [done|lia].
Qed.

Lemma split_loop_unique (n : nat) : ∀ (vs vs' : list VmaRegion) (i : nat) (s e : Z),
  s <= e → split_loop vs i n s e = (Ok tt, vs') → unique_cover vs → unique_cover vs'.
Proof.
  induction n as [|n IH]; intros vs vs' i s e Hse H Hu; simpl in H; [by simplify_eq|].
  destruct (split_at vs i s e) as [[[]|] vs1] eqn:E; [|done].
  eapply IH; [done|done|]. by eapply split_at_unique.
Qed.

Lemma add_vma_fixed_unique (st st' : VmState) (s e prot : Z) :
  s <= e → add_vma s e prot true st = (Ok tt, st') →
  unique_cover (vmas st) → unique_cover (vmas st').
Proof.
  unfold add_vma. intros Hse.
  destruct (split_overlapping_vmas (vmas st) s e) as [[[]|] vs] eqn:E; [|done].
  destruct (insert_vma vs s e prot) as [r vs'] eqn:E'. intros H Hu. simplify_eq. simpl.
  assert (unique_cover vs) as Hvs by (by eapply split_loop_unique).
  apply split_overlapping_spec in E as [_ Hc].
  apply insert_vma_Ok in E' as [[_ ->]|(Hlt & k & v & Hk & Hv & ->)]; [done|].
  apply unique_cover_insert; [done|]. intros a j w Hj Hw [_ Ha]%covers_addr_true. simpl in Ha.
  apply not_true_is_false. intros Hcw.
  assert (covered vs a (v_prot w)) as [_ Hout]%Hc by (by exists j, w). tauto.
Qed.

(** ** Queries on a table *)

Lemma query_covered (vs : list VmaRegion) (a p : Z) :
  unique_cover vs → v_prot <$> find_first (covers_addr a) vs = Some p ↔ covered vs a p.
Proof.
  intros Hu. split.
  - intros (v & Hv & ->)%fmap_Some. apply find_first_elem in Hv as [Hin Hc].
    apply list_elem_of_lookup in Hin as [i Hi]. by exists i, v.
  - intros (i & v & Hi & Hc & <-).
    destruct (find_first_is_Some (covers_addr a) vs v) as [w Hw];
      [by eapply list_elem_of_lookup_2|done|].
    rewrite Hw. simpl. apply find_first_elem in Hw as [Hin Hc'].
    apply list_elem_of_lookup in Hin as [j Hj].
    assert (i = j) as -> by (by eapply Hu). congruence.
Qed.

Definition region_size (v : VmaRegion) : Z := v_end v -! v_start v.

(** What the best candidate of [vma_check] says of the regions seen so far. *)
Definition best_ok (a : Z) (seen : list VmaRegion) (best : option Z * Z) : Prop :=
  match fst best with
  | None => ∀ w, w ∈ seen → covers_addr a w = true → v_prot w = 0
  | Some p => p ≠ 0 ∧
      (∃ v, v ∈ seen ∧ covers_addr a v = true ∧ v_prot v = p ∧ region_size v = snd best) ∧
      ∀ w, w ∈ seen → covers_addr a w = true → v_prot w ≠ 0 → snd best <= region_size w
  end.

Lemma check_step_best (a : Z) (seen : list VmaRegion) (best : option Z * Z) (v : VmaRegion) :
  best_ok a seen best → best_ok a (seen ++ [v]) (check_step a best v).
Proof.
  intros Hb. unfold check_step. destruct (covers_addr a v) eqn:Hc.
  2:{ unfold best_ok in *. destruct (fst best).
      - destruct Hb as (Hp & (u & Hu & Hb') & Hmin). split; [done|]. split.
        + exists u. set_solver.
        + intros w [Hw|Hw%list_elem_of_singleton]%elem_of_app Hcw; [auto|]. congruence.
      - intros w [Hw|Hw%list_elem_of_singleton]%elem_of_app Hcw; [auto|]. congruence. }
  destruct best as [[p|] sz]; unfold best_ok in *; simpl in *.
  - destruct Hb as (Hp & (u & Hu & Hb') & Hmin).
    rewrite (proj2 (Z.eqb_neq p 0) Hp). simpl. rewrite andb_false_r. simpl.
    destruct (Z.eqb_spec (v_prot v) 0) as [Hz|Hz]; simpl;
      [|destruct (Z.ltb_spec (v_end v -! v_start v) sz) as [Hlt|Hge]]; simpl.
    + split; [done|]. split; [exists u; set_solver|].
      intros w [Hw| ->%list_elem_of_singleton]%elem_of_app; [auto|done].
    + split; [done|]. split; [exists v; set_solver|].
      intros w [Hw| ->%list_elem_of_singleton]%elem_of_app Hcw Hpw; [|done].
      specialize (Hmin w Hw Hcw Hpw). lia.
    + split; [done|]. split; [exists u; set_solver|].
      intros w [Hw| ->%list_elem_of_singleton]%elem_of_app; [auto|done].
  - destruct (Z.eqb_spec (v_prot v) 0) as [Hz|Hz]; simpl.
    + destruct (_ <? _); simpl;
        intros w [Hw| ->%list_elem_of_singleton]%elem_of_app Hcw; auto.
    + split; [done|]. split; [exists v; set_solver|].
      intros w [Hw| ->%list_elem_of_singleton]%elem_of_app Hcw Hpw; [|done].
      by specialize (Hb w Hw Hcw).
Qed.

Lemma check_fold_best (a : Z) (vs : list VmaRegion) :
  ∀ seen best, best_ok a seen best → best_ok a (seen ++ vs) (foldl (check_step a) best vs).
Proof.
  induction vs as [|v vs IH]; intros seen best Hb; simpl; [by rewrite app_nil_r|].
  rewrite cons_middle, assoc by apply _. by apply IH, check_step_best.
Qed.

(** ** The mmap bump allocator *)

(** The search position: [next_mmap_addr] once set, the mmap base before. *)
Definition candidate_of (st : VmState) : Z :=
  if 0 <? next_mmap_addr st then next_mmap_addr st else USER_MMAP_BASE.

(** Regions that end beyond [c]: those the search can still meet. *)
Definition ahead (c : Z) (vs : list VmaRegion) : nat :=
  length (filter (fun v => c < v_end v) vs).

Lemma ahead_le (c : Z) (vs : list VmaRegion) : (ahead c vs <= length vs)%nat.
Proof. apply length_filter. Qed.

Lemma ahead_mono (c c' : Z) (vs : list VmaRegion) : c <= c' → (ahead c' vs <= ahead c vs)%nat.
Proof.
  intros Hc. unfold ahead. induction vs as [|v vs IH]; [done|].
  rewrite !filter_cons. repeat case_decide; simpl; lia.
Qed.

Lemma ahead_decreases (c c' : Z) (vs : list VmaRegion) (v : VmaRegion) :
  v ∈ vs → c < v_end v <= c' → (ahead c' vs < ahead c vs)%nat.
Proof.
  intros Hin Hv. unfold ahead. induction Hin as [v vs|v w vs Hin IH]; rewrite !filter_cons.
  - pose proof (ahead_mono c c' vs ltac:(lia)). unfold ahead in *.
    repeat case_decide; simpl; lia.
  - specialize (IH Hv). repeat case_decide; simpl; lia.
Qed.

Lemma max_end_fold (vs : list VmaRegion) (m : option Z) :
  ∃ r, foldl (fun m v => match m with Some e => Some (Z.max e (v_end v))
                         | None => Some (v_end v) end) m vs = r ∧
  match m, r with
  | Some a, Some b => a <= b ∧ (b = a ∨ ∃ v, v ∈ vs ∧ v_end v = b)
  | Some _, None => False
  | None, Some b => ∃ v, v ∈ vs ∧ v_end v = b
  | None, None => vs = []
  end ∧ ∀ v, v ∈ vs → ∃ b, r = Some b ∧ v_end v <= b.
Proof.
  revert m. induction vs as [|v vs IH]; intros m; simpl.
  { exists m. split; [done|]. split; [destruct m; [split; [lia|by left]|done]|].
    intros v Hv. set_solver. }
  destruct (IH (match m with Some e => Some (Z.max e (v_end v)) | None => Some (v_end v) end))
    as (r & Hr & Hm & Hall).
  exists r. split; [done|].
  destruct m as [a|], r as [b|]; try done; destruct Hm as [Hle Hb].
  - split.
    + split; [lia|]. destruct Hb as [->|(w & Hw & <-)]; [|right; exists w; set_solver].
      destruct (Z.max_spec a (v_end v)) as [[_ ->]|[_ ->]]; [right; exists v; set_solver|by left].
    + intros w [->|Hw]%elem_of_cons; [exists b; split; [done|lia]|auto].
  - split.
    + destruct Hb as [->|(w & Hw & <-)]; [exists v; set_solver|exists w; set_solver].
    + intros w [->|Hw]%elem_of_cons; [exists b; split; [done|lia]|auto].
Qed.

Lemma max_end_Some (vs : list VmaRegion) (v : VmaRegion) :
  v ∈ vs → ∃ w, w ∈ vs ∧ max_end vs = Some (v_end w) ∧ v_end v <= v_end w.
Proof.
  intros Hv. destruct (max_end_fold vs None) as (r & Hr & Hm & Hall).
  destruct (Hall v Hv) as (b & -> & Hb). destruct Hm as (w & Hw & <-). by exists w.
Qed.

Lemma align_up_page (x : Z) :
  0 <= x → x + 4095 < 2 ^ 64 →
  Z.land (x +! page_size -! 1) (not64 (page_size - 1)) = (x + 4095) / 4096 * 4096.
Proof.
  intros H1 H2. unfold page_size.
  replace (x +! 4096 -! 1) with (x + 4095).
  - apply (land_not_ones (x + 4095) 12); [lia|]. unfold is_u64. lia.
  - unfold u64, wrap. rewrite Zminus_mod_idemp_l. replace (x + 4096 - 1) with (x + 4095) by lia.
    by rewrite Z.mod_small by lia.
Qed.

(** Every region ends where rounding up to a page does not wrap. *)
Definition ends_ok (vs : list VmaRegion) : Prop :=
  Forall (fun v => 0 <= v_end v ∧ v_end v + 4095 < 2 ^ 64) vs.

(** No page-aligned address from [lo] up to [hi] has [len] free bytes. *)
Definition all_taken (vs : list VmaRegion) (len lo hi : Z) : Prop :=
  ∀ c, lo <= c < hi → c mod 4096 = 0 → existsb (overlaps c (c + len)) vs = true.

(** Up to the rounded end of a region that is in the way at [c], it stays in the way. *)
Lemma taken_by (vs : list VmaRegion) (len c : Z) (w : VmaRegion) :
  w ∈ vs → overlaps c (c + len) w = true → all_taken vs len c ((v_end w + 4095) / 4096 * 4096).
Proof.
  intros Hw (Ha & Hs & He)%overlaps_true c' Hc' Hal. apply existsb_exists. exists w.
  split; [by apply list_elem_of_In|]. apply overlaps_true. split; [done|].
  split; [lia|]. Z.to_euclidean_division_equations. lia.
Qed.

(** One iteration: a result, or a jump past every region in the way. *)
Lemma reserve_iteration (fuel : nat) (st : VmState) (len : Z) :
  ends_ok (vmas st) → is_u64 (next_mmap_addr st) → 0 <= len →
  let c := candidate_of st in
  (USER_MMAP_LIMIT < c + len ∧ reserve_loop (S fuel) st len = Some (Err tt, st)) ∨
  (c + len <= USER_MMAP_LIMIT ∧ existsb (overlaps c (c + len)) (vmas st) = false ∧
   reserve_loop (S fuel) st len = Some (Ok c, mkVmState (vmas st) (c + len) (max_elf_vaddr st))) ∨
  (∃ n, is_u64 n ∧ 0 < n ∧ n mod 4096 = 0 ∧ c < n ∧
     (ahead n (vmas st) < ahead c (vmas st))%nat ∧ all_taken (vmas st) len c n ∧
     reserve_loop (S fuel) st len =
       reserve_loop fuel (mkVmState (vmas st) n (max_elf_vaddr st)) len).
Proof.
  intros Hends Hn Hlen c. simpl. unfold is_u64 in Hn.
  change (if 0 <? next_mmap_addr st then _ else _) with c.
  assert (0 < c) as Hc.
  { unfold c, candidate_of. destruct (Z.ltb_spec 0 (next_mmap_addr st)); [done|].
    unfold USER_MMAP_BASE. lia. }
  unfold checked_add, USER_MMAP_LIMIT, USIZE_MAX.
  destruct (decide (c + len <= 2 ^ 64 - 1)); simpl; [|left; split; [lia|done]].
  destruct (Z.ltb_spec 140737488351232 (c + len)); simpl; [left; split; [lia|done]|].
  rewrite (proj2 (Z.eqb_neq _ _)) by lia.
  destruct (existsb _ _) eqn:E; [|right; left; split; [lia|done]]. right; right.
  apply existsb_exists in E as (v & Hin & Hov). apply list_elem_of_In in Hin.
  destruct (max_end_Some (filter (fun v => overlaps c (c + len) v = true) (vmas st)) v)
    as (w & Hw & -> & Hvw); [by apply list_elem_of_filter|].
  apply list_elem_of_filter in Hw as [Hwo Hw].
  assert (0 <= v_end w ∧ v_end w + 4095 < 2 ^ 64) as [Hw0 Hw1].
  { unfold ends_ok in Hends. rewrite Forall_forall in Hends. by apply Hends. }
  apply overlaps_true in Hov as (_ & _ & Hov).
  rewrite align_up_page by done. eexists. split; [|split; [|split; [|split; [|split; [|split; [by apply taken_by|done]]]]]].
  - unfold is_u64. Z.to_euclidean_division_equations. lia.
  - Z.to_euclidean_division_equations. lia.
  - apply Z_mod_mult.
  - Z.to_euclidean_division_equations. lia.
  - apply (ahead_decreases _ _ _ v Hin). Z.to_euclidean_division_equations. lia.
Qed.

(** The search always ends within [reserve_fuel] iterations, at the first
    page-aligned gap it meets or beyond the limit. *)
Lemma reserve_loop_total (fuel : nat) : ∀ (st : VmState) (len : Z),
  ends_ok (vmas st) → is_u64 (next_mmap_addr st) → 0 <= len →
  (ahead (candidate_of st) (vmas st) < fuel)%nat →
  (∃ st', reserve_loop fuel st len = Some (Err tt, st') ∧ vmas st' = vmas st ∧
     all_taken (vmas st) len (candidate_of st) (USER_MMAP_LIMIT - len + 1)) ∨
  ∃ c, reserve_loop fuel st len = Some (Ok c, mkVmState (vmas st) (c + len) (max_elf_vaddr st)) ∧
    candidate_of st <= c ∧ c + len <= USER_MMAP_LIMIT ∧
    existsb (overlaps c (c + len)) (vmas st) = false ∧ all_taken (vmas st) len (candidate_of st) c ∧
    (next_mmap_addr st mod 4096 = 0 → c mod 4096 = 0).
Proof.
  induction fuel as [|fuel IH]; intros st len Hends Hn Hlen Hf; [lia|].
  destruct (reserve_iteration fuel st len Hends Hn Hlen)
    as [[Hlim ->]|[(Hlim & Hno & ->)|(n & Hn' & Hn0 & Hal & Hcn & Hdec & Htk & ->)]].
  - left. exists st. split; [done|]. split; [done|]. intros c Hc. lia.
  - right. exists (candidate_of st). split; [done|]. split; [lia|]. split; [done|]. split; [done|]. split; [intros c Hc; lia|].
    intros Ha. unfold candidate_of. by destruct (_ <? _).
  - set (st1 := mkVmState _ _ _). assert (candidate_of st1 = n) as Hc1.
    { unfold candidate_of. simpl. by rewrite (proj2 (Z.ltb_lt 0 n)). }
    assert (∀ hi, all_taken (vmas st) len n hi → all_taken (vmas st) len (candidate_of st) hi) as Htrans.
    { intros hi Hhi c' Hc' Hal'. destruct (decide (c' < n)); [apply Htk|apply Hhi]; (lia || done). }
    destruct (IH st1 len Hends Hn' Hlen) as [(st' & -> & Hv & Ht)|(c & -> & Hc & H1 & H2 & H3 & H4)];
      [rewrite Hc1; simpl; lia|left; exists st'; rewrite Hc1 in Ht; auto|].
    right. rewrite Hc1 in H3. exists c. split; [done|]. split; [lia|]. split; [done|]. split; [done|]. split; [auto|]. intros _. auto.
Qed.

(** ** Room for the fragment of a split *)

Definition strictly_inside (s e : Z) (v : VmaRegion) : Prop :=
  overlaps s e v = true ∧ v_start v < s ∧ e < v_end v.

(** Either a slot is free, or no region from [i] on needs one. *)
Definition room (vs : list VmaRegion) (i : nat) (s e : Z) : Prop :=
  (∃ k w, vs !! k = Some w ∧ v_active w = false) ∨
  ∀ j v, (i <= j)%nat → vs !! j = Some v → ¬ strictly_inside s e v.

Lemma room_replace (vs : list VmaRegion) (i : nat) (s e : Z) (v x : VmaRegion) :
  vs !! i = Some v → v_active v = true → room vs i s e → room (<[i := x]> vs) (S i) s e.
Proof.
  intros Hi Hv [(k & w & Hk & Hw)|Hno].
  - left. exists k, w. by rewrite list_lookup_insert_ne by congruence.
  - right. intros j u Hj [[-> ->]|[_ Hu]]%lookup_insert_cases; [lia|]. eapply Hno; [|done]. lia.
Qed.

Lemma split_at_room (vs : list VmaRegion) (i : nat) (s e : Z) :
  s < e → unique_cover vs → room vs i s e →
  ∃ vs', split_at vs i s e = (Ok tt, vs') ∧ room vs' (S i) s e.
Proof.
  intros Hse Hu Hr. unfold split_at. destruct (vs !! i) as [v|] eqn:Hi.
  2:{ exists vs. split; [done|]. destruct Hr as [?|Hno]; [by left|right].
      intros j u Hj. apply Hno. lia. }
  rewrite skip_guard. destruct (overlaps s e v) eqn:Hov; simpl.
  2:{ exists vs. split; [done|]. destruct Hr as [?|Hno]; [by left|right].
      intros j u Hj. apply Hno. lia. }
  pose proof Hov as (Hact & Hov1 & Hov2)%overlaps_true. rewrite Hact.
  destruct (Z.ltb_spec (v_start v) s), (Z.ltb_spec e (v_end v)); simpl;
    try (eexists; split; [done|]; by apply (room_replace _ _ _ _ v)).
  destruct Hr as [(k & w & Hk & Hw)|Hno]; [|exfalso; by apply (Hno i v)].
  assert (k ≠ i) as Hki by congruence. set (vs1 := <[i := _]> vs).
  assert (vs1 !! k = Some w) as Hk1 by (unfold vs1; by rewrite list_lookup_insert_ne).
  destruct (insert_vma vs1 e (v_end v) (v_prot v)) as [r vs'] eqn:E.
  assert (r = Ok tt) as ->.
  { unfold insert_vma in E. rewrite (proj2 (Z.leb_gt _ _)) in E by lia.
    destruct (update_first _ _ _) eqn:E'; [congruence|]. apply update_first_None in E'.
    rewrite Forall_lookup in E'. specialize (E' _ _ Hk1). by rewrite Hw in E'. }
  exists vs'. split; [done|]. right. intros j u Hj Hju (Hou & Hu1 & Hu2).
  apply insert_vma_Ok in E as [[? _]|(_ & k' & w' & Hk' & _ & ->)]; [lia|].
  apply lookup_insert_cases in Hju as [[-> ->]|[_ Hju]]; [simpl in *; lia|].
  unfold vs1 in Hju. apply lookup_insert_cases in Hju as [[-> ->]|[Hji Hju]]; [lia|].
  apply overlaps_true in Hou as (Hactu & _). apply Hji.
  eapply (Hu s); [done|done| |]; apply covers_addr_true; (split; [done|lia]).
Qed.

Lemma split_loop_room (n : nat) : ∀ (vs : list VmaRegion) (i : nat) (s e : Z),
  s < e → unique_cover vs → room vs i s e → ∃ vs', split_loop vs i n s e = (Ok tt, vs').
Proof.
  induction n as [|n IH]; intros vs i s e Hse Hu Hr; simpl; [by eexists|].
  destruct (split_at_room vs i s e Hse Hu Hr) as (vs1 & E & Hr1). rewrite E.
  apply IH; [done| |done]. eapply split_at_unique; [|done|done]. lia.
Qed.

(** ** Address spaces of the registry *)

Definition state_of (reg : list VmStateSlot) (root : Z) : option VmState :=
  s_state <$> find_first (has_root root) reg.

Lemma has_root_true (root : Z) (s : VmStateSlot) :
  has_root root s = true ↔ s_active s = true ∧ s_root s = root.
Proof. unfold has_root. by rewrite andb_true_iff, Z.eqb_eq. Qed.

Lemma has_root_other (r root : Z) (s : VmStateSlot) :
  r ≠ root → has_root root s = true → has_root r s = false.
Proof.
  intros Hne [Ha <-]%has_root_true. apply not_true_is_false. rewrite has_root_true. intros [_ ?].
  congruence.
Qed.

Lemma with_state_spec {R : Type} (reg : list VmStateSlot) (root : Z) (f : VmState → R * VmState)
    (st : VmState) :
  state_of reg root = Some st →
  ∃ reg', with_state reg root f = (Ok (fst (f st)), reg') ∧
    state_of reg' root = Some (snd (f st)) ∧
    ∀ r, r ≠ root → state_of reg' r = state_of reg r.
Proof.
  unfold state_of, with_state. intros (s & Hs & ->)%fmap_Some. rewrite Hs.
  destruct (update_first _ _ reg) as [reg'|] eqn:E.
  2:{ apply update_first_None, find_first_None in E. congruence. }
  exists reg'. split; [done|]. split.
  - destruct (find_first_update_same _ _ _ _ E) as (x & Hx & ->); [done|]. by simplify_eq.
  - intros r Hr. f_equal. apply (find_first_update_other _ _ _ _ _ E). intros x Hx.
    by split; apply (has_root_other _ root).
Qed.

Lemma with_state_ref_spec {R : Type} (reg : list VmStateSlot) (root : Z) (f : VmState → R)
    (st : VmState) :
  state_of reg root = Some st → with_state_ref reg root f = Ok (f st).
Proof. unfold state_of, with_state_ref. by intros (s & -> & ->)%fmap_Some. Qed.

Lemma with_state_missing {R : Type} (reg : list VmStateSlot) (root : Z)
    (f : VmState → R * VmState) :
  state_of reg root = None → with_state reg root f = (Err tt, reg).
Proof. unfold state_of, with_state. by intros ->%fmap_None. Qed.

Lemma init_root_spec (reg reg' : list VmStateSlot) (root : Z) :
  init_root reg root = (Ok tt, reg') →
  (∃ st, state_of reg' root = Some (clear st)) ∧
  ∀ r, r ≠ root → state_of reg' r = state_of reg r.
Proof.
  unfold init_root, state_of. destruct (root =? 0); [done|].
  destruct (update_first (has_root root) _ reg) as [reg1|] eqn:E.
  - intros [= <-]. split.
    + destruct (find_first_update_same _ _ _ _ E) as (x & _ & ->); [done|]. by eexists.
    + intros r Hr. f_equal. apply (find_first_update_other _ _ _ _ _ E). intros x Hx.
      by split; apply (has_root_other _ root).
  - apply update_first_None in E. destruct (update_first _ _ reg) as [reg1|] eqn:E1; [|done].
    intros [= <-]. split.
    + apply update_first_Some in E1 as (l1 & x & l2 & -> & -> & _ & _).
      apply Forall_app in E as [E _]. rewrite find_first_skip by done. simpl.
      unfold has_root at 1. simpl. rewrite Z.eqb_refl. by eexists.
    + intros r Hr. f_equal. apply (find_first_update_other _ _ _ _ _ E1). intros x Hx.
      unfold has_root. simpl. apply negb_true_iff in Hx as ->. split; [done|].
      by apply Z.eqb_neq.
Qed.

(** Each address space is registered once. *)
Definition roots_unique (reg : list VmStateSlot) : Prop :=
  ∀ i j s t, reg !! i = Some s → reg !! j = Some t → s_active s = true → s_active t = true →
    s_root s = s_root t → i = j.

Lemma roots_unique_insert (reg : list VmStateSlot) (i : nat) (x : VmStateSlot) :
  roots_unique reg →
  (s_active x = true → ∀ j t, j ≠ i → reg !! j = Some t → s_active t = true →
     s_root t ≠ s_root x) →
  roots_unique (<[i := x]> reg).
Proof.
  intros Hu Hx j k s t [[-> ->]|[Hj Hs]]%lookup_insert_cases
    [[-> ->]|[Hk Ht]]%lookup_insert_cases Has Hat Heq; try done.
  - exfalso. by apply (Hx Has k t Hk Ht Hat).
  - exfalso. by apply (Hx Hat j s Hj Hs Has).
  - by eapply Hu.
Qed.

Lemma release_root_spec (reg : list VmStateSlot) (root : Z) :
  root ≠ 0 → roots_unique reg →
  state_of (release_root reg root) root = None ∧
  ∀ r, r ≠ root → state_of (release_root reg root) r = state_of reg r.
Proof.
  intros H0 Hu. unfold release_root. rewrite (proj2 (Z.eqb_neq _ _)) by done. unfold state_of.
  destruct (update_first _ _ reg) as [reg'|] eqn:E.
  2:{ split; [|done]. apply update_first_None, find_first_None in E. by rewrite E. }
  split.
  - apply update_first_Some in E as (l1 & x & l2 & -> & -> & Hx & H1).
    rewrite find_first_skip by done. simpl. apply fmap_None, find_first_None, Forall_lookup.
    intros i y Hi. apply not_true_is_false. intros [Hay Hy]%has_root_true.
    apply has_root_true in Hx as [Hax Hx].
    assert (length l1 = length l1 + S i)%nat; [|lia].
    eapply Hu; [by apply list_lookup_middle| |done|done|congruence].
    rewrite lookup_app_r by lia. replace (length l1 + S i - length l1)%nat with (S i) by lia. done.
  - intros r Hr. f_equal. apply (find_first_update_other _ _ _ _ _ E). intros x Hx.
    by split; [apply (has_root_other _ root)|].
Qed.

Lemma clone_scan_spec (reg : list VmStateSlot) (src : Z) : ∀ (i : nat) (so d : option nat),
  let r := clone_scan reg src i so d in
  (∀ k, fst r = Some k →
     so = Some k ∨ ∃ j s, k = (i + j)%nat ∧ reg !! j = Some s ∧ has_root src s = true) ∧
  (∀ k, snd r = Some k →
     d = Some k ∨ ∃ j s, k = (i + j)%nat ∧ reg !! j = Some s ∧ s_active s = false).
Proof.
  induction reg as [|s reg IH]; intros i so d; simpl; [by split; left|].
  match goal with |- context [clone_scan reg src (S i) ?so' ?d'] =>
    destruct (IH (S i) so' d') as [H1 H2] end.
  split; intros k Hk.
  - apply H1 in Hk as [Hk|(j & t & -> & Hj & Ht)].
    + destruct (has_root src s) eqn:E; [|by left]. simplify_eq. right. exists 0%nat, s.
      split; [lia|done].
    + right. exists (S j), t. split; [lia|done].
  - apply H2 in Hk as [Hk|(j & t & -> & Hj & Ht)].
    + destruct (negb (s_active s) && _) eqn:E; [|by left]. apply andb_true_iff in E as [E _].
      apply negb_true_iff in E. simplify_eq. right. exists 0%nat, s. split; [lia|done].
    + right. exists (S j), t. split; [lia|done].
Qed.

(** A search that only the slot at [k] can answer. *)
Lemma find_first_unique {A : Type} (p : A → bool) (l : list A) (k : nat) (x : A) :
  l !! k = Some x → p x = true → (∀ j y, l !! j = Some y → p y = true → j = k) →
  find_first p l = Some x.
Proof.
  intros Hk Hx Hu. destruct (find_first_is_Some p l x) as [y Hy];
    [by eapply list_elem_of_lookup_2|done|].
  rewrite Hy. apply find_first_elem in Hy as [Hin Hp].
  apply list_elem_of_lookup in Hin as [j Hj]. rewrite (Hu j y Hj Hp) in Hj. congruence.
Qed.

Lemma state_of_lookup (reg : list VmStateSlot) (k : nat) (s : VmStateSlot) (r : Z) :
  roots_unique reg → reg !! k = Some s → has_root r s = true → state_of reg r = Some (s_state s).
Proof.
  intros Hu Hk Hr. unfold state_of. rewrite (find_first_unique _ _ k s); [done|done|done|].
  intros j y Hj [Hy1 Hy2]%has_root_true. apply has_root_true in Hr as [Hr1 Hr2].
  eapply Hu; [done|done|done|done|congruence].
Qed.

Lemma state_of_None (reg : list VmStateSlot) (r : Z) (j : nat) (s : VmStateSlot) :
  state_of reg r = None → reg !! j = Some s → s_active s = true → s_root s ≠ r.
Proof.
  unfold state_of. rewrite fmap_None, find_first_None, Forall_lookup. intros H Hj Ha Heq.
  specialize (H j s Hj). apply not_true_iff_false in H. by rewrite has_root_true in H; apply H.
Qed.

Lemma state_of_insert_ne (reg : list VmStateSlot) (i : nat) (s x : VmStateSlot) (r : Z) :
  reg !! i = Some s → has_root r s = false → has_root r x = false →
  state_of (<[i := x]> reg) r = state_of reg r.
Proof.
  intros Hi Hs Hx. unfold state_of. f_equal.
  rewrite <- (take_drop_middle _ _ _ Hi) at 2.
  rewrite insert_take_drop by (by eapply lookup_lt_Some).
  rewrite !find_first_app. simpl. by rewrite Hs, Hx.
Qed.

Lemma clone_root_spec (reg reg' : list VmStateSlot) (src dst : Z) :
  roots_unique reg → state_of reg dst = None →
  clone_root_state reg src dst = (Ok tt, reg') →
  roots_unique reg' ∧ state_of reg' dst = state_of reg src ∧ state_of reg src ≠ None ∧
  ∀ r, r ≠ dst → state_of reg' r = state_of reg r.
Proof.
  unfold clone_root_state. intros Hu Hd. destruct (_ || _); [done|].
  destruct (clone_scan reg src 0 None None) as [[si|] [di|]] eqn:E; try done.
  destruct (clone_scan_spec reg src 0 None None) as [H1 H2]. rewrite E in H1, H2. simpl in *.
  destruct (H1 si eq_refl) as [?|(j & s & -> & Hs & Hroot)]; [done|].
  destruct (H2 di eq_refl) as [?|(k & d & -> & Hdk & Hact)]; [done|]. simpl.
  rewrite Hs, Hdk. assert (j ≠ k).
  { intros ->. apply has_root_true in Hroot as [? _]. congruence. }
  rewrite decide_False by done. intros [= <-].
  assert (roots_unique (<[k := mkSlot dst true (copy_from (s_state d) (s_state s))]> reg)) as Hu'.
  { apply roots_unique_insert; [done|]. intros _ i t Hi Ht Hat. by eapply state_of_None. }
  split; [done|]. rewrite (state_of_lookup reg j s src) by done. split.
  - rewrite (state_of_lookup _ k (mkSlot dst true (copy_from (s_state d) (s_state s)))).
    + simpl. by destruct (s_state s).
    + done.
    + apply list_lookup_insert_eq. by eapply lookup_lt_Some.
    + unfold has_root. simpl. apply Z.eqb_refl.
  - split; [done|]. intros r Hr. apply (state_of_insert_ne _ _ d); [done| |].
    + unfold has_root. by rewrite Hact.
    + unfold has_root. simpl. by apply Z.eqb_neq.
Qed.

(** A region added beside the others. *)
Lemma add_disjoint_spec (reg : list VmStateSlot) (root s e prot : Z) (st : VmState) :
  state_of reg root = Some st → s < e → unique_cover (vmas st) →
  existsb (overlaps s e) (vmas st) = false → Exists (fun v => v_active v = false) (vmas st) →
  ∃ reg' st', vma_add reg root s e prot false = (Ok tt, reg') ∧
    state_of reg' root = Some st' ∧ unique_cover (vmas st') ∧
    (∀ a p, covered (vmas st') a p ↔ covered (vmas st) a p ∨ (s <= a < e ∧ p = prot)) ∧
    ∀ r, r ≠ root → state_of reg' r = state_of reg r.
Proof.
  intros Hst Hse Hu Hov (w & Hw & Hi)%Exists_exists. unfold vma_add.
  destruct (with_state_spec _ _ (add_vma s e prot false) _ Hst) as (reg' & -> & Hs' & Hoth).
  unfold add_vma in *. destruct (insert_vma (vmas st) s e prot) as [r vs] eqn:E.
  assert (r = Ok tt) as ->.
  { unfold insert_vma in E. rewrite (proj2 (Z.leb_gt e s) Hse) in E.
    destruct (update_first _ _ _) eqn:Eu; [by simplify_eq|].
    rewrite update_first_None, Forall_forall in Eu. specialize (Eu w Hw). by rewrite Hi in Eu. }
  eexists reg', _. split; [done|]. split; [exact Hs'|]. cbn [snd set_vmas vmas].
  split; [|split; [intros a p; by apply insert_vma_covered|done]].
  apply insert_vma_Ok in E as [[? _]|(_ & k & v & Hk & Hv & ->)]; [lia|].
  apply unique_cover_insert; [done|]. intros a j x Hj Hx [_ Ha]%covers_addr_true. cbn in Ha.
  apply not_true_is_false. intros [Hact Hxa]%covers_addr_true.
  assert (overlaps s e x = true) as Ho by (apply overlaps_true; split; [done|lia]).
  apply not_true_iff_false in Hov. apply Hov, existsb_exists.
  exists x. split; [|done]. apply list_elem_of_In. by eapply list_elem_of_lookup_2.
Qed.

(** [vma_query] on a disjoint table. *)
Lemma query_spec (reg : list VmStateSlot) (root a p : Z) (st : VmState) :
  state_of reg root = Some st → unique_cover (vmas st) →
  vma_query reg root a = Some p ↔ covered (vmas st) a p.
Proof.
  intros Hst Hu. unfold vma_query. rewrite (with_state_ref_spec _ _ _ st) by done. by apply query_covered.
Qed.

(** ** Claims *)

(** A successful [MAP_FIXED] insertion. *)
Lemma add_fixed_spec (reg reg' : list VmStateSlot) (root s e prot : Z) (st : VmState) :
  state_of reg root = Some st → s <= e → unique_cover (vmas st) →
  vma_add reg root s e prot true = (Ok tt, reg') →
  ∃ st', state_of reg' root = Some st' ∧ unique_cover (vmas st') ∧
    next_mmap_addr st' = next_mmap_addr st ∧
    (∀ a p, covered (vmas st') a p ↔
       (s <= a < e ∧ p = prot) ∨ (¬ s <= a < e ∧ covered (vmas st) a p)) ∧
    ∀ r, r ≠ root → state_of reg' r = state_of reg r.
Proof.
  intros Hst Hse Hu. unfold vma_add.
  destruct (with_state_spec _ _ (add_vma s e prot true) _ Hst) as (reg1 & -> & Hs' & Hoth).
  destruct (add_vma s e prot true st) as [r st'] eqn:E. simpl. intros H. simplify_eq.
  exists st'. split; [done|]. split; [by eapply add_vma_fixed_unique|].
  split; [|split; [by apply add_vma_fixed|done]].
  unfold add_vma in E. destruct (split_overlapping_vmas _ _ _) as [[]]; [|done].
  destruct (insert_vma _ _ _ _). by simplify_eq.
Qed.

(** C12: A successful [MAP_FIXED] mapping is a map update: in the address space
    it names, exactly the addresses of [start, end) now have protection
    [prot] and every other address keeps what it had; disjoint tables stay
    disjoint, and no other address space changes. *)
Theorem vma_add_fixed_updates (reg reg' : list VmStateSlot) (root s e prot : Z) (st : VmState) :
  state_of reg root = Some st → s <= e → unique_cover (vmas st) →
  vma_add reg root s e prot true = (Ok tt, reg') →
  ∃ st', state_of reg' root = Some st' ∧ unique_cover (vmas st') ∧
    next_mmap_addr st' = next_mmap_addr st ∧
    (∀ a p, covered (vmas st') a p ↔
       (s <= a < e ∧ p = prot) ∨ (¬ s <= a < e ∧ covered (vmas st) a p)) ∧
    ∀ r, r ≠ root → state_of reg' r = state_of reg r.
Proof. exact (add_fixed_spec reg reg' root s e prot st). Qed.

Definition demo_reg : list VmStateSlot :=
  [mkSlot 0x1000 true
     (mkVmState [mkVma 0x400000 0x410000 5 true; empty; empty; empty] 0 0x410000);
   mkSlot 0 false (mkVmState [empty; empty; empty; empty] 0 0)].

Lemma demo_unique : unique_cover [mkVma 0x400000 0x410000 5 true; empty; empty; empty].
Proof.
  intros a i j v w Hi Hj [Hv _]%covers_addr_true [Hw _]%covers_addr_true.
  do 4 (destruct i as [|i]; [simpl in Hi; simplify_eq;
    do 4 (destruct j as [|j]; [by simpl in Hj; simplify_eq|]); done|]); done.
Qed.

Lemma vma_add_fixed_updates_witness :
  ∃ reg' st', vma_add demo_reg 0x1000 0x404000 0x406000 1 true = (Ok tt, reg') ∧
    state_of reg' 0x1000 = Some st' ∧ covered (vmas st') 0x405000 1 ∧
    covered (vmas st') 0x40f000 5.
Proof.
  destruct (vma_add demo_reg 0x1000 0x404000 0x406000 1 true) as [r reg'] eqn:E.
  assert (r = Ok tt) as -> by (vm_compute in E; congruence).
  destruct (vma_add_fixed_updates demo_reg reg' 0x1000 0x404000 0x406000 1 _ eq_refl ltac:(lia) demo_unique E)
    as (st' & H1 & _ & _ & H2 & _).
  exists reg', st'. split; [done|]. split; [done|].
  split; apply H2; [left; lia|right]. split; [lia|]. by exists 0%nat, (mkVma 0x400000 0x410000 5 true).
Defined.

(** Removal from a disjoint table with a free slot. *)
Lemma remove_range_spec (reg : list VmStateSlot) (root s e : Z) (st : VmState) :
  state_of reg root = Some st → s < e → unique_cover (vmas st) →
  Exists (fun v => v_active v = false) (vmas st) →
  ∃ st', state_of (vma_remove_range reg root s e) root = Some st' ∧ unique_cover (vmas st') ∧
    length (vmas st') = length (vmas st) ∧
    (∀ a p, covered (vmas st') a p ↔ covered (vmas st) a p ∧ ¬ s <= a < e) ∧
    ∀ r, r ≠ root → state_of (vma_remove_range reg root s e) r = state_of reg r.
Proof.
  intros Hst Hse Hu (w & [k Hk]%list_elem_of_lookup & Hw)%Exists_exists. unfold vma_remove_range.
  destruct (split_loop_room (length (vmas st)) (vmas st) 0 s e Hse Hu) as [vs Hvs].
  { left. by exists k, w. }
  match goal with |- context [with_state reg root ?f] =>
    destruct (with_state_spec reg root f st Hst) as (reg' & -> & Hs' & Hoth) end.
  simpl in *. unfold split_overlapping_vmas in Hs'. rewrite Hvs in Hs'. simpl in Hs'.
  eexists. split; [done|]. simpl. split; [eapply split_loop_unique; [|done|done]; lia|].
  apply split_overlapping_spec in Hvs as [Hl Hc]. done.
Qed.

(** [vma_remove_range] on a disjoint table with a free slot removes exactly
    the addresses of [start, end): all others keep their protection, also
    when the range cuts a region in two. *)
Theorem vma_remove_range_removes (reg : list VmStateSlot) (root s e : Z) (st : VmState) :
  state_of reg root = Some st → s < e → unique_cover (vmas st) →
  Exists (fun v => v_active v = false) (vmas st) →
  ∃ st', state_of (vma_remove_range reg root s e) root = Some st' ∧ unique_cover (vmas st') ∧
    length (vmas st') = length (vmas st) ∧
    (∀ a p, covered (vmas st') a p ↔ covered (vmas st) a p ∧ ¬ s <= a < e) ∧
    ∀ r, r ≠ root → state_of (vma_remove_range reg root s e) r = state_of reg r.
Proof. exact (remove_range_spec reg root s e st). Qed.

Lemma vma_remove_range_removes_witness :
  ∃ st', state_of (vma_remove_range demo_reg 0x1000 0x404000 0x406000) 0x1000 = Some st' ∧
    covered (vmas st') 0x40f000 5.
Proof.
  destruct (vma_remove_range_removes demo_reg 0x1000 0x404000 0x406000 _ eq_refl
    ltac:(lia) demo_unique ltac:(by right; left)) as (st' & H1 & _ & _ & H2 & _).
  exists st'. split; [done|]. apply H2. split; [|lia].
  by exists 0%nat, (mkVma 0x400000 0x410000 5 true).
Defined.

(** The page-fault lookups. On a disjoint table [vma_query] returns the
    protection of the region that holds the address. [vma_check], on any
    table, returns the protection of a smallest accessible region that holds
    the address, and [None] when no accessible region does. *)
Theorem vma_lookups_correct (reg : list VmStateSlot) (root a : Z) (st : VmState) :
  state_of reg root = Some st →
  (unique_cover (vmas st) → ∀ p, vma_query reg root a = Some p ↔ covered (vmas st) a p) ∧
  match vma_check reg root a with
  | Some p => p ≠ 0 ∧ ∃ v, v ∈ vmas st ∧ covers_addr a v = true ∧ v_prot v = p ∧
      ∀ w, w ∈ vmas st → covers_addr a w = true → v_prot w ≠ 0 → region_size v <= region_size w
  | None => ∀ p, covered (vmas st) a p → p = 0
  end.
Proof.
  intros Hst. unfold vma_query, vma_check.
  rewrite !(with_state_ref_spec _ _ _ st) by done. simpl.
  split; [intros Hu p; by apply query_covered|].
  pose proof (check_fold_best a (vmas st) [] (None, USIZE_MAX)) as Hb. simpl in Hb.
  unfold best_ok in Hb at 2. destruct (fst (foldl _ _ _)) as [p|].
  - destruct Hb as (Hp & (v & Hv & Hc & Hpv & Hsz) & Hmin); [intros w Hw; set_solver|].
    split; [done|]. exists v. split; [done|]. split; [done|]. split; [done|].
    intros w. rewrite Hsz. apply Hmin.
  - intros p (i & v & Hi & Hc & <-). apply Hb; [intros w Hw; set_solver| |done].
    by eapply list_elem_of_lookup_2.
Qed.

Lemma vma_lookups_correct_witness :
  vma_query demo_reg 0x1000 0x400010 = Some 5 ∧ vma_check demo_reg 0x1000 0 = None.
Proof.
  destruct (vma_lookups_correct demo_reg 0x1000 0x400010 _ eq_refl) as [Hq _].
  split; [|done]. apply (Hq demo_unique).
  by exists 0%nat, (mkVma 0x400000 0x410000 5 true).
Defined.

(** The bump allocator. *)
Lemma reserve_spec (reg : list VmStateSlot) (root len : Z) (st : VmState) :
  state_of reg root = Some st → ends_ok (vmas st) → is_u64 (next_mmap_addr st) →
  0 <= len → len + 4095 < 2 ^ 64 →
  let n := (len + 4095) / 4096 * 4096 in
  (∃ reg', reserve_mmap_addr reg root len = (Err tt, reg') ∧
     (∀ c, candidate_of st <= c → c + n <= USER_MMAP_LIMIT → c mod 4096 = 0 → vma_overlaps reg root c (c + n) = true) ∧
     (∃ st', state_of reg' root = Some st' ∧ vmas st' = vmas st) ∧ ∀ r, r ≠ root → state_of reg' r = state_of reg r) ∨
  ∃ c reg', reserve_mmap_addr reg root len = (Ok c, reg') ∧
    candidate_of st <= c ∧ c + n <= USER_MMAP_LIMIT ∧ vma_overlaps reg root c (c + n) = false ∧
    (∀ c', candidate_of st <= c' < c → c' mod 4096 = 0 → vma_overlaps reg root c' (c' + n) = true) ∧
    (next_mmap_addr st mod 4096 = 0 → c mod 4096 = 0) ∧
    state_of reg' root = Some (mkVmState (vmas st) (c + n) (max_elf_vaddr st)) ∧
    ∀ r, r ≠ root → state_of reg' r = state_of reg r.
Proof.
  intros Hst He Hn H0 H1 n. unfold reserve_mmap_addr, vma_overlaps.
  rewrite align_up_page by done. fold n.
  assert (0 <= n) by (unfold n; Z.to_euclidean_division_equations; lia).
  assert (ahead (candidate_of st) (vmas st) < reserve_fuel st)%nat as Hf.
  { unfold reserve_fuel. pose proof (ahead_le (candidate_of st) (vmas st)). lia. }
  match goal with |- context [with_state reg root ?f] =>
    destruct (with_state_spec reg root f st Hst) as (reg' & -> & Hs' & Hoth) end.
  assert (∀ c e, unwrap_or (with_state_ref reg root (fun st => existsb (overlaps c e) (vmas st))) false =
    existsb (overlaps c e) (vmas st)) as Hov by (intros; by rewrite (with_state_ref_spec _ _ _ st)).
  destruct (reserve_loop_total _ st n He Hn ltac:(done) Hf)
    as [(st' & E & Hv & Ht)|(c & E & Hc1 & Hc2 & Hc3 & Ht & Hc4)]; rewrite E in *; simpl in *; setoid_rewrite Hov.
  - left. exists reg'. split; [done|]. split; [intros c H2 H3 H4; apply Ht; [lia|done]|]. split; [by exists st'|done].
  - right. exists c, reg'. split; [done|]. split; [done|]. split; [done|]. split; [done|]. split; [exact Ht|]. done.
Qed.



(** After a fork the child's table is a copy of the parent's, registered
    once, and whatever is mapped in the child later leaves the parent and
    every other address space as it was. *)
Theorem vma_fork_isolation (reg reg' reg'' : list VmStateSlot) (src dst s e prot : Z) (fx : bool)
    (r : result unit unit) :
  roots_unique reg → state_of reg dst = None →
  clone_root_state reg src dst = (Ok tt, reg') →
  vma_add reg' dst s e prot fx = (r, reg'') →
  roots_unique reg' ∧ state_of reg' dst = state_of reg src ∧
  ∀ q, q ≠ dst → state_of reg'' q = state_of reg q.
Proof.
  intros Hu Hd Hc Ha. destruct (clone_root_spec _ _ _ _ Hu Hd Hc) as (Hu' & Hdst & Hsrc & Hoth).
  split; [done|]. split; [done|]. intros q Hq. rewrite <- Hoth by done.
  destruct (state_of reg' dst) as [st|] eqn:E; [|congruence].
  unfold vma_add in Ha.
  destruct (with_state_spec _ _ (add_vma s e prot fx) _ E) as (reg1 & Hw & _ & Hoth').
  rewrite Hw in Ha. simplify_eq. auto.
Qed.

Lemma vma_fork_isolation_witness :
  ∃ reg' reg'', clone_root_state demo_reg 0x1000 0x2000 = (Ok tt, reg') ∧
    vma_add reg' 0x2000 0x500000 0x501000 3 true = (Ok tt, reg'') ∧
    state_of reg'' 0x1000 = state_of demo_reg 0x1000.
Proof.
  destruct (clone_root_state demo_reg 0x1000 0x2000) as [r reg'] eqn:E.
  assert (r = Ok tt) as -> by (vm_compute in E; congruence).
  destruct (vma_add reg' 0x2000 0x500000 0x501000 3 true) as [r' reg''] eqn:E'.
  assert (r' = Ok tt) as ->.
  { vm_compute in E. injection E as <-. vm_compute in E'. congruence. }
  exists reg', reg''. split; [done|]. split; [done|].
  apply (vma_fork_isolation demo_reg reg' reg'' 0x1000 0x2000 0x500000 0x501000 3 true (Ok tt)); try done.
  intros i j s t Hi Hj Hs Ht _. destruct i as [|[|i]], j as [|[|j]]; simpl in *; by simplify_eq.
Defined.

(** A full table: [n] regions of one page, two pages apart, and the last one
    three pages long. *)
Definition full_table : list VmaRegion :=
  ((fun i => mkVma (0x400000 + Z.of_nat i * 0x4000) (0x401000 + Z.of_nat i * 0x4000) 3 true)
     <$> seq 0 (MAX_VMAS - 1)) ++ [mkVma 0x10000000 0x10003000 3 true].

Lemma full_table_tail :
  v_prot <$> find_first (covers_addr 0x10002000) full_table = Some 3 ∧
  v_prot <$> find_first (covers_addr 0x10002000)
    (snd (split_overlapping_vmas full_table 0x10001000 0x10002000)) = None.
Proof. split; vm_compute; reflexivity. Qed.

(** When the table has no free slot, removing the middle page of a region
    also drops the pages after it: the fragment that should be kept finds no
    slot and [vma_remove_range] ignores the error. *)
Theorem vma_remove_range_full_table_drops_tail (reg : list VmStateSlot) (root : Z) (st : VmState) :
  state_of reg root = Some st → vmas st = full_table →
  vma_query reg root 0x10002000 = Some 3 ∧
  vma_query (vma_remove_range reg root 0x10001000 0x10002000) root 0x10002000 = None.
Proof.
  intros Hst Hfull. unfold vma_query. rewrite (with_state_ref_spec _ _ _ st) by done.
  unfold unwrap_or. rewrite Hfull. split; [apply full_table_tail|]. unfold vma_remove_range.
  match goal with |- context [with_state reg root ?f] =>
    destruct (with_state_spec reg root f st Hst) as (reg' & -> & Hs' & _) end.
  unfold snd at 1. rewrite (with_state_ref_spec _ _ _ _ Hs'). unfold snd at 1, set_vmas.
  cbn [vmas]. rewrite Hfull. apply full_table_tail.
Qed.

Lemma vma_remove_range_full_table_drops_tail_witness :
  let reg := [mkSlot 0x1000 true (mkVmState full_table 0 0)] in
  vma_query (vma_remove_range reg 0x1000 0x10001000 0x10002000) 0x1000 0x10002000 = None.
Proof.
  intros reg. apply (vma_remove_range_full_table_drops_tail reg 0x1000 (mkVmState full_table 0 0));
    reflexivity.
Defined.

End Vma.
