(* ===== verification/ReadyQueue.v ===== *)
(** Scheduling classes ([kernel/src/sched/class.rs]) and the 32-level
    priority-bitmap ready queue ([kernel/src/sched/ready_queue.rs]).

    The queue is an array of 32 FIFO queues and a [u32] bitmap with one bit per
    non-empty level.  It is shown to implement the linear-scan model its test
    suite compares it with: a list of (token, level) pairs in arrival order
    from which the first pair of least level is taken. *)

From stdpp Require Import base numbers list gmap sorting.
From S2P Require Import Prelude.
Local Open Scope Z_scope.
Local Open Scope rust_scope.

Module Class.

Inductive SchedClass :=
| RtFifo (n : nat)
| RtRoundRobin (n : nat)
| Normal
| AiBatch.

Definition RT_LEVELS : nat := 16.
Definition NORMAL_PRIO : nat := 24.
Definition AI_BATCH_PRIO : nat := 31.
Definition AI_BATCH_BOOST_PRIO : nat := NORMAL_PRIO.
Definition AI_BATCH_STARVATION_TICKS : Z := 64.

Definition code (c : SchedClass) : nat :=
  match c with
  | RtFifo _ => 0
  | RtRoundRobin _ => 1
  | Normal => 2
  | AiBatch => 3
  end.

Definition level (c : SchedClass) : nat :=
  match c with
  | RtFifo n | RtRoundRobin n => n
  | _ => 0
  end.

Definition from_code (code level : nat) : option SchedClass :=
  match code with
  | 0%nat => Some (RtFifo level)
  | 1%nat => Some (RtRoundRobin level)
  | 2%nat => Some Normal
  | 3%nat => Some AiBatch
  | _ => None
  end.

Definition priority (c : SchedClass) : nat :=
  match c with
  | RtFifo n | RtRoundRobin n => Nat.min (Nat.max n 1) RT_LEVELS - 1
  | Normal => NORMAL_PRIO
  | AiBatch => AI_BATCH_PRIO
  end.

Definition is_realtime (c : SchedClass) : bool :=
  match c with
  | RtFifo _ | RtRoundRobin _ => true
  | _ => false
  end.

Definition quantum (c : SchedClass) : Z :=
  match c with
  | RtFifo _ => USIZE_MAX
  | RtRoundRobin _ => 4
  | Normal => 2
  | AiBatch => 2
  end.

(** The class encoding of [sys_setpriority]/[sys_getscheduler] round trips,
    unknown codes are refused, priorities stay below 32, and every real-time
    class sorts strictly before every other one, whatever its level byte. *)
Theorem sched_class_encoding (c d : SchedClass) (k l : nat) :
  from_code (code c) (level c) = Some c ∧
  (from_code k l = None ↔ (4 <= k)%nat) ∧
  (priority c < 32)%nat ∧
  (is_realtime c = true → is_realtime d = false → (priority c < priority d)%nat).
Proof.
  split; [by destruct c|]. split.
  - destruct k as [|[|[|[|k]]]]; simpl; split; intros; try done; lia.
  - unfold priority, RT_LEVELS, NORMAL_PRIO, AI_BATCH_PRIO.
    split; [destruct c; lia|]. destruct c, d; simpl; try done; lia.
Qed.

Lemma sched_class_encoding_witness :
  from_code (code (RtFifo 200)) (level (RtFifo 200)) = Some (RtFifo 200) ∧
  (priority (RtFifo 200) < priority Normal)%nat.
Proof.
  destruct (sched_class_encoding (RtFifo 200) Normal 0 0) as (H1 & _ & _ & H2).
  split; [exact H1|by apply H2].
Defined.

Lemma priority_lt (c : SchedClass) : (priority c < 32)%nat.
Proof. destruct c; unfold priority, RT_LEVELS, NORMAL_PRIO, AI_BATCH_PRIO; lia. Qed.

End Class.

Module ReadyQueue.
Import Class.

Definition LEVELS : nat := 32.

Record ReadyQueue := mkRQ {
  bitmap : Z;
  queues : list (list nat);
  batch_starved : Z;
}.

Definition new : ReadyQueue := mkRQ 0 (replicate LEVELS []) 0.

(** [self.queues[lvl]] *)
Definition queue (q : ReadyQueue) (lvl : nat) : list nat := default [] (queues q !! lvl).

Definition is_nil {A : Type} (l : list A) : bool :=
  match l with [] => true | _ => false end.

(** [self.bitmap |= 1 << lvl], [self.bitmap &= !(1 << lvl)] *)
Definition set_level (b : Z) (lvl : nat) : Z := Z.lor b (u32 (Z.shiftl 1 (Z.of_nat lvl))).
Definition clear_level (b : Z) (lvl : nat) : Z :=
  Z.land b (u32 (Z.lnot (Z.shiftl 1 (Z.of_nat lvl)))).

Definition push (q : ReadyQueue) (token prio : nat) : ReadyQueue :=
  let lvl := Nat.min prio (LEVELS - 1) in
  let qs := if decide (token ∈ queue q lvl) then queues q
            else <[lvl := queue q lvl ++ [token]]> (queues q) in
  mkRQ (set_level (bitmap q) lvl) qs (batch_starved q).

(** [u32::trailing_zeros] of a non-zero word: the lowest set bit at or above
    [i], [n] bits looked at. *)
Fixpoint trailing_zeros_from (b : Z) (i n : nat) : nat :=
  match n with
  | O => i
  | S n' => if Z.testbit b (Z.of_nat i) then i else trailing_zeros_from b (S i) n'
  end.

Definition trailing_zeros (b : Z) : nat := trailing_zeros_from b 0 LEVELS.

Definition pick_from (q : ReadyQueue) (lvl : nat) : option nat * ReadyQueue :=
  match queue q lvl with
  | [] => (None, q)
  | token :: rest =>
      let b := if is_nil rest then clear_level (bitmap q) lvl else bitmap q in
      (Some token, mkRQ b (<[lvl := rest]> (queues q)) (batch_starved q))
  end.

(** The promotion at the head of [pop_next]. *)
Definition promote (q : ReadyQueue) : ReadyQueue :=
  let batch_lvl := AI_BATCH_PRIO in
  let boosted_lvl := AI_BATCH_BOOST_PRIO in
  if (AI_BATCH_STARVATION_TICKS <=? batch_starved q) && negb (is_nil (queue q batch_lvl)) then
    match queue q batch_lvl with
    | [] => q
    | tok :: rest =>
        let b := if is_nil rest then clear_level (bitmap q) batch_lvl else bitmap q in
        let qs := <[batch_lvl := rest]> (queues q) in
        let boosted := default [] (qs !! boosted_lvl) in
        mkRQ (set_level b boosted_lvl) (<[boosted_lvl := boosted ++ [tok]]> qs) 0
    end
  else q.

Definition pop_next (q0 : ReadyQueue) : option nat * ReadyQueue :=
  let batch_lvl := AI_BATCH_PRIO in
  let boosted_lvl := AI_BATCH_BOOST_PRIO in
  let q := promote q0 in
  if bitmap q =? 0 then (None, q)
  else
    let lvl := trailing_zeros (bitmap q) in
    match pick_from q lvl with
    | (Some token, q1) =>
        let starved :=
          if decide (lvl = batch_lvl ∨ lvl = boosted_lvl) then 0
          else if negb (is_nil (queue q1 batch_lvl)) then u32 (batch_starved q1 + 1)
          else 0 in
        (Some token, mkRQ (bitmap q1) (queues q1) starved)
    | (None, q1) => (None, q1)
    end.

(** [queue.remove(position(token))] *)
Fixpoint remove_one (token : nat) (l : list nat) : list nat :=
  match l with
  | [] => []
  | t :: l' => if decide (t = token) then l' else t :: remove_one token l'
  end.

(** The loop of [remove] over the levels [lvl ..]. *)
Fixpoint remove_from (q : ReadyQueue) (token lvl n : nat) : bool * ReadyQueue :=
  match n with
  | O => (false, q)
  | S n' =>
      if decide (token ∈ queue q lvl) then
        let rest := remove_one token (queue q lvl) in
        let b := if is_nil rest then clear_level (bitmap q) lvl else bitmap q in
        (true, mkRQ b (<[lvl := rest]> (queues q)) (batch_starved q))
      else remove_from q token (S lvl) n'
  end.

Definition remove (q : ReadyQueue) (token : nat) : bool * ReadyQueue :=
  remove_from q token 0 LEVELS.

Definition is_empty (q : ReadyQueue) : bool := bitmap q =? 0.

Definition len (q : ReadyQueue) : nat := sum_list (length <$> queues q).

(** ** The bitmap *)

Lemma testbit_wrap (w x i : Z) : 0 <= i < w → Z.testbit (wrap w x) i = Z.testbit x i.
Proof. intros Hi. unfold wrap. by rewrite Z.mod_pow2_bits_low by lia. Qed.

Lemma testbit_one_shift (l i : nat) :
  Z.testbit (Z.shiftl 1 (Z.of_nat l)) (Z.of_nat i) = bool_decide (i = l).
Proof.
  rewrite Z.shiftl_1_l, Z.pow2_bits_eqb by lia.
  destruct (Z.eqb_spec (Z.of_nat l) (Z.of_nat i)), (bool_decide_reflect (i = l)); lia.
Qed.

Lemma set_level_bit (b : Z) (l i : nat) :
  (i < 32)%nat → Z.testbit (set_level b l) (Z.of_nat i) = Z.testbit b (Z.of_nat i) || bool_decide (i = l).
Proof.
  intros Hi. unfold set_level, u32. by rewrite Z.lor_spec, testbit_wrap, testbit_one_shift by lia.
Qed.

Lemma clear_level_bit (b : Z) (l i : nat) :
  (i < 32)%nat →
  Z.testbit (clear_level b l) (Z.of_nat i) = Z.testbit b (Z.of_nat i) && negb (bool_decide (i = l)).
Proof.
  intros Hi. unfold clear_level, u32.
  by rewrite Z.land_spec, testbit_wrap, Z.lnot_spec, testbit_one_shift by lia.
Qed.

Lemma set_level_range (b : Z) (l : nat) : 0 <= b < 2 ^ 32 → 0 <= set_level b l < 2 ^ 32.
Proof. intros Hb. apply (lor_range 32); [lia|done|by apply wrap_range]. Qed.

Lemma clear_level_range (b : Z) (l : nat) : 0 <= b < 2 ^ 32 → 0 <= clear_level b l < 2 ^ 32.
Proof. intros Hb. apply (land_range 32); [lia|done]. Qed.

Lemma trailing_zeros_from_spec (b : Z) (n : nat) : ∀ i,
  let r := trailing_zeros_from b i n in
  (i <= r <= i + n)%nat ∧
  (∀ j, (i <= j < r)%nat → Z.testbit b (Z.of_nat j) = false) ∧
  ((r < i + n)%nat → Z.testbit b (Z.of_nat r) = true).
Proof.
  induction n as [|n IH]; intros i; simpl; [split; [lia|]; split; lia|].
  destruct (Z.testbit b (Z.of_nat i)) eqn:E; [split; [lia|]; split; [lia|done]|].
  destruct (IH (S i)) as (H1 & H2 & H3). split; [lia|]. split.
  - intros j Hj. destruct (decide (j = i)) as [->|]; [done|]. apply H2. lia.
  - intros Hr. apply H3. lia.
Qed.

Lemma trailing_zeros_spec (b : Z) :
  0 < b < 2 ^ 32 →
  (trailing_zeros b < 32)%nat ∧ Z.testbit b (Z.of_nat (trailing_zeros b)) = true ∧
  ∀ j, (j < trailing_zeros b)%nat → Z.testbit b (Z.of_nat j) = false.
Proof.
  intros Hb. unfold trailing_zeros. destruct (trailing_zeros_from_spec b LEVELS 0) as (H1 & H2 & H3).
  set (r := trailing_zeros_from b 0 LEVELS) in *. unfold LEVELS in *.
  assert (r < 32)%nat as Hr.
  { destruct (decide (r < 32)%nat); [done|]. exfalso.
    assert (b = 0); [|lia]. apply Z.bits_inj'. intros i Hi. rewrite Z.bits_0.
    destruct (decide (i < 32)).
    - replace i with (Z.of_nat (Z.to_nat i)) by lia. apply H2. lia.
    - apply (bits_above i 32 b); lia. }
  split; [done|]. split; [apply H3; lia|]. intros j Hj. apply H2. lia.
Qed.

(** ** Well-formed queues: a bit is set exactly when its level is occupied *)

Definition wf (q : ReadyQueue) : Prop :=
  length (queues q) = LEVELS ∧ 0 <= bitmap q < 2 ^ 32 ∧
  ∀ l, (l < LEVELS)%nat → Z.testbit (bitmap q) (Z.of_nat l) = negb (is_nil (queue q l)).

Lemma is_nil_true {A : Type} (l : list A) : is_nil l = true ↔ l = [].
Proof. by destruct l. Qed.

Lemma queue_insert (b s : Z) (qs : list (list nat)) (l i : nat) (c : list nat) :
  (l < length qs)%nat →
  queue (mkRQ b (<[l := c]> qs) s) i = if decide (i = l) then c else default [] (qs !! i).
Proof.
  intros Hl. unfold queue. simpl. case_decide as Hd; subst.
  - by rewrite list_lookup_insert_eq.
  - by rewrite list_lookup_insert_ne.
Qed.

Lemma wf_store (q : ReadyQueue) (l : nat) (c : list nat) (b s : Z) :
  wf q → (l < LEVELS)%nat → 0 <= b < 2 ^ 32 →
  (∀ i, (i < LEVELS)%nat → Z.testbit b (Z.of_nat i) =
     if decide (i = l) then negb (is_nil c) else Z.testbit (bitmap q) (Z.of_nat i)) →
  wf (mkRQ b (<[l := c]> (queues q)) s).
Proof.
  intros (Hlen & Hr & Hbits) Hl Hb Hbit. split; [simpl; by rewrite length_insert|]. split; [done|].
  intros i Hi. simpl. rewrite Hbit by done. rewrite queue_insert by (by rewrite Hlen).
  case_decide; [done|]. by apply Hbits.
Qed.

(** Taking tokens out of a level, clearing its bit when it empties. *)
Lemma wf_shrink (q : ReadyQueue) (l : nat) (rest : list nat) (s : Z) :
  wf q → (l < LEVELS)%nat → queue q l ≠ [] →
  wf (mkRQ (if is_nil rest then clear_level (bitmap q) l else bitmap q)
        (<[l := rest]> (queues q)) s).
Proof.
  intros Hwf Hl Hne. pose proof Hwf as (Hlen & Hr & Hbits). apply wf_store; [done|done| |].
  - destruct (is_nil rest); [by apply clear_level_range|done].
  - intros i Hi. destruct rest as [|t rest]; simpl.
    + rewrite clear_level_bit by done.
      case_decide as Hd; [rewrite bool_decide_eq_true_2 by done; by rewrite andb_false_r|].
      rewrite bool_decide_eq_false_2 by done. by rewrite andb_true_r.
    + case_decide as Hd; [|done]. subst. rewrite Hbits by done. by destruct (queue q l).
Qed.

(** Adding a token to a level and setting its bit. *)
Lemma wf_grow (q : ReadyQueue) (l tok : nat) (s : Z) :
  wf q → (l < LEVELS)%nat →
  wf (mkRQ (set_level (bitmap q) l) (<[l := queue q l ++ [tok]]> (queues q)) s).
Proof.
  intros Hwf Hl. pose proof Hwf as (Hlen & Hr & Hbits).
  apply wf_store; [done|done|by apply set_level_range|].
  intros i Hi. rewrite set_level_bit by done. case_decide as Hd.
  - rewrite bool_decide_eq_true_2 by done. rewrite orb_true_r. by destruct (queue q l).
  - rewrite bool_decide_eq_false_2 by done. by rewrite orb_false_r.
Qed.

Lemma queue_new_wf : wf new.
Proof.
  split; [done|]. split; [simpl; lia|]. intros l Hl. simpl. rewrite Z.bits_0.
  unfold queue, new. cbn [queues]. by rewrite lookup_replicate_2.
Qed.

(** ** The levels of a queue after each operation *)

Lemma push_spec (q : ReadyQueue) (tok prio : nat) :
  wf q → let l := Nat.min prio 31 in
  wf (push q tok prio) ∧ batch_starved (push q tok prio) = batch_starved q ∧
  ∀ i, queue (push q tok prio) i =
    if decide (i = l ∧ tok ∉ queue q l) then queue q l ++ [tok] else queue q i.
Proof.
  intros Hwf l. unfold push. fold l. change (LEVELS - 1)%nat with 31%nat. fold l.
  assert (l < LEVELS)%nat as Hl by (unfold l, LEVELS; lia).
  pose proof Hwf as (Hlen & Hr & Hbits). case_decide as Hd.
  - split; [|split; [done|]].
    + split; [done|]. split; [by apply set_level_range|]. intros i Hi. simpl.
      change (queue _ i) with (queue q i). rewrite set_level_bit, Hbits by done.
      destruct (bool_decide_reflect (i = l)) as [->|]; [|by rewrite orb_false_r].
      by destruct (queue q l); [set_solver|].
    + intros i. rewrite decide_False by naive_solver. done.
  - split; [by apply wf_grow|]. split; [done|]. intros i. rewrite queue_insert by (by rewrite Hlen).
    repeat case_decide; naive_solver.
Qed.

Lemma pick_from_spec (q : ReadyQueue) (l t : nat) (rest : list nat) :
  wf q → (l < LEVELS)%nat → queue q l = t :: rest →
  ∃ q', pick_from q l = (Some t, q') ∧ wf q' ∧ batch_starved q' = batch_starved q ∧
    ∀ i, queue q' i = if decide (i = l) then rest else queue q i.
Proof.
  intros Hwf Hl Hq. unfold pick_from. rewrite Hq. eexists. split; [done|].
  split; [apply wf_shrink; [done|done|by rewrite Hq]|]. split; [done|].
  intros i. apply queue_insert. by rewrite (proj1 Hwf).
Qed.

Lemma promote_spec (q : ReadyQueue) :
  wf q →
  wf (promote q) ∧
  ((batch_starved q < AI_BATCH_STARVATION_TICKS ∨ queue q AI_BATCH_PRIO = []) ∧ promote q = q ∨
   AI_BATCH_STARVATION_TICKS <= batch_starved q ∧ batch_starved (promote q) = 0 ∧
   ∃ tok rest, queue q AI_BATCH_PRIO = tok :: rest ∧
     ∀ i, queue (promote q) i =
       if decide (i = AI_BATCH_BOOST_PRIO) then queue q i ++ [tok]
       else if decide (i = AI_BATCH_PRIO) then rest else queue q i).
Proof.
  intros Hwf. unfold promote. destruct (Z.leb_spec AI_BATCH_STARVATION_TICKS (batch_starved q)); simpl.
  2:{ split; [done|]. left. split; [by left|done]. }
  destruct (queue q AI_BATCH_PRIO) as [|tok rest] eqn:E; simpl.
  { split; [done|]. left. split; [by right|done]. }
  set (b := if is_nil rest then _ else _). set (qs := <[AI_BATCH_PRIO := rest]> (queues q)).
  assert (wf (mkRQ b qs 0)) as Hwf1.
  { apply wf_shrink; [done|unfold AI_BATCH_PRIO, LEVELS; lia|by rewrite E]. }
  assert (length qs = 32%nat) as Hlen by (unfold qs; rewrite length_insert; apply Hwf).
  split.
  - apply (wf_grow (mkRQ b qs 0) AI_BATCH_BOOST_PRIO tok 0 Hwf1).
    unfold AI_BATCH_BOOST_PRIO, NORMAL_PRIO, LEVELS. lia.
  - right. split; [done|]. split; [done|]. exists tok, rest. split; [done|]. intros i.
    rewrite queue_insert by (rewrite Hlen; unfold AI_BATCH_BOOST_PRIO, NORMAL_PRIO; lia).
    assert (∀ j, default [] (qs !! j) = if decide (j = AI_BATCH_PRIO) then rest else queue q j) as Hqs.
    { intros j. apply (queue_insert 0 0). rewrite (proj1 Hwf). unfold AI_BATCH_PRIO, LEVELS. lia. }
    rewrite !Hqs. case_decide as Hd; [|done]. subst. by rewrite decide_False.
Qed.

(** ** The linear-scan model *)

(** (token, level) pairs in arrival order. *)
Abbreviation model := (list (nat * nat)).

Definition at_level (l : nat) (m : model) : list nat := (filter (fun x => snd x = l) m).*1.

(** The first pair of least level, and the others. *)
Fixpoint extract_min (m : model) : option ((nat * nat) * model) :=
  match m with
  | [] => None
  | x :: m' =>
      match extract_min m' with
      | None => Some (x, m')
      | Some (y, m'') =>
          if decide (snd x <= snd y)%nat then Some (x, m') else Some (y, x :: m'')
      end
  end.

(** The first token of level [l], and the other pairs. *)
Fixpoint take_level (l : nat) (m : model) : option (nat * model) :=
  match m with
  | [] => None
  | x :: m' =>
      if decide (snd x = l) then Some (fst x, m')
      else match take_level l m' with
           | Some (t, m'') => Some (t, x :: m'')
           | None => None
           end
  end.

Definition model_push (m : model) (tok prio : nat) : model := m ++ [(tok, Nat.min prio 31)].
Definition model_remove (m : model) (tok : nat) : model := filter (fun x => fst x ≠ tok) m.

(** A batch token skipped often enough queues up behind the normal ones. *)
Definition model_promote (m : model) (starved : Z) : model * Z :=
  if AI_BATCH_STARVATION_TICKS <=? starved then
    match take_level AI_BATCH_PRIO m with
    | Some (t, m') => (m' ++ [(t, AI_BATCH_BOOST_PRIO)], 0)
    | None => (m, starved)
    end
  else (m, starved).

Definition model_pop (m0 : model) (s0 : Z) : option nat * (model * Z) :=
  let (m, s) := model_promote m0 s0 in
  match extract_min m with
  | None => (None, (m, s))
  | Some ((t, l), m') =>
      (Some t, (m', if decide (l = AI_BATCH_PRIO ∨ l = AI_BATCH_BOOST_PRIO) then 0
                    else if negb (is_nil (at_level AI_BATCH_PRIO m')) then u32 (s + 1) else 0))
  end.

Lemma at_level_app (l : nat) (m1 m2 : model) :
  at_level l (m1 ++ m2) = at_level l m1 ++ at_level l m2.
Proof. unfold at_level. by rewrite filter_app, fmap_app. Qed.

Lemma at_level_cons (l : nat) (x : nat * nat) (m : model) :
  at_level l (x :: m) = if decide (snd x = l) then fst x :: at_level l m else at_level l m.
Proof. unfold at_level. rewrite filter_cons. by case_decide. Qed.

Lemma at_level_elem (l t : nat) (m : model) : t ∈ at_level l m ↔ (t, l) ∈ m.
Proof.
  unfold at_level. rewrite list_elem_of_fmap. split.
  - intros ([u k] & -> & [<- Hin]%list_elem_of_filter). done.
  - intros Hin. exists (t, l). split; [done|]. by apply list_elem_of_filter.
Qed.

Lemma at_level_nil (l : nat) (m : model) :
  Forall (fun x => snd x ≠ l) m → at_level l m = [].
Proof.
  induction 1 as [|x m Hx _ IH]; [done|]. rewrite at_level_cons. by rewrite decide_False.
Qed.

(** Taking out the first pair of its level. *)
Lemma at_level_take (l t : nat) (m1 m2 : model) :
  Forall (fun x => snd x ≠ l) m1 →
  at_level l (m1 ++ (t, l) :: m2) = t :: at_level l (m1 ++ m2) ∧
  ∀ i, i ≠ l → at_level i (m1 ++ (t, l) :: m2) = at_level i (m1 ++ m2).
Proof.
  intros H. rewrite !at_level_app, at_level_cons, (at_level_nil l m1 H). simpl.
  rewrite decide_True by done. split; [done|]. intros i Hi.
  rewrite !at_level_app, at_level_cons. simpl. by rewrite decide_False.
Qed.

Lemma extract_min_None (m : model) : extract_min m = None ↔ m = [].
Proof.
  destruct m as [|x m]; [done|]. simpl.
  destruct (extract_min m) as [[y m']|]; [|done]. by case_decide.
Qed.

Lemma extract_min_Some (m m' : model) (t l : nat) :
  extract_min m = Some ((t, l), m') →
  ∃ m1 m2, m = m1 ++ (t, l) :: m2 ∧ m' = m1 ++ m2 ∧
    Forall (fun x => (l < snd x)%nat) m1 ∧ Forall (fun x => (l <= snd x)%nat) m2.
Proof.
  revert t l m'. induction m as [|x m IH]; intros t l m' H; simpl in H; [done|].
  destruct (extract_min m) as [[[u k] m0]|] eqn:E.
  - destruct (IH u k m0 eq_refl) as (m1 & m2 & -> & -> & H1 & H2). simpl in H.
    case_decide as Hle; simplify_eq.
    + exists [], (m1 ++ (u, k) :: m2). split; [done|]. split; [done|]. split; [constructor|].
      simpl in Hle. rewrite Forall_app, Forall_cons. split; [|split].
      * eapply Forall_impl; [exact H1|]. simpl. lia.
      * done.
      * eapply Forall_impl; [exact H2|]. simpl. lia.
    + exists (x :: m1), m2. split; [done|]. split; [done|]. split; [|done].
      constructor; [lia|done].
  - apply extract_min_None in E as ->. simplify_eq. by exists [], [].
Qed.

Lemma take_level_Some (l t : nat) (m m' : model) :
  take_level l m = Some (t, m') →
  ∃ m1 m2, m = m1 ++ (t, l) :: m2 ∧ m' = m1 ++ m2 ∧ Forall (fun x => snd x ≠ l) m1.
Proof.
  revert m'. induction m as [|[u k] m IH]; intros m' H; simpl in H; [done|].
  case_decide as Hd; simplify_eq; [by exists [], m'|].
  destruct (take_level l m) as [[u' m0]|]; simplify_eq.
  destruct (IH m0 eq_refl) as (m1 & m2 & -> & -> & H1).
  exists ((u, k) :: m1), m2. split; [done|]. split; [done|]. by constructor.
Qed.

Lemma take_level_None (l : nat) (m : model) : take_level l m = None → at_level l m = [].
Proof.
  induction m as [|x m IH]; simpl; [done|]. rewrite at_level_cons. case_decide; [done|].
  destruct (take_level l m) as [[]|]; [done|auto].
Qed.

(** ** Refinement *)

(** The queue holds the model's tokens, level by level. *)
Definition rel (q : ReadyQueue) (m : model) : Prop :=
  wf q ∧ (∀ l, queue q l = at_level l m) ∧ Forall (fun x => (snd x < LEVELS)%nat) m.

Lemma rel_levels (m : model) (x : nat * nat) :
  Forall (fun x => (snd x < LEVELS)%nat) m → x ∈ m → (snd x < LEVELS)%nat.
Proof. rewrite Forall_forall. auto. Qed.

Lemma rel_new : rel new [].
Proof.
  split; [apply queue_new_wf|]. split; [|constructor]. intros l. unfold queue, new. cbn [queues].
  destruct (decide (l < LEVELS)%nat); [by rewrite lookup_replicate_2|].
  by rewrite lookup_ge_None_2 by (rewrite length_replicate; lia).
Qed.

Lemma rel_push (q : ReadyQueue) (m : model) (tok prio : nat) :
  rel q m → tok ∉ m.*1 → rel (push q tok prio) (model_push m tok prio).
Proof.
  intros (Hwf & Hq & Hm) Hnew. destruct (push_spec q tok prio Hwf) as (Hwf' & _ & Hq').
  split; [done|]. split.
  - intros l. rewrite Hq'. unfold model_push. rewrite at_level_app, at_level_cons. simpl.
    assert (∀ l, tok ∉ at_level l m) as Hno.
    { intros k. rewrite at_level_elem. intros Hin. apply Hnew. apply list_elem_of_fmap.
      by exists (tok, k). }
    rewrite !Hq. destruct (decide (l = Nat.min prio 31)) as [->|Hne].
    + rewrite !decide_True by (split; [done|apply Hno]) || done. done.
    + rewrite !decide_False by naive_solver. by rewrite app_nil_r.
  - unfold model_push. rewrite Forall_app. split; [done|]. apply Forall_singleton. unfold LEVELS. simpl. lia.
Qed.

Lemma rel_promote (q : ReadyQueue) (m : model) :
  rel q m →
  rel (promote q) (fst (model_promote m (batch_starved q))) ∧
  batch_starved (promote q) = snd (model_promote m (batch_starved q)).
Proof.
  intros (Hwf & Hq & Hm). destruct (promote_spec q Hwf) as [Hwf' Hcase].
  unfold model_promote. destruct Hcase as [[Hno ->]|(Hs & Hz & tok & rest & Hb & Hq')].
  - destruct (Z.leb_spec AI_BATCH_STARVATION_TICKS (batch_starved q)); [|done].
    destruct Hno as [?|Hno]; [lia|]. destruct (take_level AI_BATCH_PRIO m) as [[t m']|] eqn:E; [|done].
    apply take_level_Some in E as (m1 & m2 & -> & -> & H1).
    rewrite Hq in Hno. by rewrite (proj1 (at_level_take _ t m1 m2 H1)) in Hno.
  - rewrite (proj2 (Z.leb_le _ _)) by done. rewrite Hq in Hb.
    destruct (take_level AI_BATCH_PRIO m) as [[t m']|] eqn:E;
      [|apply take_level_None in E; congruence].
    apply take_level_Some in E as (m1 & m2 & -> & -> & H1).
    destruct (at_level_take AI_BATCH_PRIO t m1 m2 H1) as [Ht Ho]. rewrite Ht in Hb. simplify_eq.
    simpl. split; [|done]. split; [done|]. split.
    + intros i. rewrite Hq', (at_level_app i (m1 ++ m2)), at_level_cons, !Hq. simpl.
      destruct (decide (i = AI_BATCH_BOOST_PRIO)) as [->|Hi].
      * rewrite (decide_True _ _ eq_refl). by rewrite (Ho AI_BATCH_BOOST_PRIO).
      * rewrite (decide_False (P := AI_BATCH_BOOST_PRIO = i)) by congruence. rewrite app_nil_r.
        case_decide; [by subst|auto].
    + rewrite !Forall_app in *. destruct Hm as [Hm1 [_ Hm2]%Forall_cons].
      split; [done|]. apply Forall_singleton. unfold LEVELS, AI_BATCH_BOOST_PRIO, NORMAL_PRIO. simpl. lia.
Qed.

(** The lowest set bit is the least level of the model. *)
Lemma rel_lowest (q : ReadyQueue) (m m' : model) (t l : nat) :
  rel q m → extract_min m = Some ((t, l), m') → bitmap q ≠ 0 ∧ trailing_zeros (bitmap q) = l.
Proof.
  intros (Hwf & Hq & Hm) E. destruct Hwf as (Hlen & Hr & Hbits).
  apply extract_min_Some in E as (m1 & m2 & -> & -> & H1 & H2).
  assert (l < LEVELS)%nat as Hl by (apply (rel_levels _ (t, l) Hm); set_solver).
  assert (Z.testbit (bitmap q) (Z.of_nat l) = true) as Hbit.
  { rewrite Hbits, Hq by done. rewrite (proj1 (at_level_take l t m1 m2 ltac:(
      eapply Forall_impl; [exact H1|]; simpl; lia))). done. }
  assert (bitmap q ≠ 0) as Hnz by (intros Hz; rewrite Hz, Z.bits_0 in Hbit; done).
  split; [done|]. destruct (trailing_zeros_spec (bitmap q)) as (Ht1 & Ht2 & Ht3); [lia|].
  destruct (decide (trailing_zeros (bitmap q) < l)%nat) as [Hlt|].
  - exfalso. rewrite Hbits, Hq in Ht2 by done. rewrite at_level_nil in Ht2; [done|].
    rewrite Forall_app, Forall_cons. split; [|split]; simpl.
    + eapply Forall_impl; [exact H1|]. simpl. lia.
    + lia.
    + eapply Forall_impl; [exact H2|]. simpl. lia.
  - destruct (decide (l < trailing_zeros (bitmap q))%nat); [|lia]. by rewrite Ht3 in Hbit.
Qed.

Lemma rel_empty (q : ReadyQueue) (m : model) : rel q m → (bitmap q = 0 ↔ m = []).
Proof.
  intros Hrel. split.
  - intros Hz. destruct (extract_min m) as [[[t l] m']|] eqn:E; [|by apply extract_min_None].
    by destruct (rel_lowest _ _ _ _ _ Hrel E).
  - intros ->. destruct Hrel as ((Hlen & Hr & Hbits) & Hq & _).
    apply Z.bits_inj'. intros i Hi. rewrite Z.bits_0.
    destruct (decide (i < 32)); [|by apply (bits_above i 32); lia].
    replace i with (Z.of_nat (Z.to_nat i)) by lia. rewrite Hbits, Hq by (unfold LEVELS; lia). done.
Qed.

Lemma rel_pop (q : ReadyQueue) (m : model) :
  rel q m →
  fst (pop_next q) = fst (model_pop m (batch_starved q)) ∧
  rel (snd (pop_next q)) (fst (snd (model_pop m (batch_starved q)))) ∧
  batch_starved (snd (pop_next q)) = snd (snd (model_pop m (batch_starved q))).
Proof.
  intros Hrel. destruct (rel_promote q m Hrel) as [Hrel' Hs]. unfold pop_next, model_pop.
  destruct (model_promote m (batch_starved q)) as [m1 s1]. simpl in *.
  set (q1 := promote q) in *. destruct (extract_min m1) as [[[t l] m']|] eqn:E.
  2:{ apply extract_min_None in E as ->. rewrite (proj2 (Z.eqb_eq _ _)); [done|].
      by apply (rel_empty q1 []). }
  destruct (rel_lowest _ _ _ _ _ Hrel' E) as [Hnz ->].
  rewrite (proj2 (Z.eqb_neq _ _)) by done.
  destruct Hrel' as (Hwf & Hq & Hm).
  apply extract_min_Some in E as (k1 & k2 & -> & -> & H1 & H2).
  assert (l < LEVELS)%nat as Hl by (apply (rel_levels _ (t, l) Hm); set_solver).
  destruct (at_level_take l t k1 k2) as [Ht Ho].
  { eapply Forall_impl; [exact H1|]. simpl. lia. }
  destruct (pick_from_spec q1 l t (at_level l (k1 ++ k2)) Hwf Hl) as (q2 & -> & Hwf2 & Hs2 & Hq2).
  { by rewrite Hq. }
  assert (∀ i, queue q2 i = at_level i (k1 ++ k2)) as Hq3.
  { intros i. rewrite Hq2. case_decide; [by subst|]. rewrite Hq. auto. }
  simpl. split; [done|]. split; [|by rewrite Hq3, Hs2, Hs].
  split; [by destruct Hwf2 as (?&?&?)|]. split; [done|].
  rewrite !Forall_app, Forall_cons in *. tauto.
Qed.

Lemma remove_from_spec (q : ReadyQueue) (tok : nat) (n : nat) : ∀ l,
  wf q → (l + n <= LEVELS)%nat →
  (∃ k q', remove_from q tok l n = (true, q') ∧ (l <= k < l + n)%nat ∧ tok ∈ queue q k ∧ wf q' ∧
     batch_starved q' = batch_starved q ∧
     ∀ i, queue q' i = if decide (i = k) then remove_one tok (queue q k) else queue q i) ∨
  (remove_from q tok l n = (false, q) ∧ ∀ k, (l <= k < l + n)%nat → tok ∉ queue q k).
Proof.
  induction n as [|n IH]; intros l Hwf Hln; simpl; [right; split; [done|lia]|].
  case_decide as Hin.
  - left. eexists l, _. split; [done|]. split; [lia|]. split; [done|].
    split; [apply wf_shrink; [done|lia|by intros Hn; rewrite Hn in Hin; apply not_elem_of_nil in Hin]|].
    split; [done|]. intros i. apply queue_insert. rewrite (proj1 Hwf). lia.
  - destruct (IH (S l) Hwf ltac:(lia)) as [(k & q' & Hr & Hk & Hrest)|[Hr Hno]].
    + left. exists k, q'. split; [done|]. split; [lia|done].
    + right. split; [done|]. intros k Hk. destruct (decide (k = l)) as [->|]; [done|]. apply Hno. lia.
Qed.

Lemma remove_one_filter (tok : nat) (l : list nat) :
  NoDup l → remove_one tok l = filter (fun t => t ≠ tok) l.
Proof.
  induction 1 as [|t l Hnin _ IH]; [done|]. rewrite filter_cons. simpl. case_decide as Hd.
  - subst. rewrite decide_False by tauto. symmetry. apply list_filter_all.
    rewrite Forall_forall. intros x Hx ->. done.
  - rewrite decide_True by done. by rewrite IH.
Qed.

Lemma at_level_remove (l tok : nat) (m : model) :
  at_level l (model_remove m tok) = filter (fun t => t ≠ tok) (at_level l m).
Proof.
  unfold model_remove. induction m as [|[t k] m IH]; [done|].
  rewrite filter_cons, at_level_cons. simpl. destruct (decide (t ≠ tok)) as [Hd|Hd].
  - rewrite at_level_cons, IH. simpl. destruct (decide (k = l)); [|done].
    rewrite filter_cons. by rewrite decide_True.
  - rewrite IH. destruct (decide (k = l)); [|done]. rewrite filter_cons. by rewrite decide_False.
Qed.

Lemma at_level_NoDup (l : nat) (m : model) : NoDup m.*1 → NoDup (at_level l m).
Proof.
  induction m as [|[t k] m IH]; simpl; [intros; constructor|].
  intros [Hnin Hnd]%NoDup_cons. rewrite at_level_cons. case_decide; [|auto].
  constructor; [|auto]. simpl. rewrite at_level_elem. intros Hin. apply Hnin.
  apply list_elem_of_fmap. by exists (t, l).
Qed.

(** A token is queued at one level only. *)
Lemma model_level_unique (m : model) (t k l : nat) :
  NoDup m.*1 → (t, k) ∈ m → (t, l) ∈ m → k = l.
Proof.
  induction m as [|[u j] m IH]; simpl; [by intros _ ?%not_elem_of_nil|].
  intros [Hnin Hnd]%NoDup_cons [H1|H1]%elem_of_cons [H2|H2]%elem_of_cons; simplify_eq; try done.
  - exfalso. apply Hnin, list_elem_of_fmap. by exists (u, l).
  - exfalso. apply Hnin, list_elem_of_fmap. by exists (u, k).
  - auto.
Qed.

Lemma rel_remove (q : ReadyQueue) (m : model) (tok : nat) :
  rel q m → NoDup m.*1 →
  fst (remove q tok) = bool_decide (tok ∈ m.*1) ∧
  rel (snd (remove q tok)) (model_remove m tok) ∧
  batch_starved (snd (remove q tok)) = batch_starved q.
Proof.
  intros (Hwf & Hq & Hm) Hnd. unfold remove.
  assert (Forall (fun x => (snd x < LEVELS)%nat) (model_remove m tok)) as Hm'.
  { apply Forall_forall. intros x [_ Hx]%list_elem_of_filter. by eapply rel_levels. }
  destruct (remove_from_spec q tok LEVELS 0 Hwf ltac:(lia))
    as [(k & q' & -> & Hk & Hin & Hwf' & Hs & Hq')|[-> Hno]]; simpl.
  - rewrite Hq, at_level_elem in Hin. split; [|split; [|done]].
    + rewrite bool_decide_eq_true_2; [done|]. apply list_elem_of_fmap. by exists (tok, k).
    + split; [done|]. split; [|done]. intros i. rewrite Hq', at_level_remove, !Hq. case_decide as Hd.
      * subst. by apply remove_one_filter, at_level_NoDup.
      * symmetry. apply list_filter_all, Forall_forall. intros t Ht%at_level_elem ->. apply Hd.
        by eapply model_level_unique.
  - assert (tok ∉ m.*1) as Hnin.
    { intros ([t l] & -> & Hin)%list_elem_of_fmap. apply (Hno l).
      - pose proof (rel_levels _ _ Hm Hin). simpl in *. lia.
      - rewrite Hq. by apply at_level_elem. }
    split; [by rewrite bool_decide_eq_false_2|]. split; [|done].
    replace (model_remove m tok) with m; [done|]. symmetry. apply list_filter_all, Forall_forall.
    intros x Hx <-. apply Hnin, list_elem_of_fmap. by exists x.
Qed.

(** ** Histories *)

Inductive op :=
| Push (tok prio : nat)
| Pop
| Remove (tok : nat).

Inductive answer :=
| Pushed
| Popped (t : option nat)
| Removed (found : bool).

Definition run_op (q : ReadyQueue) (o : op) : answer * ReadyQueue :=
  match o with
  | Push t p => (Pushed, push q t p)
  | Pop => let (t, q') := pop_next q in (Popped t, q')
  | Remove t => let (b, q') := remove q t in (Removed b, q')
  end.

Definition model_op (ms : model * Z) (o : op) : answer * (model * Z) :=
  let (m, s) := ms in
  match o with
  | Push t p => (Pushed, (model_push m t p, s))
  | Pop => let (t, ms') := model_pop m s in (Popped t, ms')
  | Remove t => (Removed (bool_decide (t ∈ m.*1)), (model_remove m t, s))
  end.

(** The contract of [push]: the token is not queued. *)
Definition allowed (m : model) (o : op) : Prop :=
  match o with Push t _ => t ∉ m.*1 | _ => True end.

Fixpoint run (q : ReadyQueue) (os : list op) : list answer :=
  match os with
  | [] => []
  | o :: os' => let (a, q') := run_op q o in a :: run q' os'
  end.

Fixpoint model_run (ms : model * Z) (os : list op) : list answer :=
  match os with
  | [] => []
  | o :: os' => let (a, ms') := model_op ms o in a :: model_run ms' os'
  end.

Fixpoint all_allowed (ms : model * Z) (os : list op) : Prop :=
  match os with
  | [] => True
  | o :: os' => allowed (fst ms) o ∧ all_allowed (snd (model_op ms o)) os'
  end.

Lemma model_promote_tokens (m : model) (s : Z) :
  (fst (model_promote m s)).*1 ≡ₚ m.*1.
Proof.
  unfold model_promote. destruct (_ <=? _); [|done].
  destruct (take_level AI_BATCH_PRIO m) as [[t m']|] eqn:E; [|done].
  apply take_level_Some in E as (m1 & m2 & -> & -> & _). simpl. rewrite !fmap_app, !fmap_cons.
  simpl. solve_Permutation.
Qed.

Lemma model_pop_tokens (m : model) (s : Z) :
  match fst (model_pop m s) with
  | Some t => m.*1 ≡ₚ t :: (fst (snd (model_pop m s))).*1
  | None => m = [] ∧ fst (snd (model_pop m s)) = []
  end.
Proof.
  unfold model_pop. pose proof (model_promote_tokens m s) as Hp.
  destruct (model_promote m s) as [m1 s1]. simpl in Hp.
  destruct (extract_min m1) as [[[t l] m']|] eqn:E; simpl.
  - apply extract_min_Some in E as (k1 & k2 & -> & -> & _). rewrite <- Hp.
    rewrite !fmap_app, fmap_cons. simpl. solve_Permutation.
  - apply extract_min_None in E as ->. simpl in Hp. apply Permutation_nil in Hp.
    by destruct m.
Qed.

Lemma model_op_NoDup (m : model) (s : Z) (o : op) :
  NoDup m.*1 → allowed m o → NoDup (fst (snd (model_op (m, s) o))).*1.
Proof.
  intros Hnd Ha. destruct o as [t p| |t]; simpl in *.
  - unfold model_push. rewrite fmap_app. simpl. apply NoDup_app. split; [done|].
    split; [set_solver|apply NoDup_singleton].
  - pose proof (model_pop_tokens m s) as Hp. destruct (model_pop m s) as [[t|] [m' s']]; simpl in *.
    + rewrite Hp in Hnd. by apply NoDup_cons in Hnd as [_ ?].
    + destruct Hp as [_ ->]. constructor.
  - by apply NoDup_fmap_filter.
Qed.

Lemma rel_op (q : ReadyQueue) (m : model) (o : op) :
  rel q m → NoDup m.*1 → allowed m o →
  fst (run_op q o) = fst (model_op (m, batch_starved q) o) ∧
  rel (snd (run_op q o)) (fst (snd (model_op (m, batch_starved q) o))) ∧
  batch_starved (snd (run_op q o)) = snd (snd (model_op (m, batch_starved q) o)).
Proof.
  intros Hrel Hnd Ha. destruct o as [t p| |t]; simpl in *.
  - split; [done|]. split; [by apply rel_push|done].
  - pose proof (rel_pop q m Hrel) as Hp. destruct (pop_next q), (model_pop m (batch_starved q)).
    simpl in *. destruct Hp as [-> ?]. done.
  - pose proof (rel_remove q m t Hrel Hnd) as Hp. destruct (remove q t). simpl in *.
    destruct Hp as [-> ?]. done.
Qed.



(** ** Starvation of batch tasks *)

(** One scheduling round of a task that is always ready: pick, then requeue
    whoever was picked at [prio]. *)
Definition round (prio : nat) (q : ReadyQueue) : ReadyQueue :=
  match pop_next q with
  | (Some t, q') => push q' t prio
  | (None, q') => q'
  end.

(** A pick from an occupied level below which nothing waits. *)
Lemma pop_next_level (q : ReadyQueue) (l t : nat) (rest : list nat) :
  wf q → batch_starved q < AI_BATCH_STARVATION_TICKS ∨ queue q AI_BATCH_PRIO = [] →
  (l < LEVELS)%nat → queue q l = t :: rest → (∀ i, (i < l)%nat → queue q i = []) →
  ∃ q', pop_next q = (Some t, q') ∧ wf q' ∧
    (∀ i, queue q' i = if decide (i = l) then rest else queue q i) ∧
    batch_starved q' =
      if decide (l = AI_BATCH_PRIO ∨ l = AI_BATCH_BOOST_PRIO) then 0
      else if negb (is_nil (queue q' AI_BATCH_PRIO)) then u32 (batch_starved q + 1) else 0.
Proof.
  intros Hwf Hno Hl Hq Hlow. unfold pop_next.
  destruct (promote_spec q Hwf) as [_ [[_ ->]|(Hs & _ & tok & r & Hb & _)]].
  2:{ destruct Hno as [?|Hno]; [lia|congruence]. }
  pose proof Hwf as (Hlen & Hr & Hbits).
  assert (Z.testbit (bitmap q) (Z.of_nat l) = true) as Hbit by (by rewrite Hbits, Hq).
  assert (bitmap q ≠ 0) as Hnz by (intros Hz; by rewrite Hz, Z.bits_0 in Hbit).
  rewrite (proj2 (Z.eqb_neq _ _)) by done.
  destruct (trailing_zeros_spec (bitmap q)) as (Ht1 & Ht2 & Ht3); [lia|].
  assert (trailing_zeros (bitmap q) = l) as ->.
  { destruct (decide (trailing_zeros (bitmap q) < l)%nat) as [Hlt|].
    - rewrite Hbits, Hlow in Ht2 by done. done.
    - destruct (decide (l < trailing_zeros (bitmap q))%nat); [|lia]. by rewrite Ht3 in Hbit. }
  destruct (pick_from_spec q l t rest Hwf Hl Hq) as (q1 & -> & Hwf1 & Hs1 & Hq1).
  eexists. split; [done|]. split; [by destruct Hwf1 as (?&?&?)|]. split; [done|].
  simpl. by rewrite Hs1.
Qed.

(** The starvation protection of batch tasks does not act against the
    normal class: as long as one normal task is ready and requeued after
    every pick, a batch task that waits is never picked and its starvation
    clock never leaves zero, however many rounds pass. *)
Theorem ready_queue_batch_starves_under_normal_load (q : ReadyQueue) (t b n : nat) :
  wf q → batch_starved q = 0 → (∀ i, (i < NORMAL_PRIO)%nat → queue q i = []) →
  queue q NORMAL_PRIO = [t] → queue q AI_BATCH_PRIO = [b] → t ≠ b →
  let q' := Nat.iter n (round NORMAL_PRIO) q in
  fst (pop_next q') = Some t ∧ queue q' AI_BATCH_PRIO = [b] ∧ batch_starved q' = 0.
Proof.
  intros Hwf Hs Hlow Hn Hb Hne q'.
  assert (wf q' ∧ batch_starved q' = 0 ∧ (∀ i, (i < NORMAL_PRIO)%nat → queue q' i = []) ∧
    queue q' NORMAL_PRIO = [t] ∧ queue q' AI_BATCH_PRIO = [b]) as (Hwf' & Hs' & Hlow' & Hn' & Hb').
  { subst q'. induction n as [|n IH]; [done|]. simpl. set (q1 := Nat.iter n _ q) in *.
    destruct IH as (Hwf1 & Hs1 & Hlow1 & Hn1 & Hb1).
    destruct (pop_next_level q1 NORMAL_PRIO t [] Hwf1) as (q2 & Hp & Hwf2 & Hq2 & Hs2);
      [left; by rewrite Hs1|unfold NORMAL_PRIO, LEVELS; lia|done|done|].
    unfold round. rewrite Hp. destruct (push_spec q2 t NORMAL_PRIO Hwf2) as (Hwf3 & Hs3 & Hq3).
    split; [done|]. split; [by rewrite Hs3, Hs2|].
    assert (queue q2 NORMAL_PRIO = []) as Hn2 by (by rewrite Hq2).
    change (Nat.min NORMAL_PRIO 31) with NORMAL_PRIO in Hq3. rewrite Hn2 in Hq3.
    split; [|split].
    - intros i Hi. rewrite Hq3, Hq2. rewrite !decide_False by (unfold NORMAL_PRIO in *; lia). auto.
    - rewrite Hq3, decide_True; [done|]. split; [done|]. apply not_elem_of_nil.
    - rewrite Hq3, decide_False by (by intros [? _]). by rewrite Hq2. }
  destruct (pop_next_level q' NORMAL_PRIO t [] Hwf') as (q2 & -> & _);
    [left; by rewrite Hs'|unfold NORMAL_PRIO, LEVELS; lia|done|done|done].
Qed.

Lemma ready_queue_batch_starves_under_normal_load_witness :
  fst (pop_next (Nat.iter 1000 (round NORMAL_PRIO) (push (push new 1 NORMAL_PRIO) 2 AI_BATCH_PRIO)))
    = Some 1%nat.
Proof.
  apply (ready_queue_batch_starves_under_normal_load
    (push (push new 1 NORMAL_PRIO) 2 AI_BATCH_PRIO) 1 2 1000); try done.
  - apply push_spec, push_spec, queue_new_wf.
  - intros i Hi. unfold NORMAL_PRIO in Hi.
    do 24 (destruct i as [|i]; [reflexivity|]). lia.
Defined.

(** Against real-time load the protection does act: after 64 picks from
    one real-time level that leave a batch task waiting, the next pick moves
    it to the normal level, behind the normal tasks already there. *)
Theorem ready_queue_batch_boost_after_rt_load (q : ReadyQueue) (l t b : nat) :
  wf q → batch_starved q = 0 → (l < 16)%nat → (∀ i, (i < l)%nat → queue q i = []) →
  queue q l = [t] → queue q AI_BATCH_PRIO = [b] →
  let q' := Nat.iter 64 (round l) q in
  batch_starved q' = 64 ∧ queue q' AI_BATCH_PRIO = [b] ∧
  queue (promote q') AI_BATCH_PRIO = [] ∧
  queue (promote q') NORMAL_PRIO = queue q NORMAL_PRIO ++ [b].
Proof.
  intros Hwf Hs Hl Hlow Ht Hb q'.
  assert (∀ n, (n <= 64)%nat → let q1 := Nat.iter n (round l) q in
    wf q1 ∧ batch_starved q1 = Z.of_nat n ∧ ∀ i, queue q1 i = queue q i) as Hinv.
  { induction n as [|n IH]; intros Hn; [done|]. simpl. set (q1 := Nat.iter n _ q) in *.
    destruct (IH ltac:(lia)) as (Hwf1 & Hs1 & Hq1).
    destruct (pop_next_level q1 l t [] Hwf1) as (q2 & Hp & Hwf2 & Hq2 & Hs2);
      [left; rewrite Hs1; unfold AI_BATCH_STARVATION_TICKS; lia|unfold LEVELS; lia
      |by rewrite Hq1|intros i Hi; rewrite Hq1; auto|].
    unfold round. rewrite Hp. destruct (push_spec q2 t l Hwf2) as (Hwf3 & Hs3 & Hq3).
    rewrite (Nat.min_l l 31) in Hq3 by lia.
    split; [done|]. split.
    - rewrite Hs3, Hs2, Hq2, Hq1, Hs1.
      rewrite decide_False by (unfold AI_BATCH_PRIO, AI_BATCH_BOOST_PRIO, NORMAL_PRIO; lia).
      rewrite decide_False by (unfold AI_BATCH_PRIO; lia). rewrite Hb. simpl.
      unfold u32. rewrite wrap_small; lia.
    - intros i. rewrite Hq3, Hq2. rewrite (decide_True (P := l = l)) by done.
      destruct (decide (i = l)) as [->|Hi].
      + rewrite decide_True; [by rewrite Ht|]. split; [done|]. apply not_elem_of_nil.
      + rewrite decide_False by tauto. rewrite Hq2, decide_False by done. auto. }
  destruct (Hinv 64%nat ltac:(lia)) as (Hwf' & Hs' & Hq').
  split; [done|]. split; [by rewrite Hq'|].
  destruct (promote_spec q' Hwf') as [_ [[[Hno|Hno] _]|(_ & _ & tok & rest & Hb' & Hpq)]].
  - unfold q' in Hno. rewrite Hs' in Hno. unfold AI_BATCH_STARVATION_TICKS in Hno. lia.
  - unfold q' in Hno. rewrite Hq' in Hno. congruence.
  - rewrite !Hpq. unfold q' in *. rewrite Hq' in Hb'. rewrite Hb in Hb'. simplify_eq.
    rewrite decide_False, decide_True by done. split; [done|].
    rewrite decide_True by done. by rewrite Hq'.
Qed.

Lemma ready_queue_batch_boost_after_rt_load_witness :
  let q := push (push (push new 1 0) 2 AI_BATCH_PRIO) 3 NORMAL_PRIO in
  queue (promote (Nat.iter 64 (round 0) q)) NORMAL_PRIO = [3%nat; 2%nat].
Proof.
  intros q. assert (wf q) as Hwf by (apply push_spec, push_spec, push_spec, queue_new_wf).
  apply (ready_queue_batch_boost_after_rt_load q 0 1 2 Hwf); try reflexivity; lia.
Defined.

End ReadyQueue.
