(* ===== verification/Scheduler.v ===== *)
(** The task scheduler of [kernel/src/sched/mod.rs].

    The state is the [SCHEDULER] object (task table, free list, ready queue),
    the process-to-slot map, the sleep queue, the running-slot words and the
    per-CPU registers that a context switch saves and restores.  A slot index
    [NO_SLOT] ([usize::MAX]) is [None].  The operations run one after the
    other, as under the scheduler's spin lock; where the code gives up when a
    lock is taken ([try_lock]), the outcome of the attempt is an argument.
    Registers are those of the x86_64 build; the assembly routine [__switch]
    stores the stack pointer of the task it leaves and loads the one of the
    task it enters. *)

From stdpp Require Import base numbers list gmap sorting.
From S2P Require Import Prelude ReadyQueue.
Import Class ReadyQueue.
Local Open Scope Z_scope.
Local Open Scope rust_scope.

Module Scheduler.

Inductive TaskState := Ready | Running | Blocked | Exited.

#[global] Instance TaskState_eq_dec : EqDecision TaskState.
Proof. solve_decision. Defined.

Inductive TaskKind :=
| Empty
| Idle
| User (proc_idx : nat).

#[global] Instance TaskKind_eq_dec : EqDecision TaskKind.
Proof. solve_decision. Defined.

Inductive SchedError := NoFreeSlot | InvalidTask.

Definition IDLE_SLOT : nat := 0.

Record TaskNode := mkNode {
  kind : TaskKind;
  state : TaskState;
  class : SchedClass;
  sp : Z;
  initial_sp : Z;
  quantum_left : Z;
  kstack : Z;
  fs_base : Z;
}.

Definition new_idle : TaskNode := mkNode Idle Running Normal 0 0 USIZE_MAX 0 0.

Definition new_user (proc_idx : nat) (c : SchedClass) (isp : Z) : TaskNode :=
  mkNode (User proc_idx) Ready c isp isp (quantum c) 0 0.

(** Field updates. *)
Definition with_kind (k : TaskKind) (n : TaskNode) : TaskNode :=
  mkNode k (state n) (class n) (sp n) (initial_sp n) (quantum_left n) (kstack n) (fs_base n).
Definition with_tstate (s : TaskState) (n : TaskNode) : TaskNode :=
  mkNode (kind n) s (class n) (sp n) (initial_sp n) (quantum_left n) (kstack n) (fs_base n).
Definition with_class (c : SchedClass) (n : TaskNode) : TaskNode :=
  mkNode (kind n) (state n) c (sp n) (initial_sp n) (quantum_left n) (kstack n) (fs_base n).
Definition with_sp (x : Z) (n : TaskNode) : TaskNode :=
  mkNode (kind n) (state n) (class n) x (initial_sp n) (quantum_left n) (kstack n) (fs_base n).
Definition with_quantum (x : Z) (n : TaskNode) : TaskNode :=
  mkNode (kind n) (state n) (class n) (sp n) (initial_sp n) x (kstack n) (fs_base n).
Definition with_kstack (x : Z) (n : TaskNode) : TaskNode :=
  mkNode (kind n) (state n) (class n) (sp n) (initial_sp n) (quantum_left n) x (fs_base n).
Definition with_fs_base (x : Z) (n : TaskNode) : TaskNode :=
  mkNode (kind n) (state n) (class n) (sp n) (initial_sp n) (quantum_left n) (kstack n) x.

Record Scheduler := mkSched {
  nodes : list (option TaskNode);
  free : list nat;
  ready : ReadyQueue;
  current : nat;
  high_water : nat;
}.

Definition SCHEDULER : Scheduler := mkSched [] [] new IDLE_SLOT 1.

(** What the CPU and the process module hold for the running task. *)
Record Cpu := mkCpu {
  reg_fs_base : Z;
  reg_sp : Z;
  syscall_ksp : Z;
  kernel_rsp0 : Z;
  pending_fs_base : Z;
  current_index : option nat;
  current_root : Z;
}.

Record Kernel := mkKernel {
  sched : Scheduler;
  proc_to_slot : list (option nat);
  current_running : nat;
  last_scheduled : nat;
  sleepq : list (nat * Z);
  cpu : Cpu;
}.

Definition set_sched (k : Kernel) (s : Scheduler) : Kernel :=
  mkKernel s (proc_to_slot k) (current_running k) (last_scheduled k) (sleepq k) (cpu k).
Definition set_proc_to_slot (k : Kernel) (m : list (option nat)) : Kernel :=
  mkKernel (sched k) m (current_running k) (last_scheduled k) (sleepq k) (cpu k).
Definition set_current_running (k : Kernel) (s : nat) : Kernel :=
  mkKernel (sched k) (proc_to_slot k) s (last_scheduled k) (sleepq k) (cpu k).
Definition set_last_scheduled (k : Kernel) (s : nat) : Kernel :=
  mkKernel (sched k) (proc_to_slot k) (current_running k) s (sleepq k) (cpu k).
Definition set_sleepq (k : Kernel) (q : list (nat * Z)) : Kernel :=
  mkKernel (sched k) (proc_to_slot k) (current_running k) (last_scheduled k) q (cpu k).
Definition set_cpu (k : Kernel) (c : Cpu) : Kernel :=
  mkKernel (sched k) (proc_to_slot k) (current_running k) (last_scheduled k) (sleepq k) c.

Definition set_nodes (s : Scheduler) (ns : list (option TaskNode)) : Scheduler :=
  mkSched ns (free s) (ready s) (current s) (high_water s).
Definition set_ready (s : Scheduler) (q : ReadyQueue) : Scheduler :=
  mkSched (nodes s) (free s) q (current s) (high_water s).
Definition set_free (s : Scheduler) (l : list nat) : Scheduler :=
  mkSched (nodes s) l (ready s) (current s) (high_water s).
Definition set_current (s : Scheduler) (c : nat) : Scheduler :=
  mkSched (nodes s) (free s) (ready s) c (high_water s).
Definition set_high_water (s : Scheduler) (h : nat) : Scheduler :=
  mkSched (nodes s) (free s) (ready s) (current s) h.

(** ** Process-to-slot map *)

Definition proc_slot_get (k : Kernel) (proc_idx : nat) : option nat :=
  match proc_to_slot k !! proc_idx with
  | Some s => s
  | None => None
  end.

(** [resize_with] then store. *)
Definition proc_slot_set (k : Kernel) (proc_idx : nat) (slot : option nat) : Kernel :=
  let map := proc_to_slot k in
  let map := if decide (length map <= proc_idx)%nat
             then map ++ replicate (proc_idx + 1 - length map) None else map in
  set_proc_to_slot k (<[proc_idx := slot]> map).

(** ** Task table *)

Definition node_ref (s : Scheduler) (slot : nat) : option TaskNode :=
  match nodes s !! slot with
  | Some (Some n) => Some n
  | _ => None
  end.

(** [if let Some(n) = node_mut(..) { f }] *)
Definition node_mut (s : Scheduler) (slot : nat) (f : TaskNode → TaskNode) : Scheduler :=
  match node_ref s slot with
  | Some n => set_nodes s (<[slot := Some (f n)]> (nodes s))
  | None => s
  end.

Definition is_user (n : TaskNode) : bool :=
  match kind n with User _ => true | _ => false end.

Definition init (k : Kernel) : Kernel :=
  let s := sched k in
  set_current_running
    (set_sched k (mkSched (nodes s ++ [Some new_idle]) (free s) (ready s) IDLE_SLOT 1)) IDLE_SLOT.

Definition current_user_proc (k : Kernel) : option nat :=
  match node_ref (sched k) (current (sched k)) with
  | Some n => match kind n with User p => Some p | _ => None end
  | None => None
  end.

Definition find_next_ready_user (s : Scheduler) : option nat * Scheduler :=
  let (t, q) := pop_next (ready s) in (t, set_ready s q).

(** ** Context switch *)

Section switch.
Context (get_page_table_root : nat → Z).

Definition set_current_process_for_slot (k : Kernel) (slot : nat) : Kernel :=
  let c := cpu k in
  match kind <$> node_ref (sched k) slot with
  | Some (User p) =>
      set_cpu k (mkCpu (reg_fs_base c) (reg_sp c) (syscall_ksp c) (kernel_rsp0 c)
                   (pending_fs_base c) (Some p) (get_page_table_root p))
  | _ =>
      set_cpu k (mkCpu (reg_fs_base c) (reg_sp c) (syscall_ksp c) (kernel_rsp0 c)
                   (pending_fs_base c) (current_index c) 0)
  end.

Definition save_fs_base (k : Kernel) (slot : nat) : Kernel :=
  set_sched k (node_mut (sched k) slot (with_fs_base (reg_fs_base (cpu k)))).

Definition restore_task_arch_state (k : Kernel) (slot : nat) : Kernel :=
  let c := cpu k in
  match node_ref (sched k) slot with
  | None => k
  | Some n =>
      let c := if negb (kstack n =? 0)
               then mkCpu (reg_fs_base c) (reg_sp c) (kstack n) (kstack n) (pending_fs_base c)
                      (current_index c) (current_root c)
               else c in
      set_cpu k (mkCpu (fs_base n) (reg_sp c) (syscall_ksp c) (kernel_rsp0 c) (pending_fs_base c)
                   (current_index c) (current_root c))
  end.

(** [PENDING_FS_BASE.store(..)] *)
Definition store_pending (k : Kernel) (next : nat) : Kernel :=
  let c := cpu k in
  let v := match node_ref (sched k) next with Some n => fs_base n | None => 0 end in
  set_cpu k (mkCpu (reg_fs_base c) (reg_sp c) (syscall_ksp c) (kernel_rsp0 c) v
               (current_index c) (current_root c)).

(** [__switch(cur_ptr, nxt_ptr)] *)
Definition asm_switch (k : Kernel) (cur next : nat) (nxt : TaskNode) : Kernel :=
  let c := cpu k in
  let nxt_sp := if decide (cur = next) then reg_sp c else sp nxt in
  set_cpu (set_sched k (node_mut (sched k) cur (with_sp (reg_sp c))))
    (mkCpu (reg_fs_base c) nxt_sp (syscall_ksp c) (kernel_rsp0 c) (pending_fs_base c)
       (current_index c) (current_root c)).

Definition switch_to (k : Kernel) (cur next : nat) : Kernel :=
  let k := save_fs_base k cur in
  let k := set_current_running k next in
  let k := set_current_process_for_slot k next in
  let k := store_pending k next in
  match node_ref (sched k) cur, node_ref (sched k) next with
  | Some _, Some nxt =>
      let k := asm_switch k cur next nxt in
      restore_task_arch_state k (current_running k)
  | _, _ => k
  end.

(** Mark [next] running and make it current. *)
Definition take_cpu (k : Kernel) (s : Scheduler) (next : nat) : Kernel :=
  let s := node_mut s next (with_tstate Running) in
  set_last_scheduled (set_sched k (set_current s next)) next.

(** Requeue the current task if it is still runnable. *)
Definition requeue_current (s : Scheduler) : Scheduler :=
  let cur := current s in
  match node_ref s cur with
  | Some n =>
      if is_user n && bool_decide (state n = Running) then
        let s := node_mut s cur (fun n => with_quantum (quantum (class n)) (with_tstate Ready n)) in
        set_ready s (push (ready s) cur (priority (class n)))
      else s
  | None => s
  end.

Definition pick_and_switch (k : Kernel) : Kernel :=
  let s := requeue_current (sched k) in
  let cur := current s in
  match find_next_ready_user s with
  | (Some next, s) => switch_to (take_cpu k s next) cur next
  | (None, s) =>
      let s := node_mut s cur (fun n => if decide (state n = Ready) then with_tstate Running n else n) in
      set_last_scheduled (set_sched k s) cur
  end.

Definition schedule (k : Kernel) : Kernel :=
  let s := sched k in
  let cur := current s in
  match node_ref s cur with
  | Some n =>
      if is_user n && bool_decide (state n = Running) && (0 <? quantum_left n) then
        set_sched k (node_mut s cur (with_quantum (quantum_left n - 1)))
      else pick_and_switch k
  | None => pick_and_switch k
  end.

Definition schedule_block (k : Kernel) : Kernel :=
  let s := sched k in
  let cur := current s in
  match node_ref s cur with
  | Some n =>
      if is_user n then
        let s := node_mut s cur (with_tstate Blocked) in
        let s := set_ready s (snd (remove (ready s) cur)) in
        let (t, s) := find_next_ready_user s in
        let next := default IDLE_SLOT t in
        switch_to (take_cpu k s next) cur next
      else k
  | None => k
  end.

Definition remove_sleep (k : Kernel) (slot : nat) : Kernel :=
  set_sleepq k (filter (fun e => fst e ≠ slot) (sleepq k)).

(** Release a slot: the node is marked, the box stays. *)
Definition recycle (s : Scheduler) (slot : nat) : Scheduler :=
  match node_ref s slot with
  | Some _ =>
      let s := node_mut s slot (fun n => with_kind Empty (with_tstate Exited n)) in
      let s := set_ready s (snd (remove (ready s) slot)) in
      set_free s (free s ++ [slot])
  | None => s
  end.

Definition schedule_exit (k : Kernel) : Kernel :=
  let k := remove_sleep k (current_running k) in
  let s := sched k in
  let cur := current s in
  let proc_idx :=
    match node_ref s cur with
    | Some n => match kind n with User p => Some p | _ => None end
    | None => None
    end in
  let s := recycle s cur in
  let (t, s) := find_next_ready_user s in
  let next := default IDLE_SLOT t in
  let k := take_cpu k s next in
  let k := match proc_idx with Some p => proc_slot_set k p None | None => k end in
  switch_to k cur next.

Definition mark_current_exited (k : Kernel) : Kernel :=
  let k := remove_sleep k (current_running k) in
  set_sched k (node_mut (sched k) (current (sched k)) (with_tstate Exited)).

Definition mark_task_exited_by_proc (k : Kernel) (proc_idx : nat) : Kernel :=
  match proc_slot_get k proc_idx with
  | None => k
  | Some slot =>
      let k := remove_sleep k slot in
      let k := set_sched k (recycle (sched k) slot) in
      proc_slot_set k proc_idx None
  end.

Definition remove_task (k : Kernel) (proc_idx : nat) : Kernel := mark_task_exited_by_proc k proc_idx.

(** ** Wake-up and sleep *)

(** Blocked becomes Ready and is queued; [true] if it did. *)
Definition wake_slot (s : Scheduler) (slot : nat) : bool * Scheduler :=
  match node_ref s slot with
  | Some n =>
      if decide (state n = Blocked) then
        let s := node_mut s slot (with_tstate Ready) in
        (true, set_ready s (push (ready s) slot (priority (class n))))
      else (false, s)
  | None => (false, s)
  end.

Definition wake_task (k : Kernel) (proc_idx : nat) : bool * Kernel :=
  match proc_slot_get k proc_idx with
  | None => (false, k)
  | Some slot =>
      let k := remove_sleep k slot in
      let (b, s) := wake_slot (sched k) slot in
      (b, set_sched k s)
  end.

Definition queue_sleep (k : Kernel) (slot : nat) (wake_tick : Z) : Kernel :=
  match update_first (fun e => bool_decide (fst e = slot)) (fun e => (fst e, wake_tick)) (sleepq k) with
  | Some q => set_sleepq k q
  | None => set_sleepq k (sleepq k ++ [(slot, wake_tick)])
  end.

Definition is_slot_active (k : Kernel) (slot : nat) : bool :=
  match node_ref (sched k) slot with
  | Some n => negb (bool_decide (kind n = Empty))
  | None => false
  end.

(** The busy wait of an inactive slot leaves the state alone. *)
Definition sleep_until (now wake_tick : Z) (k : Kernel) : Kernel :=
  if wake_tick <=? now then k
  else
    let slot := current_running k in
    if negb (is_slot_active k slot) then k
    else schedule_block (queue_sleep k slot wake_tick).

Definition next_sleep_deadline (sleepq_locked : bool) (k : Kernel) : option Z :=
  if sleepq_locked then None
  else foldl (fun m e => match m with Some t => Some (Z.min t (snd e)) | None => Some (snd e) end)
         None (sleepq k).

Definition no_ready_tasks (sched_locked : bool) (k : Kernel) : bool :=
  if sched_locked then false else is_empty (ready (sched k)).

(** The draining loop: due slots in order, and the entries that stay. *)
Fixpoint drain_due (now : Z) (q : list (nat * Z)) : list nat * list (nat * Z) :=
  match q with
  | [] => ([], [])
  | e :: q' =>
      let (due, rest) := drain_due now q' in
      if snd e <=? now then (fst e :: due, rest) else (due, e :: rest)
  end.

Definition tick_sleep_queue (sleepq_locked sched_locked : bool) (now : Z) (k : Kernel) : Kernel :=
  if sleepq_locked then k
  else
    let (to_wake, rest) := drain_due now (sleepq k) in
    let k := set_sleepq k rest in
    match to_wake with
    | [] => k
    | _ =>
        if sched_locked then k
        else set_sched k (foldl (fun s slot => snd (wake_slot s slot)) (sched k) to_wake)
    end.

(** ** Creating tasks *)

Definition allocate_user_slot (k : Kernel) (proc_idx : nat) (kernel_stack_top isp : Z)
  : result nat SchedError * Kernel :=
  let s := sched k in
  let '(slot, s) :=
    match last (free s) with
    | Some slot => (slot, set_free s (removelast (free s)))
    | None => let s := set_nodes s (nodes s ++ [Some new_idle]) in ((length (nodes s) - 1)%nat, s)
    end in
  match node_ref s slot with
  | None => (Err NoFreeSlot, set_sched k s)
  | Some _ =>
      let n := with_kstack kernel_stack_top (new_user proc_idx Normal isp) in
      let s := node_mut s slot (fun _ => n) in
      let s := if decide (high_water s <= slot)%nat then set_high_water s (slot + 1) else s in
      let s := set_ready s (push (ready s) slot (priority (class n))) in
      (Ok slot, proc_slot_set (set_sched k s) proc_idx (Some slot))
  end.

Definition start_first_task (k : Kernel) : exec Kernel :=
  match find_next_ready_user (sched k) with
  | (None, _) => Panic
  | (Some next, s) =>
      let s := node_mut s IDLE_SLOT (with_tstate Running) in
      Ret (switch_to (take_cpu k s next) IDLE_SLOT next)
  end.

(** ** Classes and queries *)

Definition set_task_class (k : Kernel) (proc_idx : nat) (c : SchedClass) : bool * Kernel :=
  match proc_slot_get k proc_idx with
  | None => (false, k)
  | Some slot =>
      let s := sched k in
      match node_ref s slot with
      | None => (false, k)
      | Some n =>
          if decide (kind n = Empty) then (false, k)
          else
            let s := node_mut s slot (fun n => with_quantum (quantum c) (with_class c n)) in
            if decide (state n = Ready) then
              let q := snd (remove (ready s) slot) in
              (true, set_sched k (set_ready s (push q slot (priority c))))
            else (true, set_sched k s)
      end
  end.

Definition get_task_class (k : Kernel) (proc_idx : nat) : option SchedClass :=
  match proc_slot_get k proc_idx with
  | None => None
  | Some slot => class <$> node_ref (sched k) slot
  end.

Definition get_task_slot (k : Kernel) (proc_idx : nat) : option nat := proc_slot_get k proc_idx.

Definition child_count (k : Kernel) : nat :=
  length (filter (fun o : option TaskNode =>
    match o with Some n => is_user n | None => false end = true) (nodes (sched k))).

Definition slot_to_process (k : Kernel) (slot : nat) : option nat :=
  match kind <$> node_ref (sched k) slot with
  | Some (User p) => Some p
  | _ => None
  end.

Definition set_slot_process (k : Kernel) (slot proc_idx : nat) : Kernel :=
  proc_slot_set (set_sched k (node_mut (sched k) slot (with_kind (User proc_idx))))
    proc_idx (Some slot).

Definition set_task_fs_base (k : Kernel) (slot : nat) (v : Z) : Kernel :=
  set_sched k (node_mut (sched k) slot (with_fs_base v)).
Definition get_task_fs_base (k : Kernel) (slot : nat) : Z :=
  match node_ref (sched k) slot with Some n => fs_base n | None => 0 end.
Definition set_task_sp (k : Kernel) (slot : nat) (v : Z) : Kernel :=
  set_sched k (node_mut (sched k) slot (with_sp v)).
Definition task_sp (k : Kernel) (slot : nat) : Z :=
  match node_ref (sched k) slot with Some n => sp n | None => 0 end.
Definition task_kernel_stack (k : Kernel) (slot : nat) : Z :=
  match node_ref (sched k) slot with Some n => kstack n | None => 0 end.

End switch.

(** ** Abstract view: what the invariant talks about *)

Definition summary : Type := TaskKind * TaskState * SchedClass.

Definition summary_of (n : TaskNode) : summary := (kind n, state n, class n).

Definition view (s : Scheduler) (slot : nat) : option summary := summary_of <$> node_ref s slot.

Definition upd {A : Type} (V : nat → option A) (i : nat) (x : option A) : nat → option A :=
  fun j => if decide (j = i) then x else V j.

Lemma upd_eq {A : Type} (V : nat → option A) (i : nat) (x : option A) : upd V i x i = x.
Proof. unfold upd. by rewrite decide_True. Qed.

Lemma upd_ne {A : Type} (V : nat → option A) (i j : nat) (x : option A) :
  j ≠ i → upd V i x j = V j.
Proof. intros. unfold upd. by rewrite decide_False. Qed.

(** A queued task sits at its class priority, or boosted at the normal one. *)
Definition level_ok (c : SchedClass) (l : nat) : Prop :=
  l = priority c ∨ (c = AiBatch ∧ l = AI_BATCH_BOOST_PRIO).

(** Ready user tasks are exactly the queued ones. *)
Definition ready_iff_queued (V : nat → option summary) (M : list (nat * nat)) : Prop :=
  NoDup M.*1 ∧
  (∀ slot l, (slot, l) ∈ M → ∃ p c, V slot = Some (User p, Ready, c) ∧ level_ok c l) ∧
  (∀ slot p c, V slot = Some (User p, Ready, c) → slot ∈ M.*1).

Lemma rq_not_queued (V : nat → option summary) (M : list (nat * nat)) (slot : nat) :
  ready_iff_queued V M → (∀ p c, V slot ≠ Some (User p, Ready, c)) → slot ∉ M.*1.
Proof.
  intros (_ & H & _) Hno ([t l] & -> & Hin)%list_elem_of_fmap.
  destruct (H _ _ Hin) as (p & c & HV & _). by apply (Hno p c).
Qed.

(** A slot outside the queue changes to something that is not ready. *)
Lemma rq_other (V : nat → option summary) (M : list (nat * nat)) (slot : nat) (x : option summary) :
  ready_iff_queued V M → slot ∉ M.*1 → (∀ p c, x ≠ Some (User p, Ready, c)) →
  ready_iff_queued (upd V slot x) M.
Proof.
  intros (Hnd & H1 & H2) Hnin Hx. split; [done|]. split.
  - intros t l Hin. rewrite upd_ne; [auto|]. intros ->. apply Hnin, list_elem_of_fmap.
    by exists (slot, l).
  - intros t p c. unfold upd. case_decide; [intros ->; by destruct (Hx p c)|apply H2].
Qed.

(** A slot becomes ready and is pushed. *)
Lemma rq_push (V : nat → option summary) (M : list (nat * nat)) (slot p : nat) (c : SchedClass) :
  ready_iff_queued V M → slot ∉ M.*1 →
  ready_iff_queued (upd V slot (Some (User p, Ready, c))) (model_push M slot (priority c)).
Proof.
  intros (Hnd & H1 & H2) Hnin. unfold model_push. split; [|split].
  - rewrite fmap_app. simpl. apply NoDup_app. split; [done|].
    split; [|apply NoDup_singleton]. intros t Ht ->%list_elem_of_singleton. done.
  - intros t l [Hin|Hin%list_elem_of_singleton]%elem_of_app.
    + rewrite upd_ne; [auto|]. intros ->. apply Hnin, list_elem_of_fmap. by exists (slot, l).
    + simplify_eq. rewrite upd_eq. exists p, c. split; [done|]. left.
      pose proof (priority_lt c). lia.
  - intros t q d. rewrite fmap_app, elem_of_app. simpl. unfold upd.
    case_decide; [subst; intros _; right; by apply list_elem_of_singleton|intros; left; eauto].
Qed.

(** A slot leaves the queue and becomes something that is not ready. *)
Lemma rq_remove (V : nat → option summary) (M : list (nat * nat)) (slot : nat) (x : option summary) :
  ready_iff_queued V M → (∀ p c, x ≠ Some (User p, Ready, c)) →
  ready_iff_queued (upd V slot x) (model_remove M slot) ∧ slot ∉ (model_remove M slot).*1.
Proof.
  intros (Hnd & H1 & H2) Hx.
  assert (slot ∉ (model_remove M slot).*1) as Hnin.
  { intros (y & -> & [Hne _]%list_elem_of_filter)%list_elem_of_fmap. done. }
  split; [|done]. split; [by apply (model_op_NoDup M 0 (Remove slot))|]. split.
  - intros t l [Hne Hin]%list_elem_of_filter. simpl in Hne. rewrite upd_ne by done. auto.
  - intros t p c. unfold upd. case_decide as Hd; [intros ->; by destruct (Hx p c)|].
    intros HV. apply H2 in HV. apply list_elem_of_fmap in HV as ([u l] & -> & Hin).
    apply list_elem_of_fmap. exists (u, l). split; [done|]. by apply list_elem_of_filter.
Qed.

(** Where the pairs of a picked-from model come from. *)
Lemma model_pop_entries (M : list (nat * nat)) (s : Z) (t l : nat) :
  (t, l) ∈ fst (snd (model_pop M s)) →
  (t, l) ∈ M ∨ (l = AI_BATCH_BOOST_PRIO ∧ (t, AI_BATCH_PRIO) ∈ M).
Proof.
  unfold model_pop.
  assert (∀ t l, (t, l) ∈ fst (model_promote M s) →
    (t, l) ∈ M ∨ (l = AI_BATCH_BOOST_PRIO ∧ (t, AI_BATCH_PRIO) ∈ M)) as Hp.
  { clear t l. intros t l. unfold model_promote. destruct (_ <=? _); [|by left].
    destruct (take_level AI_BATCH_PRIO M) as [[u M']|] eqn:E; [|by left].
    apply take_level_Some in E as (m1 & m2 & -> & -> & _). simpl.
    intros [Hin|Hin%list_elem_of_singleton]%elem_of_app; [left; set_solver|].
    simplify_eq. right. set_solver. }
  destruct (model_promote M s) as [m s1]. simpl in Hp.
  destruct (extract_min m) as [[[u k] m']|] eqn:E; simpl; [|apply Hp].
  apply extract_min_Some in E as (m1 & m2 & -> & -> & _). intros Hin. apply Hp. set_solver.
Qed.

(** The picked task starts to run. *)
Lemma rq_pop (V : nat → option summary) (M : list (nat * nat)) (s : Z) (t : nat) :
  ready_iff_queued V M → fst (model_pop M s) = Some t →
  ∃ p c, V t = Some (User p, Ready, c) ∧
    ready_iff_queued (upd V t (Some (User p, Running, c))) (fst (snd (model_pop M s))).
Proof.
  intros (Hnd & H1 & H2) Hpop. pose proof (model_pop_tokens M s) as Htok. rewrite Hpop in Htok.
  assert (t ∈ M.*1) as Hin by (rewrite Htok; set_solver).
  apply list_elem_of_fmap in Hin as ([u l] & Hu & Hin). simpl in Hu. subst u.
  destruct (H1 _ _ Hin) as (p & c & HV & _). exists p, c. split; [done|].
  rewrite Htok in Hnd. apply NoDup_cons in Hnd as [Hnin Hnd]. split; [done|]. split.
  - intros u k Hk. rewrite upd_ne.
    2:{ intros ->. apply Hnin, list_elem_of_fmap. by exists (t, k). }
    apply model_pop_entries in Hk as [Hk|[-> Hk]]; [auto|].
    destruct (H1 _ _ Hk) as (q & d & HVu & Hl). exists q, d. split; [done|]. right. split; [|done].
    destruct Hl as [Hl|[-> _]]; [|done]. unfold AI_BATCH_PRIO, RT_LEVELS in Hl.
    destruct d; simpl in Hl; unfold RT_LEVELS, NORMAL_PRIO in Hl; try done; lia.
  - intros u q d. unfold upd. case_decide as Hd; [done|]. intros HVu%H2.
    rewrite Htok in HVu. apply elem_of_cons in HVu as [?|?]; done.
Qed.

Lemma rq_pop_None (V : nat → option summary) (M : list (nat * nat)) (s : Z) :
  fst (model_pop M s) = None → M = [] ∧ fst (snd (model_pop M s)) = [].
Proof. intros H. pose proof (model_pop_tokens M s) as Ht. by rewrite H in Ht. Qed.

(** ** The invariant *)

(** Pointwise equal views satisfy the same predicates. *)
Definition same_view (V V' : nat → option summary) : Prop := ∀ i, V i = V' i.

(** Task table, queue, free list and process map agree. *)
Record core (V : nat → option summary) (M : list (nat * nat)) (F : list nat)
    (P : nat → option nat) : Prop := mkCore {
  core_idle : ∃ c, V IDLE_SLOT = Some (Idle, Running, c);
  core_idle_only : ∀ slot st c, V slot = Some (Idle, st, c) → slot = IDLE_SLOT;
  core_ready : ready_iff_queued V M;
  core_free_nodup : NoDup F;
  core_free : ∀ slot, slot ∈ F ↔ ∃ st c, V slot = Some (Empty, st, c);
  core_map : ∀ p slot, P p = Some slot ↔ ∃ st c, V slot = Some (User p, st, c);
}.

(** Whoever sleeps is blocked; [x] is exempt. *)
Definition sleepers (V : nat → option summary) (Q : list (nat * Z)) (x : option nat) : Prop :=
  NoDup Q.*1 ∧
  ∀ slot t, (slot, t) ∈ Q → x = Some slot ∨ ∃ p c, V slot = Some (User p, Blocked, c).

(** No user task but [C] runs. *)
Definition runs_only (V : nat → option summary) (C : nat) : Prop :=
  ∀ slot p c, V slot = Some (User p, Running, c) → slot = C.

Definition current_ok (V : nat → option summary) (C : nat) : Prop :=
  ∃ kd st c, V C = Some (kd, st, c) ∧ kd ≠ Empty ∧ (st = Running ∨ st = Exited).

Lemma ready_iff_queued_ext V V' M :
  same_view V V' → ready_iff_queued V M → ready_iff_queued V' M.
Proof.
  intros HV (H1 & H2 & H3). split; [done|]. split.
  - intros slot l Hin. rewrite <- HV. auto.
  - intros slot p c. rewrite <- HV. apply H3.
Qed.

Lemma core_ext V V' M F P : same_view V V' → core V M F P → core V' M F P.
Proof.
  intros HV [H1 H2 H3 H4 H5 H6]. split; try done.
  - by rewrite <- HV.
  - intros slot st c. rewrite <- HV. apply H2.
  - by apply (ready_iff_queued_ext V).
  - intros slot. rewrite <- HV. apply H5.
  - intros p slot. rewrite <- HV. apply H6.
Qed.

Lemma sleepers_ext V V' Q x : same_view V V' → sleepers V Q x → sleepers V' Q x.
Proof. intros HV [H1 H2]. split; [done|]. intros slot t. rewrite <- HV. apply H2. Qed.

Lemma runs_only_ext V V' C : same_view V V' → runs_only V C → runs_only V' C.
Proof. intros HV H slot p c. rewrite <- HV. apply H. Qed.

Lemma current_ok_ext V V' C : same_view V V' → current_ok V C → current_ok V' C.
Proof. intros HV H. unfold current_ok. by rewrite <- HV. Qed.

Definition inv_s (s : Scheduler) (P : nat → option nat) (Q : list (nat * Z)) : Prop :=
  ∃ M, rel (ready s) M ∧ core (view s) M (free s) P ∧ sleepers (view s) Q None ∧
    runs_only (view s) (current s) ∧ current_ok (view s) (current s).

Definition inv (k : Kernel) : Prop :=
  inv_s (sched k) (proc_slot_get k) (sleepq k) ∧ current_running k = current (sched k).

(** Changing the state of a user slot that is not ready to another such state. *)
Lemma core_restate V M F P slot p st st' c c' :
  core V M F P → V slot = Some (User p, st, c) → st ≠ Ready → st' ≠ Ready →
  core (upd V slot (Some (User p, st', c'))) M F P.
Proof.
  intros [H1 H2 H3 H4 H5 H6] HV Hst Hst'.
  assert (slot ≠ IDLE_SLOT) by (destruct H1 as [c0 H1]; congruence). split.
  - by rewrite upd_ne.
  - intros i st0 c0. unfold upd. case_decide; [done|apply H2].
  - apply rq_other; [done| |congruence]. eapply rq_not_queued; [done|]. congruence.
  - done.
  - intros i. rewrite H5. unfold upd. case_decide; [subst|done]. rewrite HV.
    split; intros (? & ? & ?); done.
  - intros q i. rewrite H6. unfold upd. case_decide; [subst|done]. rewrite HV.
    split; intros (? & ? & ?); simplify_eq; eauto.
Qed.

(** A user slot becomes ready and is queued. *)
Lemma core_enqueue V M F P slot p st c c' :
  core V M F P → V slot = Some (User p, st, c) → slot ∉ M.*1 →
  core (upd V slot (Some (User p, Ready, c'))) (model_push M slot (priority c')) F P.
Proof.
  intros [H1 H2 H3 H4 H5 H6] HV Hnin.
  assert (slot ≠ IDLE_SLOT) by (destruct H1 as [c0 H1]; congruence). split.
  - by rewrite upd_ne.
  - intros i st0 c0. unfold upd. case_decide; [done|apply H2].
  - by apply rq_push.
  - done.
  - intros i. rewrite H5. unfold upd. case_decide; [subst|done]. rewrite HV.
    split; intros (? & ? & ?); done.
  - intros q i. rewrite H6. unfold upd. case_decide; [subst|done]. rewrite HV.
    split; intros (? & ? & ?); simplify_eq; eauto.
Qed.

(** A user slot leaves the queue. *)
Lemma core_dequeue V M F P slot p st st' c c' :
  core V M F P → V slot = Some (User p, st, c) → st' ≠ Ready →
  core (upd V slot (Some (User p, st', c'))) (model_remove M slot) F P.
Proof.
  intros [H1 H2 H3 H4 H5 H6] HV Hst'.
  assert (slot ≠ IDLE_SLOT) by (destruct H1 as [c0 H1]; congruence). split.
  - by rewrite upd_ne.
  - intros i st0 c0. unfold upd. case_decide; [done|apply H2].
  - apply rq_remove; [done|congruence].
  - done.
  - intros i. rewrite H5. unfold upd. case_decide; [subst|done]. rewrite HV.
    split; intros (? & ? & ?); done.
  - intros q i. rewrite H6. unfold upd. case_decide; [subst|done]. rewrite HV.
    split; intros (? & ? & ?); simplify_eq; eauto.
Qed.

(** A user slot is recycled: marked empty, put on the free list, unmapped. *)
Lemma core_recycle V M F P P' slot p st c :
  core V M F P → V slot = Some (User p, st, c) →
  (∀ q, P' q = if decide (q = p) then None else P q) →
  core (upd V slot (Some (Empty, Exited, c))) (model_remove M slot) (F ++ [slot]) P'.
Proof.
  intros [H1 H2 H3 H4 H5 H6] HV HP.
  assert (slot ≠ IDLE_SLOT) by (destruct H1 as [c0 H1]; congruence). split.
  - by rewrite upd_ne.
  - intros i st0 c0. unfold upd. case_decide; [done|apply H2].
  - apply rq_remove; [done|congruence].
  - apply NoDup_app. split; [done|]. split; [|apply NoDup_singleton].
    intros i Hi ->%list_elem_of_singleton. apply H5 in Hi as (? & ? & ?). congruence.
  - intros i. rewrite elem_of_app, list_elem_of_singleton, H5. unfold upd. case_decide; [subst|].
    + rewrite HV. split; [eauto|by right].
    + split; [intros [?|?]; done|by left].
  - intros q i. rewrite HP. unfold upd. destruct (decide (i = slot)) as [->|Hi].
    + split; [|by intros (? & ? & ?)]. case_decide; [done|]. intros (st0 & c0 & ?)%H6. congruence.
    + case_decide; [subst|apply H6]. split; [done|]. intros HVi%H6.
      assert (P p = Some slot) by (apply H6; eauto). congruence.
Qed.

(** The picked slot starts to run. *)
Lemma core_pick V M F P s t :
  core V M F P → fst (model_pop M s) = Some t →
  ∃ p c, V t = Some (User p, Ready, c) ∧
    core (upd V t (Some (User p, Running, c))) (fst (snd (model_pop M s))) F P.
Proof.
  intros [H1 H2 H3 H4 H5 H6] Hpop. destruct (rq_pop V M s t H3 Hpop) as (p & c & HV & Hrq).
  exists p, c. split; [done|].
  assert (t ≠ IDLE_SLOT) by (destruct H1 as [c0 H1]; congruence). split; try done.
  - by rewrite upd_ne.
  - intros i st0 c0. unfold upd. case_decide; [done|apply H2].
  - intros i. rewrite H5. unfold upd. case_decide; [subst|done]. rewrite HV.
    split; intros (? & ? & ?); done.
  - intros q i. rewrite H6. unfold upd. case_decide; [subst|done]. rewrite HV.
    split; intros (? & ? & ?); simplify_eq; eauto.
Qed.

(** Sleepers stay asleep when a slot changes that does not sleep, or stays
    blocked. *)
Lemma sleepers_upd V Q x slot y :
  sleepers V Q x →
  (∀ p c, V slot = Some (User p, Blocked, c) → ∃ p' c', y = Some (User p', Blocked, c')) →
  sleepers (upd V slot y) Q x.
Proof.
  intros [H1 H2] Hy. split; [done|]. intros i t Hi.
  destruct (H2 i t Hi) as [?|(p & c & HV)]; [by left|]. right.
  unfold upd. case_decide; [subst|by eauto]. by apply (Hy p c).
Qed.

(** After [remove_sleep] a slot may change freely. *)
Lemma sleepers_remove V Q x slot y :
  sleepers V Q x →
  sleepers (upd V slot y) (filter (fun e => fst e ≠ slot) Q) x.
Proof.
  intros [H1 H2]. split; [by apply NoDup_fmap_filter|].
  intros i t [Hne Hi]%list_elem_of_filter. simpl in Hne. rewrite upd_ne by done. eauto.
Qed.

(** ** The operations and the view *)

Lemma view_node_mut (s : Scheduler) (slot : nat) (f : TaskNode → TaskNode) (n : TaskNode) :
  node_ref s slot = Some n →
  same_view (upd (view s) slot (Some (summary_of (f n)))) (view (node_mut s slot f)).
Proof.
  intros Hn i. unfold view, node_mut. rewrite Hn. unfold upd, node_ref in *. simpl.
  destruct (nodes s !! slot) as [[m|]|] eqn:E; simplify_eq.
  case_decide as Hd.
  - subst. by rewrite list_lookup_insert_eq by (by eapply lookup_lt_Some).
  - by rewrite list_lookup_insert_ne.
Qed.

Lemma node_mut_frame (s : Scheduler) (slot : nat) (f : TaskNode → TaskNode) :
  ready (node_mut s slot f) = ready s ∧ free (node_mut s slot f) = free s ∧
  current (node_mut s slot f) = current s.
Proof. unfold node_mut. by destruct (node_ref s slot). Qed.

(** Updates of the other fields are invisible. *)
Lemma view_node_mut_same (s : Scheduler) (slot : nat) (f : TaskNode → TaskNode) :
  (∀ n, node_ref s slot = Some n → summary_of (f n) = summary_of n) →
  same_view (view s) (view (node_mut s slot f)).
Proof.
  intros Hf i. destruct (node_ref s slot) as [n|] eqn:Hn.
  - rewrite <- (view_node_mut s slot f n Hn). unfold upd. case_decide; [subst|done].
    unfold view. by rewrite Hn, Hf.
  - unfold node_mut. by rewrite Hn.
Qed.

Lemma view_Some (s : Scheduler) (slot : nat) (x : summary) :
  view s slot = Some x → ∃ n, node_ref s slot = Some n ∧ summary_of n = x.
Proof. unfold view. intros (n & ? & ->)%fmap_Some. eauto. Qed.

Lemma inv_s_ext (s s' : Scheduler) P P' Q :
  same_view (view s) (view s') → ready s' = ready s → free s' = free s → current s' = current s →
  (∀ p, P' p = P p) → inv_s s P Q → inv_s s' P' Q.
Proof.
  intros HV Hr Hf Hc HP (M & H1 & H2 & H3 & H4 & H5). exists M. rewrite Hr, Hf, Hc.
  split; [done|]. split.
  - apply (core_ext (view s)); [done|]. destruct H2 as [G1 G2 G3 G4 G5 G6].
    split; try done. intros p slot. rewrite HP. apply G6.
  - split; [by apply (sleepers_ext (view s))|]. split; [by apply (runs_only_ext (view s))|].
    by apply (current_ok_ext (view s)).
Qed.

Lemma proc_slot_set_get (k : Kernel) (p q : nat) (v : option nat) :
  proc_slot_get (proc_slot_set k p v) q = if decide (q = p) then v else proc_slot_get k q.
Proof.
  unfold proc_slot_get, proc_slot_set. simpl. set (m := proc_to_slot k).
  set (m' := if decide (length m <= p)%nat then _ else _).
  assert (p < length m')%nat as Hp.
  { unfold m'. case_decide; [|lia]. rewrite length_app, length_replicate. lia. }
  case_decide as Hd.
  - subst. by rewrite list_lookup_insert_eq.
  - rewrite list_lookup_insert_ne by done. unfold m'. case_decide; [|done].
    destruct (decide (q < length m)%nat); [by rewrite lookup_app_l|].
    rewrite lookup_app_r by lia. rewrite (lookup_ge_None_2 m q) by lia.
    destruct (replicate _ _ !! _) eqn:E; [|done]. by apply lookup_replicate in E as [-> _].
Qed.

(** A context switch changes who is running, and nothing the invariant sees. *)
Lemma switch_to_frame (root : nat → Z) (k : Kernel) (cur next : nat) :
  let k' := switch_to root k cur next in
  same_view (view (sched k)) (view (sched k')) ∧ ready (sched k') = ready (sched k) ∧
  free (sched k') = free (sched k) ∧ current (sched k') = current (sched k) ∧
  proc_to_slot k' = proc_to_slot k ∧ sleepq k' = sleepq k ∧ current_running k' = next.
Proof.
  unfold switch_to. set (k1 := save_fs_base k cur).
  assert (same_view (view (sched k)) (view (sched k1))) as HV1 by (by apply view_node_mut_same).
  destruct (node_mut_frame (sched k) cur (with_fs_base (reg_fs_base (cpu k)))) as (F1 & F2 & F3).
  set (k2 := set_current_process_for_slot root (set_current_running k1 next) next).
  assert (sched k2 = sched k1 ∧ proc_to_slot k2 = proc_to_slot k ∧ sleepq k2 = sleepq k ∧
    current_running k2 = next) as (E1 & E2 & E3 & E4).
  { unfold k2, set_current_process_for_slot. by destruct (kind <$> _) as [[]|]. }
  set (k3 := store_pending k2 next).
  assert (sched k3 = sched k1 ∧ proc_to_slot k3 = proc_to_slot k ∧ sleepq k3 = sleepq k ∧
    current_running k3 = next) as (G1 & G2 & G3 & G4) by done.
  rewrite G1. cbv zeta. destruct (node_ref (sched k1) cur) as [n1|] eqn:N1; [|by rewrite G1].
  destruct (node_ref (sched k1) next) as [n2|] eqn:N2; [|by rewrite G1].
  set (k4 := asm_switch k3 cur next n2).
  assert (sched k4 = node_mut (sched k1) cur (with_sp (reg_sp (cpu k3))) ∧
    proc_to_slot k4 = proc_to_slot k ∧ sleepq k4 = sleepq k ∧ current_running k4 = next)
    as (J1 & J2 & J3 & J4) by (unfold k4, asm_switch; simpl; by rewrite ?G1, ?E1).
  assert (∀ k0 sl, sched (restore_task_arch_state k0 sl) = sched k0 ∧
    proc_to_slot (restore_task_arch_state k0 sl) = proc_to_slot k0 ∧
    sleepq (restore_task_arch_state k0 sl) = sleepq k0 ∧
    current_running (restore_task_arch_state k0 sl) = current_running k0) as Hres.
  { intros k0 sl. unfold restore_task_arch_state. by destruct (node_ref (sched k0) sl). }
  destruct (Hres k4 (current_running k4)) as (-> & -> & -> & ->). rewrite J1, J2, J3, J4.
  destruct (node_mut_frame (sched k1) cur (with_sp (reg_sp (cpu k3)))) as (-> & -> & ->).
  split; [|done]. intros i. rewrite HV1. by apply view_node_mut_same.
Qed.

(** ** Preservation *)

Lemma inv_switch (root : nat → Z) (k : Kernel) (cur next : nat) :
  inv_s (sched k) (proc_slot_get k) (sleepq k) → current (sched k) = next →
  inv (switch_to root k cur next).
Proof.
  intros Hi Hc. destruct (switch_to_frame root k cur next) as (H1 & H2 & H3 & H4 & H5 & H6 & H7).
  split; [|congruence]. rewrite H6. eapply inv_s_ext; [done..| |done].
  intros p. unfold proc_slot_get. by rewrite H5.
Qed.

(** The queue after a pick, with its model. *)
Lemma find_next_spec (s : Scheduler) (M : list (nat * nat)) :
  rel (ready s) M →
  let r := model_pop M (batch_starved (ready s)) in
  find_next_ready_user s = (fst r, set_ready s (snd (pop_next (ready s)))) ∧
  rel (snd (pop_next (ready s))) (fst (snd r)).
Proof.
  intros Hrel r. unfold find_next_ready_user. destruct (rel_pop _ _ Hrel) as (H1 & H2 & _).
  destruct (pop_next (ready s)) as [t q]. simpl in *. by rewrite H1.
Qed.

(** Handing the CPU to the best ready task, or to idle, when no user task
    runs. *)
Lemma handoff (s : Scheduler) M P Q :
  rel (ready s) M → core (view s) M (free s) P → sleepers (view s) Q None →
  (∀ slot p c, view s slot ≠ Some (User p, Running, c)) →
  let t := fst (find_next_ready_user s) in
  let s1 := snd (find_next_ready_user s) in
  let next := default IDLE_SLOT t in
  inv_s (set_current (node_mut s1 next (with_tstate Running)) next) P Q.
Proof.
  intros Hrel Hcore Hsl Hno. destruct (find_next_spec s M Hrel) as [-> Hrel']. simpl.
  set (q' := snd (pop_next (ready s))) in *. set (s1 := set_ready s q').
  destruct (fst (model_pop M (batch_starved (ready s)))) as [t|] eqn:E; simpl.
  - destruct (core_pick _ _ _ _ _ _ Hcore E) as (p & c & HV & Hcore').
    destruct (view_Some _ _ _ HV) as (n & Hn & Hs). injection Hs as Hk Hst <-.
    set (V' := upd (view s) t (Some (User p, Running, class n))) in *.
    assert (same_view V' (view (set_current (node_mut s1 t (with_tstate Running)) t))) as HV'.
    { intros i. change (view (set_current ?x t) i) with (view x i).
      rewrite <- (view_node_mut s1 t _ n Hn). unfold summary_of. simpl. by rewrite Hk. }
    exists (fst (snd (model_pop M (batch_starved (ready s))))).
    destruct (node_mut_frame s1 t (with_tstate Running)) as (F1 & F2 & F3).
    split; [simpl; by rewrite F1|]. split; [simpl; rewrite F2; by apply (core_ext V')|].
    split; [|split].
    + apply (sleepers_ext V'); [done|]. apply sleepers_upd; [done|]. congruence.
    + apply (runs_only_ext V'); [done|]. intros i q d. unfold V', upd. case_decide; [done|].
      intros HVi. by destruct (Hno i q d).
    + apply (current_ok_ext V'); [done|]. simpl. unfold V'. exists (User p), Running, (class n).
      rewrite upd_eq. split; [done|]. split; [done|by left].
  - destruct (rq_pop_None (view s) _ _ E) as [-> HM']. rewrite HM' in Hrel'.
    destruct (core_idle _ _ _ _ Hcore) as [c HV].
    assert (same_view (view s)
      (view (set_current (node_mut s1 IDLE_SLOT (with_tstate Running)) IDLE_SLOT))) as HV'.
    { intros i. change (view (set_current ?x IDLE_SLOT) i) with (view x i).
      change (view s i) with (view s1 i). apply view_node_mut_same. intros n Hn.
      unfold view in HV. change (node_ref s1 IDLE_SLOT) with (node_ref s IDLE_SLOT) in Hn.
      rewrite Hn in HV. simpl in HV. unfold summary_of in *. simpl. congruence. }
    exists []. destruct (node_mut_frame s1 IDLE_SLOT (with_tstate Running)) as (F1 & F2 & F3).
    split; [simpl; by rewrite F1|]. split; [simpl; rewrite F2; by apply (core_ext (view s))|].
    split; [by apply (sleepers_ext (view s))|]. split.
    + apply (runs_only_ext (view s)); [done|]. intros i q d Hi. by destruct (Hno i q d).
    + apply (current_ok_ext (view s)); [done|]. exists Idle, Running, c.
      split; [done|]. split; [done|by left].
Qed.

(** [take_cpu] then [switch_to]: the common end of the scheduling paths. *)
Lemma handoff_switch (root : nat → Z) (k : Kernel) (s : Scheduler) M (cur : nat) :
  rel (ready s) M → core (view s) M (free s) (proc_slot_get k) →
  sleepers (view s) (sleepq k) None →
  (∀ slot p c, view s slot ≠ Some (User p, Running, c)) →
  let r := find_next_ready_user s in
  let next := default IDLE_SLOT (fst r) in
  inv (switch_to root (take_cpu k (snd r) next) cur next).
Proof.
  intros H1 H2 H3 H4 r next. apply inv_switch; [|done].
  pose proof (handoff s M (proc_slot_get k) (sleepq k) H1 H2 H3 H4) as Hh. exact Hh.
Qed.

Lemma no_running (V : nat → option summary) (C : nat) (x : option summary) :
  runs_only V C → (∀ p c, x ≠ Some (User p, Running, c)) →
  ∀ slot p c, upd V C x slot ≠ Some (User p, Running, c).
Proof.
  intros Hr Hx slot p c. unfold upd. case_decide as Hd; [auto|]. intros HV. by apply Hr in HV.
Qed.

Lemma inv_block (root : nat → Z) (k : Kernel) (x : option nat) :
  (∃ M, rel (ready (sched k)) M ∧ core (view (sched k)) M (free (sched k)) (proc_slot_get k) ∧
     sleepers (view (sched k)) (sleepq k) x ∧ runs_only (view (sched k)) (current (sched k)) ∧
     current_ok (view (sched k)) (current (sched k))) →
  current_running k = current (sched k) →
  x = None ∨ (x = Some (current (sched k)) ∧ is_Some (current_user_proc k)) →
  inv (schedule_block root k).
Proof.
  intros (M & Hrel & Hcore & Hsl & Hrun & Hcur) Hcr Hx. unfold schedule_block.
  set (s := sched k) in *. set (cur := current s) in *.
  unfold current_user_proc in Hx. fold s cur in Hx.
  destruct (node_ref s cur) as [n|] eqn:Hn.
  2:{ destruct Hx as [->|[_ [? [=]]]]. split; [by exists M|done]. }
  unfold is_user. destruct (kind n) as [| |p] eqn:Hk.
  1,2: destruct Hx as [->|[_ [? [=]]]]; split; [by exists M|done].
  assert (view s cur = Some (User p, state n, class n)) as HV.
  { unfold view. rewrite Hn. simpl. unfold summary_of. by rewrite Hk. }
  set (s2 := set_ready (node_mut s cur (with_tstate Blocked)) _).
  set (V' := upd (view s) cur (Some (User p, Blocked, class n))).
  assert (same_view V' (view s2)) as HV'.
  { intros i. change (view s2 i) with (view (node_mut s cur (with_tstate Blocked)) i).
    rewrite <- (view_node_mut s cur _ n Hn). unfold summary_of. simpl. by rewrite Hk. }
  destruct (node_mut_frame s cur (with_tstate Blocked)) as (F1 & F2 & F3).
  destruct (find_next_ready_user s2) as [t s3] eqn:Ef.
  pose proof (handoff_switch root k s2 (model_remove M cur) cur) as Hh. rewrite Ef in Hh.
  apply Hh.
  - simpl. rewrite F1. apply rel_remove; [done|]. apply (core_ready _ _ _ _ Hcore).
  - simpl. rewrite F2. apply (core_ext V'); [done|]. by apply (core_dequeue _ _ _ _ _ _ (state n) _ (class n)).
  - apply (sleepers_ext V'); [done|]. destruct Hsl as [Hnd Hsl]. split; [done|].
    intros i tk Hi. right. unfold V', upd. case_decide as Hd; [by eauto|].
    destruct (Hsl i tk Hi) as [->|?]; [|done]. destruct Hx as [?|[? _]]; congruence.
  - intros i q d. rewrite <- HV'. by apply (no_running (view s)).
Qed.

Lemma inv_schedule_block (root : nat → Z) (k : Kernel) : inv k → inv (schedule_block root k).
Proof. intros [(M & H) Hcr]. apply (inv_block root k None); [by exists M|done|by left]. Qed.

Lemma queue_sleep_elem (k : Kernel) (slot i : nat) (t tk : Z) :
  (i, tk) ∈ sleepq (queue_sleep k slot t) → i = slot ∨ (i, tk) ∈ sleepq k.
Proof.
  unfold queue_sleep. destruct (update_first _ _ _) as [q|] eqn:E; simpl.
  - apply update_first_Some in E as (l1 & [j u] & l2 & -> & -> & Hj & _).
    apply bool_decide_eq_true in Hj. simpl in *. intros Hin. set_solver.
  - set_solver.
Qed.

Lemma queue_sleep_NoDup (k : Kernel) (slot : nat) (t : Z) :
  NoDup (sleepq k).*1 → NoDup (sleepq (queue_sleep k slot t)).*1.
Proof.
  intros Hnd. unfold queue_sleep. destruct (update_first _ _ _) as [q|] eqn:E; simpl.
  - apply update_first_Some in E as (l1 & e & l2 & Hq & -> & _ & _). rewrite Hq in Hnd.
    by rewrite !fmap_app, !fmap_cons in *.
  - apply update_first_None in E. rewrite fmap_app. apply NoDup_app. split; [done|].
    split; [|apply NoDup_singleton]. simpl. intros i Hi ->%list_elem_of_singleton.
    apply list_elem_of_fmap in Hi as (e & -> & Hi). rewrite Forall_forall in E.
    specialize (E e Hi). by apply bool_decide_eq_false in E.
Qed.

Lemma inv_sleep_until (root : nat → Z) (now t : Z) (k : Kernel) :
  inv k → is_Some (current_user_proc k) → inv (sleep_until root now t k).
Proof.
  intros Hinv Hu. unfold sleep_until. destruct (_ <=? _); [done|]. destruct (negb _); [done|].
  destruct Hinv as [(M & H1 & H2 & [H3 H4] & H5 & H6) Hcr]. rewrite Hcr.
  set (k1 := queue_sleep k (current (sched k)) t).
  assert (sched k1 = sched k ∧ proc_slot_get k1 = proc_slot_get k ∧
    current_running k1 = current_running k ∧ current_user_proc k1 = current_user_proc k)
    as (E1 & E2 & E3 & E4) by (unfold k1, queue_sleep; by destruct (update_first _ _ _)).
  apply (inv_block root k1 (Some (current (sched k)))).
  - exists M. rewrite E1, E2. split; [done|]. split; [done|]. split; [|done].
    split; [by apply queue_sleep_NoDup|].
    intros i tk [->|Hi]%queue_sleep_elem; [by left|]. right.
    destruct (H4 i tk Hi) as [?|?]; done.
  - by rewrite E1, E3.
  - right. by rewrite E1, E4.
Qed.

Lemma view_user (s : Scheduler) (slot : nat) (n : TaskNode) (p : nat) :
  node_ref s slot = Some n → kind n = User p → view s slot = Some (User p, state n, class n).
Proof. intros Hn Hk. unfold view. rewrite Hn. simpl. unfold summary_of. by rewrite Hk. Qed.

(** The current task goes back to the queue. *)
Lemma requeue_spec (s : Scheduler) M P Q :
  rel (ready s) M → core (view s) M (free s) P → sleepers (view s) Q None →
  runs_only (view s) (current s) → current_ok (view s) (current s) →
  let s' := requeue_current s in
  current s' = current s ∧
  ((s' = s ∧ ∀ slot p c, view s slot ≠ Some (User p, Running, c)) ∨
   ∃ M', M' ≠ [] ∧ rel (ready s') M' ∧ core (view s') M' (free s') P ∧
     sleepers (view s') Q None ∧ ∀ slot p c, view s' slot ≠ Some (User p, Running, c)).
Proof.
  intros Hrel Hcore Hsl Hrun Hcur. unfold requeue_current. set (cur := current s).
  destruct Hcur as (kd & st & c & HV & _). pose proof HV as (n & Hn & Hs)%view_Some.
  injection Hs as Hk Hst Hcl. fold cur in Hn. rewrite Hn. unfold is_user.
  assert (¬ (∃ p, kd = User p) ∨ st ≠ Running →
    ∀ slot p c, view s slot ≠ Some (User p, Running, c)) as Hnone.
  { intros Ho slot p d HVs. pose proof (Hrun _ _ _ HVs) as ->. simplify_eq.
    destruct Ho as [Ho|?]; [apply Ho; eauto|done]. }
  destruct (kind n) as [| |p] eqn:Hk'; simpl; subst kd;
    [split; [done|]; left; split; [done|]; apply Hnone; left; by intros [? ?]..|].
  case_bool_decide as Hr; simpl.
  2:{ split; [done|]. left. split; [done|]. apply Hnone. right. congruence. }
  rewrite Hst in Hr. subst st. set (f := fun n => _). set (s' := set_ready _ _).
  destruct (node_mut_frame s cur f) as (F1 & F2 & F3).
  assert (cur ∉ M.*1) as Hnin.
  { eapply rq_not_queued; [apply Hcore|]. fold cur in HV. congruence. }
  set (V' := upd (view s) cur (Some (User p, Ready, class n))).
  assert (same_view V' (view s')) as HV'.
  { intros i. change (view s' i) with (view (node_mut s cur f) i).
    rewrite <- (view_node_mut s cur _ n Hn). unfold f, summary_of. simpl. by rewrite Hk'. }
  split; [done|]. right. exists (model_push M cur (priority (class n))).
  split; [unfold model_push; by destruct M|]. split; [simpl; rewrite F1; by apply rel_push|].
  split; [simpl; rewrite F2; apply (core_ext V'); [done|]; by eapply core_enqueue|].
  split; [apply (sleepers_ext V'); [done|]; apply sleepers_upd; [done|]; fold cur in HV; congruence|].
  intros slot q d. rewrite <- HV'. by apply no_running.
Qed.

Lemma inv_schedule (root : nat → Z) (k : Kernel) : inv k → inv (schedule root k).
Proof.
  intros Hinv. assert (inv (pick_and_switch root k)) as Hpick.
  { destruct Hinv as [(M & Hrel & Hcore & Hsl & Hrun & Hcur) Hcr]. unfold pick_and_switch.
    destruct (requeue_spec _ _ _ _ Hrel Hcore Hsl Hrun Hcur) as [Hc Hcase].
    set (s := requeue_current (sched k)) in *.
    assert (∃ M', rel (ready s) M' ∧ core (view s) M' (free s) (proc_slot_get k) ∧
      sleepers (view s) (sleepq k) None ∧
      (∀ slot p c, view s slot ≠ Some (User p, Running, c)) ∧ (M' = [] → s = sched k))
      as (M' & G1 & G2 & G3 & G4 & G5).
    { destruct Hcase as [[-> Hno]|(M' & ? & ? & ? & ? & ?)]; [by exists M|by exists M']. }
    pose proof (handoff_switch root k s M' (current s) G1 G2 G3 G4) as Hh.
    destruct (find_next_spec s M' G1) as [Ef Hrel']. rewrite Ef in *. simpl in Hh.
    destruct (fst (model_pop M' _)) as [t|] eqn:E; [exact Hh|].
    destruct (rq_pop_None (view s) _ _ E) as [-> HM]. rewrite HM in Hrel'.
    rewrite (G5 eq_refl) in *. set (f := fun n => _).
    set (s1 := set_ready (sched k) _).
    assert (same_view (view s1) (view (node_mut s1 (current (sched k)) f))) as HV.
    { apply view_node_mut_same. intros n Hn. unfold f. case_decide as Hd; [|done].
      destruct Hcur as (kd & st & c & HV & _ & Hst). unfold view in HV.
      change (node_ref s1) with (node_ref (sched k)) in Hn. rewrite Hn in HV. simpl in HV.
      unfold summary_of in HV. simplify_eq. destruct Hst; congruence. }
    destruct (node_mut_frame s1 (current (sched k)) f) as (F1 & F2 & F3).
    split; [|simpl; by rewrite F3]. apply (inv_s_ext s1 _ (proc_slot_get k)); try done.
    by exists []. }
  unfold schedule. destruct (node_ref _ _) as [n|]; [|done].
  destruct (_ && _ && _); [|done]. destruct Hinv as [Hi Hcr].
  destruct (node_mut_frame (sched k) (current (sched k)) (with_quantum (quantum_left n - 1)))
    as (F1 & F2 & F3).
  split; [|simpl; by rewrite F3]. eapply inv_s_ext; [|done..|exact Hi].
  by apply view_node_mut_same.
Qed.

(** Recycling a user slot. *)
Lemma recycle_spec (s : Scheduler) M P P' (slot p : nat) (n : TaskNode) :
  rel (ready s) M → core (view s) M (free s) P →
  node_ref s slot = Some n → kind n = User p →
  (∀ q, P' q = if decide (q = p) then None else P q) →
  let s' := recycle s slot in
  rel (ready s') (model_remove M slot) ∧ core (view s') (model_remove M slot) (free s') P' ∧
  current s' = current s ∧
  same_view (upd (view s) slot (Some (Empty, Exited, class n))) (view s').
Proof.
  intros Hrel Hcore Hn Hk HP. unfold recycle. rewrite Hn. set (f := fun n => _).
  destruct (node_mut_frame s slot f) as (F1 & F2 & F3). simpl. rewrite F1, F2, F3.
  pose proof (view_node_mut s slot f n Hn) as HV.
  split; [apply rel_remove; [done|apply (core_ready _ _ _ _ Hcore)]|].
  split; [|done]. eapply core_ext; [exact HV|].
  eapply core_recycle; [done| |done]. by apply (view_user s slot n).
Qed.

Lemma inv_schedule_exit (root : nat → Z) (k : Kernel) (p : nat) :
  inv k → current_user_proc k = Some p → inv (schedule_exit root k).
Proof.
  intros [(M & Hrel & Hcore & Hsl & Hrun & Hcur) Hcr] Hp. unfold schedule_exit.
  set (k1 := remove_sleep k (current_running k)).
  change (sched k1) with (sched k). set (s := sched k) in *.
  unfold current_user_proc in Hp. fold s in Hp.
  destruct (node_ref s (current s)) as [n|] eqn:Hn; [|done].
  destruct (kind n) as [| |p'] eqn:Hk; simplify_eq.
  destruct (recycle_spec s M (proc_slot_get k) (fun q => if decide (q = p) then None else
    proc_slot_get k q) _ _ _ Hrel Hcore Hn Hk (fun q => eq_refl)) as (R1 & R2 & R3 & R4).
  set (s1 := recycle s (current s)) in *.
  assert (sleepers (view s1) (sleepq k1) None) as Hsl1.
  { eapply sleepers_ext; [exact R4|]. simpl. rewrite Hcr. by apply sleepers_remove. }
  assert (∀ slot q c, view s1 slot ≠ Some (User q, Running, c)) as Hno.
  { intros slot q c. rewrite <- R4. by apply no_running. }
  destruct (find_next_ready_user s1) as [t s2] eqn:Ef.
  pose proof (handoff s1 _ _ _ R1 R2 Hsl1 Hno) as Hh. rewrite Ef in Hh. simpl in Hh.
  apply inv_switch; [|done]. eapply inv_s_ext; [..|exact Hh]; try done.
  intros q. rewrite proc_slot_set_get. done.
Qed.

Lemma inv_mark_current_exited (k : Kernel) (p : nat) :
  inv k → current_user_proc k = Some p → inv (mark_current_exited k).
Proof.
  intros [(M & Hrel & Hcore & Hsl & Hrun & Hcur) Hcr] Hp. unfold mark_current_exited.
  change (sched (remove_sleep _ _)) with (sched k). set (s := sched k) in *.
  unfold current_user_proc in Hp. fold s in Hp.
  destruct (node_ref s (current s)) as [n|] eqn:Hn; [|done].
  destruct (kind n) as [| |p'] eqn:Hk; simplify_eq.
  destruct (node_mut_frame s (current s) (with_tstate Exited)) as (F1 & F2 & F3).
  pose proof (view_node_mut s (current s) (with_tstate Exited) n Hn) as HV.
  unfold summary_of in HV. simpl in HV. rewrite Hk in HV.
  assert (state n ≠ Ready) as Hnr.
  { destruct Hcur as (kd & st & c & HV0 & _ & Hst). rewrite (view_user s _ n p Hn Hk) in HV0.
    simplify_eq. destruct Hst; congruence. }
  split; [|simpl; by rewrite F3]. exists M. simpl. rewrite F1, F2, F3.
  split; [done|]. split; [|split; [|split]].
  - eapply core_ext; [exact HV|].
    eapply core_restate; [done|by apply (view_user s _ n)|done|done].
  - eapply sleepers_ext; [exact HV|]. rewrite Hcr. by apply sleepers_remove.
  - eapply runs_only_ext; [exact HV|]. intros i q d. unfold upd. case_decide; [done|apply Hrun].
  - eapply current_ok_ext; [exact HV|]. exists (User p), Exited, (class n).
    rewrite upd_eq. split; [done|]. split; [done|by right].
Qed.

(** Killing a task by process: another one than the running one. *)
Lemma inv_mark_exited_by_proc (k : Kernel) (p : nat) :
  inv k → proc_slot_get k p ≠ Some (current (sched k)) → inv (mark_task_exited_by_proc k p).
Proof.
  intros [(M & Hrel & Hcore & Hsl & Hrun & Hcur) Hcr] Hne. unfold mark_task_exited_by_proc.
  destruct (proc_slot_get k p) as [slot|] eqn:Hp; [|split; [by exists M|done]].
  pose proof Hp as (st & c & HV)%(core_map _ _ _ _ Hcore).
  destruct (view_Some _ _ _ HV) as (n & Hn & Hs). injection Hs as Hk Hst Hcl.
  change (sched (remove_sleep k slot)) with (sched k).
  destruct (recycle_spec _ M (proc_slot_get k) (fun q => if decide (q = p) then None else
    proc_slot_get k q) _ _ _ Hrel Hcore Hn Hk (fun q => eq_refl)) as (R1 & R2 & R3 & R4).
  set (s1 := recycle (sched k) slot) in *.
  assert (current (sched k) ≠ slot) as Hcs by congruence.
  split; [|simpl; by rewrite R3]. exists (model_remove M slot). simpl.
  split; [done|]. split; [|split; [|split]].
  - destruct R2 as [G1 G2 G3 G4 G5 G6]. split; try done. intros q i.
    rewrite proc_slot_set_get. apply G6.
  - eapply sleepers_ext; [exact R4|]. by apply sleepers_remove.
  - eapply runs_only_ext; [exact R4|]. rewrite R3. intros i q d. unfold upd.
    case_decide; [done|apply Hrun].
  - eapply current_ok_ext; [exact R4|]. rewrite R3. unfold current_ok. by rewrite upd_ne.
Qed.

(** Waking a blocked user slot: it is ready and queued, its sleep entry gone. *)
Lemma wake_slot_spec (s : Scheduler) P Q (slot p : nat) (n : TaskNode) :
  inv_s s P Q → node_ref s slot = Some n → kind n = User p → (∀ t, (slot, t) ∉ Q) →
  let r := wake_slot s slot in
  inv_s (snd r) P Q ∧ current (snd r) = current s ∧
  (fst r = true ↔ state n = Blocked) ∧
  same_view (if decide (state n = Blocked)
             then upd (view s) slot (Some (User p, Ready, class n)) else view s)
    (view (snd r)).
Proof.
  intros Hinv Hn Hk Hq. unfold wake_slot. rewrite Hn. case_decide as Hb; simpl; [|done].
  destruct Hinv as (M & Hrel & Hcore & Hsl & Hrun & Hcur).
  destruct (node_mut_frame s slot (with_tstate Ready)) as (F1 & F2 & F3).
  pose proof (view_node_mut s slot (with_tstate Ready) n Hn) as HV.
  unfold summary_of in HV. simpl in HV. rewrite Hk in HV.
  pose proof (view_user s slot n p Hn Hk) as HVs. rewrite Hb in HVs.
  assert (slot ∉ M.*1) as Hnin by (eapply rq_not_queued; [apply Hcore|congruence]).
  assert (current s ≠ slot) as Hne.
  { intros <-. destruct Hcur as (kd & st & c & HVc & _ & Hst). rewrite HVs in HVc. simplify_eq.
    by destruct Hst. }
  split; [|by rewrite F3]. exists (model_push M slot (priority (class n))). simpl.
  rewrite F1, F2, F3. split; [by apply rel_push|]. split; [|split; [|split]].
  - eapply core_ext; [exact HV|]. by eapply core_enqueue.
  - eapply sleepers_ext; [exact HV|]. destruct Hsl as [Hnd Hsl]. split; [done|].
    intros i t Hi. rewrite upd_ne; [eauto|]. intros ->. by apply (Hq t).
  - eapply runs_only_ext; [exact HV|]. intros i q d. unfold upd. case_decide; [done|apply Hrun].
  - eapply current_ok_ext; [exact HV|]. unfold current_ok. by rewrite upd_ne.
Qed.

Lemma inv_s_forget (s : Scheduler) P Q (f : nat * Z → Prop) `{∀ e, Decision (f e)} :
  inv_s s P Q → inv_s s P (filter f Q).
Proof.
  intros (M & H1 & H2 & [H3 H4] & H5). exists M. split; [done|]. split; [done|]. split; [|done].
  split; [by apply NoDup_fmap_filter|]. intros i t [_ Hi]%list_elem_of_filter. eauto.
Qed.

Lemma inv_wake_task (k : Kernel) (p : nat) : inv k → inv (snd (wake_task k p)).
Proof.
  intros [Hinv Hcr]. unfold wake_task. destruct (proc_slot_get k p) as [slot|] eqn:Hp; [|done].
  pose proof Hinv as (M & _ & Hcore & _).
  pose proof Hp as (st & c & HV)%(core_map _ _ _ _ Hcore).
  destruct (view_Some _ _ _ HV) as (n & Hn & Hs). injection Hs as Hk Hst Hcl.
  destruct (wake_slot_spec (sched k) (proc_slot_get k) (sleepq (remove_sleep k slot)) slot p n)
    as (Hi & Hc & _); [by apply inv_s_forget|done|done| |].
  { intros t [Hne _]%list_elem_of_filter. done. }
  change (sched (remove_sleep k slot)) with (sched k).
  destruct (wake_slot (sched k) slot) as [b s']. simpl in *. split; [done|]. simpl. congruence.
Qed.

Lemma drain_due_spec (now : Z) (q : list (nat * Z)) :
  fst (drain_due now q) = (filter (fun e => snd e <= now) q).*1 ∧
  snd (drain_due now q) = filter (fun e => now < snd e) q.
Proof.
  induction q as [|e q [IH1 IH2]]; [done|]. simpl. destruct (drain_due now q) as [due rest].
  simpl in *. rewrite !filter_cons. subst.
  destruct (Z.leb_spec (snd e) now); repeat case_decide; simpl; try lia; done.
Qed.

(** Waking a list of distinct blocked slots that have no sleep entry left. *)
Lemma wake_all_spec (P : nat → option nat) (Q : list (nat * Z)) (due : list nat) : ∀ s,
  inv_s s P Q → NoDup due → (∀ slot, slot ∈ due → slot ∉ Q.*1) →
  (∀ slot, slot ∈ due → ∃ p c, view s slot = Some (User p, Blocked, c)) →
  let s' := foldl (fun s slot => snd (wake_slot s slot)) s due in
  inv_s s' P Q ∧ current s' = current s ∧
  ∀ slot, if decide (slot ∈ due)
    then ∃ p c, view s slot = Some (User p, Blocked, c) ∧ view s' slot = Some (User p, Ready, c)
    else view s' slot = view s slot.
Proof.
  induction due as [|d due IH]; intros s Hinv Hnd HQ Hb; cbn [foldl].
  { split; [done|]. split; [done|]. intros slot. rewrite decide_False; [done|]. apply not_elem_of_nil. }
  apply NoDup_cons in Hnd as [Hnin Hnd].
  destruct (Hb d ltac:(set_solver)) as (p & c & HV). destruct (view_Some _ _ _ HV) as (n & Hn & Hs).
  injection Hs as Hk Hst Hcl.
  destruct (wake_slot_spec s P Q d p n Hinv Hn Hk) as (Hi & Hc & _ & HV1).
  { intros t Ht. apply (HQ d); [set_solver|]. apply list_elem_of_fmap. by exists (d, t). }
  rewrite decide_True in HV1 by done. set (s1 := snd (wake_slot s d)) in *.
  destruct (IH s1 Hi Hnd) as (Hi' & Hc' & Hall).
  - intros slot Hin. apply HQ. set_solver.
  - intros slot Hin. rewrite <- HV1, upd_ne by (by intros ->). apply Hb. set_solver.
  - split; [done|]. split; [congruence|]. intros slot. specialize (Hall slot).
    destruct (decide (slot ∈ due)) as [Hin|Hin].
    + rewrite decide_True by set_solver. by rewrite <- HV1, upd_ne in Hall by (by intros ->).
    + rewrite Hall, <- HV1. unfold upd. destruct (decide (slot = d)) as [->|Hne].
      * rewrite decide_True by set_solver. exists p, c. by rewrite Hcl.
      * by rewrite decide_False by set_solver.
Qed.

Lemma due_not_rest (now : Z) (Q : list (nat * Z)) (slot : nat) :
  NoDup Q.*1 → slot ∈ (filter (fun e => snd e <= now) Q).*1 →
  slot ∉ (filter (fun e => now < snd e) Q).*1.
Proof.
  intros Hnd (e & -> & [He Hin]%list_elem_of_filter)%list_elem_of_fmap
    (e' & Heq & [He' Hin']%list_elem_of_filter)%list_elem_of_fmap.
  apply list_elem_of_lookup in Hin as [i Hi]. apply list_elem_of_lookup in Hin' as [j Hj].
  assert (i = j) as ->.
  { eapply NoDup_lookup; [exact Hnd| |].
    - by rewrite list_lookup_fmap, Hi.
    - by rewrite list_lookup_fmap, Hj, Heq. }
  assert (e = e') as -> by congruence. lia.
Qed.

(** The timer tick, whatever locks it finds taken. *)
Lemma inv_tick (ql sl : bool) (now : Z) (k : Kernel) :
  inv k → inv (tick_sleep_queue ql sl now k).
Proof.
  intros [Hinv Hcr]. unfold tick_sleep_queue. destruct ql; [done|].
  destruct (drain_due_spec now (sleepq k)) as [H1 H2].
  destruct (drain_due now (sleepq k)) as [due rest]. simpl in H1, H2. subst.
  assert (inv (set_sleepq k (filter (fun e => now < snd e) (sleepq k)))) as Hk1.
  { split; [by apply inv_s_forget|done]. }
  destruct ((filter (fun e => snd e <= now) (sleepq k)).*1) as [|d due] eqn:E; [done|].
  destruct sl; [done|]. pose proof Hinv as (M & _ & _ & [Hnd Hsl] & _).
  destruct (wake_all_spec (proc_slot_get k) (filter (fun e => now < snd e) (sleepq k))
    (d :: due) (sched k)) as (Hi & Hc & _); [by apply inv_s_forget| | | |].
  - rewrite <- E. by apply NoDup_fmap_filter.
  - intros slot. rewrite <- E. by apply due_not_rest.
  - intros slot. rewrite <- E. intros ([i t] & -> & [_ Hin]%list_elem_of_filter)%list_elem_of_fmap.
    destruct (Hsl i t Hin) as [?|?]; done.
  - split; [done|]. simpl in *. by rewrite Hc.
Qed.

(** An unused slot becomes a ready task. *)
Lemma core_alloc V M F F' P P' slot p :
  core V M F P → P p = None →
  (∀ q, P' q = if decide (q = p) then Some slot else P q) →
  (V slot = None ∧ F' = F ∨ F = F' ++ [slot]) →
  core (upd V slot (Some (User p, Ready, Normal))) (model_push M slot (priority Normal)) F' P'.
Proof.
  intros [H1 H2 H3 H4 H5 H6] Hp HP Hslot.
  assert (V slot = None ∨ ∃ st c, V slot = Some (Empty, st, c)) as HVs.
  { destruct Hslot as [[? _]| ->]; [by left|]. right. apply H5. set_solver. }
  assert (slot ∉ F') as HnF.
  { destruct Hslot as [[HV ->]| ->]; [intros (? & ? & ?)%H5; congruence|].
    apply NoDup_app in H4 as (_ & Hd & _). intros Hin. apply (Hd slot Hin). set_solver. }
  assert (∀ i, i ≠ slot → i ∈ F' ↔ i ∈ F) as HF.
  { intros i Hi. destruct Hslot as [[_ ->]| ->]; [done|]. set_solver. }
  assert (slot ≠ IDLE_SLOT) by (destruct H1 as [c0 H1]; intros ->;
    destruct HVs as [?|(? & ? & ?)]; congruence).
  split.
  - by rewrite upd_ne.
  - intros i st0 c0. unfold upd. case_decide; [done|apply H2].
  - apply rq_push; [done|]. eapply rq_not_queued; [done|].
    destruct HVs as [ -> |(? & ? & ->)]; done.
  - destruct Hslot as [[_ ->]| ->]; [done|]. by apply NoDup_app in H4 as (? & _).
  - intros i. unfold upd. case_decide as Hd; [subst|rewrite HF by done; apply H5].
    split; [done|by intros (? & ? & ?)].
  - intros q i. rewrite HP. unfold upd. destruct (decide (i = slot)) as [->|Hi].
    + split.
      * case_decide; [subst; eauto|]. intros (st & c & HV)%H6.
        destruct HVs as [?|(? & ? & ?)]; congruence.
      * intros (st & c & HV). simplify_eq. by rewrite decide_True.
    + case_decide; [subst|apply H6]. split; [congruence|]. intros HVi%H6. congruence.
Qed.

(** The slot an allocation takes, and the scheduler it writes to. *)
Lemma alloc_slot_spec (s : Scheduler) :
  let r := match last (free s) with
           | Some slot => (slot, set_free s (removelast (free s)))
           | None => let s := set_nodes s (nodes s ++ [Some new_idle]) in
                     ((length (nodes s) - 1)%nat, s)
           end in
  is_Some (node_ref s (fst r)) ∨ last (free s) = None →
  (∃ n, node_ref (snd r) (fst r) = Some n) ∧ ready (snd r) = ready s ∧
  current (snd r) = current s ∧
  (view s (fst r) = None ∧ free (snd r) = free s ∨ free s = free (snd r) ++ [fst r]) ∧
  ∀ i, i ≠ fst r → view (snd r) i = view s i.
Proof.
  destruct (last (free s)) as [slot|] eqn:E; simpl.
  - apply last_Some in E as [l ->]. rewrite removelast_last. intros [[n Hn]|?]; [|done].
    split; [by exists n|]. split; [done|]. split; [done|]. split; [by right|done].
  - intros _. rewrite length_app. simpl. rewrite Nat.add_sub. unfold view, node_ref. simpl.
    split; [rewrite lookup_app_r, Nat.sub_diag by done; by eexists|].
    split; [done|]. split; [done|]. split.
    + left. by rewrite lookup_ge_None_2.
    + intros i Hi. destruct (decide (i < length (nodes s))%nat); [by rewrite lookup_app_l|].
      rewrite (lookup_ge_None_2 (nodes s)) by lia.
      rewrite lookup_ge_None_2; [done|]. rewrite length_app. simpl. lia.
Qed.

Lemma allocate_spec (k : Kernel) (p : nat) (ktop isp : Z) :
  inv k → proc_slot_get k p = None →
  ∃ slot k', allocate_user_slot k p ktop isp = (Ok slot, k') ∧ inv k' ∧
    (view (sched k) slot = None ∨ slot ∈ free (sched k)) ∧
    ∃ n, node_ref (sched k') slot = Some n ∧ kind n = User p ∧ state n = Ready ∧
      sp n = isp ∧ kstack n = ktop.
Proof.
  intros [(M & Hrel & Hcore & [Hnd Hsl] & Hrun & Hcur) Hcr] Hp. unfold allocate_user_slot.
  set (s := sched k) in *. pose proof (alloc_slot_spec s) as Hal. cbv zeta in Hal.
  destruct (match last (free s) with Some _ => _ | None => _ end) as [slot s1] eqn:Er.
  simpl in Hal. destruct Hal as ((n & Hn) & Hr & Hc & Hslot & Hother).
  { destruct (last (free s)) as [t|] eqn:El; [|by right]. left. simplify_eq.
    apply last_Some in El as [l El].
    assert (slot ∈ free s) as (st & c & HV)%(core_free _ _ _ _ Hcore) by (rewrite El; set_solver).
    by apply view_Some in HV as (n & -> & _). }
  rewrite Hn. set (nd := with_kstack ktop (new_user p Normal isp)).
  set (s2 := if decide _ then _ else _). set (s3 := set_ready s2 _).
  destruct (node_mut_frame s1 slot (fun _ => nd)) as (F1 & F2 & F3).
  assert (ready s2 = ready s ∧ free s2 = free s1 ∧ current s2 = current s ∧
    nodes s2 = nodes (node_mut s1 slot (fun _ => nd))) as (G1 & G2 & G3 & G4).
  { unfold s2. case_decide; simpl; rewrite ?F1, ?F2, ?F3, ?Hr, ?Hc; done. }
  assert (same_view (upd (view s) slot (Some (User p, Ready, Normal))) (view s3)) as HV3.
  { intros i. transitivity (view (node_mut s1 slot (fun _ => nd)) i).
    - rewrite <- (view_node_mut s1 slot (fun _ => nd) n Hn). unfold upd.
      case_decide; [done|]. by rewrite Hother.
    - unfold view, node_ref. simpl. by rewrite G4. }
  assert (slot ∉ M.*1) as Hnin.
  { eapply rq_not_queued; [apply Hcore|]. intros q c HV.
    destruct Hslot as [[? _]|Hf]; [congruence|].
    assert (slot ∈ free s) as (? & ? & ?)%(core_free _ _ _ _ Hcore); [rewrite Hf; set_solver|congruence]. }
  assert (∀ q st c, view s slot ≠ Some (User q, st, c)) as Hnu.
  { intros q st c HV. destruct Hslot as [[? _]|Hf]; [congruence|].
    assert (slot ∈ free s) as (? & ? & ?)%(core_free _ _ _ _ Hcore); [rewrite Hf; set_solver|congruence]. }
  eexists slot, _. split; [done|]. split; [|split].
  - split; [|simpl; by rewrite G3]. exists (model_push M slot (priority Normal)). simpl.
    split; [rewrite G1; by apply rel_push|]. split; [|split; [|split]].
    + rewrite G2. eapply core_ext; [exact HV3|].
      eapply core_alloc; [exact Hcore|exact Hp| |].
      * intros q. by rewrite proc_slot_set_get.
      * destruct Hslot as [[? ->]|?]; [by left|by right].
    + eapply sleepers_ext; [exact HV3|]. apply sleepers_upd; [done|].
      intros q c HV. by destruct (Hnu q Blocked c).
    + eapply runs_only_ext; [exact HV3|]. rewrite G3. intros i q d. unfold upd.
      case_decide; [done|apply Hrun].
    + eapply current_ok_ext; [exact HV3|]. rewrite G3. unfold current_ok. rewrite upd_ne; [done|].
      intros Heq. destruct Hcur as (kd & st & c & HV & Hke & _). rewrite Heq in HV.
      destruct Hslot as [[? _]|Hf]; [congruence|].
      assert (slot ∈ free s) as (? & ? & ?)%(core_free _ _ _ _ Hcore); [rewrite Hf; set_solver|congruence].
  - destruct Hslot as [[? _]| ->]; [by left|right; set_solver].
  - exists nd. simpl. unfold node_ref. simpl. rewrite G4. unfold node_mut. rewrite Hn. simpl.
    unfold node_ref in Hn. destruct (nodes s1 !! slot) eqn:En; [|done].
    rewrite list_lookup_insert_eq by (by eapply lookup_lt_Some). done.
Qed.

Lemma upd_upd {A : Type} (V : nat → option A) (i j : nat) (x y : option A) :
  upd (upd V i x) i y j = upd V i y j.
Proof. unfold upd. by case_decide. Qed.

Lemma inv_set_task_class (k : Kernel) (p : nat) (c : SchedClass) :
  inv k → inv (snd (set_task_class k p c)).
Proof.
  intros Hinv. unfold set_task_class. destruct (proc_slot_get k p) as [slot|] eqn:Hp; [|done].
  pose proof Hinv as [(M & Hrel & Hcore & Hsl & Hrun & Hcur) Hcr].
  pose proof Hp as (st & c0 & HV)%(core_map _ _ _ _ Hcore).
  destruct (view_Some _ _ _ HV) as (n & Hn & Hs). injection Hs as Hk Hst Hcl.
  rewrite Hn. rewrite decide_False by (rewrite Hk; done). set (f := fun n => _).
  destruct (node_mut_frame (sched k) slot f) as (F1 & F2 & F3).
  pose proof (view_node_mut (sched k) slot f n Hn) as HV1.
  unfold summary_of in HV1. simpl in HV1. rewrite Hk, Hst in HV1.
  assert (runs_only (view (node_mut (sched k) slot f)) (current (sched k)) ∧
    current_ok (view (node_mut (sched k) slot f)) (current (sched k)) ∧
    sleepers (view (node_mut (sched k) slot f)) (sleepq k) None) as (G1 & G2 & G3).
  { split; [|split].
    - eapply runs_only_ext; [exact HV1|]. intros i q d. unfold upd. case_decide as Hd.
      + intros [= -> -> ->]. subst i. by eapply Hrun.
      + apply Hrun.
    - eapply current_ok_ext; [exact HV1|]. destruct Hcur as (kd & st' & c' & HVc & ? & ?).
      unfold current_ok, upd. case_decide as Hd; [|by exists kd, st', c'].
      rewrite <- Hd, HVc in HV. injection HV as -> -> ->. by exists (User p), st, c.
    - eapply sleepers_ext; [exact HV1|]. apply sleepers_upd; [done|]. intros q d HVq.
      rewrite HV in HVq. injection HVq as -> -> ->. eauto. }
  case_decide as Hr.
  - split; [|simpl; by rewrite F3]. exists (model_push (model_remove M slot) slot (priority c)).
    simpl. rewrite F1, F2, F3. split; [|split; [|done]].
    + apply rel_push.
      * apply rel_remove; [done|]. apply (core_ready _ _ _ _ Hcore).
      * eapply (rq_remove _ M slot None); [apply Hcore|done].
    + eapply core_ext; [exact HV1|]. rewrite <- Hst, Hr.
      eapply core_ext; [intros i; apply (upd_upd _ _ _ (Some (User p, Blocked, c)))|].
      eapply core_enqueue; [|apply upd_eq|].
      * eapply core_dequeue; [exact Hcore|exact HV|done].
      * eapply (rq_remove _ M slot None); [apply Hcore|done].
  - split; [|simpl; by rewrite F3]. exists M. simpl. rewrite F1, F2, F3.
    split; [done|]. split; [|done]. eapply core_ext; [exact HV1|].
    eapply core_restate; [exact Hcore|exact HV|congruence|congruence].
Qed.

Lemma inv_start_first_task (root : nat → Z) (k k' : Kernel) :
  inv k → current (sched k) = IDLE_SLOT → start_first_task root k = Ret k' → inv k'.
Proof.
  intros [(M & Hrel & Hcore & Hsl & Hrun & Hcur) Hcr] Hc. unfold start_first_task.
  destruct (find_next_spec _ _ Hrel) as [Ef Hrel'].
  destruct (core_idle _ _ _ _ Hcore) as [c0 HV0].
  assert (∀ slot p c, view (sched k) slot ≠ Some (User p, Running, c)) as Hno.
  { intros slot p c HV. pose proof (Hrun _ _ _ HV). subst. rewrite Hc in HV. congruence. }
  pose proof (handoff _ _ _ _ Hrel Hcore Hsl Hno) as Hh. rewrite Ef in *. simpl in Hh.
  destruct (fst (model_pop M _)) as [t|]; [|done]. intros [= <-].
  apply inv_switch; [|done]. simpl in Hh |- *. set (s1 := set_ready (sched k) _) in *.
  assert (same_view (view s1) (view (node_mut s1 IDLE_SLOT (with_tstate Running)))) as HVi.
  { apply view_node_mut_same. intros n Hn. change (node_ref s1) with (node_ref (sched k)) in Hn.
    unfold view in HV0. rewrite Hn in HV0. simpl in HV0. unfold summary_of in *. simpl. congruence. }
  destruct (node_mut_frame s1 IDLE_SLOT (with_tstate Running)) as (F1 & F2 & F3).
  set (s2 := node_mut s1 IDLE_SLOT (with_tstate Running)) in *.
  destruct (node_mut_frame s1 t (with_tstate Running)) as (A1 & A2 & A3).
  destruct (node_mut_frame s2 t (with_tstate Running)) as (B1 & B2 & B3).
  eapply inv_s_ext; [..|exact Hh]; try done; simpl; try congruence.
  intros i. change (view (set_current ?x t) i) with (view x i).
  destruct (node_ref s1 t) as [n1|] eqn:N1.
  - assert (∃ n2, node_ref s2 t = Some n2 ∧ summary_of n2 = summary_of n1) as (n2 & N2 & Hsum).
    { apply view_Some. rewrite <- HVi. unfold view. by rewrite N1. }
    rewrite <- (view_node_mut s1 t _ n1 N1), <- (view_node_mut s2 t _ n2 N2). unfold upd.
    case_decide; [|apply HVi]. unfold summary_of in *. simpl. congruence.
  - assert (node_ref s2 t = None) as N2.
    { specialize (HVi t). unfold view in HVi. rewrite N1 in HVi. by destruct (node_ref s2 t). }
    unfold node_mut at 1 2. rewrite N1, N2. apply HVi.
Qed.

(** ** Histories *)

Section history.
Context (root : nat → Z).

(** The scheduler operations as the kernel calls them: a task exits or sleeps
    when it is a user task, a process is spawned once, and [kill] is sent to
    another task than the running one.  User code may change the registers. *)
Inductive kstep : Kernel → Kernel → Prop :=
| step_schedule k : kstep k (schedule root k)
| step_block k : kstep k (schedule_block root k)
| step_exit k p : current_user_proc k = Some p → kstep k (schedule_exit root k)
| step_mark k p : current_user_proc k = Some p → kstep k (mark_current_exited k)
| step_kill k p : proc_slot_get k p ≠ Some (current (sched k)) →
    kstep k (mark_task_exited_by_proc k p)
| step_wake k p : kstep k (snd (wake_task k p))
| step_sleep k p now t : current_user_proc k = Some p → kstep k (sleep_until root now t k)
| step_tick k ql sl now : kstep k (tick_sleep_queue ql sl now k)
| step_spawn k p ktop isp : proc_slot_get k p = None →
    kstep k (snd (allocate_user_slot k p ktop isp))
| step_class k p c : kstep k (snd (set_task_class k p c))
| step_first k k' : current (sched k) = IDLE_SLOT → start_first_task root k = Ret k' → kstep k k'
| step_user k c : kstep k (set_cpu k c).

Definition boot (k : Kernel) : Prop := ∃ c, k = init (mkKernel SCHEDULER [] 0 0 [] c).

Lemma inv_boot (k : Kernel) : boot k → inv k.
Proof.
  intros [c ->]. split; [|done]. exists [].
  assert (∀ i, view (sched (init (mkKernel SCHEDULER [] 0 0 [] c))) i =
    if decide (i = 0%nat) then Some (Idle, Running, Normal) else None) as HV.
  { intros i. unfold view, node_ref. simpl. by destruct i. }
  split; [apply rel_new|]. split; [|split; [|split]].
  - split.
    + exists Normal. by rewrite HV.
    + intros slot st d. rewrite HV. by case_decide.
    + split; [constructor|]. split; [by intros ? ? ?%not_elem_of_nil|].
      intros slot p d. rewrite HV. by case_decide.
    + constructor.
    + intros slot. rewrite HV. split; [by intros ?%not_elem_of_nil|].
      intros (? & ? & ?). by case_decide.
    + intros p slot. rewrite HV. split; [done|]. intros (? & ? & ?). by case_decide.
  - split; [constructor|]. by intros ? ? ?%not_elem_of_nil.
  - intros slot p d. rewrite HV. by case_decide.
  - exists Idle, Running, Normal. rewrite HV. split; [done|]. split; [done|by left].
Qed.

Lemma kstep_inv (k k' : Kernel) : inv k → kstep k k' → inv k'.
Proof.
  intros Hinv Hs. inversion Hs; subst.
  - by apply inv_schedule.
  - by apply inv_schedule_block.
  - by eapply inv_schedule_exit.
  - by eapply inv_mark_current_exited.
  - by apply inv_mark_exited_by_proc.
  - by apply inv_wake_task.
  - apply inv_sleep_until; [done|by eexists].
  - by apply inv_tick.
  - destruct (allocate_spec k p ktop isp Hinv ltac:(done)) as (slot & k'' & -> & ? & _). done.
  - by apply inv_set_task_class.
  - by eapply inv_start_first_task.
  - done.
Qed.

Lemma reachable_inv (k : Kernel) : reachable boot kstep k → inv k.
Proof. apply reachable_invariant; [apply inv_boot|intros; by eapply kstep_inv]. Qed.

(** A slot sits in the queue at some level. *)
Definition queued (k : Kernel) (slot : nat) : Prop := ∃ l, slot ∈ queue (ready (sched k)) l.

Lemma queued_iff (k : Kernel) M (slot : nat) :
  rel (ready (sched k)) M → queued k slot ↔ slot ∈ M.*1.
Proof.
  intros (_ & Hq & _). unfold queued. setoid_rewrite Hq. setoid_rewrite at_level_elem. split.
  - intros [l Hl]. apply list_elem_of_fmap. by exists (slot, l).
  - intros ([t l] & -> & Hin)%list_elem_of_fmap. by exists l.
Qed.

(** C6: In every history of scheduler operations from boot in which the running
    task is not killed (a process sends [kill] to another one), only a running
    user task exits or sleeps, a process that has a slot is not spawned again
    and [start_first_task] is called from the idle task: a user task is ready
    exactly when it is queued, and then at one level only; at most one user task
    is running, the current one; the free list holds each recycled slot once and
    no live task; a process maps to a slot exactly when the slot runs that
    process; and whoever is in the sleep queue is blocked.  The first proviso is
    needed, and sys_kill of the own pid does not keep it:
    [self_kill_then_exit_shares_slot]. *)
Theorem scheduler_invariant (k : Kernel) (slot : nat) (n : TaskNode) :
  reachable boot kstep k → node_ref (sched k) slot = Some n →
  (is_user n = true → (state n = Ready ↔ queued k slot)) ∧
  (∀ l l', slot ∈ queue (ready (sched k)) l → slot ∈ queue (ready (sched k)) l' → l = l') ∧
  (is_user n = true → state n = Running → slot = current (sched k)) ∧
  (slot ∈ free (sched k) ↔ kind n = Empty) ∧ NoDup (free (sched k)) ∧
  (∀ p, proc_slot_get k p = Some slot ↔ kind n = User p) ∧
  (∀ t, (slot, t) ∈ sleepq k → state n = Blocked).
Proof.
  intros [(M & Hrel & Hcore & [_ Hsl] & Hrun & _) _]%reachable_inv Hn.
  assert (view (sched k) slot = Some (summary_of n)) as HV by (unfold view; by rewrite Hn).
  pose proof (core_ready _ _ _ _ Hcore) as (Hnd & Hq1 & Hq2).
  unfold is_user. split; [|split; [|split; [|split; [|split; [|split]]]]].
  - intros Hu. rewrite (queued_iff k M) by done. split.
    + intros Hst. destruct (kind n) eqn:Hk; try done. eapply Hq2. rewrite HV.
      unfold summary_of. by rewrite Hk, Hst.
    + intros ([t l] & -> & Hin)%list_elem_of_fmap. destruct (Hq1 _ _ Hin) as (p & c & HV' & _).
      simpl in HV. rewrite HV in HV'. by injection HV' as _ ? _.
  - intros l l'. destruct Hrel as (_ & Hq & _). rewrite !Hq, !at_level_elem.
    by apply model_level_unique.
  - intros Hu Hst. destruct (kind n) as [| |p] eqn:Hk; try done. eapply Hrun. rewrite HV.
    unfold summary_of. by rewrite Hk, Hst.
  - rewrite (core_free _ _ _ _ Hcore), HV. unfold summary_of. split.
    + intros (st & c & Heq). by injection Heq as ? _ _.
    + intros ->. eauto.
  - apply (core_free_nodup _ _ _ _ Hcore).
  - intros p. rewrite (core_map _ _ _ _ Hcore), HV. unfold summary_of. split.
    + intros (st & c & Heq). by injection Heq as ? _ _.
    + intros ->. eauto.
  - intros t Ht. destruct (Hsl slot t Ht) as [?|(p & c & HV')]; [done|].
    rewrite HV in HV'. by injection HV' as _ ? _.
Qed.

(** A timer tick that gets both locks wakes exactly the sleepers whose
    deadline has passed: they become ready and queued, the others keep
    sleeping with their entries, and no other task changes state. *)
Theorem tick_wakes_due_sleepers (k : Kernel) (now : Z) :
  reachable boot kstep k →
  let k' := tick_sleep_queue false false now k in
  sleepq k' = filter (fun e => now < snd e) (sleepq k) ∧
  ∀ slot, if decide (slot ∈ (filter (fun e => snd e <= now) (sleepq k)).*1)
    then queued k' slot ∧ state <$> node_ref (sched k') slot = Some Ready
    else view (sched k') slot = view (sched k) slot.
Proof.
  intros Hreach k'. pose proof (reachable_inv _ Hreach) as [Hinv _].
  assert (inv k') as [(M' & Hrel' & Hcore' & _) _] by (apply inv_tick, reachable_inv, Hreach).
  unfold k', tick_sleep_queue in *. destruct (drain_due_spec now (sleepq k)) as [H1 H2].
  destruct (drain_due now (sleepq k)) as [due rest]. simpl in H1, H2.
  pose proof Hinv as (M & _ & _ & [Hnd Hsl] & _).
  destruct (wake_all_spec (proc_slot_get k) (filter (fun e => now < snd e) (sleepq k)) due (sched k))
    as (_ & _ & Hall); [by apply inv_s_forget| | | |].
  { subst. by apply NoDup_fmap_filter. }
  { intros slot. subst. by apply due_not_rest. }
  { intros slot. subst. intros ([i t] & -> & [_ Hin]%list_elem_of_filter)%list_elem_of_fmap.
    destruct (Hsl i t Hin) as [?|?]; done. }
  split; [by subst rest; destruct due|]. intros slot. specialize (Hall slot). rewrite <- H1.
  destruct (decide (slot ∈ due)) as [Hin|Hin].
  - destruct Hall as (p & c & _ & HV).
    destruct due as [|d due]; [by apply not_elem_of_nil in Hin|]. split.
    + eapply (proj2 (queued_iff _ _ _ Hrel')). by apply (core_ready _ _ _ _ Hcore') in HV.
    + apply view_Some in HV as (n & Hn & Hs). cbn [sched set_sched set_sleepq]. rewrite Hn. simpl. f_equal.
      by injection Hs as _ ? _.
  - by destruct due.
Qed.

(** A tick that finds the scheduler lock taken drops the sleepers whose
    deadline has passed: their entries are gone, they stay blocked, and no
    later tick wakes them. *)
Theorem tick_with_scheduler_locked_loses_sleepers (k : Kernel) (now : Z) (slot : nat) (t : Z) :
  reachable boot kstep k → (slot, t) ∈ sleepq k → t <= now →
  let k' := tick_sleep_queue false true now k in
  (slot ∉ (sleepq k').*1) ∧ state <$> node_ref (sched k') slot = Some Blocked ∧
  ∀ ql sl later, state <$> node_ref (sched (tick_sleep_queue ql sl later k')) slot = Some Blocked.
Proof.
  intros Hreach Hin Ht k'. assert (inv k') as [Hinv' _] by (apply inv_tick, reachable_inv, Hreach).
  apply reachable_inv in Hreach as [(M & _ & _ & [Hnd Hsl] & _) _].
  assert (sleepq k' = filter (fun e => now < snd e) (sleepq k) ∧ sched k' = sched k) as [Hq Hs].
  { unfold k', tick_sleep_queue. destruct (drain_due_spec now (sleepq k)) as [_ H2].
    destruct (drain_due now (sleepq k)) as [due rest]. simpl in H2. subst. by destruct due. }
  assert (slot ∉ (sleepq k').*1) as Hout.
  { rewrite Hq. apply due_not_rest; [done|]. apply list_elem_of_fmap. exists (slot, t).
    split; [done|]. by apply list_elem_of_filter. }
  assert (state <$> node_ref (sched k) slot = Some Blocked) as Hb.
  { destruct (Hsl slot t Hin) as [?|(p & c & HV)]; [done|].
    apply view_Some in HV as (n & -> & Hn). simpl. f_equal. by injection Hn as _ ? _. }
  split; [done|]. split; [by rewrite Hs|]. intros ql sl later.
  pose proof Hinv' as (M' & _ & _ & [Hnd' Hsl'] & _).
  unfold tick_sleep_queue. destruct ql; [by rewrite Hs|].
  destruct (drain_due_spec later (sleepq k')) as [H1 H2].
  destruct (drain_due later (sleepq k')) as [due rest]. simpl in H1, H2.
  destruct (wake_all_spec (proc_slot_get k') (filter (fun e => later < snd e) (sleepq k')) due (sched k'))
    as (_ & _ & Hall); [by apply inv_s_forget| | | |].
  { subst. by apply NoDup_fmap_filter. }
  { intros i. subst. by apply due_not_rest. }
  { intros i. subst. intros ([j u] & -> & [_ Hj]%list_elem_of_filter)%list_elem_of_fmap.
    destruct (Hsl' j u Hj) as [?|?]; done. }
  specialize (Hall slot). rewrite decide_False in Hall.
  2:{ subst due. intros (e & -> & [_ He]%list_elem_of_filter)%list_elem_of_fmap. apply Hout.
      apply list_elem_of_fmap. by exists e. }
  destruct due as [|d due]; [simpl; by rewrite Hs|]. destruct sl; [simpl; by rewrite Hs|].
  unfold view in Hall. rewrite Hs in Hall at 2. cbn [sched set_sched set_sleepq].
  destruct (node_ref (sched k) slot) as [n|]; [|done].
  destruct (node_ref (foldl _ _ _) slot) as [n'|]; [|done]. simpl in *.
  injection Hall as _ Hst _. by rewrite Hst.
Qed.

(** ** A slot killed and then exited *)

Definition present (s : Scheduler) (slot : nat) : Prop := is_Some (view s slot).

Lemma present_node_mut (s : Scheduler) (i slot : nat) (f : TaskNode → TaskNode) :
  present s slot → present (node_mut s i f) slot.
Proof.
  unfold present. destruct (node_ref s i) as [n|] eqn:Hn.
  - rewrite <- (view_node_mut s i f n Hn). unfold upd. case_decide; [by eexists|done].
  - unfold node_mut. by rewrite Hn.
Qed.

Lemma recycle_free (s : Scheduler) (slot : nat) :
  present s slot →
  free (recycle s slot) = free s ++ [slot] ∧ current (recycle s slot) = current s ∧
  ∀ i, present s i → present (recycle s slot) i.
Proof.
  intros [x (n & Hn & _)%view_Some]. unfold recycle. rewrite Hn. set (f := fun n => _).
  destruct (node_mut_frame s slot f) as (_ & F2 & F3). simpl. rewrite F2, F3.
  split; [done|]. split; [done|]. intros i Hi. change (present (node_mut s slot f) i).
  by apply present_node_mut.
Qed.

(** An exit of the current slot puts it on the free list, whatever its kind. *)
Lemma schedule_exit_free (k : Kernel) :
  present (sched k) (current (sched k)) →
  free (sched (schedule_exit root k)) = free (sched k) ++ [current (sched k)] ∧
  ∀ i, present (sched k) i → present (sched (schedule_exit root k)) i.
Proof.
  intros Hp. unfold schedule_exit. change (sched (remove_sleep _ _)) with (sched k).
  set (s := sched k) in *. destruct (recycle_free s (current s) Hp) as (R1 & R2 & R3).
  set (s1 := recycle s (current s)) in *.
  assert (free (snd (find_next_ready_user s1)) = free s1 ∧
    ∀ i, present (snd (find_next_ready_user s1)) i ↔ present s1 i) as [E1 E2].
  { unfold find_next_ready_user. by destruct (pop_next (ready s1)). }
  destruct (find_next_ready_user s1) as [t s2]. simpl in E1, E2.
  match goal with |- context [switch_to root ?k1 ?c ?nx] =>
    destruct (switch_to_frame root k1 c nx) as (H1 & _ & H3 & _); set (kk := k1) in * end.
  assert (free (sched kk) = free s1 ∧ ∀ i, present s1 i → present (sched kk) i) as [G1 G2].
  { set (nx := default IDLE_SLOT t) in *.
    assert (sched kk = set_current (node_mut s2 nx (with_tstate Running)) nx) as ->.
    { unfold kk. by destruct (match node_ref s (current s) with Some n => _ | None => _ end). }
    destruct (node_mut_frame s2 nx (with_tstate Running)) as (_ & F2 & _). simpl.
    split; [congruence|]. intros i Hi. change (present (node_mut s2 nx (with_tstate Running)) i).
    apply present_node_mut. by apply E2. }
  split; [congruence|]. intros i Hi. unfold present. rewrite <- H1. apply G2. auto.
Qed.

Lemma allocate_reuses (k : Kernel) (p : nat) (ktop isp : Z) (l : list nat) (slot : nat) :
  free (sched k) = l ++ [slot] → present (sched k) slot →
  ∃ k', allocate_user_slot k p ktop isp = (Ok slot, k') ∧ free (sched k') = l ∧
    ∀ i, present (sched k) i → present (sched k') i.
Proof.
  intros Hf [x (n & Hn & _)%view_Some]. unfold allocate_user_slot.
  rewrite Hf, last_snoc, removelast_last. change (node_ref (set_free (sched k) l)) with (node_ref (sched k)).
  rewrite Hn. eexists. split; [done|]. set (nd := with_kstack _ _).
  destruct (node_mut_frame (set_free (sched k) l) slot (fun _ => nd)) as (_ & F2 & _).
  split; [simpl; by case_decide|]. intros i Hi. simpl.
  assert (present (node_mut (set_free (sched k) l) slot (fun _ => nd)) i) as Hp
    by (by apply present_node_mut).
  by case_decide.
Qed.

(** A task that kills itself ([sys_kill] on its own process recycles the
    running slot) and then exits puts its slot on the free list twice, and the
    next two processes that are spawned share one slot. *)
Theorem self_kill_then_exit_shares_slot (k : Kernel) (p a b : nat) (ka ia kb ib : Z) :
  reachable boot kstep k → proc_slot_get k p = Some (current (sched k)) →
  let k2 := schedule_exit root (mark_task_exited_by_proc k p) in
  ∃ k3 k4, allocate_user_slot k2 a ka ia = (Ok (current (sched k)), k3) ∧
    allocate_user_slot k3 b kb ib = (Ok (current (sched k)), k4).
Proof.
  intros Hreach Hp k2. apply reachable_inv in Hreach as [(M & _ & Hcore & _) _].
  pose proof Hp as (st & c & HV)%(core_map _ _ _ _ Hcore).
  assert (present (sched k) (current (sched k))) as Hpre by (unfold present; by rewrite HV).
  destruct (recycle_free (sched k) _ Hpre) as (R1 & R2 & R3).
  set (k1 := mark_task_exited_by_proc k p) in *.
  assert (sched k1 = recycle (sched k) (current (sched k))) as Hk1.
  { unfold k1, mark_task_exited_by_proc. by rewrite Hp. }
  destruct (schedule_exit_free k1) as [E1 E2]; [rewrite Hk1, R2; by apply R3|].
  rewrite Hk1, R1, R2 in E1. rewrite Hk1 in E2. fold k2 in E1, E2.
  destruct (allocate_reuses k2 a ka ia _ _ E1 (E2 _ (R3 _ Hpre))) as (k3 & Ha & Hf & Hpr).
  destruct (allocate_reuses k3 b kb ib _ _ Hf (Hpr _ (E2 _ (R3 _ Hpre)))) as (k4 & Hb & _).
  by exists k3, k4.
Qed.

End history.

(** ** Context switches and quanta *)

Definition demo_root (p : nat) : Z := Z.of_nat p.

Lemma node_ref_mut (s : Scheduler) (i j : nat) (f : TaskNode → TaskNode) :
  node_ref (node_mut s i f) j = if decide (j = i) then f <$> node_ref s i else node_ref s j.
Proof.
  unfold node_mut. destruct (node_ref s i) as [n|] eqn:Hn.
  - unfold node_ref in *. simpl. destruct (nodes s !! i) as [[m|]|] eqn:E; simplify_eq.
    case_decide as Hd.
    + subst. by rewrite list_lookup_insert_eq by (by eapply lookup_lt_Some).
    + by rewrite list_lookup_insert_ne.
  - case_decide; [by subst|done].
Qed.

(** What a switch saves in the task it leaves and loads from the one it
    enters. *)
Lemma switch_to_regs (root : nat → Z) (k : Kernel) (a b : nat) (na nb : TaskNode) :
  a ≠ b → node_ref (sched k) a = Some na → node_ref (sched k) b = Some nb →
  let k' := switch_to root k a b in
  node_ref (sched k') a = Some (with_sp (reg_sp (cpu k)) (with_fs_base (reg_fs_base (cpu k)) na)) ∧
  node_ref (sched k') b = Some nb ∧
  reg_fs_base (cpu k') = fs_base nb ∧ reg_sp (cpu k') = sp nb ∧ current_running k' = b ∧
  (kstack nb ≠ 0 → syscall_ksp (cpu k') = kstack nb ∧ kernel_rsp0 (cpu k') = kstack nb).
Proof.
  intros Hab Ha Hb. unfold switch_to. set (k1 := save_fs_base k a).
  assert (node_ref (sched k1) a = Some (with_fs_base (reg_fs_base (cpu k)) na)) as Ha1.
  { unfold k1, save_fs_base. simpl. rewrite node_ref_mut, decide_True by done. by rewrite Ha. }
  assert (node_ref (sched k1) b = Some nb) as Hb1.
  { unfold k1, save_fs_base. simpl. by rewrite node_ref_mut, decide_False. }
  set (k2 := set_current_process_for_slot root (set_current_running k1 b) b).
  assert (sched k2 = sched k1 ∧ current_running k2 = b ∧
    reg_sp (cpu k2) = reg_sp (cpu k)) as (E1 & E2 & E3).
  { unfold k2, set_current_process_for_slot. by destruct (kind <$> _) as [[]|]. }
  set (k3 := store_pending k2 b).
  assert (sched k3 = sched k1 ∧ current_running k3 = b ∧ reg_sp (cpu k3) = reg_sp (cpu k))
    as (G1 & G2 & G3) by done.
  rewrite G1, Ha1, Hb1. cbv zeta. set (k4 := asm_switch k3 a b nb).
  assert (sched k4 = node_mut (sched k1) a (with_sp (reg_sp (cpu k))) ∧ current_running k4 = b ∧
    reg_sp (cpu k4) = sp nb) as (J1 & J2 & J3).
  { unfold k4, asm_switch. rewrite decide_False by done. cbn [sched set_cpu set_sched current_running cpu reg_sp].
    by rewrite G1, G3. }
  assert (node_ref (sched k4) b = Some nb) as Hb4 by (by rewrite J1, node_ref_mut, decide_False).
  rewrite J2. unfold restore_task_arch_state. rewrite Hb4.
  cbn [sched set_cpu cpu reg_fs_base reg_sp syscall_ksp kernel_rsp0 current_running].
  rewrite J1, node_ref_mut, decide_True, Ha1, node_ref_mut, decide_False, Hb1 by done.
  split; [done|]. split; [done|]. split; [done|].
  split; [by destruct (negb (kstack nb =? 0))|]. split; [done|]. intros Hk.
  by rewrite (proj2 (Z.eqb_neq _ _)).
Qed.

(** A context switch preserves every task's thread pointer and stack
    pointer: a task that is switched out and, whatever the other task did to
    the registers in between, switched back in, finds its own FS base and
    stack pointer, and its kernel stack installed for the next trap. *)
Theorem context_switch_round_trip (root : nat → Z) (k : Kernel) (c : Cpu) (a b : nat)
    (na nb : TaskNode) :
  a ≠ b → node_ref (sched k) a = Some na → node_ref (sched k) b = Some nb →
  let k' := switch_to root (set_cpu (switch_to root k a b) c) b a in
  reg_fs_base (cpu k') = reg_fs_base (cpu k) ∧ reg_sp (cpu k') = reg_sp (cpu k) ∧
  current_running k' = a ∧
  (kstack na ≠ 0 → syscall_ksp (cpu k') = kstack na ∧ kernel_rsp0 (cpu k') = kstack na).
Proof.
  intros Hab Ha Hb. destruct (switch_to_regs root k a b na nb Hab Ha Hb) as (H1 & H2 & _).
  set (k1 := switch_to root k a b) in *.
  destruct (switch_to_regs root (set_cpu k1 c) b a nb
    (with_sp (reg_sp (cpu k)) (with_fs_base (reg_fs_base (cpu k)) na)))
    as (_ & _ & G3 & G4 & G5 & G6); [done|done|done|].
  cbn [fs_base sp kstack with_sp with_fs_base] in *. cbv zeta. by rewrite G3, G4.
Qed.

Lemma context_switch_round_trip_witness :
  let k := mkKernel (mkSched [Some new_idle; Some (new_user 5 Normal 0x8f00)] [] new 0 2)
             [] 0 0 [] (mkCpu 7 0x100 0 0 0 None 0) in
  reg_fs_base (cpu (switch_to demo_root
    (set_cpu (switch_to demo_root k 0 1) (mkCpu 99 0x200 0 0 0 None 0)) 1 0)) = 7.
Proof.
  intros k. apply (context_switch_round_trip demo_root k (mkCpu 99 0x200 0 0 0 None 0) 0 1
    new_idle (new_user 5 Normal 0x8f00)); [lia|reflexivity|reflexivity].
Defined.

(** A running task keeps the CPU for as many timer ticks as its quantum
    has left, whatever waits in the ready queue: for a FIFO real-time task
    that is [usize::MAX] ticks, and a real-time task of higher priority that
    becomes ready does not preempt it. *)
Theorem running_task_not_preempted (root : nat → Z) (k : Kernel) (n : TaskNode) (ticks : nat) :
  node_ref (sched k) (current (sched k)) = Some n → is_user n = true → state n = Running →
  Z.of_nat ticks <= quantum_left n →
  let k' := Nat.iter ticks (schedule root) k in
  current (sched k') = current (sched k) ∧ ready (sched k') = ready (sched k) ∧
  node_ref (sched k') (current (sched k)) = Some (with_quantum (quantum_left n - Z.of_nat ticks) n).
Proof.
  intros Hn Hu Hr. induction ticks as [|t IH]; intros Hq.
  { split; [done|]. split; [done|]. simpl. rewrite Hn. f_equal. destruct n. unfold with_quantum.
    simpl. f_equal. lia. }
  destruct (IH ltac:(lia)) as (H1 & H2 & H3). simpl. set (k1 := Nat.iter t (schedule root) k) in *.
  unfold schedule. rewrite H1, H3.
  change (is_user (with_quantum ?q n)) with (is_user n).
  change (state (with_quantum ?q n)) with (state n). rewrite Hu, Hr.
  rewrite bool_decide_eq_true_2 by done. simpl.
  rewrite (proj2 (Z.ltb_lt _ _)) by lia. simpl.
  match goal with |- context [node_mut ?s ?c ?f] =>
    destruct (node_mut_frame s c f) as (F1 & F2 & F3) end.
  rewrite F1, F3. split; [done|]. split; [done|].
  rewrite node_ref_mut, decide_True, H3 by done. simpl. f_equal. unfold with_quantum. simpl. f_equal.
  lia.
Qed.

(** A FIFO task of the lowest real-time level runs; one of the highest level
    waits. *)
Definition demo_rt : Kernel :=
  mkKernel (mkSched [Some new_idle; Some (with_tstate Running (new_user 5 (RtFifo 16) 0));
                     Some (new_user 6 (RtFifo 1) 0)]
              [] (push new 2 (priority (RtFifo 1))) 1 3)
    [] 1 1 [] (mkCpu 0 0 0 0 0 None 0).

Lemma running_task_not_preempted_witness :
  current (sched (Nat.iter 1000 (schedule demo_root) demo_rt)) = 1%nat.
Proof.
  assert (Z.of_nat 1000 <= quantum_left (with_tstate Running (new_user 5 (RtFifo 16) 0))) as Hq
    by (cbn [quantum_left with_tstate new_user quantum]; unfold USIZE_MAX; lia).
  destruct (running_task_not_preempted demo_root demo_rt
    (with_tstate Running (new_user 5 (RtFifo 16) 0)) 1000 eq_refl eq_refl eq_refl Hq) as [H _].
  exact H.
Defined.

(** ** A concrete history for the witnesses *)

Definition demo_boot : Kernel :=
  init (mkKernel SCHEDULER [] 0 0 [] (mkCpu 0 0 0 0 0 None 0)).
Definition demo_spawned : Kernel :=
  snd (allocate_user_slot (snd (allocate_user_slot demo_boot 5 0x9000 0x8f00)) 6 0xb000 0xaf00).
Definition demo_started : Kernel :=
  match start_first_task demo_root demo_spawned with Ret k => k | Panic => demo_spawned end.
Definition demo_sleeping : Kernel := sleep_until demo_root 0 100 demo_started.

Lemma demo_started_reachable : reachable boot (kstep demo_root) demo_started.
Proof.
  apply reach_step with (s := demo_spawned).
  2:{ apply step_first; vm_compute; reflexivity. }
  eapply reach_step; [|apply step_spawn; vm_compute; reflexivity].
  eapply reach_step; [|apply step_spawn; vm_compute; reflexivity].
  apply reach_init. by eexists.
Qed.

Lemma demo_sleeping_reachable : reachable boot (kstep demo_root) demo_sleeping.
Proof.
  eapply reach_step; [apply demo_started_reachable|].
  apply (step_sleep _ _ 5). vm_compute. reflexivity.
Qed.

Lemma scheduler_invariant_witness :
  (∃ n, node_ref (sched demo_started) 2 = Some n) ∧ queued demo_started 2.
Proof.
  assert ((fun n => (is_user n, state n)) <$> node_ref (sched demo_started) 2 = Some (true, Ready))
    as H by (vm_compute; reflexivity).
  destruct (node_ref (sched demo_started) 2) as [n|] eqn:E; [|discriminate].
  simpl in H. injection H as Hu Hr. split; [by exists n|].
  apply (scheduler_invariant demo_root demo_started 2 n demo_started_reachable E); assumption.
Defined.

Lemma tick_wakes_due_sleepers_witness :
  state <$> node_ref (sched (tick_sleep_queue false false 100 demo_sleeping)) 1 = Some Ready.
Proof.
  destruct (tick_wakes_due_sleepers demo_root demo_sleeping 100 demo_sleeping_reachable) as [_ H].
  specialize (H 1%nat). rewrite decide_True in H; [apply H|]. vm_compute. by left.
Defined.

Lemma tick_with_scheduler_locked_loses_sleepers_witness :
  state <$> node_ref (sched (tick_sleep_queue false false 1000
    (tick_sleep_queue false true 100 demo_sleeping))) 1 = Some Blocked.
Proof.
  apply (tick_with_scheduler_locked_loses_sleepers demo_root demo_sleeping 100 1 100
    demo_sleeping_reachable); [vm_compute; by left|lia].
Defined.

Lemma self_kill_then_exit_shares_slot_witness :
  ∃ k3 k4, allocate_user_slot (schedule_exit demo_root (mark_task_exited_by_proc demo_started 5))
      7 0 0 = (Ok 1%nat, k3) ∧ allocate_user_slot k3 8 0 0 = (Ok 1%nat, k4).
Proof.
  assert (proc_slot_get demo_started 5 = Some (current (sched demo_started))) as Hp
    by (vm_compute; reflexivity).
  assert (current (sched demo_started) = 1%nat) as Hc by (vm_compute; reflexivity).
  pose proof (self_kill_then_exit_shares_slot demo_root demo_started 5 7 8 0 0 0 0
    demo_started_reachable Hp) as H. rewrite Hc in H. exact H.
Defined.

End Scheduler.
