(* ===== verification/Ring.v ===== *)
(** Ring buffers: the contents of a circular array as a list.

    Pipes ([kernel/src/driver/pipe.rs]) and the terminal input buffer
    ([kernel/src/driver/tty.rs]) keep their data in a fixed array with
    positions that wrap around.  This file gives the list such a window
    of the array denotes, and what reading at its front and writing behind
    its end do to that list. *)

From stdpp Require Import base numbers list.
From S2P Require Import Prelude.
Local Open Scope Z_scope.

Module Ring.

(** [a[i]] with Rust's bounds check. *)
Definition index {A : Type} (a : list A) (i : Z) : exec A :=
  if decide (0 <= i) then
    match a !! Z.to_nat i with Some x => Ret x | None => Panic end
  else Panic.

(** [a[i] = x] *)
Definition index_set {A : Type} (a : list A) (i : Z) (x : A) : exec (list A) :=
  if decide (0 <= i < Z.of_nat (length a)) then Ret (<[Z.to_nat i := x]> a) else Panic.

(** The [n] entries from position [r] on, around the end of the array. *)
Definition window {A : Type} `{Inhabited A} (a : list A) (r : Z) (n : nat) : list A :=
  (fun k => a !!! Z.to_nat ((r + Z.of_nat k) mod Z.of_nat (length a))) <$> seq 0 n.

#[global] Arguments window : simpl never.

Lemma index_in {A : Type} (a : list A) (i : Z) :
  0 <= i < Z.of_nat (length a) → ∃ x, a !! Z.to_nat i = Some x ∧ index a i = Ret x.
Proof.
  intros Hi. unfold index. rewrite decide_True by lia.
  destruct (lookup_lt_is_Some_2 a (Z.to_nat i)) as [x Hx]; [lia|]. exists x. by rewrite Hx.
Qed.

Lemma index_set_in {A : Type} (a : list A) (i : Z) (x : A) :
  0 <= i < Z.of_nat (length a) → index_set a i x = Ret (<[Z.to_nat i := x]> a).
Proof. intros Hi. unfold index_set. by rewrite decide_True. Qed.

Lemma window_length {A : Type} `{Inhabited A} (a : list A) (r : Z) (n : nat) : length (window a r n) = n.
Proof. unfold window. by rewrite length_fmap, length_seq. Qed.

(** Reading at the front. *)
Lemma window_front {A : Type} `{Inhabited A} (a : list A) (r : Z) (n : nat) (x : A) :
  0 <= r < Z.of_nat (length a) → a !! Z.to_nat r = Some x →
  window a r (S n) = x :: window a ((r + 1) mod Z.of_nat (length a)) n.
Proof.
  intros Hr Hx. unfold window. simpl. f_equal.
  - rewrite Z.add_0_r, Z.mod_small by done. by apply list_lookup_total_correct.
  - rewrite <- fmap_S_seq, <- list_fmap_compose. apply list_fmap_ext. intros _ k _. simpl.
    do 2 f_equal. rewrite Zplus_mod_idemp_l. f_equal. lia.
Qed.

(** Positions of a window are distinct while it fits the array. *)
Lemma window_slots (N r : Z) (k n : nat) :
  0 < N → 0 <= r < N → (k < n)%nat → Z.of_nat n < N →
  (r + Z.of_nat k) mod N ≠ (r + Z.of_nat n) mod N.
Proof.
  intros HN Hr Hk Hn Heq.
  assert ((Z.of_nat n - Z.of_nat k) mod N = 0) as Hz.
  { replace (Z.of_nat n - Z.of_nat k) with ((r + Z.of_nat n) - (r + Z.of_nat k)) by lia.
    rewrite Zminus_mod, Heq, Z.sub_diag. apply Zmod_0_l. }
  rewrite Z.mod_small in Hz by lia. lia.
Qed.

(** Writing behind the end. *)
Lemma window_back {A : Type} `{Inhabited A} (a : list A) (r : Z) (n : nat) (x : A) :
  0 <= r < Z.of_nat (length a) → (n < length a)%nat →
  window (<[Z.to_nat ((r + Z.of_nat n) mod Z.of_nat (length a)) := x]> a) r (S n) =
    window a r n ++ [x].
Proof.
  intros Hr Hn. unfold window. rewrite length_insert, seq_S, fmap_app. simpl.
  set (N := Z.of_nat (length a)) in *.
  assert (∀ y, 0 <= y mod N < N) as Hmod by (intros y; apply Z.mod_pos_bound; lia).
  f_equal.
  - apply list_fmap_ext. intros i k [-> Hk]%lookup_seq. simpl.
    rewrite list_lookup_total_insert_ne; [done|]. intros Heq.
    assert ((r + Z.of_nat i) mod N ≠ (r + Z.of_nat n) mod N) as Hne by (apply window_slots; lia).
    apply Hne. pose proof (Hmod (r + Z.of_nat i)). pose proof (Hmod (r + Z.of_nat n)). lia.
  - rewrite list_lookup_total_insert_eq; [done|]. pose proof (Hmod (r + Z.of_nat n)). lia.
Qed.

(** A write outside the window is not seen. *)
Lemma window_outside {A : Type} `{Inhabited A} (a : list A) (r i : Z) (n : nat) (x : A) :
  (∀ k, (k < n)%nat → (r + Z.of_nat k) mod Z.of_nat (length a) ≠ i) →
  0 < Z.of_nat (length a) → 0 <= i →
  window (<[Z.to_nat i := x]> a) r n = window a r n.
Proof.
  intros Hne HN Hi. unfold window. rewrite length_insert. apply list_fmap_ext.
  intros j k [-> Hk]%lookup_seq. simpl. rewrite list_lookup_total_insert_ne; [done|]. intros Heq.
  apply (Hne j Hk). pose proof (Z.mod_pos_bound (r + Z.of_nat j) (Z.of_nat (length a)) HN). lia.
Qed.

(** Parts of a window. *)
Lemma window_take {A : Type} `{Inhabited A} (a : list A) (r : Z) (n m : nat) : (m <= n)%nat → take m (window a r n) = window a r m.
Proof. intros Hm. unfold window. rewrite <- fmap_take. f_equal. rewrite take_seq. f_equal. lia. Qed.

Lemma window_drop {A : Type} `{Inhabited A} (a : list A) (r : Z) (n m : nat) : (m <= n)%nat →
  drop m (window a r n) = window a ((r + Z.of_nat m) mod Z.of_nat (length a)) (n - m).
Proof.
  intros Hm. unfold window. rewrite <- fmap_drop, drop_seq. rewrite <- (Nat.add_0_r (0 + m)), <- fmap_add_seq, <- list_fmap_compose.
  apply list_fmap_ext. intros _ k _. cbn. do 2 f_equal. rewrite Zplus_mod_idemp_l. f_equal. lia.
Qed.

End Ring.
