(* ===== verification/Pipe.v ===== *)
(** Anonymous pipes ([kernel/src/driver/pipe.rs]).

    A pipe is a 4 KiB ring buffer with the closed flags of its two ends and the
    process blocked on each.  [user_read_u8] is an argument; the user writes
    and the wake-ups an operation performs are part of its result.  The
    global table of pipes comes with the reference counts of both ends. *)

From stdpp Require Import base numbers list gmap.
From S2P Require Import Prelude Ring.
Import Ring.
Local Open Scope Z_scope.
Local Open Scope rust_scope.

Module Pipe.

Definition MAX_PIPES : nat := 16.
Definition PIPE_BUF_SIZE : Z := 4096.
Definition EPIPE : Z := -32.

(** [usize::MAX] in the blocked fields is [None]. *)
Record Pipe := mkPipe {
  buffer : list Z;
  read_pos : Z;
  write_pos : Z;
  data_len : Z;
  read_closed : bool;
  write_closed : bool;
  reader_blocked : option nat;
  writer_blocked : option nat;
}.

Definition new : Pipe :=
  mkPipe (replicate (Z.to_nat PIPE_BUF_SIZE) 0) 0 0 0 false false None None.

(** What an operation does outside the pipe: bytes written to user memory and
    tasks passed to [wake_task]. *)
Record effects := mkEff {
  user_writes : list (Z * Z);
  woken : list nat;
}.

Definition no_effect : effects := mkEff [] [].

Definition wake (o : option nat) : list nat := match o with Some t => [t] | None => [] end.

(** The copy loop of [read]: [n] iterations from [i]. *)
Fixpoint read_loop (buf i : Z) (n : nat) (p : Pipe) (acc : list (Z * Z))
  : exec (list (Z * Z) * Pipe) :=
  match n with
  | O => Ret (acc, p)
  | S n' =>
      let! byte := index (buffer p) (read_pos p) in
      let p' := mkPipe (buffer p) ((read_pos p +! 1) mod PIPE_BUF_SIZE) (write_pos p) (data_len p)
                  (read_closed p) (write_closed p) (reader_blocked p) (writer_blocked p) in
      read_loop buf (i + 1) n' p' (acc ++ [(buf +! i, byte)])
  end.

Definition read (p : Pipe) (buf len : Z) : exec (Z * effects * Pipe) :=
  if (len =? 0) || (buf =? 0) then Ret (0, no_effect, p)
  else if data_len p =? 0 then
    if write_closed p then Ret (0, no_effect, p) else Ret (-1, no_effect, p)
  else
    let to_read := Z.min len (data_len p) in
    let! r := read_loop buf 0 (Z.to_nat to_read) p [] in
    let '(ws, p1) := r in
    let p2 := mkPipe (buffer p1) (read_pos p1) (write_pos p1) (data_len p1 -! to_read)
                (read_closed p1) (write_closed p1) (reader_blocked p1) (writer_blocked p1) in
    if 0 <? to_read then
      Ret (to_read, mkEff ws (wake (writer_blocked p2)),
           mkPipe (buffer p2) (read_pos p2) (write_pos p2) (data_len p2)
             (read_closed p2) (write_closed p2) (reader_blocked p2) None)
    else Ret (to_read, mkEff ws [], p2).

Section user_memory.
Context (user_read_u8 : Z → Z).

Fixpoint write_loop (buf i : Z) (n : nat) (p : Pipe) : exec Pipe :=
  match n with
  | O => Ret p
  | S n' =>
      let byte := user_read_u8 (buf +! i) in
      let! b := index_set (buffer p) (write_pos p) byte in
      write_loop buf (i + 1) n'
        (mkPipe b (read_pos p) ((write_pos p +! 1) mod PIPE_BUF_SIZE) (data_len p)
           (read_closed p) (write_closed p) (reader_blocked p) (writer_blocked p))
  end.

Definition write (p : Pipe) (buf len : Z) : exec (Z * effects * Pipe) :=
  if (len =? 0) || (buf =? 0) then Ret (0, no_effect, p)
  else if read_closed p then Ret (EPIPE, no_effect, p)
  else
    let available := PIPE_BUF_SIZE -! data_len p in
    if available =? 0 then Ret (-1, no_effect, p)
    else
      let to_write := Z.min len available in
      let! p1 := write_loop buf 0 (Z.to_nat to_write) p in
      let p2 := mkPipe (buffer p1) (read_pos p1) (write_pos p1) (data_len p1 +! to_write)
                  (read_closed p1) (write_closed p1) (reader_blocked p1) (writer_blocked p1) in
      if 0 <? to_write then
        Ret (to_write, mkEff [] (wake (reader_blocked p2)),
             mkPipe (buffer p2) (read_pos p2) (write_pos p2) (data_len p2)
               (read_closed p2) (write_closed p2) None (writer_blocked p2))
      else Ret (to_write, no_effect, p2).

End user_memory.

Definition has_data (p : Pipe) : bool := 0 <? data_len p.
Definition has_space (p : Pipe) : bool := data_len p <? PIPE_BUF_SIZE.

Definition close_read_end (p : Pipe) : list nat * Pipe :=
  (wake (writer_blocked p),
   mkPipe (buffer p) (read_pos p) (write_pos p) (data_len p) true (write_closed p)
     (reader_blocked p) None).

Definition close_write_end (p : Pipe) : list nat * Pipe :=
  (wake (reader_blocked p),
   mkPipe (buffer p) (read_pos p) (write_pos p) (data_len p) (read_closed p) true
     None (writer_blocked p)).

Definition set_reader_blocked (p : Pipe) (proc_idx : nat) : Pipe :=
  mkPipe (buffer p) (read_pos p) (write_pos p) (data_len p) (read_closed p) (write_closed p)
    (Some proc_idx) (writer_blocked p).

Definition set_writer_blocked (p : Pipe) (proc_idx : nat) : Pipe :=
  mkPipe (buffer p) (read_pos p) (write_pos p) (data_len p) (read_closed p) (write_closed p)
    (reader_blocked p) (Some proc_idx).

Definition is_fully_closed (p : Pipe) : bool := read_closed p && write_closed p.

(** ** The global table *)

Record Table := mkTable {
  PIPE_TABLE : list (option Pipe);
  PIPE_REFS : list (Z * Z);
}.

Definition table_init : Table := mkTable (replicate MAX_PIPES None) (replicate MAX_PIPES (0, 0)).

(** The loop of [alloc_pipe] from slot [i]. *)
Fixpoint first_free (t : list (option Pipe)) (i : nat) : option nat :=
  match t with
  | [] => None
  | None :: _ => Some i
  | Some _ :: t' => first_free t' (S i)
  end.

Definition alloc_pipe (t : Table) : option nat * Table :=
  match first_free (PIPE_TABLE t) 0 with
  | Some i => (Some i, mkTable (<[i := Some new]> (PIPE_TABLE t)) (<[i := (1, 1)]> (PIPE_REFS t)))
  | None => (None, t)
  end.

Definition with_pipe {R : Type} (t : Table) (id : nat) (f : Pipe → exec (R * Pipe))
  : exec (option R * Table) :=
  let! slot := index (PIPE_TABLE t) (Z.of_nat id) in
  match slot with
  | None => Ret (None, t)
  | Some p =>
      let! r := f p in
      let '(x, p') := r in
      Ret (Some x, mkTable (<[id := Some p']> (PIPE_TABLE t)) (PIPE_REFS t))
  end.

Definition pipe_available (t : Table) (id : nat) : exec Z :=
  let! slot := index (PIPE_TABLE t) (Z.of_nat id) in
  Ret (match slot with Some p => data_len p | None => 0 end).

Definition inc_read (t : Table) (id : nat) : exec Table :=
  let! r := index (PIPE_REFS t) (Z.of_nat id) in
  Ret (mkTable (PIPE_TABLE t) (<[id := (fst r +! 1, snd r)]> (PIPE_REFS t))).

Definition inc_write (t : Table) (id : nat) : exec Table :=
  let! r := index (PIPE_REFS t) (Z.of_nat id) in
  Ret (mkTable (PIPE_TABLE t) (<[id := (fst r, snd r +! 1)]> (PIPE_REFS t))).

Definition try_free (t : Table) (id : nat) : exec Table :=
  let! r := index (PIPE_REFS t) (Z.of_nat id) in
  if (fst r =? 0) && (snd r =? 0) then
    let! tb := index_set (PIPE_TABLE t) (Z.of_nat id) None in
    Ret (mkTable tb (PIPE_REFS t))
  else Ret t.

Definition close_read (t : Table) (id : nat) : exec (list nat * Table) :=
  let! r := index (PIPE_REFS t) (Z.of_nat id) in
  let n := if 0 <? fst r then fst r - 1 else fst r in
  let t1 := mkTable (PIPE_TABLE t) (<[id := (n, snd r)]> (PIPE_REFS t)) in
  if n =? 0 then
    let! r2 := with_pipe t1 id (fun p => Ret (close_read_end p)) in
    let '(w, t2) := r2 in
    let! t3 := try_free t2 id in
    Ret (default [] w, t3)
  else Ret ([], t1).

Definition close_write (t : Table) (id : nat) : exec (list nat * Table) :=
  let! r := index (PIPE_REFS t) (Z.of_nat id) in
  let n := if 0 <? snd r then snd r - 1 else snd r in
  let t1 := mkTable (PIPE_TABLE t) (<[id := (fst r, n)]> (PIPE_REFS t)) in
  if n =? 0 then
    let! r2 := with_pipe t1 id (fun p => Ret (close_write_end p)) in
    let '(w, t2) := r2 in
    let! t3 := try_free t2 id in
    Ret (default [] w, t3)
  else Ret ([], t1).

(** ** A pipe as a queue of bytes *)

Definition contents (p : Pipe) : list Z := window (buffer p) (read_pos p) (Z.to_nat (data_len p)).

Definition wf (p : Pipe) : Prop :=
  length (buffer p) = Z.to_nat PIPE_BUF_SIZE ∧ 0 <= read_pos p < PIPE_BUF_SIZE ∧
  0 <= data_len p <= PIPE_BUF_SIZE ∧
  write_pos p = (read_pos p + data_len p) mod PIPE_BUF_SIZE.

Lemma pipe_new_wf : wf new ∧ contents new = [].
Proof.
  split; [|done]. split; [apply length_replicate|].
  cbn [read_pos data_len write_pos new]. unfold PIPE_BUF_SIZE. split; [lia|]. split; [lia|done].
Qed.

(** The effect of [n] iterations of the read loop. *)
Lemma read_loop_spec (buf : Z) (n : nat) : ∀ (i : Z) (p : Pipe) (acc : list (Z * Z)) (m : nat),
  length (buffer p) = Z.to_nat PIPE_BUF_SIZE → 0 <= read_pos p < PIPE_BUF_SIZE →
  read_loop buf i n p acc =
    Ret (acc ++ zip ((fun k => buf +! (i + Z.of_nat k)) <$> seq 0 n) (window (buffer p) (read_pos p) n),
         mkPipe (buffer p) ((read_pos p + Z.of_nat n) mod PIPE_BUF_SIZE) (write_pos p) (data_len p)
           (read_closed p) (write_closed p) (reader_blocked p) (writer_blocked p)) ∧
  window (buffer p) (read_pos p) (n + m) =
    window (buffer p) (read_pos p) n ++
    window (buffer p) ((read_pos p + Z.of_nat n) mod PIPE_BUF_SIZE) m.
Proof.
  induction n as [|n IH]; intros i p acc m Hl Hr.
  { simpl. rewrite app_nil_r, Z.add_0_r, Z.mod_small by done. split; [by destruct p|done]. }
  assert (Z.of_nat (length (buffer p)) = PIPE_BUF_SIZE) as HN by (rewrite Hl; done).
  destruct (index_in (buffer p) (read_pos p)) as (x & Hx & Hix); [lia|].
  cbn [read_loop]. rewrite Hix. cbn [exec_bind].
  assert (read_pos p +! 1 = read_pos p + 1) as ->.
  { apply u64_small. unfold PIPE_BUF_SIZE in Hr. lia. }
  set (r1 := (read_pos p + 1) mod PIPE_BUF_SIZE).
  assert (0 <= r1 < PIPE_BUF_SIZE) as Hr1 by (apply Z.mod_pos_bound; done).
  set (p1 := mkPipe (buffer p) r1 _ _ _ _ _ _).
  destruct (IH (i + 1) p1 (acc ++ [(buf +! i, x)]) m Hl Hr1) as [-> IHw].
  unfold p1 in IHw |- *.
  cbn [buffer read_pos write_pos data_len read_closed write_closed reader_blocked writer_blocked] in IHw |- *.
  assert ((r1 + Z.of_nat n) mod PIPE_BUF_SIZE = (read_pos p + Z.of_nat (S n)) mod PIPE_BUF_SIZE) as Hpos.
  { unfold r1. rewrite Zplus_mod_idemp_l. f_equal. lia. }
  rewrite Hpos in *. change (S n + m)%nat with (S (n + m)).
  rewrite !(window_front (buffer p) (read_pos p) _ x) by (rewrite ?HN; done || lia).
  rewrite HN. fold r1. split.
  - rewrite <- app_assoc. do 3 f_equal. simpl. rewrite Z.add_0_r. f_equal. f_equal.
    rewrite <- fmap_S_seq, <- list_fmap_compose.
    apply list_fmap_ext. intros _ k _. simpl. do 2 f_equal. lia.
  - by rewrite IHw.
Qed.

(** The bytes of user memory at [buf + i ..]. *)
Definition user_bytes (mem : Z → Z) (buf i : Z) (n : nat) : list Z :=
  (fun k => mem (buf +! (i + Z.of_nat k))) <$> seq 0 n.

Lemma user_bytes_S (mem : Z → Z) (buf i : Z) (n : nat) :
  user_bytes mem buf i (S n) = mem (buf +! i) :: user_bytes mem buf (i + 1) n.
Proof.
  unfold user_bytes. simpl. rewrite Z.add_0_r. f_equal.
  rewrite <- fmap_S_seq, <- list_fmap_compose. apply list_fmap_ext. intros _ k _. simpl.
  do 2 f_equal. lia.
Qed.

(** The effect of [n] iterations of the write loop behind [d] bytes. *)
Lemma write_loop_spec (mem : Z → Z) (buf : Z) (n : nat) : ∀ (i : Z) (p : Pipe) (d : nat),
  length (buffer p) = Z.to_nat PIPE_BUF_SIZE → 0 <= read_pos p < PIPE_BUF_SIZE →
  write_pos p = (read_pos p + Z.of_nat d) mod PIPE_BUF_SIZE →
  Z.of_nat (d + n) <= PIPE_BUF_SIZE →
  ∃ b, write_loop mem buf i n p =
      Ret (mkPipe b (read_pos p) ((read_pos p + Z.of_nat (d + n)) mod PIPE_BUF_SIZE) (data_len p)
             (read_closed p) (write_closed p) (reader_blocked p) (writer_blocked p)) ∧
    length b = Z.to_nat PIPE_BUF_SIZE ∧
    window b (read_pos p) (d + n) = window (buffer p) (read_pos p) d ++ user_bytes mem buf i n.
Proof.
  induction n as [|n IH]; intros i p d Hl Hr Hw Hd.
  { exists (buffer p). rewrite Nat.add_0_r, <- Hw. split; [by destruct p|]. split; [done|].
    unfold user_bytes. simpl. by rewrite app_nil_r. }
  assert (Z.of_nat (length (buffer p)) = PIPE_BUF_SIZE) as HN by (rewrite Hl; done).
  assert (0 <= write_pos p < PIPE_BUF_SIZE) as Hwp by (rewrite Hw; apply Z.mod_pos_bound; done).
  cbn [write_loop]. rewrite index_set_in by lia. cbn [exec_bind].
  set (b1 := <[Z.to_nat (write_pos p) := mem (buf +! i)]> (buffer p)).
  assert (write_pos p +! 1 = write_pos p + 1) as ->.
  { apply u64_small. unfold PIPE_BUF_SIZE in Hwp. lia. }
  set (p1 := mkPipe b1 _ _ _ _ _ _ _).
  assert (window b1 (read_pos p) (S d) = window (buffer p) (read_pos p) d ++ [mem (buf +! i)]) as Hwin.
  { unfold b1. rewrite Hw, <- HN. apply window_back; lia. }
  destruct (IH (i + 1) p1 (S d)) as (b & -> & Hlb & Hb).
  - unfold p1, b1. cbn [buffer]. by rewrite length_insert.
  - done.
  - cbn [write_pos read_pos p1]. rewrite Hw, Zplus_mod_idemp_l. f_equal. lia.
  - lia.
  - exists b. replace (S d + n)%nat with (d + S n)%nat in * by lia. split; [done|].
    split; [done|]. cbn [read_pos buffer p1] in Hb. rewrite Hb, Hwin, <- app_assoc. f_equal.
    by rewrite user_bytes_S.
Qed.

Lemma wf_write_pos (p : Pipe) : wf p → write_pos p = (read_pos p + Z.of_nat (Z.to_nat (data_len p))) mod PIPE_BUF_SIZE.
Proof. intros (_ & _ & Hd & Hw). by rewrite Z2Nat.id by lia. Qed.

(** Everything [read] does to a well-formed pipe. *)
Lemma read_spec (p : Pipe) (buf len : Z) :
  wf p → 0 < buf → 0 < len →
  ∃ r e p', read p buf len = Ret (r, e, p') ∧ wf p' ∧
    read_closed p' = read_closed p ∧ write_closed p' = write_closed p ∧
    (contents p = [] → r = (if write_closed p then 0 else -1) ∧ e = no_effect ∧ p' = p) ∧
    (contents p ≠ [] →
       r = Z.min len (Z.of_nat (length (contents p))) ∧
       user_writes e = zip ((fun k => buf +! Z.of_nat k) <$> seq 0 (Z.to_nat r))
                         (take (Z.to_nat r) (contents p)) ∧
       woken e = wake (writer_blocked p) ∧ writer_blocked p' = None ∧
       contents p' = drop (Z.to_nat r) (contents p)).
Proof.
  intros Hwf Hbuf Hlen. pose proof Hwf as (Hl & Hr & Hd & Hw). unfold read.
  rewrite (proj2 (Z.eqb_neq len 0)), (proj2 (Z.eqb_neq buf 0)) by lia. simpl.
  assert (length (contents p) = Z.to_nat (data_len p)) as Hlc by apply window_length.
  destruct (Z.eqb_spec (data_len p) 0) as [Hz|Hnz].
  { assert (contents p = []) as Hc by (apply nil_length_inv; rewrite Hlc, Hz; done).
    destruct (write_closed p) eqn:Ewc; eexists _, _, p; (split; [done|]); rewrite ?Ewc, Hc; done. }
  assert (contents p ≠ []) as Hne by (intros Hc; rewrite Hc in Hlc; simpl in Hlc; lia).
  set (k := Z.min len (data_len p)). assert (0 < k <= data_len p) as Hk by lia.
  destruct (read_loop_spec buf (Z.to_nat k) 0 p [] (Z.to_nat (data_len p) - Z.to_nat k) Hl Hr)
    as [-> Hsplit].
  replace (Z.to_nat k + (Z.to_nat (data_len p) - Z.to_nat k))%nat with (Z.to_nat (data_len p))
    in Hsplit by lia.
  cbn [exec_bind]. rewrite (proj2 (Z.ltb_lt 0 k)) by lia.
  set (r1 := (read_pos p + Z.of_nat (Z.to_nat k)) mod PIPE_BUF_SIZE).
  assert (0 <= r1 < PIPE_BUF_SIZE) as Hr1 by (apply Z.mod_pos_bound; done).
  assert (data_len p -! k = data_len p - k) as Hdk.
  { apply u64_small. unfold PIPE_BUF_SIZE in Hd. lia. }
  cbn [data_len]. rewrite Hdk. eexists _, _, _. split; [done|]. split.
  { split; [done|]. cbn [read_pos data_len write_pos]. split; [done|]. split; [lia|].
    rewrite Hw. unfold r1. rewrite Zplus_mod_idemp_l. f_equal. lia. }
  split; [done|]. split; [done|]. split; [done|]. intros _.
  assert (contents p = window (buffer p) (read_pos p) (Z.to_nat k) ++
    window (buffer p) r1 (Z.to_nat (data_len p) - Z.to_nat k)) as Hc by exact Hsplit.
  split; [unfold k; rewrite Hlc; lia|]. cbn [user_writes woken writer_blocked].
  split; [|split; [done|split; [done|]]].
  - rewrite Hc, take_app_length' by (by rewrite window_length). done.
  - rewrite Hc, drop_app_length' by (by rewrite window_length). unfold contents.
    cbn [buffer read_pos data_len]. f_equal. lia.
Qed.

(** Everything [write] does to a well-formed pipe. *)
Lemma write_spec (mem : Z → Z) (p : Pipe) (buf len : Z) :
  wf p → 0 < buf → 0 < len →
  ∃ r e p', write mem p buf len = Ret (r, e, p') ∧ wf p' ∧
    read_closed p' = read_closed p ∧ write_closed p' = write_closed p ∧ user_writes e = [] ∧
    (read_closed p = true → r = EPIPE ∧ e = no_effect ∧ p' = p) ∧
    (read_closed p = false → length (contents p) = Z.to_nat PIPE_BUF_SIZE →
       r = -1 ∧ e = no_effect ∧ p' = p) ∧
    (read_closed p = false → (length (contents p) < Z.to_nat PIPE_BUF_SIZE)%nat →
       r = Z.min len (PIPE_BUF_SIZE - Z.of_nat (length (contents p))) ∧
       woken e = wake (reader_blocked p) ∧ reader_blocked p' = None ∧
       contents p' = contents p ++ user_bytes mem buf 0 (Z.to_nat r)).
Proof.
  intros Hwf Hbuf Hlen. pose proof Hwf as (Hl & Hr & Hd & Hw). unfold write.
  rewrite (proj2 (Z.eqb_neq len 0)), (proj2 (Z.eqb_neq buf 0)) by lia. simpl.
  assert (length (contents p) = Z.to_nat (data_len p)) as Hlc by apply window_length.
  destruct (read_closed p) eqn:Hrc; [by eexists _, _, p|].
  assert (PIPE_BUF_SIZE -! data_len p = PIPE_BUF_SIZE - data_len p) as ->.
  { apply u64_small. unfold PIPE_BUF_SIZE in *. lia. }
  destruct (Z.eqb_spec (PIPE_BUF_SIZE - data_len p) 0) as [Hz|Hnz].
  { eexists _, _, p. rewrite Hlc. split; [done|]. split; [done|]. split; [done|]. split; [done|].
    split; [done|]. split; [done|]. split; [done|]. intros _. lia. }
  set (k := Z.min len (PIPE_BUF_SIZE - data_len p)).
  assert (0 < k <= PIPE_BUF_SIZE - data_len p) as Hk by lia.
  destruct (write_loop_spec mem buf (Z.to_nat k) 0 p (Z.to_nat (data_len p)) Hl Hr)
    as (b & -> & Hlb & Hb); [by apply wf_write_pos|lia|].
  cbn [exec_bind]. rewrite (proj2 (Z.ltb_lt 0 k)) by lia. cbn [data_len].
  assert (data_len p +! k = data_len p + k) as ->.
  { apply u64_small. unfold PIPE_BUF_SIZE in *. lia. }
  eexists _, _, _. split; [done|]. split.
  { split; [done|]. cbn [read_pos data_len write_pos]. split; [done|]. split; [lia|].
    f_equal. lia. }
  split; [done|]. split; [done|]. split; [done|]. split; [done|].
  split; [intros _; rewrite Hlc; lia|]. intros _ _. split; [unfold k; rewrite Hlc; lia|].
  split; [done|]. split; [done|]. unfold contents. cbn [buffer read_pos data_len].
  replace (Z.to_nat (data_len p + k)) with (Z.to_nat (data_len p) + Z.to_nat k)%nat by lia. done.
Qed.

(** ** Histories of one pipe *)

Inductive pipe_op :=
| OpRead (buf len : Z)
| OpWrite (mem : Z → Z) (buf len : Z).

Definition op_ok (o : pipe_op) : Prop :=
  match o with OpRead buf len | OpWrite _ buf len => 0 < buf ∧ 0 < len end.

(** Bytes delivered to readers, bytes taken from writers, and the pipe. *)
Fixpoint transfer (p : Pipe) (os : list pipe_op) : exec (list Z * list Z * Pipe) :=
  match os with
  | [] => Ret ([], [], p)
  | OpRead buf len :: os' =>
      let! r := read p buf len in
      let '(_, e, p1) := r in
      let! r' := transfer p1 os' in
      let '(out, inp, p2) := r' in
      Ret ((user_writes e).*2 ++ out, inp, p2)
  | OpWrite mem buf len :: os' =>
      let! r := write mem p buf len in
      let '(n, _, p1) := r in
      let! r' := transfer p1 os' in
      let '(out, inp, p2) := r' in
      Ret (out, user_bytes mem buf 0 (Z.to_nat n) ++ inp, p2)
  end.

Lemma zip_snd_seq {A : Type} (f : nat → A) (l : list Z) : (zip (f <$> seq 0 (length l)) l).*2 = l.
Proof. apply snd_zip. by rewrite length_fmap, length_seq. Qed.

(** C8: A pipe is a lossless FIFO byte stream: whatever reads and writes are
    made, in whatever chunks, no operation goes out of the buffer, what was
    in the pipe followed by everything the writers were told was taken equals
    everything the readers got followed by what is still in the pipe, and
    the pipe never holds more than its capacity. *)
Theorem pipe_is_byte_stream (p : Pipe) (os : list pipe_op) :
  wf p → Forall op_ok os →
  ∃ out inp p', transfer p os = Ret (out, inp, p') ∧ wf p' ∧
    contents p ++ inp = out ++ contents p' ∧
    (length (contents p') <= Z.to_nat PIPE_BUF_SIZE)%nat.
Proof.
  intros Hwf Hok. revert p Hwf. induction Hok as [|o os Ho _ IH]; intros p Hwf.
  { exists [], [], p. rewrite app_nil_r. split; [done|]. split; [done|]. split; [done|].
    destruct Hwf as (_ & _ & Hd & _). unfold contents. rewrite window_length. lia. }
  destruct o as [buf len|mem buf len]; destruct Ho as [Hb Hl].
  - destruct (read_spec p buf len Hwf Hb Hl) as (r & e & p1 & Hr & Hwf1 & _ & _ & H0 & H1).
    destruct (IH p1 Hwf1) as (out & inp & p2 & Ht & Hwf2 & Heq & Hc).
    exists ((user_writes e).*2 ++ out), inp, p2. cbn [transfer]. rewrite Hr. cbn [exec_bind].
    rewrite Ht. split; [done|]. split; [done|]. split; [|done].
    destruct (decide (contents p = [])) as [Hnil|Hnn].
    + destruct (H0 Hnil) as (_ & -> & ->). done.
    + destruct (H1 Hnn) as (Hrv & -> & _ & _ & Hc1). rewrite <- app_assoc, <- Heq, Hc1, app_assoc.
      f_equal. rewrite snd_zip; [by rewrite take_drop|].
      rewrite length_fmap, length_seq, length_take. lia.
  - destruct (write_spec mem p buf len Hwf Hb Hl)
      as (r & e & p1 & Hr & Hwf1 & _ & _ & _ & H0 & H1 & H2).
    destruct (IH p1 Hwf1) as (out & inp & p2 & Ht & Hwf2 & Heq & Hc).
    exists out, (user_bytes mem buf 0 (Z.to_nat r) ++ inp), p2. cbn [transfer]. rewrite Hr.
    cbn [exec_bind]. rewrite Ht. split; [done|]. split; [done|]. split; [|done]. rewrite <- Heq.
    destruct (read_closed p) eqn:Hrc; [by destruct (H0 eq_refl) as (-> & _ & ->)|].
    destruct (decide (length (contents p) = Z.to_nat PIPE_BUF_SIZE)) as [Hfull|Hroom].
    + by destruct (H1 eq_refl Hfull) as (-> & _ & ->).
    + assert (length (contents p) < Z.to_nat PIPE_BUF_SIZE)%nat as Hlt.
      { destruct Hwf as (_ & _ & Hd & _). unfold contents in *. rewrite window_length in *. lia. }
      destruct (H2 eq_refl Hlt) as (_ & _ & _ & ->). by rewrite app_assoc.
Qed.

Lemma pipe_is_byte_stream_witness :
  ∃ out inp p', transfer new [OpWrite (fun a => a mod 256) 0x1000 5; OpRead 0x2000 3] =
    Ret (out, inp, p') ∧ contents new ++ inp = out ++ contents p'.
Proof.
  destruct (pipe_is_byte_stream new [OpWrite (fun a => a mod 256) 0x1000 5; OpRead 0x2000 3])
    as (out & inp & p' & H1 & _ & H2 & _).
  - apply pipe_new_wf.
  - repeat constructor; lia.
  - exists out, inp, p'. split; [exact H1|exact H2].
Defined.

(** ** Reference counts *)

(** What the counts of a slot say of the pipe in it. *)
Definition slot_ok (o : option Pipe) (rw : Z * Z) : Prop :=
  0 <= fst rw < 2 ^ 64 ∧ 0 <= snd rw < 2 ^ 64 ∧
  match o with
  | Some p => wf p ∧ (read_closed p = true ↔ fst rw = 0) ∧ (write_closed p = true ↔ snd rw = 0) ∧
      ¬ (fst rw = 0 ∧ snd rw = 0)
  | None => fst rw = 0 ∧ snd rw = 0
  end.

Definition table_ok (t : Table) : Prop :=
  length (PIPE_TABLE t) = MAX_PIPES ∧ length (PIPE_REFS t) = MAX_PIPES ∧
  ∀ id o rw, PIPE_TABLE t !! id = Some o → PIPE_REFS t !! id = Some rw → slot_ok o rw.

Lemma table_ok_store (t : Table) (id : nat) (o : option Pipe) (rw : Z * Z) :
  table_ok t → (id < MAX_PIPES)%nat → slot_ok o rw →
  table_ok (mkTable (<[id := o]> (PIPE_TABLE t)) (<[id := rw]> (PIPE_REFS t))).
Proof.
  intros (H1 & H2 & H3) Hid Hok. unfold table_ok. cbn [PIPE_TABLE PIPE_REFS].
  rewrite !length_insert. split; [done|]. split; [done|]. intros j o' rw'.
  destruct (decide (j = id)) as [->|Hne].
  - rewrite !list_lookup_insert_eq by lia. intros ? ?. by simplify_eq.
  - rewrite !list_lookup_insert_ne by done. apply H3.
Qed.

Lemma table_slot (t : Table) (id : nat) :
  table_ok t → (id < MAX_PIPES)%nat →
  ∃ o rw, PIPE_TABLE t !! id = Some o ∧ PIPE_REFS t !! id = Some rw ∧ slot_ok o rw ∧
    index (PIPE_TABLE t) (Z.of_nat id) = Ret o ∧ index (PIPE_REFS t) (Z.of_nat id) = Ret rw.
Proof.
  intros (H1 & H2 & H3) Hid.
  destruct (index_in (PIPE_TABLE t) (Z.of_nat id)) as (o & Ho & Hio); [lia|].
  destruct (index_in (PIPE_REFS t) (Z.of_nat id)) as (rw & Hrw & Hir); [lia|].
  rewrite Nat2Z.id in *. exists o, rw. eauto 6.
Qed.

Lemma index_insert {A : Type} (a : list A) (id : nat) (x : A) :
  (id < length a)%nat → index (<[id := x]> a) (Z.of_nat id) = Ret x.
Proof.
  intros Hid. unfold index. rewrite decide_True by lia. rewrite Nat2Z.id.
  by rewrite list_lookup_insert_eq.
Qed.

Lemma table_init_ok : table_ok table_init.
Proof.
  split; [done|]. split; [done|]. intros id o rw [-> _]%lookup_replicate [-> _]%lookup_replicate.
  split; [simpl; lia|]. split; [simpl; lia|done].
Qed.

Lemma first_free_spec (t : list (option Pipe)) : ∀ i,
  match first_free t i with
  | Some j => ∃ k, j = (i + k)%nat ∧ t !! k = Some None
  | None => Forall (fun o => o ≠ None) t
  end.
Proof.
  induction t as [|[p|] t IH]; intros i; simpl; [done| |exists 0%nat; split; [lia|done]].
  specialize (IH (S i)). destruct (first_free t (S i)) as [j|].
  - destruct IH as (k & -> & Hk). exists (S k). split; [lia|done].
  - by constructor.
Qed.

Lemma alloc_pipe_spec (t : Table) :
  table_ok t →
  table_ok (snd (alloc_pipe t)) ∧
  match fst (alloc_pipe t) with
  | Some id => PIPE_TABLE t !! id = Some None ∧ PIPE_TABLE (snd (alloc_pipe t)) !! id = Some (Some new)
  | None => Forall (fun o => o ≠ None) (PIPE_TABLE t) ∧ snd (alloc_pipe t) = t
  end.
Proof.
  intros Hok. unfold alloc_pipe. pose proof (first_free_spec (PIPE_TABLE t) 0) as Hf.
  destruct (first_free (PIPE_TABLE t) 0) as [j|]; [|done].
  destruct Hf as (k & -> & Hk). cbn [fst snd PIPE_TABLE]. simpl Nat.add.
  pose proof Hok as (H1 & H2 & H3). assert (k < length (PIPE_TABLE t))%nat by (by eapply lookup_lt_Some).
  split; [|split; [done|by rewrite list_lookup_insert_eq]].
  apply table_ok_store; [done|lia|]. cbn [fst snd slot_ok]. split; [simpl; lia|].
  split; [simpl; lia|]. split; [apply pipe_new_wf|]. simpl. split; [split; done|]. split; [split; done|]. lia.
Qed.

(** The end of both close operations: the closed pipe goes back to its slot,
    or the slot is released. *)
Lemma finish_close (t : Table) (id : nat) (o : option Pipe) (n w : Z) (f : Pipe → list nat * Pipe) :
  PIPE_TABLE t !! id = Some o → PIPE_REFS t !! id = Some (n, w) →
  (let! r2 := with_pipe t id (fun p => Ret (f p)) in
   let '(ws, t2) := r2 in
   let! t3 := try_free t2 id in
   Ret (default [] ws, t3)) =
  Ret (match o with Some p => fst (f p) | None => [] end,
       mkTable (<[id := if (n =? 0) && (w =? 0) then None else snd ∘ f <$> o]> (PIPE_TABLE t))
         (PIPE_REFS t)).
Proof.
  intros Ho Hr. assert (id < length (PIPE_TABLE t))%nat as Hid by (by eapply lookup_lt_Some).
  assert (index (PIPE_TABLE t) (Z.of_nat id) = Ret o) as Hi.
  { unfold index. rewrite decide_True by lia. by rewrite Nat2Z.id, Ho. }
  assert (∀ tb, length tb = length (PIPE_TABLE t) → try_free (mkTable tb (PIPE_REFS t)) id =
    Ret (mkTable (if (n =? 0) && (w =? 0) then <[id := None]> tb else tb) (PIPE_REFS t))) as Hfree.
  { intros tb Htb. unfold try_free, index at 1. cbn [PIPE_TABLE PIPE_REFS].
    rewrite decide_True by lia. rewrite Nat2Z.id, Hr. cbn [exec_bind fst snd].
    destruct (_ && _); [|done]. rewrite index_set_in by lia. by rewrite Nat2Z.id. }
  unfold with_pipe. rewrite Hi. cbn [exec_bind]. destruct o as [p|]; cbn [exec_bind].
  - destruct (f p) as [ws p'] eqn:E. cbn [exec_bind]. rewrite Hfree by (by rewrite length_insert). cbn [exec_bind].
    simpl. rewrite E. simpl. destruct (_ && _); [|done]. by rewrite list_insert_insert_eq.
  - destruct t as [tb rf]. cbn [PIPE_TABLE PIPE_REFS] in *. rewrite (Hfree tb) by done. cbn [exec_bind].
    simpl. destruct (_ && _); [done|]. by rewrite list_insert_id.
Qed.

Lemma less_one (r : Z) : 0 <= r < 2 ^ 64 →
  ∃ n, (if 0 <? r then r - 1 else r) = n ∧ n = Z.max 0 (r - 1) ∧ 0 <= n < 2 ^ 64.
Proof. intros Hr. eexists. split; [done|]. destruct (Z.ltb_spec 0 r); lia. Qed.

(** Closing an end: one reference less; the end is marked closed with the
    last one, and the slot is released when neither end has a reference. *)
Definition after_close (o : option Pipe) (n w : Z) (last : bool) (f : Pipe → list nat * Pipe)
  : option Pipe :=
  if last then (if (n =? 0) && (w =? 0) then None else snd ∘ f <$> o) else o.

Lemma close_read_spec (t : Table) (id : nat) (o : option Pipe) (r w : Z) :
  table_ok t → PIPE_TABLE t !! id = Some o → PIPE_REFS t !! id = Some (r, w) →
  let n := Z.max 0 (r - 1) in
  ∃ ws, close_read t id =
    Ret (ws, mkTable (<[id := after_close o n w (n =? 0) close_read_end]> (PIPE_TABLE t))
               (<[id := (n, w)]> (PIPE_REFS t))) ∧
    slot_ok (after_close o n w (n =? 0) close_read_end) (n, w).
Proof.
  intros (H1 & H2 & H3) Ho Hr. pose proof (H3 _ _ _ Ho Hr) as (Hr0 & Hw0 & Hs).
  cbn [fst snd] in *. destruct (less_one r Hr0) as (n & Hn & Hnm & Hn0). rewrite <- Hnm. cbv zeta.
  assert (id < length (PIPE_REFS t))%nat as Hid by (by eapply lookup_lt_Some).
  unfold close_read, index. rewrite decide_True by lia. rewrite Nat2Z.id, Hr.
  cbn [exec_bind fst snd]. rewrite Hn. destruct (Z.eqb_spec n 0) as [Hz|Hnz].
  - rewrite (finish_close _ id o n w) by (simpl; rewrite ?list_lookup_insert_eq by done; done).
    unfold after_close. rewrite (proj2 (Z.eqb_eq n 0) Hz). eexists. split; [done|]. simpl.
    destruct (Z.eqb_spec w 0); [split; [simpl; lia|]; split; [simpl; lia|simpl; lia]|].
    destruct o as [p|]; [|lia]. simpl. destruct Hs as (Hwf & Hrc & Hwc & Hnb).
    split; [simpl; lia|]. split; [simpl; lia|]. split; [by destruct Hwf as (?&?&?&?)|].
    cbn [fst snd read_closed write_closed]. split; [by split|]. split; [done|lia].
  - unfold after_close. eexists.
    split; [by rewrite (list_insert_id (PIPE_TABLE t) id o)|]. split; [simpl; lia|]. split; [simpl; lia|].
    destruct o as [p|]; [|lia]. cbn [fst snd].
    destruct Hs as (Hwf & Hrc & Hwc & Hnb). split; [done|]. split; [rewrite Hrc; lia|]. split; [done|lia].
Qed.

Lemma close_write_spec (t : Table) (id : nat) (o : option Pipe) (r w : Z) :
  table_ok t → PIPE_TABLE t !! id = Some o → PIPE_REFS t !! id = Some (r, w) →
  let n := Z.max 0 (w - 1) in
  ∃ ws, close_write t id =
    Ret (ws, mkTable (<[id := after_close o r n (n =? 0) close_write_end]> (PIPE_TABLE t))
               (<[id := (r, n)]> (PIPE_REFS t))) ∧
    slot_ok (after_close o r n (n =? 0) close_write_end) (r, n).
Proof.
  intros (H1 & H2 & H3) Ho Hr. pose proof (H3 _ _ _ Ho Hr) as (Hr0 & Hw0 & Hs).
  cbn [fst snd] in *. destruct (less_one w Hw0) as (n & Hn & Hnm & Hn0). rewrite <- Hnm. cbv zeta.
  assert (id < length (PIPE_REFS t))%nat as Hid by (by eapply lookup_lt_Some).
  unfold close_write, index. rewrite decide_True by lia. rewrite Nat2Z.id, Hr.
  cbn [exec_bind fst snd]. rewrite Hn. destruct (Z.eqb_spec n 0) as [Hz|Hnz].
  - rewrite (finish_close _ id o r n) by (simpl; rewrite ?list_lookup_insert_eq by done; done).
    unfold after_close. rewrite (proj2 (Z.eqb_eq n 0) Hz). eexists. split; [done|].
    rewrite andb_true_r.
    destruct (Z.eqb_spec r 0); [split; [simpl; lia|]; split; [simpl; lia|simpl; lia]|].
    destruct o as [p|]; [|lia]. simpl. destruct Hs as (Hwf & Hrc & Hwc & Hnb).
    split; [simpl; lia|]. split; [simpl; lia|]. split; [by destruct Hwf as (?&?&?&?)|].
    cbn [fst snd read_closed write_closed]. split; [done|]. split; [by split|lia].
  - unfold after_close. eexists.
    split; [by rewrite (list_insert_id (PIPE_TABLE t) id o)|]. split; [simpl; lia|]. split; [simpl; lia|].
    destruct o as [p|]; [|lia]. cbn [fst snd].
    destruct Hs as (Hwf & Hrc & Hwc & Hnb). split; [done|]. split; [done|].
    split; [rewrite Hwc; lia|lia].
Qed.

(** ** Histories of the table *)

(** [sys_read] and [sys_write] on a pipe, and blocking on it. *)
Definition use_read (buf len : Z) (p : Pipe) : exec (Z * effects * Pipe) :=
  read p buf len.
Definition use_write (mem : Z → Z) (buf len : Z) (p : Pipe) : exec (Z * effects * Pipe) :=
  write mem p buf len.

(** An end is duplicated by someone who holds it. *)
Inductive tstep : Table → Table → Prop :=
| t_alloc t : tstep t (snd (alloc_pipe t))
| t_inc_read t t' id r w : PIPE_REFS t !! id = Some (r, w) → 0 < r < USIZE_MAX →
    inc_read t id = Ret t' → tstep t t'
| t_inc_write t t' id r w : PIPE_REFS t !! id = Some (r, w) → 0 < w < USIZE_MAX →
    inc_write t id = Ret t' → tstep t t'
| t_close_read t t' id ws : close_read t id = Ret (ws, t') → tstep t t'
| t_close_write t t' id ws : close_write t id = Ret (ws, t') → tstep t t'
| t_read t t' id buf len x : 0 < buf → 0 < len →
    with_pipe t id (use_read buf len) = Ret (x, t') → tstep t t'
| t_write t t' id mem buf len x : 0 < buf → 0 < len →
    with_pipe t id (use_write mem buf len) = Ret (x, t') → tstep t t'
| t_block_reader t t' id q x :
    with_pipe t id (fun p => Ret (tt, set_reader_blocked p q)) = Ret (x, t') → tstep t t'
| t_block_writer t t' id q x :
    with_pipe t id (fun p => Ret (tt, set_writer_blocked p q)) = Ret (x, t') → tstep t t'.

(** Using the pipe in a slot keeps the table consistent when it keeps the
    pipe well formed and its closed flags. *)
Lemma with_pipe_ok {R : Type} (t t' : Table) (id : nat) (f : Pipe → exec (R * Pipe)) x :
  table_ok t → with_pipe t id f = Ret (x, t') →
  (∀ p y p', wf p → f p = Ret (y, p') →
     wf p' ∧ read_closed p' = read_closed p ∧ write_closed p' = write_closed p) →
  table_ok t'.
Proof.
  intros Hok Hw Hf. unfold with_pipe, index in Hw. rewrite decide_True in Hw by lia.
  rewrite Nat2Z.id in Hw. destruct (PIPE_TABLE t !! id) as [o|] eqn:Ho; [|done].
  cbn [exec_bind] in Hw. destruct o as [p|]; [|by simplify_eq].
  destruct (f p) as [[y p']|] eqn:Hp; [|done]. cbn [exec_bind] in Hw. simplify_eq.
  pose proof Hok as (H1 & H2 & H3).
  assert (id < MAX_PIPES)%nat as Hid by (apply lookup_lt_Some in Ho; lia).
  destruct (lookup_lt_is_Some_2 (PIPE_REFS t) id) as [rw Hrw]; [lia|].
  rewrite <- (list_insert_id (PIPE_REFS t) id rw) by done.
  apply table_ok_store; [done|done|]. destruct (H3 _ _ _ Ho Hrw) as (Hr & Hw' & Hwf & Hrest).
  destruct (Hf p y p' Hwf Hp) as (Hwf' & E1 & E2). split; [done|]. split; [done|].
  split; [done|]. by rewrite E1, E2.
Qed.

Lemma index_Ret {A : Type} (a : list A) (id : nat) (x : A) :
  index a (Z.of_nat id) = Ret x ↔ a !! id = Some x.
Proof.
  unfold index. rewrite decide_True by lia. rewrite Nat2Z.id.
  destruct (a !! id); split; intros; by simplify_eq.
Qed.

Lemma inc_ok (t : Table) (id : nat) (r w r' w' : Z) :
  table_ok t → PIPE_REFS t !! id = Some (r, w) →
  0 <= r' < 2 ^ 64 → 0 <= w' < 2 ^ 64 → (r' = 0 ↔ r = 0) → (w' = 0 ↔ w = 0) →
  table_ok (mkTable (PIPE_TABLE t) (<[id := (r', w')]> (PIPE_REFS t))).
Proof.
  intros Hok Hr Hr' Hw' E1 E2. pose proof Hok as (H1 & H2 & H3).
  assert (id < MAX_PIPES)%nat as Hid by (apply lookup_lt_Some in Hr; lia).
  destruct (lookup_lt_is_Some_2 (PIPE_TABLE t) id) as [o Ho]; [lia|].
  rewrite <- (list_insert_id (PIPE_TABLE t) id o) by done.
  apply table_ok_store; [done|done|]. destruct (H3 _ _ _ Ho Hr) as (_ & _ & Hs).
  split; [done|]. split; [done|]. destruct o; cbn [fst snd] in *; by rewrite E1, E2.
Qed.

Lemma tstep_ok (t t' : Table) : table_ok t → tstep t t' → table_ok t'.
Proof.
  intros Hok Hs. pose proof Hok as (H1 & H2 & H3).
  inversion Hs as [|? ? id r w Hr Hb He|? ? id r w Hr Hb He|? ? id ws He|? ? id ws He
    |? ? id buf len x Hb Hl He|? ? id mem buf len x Hb Hl He|? ? id q x He|? ? id q x He]; subst.
  - by apply alloc_pipe_spec.
  - unfold inc_read in He. apply index_Ret in Hr as Hi. rewrite Hi in He. cbn [exec_bind] in He.
    simplify_eq. cbn [fst snd]. unfold USIZE_MAX in Hb.
    rewrite u64_small by lia. pose proof (H3 id) as Hid.
    destruct (lookup_lt_is_Some_2 (PIPE_TABLE t) id) as [o Ho]; [apply lookup_lt_Some in Hr; lia|].
    destruct (Hid _ _ Ho Hr) as (_ & Hw & _). cbn [snd] in Hw. apply (inc_ok t id r w); try done; lia.
  - unfold inc_write in He. apply index_Ret in Hr as Hi. rewrite Hi in He. cbn [exec_bind] in He.
    simplify_eq. cbn [fst snd]. unfold USIZE_MAX in Hb.
    rewrite u64_small by lia. pose proof (H3 id) as Hid.
    destruct (lookup_lt_is_Some_2 (PIPE_TABLE t) id) as [o Ho]; [apply lookup_lt_Some in Hr; lia|].
    destruct (Hid _ _ Ho Hr) as (Hw & _ & _). cbn [fst] in Hw. apply (inc_ok t id r w); try done; lia.
  - destruct (PIPE_REFS t !! id) as [[r w]|] eqn:Hr.
    2:{ unfold close_read, index in He. rewrite decide_True, Nat2Z.id, Hr in He by lia. done. }
    assert (id < MAX_PIPES)%nat as Hid by (apply lookup_lt_Some in Hr; lia).
    destruct (lookup_lt_is_Some_2 (PIPE_TABLE t) id) as [o Ho]; [lia|].
    destruct (close_read_spec t id o r w Hok Ho Hr) as (ws' & E & Hslot). rewrite E in He.
    simplify_eq. by apply table_ok_store.
  - destruct (PIPE_REFS t !! id) as [[r w]|] eqn:Hr.
    2:{ unfold close_write, index in He. rewrite decide_True, Nat2Z.id, Hr in He by lia. done. }
    assert (id < MAX_PIPES)%nat as Hid by (apply lookup_lt_Some in Hr; lia).
    destruct (lookup_lt_is_Some_2 (PIPE_TABLE t) id) as [o Ho]; [lia|].
    destruct (close_write_spec t id o r w Hok Ho Hr) as (ws' & E & Hslot). rewrite E in He.
    simplify_eq. by apply table_ok_store.
  - eapply with_pipe_ok; [done|exact He|]. intros p y p' Hwf Hp. unfold use_read in Hp.
    destruct (read_spec p buf len Hwf Hb Hl) as (n & e & p1 & E & G1 & G2 & G3 & _).
    rewrite E in Hp. by simplify_eq.
  - eapply with_pipe_ok; [done|exact He|]. intros p y p' Hwf Hp. unfold use_write in Hp.
    destruct (write_spec mem p buf len Hwf Hb Hl) as (n & e & p1 & E & G1 & G2 & G3 & _).
    rewrite E in Hp. by simplify_eq.
  - eapply with_pipe_ok; [done|exact He|]. intros p y p' (?&?&?&?) Hp. by simplify_eq.
  - eapply with_pipe_ok; [done|exact He|]. intros p y p' (?&?&?&?) Hp. by simplify_eq.
Qed.

(** In every history of allocations, duplications, closes, reads and
    writes: a slot is in use exactly while some end has a reference, a reader
    sees end of file (the write end is closed) exactly when the last write
    reference is gone, a writer sees [EPIPE] exactly when the last read
    reference is gone, and the pipe in the slot is well formed. *)
Theorem pipe_refcounts (t : Table) (id : nat) (o : option Pipe) (r w : Z) :
  reachable (eq table_init) tstep t →
  PIPE_TABLE t !! id = Some o → PIPE_REFS t !! id = Some (r, w) →
  (o = None ↔ r = 0 ∧ w = 0) ∧
  ∀ p, o = Some p → wf p ∧ (write_closed p = true ↔ w = 0) ∧ (read_closed p = true ↔ r = 0).
Proof.
  intros Hreach Ho Hr.
  assert (table_ok t) as (_ & _ & H3).
  { revert Hreach. apply reachable_invariant; [intros s <-; apply table_init_ok|].
    intros; by eapply tstep_ok. }
  destruct (H3 _ _ _ Ho Hr) as (_ & _ & Hs). cbn [fst snd] in Hs. destruct o as [p|].
  - destruct Hs as (Hwf & Hrc & Hwc & Hnb). split; [split; [done|tauto]|].
    intros p' [= ->]. done.
  - split; [done|]. intros p' [=].
Qed.

(** A pipe whose write end was duplicated: closing one of the two write
    references leaves it open. *)
Lemma pipe_refcounts_witness :
  ∃ t1 ws t2 p, inc_write (snd (alloc_pipe table_init)) 0 = Ret t1 ∧
    close_write t1 0 = Ret (ws, t2) ∧ PIPE_TABLE t2 !! 0%nat = Some (Some p) ∧
    write_closed p ≠ true.
Proof.
  set (t0 := snd (alloc_pipe table_init)).
  assert (inc_write t0 0 = Ret (mkTable (PIPE_TABLE t0) (<[0%nat := (1, 2)]> (PIPE_REFS t0)))) as E1
    by reflexivity.
  set (t1 := mkTable _ _) in E1.
  set (t2 := mkTable (PIPE_TABLE t1) (<[0%nat := (1, 1)]> (PIPE_REFS t1))).
  assert (close_write t1 0 = Ret ([], t2)) as E2 by reflexivity.
  assert (PIPE_TABLE t2 !! 0%nat = Some (Some new)) as Ho by reflexivity.
  exists t1, [], t2, new. split; [done|]. split; [done|]. split; [done|].
  assert (reachable (eq table_init) tstep t2) as Hreach.
  { eapply reach_step; [|exact (t_close_write t1 t2 0 [] E2)].
    eapply reach_step; [|apply (t_inc_write t0 t1 0 1 1); [reflexivity|unfold USIZE_MAX; lia|exact E1]].
    eapply reach_step; [by apply reach_init|apply t_alloc]. }
  destruct (pipe_refcounts t2 0 (Some new) 1 1 Hreach Ho eq_refl) as [_ H].
  destruct (H new eq_refl) as (_ & Hw & _). intros Hc. apply Hw in Hc. discriminate.
Defined.

End Pipe.
