(* ===== verification/Tty.v ===== *)
(** Terminal input ([kernel/src/driver/tty.rs]): the input ring buffer, the
    line editor of canonical mode and raw mode.

    The ring has one empty slot between head and tail, so it holds 4095 bytes.
    Echoed bytes, tasks passed to [wake_task] and calls of
    [wake_waiters_for_fd] are part of an operation's result. *)

From stdpp Require Import base numbers list.
From S2P Require Import Prelude Ring.
Import Ring.
Local Open Scope Z_scope.
Local Open Scope rust_scope.

Module Tty.

Definition TTY_BUF_SIZE : Z := 4096.
Definition TTY_BUF_MASK : Z := TTY_BUF_SIZE - 1.
Definition TTY_LINE_SIZE : Z := 512.

Record RingBuffer := mkRing {
  data : list Z;
  head : Z;
  tail : Z;
}.

Definition ring_new : RingBuffer := mkRing (replicate (Z.to_nat TTY_BUF_SIZE) 0) 0 0.

Definition ring_push (r : RingBuffer) (byte : Z) : exec (bool * RingBuffer) :=
  let next_head := Z.land (head r +! 1) TTY_BUF_MASK in
  if next_head =? tail r then Ret (false, r)
  else
    let! d := index_set (data r) (head r) byte in
    Ret (true, mkRing d next_head (tail r)).

Definition ring_pop (r : RingBuffer) : exec (option Z * RingBuffer) :=
  if tail r =? head r then Ret (None, r)
  else
    let! byte := index (data r) (tail r) in
    Ret (Some byte, mkRing (data r) (head r) (Z.land (tail r +! 1) TTY_BUF_MASK)).

Definition ring_len (r : RingBuffer) : Z := Z.land (head r -! tail r) TTY_BUF_MASK.

Record LineEditor := mkLine {
  buf : list Z;
  len : Z;
}.

Definition line_new : LineEditor := mkLine (replicate (Z.to_nat TTY_LINE_SIZE) 0) 0.

Definition line_clear (l : LineEditor) : LineEditor := mkLine (buf l) 0.

Definition line_push (l : LineEditor) (c : Z) : exec (bool * LineEditor) :=
  if TTY_LINE_SIZE - 1 <=? len l then Ret (false, l)
  else
    let! b := index_set (buf l) (len l) c in
    Ret (true, mkLine b (len l + 1)).

Definition line_pop (l : LineEditor) : bool * LineEditor :=
  if len l =? 0 then (false, l) else (true, mkLine (buf l) (len l - 1)).

Record Tty := mkTty {
  input : RingBuffer;
  line : LineEditor;
  raw : bool;
  echo_on : bool;
  waiting : option nat;
}.

Definition init_state : Tty := mkTty ring_new line_new false true None.

Definition with_input (t : Tty) (r : RingBuffer) : Tty :=
  mkTty r (line t) (raw t) (echo_on t) (waiting t).
Definition with_line (t : Tty) (l : LineEditor) : Tty :=
  mkTty (input t) l (raw t) (echo_on t) (waiting t).

Record effects := mkEff {
  echoed : list Z;
  woken : list nat;
  epoll_wakes : nat;
}.

Definition none : effects := mkEff [] [] 0.
Definition say (bs : list Z) : effects := mkEff bs [] 0.
Definition join (a b : effects) : effects :=
  mkEff (echoed a ++ echoed b) (woken a ++ woken b) (epoll_wakes a + epoll_wakes b).

Definition has_input (t : Tty) : bool := 0 <? ring_len (input t).

Inductive TtyMode := Canonical | Raw.

Definition set_mode (t : Tty) (m : TtyMode) : Tty :=
  match m with
  | Canonical => mkTty (input t) (line t) false true (waiting t)
  | Raw => mkTty (input t) (line_clear (line t)) true false (waiting t)
  end.

Definition get_mode (t : Tty) : TtyMode := if raw t then Raw else Canonical.

Definition set_echo (t : Tty) (enabled : bool) : Tty :=
  mkTty (input t) (line t) (raw t) enabled (waiting t).

Definition wake_input_waiters (t : Tty) : effects * Tty :=
  (mkEff [] (match waiting t with Some w => [w] | None => [] end) 1,
   mkTty (input t) (line t) (raw t) (echo_on t) None).

Definition on_char_raw (t : Tty) (c : Z) : exec (effects * Tty) :=
  let! r := ring_push (input t) c in
  let '(ok, ring) := r in
  let t := with_input t ring in
  if ok then Ret (wake_input_waiters t) else Ret (none, t).

(** The loop of Enter over the line: [n] bytes from [i], stopping when the
    ring is full. *)
Fixpoint commit_loop (ring : RingBuffer) (l : LineEditor) (i : Z) (n : nat) : exec RingBuffer :=
  match n with
  | O => Ret ring
  | S n' =>
      let! c := index (buf l) i in
      let! r := ring_push ring c in
      let '(ok, ring') := r in
      if ok then commit_loop ring' l (i + 1) n' else Ret ring'
  end.

Definition erase : list Z := [8; 32; 8].

(** The two loops of Ctrl+W: pop while the last character is ([blank = true])
    or is not ([blank = false]) a space. *)
Fixpoint trim_loop (blank : bool) (n : nat) (l : LineEditor) (out : list Z)
  : exec (list Z * LineEditor) :=
  match n with
  | O => Ret (out, l)
  | S n' =>
      if 0 <? len l then
        let! c := index (buf l) (len l - 1) in
        if eqb (c =? 32) blank then trim_loop blank n' (snd (line_pop l)) (out ++ erase)
        else Ret (out, l)
      else Ret (out, l)
  end.

Definition on_char_canonical (t : Tty) (c : Z) : exec (effects * Tty) :=
  let l := line t in
  if c =? 3 then
    let t := with_line t (line_clear l) in
    let! r := ring_push (input t) 10 in
    let '(e, t) := wake_input_waiters (with_input t (snd r)) in
    Ret (join (say [94; 67; 13; 10]) e, t)
  else if (c =? 8) || (c =? 127) then
    let '(ok, l') := line_pop l in
    Ret (if ok then say erase else none, with_line t l')
  else if (c =? 13) || (c =? 10) then
    let! ring := commit_loop (input t) l 0 (Z.to_nat (len l)) in
    let! r := ring_push ring 10 in
    let t := with_line (with_input t (snd r)) (line_clear l) in
    let '(e, t) := wake_input_waiters t in
    Ret (join (say [13; 10]) e, t)
  else if (32 <=? c) && (c <=? 126) then
    let! r := line_push l c in
    let '(ok, l') := r in
    Ret (if ok then say [c] else none, with_line t l')
  else if c =? 4 then
    if len l =? 0 then Ret (wake_input_waiters t) else Ret (none, t)
  else if c =? 12 then Ret (say [27; 91; 50; 74; 27; 91; 72], t)
  else if c =? 21 then
    Ret (say (concat (replicate (Z.to_nat (len l)) erase)), with_line t (line_clear l))
  else if c =? 23 then
    let! r1 := trim_loop true (Z.to_nat (len l)) l [] in
    let '(out, l1) := r1 in
    let! r2 := trim_loop false (Z.to_nat (len l1)) l1 out in
    let '(out', l2) := r2 in
    Ret (say out', with_line t l2)
  else Ret (none, t).

Definition on_char (t : Tty) (c : Z) : exec (effects * Tty) :=
  if raw t then on_char_raw t c else on_char_canonical t c.

Definition feed_byte (t : Tty) (c : Z) : exec (effects * Tty) := on_char t c.

(** [read_available]: up to [n] bytes from offset [i]; the user writes. *)
Fixpoint read_available (t : Tty) (ubuf i : Z) (n : nat) : exec (list (Z * Z) * Tty) :=
  match n with
  | O => Ret ([], t)
  | S n' =>
      let! r := ring_pop (input t) in
      match r with
      | (Some c, ring) =>
          let! rest := read_available (with_input t ring) ubuf (i + 1) n' in
          Ret ((ubuf +! i, c) :: fst rest, snd rest)
      | (None, ring) => Ret ([], with_input t ring)
      end
  end.

Definition read (t : Tty) (ubuf n : Z) : exec (list (Z * Z) * Tty) :=
  if (n =? 0) || (ubuf =? 0) then Ret ([], t) else read_available t ubuf 0 (Z.to_nat n).

(** ** The line discipline on lists *)

Definition capacity : nat := Z.to_nat 4095.

(** Bytes that do not fit are dropped. *)
Definition enqueue (q bs : list Z) : list Z := q ++ take (capacity - length q) bs.

(** Drop the longest suffix of characters that are spaces, or that are not. *)
Fixpoint drop_front (blank : bool) (l : list Z) : list Z :=
  match l with
  | c :: l' => if eqb (c =? 32) blank then drop_front blank l' else l
  | [] => []
  end.
Definition drop_end (blank : bool) (l : list Z) : list Z := reverse (drop_front blank (reverse l)).

(** What a character does to the input queue [q] and the edited line [l]. *)
Definition discipline (is_raw : bool) (q l : list Z) (c : Z) : list Z * list Z :=
  if is_raw then (enqueue q [c], l)
  else if c =? 3 then (enqueue q [10], [])
  else if (c =? 8) || (c =? 127) then (q, take (length l - 1) l)
  else if (c =? 13) || (c =? 10) then (enqueue q (l ++ [10]), [])
  else if (32 <=? c) && (c <=? 126) then (q, if decide (Z.of_nat (length l) < 511) then l ++ [c] else l)
  else if c =? 21 then (q, [])
  else if c =? 23 then (q, drop_end false (drop_end true l))
  else (q, l).

(** ** The ring holds a queue *)

Definition queue (r : RingBuffer) : list Z := window (data r) (tail r) (Z.to_nat (ring_len r)).

Definition ring_ok (r : RingBuffer) : Prop :=
  length (data r) = Z.to_nat TTY_BUF_SIZE ∧ 0 <= head r < TTY_BUF_SIZE ∧ 0 <= tail r < TTY_BUF_SIZE.

Lemma mask_mod (x : Z) : Z.land x TTY_BUF_MASK = x mod TTY_BUF_SIZE.
Proof. apply (Z.land_ones x 12). lia. Qed.

Lemma ring_len_eq (r : RingBuffer) :
  ring_ok r → ring_len r = (head r - tail r) mod TTY_BUF_SIZE.
Proof.
  intros (_ & Hh & Ht). unfold ring_len. rewrite mask_mod. unfold u64, wrap, TTY_BUF_SIZE in *.
  rewrite Z.mod_mod_divide; [done|]. exists (2 ^ 52). lia.
Qed.

Lemma queue_length (r : RingBuffer) : length (queue r) = Z.to_nat (ring_len r).
Proof. apply window_length. Qed.

(** Length arithmetic modulo the buffer size. *)
Lemma ring_len_range (r : RingBuffer) : ring_ok r → 0 <= ring_len r < TTY_BUF_SIZE.
Proof. intros Hr. rewrite ring_len_eq by done. by apply Z.mod_pos_bound. Qed.

Lemma ring_head (r : RingBuffer) :
  ring_ok r → head r = (tail r + ring_len r) mod TTY_BUF_SIZE.
Proof.
  intros Hr. rewrite ring_len_eq by done. destruct Hr as (_ & Hh & Ht).
  rewrite Zplus_mod_idemp_r. replace (tail r + (head r - tail r)) with (head r) by lia.
  by rewrite Z.mod_small.
Qed.

Lemma ring_push_spec (r : RingBuffer) (b : Z) :
  ring_ok r →
  ∃ ok r', ring_push r b = Ret (ok, r') ∧ ring_ok r' ∧ queue r' = enqueue (queue r) [b] ∧
    (ok = true ↔ (length (queue r) < capacity)%nat).
Proof.
  intros Hr. pose proof Hr as (Hl & Hh & Ht). pose proof (ring_len_range r Hr) as Hn.
  pose proof (ring_head r Hr) as Hhd. unfold ring_push, enqueue, capacity. rewrite queue_length.
  assert (head r +! 1 = head r + 1) as -> by (apply u64_small; unfold TTY_BUF_SIZE in Hh; lia).
  rewrite mask_mod. set (n := ring_len r) in *.
  assert ((head r + 1) mod TTY_BUF_SIZE = (tail r + (n + 1)) mod TTY_BUF_SIZE) as Hnext.
  { rewrite Hhd, Zplus_mod_idemp_l. f_equal. lia. }
  destruct (decide (n = 4095)) as [Hfull|Hroom].
  - assert ((head r + 1) mod TTY_BUF_SIZE = tail r) as ->.
    { rewrite Hnext, Hfull. unfold TTY_BUF_SIZE in *.
      replace (tail r + (4095 + 1)) with (tail r + 1 * 4096) by lia.
      rewrite Z_mod_plus_full. by apply Z.mod_small. }
    rewrite Z.eqb_refl. exists false, r. split; [done|]. split; [done|]. rewrite Hfull.
    rewrite Nat.sub_diag. simpl. rewrite app_nil_r. split; [done|]. split; [done|lia].
  - assert (n < 4095) as Hlt by (unfold TTY_BUF_SIZE in Hn; lia).
    assert ((head r + 1) mod TTY_BUF_SIZE ≠ tail r) as Hne.
    { rewrite Hnext. unfold TTY_BUF_SIZE in *. Z.to_euclidean_division_equations. lia. }
    rewrite (proj2 (Z.eqb_neq _ _) Hne).
    rewrite index_set_in by (rewrite Hl; unfold TTY_BUF_SIZE in *; lia). cbn [exec_bind].
    set (r' := mkRing _ _ _). exists true, r'. split; [done|].
    assert (ring_ok r') as Hr'.
    { split; [unfold r'; cbn [data]; by rewrite length_insert|]. split; [by apply Z.mod_pos_bound|done]. }
    assert (ring_len r' = n + 1) as Hlen'.
    { rewrite ring_len_eq by done. unfold r'. cbn [head tail]. rewrite Hnext, Zminus_mod_idemp_l.
      replace (tail r + (n + 1) - tail r) with (n + 1) by lia. apply Z.mod_small.
      unfold TTY_BUF_SIZE. lia. }
    split; [done|]. split; [|split; [intros _; lia|done]].
    rewrite (take_ge [b]) by (simpl; lia). unfold queue. rewrite Hlen'. unfold r'. cbn [data tail].
    replace (Z.to_nat (n + 1)) with (S (Z.to_nat n)) by lia. rewrite Hhd.
    replace n with (Z.of_nat (Z.to_nat n)) at 1 by lia.
    replace TTY_BUF_SIZE with (Z.of_nat (length (data r))) at 1 by (rewrite Hl; done).
    apply window_back; rewrite Hl; unfold TTY_BUF_SIZE in *; lia.
Qed.

Lemma ring_pop_spec (r : RingBuffer) :
  ring_ok r →
  match queue r with
  | [] => ring_pop r = Ret (None, r)
  | b :: q => ∃ r', ring_pop r = Ret (Some b, r') ∧ ring_ok r' ∧ queue r' = q
  end.
Proof.
  intros Hr. pose proof Hr as (Hl & Hh & Ht). pose proof (ring_len_range r Hr) as Hn.
  pose proof (ring_len_eq r Hr) as Heq. unfold ring_pop.
  destruct (Z.eqb_spec (tail r) (head r)) as [Hth|Hth].
  - assert (ring_len r = 0) as Hz by (rewrite Heq, Hth, Z.sub_diag; done).
    unfold queue. rewrite Hz. done.
  - assert (ring_len r ≠ 0) as Hnz.
    { rewrite Heq. intros Hz. apply Hth. unfold TTY_BUF_SIZE in *.
      Z.to_euclidean_division_equations. lia. }
    destruct (index_in (data r) (tail r)) as (b & Hb & ->); [rewrite Hl; unfold TTY_BUF_SIZE in *; lia|].
    cbn [exec_bind]. set (r' := mkRing (data r) (head r) _).
    assert (tail r +! 1 = tail r + 1) as Ht1 by (apply u64_small; unfold TTY_BUF_SIZE in Ht; lia).
    assert (ring_ok r') as Hr'.
    { split; [done|]. split; [done|]. unfold r'. cbn [tail]. rewrite mask_mod.
      by apply Z.mod_pos_bound. }
    assert (ring_len r' = ring_len r - 1) as Hlen'.
    { rewrite ring_len_eq by done. unfold r'. cbn [head tail]. rewrite mask_mod, Ht1, Zminus_mod_idemp_r.
      replace (head r - (tail r + 1)) with (head r - tail r - 1) by lia.
      rewrite <- Zminus_mod_idemp_l, <- Heq. apply Z.mod_small. lia. }
    assert (queue r = b :: queue r') as ->.
    { unfold queue. rewrite Hlen'. replace (Z.to_nat (ring_len r)) with (S (Z.to_nat (ring_len r - 1))) by lia.
      assert (Z.of_nat (length (data r)) = TTY_BUF_SIZE) as HN by (rewrite Hl; done).
      rewrite (window_front (data r) (tail r) _ b) by (rewrite ?HN; done).
      unfold r'. cbn [data tail]. by rewrite mask_mod, Ht1, HN. }
    by exists r'.
Qed.

Lemma enqueue_enqueue (q a b : list Z) : enqueue (enqueue q a) b = enqueue q (a ++ b).
Proof.
  unfold enqueue. rewrite <- app_assoc. f_equal. rewrite take_app. f_equal.
  rewrite length_app, length_take.
  destruct (decide (capacity - length q <= length a)%nat).
  - replace (capacity - (length q + (capacity - length q) `min` length a))%nat with 0%nat by lia.
    replace (capacity - length q - length a)%nat with 0%nat by lia. done.
  - f_equal. lia.
Qed.

Lemma enqueue_full (q bs : list Z) : (capacity <= length q)%nat → enqueue q bs = q.
Proof.
  intros H. unfold enqueue. replace (capacity - length q)%nat with 0%nat by lia. by rewrite app_nil_r.
Qed.

(** ** The edited line *)

Definition text (l : LineEditor) : list Z := take (Z.to_nat (len l)) (buf l).

Definition line_ok (l : LineEditor) : Prop :=
  length (buf l) = Z.to_nat TTY_LINE_SIZE ∧ 0 <= len l <= 511.

Lemma text_length (l : LineEditor) : line_ok l → Z.of_nat (length (text l)) = len l.
Proof.
  intros [Hl Hn]. unfold text. rewrite length_take, Hl. unfold TTY_LINE_SIZE. lia.
Qed.

Lemma text_snoc (l : LineEditor) :
  line_ok l → 0 < len l →
  ∃ c, index (buf l) (len l - 1) = Ret c ∧ text l = text (snd (line_pop l)) ++ [c] ∧
    line_ok (snd (line_pop l)) ∧ len (snd (line_pop l)) = len l - 1.
Proof.
  intros [Hl Hn] Hp. unfold line_pop. rewrite (proj2 (Z.eqb_neq _ _)) by lia. cbn [snd len].
  destruct (index_in (buf l) (len l - 1)) as (c & Hc & Hi); [rewrite Hl; unfold TTY_LINE_SIZE; lia|].
  exists c. split; [done|]. split; [|split; [|done]].
  - unfold text. cbn [buf len]. replace (Z.to_nat (len l)) with (S (Z.to_nat (len l - 1))) by lia.
    by apply take_S_r.
  - split; [done|]. cbn [len]. lia.
Qed.

Lemma line_push_spec (l : LineEditor) (c : Z) :
  line_ok l →
  ∃ ok l', line_push l c = Ret (ok, l') ∧ line_ok l' ∧
    text l' = if decide (Z.of_nat (length (text l)) < 511) then text l ++ [c] else text l.
Proof.
  intros Hok. pose proof Hok as [Hl Hn]. unfold line_push. rewrite text_length by done.
  change (TTY_LINE_SIZE - 1) with 511. destruct (Z.leb_spec 511 (len l)).
  - exists false, l. rewrite decide_False by lia. done.
  - rewrite index_set_in by (rewrite Hl; unfold TTY_LINE_SIZE; lia). cbn [exec_bind].
    eexists true, _. split; [done|]. split.
    + split; [cbn [buf]; by rewrite length_insert|]. cbn [len]. lia.
    + rewrite decide_True by lia. unfold text. cbn [buf len].
      replace (Z.to_nat (len l + 1)) with (S (Z.to_nat (len l))) by lia.
      rewrite (take_S_r _ _ c).
      * by rewrite take_insert_ge by lia.
      * apply list_lookup_insert_eq. rewrite Hl. unfold TTY_LINE_SIZE. lia.
Qed.

Lemma drop_end_snoc (blank : bool) (l : list Z) (c : Z) :
  drop_end blank (l ++ [c]) = if eqb (c =? 32) blank then drop_end blank l else l ++ [c].
Proof.
  unfold drop_end. rewrite reverse_snoc. simpl. destruct (eqb _ _); [done|].
  by rewrite reverse_cons, reverse_involutive.
Qed.

Lemma trim_loop_spec (blank : bool) (n : nat) : ∀ (l : LineEditor) (out : list Z),
  line_ok l → Z.to_nat (len l) = n →
  ∃ out' l', trim_loop blank n l out = Ret (out', l') ∧ line_ok l' ∧
    text l' = drop_end blank (text l).
Proof.
  induction n as [|n IH]; intros l out Hok Hn; cbn [trim_loop].
  - eexists _, l. split; [done|]. split; [done|]. unfold text. by rewrite Hn.
  - rewrite (proj2 (Z.ltb_lt _ _)) by lia.
    destruct (text_snoc l Hok ltac:(lia)) as (c & -> & Ht & Hok' & Hlen). cbn [exec_bind].
    rewrite Ht, drop_end_snoc. destruct (eqb _ _).
    + apply IH; [done|]. rewrite Hlen. lia.
    + by eexists _, l.
Qed.

Lemma commit_loop_spec (l : LineEditor) (n : nat) : ∀ (r : RingBuffer) (i : Z),
  ring_ok r → 0 <= i → i + Z.of_nat n <= Z.of_nat (length (buf l)) →
  ∃ r', commit_loop r l i n = Ret r' ∧ ring_ok r' ∧
    queue r' = enqueue (queue r) (take n (drop (Z.to_nat i) (buf l))).
Proof.
  induction n as [|n IH]; intros r i Hr Hi Hn; cbn [commit_loop].
  { exists r. split; [done|]. split; [done|]. unfold enqueue. by rewrite take_0, take_nil, app_nil_r. }
  destruct (index_in (buf l) i) as (c & Hc & ->); [lia|]. cbn [exec_bind].
  destruct (ring_push_spec r c Hr) as (ok & r1 & -> & Hr1 & Hq1 & Hok). cbn [exec_bind].
  rewrite (drop_S _ _ _ Hc). cbn [take]. destruct ok.
  - destruct (IH r1 (i + 1) Hr1 ltac:(lia) ltac:(lia)) as (r2 & -> & Hr2 & Hq2).
    exists r2. split; [done|]. split; [done|]. rewrite Hq2, Hq1, enqueue_enqueue. simpl.
    by replace (Z.to_nat (i + 1)) with (S (Z.to_nat i)) by lia.
  - exists r1. split; [done|]. split; [done|]. rewrite Hq1.
    assert (capacity <= length (queue r))%nat as Hfull.
    { destruct (decide (length (queue r) < capacity)%nat) as [Hlt|]; [|lia]. by apply Hok in Hlt. }
    by rewrite !enqueue_full.
Qed.

(** ** The terminal *)

Definition tty_ok (t : Tty) : Prop := ring_ok (input t) ∧ line_ok (line t).

Lemma init_ok : tty_ok init_state.
Proof.
  split.
  - split; [apply length_replicate|]. cbn. unfold TTY_BUF_SIZE. lia.
  - split; [apply length_replicate|]. cbn. lia.
Qed.

Lemma line_clear_ok (l : LineEditor) : line_ok l → line_ok (line_clear l) ∧ text (line_clear l) = [].
Proof. intros [Hl Hn]. split; [split; [done|cbn [line_clear len]; lia]|done]. Qed.

Lemma line_pop_spec (l : LineEditor) :
  line_ok l → line_ok (snd (line_pop l)) ∧
  text (snd (line_pop l)) = take (length (text l) - 1) (text l).
Proof.
  intros Hok. destruct (decide (len l = 0)) as [Hz|Hnz].
  - unfold line_pop. rewrite (proj2 (Z.eqb_eq _ _) Hz). cbn [snd]. split; [done|].
    unfold text. by rewrite Hz.
  - destruct (text_snoc l Hok) as (c & _ & Ht & Hok' & _); [destruct Hok; lia|]. split; [done|].
    rewrite Ht, length_app. simpl. rewrite Nat.add_sub. by rewrite take_app_length.
Qed.

(** A character in canonical mode: state, queue and line afterwards. *)
Lemma on_char_canonical_spec (t : Tty) (c : Z) :
  tty_ok t →
  ∃ e t', on_char_canonical t c = Ret (e, t') ∧ tty_ok t' ∧ raw t' = raw t ∧
    (queue (input t'), text (line t')) = discipline false (queue (input t)) (text (line t)) c.
Proof.
  intros [Hr Hl]. unfold on_char_canonical, discipline. cbv zeta.
  destruct (line_clear_ok _ Hl) as [Hlc Htc].
  destruct (c =? 3).
  { cbn [input with_line]. destruct (ring_push_spec (input t) 10 Hr) as (ok & r' & -> & Hr' & Hq & _).
    cbn [exec_bind snd wake_input_waiters]. eexists _, _. split; [done|]. cbn [input line with_input with_line raw].
    split; [done|]. by rewrite Hq, Htc. }
  destruct ((c =? 8) || (c =? 127)).
  { destruct (line_pop_spec _ Hl) as [Hl' Ht']. destruct (line_pop (line t)) as [ok l']. simpl in *.
    eexists _, _. split; [done|]. split; [done|]. simpl. by rewrite Ht'. }
  destruct ((c =? 13) || (c =? 10)).
  { pose proof Hl as [Hbl Hn].
    destruct (commit_loop_spec (line t) (Z.to_nat (len (line t))) (input t) 0 Hr) as (r1 & -> & Hr1 & Hq1);
      [lia|rewrite Hbl; unfold TTY_LINE_SIZE; lia|]. cbn [exec_bind].
    destruct (ring_push_spec r1 10 Hr1) as (ok & r' & -> & Hr' & Hq & _).
    cbn [exec_bind snd wake_input_waiters]. eexists _, _. split; [done|].
    cbn [input line with_input with_line raw]. split; [done|].
    rewrite Hq, Hq1, enqueue_enqueue, Htc. done. }
  destruct ((32 <=? c) && (c <=? 126)).
  { destruct (line_push_spec (line t) c Hl) as (ok & l' & -> & Hl' & Ht'). cbn [exec_bind].
    eexists _, _. split; [done|]. split; [done|]. cbn [input line with_line raw]. by rewrite Ht'. }
  destruct (c =? 4) eqn:E4.
  { apply Z.eqb_eq in E4. subst c. destruct (len (line t) =? 0); by eexists _, _. }
  destruct (c =? 12) eqn:E12; [apply Z.eqb_eq in E12; subst c; by eexists _, _|].
  destruct (c =? 21).
  { eexists _, _. split; [done|]. split; [done|]. cbn [input line with_line raw]. by rewrite Htc. }
  destruct (c =? 23); [|by eexists _, _].
  destruct (trim_loop_spec true _ (line t) [] Hl eq_refl) as (o1 & l1 & -> & Hl1 & Ht1).
  cbn [exec_bind].
  destruct (trim_loop_spec false _ l1 o1 Hl1 eq_refl) as (o2 & l2 & -> & Hl2 & Ht2).
  cbn [exec_bind]. eexists _, _. split; [done|]. split; [done|].
  cbn [input line with_line raw]. by rewrite Ht2, Ht1.
Qed.

Lemma on_char_spec (t : Tty) (c : Z) :
  tty_ok t →
  ∃ e t', on_char t c = Ret (e, t') ∧ tty_ok t' ∧ raw t' = raw t ∧
    (queue (input t'), text (line t')) = discipline (raw t) (queue (input t)) (text (line t)) c.
Proof.
  intros Ht. unfold on_char. destruct (raw t) eqn:Eraw.
  2:{ destruct (on_char_canonical_spec t c Ht) as (e & t' & H1 & H2 & H3 & H4). rewrite Eraw in H3.
      by exists e, t'. }
  destruct Ht as [Hr Hl]. unfold on_char_raw.
  destruct (ring_push_spec (input t) c Hr) as (ok & r' & -> & Hr' & Hq & _). cbn [exec_bind].
  destruct ok; cbn [wake_input_waiters]; eexists _, _; (split; [done|]);
    cbn [input line with_input raw]; rewrite Hq; done.
Qed.

Lemma read_available_spec (n : nat) : ∀ (t : Tty) (ubuf i : Z),
  tty_ok t →
  ∃ ws t', read_available t ubuf i n = Ret (ws, t') ∧ tty_ok t' ∧
    ws.*2 = take n (queue (input t)) ∧ queue (input t') = drop n (queue (input t)) ∧
    line t' = line t.
Proof.
  induction n as [|n IH]; intros t ubuf i Ht; cbn [read_available].
  { exists [], t. by rewrite drop_0. }
  destruct Ht as [Hr Hl]. pose proof (ring_pop_spec (input t) Hr) as Hp.
  destruct (queue (input t)) as [|b q] eqn:Eq.
  - rewrite Hp. cbn [exec_bind]. exists [], (with_input t (input t)). cbn [input line with_input].
    split; [done|]. split; [done|]. by rewrite Eq.
  - destruct Hp as (r' & -> & Hr' & Hq'). cbn [exec_bind].
    destruct (IH (with_input t r') ubuf (i + 1)) as (ws & t' & -> & Ht' & H1 & H2 & H3); [done|].
    cbn [exec_bind fst snd]. eexists _, _. split; [done|]. cbn [input with_input line] in *.
    split; [done|]. rewrite fmap_cons, H1, Hq'. cbn [snd take drop]. by rewrite H2, Hq', H3.
Qed.

(** Feeding characters, then reading. *)
Fixpoint feed (t : Tty) (cs : list Z) : exec Tty :=
  match cs with
  | [] => Ret t
  | c :: cs' => let! r := feed_byte t c in feed (snd r) cs'
  end.

(** C14: The terminal implements its line discipline: whatever characters come
    in, in canonical or raw mode, the input ring and the line buffer stay in
    range, hold exactly the queue and the edited line that the discipline on
    lists computes (printable characters, erase, kill, word erase, Enter,
    Ctrl+C), and a read then delivers the oldest bytes of that queue in
    order and removes them. *)
Theorem tty_implements_line_discipline (t : Tty) (cs : list Z) (ubuf n : Z) :
  tty_ok t → 0 < ubuf → 0 < n →
  ∃ t1 ws t2, feed t cs = Ret t1 ∧ read t1 ubuf n = Ret (ws, t2) ∧ tty_ok t2 ∧
    let ql := foldl (fun ql c => discipline (raw t) (fst ql) (snd ql) c)
                (queue (input t), text (line t)) cs in
    ws.*2 = take (Z.to_nat n) (fst ql) ∧ queue (input t2) = drop (Z.to_nat n) (fst ql) ∧
    text (line t2) = snd ql.
Proof.
  intros Ht Hu Hn. revert t Ht. induction cs as [|c cs IH]; intros t Ht; cbn [feed foldl].
  - unfold read. destruct (read_available_spec (Z.to_nat n) t ubuf 0 Ht)
      as (ws & t2 & E & Ht2 & H1 & H2 & H3). exists t, ws, t2. split; [done|].
    rewrite (proj2 (Z.eqb_neq n 0)), (proj2 (Z.eqb_neq ubuf 0)) by lia. simpl.
    by rewrite E, H3.
  - unfold feed_byte. destruct (on_char_spec t c Ht) as (e & t1 & -> & Ht1 & Hraw & Hd).
    cbn [exec_bind snd]. destruct (IH t1 Ht1) as (t2 & ws & t3 & E1 & E2 & Hok & H).
    exists t2, ws, t3. split; [done|]. split; [done|]. split; [done|].
    rewrite Hraw, Hd in H. exact H.
Qed.

Lemma tty_implements_line_discipline_witness :
  ∃ t1 ws t2, feed init_state [104; 105; 120; 8; 13] = Ret t1 ∧ read t1 0x1000 16 = Ret (ws, t2) ∧
    ws.*2 = [104; 105; 10].
Proof.
  destruct (tty_implements_line_discipline init_state [104; 105; 120; 8; 13] 0x1000 16 init_ok)
    as (t1 & ws & t2 & H1 & H2 & _ & H3 & _); [lia|lia|].
  exists t1, ws, t2. split; [exact H1|]. split; [exact H2|]. rewrite H3. vm_compute. reflexivity.
Defined.

(** [TTY_ECHO] is written but not consulted: the echo of canonical mode does
    not depend on it. *)
Lemma echo_flag_ignored (t : Tty) (c : Z) (b : bool) :
  raw t = false →
  match on_char t c, on_char (set_echo t b) c with
  | Ret (e, _), Ret (e', _) => echoed e' = echoed e
  | Panic, Panic => True
  | _, _ => False
  end.
Proof.
  intros Hraw. unfold on_char. cbn [raw set_echo]. rewrite Hraw. unfold on_char_canonical.
  cbn [line set_echo input]. cbv zeta. cbn [line set_echo input with_line].
  destruct (c =? 3); [by destruct (ring_push (input t) 10) as [[]|]|].
  destruct ((c =? 8) || (c =? 127)); [by destruct (line_pop (line t)) as [[]]|].
  destruct ((c =? 13) || (c =? 10)).
  { destruct (commit_loop _ _ _ _) as [r|]; [|done]. cbn [exec_bind].
    by destruct (ring_push r 10) as [[]|]. }
  destruct (_ && _); [by destruct (line_push _ _) as [[[] ?]|]|].
  destruct (c =? 4); [by destruct (_ =? 0)|]. destruct (c =? 12); [done|].
  destruct (c =? 21); [done|]. destruct (c =? 23); [|done].
  destruct (trim_loop true _ _ _) as [[o l]|]; [|done]. cbn [exec_bind].
  by destruct (trim_loop false _ _ _) as [[]|].
Qed.

End Tty.
