(* ===== verification/PageTable.v ===== *)
(** Page tables ([kernel/src/mm/vmm.rs], [kernel/src/mm/page_table.rs]).

    Both builds are covered: three-level Sv39 tables on RISC-V, four-level
    tables with 2 MiB pages on x86_64.  Physical memory is one store of 64-bit
    words, so tables, and whatever else lies in memory, alias as they do in
    the code.  Frames come from the frame allocator through the interface
    [FrameSource], which the bitmap allocator implements. *)

From stdpp Require Import base numbers list gmap sets.
From S2P Require Import Prelude Pmm.
Local Open Scope Z_scope.
Local Open Scope rust_scope.

(** What the page-table code relies on: an allocation returns a frame that is
    not in use, page aligned, above address zero and within the 52 physical
    address bits, and marks it used. An address the source does not hand out
    counts as used. *)
Class FrameSource (A : Type) := {
  fs_inv : A → Prop;
  fs_used : A → Z → Prop;
  fs_free : A → nat;
  fs_alloc : A → exec (option Z * A);
  fs_dealloc : A → Z → exec A;
  fs_alloc_ok : ∀ a, fs_inv a →
    ∃ r a', fs_alloc a = Ret (r, a') ∧ fs_inv a' ∧
      match r with
      | Some f => ¬ fs_used a f ∧ f mod 4096 = 0 ∧ 0 < f < 2 ^ 52 ∧
                  (∀ g, fs_used a' g ↔ g = f ∨ fs_used a g) ∧ fs_free a = S (fs_free a')
      | None => a' = a ∧ fs_free a = 0%nat
      end
}.

Module PageTable.
Import Pmm.

Section vmm.
Context (ar : arch).

(** ** Entries *)

Definition PTE_COUNT : nat := 512.

(** [PTEFlags::PRESENT]/[V], [PS], [USER]/[U] *)
Definition FLAG_VALID : Z := 1.
Definition FLAG_PS : Z := 0x80.
Definition FLAG_USER : Z := match ar with Riscv64 => 0x10 | X86_64 => 0x4 end.
Definition NON_LEAF_FLAGS : Z := 0x7.

(** The flag combinations *)
Definition KRWX : Z := match ar with Riscv64 => 0x0F | X86_64 => 0x3 end.
Definition KRW : Z := match ar with Riscv64 => 0x07 | X86_64 => 0x3 end.
Definition KRX : Z := match ar with Riscv64 => 0x0B | X86_64 => 0x1 end.
Definition URWX : Z := match ar with Riscv64 => 0x1F | X86_64 => 0x7 end.
Definition URW : Z := match ar with Riscv64 => 0x17 | X86_64 => 0x7 end.
Definition UX : Z := match ar with Riscv64 => 0x19 | X86_64 => 0x5 end.
Definition UR : Z := match ar with Riscv64 => 0x13 | X86_64 => 0x5 end.

(** The index of the root level: [PT_LEVELS - 1]. *)
Definition TOP_LEVEL : nat := match ar with Riscv64 => 2 | X86_64 => 3 end.

Definition pte_new (ppn flags : Z) : Z :=
  match ar with
  | Riscv64 => Z.lor (u64 (Z.shiftl ppn 10)) flags
  | X86_64 => Z.lor (u64 (Z.shiftl ppn 12)) flags
  end.

Definition pte_nonleaf (ppn : Z) : Z :=
  match ar with
  | Riscv64 => pte_new ppn FLAG_VALID
  | X86_64 => pte_new ppn NON_LEAF_FLAGS
  end.

Definition pte_ppn (e : Z) : Z :=
  match ar with
  | Riscv64 => Z.shiftr e 10
  | X86_64 => Z.land (Z.shiftr e 12) 0xFFFFFFFFFF
  end.

Definition pte_valid (e : Z) : bool := Z.testbit e 0.

(** [entry.flags().contains(PTEFlags::PS)], on x86_64 only. *)
Definition pte_ps (e : Z) : bool :=
  match ar with Riscv64 => false | X86_64 => Z.testbit e 7 end.

Definition pte_user (e : Z) : bool :=
  match ar with Riscv64 => Z.testbit e 4 | X86_64 => Z.testbit e 2 end.

(** [ppn << 12] *)
Definition pte_frame (e : Z) : Z := u64 (Z.shiftl (pte_ppn e) 12).

Definition vpn (vaddr : Z) (level : nat) : Z :=
  Z.land (Z.shiftr vaddr (12 + 9 * Z.of_nat level)) 0x1FF.

(** ** Memory *)

Definition memory : Type := Z → Z.

Definition write (m : memory) (a v : Z) : memory := fun x => if decide (x = a) then v else m x.

(** [&table.entries[i]] *)
Definition entry_addr (table i : Z) : Z := table + 8 * i.

Context {A : Type} `{FrameSource A}.

Record State := mkState { mem : memory; frames : A }.

Definition set_mem (s : State) (m : memory) : State := mkState m (frames s).

(** [for entry in table.entries.iter_mut() { *entry = PTE(0) }] *)
Definition zero_table (m : memory) (t : Z) : memory :=
  foldl (fun m i => write m (entry_addr t (Z.of_nat i)) 0) m (seq 0 PTE_COUNT).

(** [PageTable::zeroed]; [expect] panics when no frame is left. *)
Definition zeroed (s : State) : exec (Z * State) :=
  let! r := fs_alloc (frames s) in
  match r with
  | (Some frame, fa) => Ret (frame, mkState (zero_table (mem s) frame) fa)
  | (None, _) => Panic
  end.

(** [ensure_nonleaf_user_bit], on x86_64 only. *)
Definition ensure_nonleaf_user_bit (e leaf_flags : Z) : Z :=
  match ar with
  | Riscv64 => e
  | X86_64 =>
      if (Z.land e FLAG_USER =? 0) && negb (Z.land leaf_flags FLAG_USER =? 0)
      then Z.lor e FLAG_USER else e
  end.

(** The entries of the table that replaces a huge page. *)
Definition split_entry (e sub_page_size : Z) (i : nat) : Z :=
  let huge_paddr := pte_frame e in
  let sub_paddr := huge_paddr +! u64 (Z.of_nat i * sub_page_size) in
  let sub_flags :=
    if 4096 <? sub_page_size then Z.lor NON_LEAF_FLAGS FLAG_PS
    else Z.land e (not64 FLAG_PS) in
  Z.lor (u64 (Z.shiftl (Z.shiftr sub_paddr 12) 12)) sub_flags.

Definition split_table (m : memory) (t e sub_page_size : Z) : memory :=
  foldl (fun m i => write m (entry_addr t (Z.of_nat i)) (split_entry e sub_page_size i)) m
    (seq 0 PTE_COUNT).

(** ** [map] *)

Definition map_leaf (s : State) (table vaddr paddr flags : Z) : State :=
  set_mem s (write (mem s) (entry_addr table (vpn vaddr 0)) (pte_new (Z.shiftr paddr 12) flags)).

(** The loop of [map] at [table] with [level] levels left to walk. *)
Fixpoint map_from (s : State) (table : Z) (level : nat) (vaddr paddr flags : Z) : exec State :=
  match level with
  | O => Ret (map_leaf s table vaddr paddr flags)
  | S level' =>
      let a := entry_addr table (vpn vaddr level) in
      let! s :=
        if pte_valid (mem s a) then Ret s
        else
          let! r := zeroed s in
          let '(new_table, s) := r in
          Ret (set_mem s (write (mem s) a (pte_nonleaf (Z.shiftr new_table 12)))) in
      let entry := mem s a in
      if pte_ps entry then
        let sub_page_size := if decide (level = 3%nat) then 2 ^ 21 else 2 ^ 12 in
        let! r := zeroed s in
        let '(new_table, s) := r in
        let m := split_table (mem s) new_table entry sub_page_size in
        let new_ppn := Z.shiftr new_table 12 in
        let s := set_mem s (write m a (pte_new new_ppn NON_LEAF_FLAGS)) in
        let table := u64 (Z.shiftl new_ppn 12) in
        if sub_page_size =? 4096 then Ret (map_leaf s table vaddr paddr flags)
        else map_from s table level' vaddr paddr flags
      else
        match ar with
        | X86_64 =>
            if pte_ppn entry =? 0 then Ret s
            else
              let s' := set_mem s (write (mem s) a (ensure_nonleaf_user_bit entry flags)) in
              map_from s' (pte_frame entry) level' vaddr paddr flags
        | Riscv64 => map_from s (pte_frame entry) level' vaddr paddr flags
        end
  end.

Definition map (s : State) (root vaddr paddr flags : Z) : exec State :=
  map_from s root TOP_LEVEL vaddr paddr flags.

Definition map_user (s : State) (root vaddr paddr flags : Z) : exec State :=
  map s root vaddr paddr flags.

Definition create_user_page_table (s : State) : exec (Z * State) := zeroed s.

(** ** Walks *)

Fixpoint walk_to_pt_from (m : memory) (table : Z) (level : nat) (vaddr : Z) : option (Z * Z) :=
  match level with
  | O => Some (table, vpn vaddr 0)
  | S level' =>
      let entry := m (entry_addr table (vpn vaddr level)) in
      if negb (pte_valid entry) then None
      else if pte_ps entry then None
      else if pte_ppn entry =? 0 then None
      else walk_to_pt_from m (pte_frame entry) level' vaddr
  end.

Definition walk_to_pt (m : memory) (root vaddr : Z) : option (Z * Z) :=
  walk_to_pt_from m root TOP_LEVEL vaddr.

Fixpoint translate_from (m : memory) (table : Z) (level : nat) (vaddr : Z) : option Z :=
  let entry := m (entry_addr table (vpn vaddr level)) in
  match level with
  | O =>
      if negb (pte_valid entry) then None
      else Some (Z.lor (pte_frame entry) (Z.land vaddr 0xFFF))
  | S level' =>
      if negb (pte_valid entry) then None
      else if pte_ps entry then
        let page_offset_mask := Z.shiftl 1 (12 + 9 * Z.of_nat level) - 1 in
        Some (Z.lor (pte_frame entry) (Z.land vaddr page_offset_mask))
      else if pte_ppn entry =? 0 then None
      else translate_from m (pte_frame entry) level' vaddr
  end.

Definition translate_user (m : memory) (root vaddr : Z) : option Z :=
  translate_from m root TOP_LEVEL vaddr.

Inductive WalkResult :=
| NotMapped
| Mapped4K (frame flags : Z)
| MappedHuge (frame : Z) (level : nat) (size flags : Z)
| Invalid.

(** [PTEFlags::from_bits_truncate(self.0).bits()] *)
Definition pte_flags (e : Z) : Z :=
  match ar with
  | Riscv64 => Z.land e 0xFF
  | X86_64 => Z.land e (Z.lor 0x1FF (2 ^ 63))
  end.

Fixpoint walk_mapping_from (m : memory) (table : Z) (level : nat) (vaddr : Z) : WalkResult :=
  let entry := m (entry_addr table (vpn vaddr level)) in
  match level with
  | O =>
      if negb (pte_valid entry) then NotMapped
      else if pte_ppn entry =? 0 then Invalid
      else Mapped4K (Z.lor (pte_frame entry) (Z.land vaddr 0xFFF)) (pte_flags entry)
  | S level' =>
      if negb (pte_valid entry) then NotMapped
      else if pte_ps entry then
        let page_size := Z.shiftl 1 (12 + 9 * Z.of_nat level) in
        MappedHuge (Z.lor (pte_frame entry) (Z.land vaddr (page_size - 1))) level page_size
          (pte_flags entry)
      else if pte_ppn entry =? 0 then Invalid
      else walk_mapping_from m (pte_frame entry) level' vaddr
  end.

Definition walk_mapping (m : memory) (root vaddr : Z) : WalkResult :=
  walk_mapping_from m root TOP_LEVEL vaddr.

Definition is_mapped (w : WalkResult) : bool :=
  match w with Mapped4K _ _ | MappedHuge _ _ _ _ => true | _ => false end.

Definition frame (w : WalkResult) : option Z :=
  match w with
  | Mapped4K f _ => Some f
  | MappedHuge f _ _ _ => Some f
  | _ => None
  end.

Definition debug_pte (m : memory) (root vaddr : Z) : option Z :=
  match walk_to_pt m root vaddr with
  | Some (pt, i) => Some (m (entry_addr pt i))
  | None => None
  end.

(** ** Unmap and protect *)

Definition unmap_user (m : memory) (root vaddr : Z) : option Z * memory :=
  match walk_to_pt m root vaddr with
  | None => (None, m)
  | Some (pt, i) =>
      let a := entry_addr pt i in
      let entry := m a in
      if negb (pte_valid entry) then (None, m)
      else (Some (Z.lor (pte_frame entry) (Z.land vaddr 0xFFF)), write m a 0)
  end.

Fixpoint mprotect_from (m : memory) (table : Z) (level : nat) (vaddr flags : Z) : bool * memory :=
  let a := entry_addr table (vpn vaddr level) in
  let entry := m a in
  match level with
  | O =>
      if negb (pte_valid entry) then (false, m)
      else (true, write m a (pte_new (pte_ppn entry) flags))
  | S level' =>
      if negb (pte_valid entry) then (false, m)
      else if pte_ps entry then (false, m)
      else
        let entry := ensure_nonleaf_user_bit entry flags in
        let m := write m a entry in
        if pte_ppn entry =? 0 then (false, m)
        else mprotect_from m (pte_frame entry) level' vaddr flags
  end.

Definition mprotect_user (m : memory) (root vaddr flags : Z) : bool * memory :=
  mprotect_from m root TOP_LEVEL vaddr flags.

(** ** Identity maps *)

Fixpoint identity_map_loop (n : nat) (s : State) (root addr flags : Z) : exec State :=
  match n with
  | O => Ret s
  | S n' => let! s := map s root addr addr flags in identity_map_loop n' s root (addr +! 4096) flags
  end.

(** One iteration per page of the range. *)
Definition identity_map (s : State) (root start end_ flags : Z) : exec State :=
  let start_page := Z.land start (not64 4095) in
  let end_page := Z.land (end_ +! 4096 -! 1) (not64 4095) in
  identity_map_loop (Z.to_nat ((end_page - start_page) / 4096)) s root start_page flags.

Fixpoint identity_map_skip_loop (n : nat) (s : State) (root addr flags map_count skip_count : Z)
    : exec (State * Z * Z) :=
  match n with
  | O => Ret (s, map_count, skip_count)
  | S n' =>
      match translate_user (mem s) root addr with
      | None =>
          let! s := map s root addr addr flags in
          identity_map_skip_loop n' s root (addr +! 4096) flags (map_count + 1) skip_count
      | Some _ =>
          identity_map_skip_loop n' s root (addr +! 4096) flags map_count (skip_count + 1)
      end
  end.

(** The counts are those of the log line. *)
Definition identity_map_skip (s : State) (root start end_ flags : Z) : exec (State * Z * Z) :=
  let start_page := Z.land start (not64 4095) in
  let end_page := Z.land (end_ +! 4096 -! 1) (not64 4095) in
  identity_map_skip_loop (Z.to_nat ((end_page - start_page) / 4096)) s root start_page flags 0 0.

Definition HUGE_PAGE_SIZE : Z := 2 * 1024 * 1024.

(** [if !table.entries[i].is_valid() { .. }], then the table it points to. *)
Definition ensure_table (s : State) (table i : Z) : exec (Z * State) :=
  let a := entry_addr table i in
  let! s :=
    if pte_valid (mem s a) then Ret s
    else
      let! r := zeroed s in
      let '(new_table, s) := r in
      Ret (set_mem s (write (mem s) a (pte_nonleaf (Z.shiftr new_table 12)))) in
  Ret (pte_frame (mem s a), s).

Definition map_2mb (s : State) (root addr flags : Z) : exec State :=
  let! r := ensure_table s root (vpn addr 3) in
  let '(p3, s) := r in
  let! r := ensure_table s p3 (vpn addr 2) in
  let '(p2, s) := r in
  Ret (set_mem s (write (mem s) (entry_addr p2 (vpn addr 1))
         (pte_new (Z.shiftr addr 12) (Z.lor flags FLAG_PS)))).

Fixpoint identity_map_2mb_loop (n : nat) (s : State) (root addr flags : Z) : exec State :=
  match n with
  | O => Ret s
  | S n' =>
      let! s := map_2mb s root addr flags in
      identity_map_2mb_loop n' s root (addr +! HUGE_PAGE_SIZE) flags
  end.

Definition identity_map_2mb (s : State) (root start end_ flags : Z) : exec State :=
  let start_aligned := Z.land start (not64 (HUGE_PAGE_SIZE - 1)) in
  let end_aligned := Z.land (end_ +! HUGE_PAGE_SIZE -! 1) (not64 (HUGE_PAGE_SIZE - 1)) in
  identity_map_2mb_loop (Z.to_nat ((end_aligned - start_aligned) / HUGE_PAGE_SIZE)) s root
    start_aligned flags.

(** [init] up to the activation of the table; [total] is [pmm::total_memory()]. *)
Definition init (s : State) (total : Z) : exec (Z * State) :=
  let! r := zeroed s in
  let '(root, s) := r in
  match ar with
  | Riscv64 =>
      let start := 0x80200000 in
      let end_ := start + 128 * 1024 * 1024 in
      let! s := identity_map s root start end_ KRWX in
      let! s := map s root 0x10000000 0x10000000 KRW in
      let! s := identity_map_loop 8 s root 0x10001000 KRW in
      let! s := identity_map_loop 1024 s root 0x0C000000 KRW in
      Ret (root, s)
  | X86_64 =>
      let! s := identity_map_2mb s root 0 total KRWX in
      let! s := identity_map_2mb s root 0xFE000000 0xFF000000 KRW in
      Ret (root, s)
  end.

(** ** Freeing *)

Definition dealloc (s : State) (f : Z) : exec State :=
  let! fa := fs_dealloc (frames s) f in Ret (mkState (mem s) fa).

(** [free_level]: the loop over the entries from index [i], at level [level]
    (the root has level [PT_LEVELS]). *)
Fixpoint free_level (level : nat) : State → Z → exec State :=
  fun s table =>
    foldl (fun (acc : exec State) i =>
      let! s := acc in
      let entry := mem s (entry_addr table (Z.of_nat i)) in
      if negb (pte_valid entry) then Ret s
      else
        match level with
        | O => Ret s
        | S O => if pte_user entry then dealloc s (pte_frame entry) else Ret s
        | S level' =>
            if negb (pte_ps entry) then
              let! s := free_level level' s (pte_frame entry) in
              dealloc s (pte_frame entry)
            else Ret s
        end) (Ret s) (seq 0 PTE_COUNT).

Definition free_user_page_table (s : State) (root_ppn : Z) : exec State :=
  let root := u64 (Z.shiftl root_ppn 12) in
  let! s := free_level (S TOP_LEVEL) s root in
  dealloc s root.

End vmm.

(** ** Entry encodings *)

(** Flag words as [PTEFlags] holds them: no bits where the frame number is. *)
Definition flags_ok (ar : arch) (fl : Z) : Prop :=
  is_u64 fl ∧
  match ar with
  | Riscv64 => ∀ i, 10 <= i → Z.testbit fl i = false
  | X86_64 => ∀ i, 12 <= i < 52 → Z.testbit fl i = false
  end.

Lemma ones_testbit (n i : Z) : 0 <= n → 0 <= i → Z.testbit (Z.ones n) i = bool_decide (i < n).
Proof.
  intros Hn Hi. destruct (bool_decide_reflect (i < n)).
  - by apply Z.ones_spec_low.
  - apply Z.ones_spec_high. lia.
Qed.

Lemma mask40 : 0xFFFFFFFFFF = Z.ones 40.
Proof. reflexivity. Qed.

(** A number below [2 ^ n], shifted within 64 bits. *)
Lemma shiftl_small (p n k : Z) : 0 <= n → 0 <= k → n + k <= 64 → 0 <= p < 2 ^ n →
  u64 (Z.shiftl p k) = p * 2 ^ k.
Proof.
  intros Hn Hk Hnk Hp. rewrite Z.shiftl_mul_pow2 by done. apply u64_small. split; [nia|].
  apply Z.lt_le_trans with (2 ^ n * 2 ^ k); [nia|].
  rewrite <- Z.pow_add_r by done. by apply Z.pow_le_mono_r.
Qed.

Lemma flags_ok_small (ar : arch) (fl : Z) : 0 <= fl < 2 ^ 10 → flags_ok ar fl.
Proof.
  intros Hfl. split; [unfold is_u64; lia|].
  destruct ar; intros i Hi; apply (bits_above i 10 fl); lia.
Qed.

Lemma pte_nonleaf_flags (ar : arch) : ∃ fl, (∀ p, pte_nonleaf ar p = pte_new ar p fl) ∧
  flags_ok ar fl ∧ Z.testbit fl 0 = true ∧ pte_ps ar fl = false.
Proof.
  exists (match ar with Riscv64 => FLAG_VALID | X86_64 => NON_LEAF_FLAGS end).
  destruct ar; split_and!; try done; by apply flags_ok_small.
Qed.

Lemma pte_new_bit (ar : arch) (p fl i : Z) :
  0 <= p < 2 ^ 40 → 0 <= i →
  Z.testbit (pte_new ar p fl) i =
    Z.testbit p (i - match ar with Riscv64 => 10 | X86_64 => 12 end) || Z.testbit fl i.
Proof.
  intros Hp Hi. unfold pte_new.
  destruct ar; rewrite Z.lor_spec; f_equal; rewrite (shiftl_small p 40) by lia;
    rewrite <- Z.shiftl_mul_pow2 by lia; by rewrite Z.shiftl_spec by lia.
Qed.

Lemma pte_new_low (ar : arch) (p fl i : Z) :
  0 <= p < 2 ^ 40 → 0 <= i < 10 → Z.testbit (pte_new ar p fl) i = Z.testbit fl i.
Proof.
  intros Hp Hi. rewrite pte_new_bit by lia. rewrite Z.testbit_neg_r; [done|]. destruct ar; lia.
Qed.

Lemma pte_new_ppn (ar : arch) (p fl : Z) :
  flags_ok ar fl → 0 <= p < 2 ^ 40 → pte_ppn ar (pte_new ar p fl) = p.
Proof.
  intros [Hu Hf] Hp. apply Z.bits_inj'. intros i Hi. unfold pte_ppn. destruct ar.
  - rewrite Z.shiftr_spec, pte_new_bit, Hf, orb_false_r by lia. f_equal. lia.
  - rewrite Z.land_spec, Z.shiftr_spec, pte_new_bit by lia. rewrite mask40, ones_testbit by lia.
    case_bool_decide.
    + rewrite Hf, orb_false_r, andb_true_r by lia. f_equal. lia.
    + rewrite andb_false_r. symmetry. apply (bits_above i 40 p); lia.
Qed.

Lemma pte_new_valid (ar : arch) (p fl : Z) :
  0 <= p < 2 ^ 40 → pte_valid (pte_new ar p fl) = Z.testbit fl 0.
Proof. intros Hp. by apply pte_new_low. Qed.

Lemma pte_new_ps (ar : arch) (p fl : Z) :
  0 <= p < 2 ^ 40 → pte_ps ar (pte_new ar p fl) = pte_ps ar fl.
Proof. intros Hp. unfold pte_ps. destruct ar; [done|]. by apply pte_new_low. Qed.

Lemma pte_new_nonneg (ar : arch) (p fl : Z) : flags_ok ar fl → 0 <= pte_new ar p fl.
Proof.
  intros [[Hu _] _]. unfold pte_new. destruct ar; apply Z.lor_nonneg; split; try done; apply u64_range.
Qed.

(** Two entries that a walk cannot tell apart. *)
Definition same_entry (ar : arch) (e e' : Z) : Prop :=
  pte_valid e = pte_valid e' ∧ pte_ps ar e = pte_ps ar e' ∧ pte_ppn ar e = pte_ppn ar e'.

Lemma user_bit_same (ar : arch) (e fl : Z) :
  0 <= e → same_entry ar e (ensure_nonleaf_user_bit ar e fl).
Proof.
  intros He. unfold ensure_nonleaf_user_bit. destruct ar; [done|].
  destruct (_ && _); [|done].
  assert (∀ i, 0 <= i → i ≠ 2 → Z.testbit (Z.lor e (FLAG_USER X86_64)) i = Z.testbit e i) as Hb.
  { intros i Hi Hne. rewrite Z.lor_spec. change (FLAG_USER X86_64) with (2 ^ 2).
    rewrite Z.pow2_bits_eqb by lia. rewrite (proj2 (Z.eqb_neq 2 i)) by lia. apply orb_false_r. }
  split; [unfold pte_valid; by rewrite Hb|]. split; [unfold pte_ps; by rewrite Hb|].
  unfold pte_ppn. apply Z.bits_inj'. intros i Hi. rewrite !Z.land_spec, !Z.shiftr_spec by lia.
  by rewrite Hb by lia.
Qed.

(** A frame address is its page number times the page size. *)
Lemma lor_low (a n b : Z) : 0 <= n → 0 <= b < 2 ^ n → Z.lor (a * 2 ^ n) b = a * 2 ^ n + b.
Proof.
  intros Hn Hb. rewrite <- Z.lxor_lor, <- Z.add_nocarry_lxor; [done|..].
  all: rewrite <- Z.shiftl_mul_pow2 by done; apply Z.bits_inj'; intros i Hi;
    rewrite Z.land_spec, Z.bits_0; destruct (decide (i < n));
    [by rewrite Z.shiftl_spec_low|rewrite (bits_above i n b), andb_false_r by lia; done].
Qed.

Lemma pte_frame_ppn (ar : arch) (e : Z) :
  0 <= pte_ppn ar e < 2 ^ 40 → pte_frame ar e = pte_ppn ar e * 4096.
Proof. intros H. unfold pte_frame. by apply (shiftl_small _ 40 12). Qed.

Lemma pte_ppn_x86_range (e : Z) : 0 <= pte_ppn X86_64 e < 2 ^ 40.
Proof.
  unfold pte_ppn. rewrite mask40, Z.land_ones by lia. by apply Z.mod_pos_bound.
Qed.

(** The pages of a split 2 MiB page: page [i] is the [i]th 4 KiB page of it. *)
Lemma split_entry_spec (e : Z) (i : nat) :
  0 <= e → (i < 512)%nat → pte_valid e = true → pte_ppn X86_64 e mod 512 = 0 →
  pte_valid (split_entry X86_64 e (2 ^ 12) i) = true ∧
  pte_ppn X86_64 (split_entry X86_64 e (2 ^ 12) i) = pte_ppn X86_64 e + Z.of_nat i.
Proof.
  intros He Hi Hv Hal. pose proof (pte_ppn_x86_range e) as Hp. set (p := pte_ppn X86_64 e) in *.
  assert (p + Z.of_nat i < 2 ^ 40) as Hpi.
  { pose proof (Z.div_mod p 512 ltac:(lia)). lia. }
  unfold split_entry. fold p. change (4096 <? 2 ^ 12) with false. cbn [negb].
  assert (pte_frame X86_64 e +! u64 (Z.of_nat i * 2 ^ 12) = (p + Z.of_nat i) * 2 ^ 12) as ->.
  { rewrite pte_frame_ppn by done. fold p. rewrite (u64_small (Z.of_nat i * 2 ^ 12)) by lia.
    rewrite u64_small by lia. lia. }
  rewrite Z.shiftr_div_pow2, Z.div_mul by lia.
  rewrite (shiftl_small _ 40) by lia. rewrite <- Z.shiftl_mul_pow2 by lia.
  set (r := Z.land e (not64 FLAG_PS)).
  assert (∀ j, 0 <= j < 64 → j ≠ 7 → Z.testbit r j = Z.testbit e j) as Hr.
  { intros j Hj Hne. unfold r. rewrite Z.land_spec, not64_testbit by lia.
    change FLAG_PS with (2 ^ 7). rewrite Z.pow2_bits_eqb by lia.
    rewrite (proj2 (Z.eqb_neq 7 j)) by lia. apply andb_true_r. }
  split.
  - unfold pte_valid in *. rewrite Z.lor_spec, Z.shiftl_spec_low, Hr by lia. done.
  - unfold pte_ppn at 1. apply Z.bits_inj'. intros j Hj.
    rewrite Z.land_spec, Z.shiftr_spec, Z.lor_spec, Z.shiftl_spec by lia.
    replace (j + 12 - 12) with j by lia. rewrite mask40, ones_testbit by lia.
    assert (p + Z.of_nat i = Z.lor p (Z.of_nat i)) as Hor.
    { rewrite (Z.div_mod p 512) by lia. rewrite Hal, Z.add_0_r, (Z.mul_comm 512).
      change 512 with (2 ^ 9). symmetry. apply lor_low; lia. }
    case_bool_decide as Hj40.
    + rewrite andb_true_r, Hr by lia.
      assert (Z.testbit e (j + 12) = Z.testbit p j) as ->.
      { unfold p, pte_ppn. rewrite Z.land_spec, Z.shiftr_spec, mask40, ones_testbit by lia.
        rewrite bool_decide_eq_true_2 by lia. by rewrite andb_true_r. }
      rewrite Hor, Z.lor_spec. destruct (Z.testbit p j), (Z.testbit (Z.of_nat i) j); done.
    + rewrite andb_false_r. symmetry. apply (bits_above j 40); lia.
Qed.

(** ** Memory *)

Lemma write_eq (m : memory) (a v : Z) : write m a v a = v.
Proof. unfold write. by rewrite decide_True. Qed.

Lemma write_ne (m : memory) (a v x : Z) : x ≠ a → write m a v x = m x.
Proof. intros. unfold write. by rewrite decide_False. Qed.

Lemma fill_in (g : nat → Z) (t : Z) (n : nat) (i : nat) : ∀ (m : memory) (j : nat),
  (j <= i < j + n)%nat →
  foldl (fun m i => write m (entry_addr t (Z.of_nat i)) (g i)) m (seq j n)
    (entry_addr t (Z.of_nat i)) = g i.
Proof.
  induction n as [|n IH]; intros m j Hi; [lia|]. cbn [seq foldl].
  destruct (decide (i = j)) as [->|]; [|apply IH; lia].
  assert (∀ n j' m, (j < j')%nat →
    foldl (fun m i => write m (entry_addr t (Z.of_nat i)) (g i)) m (seq j' n)
      (entry_addr t (Z.of_nat j)) = m (entry_addr t (Z.of_nat j))) as Hskip.
  { clear. induction n as [|n IH]; intros j' m Hj; [done|]. cbn [seq foldl].
    rewrite IH by lia. apply write_ne. unfold entry_addr. lia. }
  rewrite Hskip by lia. apply write_eq.
Qed.

Lemma fill_out (g : nat → Z) (t x : Z) (n : nat) : ∀ (m : memory) (j : nat),
  (∀ i, (j <= i < j + n)%nat → x ≠ entry_addr t (Z.of_nat i)) →
  foldl (fun m i => write m (entry_addr t (Z.of_nat i)) (g i)) m (seq j n) x = m x.
Proof.
  induction n as [|n IH]; intros m j Hx; [done|]. cbn [seq foldl].
  rewrite IH by (intros i Hi; apply Hx; lia). apply write_ne. apply Hx. lia.
Qed.

(** Entries of page-aligned tables determine table and index. *)
Lemma entry_addr_inj (t t' i i' : Z) :
  t mod 4096 = 0 → t' mod 4096 = 0 → 0 <= i < 512 → 0 <= i' < 512 →
  entry_addr t i = entry_addr t' i' → t = t' ∧ i = i'.
Proof.
  unfold entry_addr. intros. Z.to_euclidean_division_equations. lia.
Qed.

Lemma vpn_range (v : Z) (k : nat) : 0 <= vpn v k < 512.
Proof. unfold vpn. change 0x1FF with (Z.ones 9). rewrite Z.land_ones by lia. by apply Z.mod_pos_bound. Qed.

Lemma vpn_eq (v : Z) (k : nat) : vpn v k = (v / 2 ^ (12 + 9 * Z.of_nat k)) mod 512.
Proof. unfold vpn. change 0x1FF with (Z.ones 9). by rewrite Z.land_ones, Z.shiftr_div_pow2 by lia. Qed.

(** ** The tree of tables *)

Section tree.
Context (ar : arch).

Definition TOP : nat := TOP_LEVEL ar.

(** Table [t] is reached from [root] at level [k] by the entry indices [p],
    the last one first. *)
Inductive reach (m : memory) (root : Z) : nat → list Z → Z → Prop :=
| reach_top : reach m root TOP [] root
| reach_down k p t i :
    reach m root (S k) p t → 0 <= i < 512 →
    pte_valid (m (entry_addr t i)) = true → pte_ps ar (m (entry_addr t i)) = false →
    reach m root k (i :: p) (pte_frame ar (m (entry_addr t i))).

(** The indices a walk for [v] follows down to level [k]. *)
Definition path (v : Z) (k : nat) : list Z := vpn v <$> seq (S k) (TOP - k).

Lemma path_step (v : Z) (k : nat) : (k < TOP)%nat → path v k = vpn v (S k) :: path v (S k).
Proof. intros Hk. unfold path. replace (TOP - k)%nat with (S (TOP - S k)) by lia. done. Qed.

Lemma path_top (v : Z) : path v TOP = [].
Proof. unfold path. by rewrite Nat.sub_diag. Qed.

(** What an entry of a reached table may be. *)
Definition entry_ok (k : nat) (e : Z) : Prop :=
  0 <= e ∧
  ((1 <= k)%nat → pte_valid e = true → pte_ps ar e = true → k = 1%nat ∧ pte_ppn ar e mod 512 = 0) ∧
  (pte_valid e = true → 0 <= pte_ppn ar e < 2 ^ 40).

(** Tables are page-aligned used frames, each at one place of the tree. *)
Record tree (m : memory) (root : Z) (U : Z → Prop) : Prop := mkTree {
  tree_frame : ∀ k p t, reach m root k p t → U t ∧ t mod 4096 = 0 ∧ 0 < t;
  tree_inj : ∀ k p t k' p', reach m root k p t → reach m root k' p' t → k = k' ∧ p = p';
  tree_entry : ∀ k p t i, reach m root k p t → 0 <= i < 512 → entry_ok k (m (entry_addr t i));
}.

Lemma reach_level (m : memory) (root : Z) (k : nat) (p : list Z) (t : Z) :
  reach m root k p t → (k <= TOP)%nat ∧ length p = (TOP - k)%nat.
Proof. induction 1 as [|k p t i _ [IH1 IH2]]; simpl; [split; [lia|]; by rewrite Nat.sub_diag|lia]. Qed.

Lemma reach_det (m : memory) (root : Z) (k : nat) (p : list Z) (t t' : Z) :
  reach m root k p t → reach m root k p t' → t = t'.
Proof.
  intros H. revert t'. induction H as [|k p t i H IH Hi Hv Hp]; intros t' H'.
  - by inversion H'.
  - inversion H' as [E|k0 p0 t0 i0 H0 ? ? ?]; subst. by rewrite (IH t0).
Qed.

Lemma reach_path_up (m : memory) (root v t : Z) (k : nat) :
  reach m root k (path v k) t → ∀ d, (k + d <= TOP)%nat →
  ∃ t', reach m root (k + d) (path v (k + d)) t'.
Proof.
  intros H d. induction d as [|d IH]; intros Hd.
  - exists t. by rewrite Nat.add_0_r.
  - destruct IH as [t' H']; [lia|]. rewrite (path_step v (k + d)) in H' by lia.
    inversion H'; subst. rewrite Nat.add_succ_r. by eexists.
Qed.

(** One step of a walk. *)
Lemma reach_step_path (m : memory) (root v t : Z) (k : nat) :
  reach m root k (path v k) t → (k < TOP)%nat →
  ∃ t', reach m root (S k) (path v (S k)) t' ∧
    pte_valid (m (entry_addr t' (vpn v (S k)))) = true ∧
    pte_ps ar (m (entry_addr t' (vpn v (S k)))) = false ∧
    t = pte_frame ar (m (entry_addr t' (vpn v (S k)))).
Proof.
  intros H Hk. rewrite path_step in H by done. inversion H; subst. by eexists.
Qed.

Lemma frame_nonzero (m : memory) (root : Z) (U : Z → Prop) (k : nat) (p : list Z) (t i : Z) :
  tree m root U → reach m root (S k) p t → 0 <= i < 512 →
  pte_valid (m (entry_addr t i)) = true → pte_ps ar (m (entry_addr t i)) = false →
  pte_ppn ar (m (entry_addr t i)) ≠ 0.
Proof.
  intros Ht Hr Hi Hv Hp Hz.
  destruct (tree_frame _ _ _ Ht _ _ _ (reach_down _ _ _ _ _ _ Hr Hi Hv Hp)) as (_ & _ & Hpos).
  unfold pte_frame in Hpos. rewrite Hz in Hpos. done.
Qed.

(** The leaf a complete path leads to decides the translation. *)
Lemma translate_leaf (m : memory) (root : Z) (U : Z → Prop) (v t : Z) :
  tree m root U → reach m root 0 (path v 0) t → ∀ k t0, (k <= TOP)%nat →
  reach m root k (path v k) t0 →
  translate_from ar m t0 k v =
    if pte_valid (m (entry_addr t (vpn v 0)))
    then Some (Z.lor (pte_frame ar (m (entry_addr t (vpn v 0)))) (Z.land v 0xFFF)) else None.
Proof.
  intros Ht Hreach k. induction k as [|k IH]; intros t0 Hk Ht0.
  - rewrite (reach_det _ _ _ _ _ _ Ht0 Hreach). cbn [translate_from].
    by destruct (pte_valid _).
  - destruct (reach_path_up _ _ _ _ _ Hreach k ltac:(lia)) as [t1 Ht1]. simpl in Ht1.
    destruct (reach_step_path _ _ _ _ _ Ht1 ltac:(lia)) as (t' & Ht' & Hv & Hp & Heq).
    rewrite (reach_det _ _ _ _ _ _ Ht' Ht0) in *. cbn [translate_from]. rewrite Hv, Hp. cbn [negb].
    rewrite (proj2 (Z.eqb_neq _ _)).
    2:{ eapply frame_nonzero; [done|done|apply vpn_range|done|done]. }
    rewrite <- Heq. apply IH; [lia|done].
Qed.

(** Memories a walk cannot tell apart have the same tables and translations. *)
Definition same_mem (m m' : memory) : Prop := ∀ x, same_entry ar (m x) (m' x) ∧ (0 <= m x → 0 <= m' x).

Lemma reach_same (m m' : memory) (root : Z) (k : nat) (p : list Z) (t : Z) :
  (∀ x, same_entry ar (m x) (m' x)) → reach m root k p t → reach m' root k p t.
Proof.
  intros Hs. induction 1 as [|k p t i _ IH Hi Hv Hp]; [constructor|].
  destruct (Hs (entry_addr t i)) as (E1 & E2 & E3).
  replace (pte_frame ar (m (entry_addr t i))) with (pte_frame ar (m' (entry_addr t i)))
    by (unfold pte_frame; by rewrite E3).
  constructor; [done|done|congruence|congruence].
Qed.

Lemma same_entry_sym (e e' : Z) : same_entry ar e e' → same_entry ar e' e.
Proof. by intros (?&?&?). Qed.

Lemma tree_same (m m' : memory) (root : Z) (U : Z → Prop) :
  same_mem m m' → tree m root U → tree m' root U.
Proof.
  intros Hs [H1 H2 H3].
  assert (∀ k p t, reach m' root k p t → reach m root k p t) as Hback.
  { intros k p t. apply reach_same. intros x. apply same_entry_sym, Hs. }
  split.
  - intros k p t Hr. eauto.
  - intros k p t k' p' Hr Hr'. eauto.
  - intros k p t i Hr Hi. destruct (H3 k p t i (Hback _ _ _ Hr) Hi) as (G1 & G2 & G3).
    destruct (Hs (entry_addr t i)) as ((E1 & E2 & E3) & E4).
    split; [auto|]. rewrite <- E1, <- E2, <- E3. done.
Qed.

Lemma translate_same (m m' : memory) (k : nat) : ∀ (t v : Z),
  (∀ x, same_entry ar (m x) (m' x)) → translate_from ar m' t k v = translate_from ar m t k v.
Proof.
  induction k as [|k IH]; intros t v Hs; cbn [translate_from];
    [destruct (Hs (entry_addr t (vpn v 0))) as (E1 & E2 & E3)
    |destruct (Hs (entry_addr t (vpn v (S k)))) as (E1 & E2 & E3)];
    unfold pte_frame; rewrite <- E1, <- ?E2, <- E3.
  - done.
  - destruct (negb _); [done|]. destruct (pte_ps _ _); [done|]. destruct (_ =? 0); [done|]. auto.
Qed.

(** ** Hanging a new table into the tree *)

Section graft.
Context (m m' : memory) (root : Z) (U : Z → Prop) (k : nat) (p : list Z) (t i f : Z) (g : Z → Z).
Context (Htree : tree m root U) (Hreach : reach m root (S k) p t) (Hi : 0 <= i < 512).
Context (Hfresh : ¬ U f) (Hfal : f mod 4096 = 0) (Hfpos : 0 < f).
Context (Hnew : pte_valid (m' (entry_addr t i)) = true ∧ pte_ps ar (m' (entry_addr t i)) = false ∧
                pte_frame ar (m' (entry_addr t i)) = f ∧ entry_ok (S k) (m' (entry_addr t i))).
Context (Hold : pte_valid (m (entry_addr t i)) = false ∨ pte_ps ar (m (entry_addr t i)) = true).
Context (Hfill : ∀ j, 0 <= j < 512 → m' (entry_addr f j) = g j).
Context (Hg : ∀ j, 0 <= j < 512 → entry_ok k (g j) ∧ ((1 <= k)%nat → pte_valid (g j) = false)).
Context (Hout : ∀ x, x ≠ entry_addr t i → (∀ j, 0 <= j < 512 → x ≠ entry_addr f j) → m' x = m x).

Lemma graft_t : U t ∧ t mod 4096 = 0 ∧ 0 < t.
Proof. by eapply tree_frame. Qed.

(** Entries of old tables other than the one written. *)
Lemma graft_old_entry (k0 : nat) (p0 : list Z) (t0 j : Z) :
  reach m root k0 p0 t0 → 0 <= j < 512 → ¬ (t0 = t ∧ j = i) →
  m' (entry_addr t0 j) = m (entry_addr t0 j).
Proof.
  intros Hr Hj Hne. destruct (tree_frame _ _ _ Htree _ _ _ Hr) as (HU & Hal & _).
  destruct graft_t as (_ & Htal & _). apply Hout.
  - intros Heq. apply Hne. by apply entry_addr_inj.
  - intros j' Hj' Heq. apply Hfresh. apply entry_addr_inj in Heq as [<- _]; done.
Qed.

Lemma graft_reach_new (k0 : nat) (p0 : list Z) (t0 : Z) :
  reach m root k0 p0 t0 → reach m' root k0 p0 t0.
Proof.
  induction 1 as [|k0 p0 t0 j Hr IH Hj Hv Hp]; [constructor|].
  assert (¬ (t0 = t ∧ j = i)) as Hne.
  { intros [-> ->]. destruct Hold; congruence. }
  pose proof (graft_old_entry _ _ _ _ Hr Hj Hne) as Heq. rewrite <- Heq in *.
  by constructor.
Qed.

Lemma graft_reach_f : reach m' root k (i :: p) f.
Proof.
  destruct Hnew as (Hv & Hp & Hf & _). pose proof (graft_reach_new _ _ _ Hreach) as Hr'.
  rewrite <- Hf. by constructor.
Qed.

Lemma graft_reach_old (k0 : nat) (p0 : list Z) (t0 : Z) :
  reach m' root k0 p0 t0 → reach m root k0 p0 t0 ∨ (k0 = k ∧ p0 = i :: p ∧ t0 = f).
Proof.
  induction 1 as [|k0 p0 t0 j Hr [IH|(Hk & -> & ->)] Hj Hv Hp].
  - left. constructor.
  - destruct (decide (t0 = t ∧ j = i)) as [[-> ->]|Hne].
    + right. destruct (tree_inj _ _ _ Htree _ _ _ _ _ IH Hreach) as [Hk ->].
      injection Hk as ->. destruct Hnew as (_ & _ & -> & _). done.
    + pose proof (graft_old_entry _ _ _ _ IH Hj Hne) as Heq. rewrite Heq in *. left. by constructor.
  - rewrite Hfill in Hv by done. destruct (Hg j Hj) as [_ Hz]. rewrite Hz in Hv by lia. done.
Qed.

Lemma graft_tree (U' : Z → Prop) : (∀ x, U' x ↔ x = f ∨ U x) → tree m' root U'.
Proof.
  intros HU'. split.
  - intros k0 p0 t0 [Hr|(_ & _ & ->)]%graft_reach_old; rewrite HU'.
    + destruct (tree_frame _ _ _ Htree _ _ _ Hr) as (? & ? & ?). auto.
    + auto.
  - intros k0 p0 t0 k1 p1 [Hr|(-> & -> & ->)]%graft_reach_old [Hr'|(-> & -> & Hf)]%graft_reach_old.
    + by eapply tree_inj.
    + subst. by apply (tree_frame _ _ _ Htree) in Hr as [? _].
    + by apply (tree_frame _ _ _ Htree) in Hr' as [? _].
    + done.
  - intros k0 p0 t0 j [Hr|(-> & -> & ->)]%graft_reach_old Hj.
    + destruct (decide (t0 = t ∧ j = i)) as [[-> ->]|Hne].
      * destruct (tree_inj _ _ _ Htree _ _ _ _ _ Hr Hreach) as [-> ->]. apply Hnew.
      * rewrite (graft_old_entry _ _ _ _ Hr Hj Hne). by eapply tree_entry.
    + rewrite Hfill by done. by apply Hg.
Qed.

(** Translations stay, if the new table translates as the entry did. *)
Lemma graft_translate :
  (∀ v, vpn v (S k) = i → translate_from ar m' f k v = translate_from ar m t (S k) v) →
  ∀ k0 t0 v, reach m root k0 (path v k0) t0 →
  translate_from ar m' t0 k0 v = translate_from ar m t0 k0 v.
Proof.
  intros Hsem k0. induction k0 as [|k0 IH]; intros t0 v Hr.
  - cbn [translate_from]. rewrite (graft_old_entry _ _ _ _ Hr (vpn_range v 0)); [done|].
    intros [-> _]. destruct (tree_inj _ _ _ Htree _ _ _ _ _ Hr Hreach) as [? _]. done.
  - destruct (decide (t0 = t ∧ vpn v (S k0) = i)) as [[-> Hvi]|Hne].
    + destruct (tree_inj _ _ _ Htree _ _ _ _ _ Hr Hreach) as [Hk _]. injection Hk as ->.
      rewrite <- (Hsem v Hvi). destruct Hnew as (Hv & Hp & Hf & _).
      cbn [translate_from]. rewrite Hvi, Hv, Hp. cbn [negb]. rewrite Hf.
      destruct (Z.eqb_spec (pte_ppn ar (m' (entry_addr t i))) 0) as [Hz|]; [|done].
      unfold pte_frame in Hf. rewrite Hz in Hf. change (0 = f) in Hf. lia.
    + cbn [translate_from]. rewrite (graft_old_entry _ _ _ _ Hr (vpn_range v (S k0)) Hne).
      destruct (pte_valid (m (entry_addr t0 (vpn v (S k0))))) eqn:Hv; [|done].
      destruct (pte_ps ar (m (entry_addr t0 (vpn v (S k0))))) eqn:Hp; [done|].
      destruct (_ =? 0); [done|]. cbn [negb]. apply IH.
      assert (k0 < TOP)%nat by (apply reach_level in Hr as [? _]; lia).
      rewrite path_step by done. constructor; [done|apply vpn_range|done|done].
Qed.

End graft.

(** ** Writing a last-level entry *)

Section leaf.
Context (m : memory) (root : Z) (U : Z → Prop) (p : list Z) (t i e : Z).
Context (Htree : tree m root U) (Hreach : reach m root 0 p t) (Hi : 0 <= i < 512) (He : entry_ok 0 e).

Lemma leaf_other_entry (k0 : nat) (p0 : list Z) (t0 j : Z) :
  reach m root k0 p0 t0 → 0 <= j < 512 → ¬ (k0 = 0%nat ∧ p0 = p ∧ j = i) →
  write m (entry_addr t i) e (entry_addr t0 j) = m (entry_addr t0 j).
Proof.
  intros Hr Hj Hne. apply write_ne. intros Heq. apply Hne.
  destruct (tree_frame _ _ _ Htree _ _ _ Hr) as (_ & Hal & _).
  destruct (tree_frame _ _ _ Htree _ _ _ Hreach) as (_ & Htal & _).
  apply entry_addr_inj in Heq as [-> ->]; [|done..].
  by destruct (tree_inj _ _ _ Htree _ _ _ _ _ Hr Hreach).
Qed.

Lemma leaf_reach (k0 : nat) (p0 : list Z) (t0 : Z) :
  reach (write m (entry_addr t i) e) root k0 p0 t0 ↔ reach m root k0 p0 t0.
Proof.
  split; induction 1 as [|k0 p0 t0 j Hr IH Hj Hv Hp]; try constructor.
  - rewrite (leaf_other_entry (S k0) p0) in * by (done || by intros [? _]). by constructor.
  - rewrite <- (leaf_other_entry (S k0) p0 t0 j) in * by (done || by intros [? _]). by constructor.
Qed.

Lemma leaf_tree : tree (write m (entry_addr t i) e) root U.
Proof.
  split.
  - intros k0 p0 t0 Hr%leaf_reach. by eapply tree_frame.
  - intros k0 p0 t0 k1 p1 Hr%leaf_reach Hr'%leaf_reach. by eapply tree_inj.
  - intros k0 p0 t0 j Hr%leaf_reach Hj. destruct (decide (k0 = 0%nat ∧ p0 = p ∧ j = i)) as [(-> & -> & ->)|Hne].
    + rewrite (reach_det _ _ _ _ _ _ Hr Hreach), write_eq. done.
    + rewrite (leaf_other_entry _ _ _ _ Hr Hj Hne). by eapply tree_entry.
Qed.

Lemma leaf_translate_other (k0 : nat) : ∀ t0 v, reach m root k0 (path v k0) t0 →
  ¬ (path v 0 = p ∧ vpn v 0 = i) →
  translate_from ar (write m (entry_addr t i) e) t0 k0 v = translate_from ar m t0 k0 v.
Proof.
  induction k0 as [|k0 IH]; intros t0 v Hr Hne; cbn [translate_from].
  - by rewrite (leaf_other_entry 0 (path v 0) t0 (vpn v 0) Hr (vpn_range v 0)) by tauto.
  - rewrite (leaf_other_entry _ _ t0 _ Hr (vpn_range v (S k0))) by (by intros [? _]).
    destruct (pte_valid (m (entry_addr t0 (vpn v (S k0))))) eqn:Hv; [|done].
    destruct (pte_ps ar (m (entry_addr t0 (vpn v (S k0))))) eqn:Hp; [done|].
    destruct (_ =? 0); [done|]. cbn [negb]. apply IH; [|done].
    assert (k0 < TOP)%nat by (apply reach_level in Hr as [? _]; lia).
    rewrite path_step by done. constructor; [done|apply vpn_range|done|done].
Qed.

End leaf.

(** Two addresses whose walks end at the same entry. *)
Definition same_page (v v' : Z) : Prop := path v 0 = path v' 0 ∧ vpn v 0 = vpn v' 0.

#[global] Instance same_page_dec (v v' : Z) : Decision (same_page v v').
Proof. unfold same_page. apply _. Defined.

(** Writing the entry of [v] sets the translation of its page and no other. *)
Lemma leaf_write_translate (m : memory) (root : Z) (U : Z → Prop) (v t e : Z) :
  tree m root U → reach m root 0 (path v 0) t → entry_ok 0 e → ∀ v',
  translate_user ar (write m (entry_addr t (vpn v 0)) e) root v' =
    if decide (same_page v v') then
      if pte_valid e then Some (Z.lor (pte_frame ar e) (Z.land v' 0xFFF)) else None
    else translate_user ar m root v'.
Proof.
  intros Ht Hr He v'. pose proof (vpn_range v 0) as Hi. unfold translate_user.
  case_decide as Hs.
  - destruct Hs as [Hs1 Hs2]. rewrite (translate_leaf _ root U v' t).
    + by rewrite <- Hs2, write_eq.
    + by eapply leaf_tree.
    + rewrite leaf_reach; [|done..]. by rewrite <- Hs1.
    + done.
    + change (TOP_LEVEL ar) with TOP. rewrite path_top. constructor.
  - eapply leaf_translate_other; [done|done|done|..].
    + change (TOP_LEVEL ar) with TOP. rewrite path_top. constructor.
    + intros [H1 H2]. by apply Hs.
Qed.

End tree.

(** ** [map] *)

Section map.
Context (ar : arch) {A : Type} `{FrameSource A}.

(** A page table rooted at [root], all of whose tables are allocated frames. *)
Definition good (s : @State A) (root : Z) : Prop :=
  tree ar (mem s) root (fs_used (frames s)) ∧ fs_inv (frames s).

Lemma zero_table_in (m : memory) (t j : Z) : 0 <= j < 512 → zero_table m t (entry_addr t j) = 0.
Proof.
  intros Hj. replace j with (Z.of_nat (Z.to_nat j)) by lia.
  unfold zero_table. apply (fill_in (fun _ => 0)). unfold PTE_COUNT. lia.
Qed.

Lemma zero_table_out (m : memory) (t x : Z) :
  (∀ j, 0 <= j < 512 → x ≠ entry_addr t j) → zero_table m t x = m x.
Proof. intros Hx. unfold zero_table. apply (fill_out (fun _ => 0)). intros i Hi. apply Hx. unfold PTE_COUNT in Hi. lia. Qed.

Lemma split_table_in (m : memory) (t e sz j : Z) :
  0 <= j < 512 → split_table ar m t e sz (entry_addr t j) = split_entry ar e sz (Z.to_nat j).
Proof.
  intros Hj. unfold split_table. rewrite <- (Z2Nat.id j) at 1 by lia.
  apply (fill_in (split_entry ar e sz)). unfold PTE_COUNT. lia.
Qed.

Lemma split_table_out (m : memory) (t e sz x : Z) :
  (∀ j, 0 <= j < 512 → x ≠ entry_addr t j) → split_table ar m t e sz x = m x.
Proof.
  intros Hx. unfold split_table. apply (fill_out (split_entry ar e sz)). intros i Hi. apply Hx. unfold PTE_COUNT in Hi. lia.
Qed.

(** [zeroed] finds a frame while one is free. *)
Lemma zeroed_ok (s : @State A) : fs_inv (frames s) → (0 < fs_free (frames s))%nat →
  ∃ f fa, zeroed s = Ret (f, mkState (zero_table (mem s) f) fa) ∧ fs_inv fa ∧
    ¬ fs_used (frames s) f ∧ f mod 4096 = 0 ∧ 0 < f < 2 ^ 52 ∧
    (∀ g, fs_used fa g ↔ g = f ∨ fs_used (frames s) g) ∧ fs_free (frames s) = S (fs_free fa).
Proof.
  intros Hinv Hfree. destruct (fs_alloc_ok _ Hinv) as (r & fa & Ha & Hinv' & Hr).
  destruct r as [f|]; [|lia]. exists f, fa. unfold zeroed. rewrite Ha. done.
Qed.

(** The entry that points to a table. *)
Lemma table_entry_ok (f fl : Z) (k : nat) :
  f mod 4096 = 0 → 0 < f < 2 ^ 52 → flags_ok ar fl → Z.testbit fl 0 = true → pte_ps ar fl = false →
  let e := pte_new ar (Z.shiftr f 12) fl in
  pte_valid e = true ∧ pte_ps ar e = false ∧ pte_frame ar e = f ∧ entry_ok ar k e.
Proof.
  intros Hal Hf Hfl Hv Hp e.
  assert (Z.shiftr f 12 = f / 4096) as Hs by (by rewrite Z.shiftr_div_pow2).
  assert (0 <= f / 4096 < 2 ^ 40) as Hr by (Z.to_euclidean_division_equations; lia).
  assert (pte_ppn ar e = f / 4096) as Hppn by (subst e; rewrite Hs; by apply pte_new_ppn).
  assert (pte_ps ar e = false) as Hps by (subst e; rewrite Hs, pte_new_ps; done).
  split; [subst e; rewrite Hs, pte_new_valid; done|]. split; [done|].
  split; [rewrite pte_frame_ppn; rewrite Hppn; [Z.to_euclidean_division_equations; lia|done]|].
  split; [subst e; rewrite Hs; by apply pte_new_nonneg|]. split; [congruence|]. by rewrite Hppn.
Qed.

(** A frame in use that is no table of the tree, so a page of data. *)
Definition data_frame (s : @State A) (root g : Z) : Prop :=
  fs_used (frames s) g ∧ g mod 4096 = 0 ∧ ∀ k p, ¬ reach ar (mem s) root k p g.

(** What one step of the walk keeps: the translations, the allocated frames, and
    the contents of the data frames. *)
Definition extends (s s' : @State A) (root : Z) : Prop :=
  (∀ v, translate_user ar (mem s') root v = translate_user ar (mem s) root v) ∧
  (∀ g, fs_used (frames s) g → fs_used (frames s') g) ∧
  ∀ g, data_frame s root g → data_frame s' root g ∧
    ∀ j, 0 <= j < 512 → mem s' (entry_addr g j) = mem s (entry_addr g j).

Lemma extends_trans (s1 s2 s3 : @State A) (root : Z) :
  extends s1 s2 root → extends s2 s3 root → extends s1 s3 root.
Proof.
  intros (H1 & H2 & H3) (H4 & H5 & H6). split; [intros v; by rewrite H4|]. split; [auto|].
  intros g (Hd & He)%H3. destruct (H6 g Hd) as [Hd' He']. split; [done|].
  intros j Hj. by rewrite He', He.
Qed.

(** A write into a table leaves the data frames alone. *)
Lemma data_frame_ne (s : @State A) (root g j t i : Z) (k : nat) (p : list Z) :
  good s root → data_frame s root g → reach ar (mem s) root k p t → 0 <= i < 512 → 0 <= j < 512 →
  entry_addr g j ≠ entry_addr t i.
Proof.
  intros [Ht _] (_ & Hal & Hn) Hr Hi Hj Heq.
  destruct (tree_frame _ _ _ _ Ht _ _ _ Hr) as (_ & Htal & _).
  apply entry_addr_inj in Heq as [-> _]; [by eapply Hn|done..].
Qed.

Lemma reach_root (m : memory) (root v : Z) : reach ar m root (TOP ar) (path ar v (TOP ar)) root.
Proof. rewrite path_top. constructor. Qed.

Lemma reach_next (m : memory) (root v t : Z) (k : nat) :
  reach ar m root (S k) (path ar v (S k)) t →
  pte_valid (m (entry_addr t (vpn v (S k)))) = true →
  pte_ps ar (m (entry_addr t (vpn v (S k)))) = false →
  reach ar m root k (path ar v k) (pte_frame ar (m (entry_addr t (vpn v (S k))))).
Proof.
  intros Hr Hv Hp. rewrite path_step by (apply reach_level in Hr as [? _]; lia).
  constructor; [done|apply vpn_range|done|done].
Qed.

(** The state in which [map] goes on below a table entry. *)
Definition set_user (s : @State A) (a fl : Z) : @State A :=
  match ar with
  | Riscv64 => s
  | X86_64 => set_mem s (write (mem s) a (ensure_nonleaf_user_bit ar (mem s a) fl))
  end.

Lemma set_user_same (s : @State A) (a fl : Z) : 0 <= mem s a → same_mem ar (mem s) (mem (set_user s a fl)).
Proof.
  intros Ha x. unfold set_user, ensure_nonleaf_user_bit. destruct ar eqn:Har; [done|]. cbn [mem set_mem].
  destruct (decide (x = a)) as [->|Hne]; [|by rewrite write_ne].
  rewrite write_eq. split; [by apply (user_bit_same X86_64)|].
  intros _. destruct (_ && _); [|done]. apply Z.lor_nonneg. done.
Qed.

(** Going down through an entry that points to a table. *)
Lemma descend (s : @State A) (root t v pa fl : Z) (k : nat) :
  good s root → reach ar (mem s) root (S k) (path ar v (S k)) t →
  let a := entry_addr t (vpn v (S k)) in
  pte_valid (mem s a) = true → pte_ps ar (mem s a) = false →
  map_from ar s t (S k) v pa fl = map_from ar (set_user s a fl) (pte_frame ar (mem s a)) k v pa fl ∧
  good (set_user s a fl) root ∧ frames (set_user s a fl) = frames s ∧
  reach ar (mem (set_user s a fl)) root k (path ar v k) (pte_frame ar (mem s a)) ∧
  extends s (set_user s a fl) root.
Proof.
  intros [Ht Hinv] Hr a Hv Hp. pose proof (vpn_range v (S k)) as Hi.
  destruct (tree_entry _ _ _ _ Ht _ _ _ _ Hr Hi) as (H0 & _ & _).
  pose proof (set_user_same s a fl H0) as Hsame.
  pose proof (frame_nonzero _ _ _ _ _ _ _ _ Ht Hr Hi Hv Hp) as Hnz. fold a in Hnz.
  assert (frames (set_user s a fl) = frames s) as Hfr by (unfold set_user; by destruct ar).
  split; [|split; [|split; [done|split]]].
  - cbn [map_from]. fold a. rewrite Hv. cbn [exec_bind]. rewrite Hp. unfold set_user.
    destruct ar; [done|]. by rewrite (proj2 (Z.eqb_neq _ _) Hnz).
  - split; rewrite Hfr; [|done]. by eapply tree_same.
  - eapply reach_same; [apply Hsame|]. by apply reach_next.
  - split; [intros v'; unfold translate_user; apply translate_same, Hsame|].
    split; [by rewrite Hfr|]. intros g Hg. split.
    + destruct Hg as (Hu & Hgal & Hn). split; [by rewrite Hfr|]. split; [done|].
      intros k' p' Hr'. apply (Hn k' p'). eapply reach_same; [|exact Hr'].
      intros x. apply same_entry_sym, Hsame.
    + intros j Hj. unfold set_user. destruct ar eqn:Har; [done|]. apply write_ne.
      rewrite <- Har in *. by eapply data_frame_ne.
Qed.

(** A fresh frame [f], filled with the entries [g], below the entry of [v]. *)
Lemma graft_state (s : @State A) (fa : A) (mf : memory) (root v t f e : Z) (k : nat) (g : Z → Z) :
  good s root → reach ar (mem s) root (S k) (path ar v (S k)) t →
  let a := entry_addr t (vpn v (S k)) in
  fs_inv fa → ¬ fs_used (frames s) f → f mod 4096 = 0 → 0 < f →
  (∀ x, fs_used fa x ↔ x = f ∨ fs_used (frames s) x) →
  pte_valid e = true ∧ pte_ps ar e = false ∧ pte_frame ar e = f ∧ entry_ok ar (S k) e →
  pte_valid (mem s a) = false ∨ pte_ps ar (mem s a) = true →
  (∀ j, 0 <= j < 512 → mf (entry_addr f j) = g j) →
  (∀ x, (∀ j, 0 <= j < 512 → x ≠ entry_addr f j) → mf x = mem s x) →
  (∀ j, 0 <= j < 512 → entry_ok ar k (g j) ∧ ((1 <= k)%nat → pte_valid (g j) = false)) →
  (∀ v', vpn v' (S k) = vpn v (S k) →
    translate_from ar (write mf a e) f k v' = translate_from ar (mem s) t (S k) v') →
  let s' := mkState (write mf a e) fa in
  good s' root ∧ reach ar (mem s') root (S k) (path ar v (S k)) t ∧
  reach ar (mem s') root k (path ar v k) f ∧ extends s s' root.
Proof.
  intros [Ht Hinv] Hr a Hfa Hfresh Hal Hpos HU He Hold Hin Hout Hg Hsem s'.
  pose proof (vpn_range v (S k)) as Hi.
  destruct (tree_frame _ _ _ _ Ht _ _ _ Hr) as (HUt & Htal & _).
  assert (∀ j, 0 <= j < 512 → a ≠ entry_addr f j) as Ha.
  { intros j Hj Heq. apply Hfresh. apply entry_addr_inj in Heq as [<- _]; done. }
  assert (∀ j, 0 <= j < 512 → write mf a e (entry_addr f j) = g j) as Hin'.
  { intros j Hj. rewrite write_ne; [auto|]. intros Heq. by apply (Ha j Hj). }
  assert (∀ x, x ≠ a → (∀ j, 0 <= j < 512 → x ≠ entry_addr f j) → write mf a e x = mem s x) as Hout'.
  { intros x Hx Hj. rewrite write_ne by done. auto. }
  rewrite <- (write_eq mf a e : _ = e) in He.
  split; [split; [|done]|split; [|split; [|split; [|split]]]]; cbn [mem frames s'].
  - eapply (graft_tree ar (mem s)); eauto.
  - eapply (graft_reach_new ar (mem s)); eauto.
  - rewrite path_step by (apply reach_level in Hr as [? _]; lia).
    eapply (graft_reach_f ar (mem s)); eauto.
  - intros v'. eapply (graft_translate ar (mem s)); eauto. apply reach_root.
  - intros x Hx. apply HU. by right.
  - intros h Hh. pose proof Hh as (Hu & Hhal & Hn). split.
    + split; [apply HU; by right|]. split; [done|]. intros k' p' Hr'.
      assert (reach ar (mem s) root k' p' h ∨ (k' = k ∧ p' = vpn v (S k) :: path ar v (S k) ∧ h = f))
        as [Hr2|(_ & _ & E)] by (eapply (graft_reach_old ar (mem s)); eauto); [by eapply Hn|congruence].
    + intros j Hj. apply Hout'; [by eapply data_frame_ne|].
      intros j' Hj' Heq. apply Hfresh. apply entry_addr_inj in Heq as [E _]; [by rewrite <- E|done..].
Qed.

(** A missing table: [map] first adds an empty one. *)
Lemma insert_ok (s : @State A) (root t v pa fl : Z) (k : nat) :
  good s root → reach ar (mem s) root (S k) (path ar v (S k)) t →
  let a := entry_addr t (vpn v (S k)) in
  pte_valid (mem s a) = false → (0 < fs_free (frames s))%nat →
  ∃ s', map_from ar s t (S k) v pa fl = map_from ar s' t (S k) v pa fl ∧
    good s' root ∧ reach ar (mem s') root (S k) (path ar v (S k)) t ∧
    pte_valid (mem s' a) = true ∧ pte_ps ar (mem s' a) = false ∧
    fs_free (frames s) = S (fs_free (frames s')) ∧ extends s s' root.
Proof.
  intros Hgood Hr a Hv Hfree.
  destruct (zeroed_ok s (proj2 Hgood) Hfree) as (f & fa & Hz & Hfa & Hfresh & Hal & Hf & HU & Hcount).
  set (e := pte_nonleaf ar (Z.shiftr f 12)).
  assert (pte_valid e = true ∧ pte_ps ar e = false ∧ pte_frame ar e = f ∧ entry_ok ar (S k) e) as He.
  { destruct (pte_nonleaf_flags ar) as (nl & Hnl & Hok & Hbit & Hps).
    subst e. rewrite Hnl. by apply table_entry_ok. }
  destruct (graft_state s fa (zero_table (mem s) f) root v t f e k (fun _ => 0))
    as (G1 & G2 & _ & G3); try done; [lia|by left|..].
  { intros j Hj. by apply zero_table_in. }
  { intros x Hx. by apply zero_table_out. }
  { intros v' Hv'. destruct k as [|k]; cbn [translate_from]; rewrite Hv'; fold a; rewrite Hv.
    all: rewrite write_ne, zero_table_in by (apply vpn_range || (intros Heq; apply Hfresh;
      destruct (tree_frame _ _ _ _ (proj1 Hgood) _ _ _ Hr) as (HUt & Htal & _);
      apply entry_addr_inj in Heq as [-> _]; [done|done|done|apply vpn_range|apply vpn_range])); done. }
  exists (mkState (write (zero_table (mem s) f) a e) fa).
  destruct He as (He1 & He2 & _). fold a in G1, G2, G3.
  assert (mem (mkState (write (zero_table (mem s) f) a e) fa) a = e) as Hwe by apply write_eq.
  split; [|rewrite Hwe; by split_and!].
  cbn [map_from]. fold a. rewrite Hv, Hwe, He1, Hz. cbn [exec_bind set_mem mem frames]. fold e.
  rewrite write_eq. done.
Qed.

End map.

(** ** Splitting a 2 MiB page *)

Lemma split_entry_nonneg (e sz : Z) (i : nat) : 0 <= e → 0 <= split_entry X86_64 e sz i.
Proof.
  intros He. unfold split_entry. apply Z.lor_nonneg. split; [apply u64_range|].
  destruct (_ <? _); [done|]. apply Z.land_nonneg. by left.
Qed.

(** The address of a page inside a 2 MiB page. *)
Lemma huge_page_offset (e v : Z) :
  pte_ppn X86_64 e mod 512 = 0 →
  Z.lor (pte_frame X86_64 e) (Z.land v (2 ^ 21 - 1)) =
  Z.lor ((pte_ppn X86_64 e + vpn v 0) * 2 ^ 12) (Z.land v 0xFFF).
Proof.
  intros Hal. pose proof (pte_ppn_x86_range e) as Hp. rewrite pte_frame_ppn by done.
  set (p := pte_ppn X86_64 e) in *.
  change (2 ^ 21 - 1) with (Z.ones 21). change 0xFFF with (Z.ones 12).
  rewrite !Z.land_ones by lia.
  replace (p * 4096) with (p / 512 * 2 ^ 21) by (Z.to_euclidean_division_equations; lia).
  rewrite (lor_low _ 21), (lor_low _ 12) by (Z.to_euclidean_division_equations; lia). rewrite vpn_eq. change (12 + 9 * Z.of_nat 0) with 12.
  Z.to_euclidean_division_equations; lia.
Qed.

Lemma shift_back (f : Z) : f mod 4096 = 0 → 0 < f < 2 ^ 52 → u64 (Z.shiftl (Z.shiftr f 12) 12) = f.
Proof.
  intros Hal Hf. rewrite Z.shiftr_div_pow2, Z.shiftl_mul_pow2 by lia.
  rewrite u64_small; Z.to_euclidean_division_equations; lia.
Qed.

Lemma split_ok {A : Type} `{FrameSource A} (s : @State A) (root t v pa fl : Z) (k : nat) :
  good X86_64 s root → reach X86_64 (mem s) root (S k) (path X86_64 v (S k)) t →
  let a := entry_addr t (vpn v (S k)) in
  pte_valid (mem s a) = true → pte_ps X86_64 (mem s a) = true → (0 < fs_free (frames s))%nat →
  ∃ s' t', map_from X86_64 s t (S k) v pa fl = Ret (map_leaf X86_64 s' t' v pa fl) ∧
    good X86_64 s' root ∧ reach X86_64 (mem s') root 0 (path X86_64 v 0) t' ∧
    fs_free (frames s) = S (fs_free (frames s')) ∧ extends X86_64 s s' root.
Proof.
  intros Hgood Hr a Hv Hp Hfree. pose proof (vpn_range v (S k)) as Hi.
  destruct (tree_entry _ _ _ _ (proj1 Hgood) _ _ _ _ Hr Hi) as (H0 & Hhuge & _). fold a in H0, Hhuge.
  destruct (Hhuge ltac:(lia) Hv Hp) as [Hk Hal512]. injection Hk as ->.
  destruct (zeroed_ok s (proj2 Hgood) Hfree) as (f & fa & Hz & Hfa & Hfresh & Hal & Hf & HU & Hcount).
  destruct (tree_frame _ _ _ _ (proj1 Hgood) _ _ _ Hr) as (HUt & Htal & _).
  assert (∀ j, 0 <= j < 512 → a ≠ entry_addr f j) as Ha.
  { intros j Hj Heq. apply Hfresh. apply entry_addr_inj in Heq as [<- _]; done. }
  set (mz := zero_table (mem s) f) in *.
  assert (mz a = mem s a) as Hmza by (by apply zero_table_out).
  set (e := pte_new X86_64 (Z.shiftr f 12) NON_LEAF_FLAGS).
  destruct (graft_state X86_64 s fa (split_table X86_64 mz f (mem s a) (2 ^ 12)) root v t f e 0
    (fun j => split_entry X86_64 (mem s a) (2 ^ 12) (Z.to_nat j))) as (G1 & _ & G2 & G3);
    try assumption; [lia|apply table_entry_ok; try done; by apply flags_ok_small|by right|..].
  { intros j Hj. by apply split_table_in. }
  { intros x Hx. rewrite split_table_out by done. by apply zero_table_out. }
  { intros j Hj. split; [|lia]. split; [by apply split_entry_nonneg|].
    split; [lia|]. intros _. apply pte_ppn_x86_range. }
  { intros v' Hv'. cbn [translate_from]. rewrite Hv'. fold a. rewrite Hv, Hp. cbn [negb].
    pose proof (vpn_range v' 0) as Hi'.
    rewrite write_ne by (intros Heq; by apply (Ha _ Hi')). rewrite split_table_in by done.
    destruct (split_entry_spec (mem s a) (Z.to_nat (vpn v' 0))) as [-> Hppn]; [done|lia|done|done|].
    cbn [negb]. change (Z.shiftl 1 (12 + 9 * Z.of_nat 1) - 1) with (2 ^ 21 - 1).
    rewrite (huge_page_offset (mem s a) v') by done. f_equal. f_equal.
    rewrite pte_frame_ppn by apply pte_ppn_x86_range. rewrite Hppn. f_equal. lia. }
  eexists _, f. split; [|split; [exact G1|split; [exact G2|split; [done|exact G3]]]].
  cbn [map_from]. fold a. rewrite Hv. cbn [exec_bind]. rewrite Hp, Hz. cbn [exec_bind].
  rewrite shift_back by done. done.
Qed.

(** ** The physical allocator as frame source *)

Definition free_frames (fa : FrameAllocator) : gset Z :=
  list_to_set (seqZ 0 (total_frames fa)) ∖ used fa.

Lemma elem_of_free_frames (fa : FrameAllocator) (i : Z) :
  i ∈ free_frames fa ↔ 0 <= i < total_frames fa ∧ i ∉ used fa.
Proof. unfold free_frames. rewrite elem_of_difference, elem_of_list_to_set, elem_of_seqZ. done. Qed.

(** The managed range lies above address zero, within 52 bits. *)
Definition pmm_inv (fa : FrameAllocator) : Prop :=
  wf fa ∧ 0 < start fa ∧ start fa + total_frames fa * PAGE_SIZE <= 2 ^ 52.

(** No free frame has the address [f]. *)
Definition pmm_used (fa : FrameAllocator) (f : Z) : Prop := ¬ ∃ i, i ∈ free_frames fa ∧ f = frame_addr fa i.

Lemma free_frames_take (fa fa' : FrameAllocator) (i : Z) :
  0 <= i < total_frames fa → i ∉ used fa → total_frames fa' = total_frames fa →
  used fa' = {[i]} ∪ used fa → size (free_frames fa) = S (size (free_frames fa')).
Proof.
  intros Hi Hu Ht Hu'.
  assert (free_frames fa = {[i]} ∪ free_frames fa') as ->.
  { apply set_eq. intros j. rewrite elem_of_union, elem_of_singleton, !elem_of_free_frames, Ht, Hu'.
    destruct (decide (j = i)) as [->|]; set_solver. }
  rewrite size_union, size_singleton; [done|].
  apply disjoint_singleton_l. rewrite elem_of_free_frames. set_solver.
Qed.

Lemma pmm_alloc_ok (fa : FrameAllocator) : pmm_inv fa →
  ∃ r fa', alloc fa = Ret (r, fa') ∧ pmm_inv fa' ∧
    match r with
    | Some f => ¬ pmm_used fa f ∧ f mod 4096 = 0 ∧ 0 < f < 2 ^ 52 ∧
                (∀ g, pmm_used fa' g ↔ g = f ∨ pmm_used fa g) ∧
                size (free_frames fa) = S (size (free_frames fa'))
    | None => fa' = fa ∧ size (free_frames fa) = 0%nat
    end.
Proof.
  intros (Hwf & Hpos & Hend). destruct (alloc_spec fa Hwf) as (r & fa' & -> & Hwf' & Hs & Ht & Hr).
  exists r, fa'. split; [done|]. split; [split; [done|]; by rewrite Hs, Ht|].
  destruct r as [f|].
  - destruct Hr as (i & -> & Hi & Hu & Hu').
    assert (∀ g, (∃ j, j ∈ free_frames fa' ∧ g = frame_addr fa' j) ↔
      g ≠ frame_addr fa i ∧ ∃ j, j ∈ free_frames fa ∧ g = frame_addr fa j) as Hfree.
    { intros g. unfold frame_addr, PAGE_SIZE. rewrite Hs. setoid_rewrite elem_of_free_frames. rewrite Ht, Hu'.
      split.
      - intros (j & [Hj Hn] & ->). split; [|exists j; set_solver]. intros Heq. replace j with i in Hn by lia. set_solver.
      - intros (Hne & j & [Hj Hn] & ->). exists j. split; [|done]. split; [done|].
        intros [ ->%elem_of_singleton|?]%elem_of_union; done. }
    split; [intros Hn; apply Hn; exists i; by rewrite elem_of_free_frames|].
    split; [apply wf_aligned in Hwf; unfold frame_addr, PAGE_SIZE in *; Z.to_euclidean_division_equations; lia|].
    split; [unfold frame_addr, PAGE_SIZE in *; lia|]. split; [|by eapply free_frames_take].
    intros g. unfold pmm_used. rewrite Hfree. destruct (decide (g = frame_addr fa i)) as [->|]; tauto.
  - destruct Hr as [-> Hall]. split; [done|]. apply size_empty_iff, elem_of_equiv_empty. intros i.
    intros [Hi Hn]%elem_of_free_frames. set_solver.
Qed.

#[global] Instance pmm_frame_source : FrameSource FrameAllocator := {|
  fs_inv := pmm_inv; fs_used := pmm_used; fs_free := fun fa => size (free_frames fa);
  fs_alloc := alloc; fs_dealloc := Pmm.dealloc; fs_alloc_ok := pmm_alloc_ok;
|}.

(** ** The walk of [map] *)

Section claims.
Context (ar : arch) {A : Type} `{FrameSource A}.

Lemma map_from_walk (root v pa fl : Z) (k : nat) : ∀ (s : @State A) (t : Z),
  good ar s root → reach ar (mem s) root k (path ar v k) t → (k <= fs_free (frames s))%nat →
  ∃ s1 t1, map_from ar s t k v pa fl = Ret (map_leaf ar s1 t1 v pa fl) ∧
    good ar s1 root ∧ reach ar (mem s1) root 0 (path ar v 0) t1 ∧
    (fs_free (frames s) <= k + fs_free (frames s1))%nat ∧ extends ar s s1 root.
Proof.
  induction k as [|k IH]; intros s t Hgood Hr Hfree; [by exists s, t|].
  set (a := entry_addr t (vpn v (S k))).
  assert (∀ s', good ar s' root → reach ar (mem s') root (S k) (path ar v (S k)) t →
    pte_valid (mem s' a) = true → pte_ps ar (mem s' a) = false → (k <= fs_free (frames s'))%nat →
    ∃ s1 t1, map_from ar s' t (S k) v pa fl = Ret (map_leaf ar s1 t1 v pa fl) ∧
      good ar s1 root ∧ reach ar (mem s1) root 0 (path ar v 0) t1 ∧
      (fs_free (frames s') <= k + fs_free (frames s1))%nat ∧ extends ar s' s1 root) as Hdown.
  { intros s' Hgood' Hr' Hv Hp Hfree'.
    destruct (descend ar s' root t v pa fl k Hgood' Hr' Hv Hp) as (-> & Hg & Hfr & Hr2 & Hext).
    destruct (IH _ _ Hg Hr2) as (s1 & t1 & Hm & Hg1 & Hr1 & Hc1 & Hext1); [by rewrite Hfr|].
    exists s1, t1. rewrite Hfr in Hc1. split_and!; [done..|by eapply extends_trans]. }
  destruct (pte_valid (mem s a)) eqn:Hv.
  - destruct (pte_ps ar (mem s a)) eqn:Hp.
    + destruct ar; [done|].
      destruct (split_ok s root t v pa fl k Hgood Hr Hv Hp ltac:(lia)) as (s1 & t1 & ? & ? & ? & ? & ?).
      exists s1, t1. split_and!; (done || lia).
    + destruct (Hdown s Hgood Hr Hv Hp ltac:(lia)) as (s1 & t1 & ? & ? & ? & ? & ?).
      exists s1, t1. split_and!; (done || lia).
  - destruct (insert_ok ar s root t v pa fl k Hgood Hr Hv ltac:(lia))
      as (s' & -> & Hg & Hr' & Hv' & Hp' & Hcount & Hext).
    destruct (Hdown s' Hg Hr' Hv' Hp' ltac:(lia)) as (s1 & t1 & Hm & Hg1 & Hr1 & Hc1 & Hext1).
    exists s1, t1. split_and!; [done..|lia|by eapply extends_trans].
Qed.

(** The addresses the tables cover. *)
Definition VA_LIMIT : Z := 2 ^ (12 + 9 * (Z.of_nat (TOP ar) + 1)).

Lemma same_page_iff (v v' : Z) :
  0 <= v < VA_LIMIT → 0 <= v' < VA_LIMIT → same_page ar v v' ↔ v / 4096 = v' / 4096.
Proof.
  unfold VA_LIMIT, same_page, path, TOP, TOP_LEVEL. intros Hv Hv'. split.
  - destruct ar; cbn [seq fmap list_fmap Nat.sub] in *; intros [Hp H0]; injection Hp;
      rewrite !vpn_eq in *; cbn [Z.of_nat Pos.of_succ_nat Pos.succ] in *; intros;
      Z.to_euclidean_division_equations; lia.
  - intros Heq.
    assert (∀ k, vpn v k = vpn v' k) as Hk.
    { intros k. rewrite !vpn_eq, Z.pow_add_r, <- !Z.div_div by lia.
      change (2 ^ 12) with 4096. by rewrite Heq. }
    split; [|done]. apply list_fmap_ext. intros; apply Hk.
Qed.

End claims.

(** Pages that are no table of the tree stay so and keep their contents. *)
Definition keeps_data (ar : arch) (m m' : memory) (root : Z) : Prop :=
  ∀ g, g mod 4096 = 0 → (∀ k p, ¬ reach ar m root k p g) →
    (∀ k p, ¬ reach ar m' root k p g) ∧
    ∀ j, 0 <= j < 512 → m' (entry_addr g j) = m (entry_addr g j).

Lemma keeps_data_refl (ar : arch) (m : memory) (root : Z) : keeps_data ar m m root.
Proof. by intros g. Qed.

Lemma keeps_data_trans (ar : arch) (m1 m2 m3 : memory) (root : Z) :
  keeps_data ar m1 m2 root → keeps_data ar m2 m3 root → keeps_data ar m1 m3 root.
Proof.
  intros H1 H2 g Hg Hn. destruct (H1 g Hg Hn) as [Hn2 E2]. destruct (H2 g Hg Hn2) as [Hn3 E3].
  split; [done|]. intros j Hj. by rewrite E3, E2.
Qed.

Lemma leaf_keeps_data (ar : arch) (m : memory) (root : Z) (U : Z → Prop) (p : list Z) (t i e : Z) :
  tree ar m root U → reach ar m root 0 p t → 0 <= i < 512 → entry_ok ar 0 e →
  keeps_data ar m (write m (entry_addr t i) e) root.
Proof.
  intros Ht Hr Hi He g Hg Hn. split.
  - intros k p' Hr'. apply (Hn k p'). by eapply leaf_reach.
  - intros j Hj. apply write_ne. intros Heq.
    destruct (tree_frame _ _ _ _ Ht _ _ _ Hr) as (_ & Htal & _).
    apply entry_addr_inj in Heq as [-> _]; [by eapply Hn|done..].
Qed.

Lemma leaf_entry_ok (ar : arch) (p fl : Z) :
  flags_ok ar fl → 0 <= p < 2 ^ 40 → entry_ok ar 0 (pte_new ar p fl).
Proof. intros Hfl Hp. split; [by apply pte_new_nonneg|]. split; [lia|]. by rewrite pte_new_ppn. Qed.

(** What [map] does on a well-formed table with a frame for each missing level. *)
Lemma map_spec (ar : arch) {A : Type} `{FrameSource A} (s : @State A) (root v pa fl : Z) :
  good ar s root → (TOP_LEVEL ar <= fs_free (frames s))%nat →
  0 <= v < VA_LIMIT ar → 0 <= pa < 2 ^ 52 → flags_ok ar fl → Z.testbit fl 0 = true →
  ∃ s', map ar s root v pa fl = Ret s' ∧ good ar s' root ∧
    (∀ v', 0 <= v' < VA_LIMIT ar →
      translate_user ar (mem s') root v' =
        if decide (v' / 4096 = v / 4096) then Some (pa / 4096 * 4096 + v' mod 4096)
        else translate_user ar (mem s) root v') ∧
    (∀ g, data_frame ar s root g → data_frame ar s' root g ∧
      ∀ j, 0 <= j < 512 → mem s' (entry_addr g j) = mem s (entry_addr g j)) ∧
    (fs_free (frames s) <= TOP_LEVEL ar + fs_free (frames s'))%nat ∧
    (∀ g, fs_used (frames s) g → fs_used (frames s') g).
Proof.
  intros Hgood Hfree Hv Hpa Hfl Hbit.
  destruct (map_from_walk ar root v pa fl (TOP ar) s root Hgood (reach_root ar _ _ _) Hfree)
    as (s1 & t1 & Hm & [Ht1 Hinv1] & Hr1 & Hc & Htr & Hu & Hd).
  assert (0 <= pa / 4096 < 2 ^ 40) as Hppn by (Z.to_euclidean_division_equations; lia).
  assert (entry_ok ar 0 (pte_new ar (Z.shiftr pa 12) fl)) as He.
  { apply leaf_entry_ok; [done|]. by rewrite Z.shiftr_div_pow2. }
  exists (map_leaf ar s1 t1 v pa fl). split; [exact Hm|]. split.
  { split; [|done]. eapply leaf_tree; [done|done|apply vpn_range|done]. }
  split; [|split; [|done]].
  - intros v' Hv'. cbn [map_leaf mem set_mem].
    rewrite (leaf_write_translate ar (mem s1) root (fs_used (frames s1)) v t1) by done.
    pose proof (same_page_iff ar v v' Hv Hv') as Hsame. rewrite Z.shiftr_div_pow2 by done.
    do 2 case_decide; [|naive_solver..|done].
    rewrite pte_new_valid, Hbit by done. f_equal. rewrite pte_frame_ppn; rewrite pte_new_ppn by done; [|done].
    change 0xFFF with (Z.ones 12). rewrite Z.land_ones by done. apply (lor_low _ 12); [done|].
    Z.to_euclidean_division_equations; lia.
  - intros g [(Hug & Hg & Hn) E]%Hd.
    destruct (leaf_keeps_data ar (mem s1) root _ _ _ _ _ Ht1 Hr1 (vpn_range v 0) He g Hg Hn) as [Hn' E'].
    split; [done|]. intros j Hj. cbn [map_leaf mem set_mem]. by rewrite E', E.
Qed.

(** C2: [map_user] on a well-formed page table with a frame left for each
    missing level returns; the table stays well formed; afterwards exactly the
    page of [v] translates to the page of [pa], and every other address of the
    covered range translates as before, also the other pages of a 2 MiB page
    that had to be split. A page in use that is no table keeps its contents. *)
Theorem map_user_updates_one_page (ar : arch) {A : Type} `{FrameSource A} (s : @State A) (root v pa fl : Z) :
  good ar s root → (TOP_LEVEL ar <= fs_free (frames s))%nat →
  0 <= v < VA_LIMIT ar → 0 <= pa < 2 ^ 52 → flags_ok ar fl → Z.testbit fl 0 = true →
  ∃ s', map_user ar s root v pa fl = Ret s' ∧ good ar s' root ∧
    (∀ v', 0 <= v' < VA_LIMIT ar →
      translate_user ar (mem s') root v' =
        if decide (v' / 4096 = v / 4096) then Some (pa / 4096 * 4096 + v' mod 4096)
        else translate_user ar (mem s) root v') ∧
    ∀ g, data_frame ar s root g → data_frame ar s' root g ∧
      ∀ j, 0 <= j < 512 → mem s' (entry_addr g j) = mem s (entry_addr g j).
Proof.
  intros Hgood Hfree Hv Hpa Hfl Hbit.
  destruct (map_spec ar s root v pa fl Hgood Hfree Hv Hpa Hfl Hbit) as (s' & Hm & Hg & Ht & Hd & _).
  by exists s'.
Qed.

(** ** Pages of data *)

(** Memories that agree on the tables. *)
Section agree.
Context (ar : arch) (m m' : memory) (root : Z).
Context (Hag : ∀ k p t j, reach ar m root k p t → 0 <= j < 512 → m' (entry_addr t j) = m (entry_addr t j)).

Lemma reach_agree (k : nat) (p : list Z) (t : Z) : reach ar m' root k p t ↔ reach ar m root k p t.
Proof.
  split; induction 1 as [|k p t i Hr IH Hi Hv Hp]; try constructor.
  - rewrite (Hag _ _ _ _ IH Hi) in *. by constructor.
  - rewrite <- (Hag _ _ _ _ Hr Hi) in *. by constructor.
Qed.

Lemma tree_agree (U U' : Z → Prop) : (∀ x, U x → U' x) → tree ar m root U → tree ar m' root U'.
Proof.
  intros HU [H1 H2 H3]. split.
  - intros k p t Hr%reach_agree. destruct (H1 _ _ _ Hr) as (? & ? & ?). auto.
  - intros k p t k' p' Hr%reach_agree Hr'%reach_agree. eauto.
  - intros k p t i Hr%reach_agree Hi. rewrite (Hag _ _ _ _ Hr Hi). eauto.
Qed.

Lemma translate_agree (v : Z) (k : nat) : ∀ t, reach ar m root k (path ar v k) t →
  translate_from ar m' t k v = translate_from ar m t k v.
Proof.
  induction k as [|k IH]; intros t Hr; cbn [translate_from]; rewrite (Hag _ _ _ _ Hr (vpn_range _ _)); [done|].
  destruct (pte_valid _) eqn:Hv; [|done]. destruct (pte_ps _ _) eqn:Hp; [done|].
  destruct (_ =? 0); [done|]. apply IH. by apply reach_next.
Qed.

End agree.

(** A frame just allocated and cleared is a page of data, and nothing else changed. *)
Lemma cleared_frame (ar : arch) {A : Type} `{FrameSource A} (s : @State A) (fa : A) (root f : Z) :
  good ar s root → fs_inv fa → ¬ fs_used (frames s) f → f mod 4096 = 0 →
  (∀ g, fs_used fa g ↔ g = f ∨ fs_used (frames s) g) →
  let s' := mkState (zero_table (mem s) f) fa in
  good ar s' root ∧ data_frame ar s' root f ∧ extends ar s s' root.
Proof.
  intros [Ht Hinv] Hfa Hfresh Hal HU s'.
  assert (∀ g j, g ≠ f → g mod 4096 = 0 → 0 <= j < 512 →
    mem s' (entry_addr g j) = mem s (entry_addr g j)) as Hne.
  { intros g j Hg Hgal Hj. apply zero_table_out. intros i Hi Heq.
    apply entry_addr_inj in Heq as [? _]; done. }
  assert (∀ k p t j, reach ar (mem s) root k p t → 0 <= j < 512 →
    mem s' (entry_addr t j) = mem s (entry_addr t j)) as Hag.
  { intros k p t j Hr Hj. destruct (tree_frame _ _ _ _ Ht _ _ _ Hr) as (Hu & Htal & _).
    apply Hne; [by intros ->|done|done]. }
  pose proof (reach_agree ar (mem s) (mem s') root Hag) as Hre.
  split; [|split; [|split; [|split]]].
  - split; [|done]. eapply tree_agree; [done| |done]. intros x Hx. apply HU. by right.
  - split; [apply HU; by left|]. split; [done|]. intros k p Hr%Hre.
    by apply (tree_frame _ _ _ _ Ht) in Hr as [? _].
  - intros v. eapply translate_agree; [done|]. apply reach_root.
  - intros g Hg. apply HU. by right.
  - intros g (Hu & Hgal & Hn). split.
    + split; [apply HU; by right|]. split; [done|]. intros k p Hr%Hre. by eapply Hn.
    + intros j Hj. apply Hne; [by intros ->|done|done].
Qed.

(** ** [unmap_user] and [mprotect_user] *)

Lemma walk_to_pt_reach (ar : arch) (m : memory) (root v : Z) (k : nat) : ∀ t,
  reach ar m root k (path ar v k) t →
  match walk_to_pt_from ar m t k v with
  | Some (t1, i) => i = vpn v 0 ∧ reach ar m root 0 (path ar v 0) t1
  | None => translate_from ar m t k v = None ∨
            ∃ f l sz fl, walk_mapping_from ar m t k v = MappedHuge f l sz fl
  end.
Proof.
  induction k as [|k IH]; intros t Hr; cbn [walk_to_pt_from translate_from walk_mapping_from]; [done|].
  set (e := m (entry_addr t (vpn v (S k)))).
  destruct (pte_valid e) eqn:Hv; cbn [negb]; [|by left].
  destruct (pte_ps ar e) eqn:Hp; [right; by eexists _, _, _, _|].
  destruct (pte_ppn ar e =? 0); [by left|]. apply IH. by apply reach_next.
Qed.

(** What [unmap_user] does on a well-formed table. *)
Lemma unmap_spec (ar : arch) (m : memory) (root v : Z) (U : Z → Prop) :
  tree ar m root U → 0 <= v < VA_LIMIT ar →
  let '(r, m') := unmap_user ar m root v in
  tree ar m' root U ∧ keeps_data ar m m' root ∧
  match r with
  | Some p => translate_user ar m root v = Some p ∧
      ∀ v', 0 <= v' < VA_LIMIT ar →
        translate_user ar m' root v' =
          if decide (v' / 4096 = v / 4096) then None else translate_user ar m root v'
  | None => m' = m ∧ (translate_user ar m root v = None ∨
              ∃ f l sz fl, walk_mapping ar m root v = MappedHuge f l sz fl)
  end.
Proof.
  intros Ht Hv. unfold unmap_user, walk_to_pt.
  pose proof (walk_to_pt_reach ar m root v (TOP ar) root (reach_root ar _ _ _)) as Hw.
  unfold TOP in Hw. destruct (walk_to_pt_from _ _ _ _ _) as [[t1 i]|].
  2:{ split; [done|]. by split; [apply keeps_data_refl|]. }
  destruct Hw as [-> Hr].
  pose proof (translate_leaf ar m root U v t1 Ht Hr (TOP ar) root ltac:(done) (reach_root ar _ _ _)) as Htl.
  destruct (pte_valid _) eqn:Hval; cbn [negb].
  2:{ split; [done|]. split; [apply keeps_data_refl|]. by split; [|left]. }
  split; [eapply leaf_tree; [done|done|apply vpn_range|done]|].
  split; [eapply leaf_keeps_data; [done|done|apply vpn_range|done]|]. split; [exact Htl|].
  intros v' Hv'. rewrite (leaf_write_translate ar m root U v t1) by done.
  pose proof (same_page_iff ar v v' Hv Hv') as Hsame. do 2 case_decide; [done|naive_solver..|done].
Qed.

(** [unmap_user] keeps the table well formed. If it returns an address,
    that is where [v] was mapped, and afterwards the page of [v] is unmapped and
    every other page translates as before. If it returns nothing, memory is
    unchanged, and either [v] was unmapped or it lies in a huge page. No page
    outside the tables changes. *)
Theorem unmap_user_removes_one_page (ar : arch) (m : memory) (root v : Z) (U : Z → Prop) :
  tree ar m root U → 0 <= v < VA_LIMIT ar →
  let '(r, m') := unmap_user ar m root v in
  tree ar m' root U ∧ keeps_data ar m m' root ∧
  match r with
  | Some p => translate_user ar m root v = Some p ∧
      ∀ v', 0 <= v' < VA_LIMIT ar →
        translate_user ar m' root v' =
          if decide (v' / 4096 = v / 4096) then None else translate_user ar m root v'
  | None => m' = m ∧ (translate_user ar m root v = None ∨
              ∃ f l sz fl, walk_mapping ar m root v = MappedHuge f l sz fl)
  end.
Proof. exact (unmap_spec ar m root v U). Qed.

Lemma walk_to_pt_same (ar : arch) (m m' : memory) (v : Z) (k : nat) : ∀ t,
  (∀ x, same_entry ar (m x) (m' x)) → walk_to_pt_from ar m' t k v = walk_to_pt_from ar m t k v.
Proof.
  induction k as [|k IH]; intros t Hs; cbn [walk_to_pt_from]; [done|].
  destruct (Hs (entry_addr t (vpn v (S k)))) as (E1 & E2 & E3).
  unfold pte_frame. rewrite <- E1, <- E2, <- E3. by rewrite IH.
Qed.

Lemma same_mem_trans (ar : arch) (m1 m2 m3 : memory) :
  same_mem ar m1 m2 → same_mem ar m2 m3 → same_mem ar m1 m3.
Proof.
  intros H1 H2 x. destruct (H1 x) as ((?&?&?)&?), (H2 x) as ((?&?&?)&?).
  split; [split_and!; congruence|auto].
Qed.

Lemma user_bit_write (ar : arch) (m : memory) (a fl : Z) :
  0 <= m a → same_mem ar m (write m a (ensure_nonleaf_user_bit ar (m a) fl)).
Proof.
  intros Ha x. destruct (decide (x = a)) as [->|Hne]; [|by rewrite write_ne].
  rewrite write_eq. split; [by apply user_bit_same|]. intros _. unfold ensure_nonleaf_user_bit.
  destruct ar; [done|]. destruct (_ && _); [|done]. apply Z.lor_nonneg. done.
Qed.

Lemma user_bit_keeps_data (ar : arch) (m : memory) (root : Z) (U : Z → Prop) (k : nat) (p : list Z) (t i e : Z) :
  tree ar m root U → reach ar m root k p t → 0 <= i < 512 →
  same_mem ar m (write m (entry_addr t i) e) → keeps_data ar m (write m (entry_addr t i) e) root.
Proof.
  intros Ht Hr Hi Hs g Hg Hn. split.
  - intros k' p' Hr'. apply (Hn k' p'). eapply reach_same; [|exact Hr'].
    intros x. apply same_entry_sym, Hs.
  - intros j Hj. apply write_ne. intros Heq.
    destruct (tree_frame _ _ _ _ Ht _ _ _ Hr) as (_ & Htal & _).
    apply entry_addr_inj in Heq as [-> _]; [by eapply Hn|done..].
Qed.

(** The walk of [mprotect_user] only sets user bits on its way. *)
Lemma mprotect_walk (ar : arch) (root v fl : Z) (U : Z → Prop) (k : nat) : ∀ m t,
  tree ar m root U → reach ar m root k (path ar v k) t →
  ∃ m1, same_mem ar m m1 ∧ keeps_data ar m m1 root ∧
    mprotect_from ar m t k v fl =
      match walk_to_pt_from ar m t k v with
      | Some (t1, i) =>
          if pte_valid (m (entry_addr t1 i))
          then (true, write m1 (entry_addr t1 i) (pte_new ar (pte_ppn ar (m (entry_addr t1 i))) fl))
          else (false, m1)
      | None => (false, m1)
      end.
Proof.
  induction k as [|k IH]; intros m t Ht Hr; cbn [mprotect_from walk_to_pt_from].
  { exists m. split; [done|]. split; [done|]. by destruct (pte_valid _). }
  set (a := entry_addr t (vpn v (S k))).
  destruct (tree_entry _ _ _ _ Ht _ _ _ _ Hr (vpn_range v (S k))) as (H0 & _ & _). fold a in H0.
  destruct (pte_valid (m a)) eqn:Hv; cbn [negb]; [|by exists m].
  destruct (pte_ps ar (m a)) eqn:Hp; [by exists m|].
  pose proof (user_bit_write ar m a fl H0) as Hsame.
  pose proof (user_bit_keeps_data ar m root U _ _ t _ _ Ht Hr (vpn_range v (S k)) Hsame) as Hk.
  destruct (user_bit_same ar (m a) fl H0) as (_ & _ & E3). unfold pte_frame. rewrite <- E3.
  destruct (pte_ppn ar (m a) =? 0); [by eexists|].
  set (m' := write m a (ensure_nonleaf_user_bit ar (m a) fl)) in *.
  assert (reach ar m' root k (path ar v k) (u64 (Z.shiftl (pte_ppn ar (m a)) 12))) as Hr'.
  { eapply reach_same; [apply Hsame|]. by apply reach_next. }
  destruct (IH m' _ (tree_same _ _ _ _ _ Hsame Ht) Hr') as (m1 & Hs1 & Hk1 & ->).
  exists m1. split; [by eapply same_mem_trans|]. split; [by eapply keeps_data_trans|].
  rewrite (walk_to_pt_same ar m m') by apply Hsame.
  destruct (walk_to_pt_from _ _ _ _ _) as [[t1 i]|]; [|done].
  destruct (Hsame (entry_addr t1 i)) as ((E1 & _ & E2) & _). by rewrite <- E1, <- E2.
Qed.

(** A complete path leads [walk_to_pt] to its last table. *)
Lemma walk_to_pt_of_reach (ar : arch) (m : memory) (root v t : Z) (U : Z → Prop) :
  tree ar m root U → reach ar m root 0 (path ar v 0) t → ∀ k t0,
  (k <= TOP ar)%nat → reach ar m root k (path ar v k) t0 →
  walk_to_pt_from ar m t0 k v = Some (t, vpn v 0).
Proof.
  intros Ht Hreach k. induction k as [|k IH]; intros t0 Hk Hr; cbn [walk_to_pt_from].
  { by rewrite (reach_det _ _ _ _ _ _ _ Hr Hreach). }
  destruct (reach_path_up _ _ _ _ _ _ Hreach k ltac:(lia)) as [t1 Ht1]. simpl in Ht1.
  destruct (reach_step_path _ _ _ _ _ _ Ht1 ltac:(lia)) as (t' & Ht' & Hv & Hp & Heq).
  rewrite (reach_det _ _ _ _ _ _ _ Ht' Hr) in *. rewrite Hv, Hp. cbn [negb].
  rewrite (proj2 (Z.eqb_neq _ _)).
  2:{ eapply frame_nonzero; [done|done|apply vpn_range|done|done]. }
  rewrite <- Heq. apply IH; [lia|done].
Qed.

(** What [mprotect_user] does on a well-formed table. *)
Lemma mprotect_spec (ar : arch) (m : memory) (root v fl : Z) (U : Z → Prop) :
  tree ar m root U → 0 <= v < VA_LIMIT ar → flags_ok ar fl →
  let '(ok, m') := mprotect_user ar m root v fl in
  tree ar m' root U ∧ keeps_data ar m m' root ∧
  (ok = true ↔ ∃ e, debug_pte ar m root v = Some e ∧ pte_valid e = true) ∧
  (∀ e, ok = true → debug_pte ar m root v = Some e →
     debug_pte ar m' root v = Some (pte_new ar (pte_ppn ar e) fl)) ∧
  ∀ v', 0 <= v' < VA_LIMIT ar →
    translate_user ar m' root v' =
      if decide (v' / 4096 = v / 4096 ∧ ok = true ∧ Z.testbit fl 0 = false) then None
      else translate_user ar m root v'.
Proof.
  intros Ht Hv Hfl.
  pose proof (walk_to_pt_reach ar m root v (TOP ar) root (reach_root ar _ _ _)) as Hw.
  destruct (mprotect_walk ar root v fl U (TOP ar) m root Ht (reach_root ar _ _ _)) as (m1 & Hs & Hk & Heq).
  unfold mprotect_user, debug_pte, walk_to_pt. change (TOP_LEVEL ar) with (TOP ar). rewrite Heq.
  assert (∀ v', translate_user ar m1 root v' = translate_user ar m root v') as Hsame
    by (intros v'; apply (translate_same ar m m1 (TOP_LEVEL ar)), Hs).
  pose proof (tree_same _ _ _ _ _ Hs Ht) as Ht1.
  destruct (walk_to_pt_from ar m root (TOP ar) v) as [[t1 i]|] eqn:Ew.
  2:{ split; [done|]. split; [done|]. split; [naive_solver|]. split; [done|].
      intros v' _. rewrite Hsame, decide_False; naive_solver. }
  destruct Hw as [-> Hr]. destruct (pte_valid _) eqn:Hval.
  2:{ split; [done|]. split; [done|]. split; [naive_solver|]. split; [done|].
      intros v' _. rewrite Hsame, decide_False; naive_solver. }
  set (e := m (entry_addr t1 (vpn v 0))) in *.
  destruct (tree_entry _ _ _ _ Ht _ _ _ _ Hr (vpn_range v 0)) as (_ & _ & Hppn).
  specialize (Hppn Hval). fold e in Hppn.
  pose proof (leaf_entry_ok ar (pte_ppn ar e) fl Hfl Hppn) as He.
  assert (reach ar m1 root 0 (path ar v 0) t1) as Hr1 by (eapply reach_same; [apply Hs|done]).
  assert (tree ar (write m1 (entry_addr t1 (vpn v 0)) (pte_new ar (pte_ppn ar e) fl)) root U) as Ht'
    by (eapply leaf_tree; [done|done|apply vpn_range|done]).
  split; [done|].
  split; [eapply keeps_data_trans; [exact Hk|]; eapply leaf_keeps_data; [done|done|apply vpn_range|done]|].
  split; [naive_solver|]. split.
  - intros e' _ [= <-]. rewrite (walk_to_pt_of_reach ar _ root v t1 U Ht'); [by rewrite write_eq|..|done|].
    + eapply leaf_reach; [done|done|apply vpn_range|done].
    + apply reach_root.
  - intros v' Hv'. rewrite (leaf_write_translate ar m1 root U v t1) by done.
    pose proof (same_page_iff ar v v' Hv Hv') as Hpage. rewrite Hsame, pte_new_valid by done.
    destruct (decide (same_page ar v v')) as [Hp|Hp].
    + assert (reach ar m root 0 (path ar v' 0) t1) as Hr' by (destruct Hp as [<- _]; done).
      pose proof (translate_leaf ar m root U v' t1 Ht Hr' (TOP ar) root ltac:(done) (reach_root ar _ _ _)) as Htl.
      unfold translate_user. change (TOP_LEVEL ar) with (TOP ar). rewrite Htl.
      apply Hpage in Hp as Heq'. destruct Hp as [_ Hp2]. rewrite <- Hp2. fold e. rewrite Hval.
      unfold pte_frame. rewrite pte_new_ppn by done.
      destruct (Z.testbit fl 0); [by rewrite decide_False by (by intros (_ & _ & ?))|].
      by rewrite decide_True.
    + rewrite decide_False; [done|]. intros (? & _). by apply Hp, Hpage.
Qed.

(** [mprotect_user] keeps the table well formed and returns true exactly
    when [v] has a valid 4 KiB entry. That entry then keeps its frame and has
    the new flags, so the page of [v] stays where it was (or is unmapped, if the
    new flags are not valid). No other page changes its translation, and no page
    outside the tables changes. *)
Theorem mprotect_user_keeps_frames (ar : arch) (m : memory) (root v fl : Z) (U : Z → Prop) :
  tree ar m root U → 0 <= v < VA_LIMIT ar → flags_ok ar fl →
  let '(ok, m') := mprotect_user ar m root v fl in
  tree ar m' root U ∧ keeps_data ar m m' root ∧
  (ok = true ↔ ∃ e, debug_pte ar m root v = Some e ∧ pte_valid e = true) ∧
  (∀ e, ok = true → debug_pte ar m root v = Some e →
     debug_pte ar m' root v = Some (pte_new ar (pte_ppn ar e) fl)) ∧
  ∀ v', 0 <= v' < VA_LIMIT ar →
    translate_user ar m' root v' =
      if decide (v' / 4096 = v / 4096 ∧ ok = true ∧ Z.testbit fl 0 = false) then None
      else translate_user ar m root v'.
Proof. exact (mprotect_spec ar m root v fl U). Qed.

(** ** Runs on the small allocator *)

(** A root whose entries are all zero is a table that maps nothing. *)
Lemma tree_empty (ar : arch) (m : memory) (root : Z) (U : Z → Prop) :
  U root → root mod 4096 = 0 → 0 < root → (∀ j, 0 <= j < 512 → m (entry_addr root j) = 0) →
  tree ar m root U.
Proof.
  intros HU Hal Hpos Hz.
  assert (∀ k p t, reach ar m root k p t → k = TOP ar ∧ p = [] ∧ t = root) as Hinv.
  { induction 1 as [|k p t i Hr (? & -> & ->) Hi Hv]; [done|]. by rewrite Hz in Hv. }
  split.
  - by intros k p t (_ & _ & ->)%Hinv.
  - by intros k p t k' p' (-> & -> & _)%Hinv (-> & -> & _)%Hinv.
  - intros k p t i (_ & _ & ->)%Hinv Hi. by rewrite Hz.
Qed.

(** [create_user_page_table] gives an empty address space. *)
Lemma create_user_page_table_ok (ar : arch) {A : Type} `{FrameSource A} (s : @State A) :
  fs_inv (frames s) → (0 < fs_free (frames s))%nat →
  ∃ root s', create_user_page_table s = Ret (root, s') ∧ good ar s' root ∧
    fs_free (frames s) = S (fs_free (frames s')).
Proof.
  intros Hinv Hfree. destruct (zeroed_ok s Hinv Hfree) as (f & fa & Hz & Hfa & _ & Hal & Hf & HU & Hc).
  eexists f, _. split; [exact Hz|]. split; [|done]. split; [|done].
  apply tree_empty; [apply HU; by left|done|lia|]. intros j Hj. by apply zero_table_in.
Qed.

Definition boot : exec (Z * @State FrameAllocator) :=
  create_user_page_table (mkState (fun _ => 0) small).

Lemma boot_ok (ar : arch) : ∃ root s, boot = Ret (root, s) ∧ good ar s root ∧ fs_free (frames s) = 3%nat.
Proof.
  destruct (create_user_page_table_ok ar (mkState (fun _ => 0) small)) as (root & s & E & G & F).
  - split; [apply small_wf|]. by vm_compute.
  - vm_compute. lia.
  - exists root, s. split; [exact E|]. split; [done|]. cbn [frames] in F.
    assert (fs_free small = 4%nat) as H4 by (vm_compute; reflexivity). rewrite H4 in F. lia.
Qed.

Lemma map_user_updates_one_page_witness :
  ∃ root s s', boot = Ret (root, s) ∧ map_user X86_64 s root 0x400000 0x7000 (URW X86_64) = Ret s' ∧
    translate_user X86_64 (mem s') root 0x400005 = Some 0x7005.
Proof.
  destruct (boot_ok X86_64) as (root & s & E & G & F).
  destruct (map_user_updates_one_page X86_64 s root 0x400000 0x7000 (URW X86_64) G) as (s' & Hm & _ & Ht & _).
  - rewrite F. done.
  - by vm_compute.
  - by vm_compute.
  - by apply flags_ok_small.
  - reflexivity.
  - exists root, s, s'. split; [done|]. split; [done|].
    rewrite (Ht 0x400005) by (by vm_compute). reflexivity.
Defined.

(** A page mapped in the small address space, on either architecture. *)
Lemma mapped_ok (ar : arch) (fl : Z) : 0 <= fl < 2 ^ 10 →
  ∃ root s t, good ar s root ∧ reach ar (mem s) root 0 (path ar 0x400000 0) t ∧
    mem s (entry_addr t (vpn 0x400000 0)) = pte_new ar 7 fl.
Proof.
  intros Hfl. destruct (boot_ok ar) as (root & s & _ & G & F).
  destruct (map_from_walk ar root 0x400000 0x7000 fl (TOP ar) s root G (reach_root ar _ _ _))
    as (s1 & t1 & _ & [Ht Hinv] & Hr & _); [rewrite F; destruct ar; compute; lia|].
  pose proof (leaf_entry_ok ar 7 fl (flags_ok_small ar fl Hfl) ltac:(lia)) as He.
  exists root, (map_leaf ar s1 t1 0x400000 0x7000 fl), t1. split; [|split].
  - split; [|done]. eapply leaf_tree; [done|done|apply vpn_range|done].
  - eapply leaf_reach; [done|done|apply vpn_range|done].
  - apply write_eq.
Qed.

Lemma unmap_user_removes_one_page_witness :
  ∃ m root m', unmap_user Riscv64 m root 0x400000 = (Some 0x7000, m') ∧
    translate_user Riscv64 m root 0x400000 = Some 0x7000 ∧
    translate_user Riscv64 m' root 0x400000 = None.
Proof.
  destruct (mapped_ok Riscv64 7 ltac:(lia)) as (root & s & t & [Ht _] & Hr & He).
  pose proof (unmap_user_removes_one_page Riscv64 (mem s) root 0x400000 _ Ht ltac:(by vm_compute)) as Hu.
  unfold unmap_user, walk_to_pt in *.
  rewrite (walk_to_pt_of_reach Riscv64 _ root _ t _ Ht Hr (TOP Riscv64)) in * by (done || apply reach_root).
  rewrite He in Hu. change (negb (pte_valid (pte_new Riscv64 7 7))) with false in Hu.
  destruct Hu as (_ & _ & H1 & H2). eexists (mem s), root, _.
  change (TOP_LEVEL Riscv64) with (TOP Riscv64).
  rewrite (walk_to_pt_of_reach Riscv64 _ root _ t _ Ht Hr (TOP Riscv64)) by (done || apply reach_root).
  rewrite He. split; [reflexivity|]. split; [exact H1|].
  by rewrite (H2 0x400000) by (by vm_compute).
Defined.

Lemma mprotect_user_keeps_frames_witness :
  ∃ m root m', mprotect_user X86_64 m root 0x400000 5 = (true, m') ∧
    debug_pte X86_64 m' root 0x400000 = Some (pte_new X86_64 7 5).
Proof.
  destruct (mapped_ok X86_64 7 ltac:(lia)) as (root & s & t & [Ht _] & Hr & He).
  pose proof (mprotect_user_keeps_frames X86_64 (mem s) root 0x400000 5 _ Ht ltac:(by vm_compute)
    ltac:(by apply flags_ok_small)) as Hm.
  destruct (mprotect_user X86_64 (mem s) root 0x400000 5) as [ok m'] eqn:Em.
  destruct Hm as (_ & _ & Hok & Hpte & _).
  assert (debug_pte X86_64 (mem s) root 0x400000 = Some (pte_new X86_64 7 7)) as Hd.
  { unfold debug_pte, walk_to_pt. change (TOP_LEVEL X86_64) with (TOP X86_64).
    rewrite (walk_to_pt_of_reach X86_64 _ root _ t _ Ht Hr (TOP X86_64)) by (done || apply reach_root).
    by rewrite He. }
  assert (ok = true) as -> by (apply Hok; eexists; split; [exact Hd|reflexivity]).
  exists (mem s), root, m'. split; [exact Em|]. exact (Hpte _ eq_refl Hd).
Defined.

(** ** 1 GiB pages *)

(** A table whose third-level entry is one 1 GiB page at physical address 1 GiB. *)
Definition gib_state : @State FrameAllocator :=
  match Pmm.alloc small with
  | Ret (Some r, fa) =>
      match Pmm.alloc fa with
      | Ret (Some t, fa) =>
          mkState (write (write (fun _ => 0) (entry_addr r 0) (pte_nonleaf X86_64 (Z.shiftr t 12)))
                     (entry_addr t 1) (pte_new X86_64 (2 ^ 18) 0x87)) fa
      | _ => mkState (fun _ => 0) fa
      end
  | _ => mkState (fun _ => 0) small
  end.

(** Mapping one page inside a 1 GiB page loses the rest of it: the page at
    level 2 is split as if it were a 2 MiB page, so that an address 2 MiB
    further on is looked up in a data frame used as a table. *)
Lemma map_inside_1gib_page_loses_the_rest :
  let root := start small in
  translate_user X86_64 (mem gib_state) root (2 ^ 30 + 2 ^ 21) = Some (2 ^ 30 + 2 ^ 21) ∧
  ∃ s', map_user X86_64 gib_state root (2 ^ 30) 0x7000 7 = Ret s' ∧
    translate_user X86_64 (mem s') root (2 ^ 30) ≠ Some 0x7000 ∧
    translate_user X86_64 (mem s') root (2 ^ 30 + 2 ^ 21) = None.
Proof.
  intros root. split; [vm_compute; reflexivity|].
  destruct (map_user X86_64 gib_state root (2 ^ 30) 0x7000 7) as [s'|] eqn:E.
  - exists s'. split; [done|].
    assert (translate_user X86_64 (mem s') root <$> [2 ^ 30; 2 ^ 30 + 2 ^ 21] = [None; None]) as Ht.
    { replace s' with (match map_user X86_64 gib_state root (2 ^ 30) 0x7000 7 with
        | Ret s => s | Panic => gib_state end) by (by rewrite E). vm_compute. reflexivity. }
    injection Ht as -> ->. split; [discriminate|reflexivity].
  - exfalso. assert (match map_user X86_64 gib_state root (2 ^ 30) 0x7000 7 with
      | Ret _ => True | Panic => False end) as Hm by (vm_compute; exact I). by rewrite E in Hm.
Qed.

End PageTable.
