(* ===== verification/Vfs.v ===== *)
(** The virtual file system layer ([kernel/src/driver/vfs.rs]).

    Strings are byte lists.  The trait [FileSystem] is the class of the same
    name; what the layer relies on of an implementation is the class
    [FileSystemLaws].  Mounts all hold one type of file system.  Operations
    return the new state next to the [Result] of the source, and [Panic] where
    slicing goes out of range. *)

From stdpp Require Import base numbers list gmap strings.
From S2P Require Import Prelude.
Local Open Scope Z_scope.
Local Open Scope rust_scope.

(** ** Paths *)

Module Path.

Abbreviation str := (list Z).

Definition SLASH : Z := 47.

(** The bytes of a literal. *)
Definition bytes (s : string) : str := (fun c => Z.of_N (Ascii.N_of_ascii c)) <$> String.list_ascii_of_string s.

(** [s.split('/')] *)
Fixpoint split_slash (s : str) : list str :=
  match s with
  | [] => [[]]
  | c :: s' =>
      if c =? SLASH then [] :: split_slash s'
      else match split_slash s' with
           | [] => [[c]]
           | p :: ps => (c :: p) :: ps
           end
  end.

(** [s.split('/').filter(|s| !s.is_empty())] *)
Definition parts (s : str) : list str := filter (fun p => p ≠ []) (split_slash s).

(** [s.strip_prefix('/').unwrap_or(s)] *)
Definition strip_slash (s : str) : str :=
  match s with
  | c :: s' => if c =? SLASH then s' else s
  | [] => []
  end.

(** [s.strip_prefix(p)]; [Some r] also says that [s] starts with [p]. *)
Fixpoint strip_prefix (p s : str) : option str :=
  match p, s with
  | [], _ => Some s
  | c :: p', d :: s' => if c =? d then strip_prefix p' s' else None
  | _ :: _, [] => None
  end.

(** [s.rfind('/')], as the text before and after the last slash. *)
Fixpoint rsplit_slash (s : str) : option (str * str) :=
  match s with
  | [] => None
  | c :: s' =>
      match rsplit_slash s' with
      | Some (a, b) => Some (c :: a, b)
      | None => if c =? SLASH then Some ([], s') else None
      end
  end.

(** A name usable as one component. *)
Definition component (p : str) : Prop := p ≠ [] ∧ SLASH ∉ p.

(** ** Lemmas *)

Lemma split_slash_cons (s : str) : ∃ p ps, split_slash s = p :: ps.
Proof.
  destruct s as [|c s]; simpl; [by eexists _, _|].
  destruct (c =? SLASH); [by eexists _, _|]. destruct (split_slash s); by eexists _, _.
Qed.

Lemma split_slash_app (a b : str) :
  split_slash (a ++ SLASH :: b) = split_slash a ++ split_slash b.
Proof.
  induction a as [|c a IH]; [done|]. cbn [app split_slash]. rewrite IH.
  destruct (c =? SLASH); [done|]. destruct (split_slash_cons a) as (p & ps & ->). done.
Qed.

Lemma split_slash_no (a : str) : SLASH ∉ a → split_slash a = [a].
Proof.
  induction a as [|c a IH]; intros Ha; [done|]. cbn [split_slash].
  rewrite (proj2 (Z.eqb_neq c SLASH)) by set_solver. by rewrite IH by set_solver.
Qed.

Lemma parts_app (a b : str) : parts (a ++ SLASH :: b) = parts a ++ parts b.
Proof. unfold parts. by rewrite split_slash_app, filter_app. Qed.

Lemma parts_component (n : str) : component n → parts n = [n].
Proof. intros [Hn Hs]. unfold parts. rewrite split_slash_no by done. by rewrite filter_cons_True. Qed.

Lemma parts_strip (s : str) : parts (strip_slash s) = parts s.
Proof.
  destruct s as [|c s]; [done|]. cbn [strip_slash]. destruct (Z.eqb_spec c SLASH) as [->|]; [|done].
  change (SLASH :: s) with ([] ++ SLASH :: s). by rewrite parts_app.
Qed.

Lemma split_slash_no_slash (s : str) : Forall (fun p => SLASH ∉ p) (split_slash s).
Proof.
  induction s as [|c s IH]; cbn [split_slash]; [constructor; [set_solver|done]|].
  destruct (Z.eqb_spec c SLASH); [constructor; [set_solver|done]|].
  destruct (split_slash_cons s) as (p & ps & E). rewrite E in *.
  apply Forall_cons in IH as [? ?]. constructor; [set_solver|done].
Qed.

Lemma parts_components (s : str) : Forall component (parts s).
Proof.
  unfold parts. apply Forall_forall. intros p [Hp Hin]%list_elem_of_filter.
  split; [done|]. pose proof (split_slash_no_slash s) as H. rewrite Forall_forall in H. auto.
Qed.

Lemma strip_prefix_spec (p s r : str) : strip_prefix p s = Some r ↔ s = p ++ r.
Proof.
  revert s. induction p as [|c p IH]; intros s; cbn [strip_prefix app].
  - split; congruence.
  - destruct s as [|d s]; [done|]. destruct (Z.eqb_spec c d) as [->|].
    + rewrite IH. split; congruence.
    + split; [done|]. congruence.
Qed.

Lemma rsplit_slash_spec (s : str) :
  match rsplit_slash s with
  | Some (a, b) => s = a ++ SLASH :: b ∧ SLASH ∉ b
  | None => SLASH ∉ s
  end.
Proof.
  induction s as [|c s IH]; cbn [rsplit_slash]; [set_solver|].
  destruct (rsplit_slash s) as [[a b]|].
  - destruct IH as [-> ?]. done.
  - destruct (Z.eqb_spec c SLASH) as [->|]; [done|]. set_solver.
Qed.

End Path.
Import Path.

(** ** Types of the layer *)

Module Vfs.

Inductive VfsError :=
| NotFound | AlreadyExists | NotADirectory | NotAFile | PermissionDenied | IoError
| InvalidParam | OutOfMemory | DirectoryNotEmpty.

Inductive VfsFileType := File | Directory.

Record VfsMetadata := mkMeta { m_type : VfsFileType; m_size : Z; m_name : str }.

Definition is_dir (m : VfsMetadata) : bool :=
  match m_type m with Directory => true | File => false end.

Record VfsDirEntry := mkDirEntry { e_name : str; e_type : VfsFileType; e_size : Z }.

Definition O_RDONLY : Z := 0.
Definition O_WRONLY : Z := 1.
Definition O_RDWR : Z := 2.
Definition O_CREAT : Z := 0x100.
Definition O_TRUNC : Z := 0x200.

(** A read returns the bytes it copies to the buffer of length [len]. *)
Class FileSystem (F : Type) := {
  root_inode : F → Z;
  lookup : F → Z → str → result Z VfsError;
  metadata : F → Z → result VfsMetadata VfsError;
  readdir : F → Z → Z → result (option VfsDirEntry) VfsError;
  read_file : F → Z → Z → Z → exec (result (list Z) VfsError);
  write_file : F → Z → Z → list Z → exec (result Z VfsError * F);
  create_file : F → Z → str → result Z VfsError * F;
  create_dir : F → Z → str → result Z VfsError * F;
  fs_unlink : F → Z → str → result unit VfsError * F;
  set_file_size : F → Z → Z → result unit VfsError * F;
}.

(** [let x = r?; k] in a function that returns the state next to its result. *)
Definition try_bind {A B S : Type} (r : result A VfsError) (s : S) (k : A → exec (result B VfsError * S))
    : exec (result B VfsError * S) :=
  match r with
  | Ok a => k a
  | Err e => Ret (Err e, s)
  end.

(** ** Open files *)

Record OpenFile := mkOpenFile { mount_id : nat; inode : Z; pos : Z; flags : Z }.

Abbreviation OpenFileTable := (list (option OpenFile)).

Fixpoint first_none (files : OpenFileTable) (i : nat) : option nat :=
  match files with
  | [] => None
  | None :: _ => Some i
  | Some _ :: files' => first_none files' (S i)
  end.

Definition alloc (files : OpenFileTable) (mount_id : nat) (inode flags : Z)
    : result nat VfsError * OpenFileTable :=
  let f := Some (mkOpenFile mount_id inode 0 flags) in
  match first_none files 0 with
  | Some i => (Ok i, <[i := f]> files)
  | None =>
      if (64 <=? length files)%nat then (Err OutOfMemory, files)
      else (Ok (length files), files ++ [f])
  end.

Definition get (files : OpenFileTable) (fd : nat) : option OpenFile :=
  match files !! fd with
  | Some o => o
  | None => None
  end.

Definition close_file (files : OpenFileTable) (fd : nat) : bool * OpenFileTable :=
  match files !! fd with
  | Some (Some _) => (true, <[fd := None]> files)
  | _ => (false, files)
  end.

(** ** The layer *)

Section vfs.
Context {F : Type} `{FileSystem F}.

Definition MAX_MOUNTS : nat := 8.

Record MountEntry := mkMount { prefix : str; fs : F }.

Record VfsState := mkVfs { mounts : list MountEntry; open_files : OpenFileTable }.

Definition new_internal : VfsState := mkVfs [] [].

Definition set_files (v : VfsState) (files : OpenFileTable) : VfsState := mkVfs (mounts v) files.

(** [vfs.mounts.get_mut(id)] after a change of the file system. *)
Definition set_fs (v : VfsState) (id : nat) (f : F) : VfsState :=
  mkVfs (alter (fun m => mkMount (prefix m) f) id (mounts v)) (open_files v).

Definition set_pos (v : VfsState) (fd : nat) (p : Z) : VfsState :=
  set_files v (alter (fmap (fun o => mkOpenFile (mount_id o) (inode o) p (flags o))) fd (open_files v)).

Definition mount (v : VfsState) (pre : str) (f : F) : result unit VfsError * VfsState :=
  if (MAX_MOUNTS <=? length (mounts v))%nat then (Err OutOfMemory, v)
  else (Ok tt, mkVfs (mounts v ++ [mkMount pre f]) (open_files v)).

(** The part of [trimmed] below a mount, if the mount covers it. *)
Definition under (mount_prefix trimmed : str) : option str :=
  match strip_prefix mount_prefix trimmed with
  | Some [] => Some []
  | Some (c :: r) => if c =? SLASH then Some r else None
  | None => None
  end.

(** The loop of [resolve_path_locked]. *)
Fixpoint best_mount (ms : list MountEntry) (i : nat) (trimmed : str) (best : option (nat * str * str))
    : option (nat * str * str) :=
  match ms with
  | [] => best
  | m :: ms' =>
      let mount_prefix := strip_slash (prefix m) in
      let best' :=
        match mount_prefix with
        | [] => match best with None => Some (i, [], trimmed) | Some _ => best end
        | _ =>
            match under mount_prefix trimmed with
            | Some rel =>
                match best with
                | None => Some (i, mount_prefix, rel)
                | Some (_, p, _) =>
                    if (length p <? length mount_prefix)%nat then Some (i, mount_prefix, rel) else best
                end
            | None => best
            end
        end in
      best_mount ms' (S i) trimmed best'
  end.

Definition resolve_path_locked (v : VfsState) (path : str) : result (nat * str) VfsError :=
  match path with
  | [] => Err InvalidParam
  | _ =>
      match best_mount (mounts v) 0 (strip_slash path) None with
      | Some (id, _, rel) => Ok (id, rel)
      | None => Err NotFound
      end
  end.

Fixpoint walk (f : F) (i : Z) (ps : list str) : result Z VfsError :=
  match ps with
  | [] => Ok i
  | p :: ps' => let? i := lookup f i p in walk f i ps'
  end.

Definition walk_path (f : F) (path : str) : result Z VfsError := walk f (root_inode f) (parts path).

Definition split_filename (path : str) : result (str * str) VfsError :=
  match path with
  | [] => Err InvalidParam
  | _ =>
      match rsplit_slash path with
      | Some (parent, name) => match name with [] => Err InvalidParam | _ => Ok (parent, name) end
      | None => Ok ([], path)
      end
  end.

(** [vfs.mounts.get(id).ok_or(NotFound)] *)
Definition get_fs (v : VfsState) (id : nat) : result F VfsError := ok_or (fs <$> mounts v !! id) NotFound.

(** [relative.is_empty() || relative == "/"] *)
Definition is_root (rel : str) : bool := bool_decide (rel = [] ∨ rel = [SLASH]).

(** The inode of a path below mount [id]. *)
Definition inode_of (f : F) (rel : str) : result Z VfsError :=
  if is_root rel then Ok (root_inode f) else walk_path f rel.

Definition alloc_fd (v : VfsState) (id : nat) (ino fl : Z) : exec (result nat VfsError * VfsState) :=
  let '(r, files) := alloc (open_files v) id ino fl in Ret (r, set_files v files).

Definition open (v : VfsState) (path : str) (fl : Z) : exec (result nat VfsError * VfsState) :=
  try_bind (resolve_path_locked v path) v (fun '(id, rel) =>
  try_bind (get_fs v id) v (fun f =>
  match inode_of f rel with
  | Ok ino =>
      if negb (Z.land fl O_TRUNC =? 0) then
        let '(r, f') := set_file_size f ino 0 in
        let v := set_fs v id f' in
        try_bind r v (fun _ => alloc_fd v id ino fl)
      else alloc_fd v id ino fl
  | Err _ =>
      if negb (Z.land fl O_CREAT =? 0) then
        try_bind (split_filename rel) v (fun '(parent_path, file_name) =>
        try_bind (match parent_path with [] => Ok (root_inode f) | _ => walk_path f parent_path end) v
          (fun parent_inode =>
        let '(r, f') := create_file f parent_inode file_name in
        let v := set_fs v id f' in
        match r with
        | Ok ino => alloc_fd v id ino fl
        | Err _ => Ret (Err IoError, v)
        end))
      else Ret (Err NotFound, v)
  end)).

(** Only the first mount is consulted. *)
Definition walk_path_resolved (v : VfsState) (path : str) : result Z VfsError :=
  match mounts v with
  | [] => Err NotFound
  | m :: _ => walk_path (fs m) path
  end.

Definition exists_ (v : VfsState) (path : str) : bool :=
  match walk_path_resolved v path with Ok _ => true | Err _ => false end.

Definition inode_metadata (v : VfsState) (ino : Z) : result VfsMetadata VfsError :=
  match mounts v with
  | [] => Err NotFound
  | m :: _ => metadata (fs m) ino
  end.

Definition get_inode_for_fd (v : VfsState) (fd : nat) : option Z := inode <$> get (open_files v) fd.

Definition fd_metadata (v : VfsState) (fd : nat) : result VfsMetadata VfsError :=
  let? file := ok_or (get (open_files v) fd) InvalidParam in
  let? f := get_fs v (mount_id file) in
  metadata f (inode file).

Definition readdir_at (v : VfsState) (fd : nat) (idx : Z) : result (option VfsDirEntry) VfsError :=
  let? file := ok_or (get (open_files v) fd) InvalidParam in
  let? f := get_fs v (mount_id file) in
  let? meta := metadata f (inode file) in
  if negb (is_dir meta) then Err NotADirectory else readdir f (inode file) idx.

Definition truncate (v : VfsState) (fd : nat) (size : Z) : result unit VfsError * VfsState :=
  match get (open_files v) fd with
  | None => (Err NotFound, v)
  | Some file =>
      match get_fs v (mount_id file) with
      | Err e => (Err e, v)
      | Ok f =>
          let '(r, f') := set_file_size f (inode file) size in (r, set_fs v (mount_id file) f')
      end
  end.

Definition read (v : VfsState) (fd : nat) (len : Z) : exec (result (list Z) VfsError * VfsState) :=
  try_bind (ok_or (get (open_files v) fd) InvalidParam) v (fun file =>
  if flags file =? O_WRONLY then Ret (Err PermissionDenied, v)
  else
    try_bind (get_fs v (mount_id file)) v (fun f =>
    let! r := read_file f (inode file) (pos file) len in
    try_bind r v (fun bytes =>
    Ret (Ok bytes, set_pos v fd (pos file +! Z.of_nat (length bytes)))))).

Definition write (v : VfsState) (fd : nat) (data : list Z) : exec (result Z VfsError * VfsState) :=
  try_bind (ok_or (get (open_files v) fd) InvalidParam) v (fun file =>
  if flags file =? O_RDONLY then Ret (Err PermissionDenied, v)
  else
    try_bind (get_fs v (mount_id file)) v (fun f =>
    let! r := write_file f (inode file) (pos file) data in
    let '(r, f') := r in
    let v := set_fs v (mount_id file) f' in
    try_bind r v (fun n => Ret (Ok n, set_pos v fd (pos file +! n))))).

Definition pwrite (v : VfsState) (fd : nat) (data : list Z) (offset : Z)
    : exec (result Z VfsError * VfsState) :=
  try_bind (ok_or (get (open_files v) fd) InvalidParam) v (fun file =>
  if flags file =? O_RDONLY then Ret (Err PermissionDenied, v)
  else
    try_bind (get_fs v (mount_id file)) v (fun f =>
    let! r := write_file f (inode file) offset data in
    let '(r, f') := r in
    Ret (r, set_fs v (mount_id file) f'))).

Definition pread (v : VfsState) (fd : nat) (len offset : Z) : exec (result (list Z) VfsError) :=
  match get (open_files v) fd with
  | None => Ret (Err InvalidParam)
  | Some file =>
      if flags file =? O_WRONLY then Ret (Err PermissionDenied)
      else match get_fs v (mount_id file) with
           | Err e => Ret (Err e)
           | Ok f => read_file f (inode file) offset len
           end
  end.

Definition close (v : VfsState) (fd : nat) : bool * VfsState :=
  let '(b, files) := close_file (open_files v) fd in (b, set_files v files).

(** The loop of [ls]: the bytes written so far; one iteration per entry. *)
Fixpoint ls_loop (fuel : nat) (f : F) (dir idx buf_len : Z) (out : list Z) : result (list Z) VfsError :=
  match fuel with
  | O => Ok out
  | S fuel' =>
      if Z.of_nat (length out) <? buf_len then
        let? e := readdir f dir idx in
        match e with
        | None => Ok out
        | Some e =>
            if buf_len <? Z.of_nat (length out) + Z.of_nat (length (e_name e)) then Ok out
            else
              let out := out ++ e_name e in
              let out := if Z.of_nat (length out) <? buf_len then out ++ [44] else out in
              ls_loop fuel' f dir (idx + 1) buf_len out
        end
      else Ok out
  end.

(** [if written > 0 && buf[written - 1] == b','] *)
Definition drop_comma (out : list Z) : list Z :=
  match last out with
  | Some c => if c =? 44 then removelast out else out
  | None => out
  end.

Definition ls (fuel : nat) (v : VfsState) (path : str) (buf_len : Z) : result (list Z) VfsError :=
  let? r := resolve_path_locked v path in
  let '(id, rel) := r in
  let? f := get_fs v id in
  let? dir := inode_of f rel in
  let? out := ls_loop fuel f dir 0 buf_len [] in
  Ok (drop_comma out).

Definition stat (v : VfsState) (path : str) : result VfsMetadata VfsError :=
  let? r := resolve_path_locked v path in
  let '(id, rel) := r in
  let? f := get_fs v id in
  let? ino := inode_of f rel in
  metadata f ino.

(** The common start of [unlink] and [mkdir]: mount, parent inode and name. *)
Definition parent_of (v : VfsState) (path : str) (root_error : VfsError)
    : result (nat * F * Z * str) VfsError :=
  let? r := resolve_path_locked v path in
  let '(id, rel) := r in
  if is_root rel then Err root_error
  else
    let? pn := split_filename rel in
    let '(parent_path, name) := pn in
    let? f := get_fs v id in
    let? parent := inode_of f parent_path in
    Ok (id, f, parent, name).

Definition unlink (v : VfsState) (path : str) : result unit VfsError * VfsState :=
  match parent_of v path PermissionDenied with
  | Err e => (Err e, v)
  | Ok (id, f, parent, name) => let '(r, f') := fs_unlink f parent name in (r, set_fs v id f')
  end.

Definition mkdir (v : VfsState) (path : str) : result unit VfsError * VfsState :=
  match parent_of v path AlreadyExists with
  | Err e => (Err e, v)
  | Ok (id, f, parent, name) =>
      let '(r, f') := create_dir f parent name in
      (let? _ := r in Ok tt, set_fs v id f')
  end.

End vfs.

Arguments MountEntry : clear implicits.
Arguments VfsState : clear implicits.

(** ** What the layer relies on *)

(** The contents after [data] is written at [off]: a gap is filled with zeros. *)
Definition splice (d : list Z) (off : nat) (data : list Z) : list Z :=
  take off (d ++ replicate (off - length d) 0) ++ data ++ drop (off + length data) d.

Class FileSystemLaws (F : Type) `{FileSystem F} := {
  fs_ok : F → Prop;
  contents : F → Z → option (list Z);
  read_file_law : ∀ f i d off len,
    fs_ok f → contents f i = Some d → 0 <= off → 0 <= len → off + len < 2 ^ 64 →
    read_file f i off len = Ret (Ok (take (Z.to_nat len) (drop (Z.to_nat off) d)));
  write_file_law : ∀ f i d off data,
    fs_ok f → contents f i = Some d → 0 <= off → off + Z.of_nat (length data) < 2 ^ 64 →
    ∃ f', write_file f i off data = Ret (Ok (Z.of_nat (length data)), f') ∧ fs_ok f' ∧
      contents f' i = Some (splice d (Z.to_nat off) data) ∧
      ∀ j, j ≠ i → contents f' j = contents f j;
}.

(** ** Path resolution *)

Section resolve.
Context {F : Type} `{FileSystem F}.

(** Mount [m] covers [trimmed], whose rest is [rel]. *)
Definition covers (m : MountEntry F) (trimmed rel : str) : Prop :=
  let p := strip_slash (prefix m) in
  (p = [] ∧ rel = trimmed) ∨ (p ≠ [] ∧ ((trimmed = p ∧ rel = []) ∨ trimmed = p ++ SLASH :: rel)).

Lemma under_spec (p t rel : str) :
  under p t = Some rel ↔ (t = p ∧ rel = []) ∨ t = p ++ SLASH :: rel.
Proof.
  unfold under. split.
  - destruct (strip_prefix p t) as [[|c r]|] eqn:E; [..|done]; apply strip_prefix_spec in E as ->.
    + intros [= <-]. left. by rewrite app_nil_r.
    + destruct (Z.eqb_spec c SLASH) as [->|]; [|done]. intros [= <-]. by right.
  - intros [[-> ->]| ->].
    + by rewrite (proj2 (strip_prefix_spec p p [])) by (by rewrite app_nil_r).
    + by rewrite (proj2 (strip_prefix_spec p (p ++ SLASH :: rel) _) eq_refl).
Qed.

(** What the loop has found among the mounts it has passed. *)
Definition best_ok (ms : list (MountEntry F)) (t : str) (best : option (nat * str * str)) : Prop :=
  match best with
  | Some (i, p, rel) => ∃ m, ms !! i = Some m ∧ p = strip_slash (prefix m) ∧ covers m t rel ∧
      ∀ j m' rel', ms !! j = Some m' → covers m' t rel' →
        (length (strip_slash (prefix m')) <= length p)%nat
  | None => ∀ j m' rel', ms !! j = Some m' → ¬ covers m' t rel'
  end.

Lemma best_ok_keep (ms : list (MountEntry F)) (m : MountEntry F) (t : str) (best : option (nat * str * str)) :
  best_ok ms t best →
  (∀ rel, covers m t rel → ∃ i p r, best = Some (i, p, r) ∧ (length (strip_slash (prefix m)) <= length p)%nat) →
  best_ok (ms ++ [m]) t best.
Proof.
  intros Hb Hm. destruct best as [[[i p] rel]|]; simpl in *.
  - destruct Hb as (m0 & Hi & -> & Hc & Hmax). exists m0.
    split; [by apply lookup_app_l_Some|]. split; [done|]. split; [done|].
    intros j m' rel' Hj Hc'. apply lookup_app_Some in Hj as [Hj|[_ Hj]]; [by eapply Hmax|].
    apply list_lookup_singleton_Some in Hj as [_ <-].
    by destruct (Hm _ Hc') as (? & ? & ? & [= <- <- <-] & ?).
  - intros j m' rel' Hj Hc'. apply lookup_app_Some in Hj as [Hj|[_ Hj]]; [by eapply Hb|].
    apply list_lookup_singleton_Some in Hj as [_ <-]. by destruct (Hm _ Hc') as (? & ? & ? & ? & ?).
Qed.

Lemma best_ok_new (ms : list (MountEntry F)) (m : MountEntry F) (t rel : str) (best : option (nat * str * str)) :
  best_ok ms t best → covers m t rel →
  (∀ i p r, best = Some (i, p, r) → (length p <= length (strip_slash (prefix m)))%nat) →
  best_ok (ms ++ [m]) t (Some (length ms, strip_slash (prefix m), rel)).
Proof.
  intros Hb Hc Hlt. exists m. split; [by apply list_lookup_middle|]. split; [done|]. split; [done|].
  intros j m' rel' Hj Hc'. apply lookup_app_Some in Hj as [Hj|[_ Hj]].
  - destruct best as [[[i p] r]|]; simpl in Hb; [|by destruct (Hb _ _ _ Hj Hc')].
    destruct Hb as (m0 & _ & _ & _ & Hmax). specialize (Hmax _ _ _ Hj Hc').
    specialize (Hlt _ _ _ eq_refl). lia.
  - apply list_lookup_singleton_Some in Hj as [_ <-]. lia.
Qed.

Lemma best_mount_spec (t : str) (ms : list (MountEntry F)) : ∀ done best,
  best_ok done t best → best_ok (done ++ ms) t (best_mount ms (length done) t best).
Proof.
  induction ms as [|m ms IH]; intros done best Hb; cbn [best_mount]; [by rewrite app_nil_r|].
  replace (done ++ m :: ms) with ((done ++ [m]) ++ ms) by (by rewrite <- app_assoc).
  replace (S (length done)) with (length (done ++ [m])) by (rewrite length_app; simpl; lia).
  apply IH. destruct (strip_slash (prefix m)) as [|c p] eqn:Ep.
  - destruct best as [[[i q] r]|].
    + apply best_ok_keep; [done|]. intros rel _. eexists _, _, _. split; [done|]. rewrite Ep. simpl. lia.
    + rewrite <- Ep. eapply best_ok_new; [done|left; by rewrite Ep|done].
  - rewrite <- Ep. destruct (under (strip_slash (prefix m)) t) as [rel|] eqn:Eu.
    + assert (covers m t rel) as Hc by (right; rewrite under_spec in Eu; by rewrite Ep in *).
      destruct best as [[[i q] r]|].
      * destruct (Nat.ltb_spec (length q) (length (strip_slash (prefix m)))).
        -- eapply best_ok_new; [done|done|]. intros i' q' r' [= <- <- <-]. lia.
        -- apply best_ok_keep; [done|]. intros rel' _. by eexists _, _, _.
      * eapply best_ok_new; done.
    + apply best_ok_keep; [done|]. intros rel [[Hp _]|[_ Hc]]; [congruence|].
      apply under_spec in Hc. congruence.
Qed.

(** Path resolution picks a mount whose prefix covers the path, and none
    with a longer prefix does; the relative path is the rest behind it. It fails
    exactly for the empty path and when no mount covers the path. *)
Theorem resolve_path_longest_mount (v : VfsState F) (path : str) :
  match resolve_path_locked v path with
  | Ok (id, rel) => path ≠ [] ∧ ∃ m, mounts v !! id = Some m ∧ covers m (strip_slash path) rel ∧
      ∀ j m' rel', mounts v !! j = Some m' → covers m' (strip_slash path) rel' →
        (length (strip_slash (prefix m')) <= length (strip_slash (prefix m)))%nat
  | Err e => (path = [] ∧ e = InvalidParam) ∨
      (path ≠ [] ∧ e = NotFound ∧ ∀ j m rel, mounts v !! j = Some m → ¬ covers m (strip_slash path) rel)
  end.
Proof.
  unfold resolve_path_locked. destruct path as [|c path]; [by left|].
  pose proof (best_mount_spec (strip_slash (c :: path)) (mounts v) [] None) as Hb.
  cbn [length app] in Hb. destruct (best_mount _ _ _ _) as [[[id p] rel]|].
  - destruct Hb as (m & Hm & -> & Hc & Hmax); [by intros j ? ? ?|].
    split; [done|]. exists m. split; [done|]. split; done.
  - right. split; [done|]. split; [done|]. apply Hb. by intros j ? ? ?.
Qed.

End resolve.

(** ** Reads and writes through descriptors *)

Section io.
Context {F : Type} `{FileSystemLaws F}.

(** Descriptor [fd] is open on a file with contents [d] of a well-formed mount. *)
Definition opened (v : VfsState F) (fd : nat) (file : OpenFile) (d : list Z) : Prop :=
  ∃ f, get (open_files v) fd = Some file ∧ get_fs v (mount_id file) = Ok f ∧
       fs_ok f ∧ contents f (inode file) = Some d.

Lemma get_fs_set (v : VfsState F) (id id' : nat) (f f' : F) :
  get_fs v id = Ok f → get_fs (set_fs v id' f') id = Ok (if decide (id = id') then f' else f).
Proof.
  unfold get_fs, set_fs. cbn [mounts]. intros Hf.
  destruct (mounts v !! id) as [m|] eqn:E; [|done]. simpl in Hf. injection Hf as <-.
  case_decide as Hd.
  - subst id'. by rewrite list_lookup_alter_eq, E.
  - by rewrite list_lookup_alter_ne, E by done.
Qed.

Lemma get_set_pos (v : VfsState F) (fd fd' : nat) (p : Z) (file : OpenFile) :
  get (open_files v) fd' = Some file →
  get (open_files (set_pos v fd p)) fd' =
    Some (if decide (fd' = fd) then mkOpenFile (mount_id file) (inode file) p (flags file) else file).
Proof.
  unfold get, set_pos, set_files. cbn [open_files]. intros Hf.
  destruct (open_files v !! fd') as [o|] eqn:E; [|done]. subst o. case_decide as Hd.
  - subst fd'. by rewrite list_lookup_alter_eq, E.
  - by rewrite list_lookup_alter_ne, E by done.
Qed.

Lemma pread_opened (v : VfsState F) (fd : nat) (file : OpenFile) (d : list Z) (len off : Z) :
  opened v fd file d → flags file ≠ O_WRONLY → 0 <= off → 0 <= len → off + len < 2 ^ 64 →
  pread v fd len off = Ret (Ok (take (Z.to_nat len) (drop (Z.to_nat off) d))).
Proof.
  intros (f & Hg & Hf & Hok & Hc) Hfl Ho Hl Hb. unfold pread. rewrite Hg, Hf.
  rewrite (proj2 (Z.eqb_neq _ _) Hfl). by apply read_file_law.
Qed.

Lemma splice_read (d data : list Z) (off : nat) :
  take (length data) (drop off (splice d off data)) = data.
Proof.
  unfold splice. rewrite drop_app_length'; [apply take_app_length|].
  rewrite length_take, length_app, length_replicate. lia.
Qed.

(** A write through a descriptor not opened read-only stores the data at
    the descriptor's position and advances it by the length. Every descriptor
    open on the same file of the same mount then reads the new contents, a read
    at the old position returns the data, and descriptors on other files read
    what they did before. *)
Theorem vfs_write_then_read (v : VfsState F) (fd : nat) (file : OpenFile) (d data : list Z) :
  opened v fd file d → flags file ≠ O_RDONLY → 0 <= pos file →
  pos file + Z.of_nat (length data) < 2 ^ 64 →
  let off := Z.to_nat (pos file) in
  take (length data) (drop off (splice d off data)) = data ∧
  ∃ v', write v fd data = Ret (Ok (Z.of_nat (length data)), v') ∧
    (pos <$> get (open_files v') fd) = Some (pos file + Z.of_nat (length data)) ∧
    ∀ fd' file' d', opened v fd' file' d' → flags file' ≠ O_WRONLY →
      ∀ len o, 0 <= o → 0 <= len → o + len < 2 ^ 64 →
      pread v' fd' len o = Ret (Ok (take (Z.to_nat len) (drop (Z.to_nat o)
        (if decide (mount_id file' = mount_id file ∧ inode file' = inode file)
         then splice d off data else d')))).
Proof.
  intros (f & Hg & Hf & Hok & Hc) Hfl Hpos Hlen off. split; [apply splice_read|].
  destruct (write_file_law f (inode file) d (pos file) data) as (f' & Hw & Hok' & Hc' & Hother); try done.
  eexists. split; [|split].
  - unfold write. rewrite Hg. cbn [ok_or try_bind]. rewrite (proj2 (Z.eqb_neq _ _) Hfl), Hf.
    cbn [try_bind]. rewrite Hw. done.
  - erewrite get_set_pos by done. rewrite decide_True by done. simpl. by rewrite u64_small by lia.
  - intros fd' file' d' (f0 & Hg0 & Hf0 & Hok0 & Hc0) Hfl' len o Ho Hl Hb.
    pose proof (get_set_pos (set_fs v (mount_id file) f') fd fd'
      (pos file +! Z.of_nat (length data)) file' Hg0) as Hget.
    pose proof (get_fs_set v (mount_id file') (mount_id file) f0 f' Hf0) as Hfs.
    match type of Hget with _ = Some ?g => set (file1 := g) in * end.
    assert (mount_id file1 = mount_id file' ∧ inode file1 = inode file' ∧ flags file1 = flags file')
      as (E1 & E2 & E3) by (subst file1; by destruct (decide (fd' = fd))).
    apply (pread_opened _ _ file1); [|by rewrite E3|done..].
    eexists. split; [exact Hget|]. rewrite E1, E2. split; [exact Hfs|].
    case_decide as Hm; [|rewrite decide_False by tauto; done].
    split; [done|]. rewrite Hm in Hf0. assert (f0 = f) as -> by congruence.
    case_decide as Hi; [destruct Hi as [_ ->]; done|]. rewrite Hother; [done|tauto].
Qed.

End io.

End Vfs.
