(* ===== verification/RamFs.v ===== *)
(** The RAM file system ([kernel/src/driver/ramfs.rs]).

    Nodes are a finite map from inode numbers; the embedded programs and the
    host of static data are byte lists.  The virtual file tree the kernel keeps
    for /proc and /etc is the [option] of the global.  Abstractly the file
    system is a partial map from paths to directories and file contents. *)

From stdpp Require Import base numbers list gmap strings.
From S2P Require Import Prelude Vfs.
Import Path.
Local Open Scope Z_scope.
Local Open Scope rust_scope.

Module RamFs.
Import Vfs.

Inductive RamFileData :=
| Static (s : list Z)
| Owned (v : list Z).

Definition as_slice (d : RamFileData) : list Z :=
  match d with
  | Static s => s
  | Owned v => v
  end.

Definition len (d : RamFileData) : Z := Z.of_nat (length (as_slice d)).

Record RamFsNode := mkNode { name : str; data : RamFileData; node_is_dir : bool; children : list Z }.

Record RamFileSystem := mkRamFs { nodes : gmap Z RamFsNode; next_inode : Z }.

Definition ROOT_INODE : Z := 1.

Definition new : RamFileSystem :=
  mkRamFs {[ROOT_INODE := mkNode [SLASH] (Owned []) true []]} 2.

(** [self.nodes.get_mut(&inode)] and a change of the data. *)
Definition set_data (fs : RamFileSystem) (ino : Z) (d : RamFileData) : RamFileSystem :=
  mkRamFs (alter (fun n => mkNode (name n) d (node_is_dir n) (children n)) ino (nodes fs)) (next_inode fs).

Definition alloc_inode (fs : RamFileSystem) : Z * RamFileSystem :=
  (next_inode fs, mkRamFs (nodes fs) (next_inode fs +! 1)).

Definition add_child (fs : RamFileSystem) (dir child : Z) : RamFileSystem :=
  mkRamFs (alter (fun n => if decide (child ∈ children n) then n
                           else mkNode (name n) (data n) (node_is_dir n) (children n ++ [child]))
             dir (nodes fs)) (next_inode fs).

(** The loop of [find_child_by_name]. *)
Fixpoint find_named (m : gmap Z RamFsNode) (cs : list Z) (nm : str) : option Z :=
  match cs with
  | [] => None
  | c :: cs' =>
      match m !! c with
      | Some child => if decide (name child = nm) then Some c else find_named m cs' nm
      | None => find_named m cs' nm
      end
  end.

Definition find_child_by_name (fs : RamFileSystem) (dir : Z) (nm : str) : option Z :=
  match nodes fs !! dir with
  | Some d => if negb (node_is_dir d) then None else find_named (nodes fs) (children d) nm
  | None => None
  end.

Definition remove_child (fs : RamFileSystem) (dir child : Z) : RamFileSystem :=
  mkRamFs (alter (fun n => mkNode (name n) (data n) (node_is_dir n) (filter (fun c => c ≠ child) (children n)))
             dir (nodes fs)) (next_inode fs).

Definition file_count (fs : RamFileSystem) : Z := Z.of_nat (size (nodes fs)) -! 1.

(** [self.nodes.insert(inode, node); self.add_child(dir, inode)] for a new inode. *)
Definition add_node (fs : RamFileSystem) (dir : Z) (n : RamFsNode) : Z * RamFileSystem :=
  let '(ino, fs) := alloc_inode fs in
  (ino, add_child (mkRamFs (<[ino := n]> (nodes fs)) (next_inode fs)) dir ino).

Definition write_static (fs : RamFileSystem) (nm : str) (d : list Z) : RamFileSystem :=
  match find_child_by_name fs ROOT_INODE nm with
  | Some ino =>
      match nodes fs !! ino with
      | Some _ => set_data fs ino (Static d)
      | None => (add_node fs ROOT_INODE (mkNode nm (Static d) false [])).2
      end
  | None => (add_node fs ROOT_INODE (mkNode nm (Static d) false [])).2
  end.

(** [new_initialized], with the embedded programs as arguments. *)
Definition new_initialized (programs : list (str * list Z)) : RamFileSystem :=
  foldl (fun fs '(nm, d) => write_static fs nm d) new programs.

(** ** The [FileSystem] operations *)

Definition lookup (fs : RamFileSystem) (dir : Z) (nm : str) : result Z VfsError :=
  ok_or (find_child_by_name fs dir nm) NotFound.

Definition file_type (n : RamFsNode) : VfsFileType := if node_is_dir n then Directory else File.

Definition metadata (fs : RamFileSystem) (ino : Z) : result VfsMetadata VfsError :=
  let? n := ok_or (nodes fs !! ino) NotFound in
  Ok (mkMeta (file_type n) (len (data n)) (name n)).

Definition readdir (fs : RamFileSystem) (dir idx : Z) : result (option VfsDirEntry) VfsError :=
  let? n := ok_or (nodes fs !! dir) NotFound in
  if negb (node_is_dir n) then Err NotADirectory
  else
    match children n !! Z.to_nat idx with
    | None => Ok None
    | Some c =>
        let? child := ok_or (nodes fs !! c) NotFound in
        Ok (Some (mkDirEntry (name child) (file_type child) (len (data child))))
    end.

Definition read_file (fs : RamFileSystem) (ino off buf_len : Z) : exec (result (list Z) VfsError) :=
  match nodes fs !! ino with
  | None => Ret (Err NotFound)
  | Some n =>
      if node_is_dir n then Ret (Err NotAFile)
      else
        let d := as_slice (data n) in
        if Z.of_nat (length d) <=? off then Ret (Ok [])
        else
          let end_ := Z.min (off +! buf_len) (Z.of_nat (length d)) in
          if off <=? end_ then Ret (Ok (take (Z.to_nat (end_ - off)) (drop (Z.to_nat off) d)))
          else Panic
  end.

(** [v.resize(n, 0)] *)
Definition resize (v : list Z) (n : Z) : list Z :=
  take (Z.to_nat n) v ++ replicate (Z.to_nat n - length v) 0.

Definition write_file (fs : RamFileSystem) (ino off : Z) (d : list Z)
    : exec (result Z VfsError * RamFileSystem) :=
  match nodes fs !! ino with
  | None => Ret (Err NotFound, fs)
  | Some n =>
      if node_is_dir n then Ret (Err NotAFile, fs)
      else
        let owned := as_slice (data n) in
        let end_ := off +! Z.of_nat (length d) in
        let owned := if Z.of_nat (length owned) <? end_ then resize owned end_ else owned in
        if (off <=? end_) && (end_ <=? Z.of_nat (length owned)) then
          Ret (Ok (Z.of_nat (length d)),
               set_data fs ino (Owned (take (Z.to_nat off) owned ++ d ++ drop (Z.to_nat end_) owned)))
        else Panic
  end.

Definition create_node (fs : RamFileSystem) (dir : Z) (nm : str) (is_dir : bool)
    : result Z VfsError * RamFileSystem :=
  match nodes fs !! dir with
  | None => (Err NotFound, fs)
  | Some parent =>
      if negb (node_is_dir parent) then (Err NotADirectory, fs)
      else
        match find_child_by_name fs dir nm with
        | Some _ => (Err AlreadyExists, fs)
        | None =>
            let '(ino, fs) := add_node fs dir (mkNode nm (Owned []) is_dir []) in (Ok ino, fs)
        end
  end.

Definition create_file (fs : RamFileSystem) (dir : Z) (nm : str) : result Z VfsError * RamFileSystem :=
  create_node fs dir nm false.

Definition create_dir (fs : RamFileSystem) (dir : Z) (nm : str) : result Z VfsError * RamFileSystem :=
  create_node fs dir nm true.

Definition unlink (fs : RamFileSystem) (dir : Z) (nm : str) : result unit VfsError * RamFileSystem :=
  match find_child_by_name fs dir nm with
  | None => (Err NotFound, fs)
  | Some ino =>
      match nodes fs !! ino with
      | None => (Err NotFound, fs)
      | Some n =>
          if node_is_dir n && negb (bool_decide (children n = [])) then (Err DirectoryNotEmpty, fs)
          else
            let fs := remove_child fs dir ino in
            (Ok tt, mkRamFs (delete ino (nodes fs)) (next_inode fs))
      end
  end.

Definition set_file_size (fs : RamFileSystem) (ino size : Z) : result unit VfsError * RamFileSystem :=
  match nodes fs !! ino with
  | None => (Err NotFound, fs)
  | Some n =>
      if node_is_dir n then (Err NotAFile, fs)
      else (Ok tt, set_data fs ino (Owned (resize (as_slice (data n)) size)))
  end.

#[global] Instance ram_file_system : FileSystem RamFileSystem := {|
  Vfs.root_inode := fun _ => ROOT_INODE; Vfs.lookup := lookup; Vfs.metadata := metadata;
  Vfs.readdir := readdir; Vfs.read_file := read_file; Vfs.write_file := write_file;
  Vfs.create_file := create_file; Vfs.create_dir := create_dir; Vfs.fs_unlink := unlink;
  Vfs.set_file_size := set_file_size;
|}.

(** ** Paths *)

(** The loop of [walk_create_dirs] over all components but the last. *)
Fixpoint create_dirs (fs : RamFileSystem) (dir : Z) (ps : list str) : result Z VfsError * RamFileSystem :=
  match ps with
  | [] => (Ok dir, fs)
  | part :: ps' =>
      match find_child_by_name fs dir part with
      | Some child =>
          match nodes fs !! child with
          | None => (Err NotFound, fs)
          | Some n => if negb (node_is_dir n) then (Err NotADirectory, fs) else create_dirs fs child ps'
          end
      | None =>
          match create_dir fs dir part with
          | (Ok d, fs) => create_dirs fs d ps'
          | (Err e, fs) => (Err e, fs)
          end
      end
  end.

Definition walk_create_dirs (fs : RamFileSystem) (path : str) : result (Z * str) VfsError * RamFileSystem :=
  let ps := parts (strip_slash path) in
  match last ps with
  | None => (Err InvalidParam, fs)
  | Some file_name =>
      match create_dirs fs ROOT_INODE (take (length ps - 1) ps) with
      | (Ok d, fs) => (Ok (d, file_name), fs)
      | (Err e, fs) => (Err e, fs)
      end
  end.

Fixpoint walk (fs : RamFileSystem) (ino : Z) (ps : list str) : option Z :=
  match ps with
  | [] => Some ino
  | p :: ps' =>
      match find_child_by_name fs ino p with
      | Some c => walk fs c ps'
      | None => None
      end
  end.

Definition walk_path (fs : RamFileSystem) (path : str) : result Z VfsError :=
  let trimmed := strip_slash path in
  match trimmed with
  | [] => Ok ROOT_INODE
  | _ => ok_or (walk fs ROOT_INODE (parts trimmed)) NotFound
  end.

Definition create_path (fs : RamFileSystem) (path : str) (d : list Z) : result unit VfsError * RamFileSystem :=
  match walk_create_dirs fs path with
  | (Err e, fs) => (Err e, fs)
  | (Ok (dir, file_name), fs) =>
      match find_child_by_name fs dir file_name with
      | Some existing =>
          match nodes fs !! existing with
          | Some _ => (Ok tt, set_data fs existing (Owned d))
          | None => (Ok tt, (add_node fs dir (mkNode file_name (Owned d) false [])).2)
          end
      | None => (Ok tt, (add_node fs dir (mkNode file_name (Owned d) false [])).2)
      end
  end.

Definition node_at (fs : RamFileSystem) (path : str) : option RamFsNode :=
  match walk_path fs path with
  | Ok ino => nodes fs !! ino
  | Err _ => None
  end.

Definition read_path (fs : RamFileSystem) (path : str) : option (list Z) :=
  match node_at fs path with
  | Some n => if node_is_dir n then None else Some (as_slice (data n))
  | None => None
  end.

Definition path_exists (fs : RamFileSystem) (path : str) : bool :=
  match walk_path fs path with Ok _ => true | Err _ => false end.

Definition readdir_path (fs : RamFileSystem) (path : str) : option (list (str * bool * Z)) :=
  match node_at fs path with
  | Some n =>
      if negb (node_is_dir n) then None
      else Some (omap (fun c => (fun child => (name child, node_is_dir child, len (data child))) <$> nodes fs !! c)
                   (children n))
  | None => None
  end.

Definition file_size (fs : RamFileSystem) (path : str) : option Z :=
  match node_at fs path with
  | Some n => if node_is_dir n then None else Some (len (data n))
  | None => None
  end.

Definition write_path (fs : RamFileSystem) (path : str) (off : Z) (d : list Z)
    : exec (result Z VfsError * RamFileSystem) :=
  match walk_path fs path with
  | Err e => Ret (Err e, fs)
  | Ok ino => write_file fs ino off d
  end.

(** ** The global virtual file system *)

(** [VIRTUAL_RAMFS] after [ensure_virtual_ramfs]. *)
Definition ensure_virtual_ramfs (g : option RamFileSystem) : RamFileSystem :=
  match g with
  | None => new
  | Some fs => fs
  end.

Definition virtual_files : list (str * list Z) :=
  [(bytes "/proc/version", bytes "Linux 6.1.0 KarteOS x86_64");
   (bytes "/etc/resolv.conf", bytes "nameserver 10.0.2.3");
   (bytes "/etc/hostname", bytes "karteos");
   (bytes "/etc/passwd", bytes "root:x:0:0:root:/root:/bin/sh");
   (bytes "/etc/group", bytes "root:x:0:")].

Definition virtual_init (g : option RamFileSystem) : option RamFileSystem :=
  Some (foldl (fun fs '(p, d) => (create_path fs p d).2) (ensure_virtual_ramfs g) virtual_files).

Definition virtual_create (g : option RamFileSystem) (path : str) (d : list Z) : option RamFileSystem :=
  Some (create_path (ensure_virtual_ramfs g) path d).2.

Definition virtual_read (g : option RamFileSystem) (path : str) : option (list Z) * option RamFileSystem :=
  let fs := ensure_virtual_ramfs g in (read_path fs path, Some fs).

Definition virtual_exists (g : option RamFileSystem) (path : str) : bool * option RamFileSystem :=
  let fs := ensure_virtual_ramfs g in (path_exists fs path, Some fs).

Definition virtual_readdir (g : option RamFileSystem) (path : str)
    : option (list (str * bool * Z)) * option RamFileSystem :=
  let fs := ensure_virtual_ramfs g in (readdir_path fs path, Some fs).

Definition virtual_size (g : option RamFileSystem) (path : str) : option Z * option RamFileSystem :=
  let fs := ensure_virtual_ramfs g in (file_size fs path, Some fs).

Definition virtual_write (g : option RamFileSystem) (path : str) (off : Z) (d : list Z)
    : exec (result Z VfsError * option RamFileSystem) :=
  let! r := write_path (ensure_virtual_ramfs g) path off d in
  let '(r, fs) := r in Ret (r, Some fs).

(** ** Well-formed trees *)

Record wf (fs : RamFileSystem) : Prop := mkWf {
  wf_root : ∃ n, nodes fs !! ROOT_INODE = Some n ∧ node_is_dir n = true;
  wf_child : ∀ d n c, nodes fs !! d = Some n → c ∈ children n → is_Some (nodes fs !! c) ∧ c ≠ ROOT_INODE;
  wf_parent : ∀ d n d' n' c, nodes fs !! d = Some n → nodes fs !! d' = Some n' →
    c ∈ children n → c ∈ children n' → d = d';
  wf_names : ∀ d n c c' a b, nodes fs !! d = Some n → c ∈ children n → c' ∈ children n →
    nodes fs !! c = Some a → nodes fs !! c' = Some b → name a = name b → c = c';
  wf_next : ∀ i n, nodes fs !! i = Some n → 0 < i < next_inode fs;
}.

(** What a path names. *)
Inductive vnode := VDir | VFile (d : list Z).

Definition vnode_of (n : RamFsNode) : vnode := if node_is_dir n then VDir else VFile (as_slice (data n)).

Definition view (fs : RamFileSystem) (p : list str) : option vnode :=
  match walk fs ROOT_INODE p with
  | Some i => vnode_of <$> nodes fs !! i
  | None => None
  end.

Lemma ramfs_new_wf : wf new.
Proof.
  split; cbn [new nodes next_inode].
  - eexists. by rewrite lookup_singleton_eq.
  - intros d n c [_ <-]%lookup_singleton_Some Hc. by apply not_elem_of_nil in Hc.
  - intros d n d' n' c [_ <-]%lookup_singleton_Some _ Hc. by apply not_elem_of_nil in Hc.
  - intros d n c c' a b [_ <-]%lookup_singleton_Some Hc. by apply not_elem_of_nil in Hc.
  - intros i n [<- _]%lookup_singleton_Some. done.
Qed.

Lemma find_named_Some (m : gmap Z RamFsNode) (cs : list Z) (nm : str) (c : Z) :
  find_named m cs nm = Some c → c ∈ cs ∧ ∃ n, m !! c = Some n ∧ name n = nm.
Proof.
  induction cs as [|c' cs IH]; cbn [find_named]; [done|]. intros Hf.
  destruct (m !! c') as [n|] eqn:E; [case_decide|].
  - injection Hf as <-. split; [left|by exists n].
  - destruct (IH Hf). split; [by right|done].
  - destruct (IH Hf). split; [by right|done].
Qed.

Lemma find_named_None (m : gmap Z RamFsNode) (cs : list Z) (nm : str) :
  find_named m cs nm = None → ∀ c n, c ∈ cs → m !! c = Some n → name n ≠ nm.
Proof.
  induction cs as [|c' cs IH]; cbn [find_named]; intros Hf c n Hc Hn.
  { by apply not_elem_of_nil in Hc. }
  apply elem_of_cons in Hc as [->|Hc].
  - rewrite Hn in Hf. by case_decide.
  - destruct (m !! c') as [n'|]; [case_decide; [done|]|]; by eapply IH.
Qed.

(** [c] is the entry named [nm] of directory [d]. *)
Definition entry (fs : RamFileSystem) (d : Z) (nm : str) (c : Z) : Prop :=
  ∃ n nc, nodes fs !! d = Some n ∧ node_is_dir n = true ∧ c ∈ children n ∧
          nodes fs !! c = Some nc ∧ name nc = nm.

Lemma find_child_iff (fs : RamFileSystem) (d : Z) (nm : str) (c : Z) :
  wf fs → find_child_by_name fs d nm = Some c ↔ entry fs d nm c.
Proof.
  intros Hwf. unfold find_child_by_name, entry. split.
  - destruct (nodes fs !! d) as [n|] eqn:E; [|done].
    destruct (node_is_dir n) eqn:Ed; [|done]. cbn [negb].
    intros (Hc & nc & Hnc & Hnm)%find_named_Some. by exists n, nc.
  - intros (n & nc & Hd & Hdir & Hc & Hnc & Hnm). rewrite Hd, Hdir. cbn [negb].
    destruct (find_named (nodes fs) (children n) nm) as [c'|] eqn:E.
    + apply find_named_Some in E as (Hc' & n' & Hn' & Hnm'). f_equal.
      eapply wf_names; [done|exact Hd|done|done|exact Hn'|exact Hnc|congruence].
    + by destruct (find_named_None _ _ _ E c nc Hc Hnc).
Qed.

Lemma entry_child (fs : RamFileSystem) (d : Z) (nm : str) (c : Z) :
  wf fs → entry fs d nm c → c ≠ ROOT_INODE ∧ is_Some (nodes fs !! c).
Proof. intros Hwf (n & nc & Hd & _ & Hc & _). by destruct (wf_child _ Hwf _ _ _ Hd Hc). Qed.

Lemma entry_inj (fs : RamFileSystem) (d d' : Z) (x x' : str) (c : Z) :
  wf fs → entry fs d x c → entry fs d' x' c → d = d' ∧ x = x'.
Proof.
  intros Hwf (n & nc & Hd & _ & Hc & Hnc & <-) (n' & nc' & Hd' & _ & Hc' & Hnc' & <-).
  split; [by eapply (wf_parent _ Hwf d n d' n')|congruence].
Qed.

Lemma walk_app (fs : RamFileSystem) (p q : list str) : ∀ i,
  walk fs i (p ++ q) = match walk fs i p with Some j => walk fs j q | None => None end.
Proof.
  induction p as [|x p IH]; intros i; cbn [walk app]; [done|].
  destruct (find_child_by_name fs i x); [apply IH|done].
Qed.

Lemma walk_snoc (fs : RamFileSystem) (p : list str) (x : str) (c : Z) :
  wf fs → walk fs ROOT_INODE (p ++ [x]) = Some c ↔
    ∃ d, walk fs ROOT_INODE p = Some d ∧ entry fs d x c.
Proof.
  intros Hwf. rewrite walk_app. cbn [walk]. split.
  - destruct (walk fs ROOT_INODE p) as [d|]; [|done].
    destruct (find_child_by_name fs d x) as [c'|] eqn:E; [|done]. intros [= <-].
    exists d. by rewrite <- find_child_iff.
  - intros (d & -> & He). by rewrite (proj2 (find_child_iff fs d x c Hwf) He).
Qed.

(** Every inode has one path. *)
Lemma walk_inj (fs : RamFileSystem) (p q : list str) (i : Z) :
  wf fs → walk fs ROOT_INODE p = Some i → walk fs ROOT_INODE q = Some i → p = q.
Proof.
  intros Hwf. revert q i. induction p as [|x p IH] using rev_ind; intros q i Hp Hq;
    destruct q as [|y q _] using rev_ind.
  - done.
  - apply walk_snoc in Hq as (d & _ & He); [|done]. injection Hp as <-.
    by destruct (entry_child _ _ _ _ Hwf He).
  - apply walk_snoc in Hp as (d & _ & He); [|done]. injection Hq as <-.
    by destruct (entry_child _ _ _ _ Hwf He).
  - apply walk_snoc in Hp as (d & Hd & He); [|done]. apply walk_snoc in Hq as (d' & Hd' & He'); [|done].
    destruct (entry_inj _ _ _ _ _ _ Hwf He He') as [-> ->]. by rewrite (IH q d').
Qed.

Lemma walk_is_Some (fs : RamFileSystem) (p : list str) (i : Z) :
  wf fs → walk fs ROOT_INODE p = Some i → is_Some (nodes fs !! i).
Proof.
  intros Hwf. destruct p as [|x p _] using rev_ind.
  - intros [= <-]. destruct (wf_root _ Hwf) as (n & -> & _). done.
  - intros (d & _ & He)%walk_snoc; [|done]. by destruct (entry_child _ _ _ _ Hwf He).
Qed.

(** ** Changing a file's data *)

Lemma set_data_lookup (fs : RamFileSystem) (i j : Z) (d : RamFileData) (n : RamFsNode) :
  nodes (set_data fs i d) !! j = Some n →
  ∃ n0, nodes fs !! j = Some n0 ∧ name n = name n0 ∧ node_is_dir n = node_is_dir n0 ∧
        children n = children n0 ∧ (j ≠ i → n = n0) ∧ (j = i → data n = d).
Proof.
  cbn [set_data nodes]. destruct (decide (j = i)) as [->|Hne].
  - rewrite lookup_alter_eq. intros (n0 & Hn & ->)%fmap_Some. by exists n0.
  - rewrite lookup_alter_ne by done. intros Hn. by exists n.
Qed.

Lemma set_data_lookup_fwd (fs : RamFileSystem) (i j : Z) (d : RamFileData) (n : RamFsNode) :
  nodes fs !! j = Some n →
  nodes (set_data fs i d) !! j =
    Some (mkNode (name n) (if decide (j = i) then d else data n) (node_is_dir n) (children n)).
Proof.
  intros Hn. cbn [set_data nodes]. case_decide as Hd.
  - subst j. by rewrite lookup_alter_eq, Hn.
  - rewrite lookup_alter_ne, Hn by done. by destruct n.
Qed.

Lemma set_data_wf (fs : RamFileSystem) (i : Z) (d : RamFileData) : wf fs → wf (set_data fs i d).
Proof.
  intros [H1 H2 H3 H4 H5]. split.
  - destruct H1 as (n & Hn & Hd). eexists. split; [by apply set_data_lookup_fwd|done].
  - intros d0 n c Hn Hc. apply set_data_lookup in Hn as (n0 & Hn0 & _ & _ & E & _).
    rewrite E in Hc. destruct (H2 _ _ _ Hn0 Hc) as [[nc Hnc] ?].
    split; [|done]. eexists. by apply set_data_lookup_fwd.
  - intros d0 n d' n' c (n0 & Hn0 & _ & _ & -> & _)%set_data_lookup
      (n1 & Hn1 & _ & _ & -> & _)%set_data_lookup. by eapply H3.
  - intros d0 n c c' a b (n0 & Hn0 & _ & _ & -> & _)%set_data_lookup Hc Hc'
      (a0 & Ha & -> & _)%set_data_lookup (b0 & Hb & -> & _)%set_data_lookup.
    eauto.
  - intros j n (n0 & Hn0 & _)%set_data_lookup. by eapply H5.
Qed.

Lemma set_data_find (fs : RamFileSystem) (i dir : Z) (d : RamFileData) (x : str) :
  wf fs → find_child_by_name (set_data fs i d) dir x = find_child_by_name fs dir x.
Proof.
  intros Hwf. apply option_eq. intros c. rewrite !find_child_iff by (done || by apply set_data_wf).
  split.
  - intros (n & nc & (n0 & Hn0 & _ & E1 & E2 & _)%set_data_lookup & Hd & Hc &
      (nc0 & Hnc0 & E3 & _)%set_data_lookup & <-).
    exists n0, nc0. rewrite <- E1, <- E2, <- E3. done.
  - intros (n & nc & Hn & Hd & Hc & Hnc & <-). eexists _, _.
    split; [by apply set_data_lookup_fwd|]. split; [done|]. split; [done|].
    split; [by apply set_data_lookup_fwd|]. done.
Qed.

Lemma set_data_walk (fs : RamFileSystem) (i : Z) (d : RamFileData) (p : list str) : wf fs → ∀ j,
  walk (set_data fs i d) j p = walk fs j p.
Proof.
  intros Hwf. induction p as [|x p IH]; intros j; cbn [walk]; [done|].
  rewrite set_data_find by done. destruct (find_child_by_name fs j x); [apply IH|done].
Qed.

(** Writing a file changes what its path names, and nothing else. *)
Lemma set_data_view (fs : RamFileSystem) (i : Z) (d : RamFileData) (p q : list str) :
  wf fs → walk fs ROOT_INODE p = Some i →
  view (set_data fs i d) q =
    if decide (q = p) then
      (fun v => match v with VDir => VDir | VFile _ => VFile (as_slice d) end) <$> view fs p
    else view fs q.
Proof.
  intros Hwf Hp. unfold view. rewrite set_data_walk by done. case_decide as Hq.
  - subst q. rewrite Hp. destruct (walk_is_Some _ _ _ Hwf Hp) as [n Hn].
    rewrite (set_data_lookup_fwd _ _ _ _ _ Hn), Hn, decide_True by done.
    unfold vnode_of. simpl. by destruct (node_is_dir n).
  - destruct (walk fs ROOT_INODE q) as [j|] eqn:Ej; [|done].
    destruct (decide (j = i)) as [->|Hne]; [by destruct Hq; eapply walk_inj|].
    cbn [set_data nodes]. by rewrite lookup_alter_ne.
Qed.

(** ** Adding an entry *)

Section add.
Context (fs : RamFileSystem) (d : Z) (dn n : RamFsNode) (pd : list str).
Context (Hwf : wf fs) (Hdn : nodes fs !! d = Some dn) (Hdir : node_is_dir dn = true).
Context (Hwalk : walk fs ROOT_INODE pd = Some d).
Context (Hfree : find_child_by_name fs d (name n) = None) (Hleaf : children n = []).
Context (Hnext : next_inode fs + 1 < 2 ^ 64).

Abbreviation ino := (next_inode fs).
Abbreviation fs' := ((add_node fs d n).2).

Lemma add_fresh : nodes fs !! ino = None.
Proof. destruct (nodes fs !! ino) eqn:E; [|done]. apply (wf_next _ Hwf) in E. lia. Qed.

Lemma add_not_child (j : Z) (m : RamFsNode) : nodes fs !! j = Some m → ino ∉ children m.
Proof.
  intros Hm Hc. destruct (wf_child _ Hwf _ _ _ Hm Hc) as [[? H] _]. by rewrite add_fresh in H.
Qed.

Lemma add_lookup (j : Z) : nodes fs' !! j =
  if decide (j = ino) then Some n
  else if decide (j = d) then Some (mkNode (name dn) (data dn) true (children dn ++ [ino]))
  else nodes fs !! j.
Proof.
  assert (d ≠ ino) as Hd by (intros ->; by rewrite add_fresh in Hdn).
  cbn [add_node alloc_inode add_child nodes snd next_inode]. case_decide as Hj.
  - subst j. by rewrite lookup_alter_ne, lookup_insert_eq by done.
  - case_decide as Hj'.
    + subst j. rewrite lookup_alter_eq, lookup_insert_ne, Hdn by done. simpl.
      rewrite decide_False by (by eapply add_not_child). by rewrite Hdir.
    + by rewrite lookup_alter_ne, lookup_insert_ne by done.
Qed.

(** The nodes of the new tree, by where they come from. *)
Lemma add_lookup_Some (j : Z) (m : RamFsNode) : nodes fs' !! j = Some m →
  (j = ino ∧ m = n) ∨
  (∃ m0, nodes fs !! j = Some m0 ∧ j ≠ ino ∧ name m = name m0 ∧ node_is_dir m = node_is_dir m0 ∧
     vnode_of m = vnode_of m0 ∧
     ∀ c, c ∈ children m ↔ c ∈ children m0 ∨ (j = d ∧ c = ino)).
Proof.
  rewrite add_lookup. case_decide as Hj; [intros [= <-]; by left|]. intros Hm. right.
  case_decide as Hj'.
  - subst j. injection Hm as <-. exists dn. unfold vnode_of. cbn [name node_is_dir children data].
    rewrite Hdir. do 5 (split; [done|]). intros c. rewrite elem_of_app, list_elem_of_singleton. tauto.
  - exists m. do 5 (split; [done|]). intros c. tauto.
Qed.

Lemma add_lookup_old (j : Z) (m0 : RamFsNode) : nodes fs !! j = Some m0 →
  ∃ m, nodes fs' !! j = Some m ∧ name m = name m0 ∧ node_is_dir m = node_is_dir m0 ∧
     vnode_of m = vnode_of m0 ∧ ∀ c, c ∈ children m ↔ c ∈ children m0 ∨ (j = d ∧ c = ino).
Proof.
  intros Hm.
  assert (is_Some (nodes fs' !! j)) as [m E].
  { rewrite add_lookup. by repeat case_decide. }
  exists m. destruct (add_lookup_Some _ _ E) as [[-> _]|(m1 & Hm1 & _ & ?)].
  - by rewrite add_fresh in Hm.
  - rewrite Hm in Hm1. injection Hm1 as <-. done.
Qed.

Lemma add_child_free (c : Z) (m : RamFsNode) :
  c ∈ children dn → nodes fs !! c = Some m → name m ≠ name n.
Proof.
  intros Hc Hm. unfold find_child_by_name in Hfree. rewrite Hdn, Hdir in Hfree.
  exact (find_named_None _ _ _ Hfree c m Hc Hm).
Qed.

Lemma add_no_children (c : Z) : c ∉ children n.
Proof. rewrite Hleaf. apply not_elem_of_nil. Qed.

Lemma add_child_cases (j c : Z) (m : RamFsNode) : nodes fs' !! j = Some m → c ∈ children m →
  (∃ m0, nodes fs !! j = Some m0 ∧ c ∈ children m0 ∧ c ≠ ino) ∨ (j = d ∧ c = ino).
Proof.
  intros Hm Hc. destruct (add_lookup_Some _ _ Hm) as [[_ ->]|(m0 & Hm0 & _ & _ & _ & _ & Hch)].
  - by apply add_no_children in Hc.
  - destruct (proj1 (Hch c) Hc) as [Hc0|Hc0]; [left|by right]. exists m0. split; [done|]. split; [done|].
    intros ->. exact (add_not_child _ _ Hm0 Hc0).
Qed.

Lemma add_wf : wf fs'.
Proof.
  split.
  - destruct (wf_root _ Hwf) as (r & Hr & Hd). destruct (add_lookup_old _ _ Hr) as (m & Hm & _ & E & _).
    exists m. split; [done|congruence].
  - intros j m c Hm Hc. destruct (add_child_cases _ _ _ Hm Hc) as [(m0 & Hm0 & Hc0 & _)|[_ ->]].
    + destruct (wf_child _ Hwf _ _ _ Hm0 Hc0) as [[mc Hmc] ?]. split; [|done].
      by destruct (add_lookup_old _ _ Hmc) as (m' & -> & _).
    + rewrite add_lookup, decide_True by done. split; [done|].
      destruct (wf_root _ Hwf) as (r & Hr & _). apply (wf_next _ Hwf) in Hr. lia.
  - intros j m j' m' c Hm Hm' Hc Hc'.
    destruct (add_child_cases _ _ _ Hm Hc) as [(m0 & Hm0 & Hc0 & Hne)|[-> ->]],
      (add_child_cases _ _ _ Hm' Hc') as [(m1 & Hm1 & Hc1 & Hne')|[-> Heq]]; try done.
    by eapply (wf_parent _ Hwf j m0 j' m1).
  - intros j m c c' a b Hm Hc Hc' Ha Hb Hnm.
    assert (∀ c a, c ≠ ino → nodes fs' !! c = Some a → ∃ a0, nodes fs !! c = Some a0 ∧ name a = name a0) as Hold.
    { intros c0 a0 Hne E. destruct (add_lookup_Some _ _ E) as [[? _]|(a1 & ? & _ & ? & _)]; [done|by exists a1]. }
    assert (nodes fs' !! ino = Some n) as Hino by (by rewrite add_lookup, decide_True).
    destruct (add_child_cases _ _ _ Hm Hc) as [(m0 & Hm0 & Hc0 & Hne)|[-> ->]],
      (add_child_cases _ _ _ Hm Hc') as [(m1 & Hm1 & Hc1 & Hne')|[Hj ->]]; try done.
    + destruct (Hold _ _ Hne Ha) as (a0 & Ha0 & E1), (Hold _ _ Hne' Hb) as (b0 & Hb0 & E2).
      rewrite Hm0 in Hm1. injection Hm1 as <-.
      apply (wf_names _ Hwf j m0 c c' a0 b0); [done..|congruence].
    + subst j. assert (m0 = dn) as -> by congruence. destruct (Hold _ _ Hne Ha) as (a0 & Ha0 & E).
      destruct (add_child_free _ _ Hc0 Ha0). congruence.
    + assert (m1 = dn) as -> by congruence. destruct (Hold _ _ Hne' Hb) as (b0 & Hb0 & E).
      destruct (add_child_free _ _ Hc1 Hb0). congruence.
  - intros j m Hm. change (next_inode fs') with (ino +! 1). 
    assert (0 < ino) by (destruct (wf_root _ Hwf) as (r & Hr & _); apply (wf_next _ Hwf) in Hr; lia).
    rewrite u64_small by lia.
    destruct (add_lookup_Some _ _ Hm) as [[-> _]|(m0 & Hm0 & _)]; [lia|].
    apply (wf_next _ Hwf) in Hm0. lia.
Qed.

Lemma add_entry (j c : Z) (x : str) :
  entry fs' j x c ↔ entry fs j x c ∨ (j = d ∧ x = name n ∧ c = ino).
Proof.
  split.
  - intros (m & mc & Hm & Hd & Hc & Hmc & <-).
    destruct (add_child_cases _ _ _ Hm Hc) as [(m0 & Hm0 & Hc0 & Hne)|[-> ->]].
    + left. destruct (add_lookup_Some _ _ Hmc) as [[? _]|(mc0 & Hmc0 & _ & -> & _)]; [done|].
      destruct (add_lookup_Some _ _ Hm) as [[-> _]|(m1 & Hm1 & _ & _ & Hd1 & _)].
      * by rewrite add_fresh in Hm0.
      * rewrite Hm0 in Hm1. injection Hm1 as <-. exists m0, mc0. by rewrite <- Hd1.
    + right. rewrite add_lookup, decide_True in Hmc by done. by injection Hmc as ->.
  - intros [(m & mc & Hm & Hd & Hc & Hmc & <-)|(-> & -> & ->)].
    + destruct (add_lookup_old _ _ Hm) as (m' & Hm' & _ & Hd' & _ & Hch).
      destruct (add_lookup_old _ _ Hmc) as (mc' & Hmc' & Hnm & _).
      exists m', mc'. rewrite Hd', Hch. split_and!; [done|done|by left|done|done].
    + destruct (add_lookup_old _ _ Hdn) as (m' & Hm' & _ & Hd' & _ & Hch).
      exists m', n. rewrite Hd', Hch, Hm'. rewrite add_lookup, decide_True by done.
      split_and!; [done|done|by right|done|done].
Qed.

Lemma add_walk (q : list str) (i : Z) :
  walk fs' ROOT_INODE q = Some i ↔
    walk fs ROOT_INODE q = Some i ∨ (q = pd ++ [name n] ∧ i = ino).
Proof.
  revert i. induction q as [|y q IH] using rev_ind; intros i.
  { split; [by left|]. intros [?|[Hq _]]; [done|]. by destruct pd. }
  rewrite (walk_snoc fs') by apply add_wf. rewrite (walk_snoc fs) by done. split.
  - intros (d0 & Hd0 & [He|(-> & -> & ->)]%add_entry); apply IH in Hd0 as [Hd0|[-> ->]].
    + left. by exists d0.
    + destruct He as (m & _ & Hm & _). by rewrite add_fresh in Hm.
    + right. by rewrite (walk_inj _ _ _ _ Hwf Hd0 Hwalk).
    + by rewrite add_fresh in Hdn.
  - intros [(d0 & Hd0 & He)|[[-> ->]%app_inj_tail ->]].
    + exists d0. rewrite IH, add_entry. auto.
    + exists d. rewrite IH, add_entry. auto.
Qed.

(** A new entry is visible under its path, and nothing else changes. *)
Lemma add_view (q : list str) :
  view fs' q = if decide (q = pd ++ [name n]) then Some (vnode_of n) else view fs q.
Proof.
  unfold view. case_decide as Hq.
  - rewrite (proj2 (add_walk q ino)) by auto. by rewrite add_lookup, decide_True.
  - destruct (walk fs ROOT_INODE q) as [i|] eqn:E.
    + rewrite (proj2 (add_walk q i)) by auto. destruct (walk_is_Some _ _ _ Hwf E) as [m Hm].
      destruct (add_lookup_old _ _ Hm) as (m' & -> & _ & _ & Hv & _). rewrite Hm. simpl. by rewrite Hv.
    + destruct (walk fs' ROOT_INODE q) as [i|] eqn:E'; [|done].
      apply add_walk in E' as [?|[? _]]; congruence.
Qed.

End add.

(** ** Paths *)

Lemma view_root (fs : RamFileSystem) : wf fs → view fs [] = Some VDir.
Proof. intros (n & Hn & Hd)%wf_root. unfold view. cbn [walk]. rewrite Hn. simpl. unfold vnode_of. by rewrite Hd. Qed.

Lemma view_dir (fs : RamFileSystem) (p : list str) (d : Z) (n : RamFsNode) :
  walk fs ROOT_INODE p = Some d → nodes fs !! d = Some n →
  node_is_dir n = true ↔ view fs p = Some VDir.
Proof. intros Hp Hn. unfold view. rewrite Hp, Hn. simpl. unfold vnode_of. by destruct (node_is_dir n). Qed.

(** Below a missing path there is nothing. *)
Lemma view_below (fs : RamFileSystem) (p q : list str) :
  walk fs ROOT_INODE p = None → p `prefix_of` q → view fs q = None.
Proof. intros Hp [r ->]. unfold view. by rewrite walk_app, Hp. Qed.

Lemma prefix_between (pd q ps : list str) (x : str) :
  pd `prefix_of` q ∧ q `prefix_of` pd ++ x :: ps ↔
  q = pd ∨ (pd ++ [x] `prefix_of` q ∧ q `prefix_of` (pd ++ [x]) ++ ps).
Proof.
  rewrite <- app_assoc. cbn [app]. split.
  - intros [[r ->] Hq]. apply prefix_app_inv in Hq. destruct r as [|y r]; [left; by rewrite app_nil_r|].
    right. destruct Hq as [t Ht]. cbn [app] in Ht. injection Ht as -> ->. split.
    + exists r. by rewrite <- app_assoc.
    + exists t. by rewrite <- app_assoc.
  - intros [ -> |[[r ->] Hq]]; [split; [done|by apply prefix_app_r]|]. split; [|done].
    rewrite <- app_assoc. by apply prefix_app_r.
Qed.

(** Creating an entry that is not there. *)
Lemma create_node_ok (fs : RamFileSystem) (d : Z) (pd : list str) (x : str) (b : bool) :
  wf fs → walk fs ROOT_INODE pd = Some d → view fs pd = Some VDir →
  find_child_by_name fs d x = None → next_inode fs + 1 < 2 ^ 64 →
  ∃ ino fs1, create_node fs d x b = (Ok ino, fs1) ∧ wf fs1 ∧
    walk fs1 ROOT_INODE (pd ++ [x]) = Some ino ∧ next_inode fs1 = next_inode fs + 1 ∧
    ∀ q, view fs1 q = if decide (q = pd ++ [x]) then Some (if b then VDir else VFile []) else view fs q.
Proof.
  intros Hwf Hw Hv Ef Hn. destruct (walk_is_Some _ _ _ Hwf Hw) as [dn Hdn].
  pose proof (proj2 (view_dir _ _ _ _ Hw Hdn) Hv) as Hdir.
  unfold create_node. rewrite Hdn, Hdir, Ef. cbn [negb].
  set (nn := mkNode x (Owned []) b []).
  exists (next_inode fs), (add_node fs d nn).2. split; [done|].
  split; [by eapply (add_wf fs d dn nn); (done || lia)|].
  split; [apply (add_walk fs d dn nn pd); try (done || lia); by right|]. split.
  - cbn [add_node alloc_inode add_child next_inode snd]. rewrite u64_small; [done|].
    apply (wf_next _ Hwf) in Hdn. lia.
  - intros q. rewrite (add_view fs d dn nn pd) by (done || lia). by destruct b.
Qed.

Lemma between_view (fs fs1 fs' : RamFileSystem) (pd ps : list str) (x : str) :
  (∀ q, view fs' q =
     if decide (pd ++ [x] `prefix_of` q ∧ q `prefix_of` (pd ++ [x]) ++ ps) then Some VDir else view fs1 q) →
  (∀ q, q ≠ pd ++ [x] → view fs1 q = view fs q) → view fs pd = Some VDir →
  ∀ q, view fs' q = if decide (pd `prefix_of` q ∧ q `prefix_of` pd ++ x :: ps) then Some VDir else view fs q.
Proof.
  intros H' H1 Hpd q. rewrite H'. pose proof (prefix_between pd q ps x) as Hb.
  destruct (decide (pd ++ [x] `prefix_of` q ∧ q `prefix_of` (pd ++ [x]) ++ ps)) as [Hq|Hq].
  { by rewrite decide_True by tauto. }
  assert (q ≠ pd ++ [x]) as Hne by (intros ->; apply Hq; split; [done|by apply prefix_app_r]).
  rewrite H1 by done. case_decide as Hq'; [|done]. by apply Hb in Hq' as [->|?].
Qed.

(** [create_dirs] below directory [d]: it makes the missing directories of the
    path, or stops at a file without having changed anything. *)
Lemma create_dirs_spec (ps : list str) : ∀ fs d pd,
  wf fs → walk fs ROOT_INODE pd = Some d → view fs pd = Some VDir →
  next_inode fs + Z.of_nat (length ps) < 2 ^ 64 →
  match create_dirs fs d ps with
  | (Ok d', fs') => wf fs' ∧ walk fs' ROOT_INODE (pd ++ ps) = Some d' ∧
      next_inode fs' <= next_inode fs + Z.of_nat (length ps) ∧
      ∀ q, view fs' q = if decide (pd `prefix_of` q ∧ q `prefix_of` pd ++ ps) then Some VDir
                        else view fs q
  | (Err e, fs') => fs' = fs ∧ e = NotADirectory ∧
      ∃ q dat, pd `prefix_of` q ∧ q `prefix_of` pd ++ ps ∧ view fs q = Some (VFile dat)
  end.
Proof.
  induction ps as [|x ps IH]; intros fs d pd Hwf Hw Hv Hn; cbn [create_dirs].
  { rewrite app_nil_r. split; [done|]. split; [done|]. split; [simpl; lia|]. intros q. case_decide as Hq; [|done].
    destruct Hq as [H1 H2]. by rewrite (prefix_length_eq q pd H2 (prefix_length _ _ H1)). }
  cbn [length] in *. destruct (find_child_by_name fs d x) as [c|] eqn:Ef.
  - assert (walk fs ROOT_INODE (pd ++ [x]) = Some c) as Hc by (rewrite walk_app, Hw; cbn [walk]; by rewrite Ef).
    destruct (walk_is_Some _ _ _ Hwf Hc) as [cn Hcn]. rewrite Hcn.
    destruct (node_is_dir cn) eqn:Ecd; cbn [negb].
    + pose proof (proj1 (view_dir _ _ _ _ Hc Hcn) Ecd) as Hvc.
      specialize (IH fs c (pd ++ [x]) Hwf Hc Hvc ltac:(lia)).
      destruct (create_dirs fs c ps) as [[d'|e] fs'].
      * destruct IH as (H1 & H2 & H3 & H4). rewrite <- app_assoc in H2.
        split; [done|]. split; [done|]. split; [lia|]. by apply (between_view fs fs).
      * destruct IH as (-> & -> & q & dat & Hq & Hq' & Hvq). split; [done|]. split; [done|].
        exists q, dat. assert (pd `prefix_of` q ∧ q `prefix_of` pd ++ x :: ps) as [? ?]; [|done].
        apply prefix_between. by right.
    + split; [done|]. split; [done|]. exists (pd ++ [x]), (as_slice (data cn)).
      split; [by apply prefix_app_r|]. split; [exists ps; by rewrite <- app_assoc|].
      unfold view. rewrite Hc, Hcn. simpl. unfold vnode_of. by rewrite Ecd.
  - destruct (create_node_ok fs d pd x true Hwf Hw Hv Ef ltac:(lia)) as (ino & fs1 & E & Hwf1 & Hw1 & Hn1 & Hv1).
    unfold create_dir. rewrite E.
    specialize (IH fs1 ino (pd ++ [x]) Hwf1 Hw1 ltac:(rewrite Hv1; by rewrite decide_True) ltac:(lia)).
    destruct (create_dirs fs1 ino ps) as [[d'|e] fs'].
    + destruct IH as (H1 & H2 & H3 & H4). rewrite <- app_assoc in H2.
      split; [done|]. split; [done|]. split; [lia|]. apply (between_view fs fs1); [done| |done].
      intros q Hq. by rewrite Hv1, decide_False.
    + exfalso. destruct IH as (_ & _ & q & dat & Hq & _ & Hvq). rewrite Hv1 in Hvq.
      case_decide; [done|]. rewrite (view_below fs (pd ++ [x]) q) in Hvq; [done| |done].
      rewrite walk_app, Hw. cbn [walk]. by rewrite Ef.
Qed.

Lemma walk_path_parts (fs : RamFileSystem) (path : str) :
  walk_path fs path = ok_or (walk fs ROOT_INODE (parts path)) NotFound.
Proof.
  unfold walk_path. rewrite <- (parts_strip path). by destruct (strip_slash path).
Qed.

(** [read_path] reads the file the path names. *)
Lemma read_path_view (fs : RamFileSystem) (path : str) :
  read_path fs path = match view fs (parts path) with Some (VFile d) => Some d | _ => None end.
Proof.
  unfold read_path, node_at, view. rewrite walk_path_parts.
  destruct (walk fs ROOT_INODE (parts path)) as [i|]; simpl; [|done].
  destruct (nodes fs !! i) as [n|]; simpl; [|done]. unfold vnode_of. by destruct (node_is_dir n).
Qed.

Lemma prefix_snoc_ne (q l : list str) (x : str) :
  q ≠ l ++ [x] → q `prefix_of` l ++ [x] ↔ q `prefix_of` l.
Proof.
  intros Hne. split; [|by apply prefix_app_r]. intros [r Hr].
  destruct r as [|y r _] using rev_ind; [by rewrite app_nil_r in Hr|].
  rewrite app_assoc in Hr. apply app_inj_tail in Hr as [-> _]. by exists r.
Qed.

(** Writing the last component, once its directory is there. *)
Lemma create_last (fs : RamFileSystem) (l : list str) (x : str) (dir : Z) (d : list Z) :
  wf fs → walk fs ROOT_INODE l = Some dir → view fs l = Some VDir → next_inode fs + 1 < 2 ^ 64 →
  let fs' :=
    match find_child_by_name fs dir x with
    | Some existing =>
        match nodes fs !! existing with
        | Some _ => set_data fs existing (Owned d)
        | None => (add_node fs dir (mkNode x (Owned d) false [])).2
        end
    | None => (add_node fs dir (mkNode x (Owned d) false [])).2
    end in
  wf fs' ∧ ∀ q, view fs' q =
    if decide (q = l ++ [x]) then match view fs (l ++ [x]) with Some VDir => Some VDir | _ => Some (VFile d) end
    else view fs q.
Proof.
  intros Hwf Hw Hv Hn. destruct (find_child_by_name fs dir x) as [c|] eqn:Ef.
  - assert (walk fs ROOT_INODE (l ++ [x]) = Some c) as Hc by (rewrite walk_app, Hw; cbn [walk]; by rewrite Ef).
    destruct (walk_is_Some _ _ _ Hwf Hc) as [cn Hcn]. rewrite Hcn. split; [by apply set_data_wf|].
    intros q. rewrite (set_data_view fs c (Owned d) (l ++ [x])) by done. case_decide; [|done].
    unfold view. rewrite Hc, Hcn. simpl. unfold vnode_of. by destruct (node_is_dir cn).
  - destruct (walk_is_Some _ _ _ Hwf Hw) as [dn Hdn].
    pose proof (proj2 (view_dir _ _ _ _ Hw Hdn) Hv) as Hdir. set (n := mkNode x (Owned d) false []).
    split; [by eapply (add_wf fs dir dn n); (done || lia)|].
    intros q. rewrite (add_view fs dir dn n l) by (done || lia).
    rewrite (view_below fs (l ++ [x]) (l ++ [x])); [done| |done].
    rewrite walk_app, Hw. cbn [walk]. by rewrite Ef.
Qed.

(** C15: [create_path] on a well-formed tree, with inode numbers left for every
    component of the path, either returns Ok or fails without a change, the
    latter because the path is empty or passes through a file.  After Ok all
    proper prefixes of the path are directories, and what every other path names
    is as before.  When the path did not name a directory, it now names a file
    with the data, which [read_path] returns.  When it named a directory, it
    still does: Ok is returned, but no file was made and [read_path] finds none.
    The tree stays well formed. *)
Theorem create_path_updates_tree (fs : RamFileSystem) (path : str) (d : list Z) :
  wf fs → next_inode fs + Z.of_nat (length (parts path)) < 2 ^ 64 →
  let ps := parts path in
  match create_path fs path d with
  | (Ok _, fs') => wf fs' ∧ ps ≠ [] ∧
      (∀ q, view fs' q =
        if decide (q = ps) then match view fs ps with Some VDir => Some VDir | _ => Some (VFile d) end
        else if decide (q `prefix_of` ps) then Some VDir else view fs q) ∧
      read_path fs' path = match view fs ps with Some VDir => None | _ => Some d end
  | (Err e, fs') => fs' = fs ∧
      ((ps = [] ∧ e = InvalidParam) ∨
       (e = NotADirectory ∧ ∃ q dat, q `prefix_of` ps ∧ q ≠ ps ∧ view fs q = Some (VFile dat)))
  end.
Proof.
  intros Hwf Hn ps. unfold create_path, walk_create_dirs. rewrite parts_strip. fold ps in Hn |- *.
  destruct ps as [|x l _] eqn:Eps using rev_ind; [by split; [|left]|].
  rewrite last_snoc. replace (take _ (l ++ [x])) with l
    by (rewrite length_app; simpl; by rewrite Nat.add_sub, take_app_length).
  rewrite length_app in Hn. simpl in Hn.
  pose proof (create_dirs_spec l fs ROOT_INODE [] Hwf eq_refl (view_root _ Hwf) ltac:(lia)) as Hd.
  destruct (create_dirs fs ROOT_INODE l) as [[dir|e] fs1]; cbn [app] in Hd.
  - destruct Hd as (Hwf1 & Hw1 & Hn1 & Hv1).
    assert (view fs1 l = Some VDir) as Hl by (rewrite Hv1, decide_True; [done|by split; [apply prefix_nil|]]).
    destruct (create_last fs1 l x dir d Hwf1 Hw1 Hl ltac:(lia)) as [Hwf' Hv'].
    assert (view fs1 (l ++ [x]) = view fs (l ++ [x])) as Hsame.
    { rewrite Hv1, decide_False; [done|]. intros [_ Hp%prefix_length]. rewrite length_app in Hp. simpl in Hp. lia. }
    rewrite Hsame in Hv'. set (fs' := match find_child_by_name fs1 dir x with Some _ => _ | None => _ end) in *.
    assert (match find_child_by_name fs1 dir x with
            | Some existing => match nodes fs1 !! existing with
                | Some _ => (Ok tt : result unit VfsError, set_data fs1 existing (Owned d))
                | None => (Ok tt, (add_node fs1 dir (mkNode x (Owned d) false [])).2) end
            | None => (Ok tt, (add_node fs1 dir (mkNode x (Owned d) false [])).2)
            end = (Ok tt, fs')) as ->.
    { subst fs'. destruct (find_child_by_name fs1 dir x) as [c|]; [|done]. by destruct (nodes fs1 !! c). }
    split; [done|]. split; [by destruct l|]. split.
    + intros q. rewrite Hv'. case_decide as Hq; [done|]. rewrite Hv1. apply decide_ext.
      rewrite prefix_snoc_ne by done. split; [tauto|]. intros ?. split; [apply prefix_nil|done].
    + rewrite read_path_view. fold ps. rewrite Eps, Hv', decide_True by done.
      by destruct (view fs (l ++ [x])) as [[|]|].
  - destruct Hd as (-> & -> & q & dat & _ & Hq & Hvq). split; [done|]. right. split; [done|].
    exists q, dat. split; [by apply prefix_app_r|]. split; [|done].
    intros ->. apply prefix_length in Hq. rewrite length_app in Hq. simpl in Hq. lia.
Qed.

(** ** Removing an entry *)

Section remove.
Context (fs : RamFileSystem) (d c : Z) (cn : RamFsNode) (x : str).
Context (Hwf : wf fs) (Hentry : entry fs d x c) (Hcn : nodes fs !! c = Some cn).
Context (Hempty : node_is_dir cn = true → children cn = []).

Abbreviation fs' := (mkRamFs (delete c (nodes (remove_child fs d c))) (next_inode fs)).

Lemma remove_lookup_Some (j : Z) (m : RamFsNode) : nodes fs' !! j = Some m →
  j ≠ c ∧ ∃ m0, nodes fs !! j = Some m0 ∧ name m = name m0 ∧ node_is_dir m = node_is_dir m0 ∧
    vnode_of m = vnode_of m0 ∧ ∀ k, k ∈ children m ↔ k ∈ children m0 ∧ k ≠ c.
Proof.
  cbn [nodes remove_child]. intros [Hne Hm]%lookup_delete_Some. split; [done|].
  destruct (decide (j = d)) as [->|Hj].
  - rewrite lookup_alter_eq in Hm. apply fmap_Some in Hm as (m0 & Hm0 & ->). exists m0.
    do 4 (split; [done|]). intros k. cbn [children]. rewrite list_elem_of_filter. tauto.
  - rewrite lookup_alter_ne in Hm by done. exists m. do 4 (split; [done|]). intros k. split; [|tauto].
    intros Hk. split; [done|]. intros ->. apply Hj.
    destruct Hentry as (n & nc & Hd & _ & Hc & _). by eapply (wf_parent _ Hwf j m d n).
Qed.

Lemma remove_lookup_old (j : Z) (m0 : RamFsNode) : nodes fs !! j = Some m0 → j ≠ c →
  ∃ m, nodes fs' !! j = Some m ∧ name m = name m0 ∧ node_is_dir m = node_is_dir m0 ∧
    vnode_of m = vnode_of m0 ∧ ∀ k, k ∈ children m ↔ k ∈ children m0 ∧ k ≠ c.
Proof.
  intros Hm Hne. assert (is_Some (nodes fs' !! j)) as [m E].
  { cbn [nodes remove_child]. rewrite lookup_delete_ne by done.
    destruct (decide (j = d)) as [->|]; [rewrite lookup_alter_eq, Hm|rewrite lookup_alter_ne]; done. }
  exists m. destruct (remove_lookup_Some _ _ E) as (_ & m1 & Hm1 & ?).
  rewrite Hm in Hm1. by injection Hm1 as <-.
Qed.

Lemma remove_wf : wf fs'.
Proof.
  destruct (entry_child _ _ _ _ Hwf Hentry) as [Hroot _]. split.
  - destruct (wf_root _ Hwf) as (r & Hr & Hd).
    destruct (remove_lookup_old _ _ Hr) as (m & Hm & _ & E & _); [done|]. exists m. split; [done|congruence].
  - intros j m k (_ & m0 & Hm0 & _ & _ & _ & Hch)%remove_lookup_Some [Hk Hne]%Hch.
    destruct (wf_child _ Hwf _ _ _ Hm0 Hk) as [[mk Hmk] ?]. split; [|done].
    by destruct (remove_lookup_old _ _ Hmk Hne) as (? & -> & _).
  - intros j m j' m' k (_ & m0 & Hm0 & _ & _ & _ & Hch)%remove_lookup_Some
      (_ & m1 & Hm1 & _ & _ & _ & Hch')%remove_lookup_Some [Hk _]%Hch [Hk' _]%Hch'.
    by eapply (wf_parent _ Hwf j m0 j' m1).
  - intros j m k k' a b (_ & m0 & Hm0 & _ & _ & _ & Hch)%remove_lookup_Some [Hk _]%Hch [Hk' _]%Hch
      (_ & a0 & Ha & -> & _)%remove_lookup_Some (_ & b0 & Hb & -> & _)%remove_lookup_Some Hnm.
    by eapply (wf_names _ Hwf j m0 k k' a0 b0).
  - intros j m (_ & m0 & Hm0 & _)%remove_lookup_Some. by apply (wf_next _ Hwf) in Hm0.
Qed.

Lemma remove_entry (j k : Z) (y : str) : entry fs' j y k ↔ entry fs j y k ∧ j ≠ c ∧ k ≠ c.
Proof.
  split.
  - intros (m & mk & (Hj & m0 & Hm0 & _ & Hd0 & _ & Hch)%remove_lookup_Some & Hd & [Hk Hne]%Hch &
      (_ & mk0 & Hmk0 & Hnm & _)%remove_lookup_Some & <-).
    split; [|done]. exists m0, mk0. rewrite <- Hd0, <- Hnm. done.
  - intros ((m0 & mk0 & Hm0 & Hd & Hk & Hmk0 & <-) & Hj & Hne).
    destruct (remove_lookup_old _ _ Hm0 Hj) as (m & Hm & _ & Hd' & _ & Hch).
    destruct (remove_lookup_old _ _ Hmk0 Hne) as (mk & Hmk & Hnm & _).
    exists m, mk. rewrite Hch, Hd', Hnm. done.
Qed.

Lemma remove_walk (q : list str) (i : Z) :
  walk fs' ROOT_INODE q = Some i ↔ walk fs ROOT_INODE q = Some i ∧ i ≠ c.
Proof.
  destruct (entry_child _ _ _ _ Hwf Hentry) as [Hroot _].
  revert i. induction q as [|y q IH] using rev_ind; intros i.
  { cbn [walk]. split; [|by intros [? _]]. intros [= <-]. done. }
  rewrite (walk_snoc fs') by apply remove_wf. rewrite (walk_snoc fs) by done. split.
  - intros (j & [Hj _]%IH & (He & _ & Hi)%remove_entry). split; [|done]. by exists j.
  - intros ((j & Hj & He) & Hi). exists j. rewrite IH, remove_entry.
    assert (j ≠ c) as Hjc; [|done]. intros ->. destruct He as (m & mk & Hm & Hd & Hk & _).
    rewrite Hcn in Hm. injection Hm as <-. rewrite (Hempty Hd) in Hk. by apply not_elem_of_nil in Hk.
Qed.

Lemma remove_view (p q : list str) : walk fs ROOT_INODE p = Some c →
  view fs' q = if decide (q = p) then None else view fs q.
Proof.
  intros Hp. unfold view. case_decide as Hq.
  - subst q. destruct (walk fs' ROOT_INODE p) as [i|] eqn:E; [|done].
    apply remove_walk in E as [E ?]. congruence.
  - destruct (walk fs ROOT_INODE q) as [i|] eqn:E.
    + assert (i ≠ c) as Hi by (intros ->; by destruct Hq; eapply walk_inj).
      rewrite (proj2 (remove_walk q i)) by done. destruct (walk_is_Some _ _ _ Hwf E) as [m Hm].
      destruct (remove_lookup_old _ _ Hm Hi) as (m' & -> & _ & _ & Hv & _). rewrite Hm. simpl. by rewrite Hv.
    + destruct (walk fs' ROOT_INODE q) as [i|] eqn:E'; [|done]. apply remove_walk in E' as [? _]. congruence.
Qed.

End remove.

(** Unlinking the name [x] of the directory at path [p] on a well-formed
    tree removes exactly that path; it fails without a change when there is no
    such entry, or when the entry is a directory that is not empty. *)
Theorem unlink_removes_entry (fs : RamFileSystem) (p : list str) (d : Z) (x : str) :
  wf fs → walk fs ROOT_INODE p = Some d →
  match unlink fs d x with
  | (Ok _, fs') => wf fs' ∧ view fs (p ++ [x]) ≠ None ∧
      (∀ y, view fs (p ++ [x; y]) = None) ∧
      ∀ q, view fs' q = if decide (q = p ++ [x]) then None else view fs q
  | (Err e, fs') => fs' = fs ∧
      ((e = NotFound ∧ view fs (p ++ [x]) = None) ∨
       (e = DirectoryNotEmpty ∧ ∃ y, view fs (p ++ [x; y]) ≠ None))
  end.
Proof.
  intros Hwf Hp. unfold unlink.
  assert (∀ y, walk fs ROOT_INODE (p ++ [x; y]) =
    match find_child_by_name fs d x with Some c => find_child_by_name fs c y | None => None end) as Hxy.
  { intros y. rewrite walk_app, Hp. cbn [walk]. destruct (find_child_by_name fs d x) as [c|]; [|done].
    by destruct (find_child_by_name fs c y). }
  destruct (find_child_by_name fs d x) as [c|] eqn:Ef.
  2:{ split; [done|]. left. split; [done|]. apply (view_below fs (p ++ [x])); [|done].
      rewrite walk_app, Hp. cbn [walk]. by rewrite Ef. }
  assert (walk fs ROOT_INODE (p ++ [x]) = Some c) as Hc by (rewrite walk_app, Hp; cbn [walk]; by rewrite Ef).
  apply find_child_iff in Ef as He; [|done]. destruct (walk_is_Some _ _ _ Hwf Hc) as [cn Hcn]. rewrite Hcn.
  destruct (node_is_dir cn) eqn:Ed; [destruct (children cn) as [|k ks] eqn:Ek|]; cbn [andb bool_decide].
  - split; [exact (remove_wf fs d c x Hwf He)|]. split; [unfold view; by rewrite Hc, Hcn|].
    split; [|intros q; by apply (remove_view fs d c cn x)].
    intros y. unfold view. rewrite Hxy. unfold find_child_by_name. by rewrite Hcn, Ed, Ek.
  - split; [done|]. right. split; [done|].
    destruct (wf_child _ Hwf c cn k Hcn) as [[kn Hkn] _]; [rewrite Ek; left|].
    exists (name kn). unfold view. rewrite Hxy.
    rewrite (proj2 (find_child_iff fs c (name kn) k Hwf)); [by rewrite Hkn|].
    exists cn, kn. rewrite Ek. split_and!; try done. left.
  - split; [exact (remove_wf fs d c x Hwf He)|]. split; [unfold view; by rewrite Hc, Hcn|].
    split; [|intros q; apply (remove_view fs d c cn x); (done || (intros; congruence))].
    intros y. unfold view. rewrite Hxy. unfold find_child_by_name. by rewrite Hcn, Ed.
Qed.

(** ** File contents: the laws the file layer relies on *)

Definition contents (fs : RamFileSystem) (i : Z) : option (list Z) :=
  match nodes fs !! i with
  | Some n => if node_is_dir n then None else Some (as_slice (data n))
  | None => None
  end.

Lemma contents_node (fs : RamFileSystem) (i : Z) (d : list Z) :
  contents fs i = Some d → ∃ n, nodes fs !! i = Some n ∧ node_is_dir n = false ∧ as_slice (data n) = d.
Proof.
  unfold contents. destruct (nodes fs !! i) as [n|]; [|done].
  destruct (node_is_dir n) eqn:E; [done|]. intros [= <-]. by exists n.
Qed.

Lemma ram_read_law (fs : RamFileSystem) (i : Z) (d : list Z) (off buf_len : Z) :
  contents fs i = Some d → 0 <= off → 0 <= buf_len → off + buf_len < 2 ^ 64 →
  read_file fs i off buf_len = Ret (Ok (take (Z.to_nat buf_len) (drop (Z.to_nat off) d))).
Proof.
  intros (n & Hn & Hd & <-)%contents_node Ho Hl Hb. unfold read_file. rewrite Hn, Hd, u64_small by lia.
  set (d := as_slice (data n)). destruct (Z.leb_spec (Z.of_nat (length d)) off).
  { rewrite drop_ge by lia. by rewrite take_nil. }
  rewrite (proj2 (Z.leb_le _ _)) by lia. do 2 f_equal.
  destruct (decide (off + buf_len <= Z.of_nat (length d))).
  - f_equal. lia.
  - rewrite !take_ge; [done|rewrite length_drop; lia..].
Qed.

Lemma resize_splice (d new : list Z) (off : nat) :
  let owned := if Z.of_nat (length d) <? Z.of_nat (off + length new)
               then resize d (Z.of_nat (off + length new)) else d in
  (off + length new <= length owned)%nat ∧
  take off owned ++ new ++ drop (off + length new) owned = splice d off new.
Proof.
  unfold splice, resize. rewrite Nat2Z.id. destruct (Z.ltb_spec (Z.of_nat (length d)) (Z.of_nat (off + length new))).
  - rewrite (take_ge d) by lia. rewrite length_app, length_replicate. split; [lia|].
    rewrite (drop_ge (d ++ _)), (drop_ge d) by (rewrite ?length_app, ?length_replicate; lia). f_equal.
    rewrite !take_app. f_equal. rewrite !take_replicate. f_equal. lia.
  - split; [lia|]. replace (off - length d)%nat with 0%nat by lia. by rewrite app_nil_r.
Qed.

Lemma ram_write_law (fs : RamFileSystem) (i : Z) (d : list Z) (off : Z) (new : list Z) :
  wf fs → contents fs i = Some d → 0 <= off → off + Z.of_nat (length new) < 2 ^ 64 →
  ∃ fs', write_file fs i off new = Ret (Ok (Z.of_nat (length new)), fs') ∧ wf fs' ∧
    contents fs' i = Some (splice d (Z.to_nat off) new) ∧
    ∀ j, j ≠ i → contents fs' j = contents fs j.
Proof.
  intros Hwf (n & Hn & Hd & <-)%contents_node Ho Hb. unfold write_file. rewrite Hn, Hd, u64_small by lia.
  set (d := as_slice (data n)).
  replace (off + Z.of_nat (length new)) with (Z.of_nat (Z.to_nat off + length new)) by lia.
  destruct (resize_splice d new (Z.to_nat off)) as [Hlen Heq].
  set (owned := if Z.of_nat (length d) <? _ then _ else d) in *.
  rewrite (proj2 (Z.leb_le _ _)), (proj2 (Z.leb_le _ _)) by lia. cbn [andb]. rewrite Nat2Z.id, Heq.
  eexists. split; [done|]. split; [by apply set_data_wf|]. unfold contents. split.
  - rewrite (set_data_lookup_fwd _ _ _ _ _ Hn). cbn [node_is_dir data]. by rewrite Hd, decide_True.
  - intros j Hj. cbn [set_data nodes]. by rewrite lookup_alter_ne.
Qed.

#[global] Instance ram_file_system_laws : FileSystemLaws RamFileSystem := {|
  fs_ok := wf; Vfs.contents := contents;
  read_file_law := fun f i d off len _ => ram_read_law f i d off len;
  write_file_law := ram_write_law;
|}.

(** ** Runs *)

Lemma create_path_updates_tree_witness :
  ∃ fs', create_path new (bytes "/proc/version") (bytes "Linux") = (Ok tt, fs') ∧
    read_path fs' (bytes "/proc/version") = Some (bytes "Linux").
Proof.
  pose proof (create_path_updates_tree new (bytes "/proc/version") (bytes "Linux") ramfs_new_wf
    ltac:(by vm_compute)) as H. cbv zeta in H.
  destruct (create_path new (bytes "/proc/version") (bytes "Linux")) as [r fs'] eqn:E.
  assert (r = Ok tt) as -> by (vm_compute in E; by injection E as <- _).
  exists fs'. split; [done|]. destruct H as (_ & _ & _ & Hread). exact Hread.
Defined.

(** A file system with one file at inode 2. *)
Definition one_file : RamFileSystem := (create_file new ROOT_INODE (bytes "a")).2.

Lemma one_file_wf : wf one_file.
Proof.
  destruct (create_node_ok new ROOT_INODE [] (bytes "a") false ramfs_new_wf eq_refl eq_refl eq_refl eq_refl)
    as (ino & fs1 & E & Hwf & _). unfold one_file, create_file. by rewrite E.
Qed.

Lemma unlink_removes_entry_witness :
  ∃ fs', unlink one_file ROOT_INODE (bytes "a") = (Ok tt, fs') ∧ view fs' [bytes "a"] = None.
Proof.
  pose proof (unlink_removes_entry one_file [] ROOT_INODE (bytes "a") one_file_wf eq_refl) as H.
  destruct (unlink one_file ROOT_INODE (bytes "a")) as [r fs'] eqn:E.
  assert (r = Ok tt) as -> by (vm_compute in E; by injection E as <- _).
  exists fs'. split; [done|]. destruct H as (_ & _ & _ & Hq). rewrite Hq. reflexivity.
Defined.

Lemma vfs_write_then_read_witness :
  let v := mkVfs [mkMount [SLASH] one_file] [Some (mkOpenFile 0 2 3 O_RDWR); Some (mkOpenFile 0 2 0 O_RDONLY)] in
  ∃ v', Vfs.write v 0 [7; 8] = Ret (Ok 2, v') ∧ Vfs.pread v' 1 5 0 = Ret (Ok [0; 0; 0; 7; 8]).
Proof.
  intros v. assert (∀ fd f, Vfs.get (open_files v) fd = Some f → mount_id f = 0%nat → inode f = 2 →
    opened v fd f []) as Hop.
  { intros fd f Hg Hm Hi. exists one_file. rewrite Hm, Hi. split; [done|]. split; [done|].
    split; [apply one_file_wf|reflexivity]. }
  destruct (vfs_write_then_read v 0 (mkOpenFile 0 2 3 O_RDWR) [] [7; 8]
    (Hop 0%nat (mkOpenFile 0 2 3 O_RDWR) eq_refl eq_refl eq_refl))
    as (_ & v' & Hw & _ & Hr); [done|done|done|].
  exists v'. split; [exact Hw|].
  rewrite (Hr 1%nat (mkOpenFile 0 2 0 O_RDONLY) [] (Hop 1%nat _ eq_refl eq_refl eq_refl)); done.
Defined.

(** A file opened read-only and created on the way can be written through
    that descriptor: the layer compares all flag bits with [O_RDONLY], and
    [O_CREAT] is one of them. Without [O_CREAT] the write is refused. *)
Theorem vfs_creat_defeats_read_only :
  let v := mkVfs [mkMount [SLASH] new] [] in
  ∃ v1 v2 v3 v4, Vfs.open v (bytes "/a") (Z.lor O_RDONLY O_CREAT) = Ret (Ok 0%nat, v1) ∧
    Vfs.write v1 0 [1; 2; 3] = Ret (Ok 3, v2) ∧
    Vfs.open v2 (bytes "/a") O_RDONLY = Ret (Ok 1%nat, v3) ∧
    Vfs.pread v3 1 8 0 = Ret (Ok [1; 2; 3]) ∧
    Vfs.write v3 1 [1] = Ret (Err PermissionDenied, v4).
Proof.
  intros v. pose (state := fun A (x : exec (result A VfsError * VfsState RamFileSystem)) =>
    match x with Ret (_, v') => v' | Panic => v end).
  pose (v1 := state _ (Vfs.open v (bytes "/a") (Z.lor O_RDONLY O_CREAT))).
  pose (v2 := state _ (Vfs.write v1 0 [1; 2; 3])).
  pose (v3 := state _ (Vfs.open v2 (bytes "/a") O_RDONLY)).
  exists v1, v2, v3, v3. split_and!; vm_compute; reflexivity.
Qed.

End RamFs.
