(* ===== verification/FlatFs.v ===== *)
(** FlatFs: the kernel's flat file store and the file helpers above it
    (kernel/src/driver/fs.rs).

    [FileSystem] is a vector of named files.  It is shown equivalent to a
    finite map from names to contents, for every sequence of operations.  The
    helpers [read_file_owned], [write_file_owned], ... combine this store with
    the disk backends; those are a record of operations, so that the theorems
    about the helpers name what they need of a backend. *)

From stdpp Require Import base numbers list gmap strings sets.
From S2P Require Import Prelude Vfs.
Import Path.

Module FlatFs.

Inductive FileData :=
| Static (s : list Z)
| Owned (v : list Z).

Definition as_slice (d : FileData) : list Z :=
  match d with
  | Static s => s
  | Owned v => v
  end.

Definition len (d : FileData) : Z := Z.of_nat (length (as_slice d)).

Record File := mkFile { name : str; data : FileData }.

Record FileSystem := mkFs { files : list File }.

Definition new_internal : FileSystem := mkFs [].

Definition new : FileSystem := mkFs [].

(** [|f| f.name == name] *)
Definition named (n : str) (f : File) : bool := bool_decide (name f = n).

Definition create (fs : FileSystem) (n : str) : result unit unit * FileSystem :=
  if existsb (named n) (files fs) then (Err tt, fs)
  else (Ok tt, mkFs (files fs ++ [mkFile n (Owned [])])).

(** Replace the data of the first file of that name, or push a new file. *)
Definition put (fs : FileSystem) (n : str) (d : FileData) : FileSystem :=
  match update_first (named n) (fun f => mkFile (name f) d) (files fs) with
  | Some fl => mkFs fl
  | None => mkFs (files fs ++ [mkFile n d])
  end.

Definition write_static (fs : FileSystem) (n : str) (d : list Z) : result unit unit * FileSystem :=
  (Ok tt, put fs n (Static d)).

Definition write (fs : FileSystem) (n : str) (d : list Z) : result unit unit * FileSystem :=
  (Ok tt, put fs n (Owned d)).

Definition append (fs : FileSystem) (n : str) (d : list Z) : result unit unit * FileSystem :=
  match update_first (named n) (fun f => mkFile (name f) (Owned (as_slice (data f) ++ d))) (files fs) with
  | Some fl => (Ok tt, mkFs fl)
  | None => (Err tt, fs)
  end.

Definition read (fs : FileSystem) (n : str) : option (list Z) :=
  (fun f => as_slice (data f)) <$> find_first (named n) (files fs).

Definition delete (fs : FileSystem) (n : str) : result unit unit * FileSystem :=
  let len_before := length (files fs) in
  let kept := filter (fun f => name f ≠ n) (files fs) in
  (if (length kept <? len_before)%nat then Ok tt else Err tt, mkFs kept).

Definition list_ (fs : FileSystem) : list File := files fs.

Definition file_count (fs : FileSystem) : nat := length (files fs).

(** ** The helpers over the disk backends *)

(** What fs.rs calls of driver/ext4 and driver/fat32, on a state [D] of the
    disks. *)
Record Backend (D : Type) := mkBackend {
  has_ext4 : D → bool;
  ext4_read_file : D → str → option (list Z);
  ext4_write_file : D → str → list Z → result unit unit * D;
  ext4_list_directory : D → str → list (str * Z);
  ext4_create_directory : D → str → result unit unit * D;
  ext4_lookup_path : D → str → option Z;
  ext4_delete_file : D → str → result unit unit * D;
  fat32_read_file : D → str → option (list Z);
  fat32_list_root : D → list (str * Z);
  ext4_init : D → result unit unit * D;
  ext4_mount_to_vfs : D → result unit unit * D;
  fat32_init : D → result unit unit * D;
  fat32_inject_file : D → str → list Z → result unit unit * D
}.
Arguments has_ext4 {D}. Arguments ext4_read_file {D}. Arguments ext4_write_file {D}.
Arguments ext4_list_directory {D}. Arguments ext4_create_directory {D}. Arguments ext4_lookup_path {D}.
Arguments ext4_delete_file {D}. Arguments fat32_read_file {D}. Arguments fat32_list_root {D}.
Arguments ext4_init {D}. Arguments ext4_mount_to_vfs {D}. Arguments fat32_init {D}. Arguments fat32_inject_file {D}.

Section helpers.
Context {D : Type} (B : Backend D).

Record Files := mkFiles { disk : D; FAT32_AVAILABLE : bool; FS : FileSystem }.

Definition has_fat32 (w : Files) : bool := FAT32_AVAILABLE w.

Definition set_disk (w : Files) (r : result unit unit * D) : result unit unit * Files :=
  (r.1, mkFiles r.2 (FAT32_AVAILABLE w) (FS w)).

Definition set_ram (w : Files) (r : result unit unit * FileSystem) : result unit unit * Files :=
  (r.1, mkFiles (disk w) (FAT32_AVAILABLE w) r.2).

Definition read_file_owned (w : Files) (n : str) : option (list Z) :=
  match (if has_ext4 B (disk w) then ext4_read_file B (disk w) n else None) with
  | Some d => Some d
  | None =>
      match (if has_fat32 w then fat32_read_file B (disk w) n else None) with
      | Some d => Some d
      | None => read (FS w) n
      end
  end.

Definition write_file_owned (w : Files) (n : str) (d : list Z) : result unit unit * Files :=
  if has_ext4 B (disk w) then set_disk w (ext4_write_file B (disk w) n d)
  else set_ram w (write (FS w) n d).

(** [if !result.iter().any(|(n, _)| n == &name) { result.push(..) }] for each
    entry of a listing. *)
Definition push_new (acc : list (str * Z)) (e : str * Z) : list (str * Z) :=
  if existsb (fun x => bool_decide (x.1 = e.1)) acc then acc else acc ++ [e].

Definition list_directory (w : Files) (path : str) : list (str * Z) :=
  let on_disk := has_ext4 B (disk w) in
  let r0 := if on_disk then ext4_list_directory B (disk w) path else [] in
  if on_disk && negb (bool_decide (path = [])) then r0
  else
    let r1 := if has_fat32 w then foldl push_new r0 (fat32_list_root B (disk w)) else r0 in
    foldl push_new r1 ((fun f => (name f, len (data f))) <$> list_ (FS w)).

Definition list_all_files (w : Files) : list (str * Z) := list_directory w [].

Definition create_file (w : Files) (n : str) : result unit unit * Files :=
  if has_ext4 B (disk w) then set_disk w (ext4_write_file B (disk w) n [])
  else set_ram w (create (FS w) n).

Definition create_dir (w : Files) (n : str) : result unit unit * Files :=
  if has_ext4 B (disk w) then set_disk w (ext4_create_directory B (disk w) n)
  else set_ram w (create (FS w) n).

Definition lookup_path (w : Files) (n : str) : option Z :=
  if has_ext4 B (disk w) then ext4_lookup_path B (disk w) n
  else match read (FS w) n with Some _ => Some 1%Z | None => None end.

Definition is_ok {A E : Type} (r : result A E) : bool :=
  match r with Ok _ => true | Err _ => false end.

Definition delete_file (w : Files) (n : str) : result unit unit * Files :=
  let '(ok1, w1) :=
    if has_ext4 B (disk w) then
      let r := set_disk w (ext4_delete_file B (disk w) n) in (is_ok r.1, r.2)
    else (false, w) in
  let r2 := set_ram w1 (delete (FS w1) n) in
  (if ok1 || is_ok r2.1 then Ok tt else Err tt, r2.2).

(** The embedded programs, by architecture; [image] gives the bytes of an
    included file. *)
Definition embedded (x86_64 : bool) (image : str → list Z) : list (str * list Z) :=
  (if x86_64 then []
   else [(bytes "hello", image (bytes "hello.elf")); (bytes "heap_test", image (bytes "heap_test.elf"));
         (bytes "file_test", image (bytes "file_test.elf")); (bytes "spawn_test", image (bytes "spawn_test.elf"))])
  ++ [(bytes "shell", image (bytes "shell.elf")); (bytes "init", image (bytes "shell.elf"))].

(** [for (name, data) in files_to_inject.iter() { .. }] *)
Definition inject_all (d : D) (fl : list (str * list Z)) : D :=
  foldl (fun d e => (fat32_inject_file B d e.1 e.2).2) d fl.

Definition init (x86_64 : bool) (image : str → list Z) (w : Files) : Files :=
  let ram := foldl (fun fs e => (write_static fs e.1 e.2).2) (FS w) (embedded x86_64 image) in
  match ext4_init B (disk w) with
  | (Ok _, d1) =>
      let d2 := if x86_64 then (ext4_mount_to_vfs B d1).2 else d1 in
      mkFiles d2 (FAT32_AVAILABLE w) ram
  | (Err _, d1) =>
      match fat32_init B d1 with
      | (Ok _, d2) => mkFiles (inject_all d2 (embedded x86_64 image)) true ram
      | (Err _, d2) => mkFiles d2 (FAT32_AVAILABLE w) ram
      end
  end.
End helpers.
Arguments mkFiles {D}. Arguments disk {D}. Arguments FAT32_AVAILABLE {D}. Arguments FS {D}.

(** ** Specification: a finite map from names to contents *)

Definition contents (fs : FileSystem) : gmap str (list Z) :=
  list_to_map ((fun f => (name f, as_slice (data f))) <$> files fs).

Definition names_unique (fs : FileSystem) : Prop := NoDup (name <$> files fs).

Inductive op :=
| OCreate (n : str)
| OWriteStatic (n : str) (d : list Z)
| OWrite (n : str) (d : list Z)
| OAppend (n : str) (d : list Z)
| ODelete (n : str)
| ORead (n : str)
| OCount.

Inductive out :=
| RUnit (r : result unit unit)
| RData (d : option (list Z))
| RCount (n : nat).

Definition impl_step (fs : FileSystem) (o : op) : out * FileSystem :=
  let lift r := (RUnit (fst r), snd r) in
  match o with
  | OCreate n => lift (create fs n)
  | OWriteStatic n d => lift (write_static fs n d)
  | OWrite n d => lift (write fs n d)
  | OAppend n d => lift (append fs n d)
  | ODelete n => lift (delete fs n)
  | ORead n => (RData (read fs n), fs)
  | OCount => (RCount (file_count fs), fs)
  end.

Definition spec_step (m : gmap str (list Z)) (o : op) : out * gmap str (list Z) :=
  match o with
  | OCreate n =>
      match m !! n with
      | Some _ => (RUnit (Err tt), m)
      | None => (RUnit (Ok tt), <[n := []]> m)
      end
  | OWriteStatic n d | OWrite n d => (RUnit (Ok tt), <[n := d]> m)
  | OAppend n d =>
      match m !! n with
      | Some c => (RUnit (Ok tt), <[n := c ++ d]> m)
      | None => (RUnit (Err tt), m)
      end
  | ODelete n => (RUnit (match m !! n with Some _ => Ok tt | None => Err tt end), base.delete n m)
  | ORead n => (RData (m !! n), m)
  | OCount => (RCount (size m), m)
  end.

Fixpoint run {S : Type} (step : S → op → out * S) (s : S) (os : list op) : list out * S :=
  match os with
  | [] => ([], s)
  | o :: os' =>
      let '(r, s1) := step s o in
      let '(rs, s2) := run step s1 os' in (r :: rs, s2)
  end.

(** ** Lookups *)

Lemma named_spec (n : str) (f : File) : named n f = true ↔ name f = n.
Proof. apply bool_decide_eq_true. Qed.

Lemma contents_lookup (fs : FileSystem) (n : str) : contents fs !! n = read fs n.
Proof.
  destruct fs as [fl]. unfold contents, read. simpl.
  induction fl as [|f fl IH]; [done|]. cbn [fmap list_fmap list_to_map foldr fst snd find_first].
  destruct (named n f) eqn:E.
  - apply named_spec in E. subst. by rewrite lookup_insert_eq.
  - rewrite lookup_insert_ne; [done|]. intros Hn. apply named_spec in Hn. congruence.
Qed.

Lemma named_other (n k : str) (f : File) (d : FileData) :
  n ≠ k → named n f = true → named k f = false ∧ named k (mkFile (name f) d) = false.
Proof. intros Hne <-%named_spec. unfold named. split; by apply bool_decide_eq_false_2. Qed.

Lemma contents_update (g : File → FileData) (n : str) (fl fl' : list File) :
  update_first (named n) (fun f => mkFile (name f) (g f)) fl = Some fl' →
  name <$> fl' = name <$> fl ∧
  ∃ f, find_first (named n) fl = Some f ∧
    contents (mkFs fl') = <[n := as_slice (g f)]> (contents (mkFs fl)).
Proof.
  intros H. split.
  { apply update_first_Some in H as (l1 & x & l2 & -> & -> & _). by rewrite !fmap_app. }
  destruct (find_first_update_same _ _ _ _ H) as (f & Hf & Hf'); [done|].
  exists f. split; [done|]. apply map_eq. intros k. rewrite contents_lookup. unfold read. simpl.
  destruct (decide (n = k)) as [<-|Hne].
  - by rewrite Hf', lookup_insert_eq.
  - rewrite lookup_insert_ne, contents_lookup by done. unfold read. f_equal.
    apply (find_first_update_other _ _ _ _ _ H). intros x Hx. by apply named_other with n.
Qed.

Lemma contents_push (fl : list File) (n : str) (d : FileData) :
  find_first (named n) fl = None →
  contents (mkFs (fl ++ [mkFile n d])) = <[n := as_slice d]> (contents (mkFs fl)).
Proof.
  intros Hn. apply map_eq. intros k. rewrite contents_lookup. unfold read. simpl.
  rewrite find_first_app. destruct (decide (n = k)) as [<-|Hne].
  - rewrite Hn, lookup_insert_eq. simpl. by rewrite (proj2 (named_spec n _)).
  - rewrite lookup_insert_ne, contents_lookup by done. unfold read. simpl.
    destruct (find_first (named k) fl); [done|]. unfold named. simpl.
    by rewrite bool_decide_eq_false_2.
Qed.

Lemma names_push (fl : list File) (n : str) (d : FileData) :
  find_first (named n) fl = None → NoDup (name <$> fl) → NoDup (name <$> fl ++ [mkFile n d]).
Proof.
  intros Hn Hnd. rewrite fmap_app. apply NoDup_app. split; [done|]. split.
  - intros x (f & -> & Hf)%list_elem_of_fmap Heq%list_elem_of_singleton.
    apply find_first_None in Hn. rewrite Forall_forall in Hn. specialize (Hn f Hf).
    by apply bool_decide_eq_false in Hn.
  - apply NoDup_singleton.
Qed.

Lemma update_none_find (f : File → File) (n : str) (fl : list File) :
  update_first (named n) f fl = None → find_first (named n) fl = None.
Proof. intros H%update_first_None. by apply find_first_None. Qed.

Lemma existsb_find (p : File → bool) (fl : list File) :
  existsb p fl = bool_decide (is_Some (find_first p fl)).
Proof. induction fl as [|f fl IH]; simpl; [done|]. by destruct (p f). Qed.

(** ** One operation *)

Lemma put_spec (fs : FileSystem) (n : str) (d : FileData) :
  (names_unique fs → names_unique (put fs n d)) ∧ contents (put fs n d) = <[n := as_slice d]> (contents fs).
Proof.
  destruct fs as [fl]. unfold names_unique, put. simpl.
  destruct (update_first _ _ fl) as [fl'|] eqn:E.
  - apply (contents_update (fun _ => d)) in E as (Hn & f & _ & ->). simpl. by rewrite Hn.
  - apply update_none_find in E. split; [by apply names_push|by apply contents_push].
Qed.

Lemma read_is_Some (fs : FileSystem) (n : str) :
  is_Some (find_first (named n) (files fs)) ↔ is_Some (contents fs !! n).
Proof. rewrite contents_lookup. unfold read. by rewrite fmap_is_Some. Qed.

Lemma create_spec (fs : FileSystem) (n : str) :
  names_unique fs →
  names_unique (create fs n).2 ∧
  (RUnit (create fs n).1, contents (create fs n).2) = spec_step (contents fs) (OCreate n).
Proof.
  intros Hnd. unfold create. rewrite existsb_find. cbn [spec_step].
  case_bool_decide as Hs; pose proof Hs as Hc; rewrite read_is_Some in Hc.
  - destruct Hc as [c ->]. done.
  - apply eq_None_not_Some in Hc, Hs. rewrite Hc. destruct fs as [fl]. cbn [fst snd].
    split; [by apply names_push|]. f_equal. by apply (contents_push fl n (Owned [])).
Qed.

Lemma append_spec (fs : FileSystem) (n : str) (d : list Z) :
  names_unique fs →
  names_unique (append fs n d).2 ∧
  (RUnit (append fs n d).1, contents (append fs n d).2) = spec_step (contents fs) (OAppend n d).
Proof.
  destruct fs as [fl]. unfold append, names_unique. cbn [spec_step files]. intros Hnd.
  destruct (update_first _ _ fl) as [fl'|] eqn:E; rewrite contents_lookup; unfold read; cbn [files fst snd].
  - apply (contents_update (fun f => Owned (as_slice (data f) ++ d))) in E as (Hn & f & -> & ->).
    simpl. by rewrite Hn.
  - apply update_none_find in E. by rewrite E.
Qed.

Lemma delete_spec (fs : FileSystem) (n : str) :
  (names_unique fs → names_unique (delete fs n).2) ∧
  (RUnit (delete fs n).1, contents (delete fs n).2) = spec_step (contents fs) (ODelete n).
Proof.
  destruct fs as [fl]. unfold delete, names_unique. cbn [spec_step files fst snd].
  split; [apply NoDup_fmap_filter|]. f_equal.
  - f_equal. rewrite contents_lookup. unfold read. cbn [files].
    destruct (find_first (named n) fl) as [f|] eqn:E; simpl.
    + apply find_first_elem in E as [Hin <-%named_spec].
      rewrite (proj2 (Nat.ltb_lt _ _)); [done|].
      apply length_filter_lt with f; [done|]. tauto.
    + apply find_first_None in E. rewrite list_filter_all.
      * by rewrite Nat.ltb_irrefl.
      * eapply Forall_impl; [exact E|]. intros x Hx. by apply bool_decide_eq_false in Hx.
  - apply map_eq. intros k. rewrite lookup_delete, !contents_lookup. unfold read. cbn [files].
    induction fl as [|f fl IH]; [by case_decide|]. rewrite filter_cons.
    destruct (named k f) eqn:Hk; [apply named_spec in Hk as <-|].
    + destruct (decide (name f ≠ n)) as [Hf|Hf]; cbn [find_first].
      * rewrite !(proj2 (named_spec (name f) f)) by done. by rewrite decide_False by done.
      * apply dec_stable in Hf. rewrite IH, !decide_True by done. done.
    + destruct (decide (name f ≠ n)) as [Hf|Hf]; cbn [find_first]; rewrite ?Hk; exact IH.
Qed.

Lemma contents_pairs (fs : FileSystem) :
  names_unique fs →
  map_to_list (contents fs) ≡ₚ (fun f => (name f, as_slice (data f))) <$> list_ fs.
Proof.
  intros Hnd. apply map_to_list_to_map. rewrite <- list_fmap_compose. exact Hnd.
Qed.

Lemma step_spec (fs : FileSystem) (o : op) :
  names_unique fs →
  names_unique (impl_step fs o).2 ∧
  ((impl_step fs o).1, contents (impl_step fs o).2) = spec_step (contents fs) o.
Proof.
  intros Hnd. destruct o as [n|n d|n d|n d|n|n|].
  - by apply create_spec.
  - destruct (put_spec fs n (Static d)) as [? E]. split; [auto|]. simpl. by rewrite E.
  - destruct (put_spec fs n (Owned d)) as [? E]. split; [auto|]. simpl. by rewrite E.
  - by apply append_spec.
  - destruct (delete_spec fs n). auto.
  - split; [done|]. simpl. by rewrite contents_lookup.
  - split; [done|]. simpl. repeat f_equal. unfold file_count.
    rewrite <- length_map_to_list, contents_pairs by done. by rewrite length_fmap.
Qed.

(** C16: The flat file store is equivalent to a finite map from names to
    contents.  Any sequence of create, write, write_static, append, delete, read
    and count calls on a new store returns what the same calls on the empty map
    return, errors included; afterwards the store holds every name once and its
    listing is exactly the map. *)
Theorem flat_fs_equals_map (os : list op) :
  let '(outs, fs) := run impl_step new os in
  run spec_step ∅ os = (outs, contents fs) ∧ names_unique fs ∧
  map_to_list (contents fs) ≡ₚ (fun f => (name f, as_slice (data f))) <$> list_ fs.
Proof.
  assert (∀ fs, names_unique fs →
    names_unique (run impl_step fs os).2 ∧
    run spec_step (contents fs) os = ((run impl_step fs os).1, contents (run impl_step fs os).2)) as H.
  { induction os as [|o os IH]; intros fs Hnd; [done|]. simpl.
    destruct (step_spec fs o Hnd) as [Hnd' E]. rewrite <- E.
    destruct (impl_step fs o) as [r fs1]. simpl in *.
    destruct (IH fs1 Hnd') as [? ->]. by destruct (run impl_step fs1 os). }
  specialize (H new (NoDup_nil_2 (A:=str))). destruct (run impl_step new os) as [outs fs].
  destruct H as [Hnd H]. split; [exact H|]. split; [done|]. by apply contents_pairs.
Qed.

(** ** The helpers over the backends *)

(** The first entry of that name. *)
Definition entry (l : list (str * Z)) (n : str) : option (str * Z) :=
  find_first (fun e => bool_decide (e.1 = n)) l.

Lemma existsb_entry (l : list (str * Z)) (n : str) :
  existsb (fun x => bool_decide (x.1 = n)) l = bool_decide (is_Some (entry l n)).
Proof.
  unfold entry. induction l as [|e l IH]; simpl; [done|]. by destruct (bool_decide (e.1 = n)).
Qed.

Lemma push_new_spec (acc l : list (str * Z)) (n : str) :
  entry (foldl push_new acc l) n = entry (acc ++ l) n ∧
  (NoDup (fst <$> acc) → NoDup (fst <$> foldl push_new acc l)).
Proof.
  revert acc. induction l as [|e l IH]; intros acc; simpl; [by rewrite app_nil_r|].
  destruct (IH (push_new acc e)) as [-> Hnd]. unfold push_new in *. rewrite existsb_entry in *.
  case_bool_decide as Hs.
  - split; [|done]. unfold entry in *. rewrite !find_first_app. simpl.
    case_bool_decide as He; [|done]. rewrite He in Hs. destruct Hs as [x ->]. done.
  - split; [by rewrite <- app_assoc|]. intros Ha. apply Hnd. rewrite fmap_app.
    apply NoDup_app. split; [done|]. split; [|apply NoDup_singleton].
    intros x (e' & -> & Hin)%list_elem_of_fmap Heq%list_elem_of_singleton. apply Hs.
    apply (find_first_is_Some _ _ e'); [done|]. by apply bool_decide_eq_true.
Qed.

Lemma put_read_delete (fs : FileSystem) (n : str) (d : list Z) :
  let fs1 := put fs n (Owned d) in
  read fs1 n = Some d ∧ read (delete fs1 n).2 n = None ∧ (delete fs1 n).1 = Ok tt.
Proof.
  intros fs1. destruct (put_spec fs n (Owned d)) as [_ E]. fold fs1 in E.
  destruct (delete_spec fs1 n) as [_ E']. rewrite <- !contents_lookup. cbn [spec_step] in E'.
  rewrite E, lookup_insert_eq in E'. destruct (delete fs1 n) as [r fs2]. cbn [fst snd] in *.
  injection E' as -> ->. by rewrite E, lookup_insert_eq, lookup_delete_eq.
Qed.

Section helper_lemmas.
Context {D : Type} (B : Backend D).

(** The root listing names every file of every backend once, with the entry of
    the first backend that has it. *)
Lemma list_all_files_spec (w : Files) (n : str) :
  let ext := if has_ext4 B (disk w) then ext4_list_directory B (disk w) [] else [] in
  let fat := if has_fat32 w then fat32_list_root B (disk w) else [] in
  let ram := (fun f => (name f, len (data f))) <$> list_ (FS w) in
  entry (list_all_files B w) n = entry (ext ++ fat ++ ram) n ∧
  (NoDup (fst <$> ext) → NoDup (fst <$> list_all_files B w)).
Proof.
  intros ext fat ram. unfold list_all_files, list_directory. rewrite andb_false_r.
  fold ext ram. destruct (push_new_spec ext fat n) as [E1 N1].
  destruct (push_new_spec (foldl push_new ext fat) ram n) as [E2 N2].
  replace (if has_fat32 w then foldl push_new ext (fat32_list_root B (disk w)) else ext)
    with (foldl push_new ext fat) by (unfold fat; by destruct (has_fat32 w)).
  split; [|auto]. rewrite E2. unfold entry in *. rewrite !find_first_app in *. rewrite E1.
  by destruct (find_first (fun e : str * Z => bool_decide (e.1 = n)) ext),
    (find_first (fun e : str * Z => bool_decide (e.1 = n)) fat).
Qed.

(** What is written can be read back, except under FAT32.  With ext4 mounted
    (and an ext4 whose reads return what was written), or with neither disk file
    system, read_file_owned after a successful write_file_owned returns the data
    written.  With only FAT32 mounted the write goes to memory while the read
    asks FAT32 first, so the write is invisible when FAT32 has a file of that
    name; deleting the file does not help: it reports success and the FAT32
    file is still read. *)
Theorem write_read_unless_fat32_shadows (w : Files) (n : str) (d : list Z) :
  (∀ D0, ext4_write_file B (disk w) n d = (Ok tt, D0) →
     has_ext4 B D0 = has_ext4 B (disk w) ∧ ext4_read_file B D0 n = Some d) →
  let '(r, w') := write_file_owned B w n d in
  r = Ok tt →
  read_file_owned B w' n =
    (if negb (has_ext4 B (disk w)) && has_fat32 w
     then match fat32_read_file B (disk w) n with Some d0 => Some d0 | None => Some d end
     else Some d) ∧
  (has_ext4 B (disk w) = false →
     (delete_file B w' n).1 = Ok tt ∧
     read_file_owned B (delete_file B w' n).2 n =
       if has_fat32 w then fat32_read_file B (disk w) n else None).
Proof.
  intros Hlaw. unfold write_file_owned. destruct (has_ext4 B (disk w)) eqn:He.
  - destruct (ext4_write_file B (disk w) n d) as [r D0] eqn:Ew. simpl. intros ->.
    destruct (Hlaw D0 eq_refl) as [H1 H2]. split; [|done].
    unfold read_file_owned. simpl. by rewrite H1, H2.
  - simpl. intros _.
    destruct (put_read_delete (FS w) n d) as (Hr & Hd & Ho).
    unfold read_file_owned, delete_file. simpl. rewrite !He. simpl. unfold has_fat32. simpl. rewrite Hr.
    split; [by destruct (FAT32_AVAILABLE w)|]. intros _. unfold delete in Ho, Hd. simpl in Ho, Hd.
    rewrite Ho, Hd, He. simpl. split; [done|]. by destruct (FAT32_AVAILABLE w); [destruct (fat32_read_file _ _ _)|].
Qed.
End helper_lemmas.

(** A disk with one file; [ext4] tells which file system is mounted. *)
Definition one_file (ext4 : bool) : Backend (str * list Z) :=
  let rd d n := if decide (d.1 = n) then Some d.2 else None in
  mkBackend _ (fun _ => ext4) rd (fun _ n d => (Ok tt, (n, d))) (fun d _ => [(d.1, Z.of_nat (length d.2))])
    (fun d _ => (Err tt, d)) (fun d n => (fun _ => 1%Z) <$> rd d n) (fun _ _ => (Ok tt, ([], [])))
    rd (fun d => [(d.1, Z.of_nat (length d.2))])
    (fun d => (if ext4 then Ok tt else Err tt, d)) (fun d => (Ok tt, d)) (fun d => (Ok tt, d))
    (fun _ n d => (Ok tt, (n, d))).

Lemma write_read_unless_fat32_shadows_witness :
  let sh := bytes "shell" in
  read_file_owned (one_file true) (write_file_owned (one_file true) (mkFiles (sh, [1%Z]) false new) sh [2%Z]).2 sh
    = Some [2%Z] ∧
  (let w := mkFiles (sh, [1%Z]) true new in
   let w' := (write_file_owned (one_file false) w sh [2%Z]).2 in
   (write_file_owned (one_file false) w sh [2%Z]).1 = Ok tt ∧
   read_file_owned (one_file false) w' sh = Some [1%Z] ∧
   (delete_file (one_file false) w' sh).1 = Ok tt ∧
   read_file_owned (one_file false) (delete_file (one_file false) w' sh).2 sh = Some [1%Z]).
Proof.
  intros sh. split; [|split; [reflexivity|]].
  - apply (write_read_unless_fat32_shadows (one_file true) (mkFiles (sh, [1%Z]) false new) sh [2%Z]);
      [|reflexivity]. intros D0 [= <-]. vm_compute. split; reflexivity.
  - destruct (write_read_unless_fat32_shadows (one_file false) (mkFiles (sh, [1%Z]) true new) sh [2%Z])
      as [E1 E2]; [|reflexivity|].
    + intros D0 [= <-]. vm_compute. split; reflexivity.
    + split; [exact E1|]. exact (E2 eq_refl).
Defined.
End FlatFs.
