(* ===== verification/FileLock.v ===== *)
(** FileLock: POSIX byte-range locks (kernel/src/driver/fs.rs).

    The table is one vector of granted locks, and each helper holds its spinlock
    for one scan or update.  [fcntl_lock_op] runs the three lock commands; what
    other tasks do to the table while F_SETLKW yields, and what other processors
    do to it between the check for a conflict and the addition of the lock, are
    arguments.  The section on the user structure covers [Flock::from_bytes] and
    [Flock::to_bytes]. *)

From stdpp Require Import base numbers list sets.
From S2P Require Import Prelude.
Local Open Scope Z_scope.
Local Open Scope rust_scope.

Module FileLock.

Definition F_RDLCK : Z := 0.
Definition F_WRLCK : Z := 1.
Definition F_UNLCK : Z := 2.

Definition F_GETLK : Z := 5.
Definition F_SETLK : Z := 6.
Definition F_SETLKW : Z := 7.

Definition I64_MAX : Z := 2 ^ 63 - 1.

Record Flock := mkFlock {
  l_type : Z;
  l_whence : Z;
  l_start : Z;
  l_len : Z;
  l_pid : Z
}.

(** [bytes[23]] panics on a shorter slice. *)
Definition from_bytes (bytes : list Z) : exec Flock :=
  if (length bytes <? 24)%nat then Panic
  else Ret (mkFlock (i16 (of_le (slice 0 2 bytes))) (i16 (of_le (slice 2 2 bytes)))
              (i64 (of_le (slice 4 8 bytes))) (i64 (of_le (slice 12 8 bytes)))
              (i32 (of_le (slice 20 4 bytes)))).

Definition to_bytes (f : Flock) : list Z :=
  le_bytes 2 (l_type f) ++ le_bytes 2 (l_whence f) ++ le_bytes 8 (l_start f) ++
  le_bytes 8 (l_len f) ++ le_bytes 4 (l_pid f).

Definition abs_start (f : Flock) : Z :=
  match l_whence f with
  | 0 => l_start f
  | 1 => l_start f
  | 2 => l_start f
  | _ => l_start f
  end.

Definition abs_end (f : Flock) : Z :=
  let start := abs_start f in
  if l_len f =? 0 then I64_MAX else i64 (start + l_len f).

(** A granted lock; [end_] is exclusive. *)
Record FileLock := mkLock {
  owner_fd : Z;
  inode : Z;
  lock_type : Z;
  start : Z;
  end_ : Z
}.

(** [FILE_LOCKS] *)
Abbreviation Locks := (list FileLock).

Definition ranges_overlap (a_start a_end b_start b_end : Z) : bool :=
  (a_start <? b_end) && (b_start <? a_end).

(** The test of one entry in [find_conflict]'s loop. *)
Definition conflicts (ino fd ty s e : Z) (lock : FileLock) : bool :=
  (inode lock =? ino) && negb (owner_fd lock =? fd) &&
  ranges_overlap (start lock) (end_ lock) s e &&
  ((lock_type lock =? F_WRLCK) || (ty =? F_WRLCK)).

Definition find_conflict (locks : Locks) (ino fd ty s e : Z) : option FileLock :=
  find_first (conflicts ino fd ty s e) locks.

Definition remove_locks_in_range (locks : Locks) (ino fd s e : Z) : Locks :=
  filter (fun lock =>
    negb (inode lock =? ino) || negb (owner_fd lock =? fd) ||
    negb (ranges_overlap (start lock) (end_ lock) s e)) locks.

Definition add_lock (locks : Locks) (ino fd ty s e : Z) : Locks :=
  locks ++ [mkLock fd ino ty s e].

Definition release_fd_locks (locks : Locks) (fd : Z) : Locks :=
  filter (fun lock => owner_fd lock ≠ fd) locks.

(** [schedule] is what the other tasks do to the table during the yield of
    F_SETLKW; [between] is what is done to it after [find_conflict] has released
    the spinlock and before [add_lock] takes it again. *)
Definition fcntl_lock_op (schedule between : Locks → Locks) (locks : Locks) (cmd fd ino : Z) (f : Flock)
    : (Z * option Flock) * Locks :=
  let ty := u16 (l_type f) in
  let s := abs_start f in
  let e := abs_end f in
  if cmd =? F_GETLK then
    match find_conflict locks ino fd ty s e with
    | Some c =>
        ((0, Some (mkFlock (i16 (lock_type c)) 0 (start c)
                     (if end_ c =? I64_MAX then 0 else i64 (end_ c - start c)) 0)), locks)
    | None => ((0, Some (mkFlock (i16 F_UNLCK) (l_whence f) (l_start f) (l_len f) (l_pid f))), locks)
    end
  else if (cmd =? F_SETLK) || (cmd =? F_SETLKW) then
    if ty =? F_UNLCK then ((0, None), remove_locks_in_range locks ino fd s e)
    else
      match find_conflict locks ino fd ty s e with
      | Some _ =>
          if cmd =? F_SETLK then ((-1, None), locks)
          else
            let locks1 := schedule locks in
            match find_conflict locks1 ino fd ty s e with
            | Some _ => ((-1, None), locks1)
            | None => ((0, None), add_lock (between locks1) ino fd ty s e)
            end
      | None => ((0, None), add_lock (between locks) ino fd ty s e)
      end
  else ((-1, None), locks).

(** ** The user structure *)

Definition flock_ok (f : Flock) : Prop :=
  is_signed 16 (l_type f) ∧ is_signed 16 (l_whence f) ∧ is_signed 64 (l_start f) ∧
  is_signed 64 (l_len f) ∧ is_signed 32 (l_pid f).

Lemma le_field (n x : Z) : 0 < n → to_signed (n * 8) (of_le (le_bytes n x)) = to_signed (n * 8) x.
Proof. intros Hn. rewrite of_le_bytes by lia. apply to_signed_mod. lia. Qed.

Lemma field_le (n : Z) (bs : list Z) :
  0 < n → n = Z.of_nat (length bs) → Forall is_byte bs →
  le_bytes n (to_signed (n * 8) (of_le bs)) = bs.
Proof.
  intros Hn Hl Hb. rewrite <- le_bytes_wrap, to_signed_wrap, le_bytes_wrap by lia.
  by apply le_bytes_of_le.
Qed.

Lemma to_bytes_fields (f : Flock) :
  slice 0 2 (to_bytes f) = le_bytes 2 (l_type f) ∧ slice 2 2 (to_bytes f) = le_bytes 2 (l_whence f) ∧
  slice 4 8 (to_bytes f) = le_bytes 8 (l_start f) ∧ slice 12 8 (to_bytes f) = le_bytes 8 (l_len f) ∧
  slice 20 4 (to_bytes f) = le_bytes 4 (l_pid f).
Proof. repeat split. Qed.

Lemma slices_24 (bs : list Z) :
  length bs = 24%nat →
  slice 0 2 bs ++ slice 2 2 bs ++ slice 4 8 bs ++ slice 12 8 bs ++ slice 20 4 bs = bs.
Proof. intros Hl. do 24 (destruct bs as [|? bs]; [done|]). by destruct bs. Qed.

Lemma slice_field (n : Z) (k m : nat) (bs : list Z) :
  0 < n → n = Z.of_nat m → (k + m <= length bs)%nat → Forall is_byte bs →
  le_bytes n (to_signed (n * 8) (of_le (slice k m bs))) = slice k m bs.
Proof.
  intros Hn -> Hl Hb. apply field_le; [done| |].
  - unfold slice. rewrite length_take, length_drop. lia.
  - unfold slice. by apply Forall_take, Forall_drop.
Qed.

(** The 24-byte user structure and the kernel's [Flock] are in bijection:
    decoding what [to_bytes] wrote gives the lock back, encoding a decoded
    24-byte buffer gives the same bytes, and a shorter buffer panics. *)
Theorem flock_bytes_roundtrip (f : Flock) (bs : list Z) :
  flock_ok f → Forall is_byte bs →
  from_bytes (to_bytes f) = Ret f ∧ length (to_bytes f) = 24%nat ∧
  (length bs = 24%nat → ∃ g, from_bytes bs = Ret g ∧ to_bytes g = bs ∧ flock_ok g) ∧
  ((length bs < 24)%nat → from_bytes bs = Panic).
Proof.
  intros (H1 & H2 & H3 & H4 & H5) Hbs.
  assert (length (to_bytes f) = 24%nat) as Hlen by reflexivity.
  split; [|split; [done|split]].
  - unfold from_bytes. rewrite Hlen. cbn [Nat.ltb Nat.leb].
    destruct (to_bytes_fields f) as (-> & -> & -> & -> & ->).
    unfold i16, i32, i64. destruct f. f_equal. cbn [l_type l_whence l_start l_len l_pid] in *.
    rewrite (le_field 2), (le_field 2), (le_field 8), (le_field 8), (le_field 4) by done.
    f_equal; by apply to_signed_id.
  - intros Hl. unfold from_bytes. rewrite Hl. cbn [Nat.ltb Nat.leb]. eexists. split; [done|].
    split; [|by repeat split; apply to_signed_range].
    unfold to_bytes, i16, i32, i64. cbn [l_type l_whence l_start l_len l_pid].
    rewrite (slice_field 2), (slice_field 2), (slice_field 8), (slice_field 8), (slice_field 4)
      by (done || lia). by apply slices_24.
  - intros Hl. unfold from_bytes. by rewrite (proj2 (Nat.ltb_lt _ _)).
Qed.

Lemma flock_bytes_roundtrip_witness :
  from_bytes (to_bytes (mkFlock 1 0 (-5) 10 0)) = Ret (mkFlock 1 0 (-5) 10 0) ∧
  from_bytes (replicate 20 7) = Panic.
Proof.
  destruct (flock_bytes_roundtrip (mkFlock 1 0 (-5) 10 0) (replicate 20 7)) as (H & _ & _ & Hp).
  - unfold flock_ok, is_signed. simpl. lia.
  - apply Forall_replicate. unfold is_byte. lia.
  - split; [exact H|]. apply Hp. simpl. lia.
Defined.

(** ** The lock table *)

(** Locks of different owners on one file only overlap when both are shared. *)
Definition compatible (a b : FileLock) : Prop :=
  inode a = inode b → owner_fd a ≠ owner_fd b →
  ranges_overlap (start a) (end_ a) (start b) (end_ b) = true →
  lock_type a ≠ F_WRLCK ∧ lock_type b ≠ F_WRLCK.

Definition locks_ok (ls : Locks) : Prop :=
  (∀ a b, a ∈ ls → b ∈ ls → compatible a b) ∧
  (∀ a, a ∈ ls → 0 <= lock_type a < 2 ^ 16 ∧ lock_type a ≠ F_UNLCK).

(** Histories of the table: lock commands, whose yield may run any further
    history and which no one interrupts between check and addition, and closes
    of descriptors. *)
Inductive history : Locks → Locks → Prop :=
| h_nil ls : history ls ls
| h_fcntl ls ls1 ls' cmd fd ino f :
    history ls ls1 → history (fcntl_lock_op (fun _ => ls1) id ls cmd fd ino f).2 ls' → history ls ls'
| h_release ls ls' fd : history (release_fd_locks ls fd) ls' → history ls ls'.

Lemma compatible_sym (a b : FileLock) : compatible a b → compatible b a.
Proof.
  unfold compatible, ranges_overlap. intros H Hi Ho Hr. rewrite andb_comm in Hr.
  destruct H; auto.
Qed.

Lemma compatible_self (a : FileLock) : compatible a a.
Proof. by intros _ []. Qed.

Lemma no_conflict_compatible (ls : Locks) (ino fd ty s e : Z) (a : FileLock) :
  find_conflict ls ino fd ty s e = None → a ∈ ls → compatible a (mkLock fd ino ty s e).
Proof.
  intros Hn Ha Hi Ho Hr. simpl in *. apply find_first_None in Hn. rewrite Forall_forall in Hn.
  specialize (Hn a Ha). unfold conflicts in Hn. rewrite Hr, (proj2 (Z.eqb_eq _ _) Hi) in Hn.
  rewrite (proj2 (Z.eqb_neq _ _) Ho) in Hn. simpl in Hn. bool_to_prop. done.
Qed.

Lemma locks_ok_filter (P : FileLock → Prop) `{∀ x, Decision (P x)} (ls : Locks) :
  locks_ok ls → locks_ok (filter P ls).
Proof.
  intros [H1 H2]. split.
  - intros a b [_ Ha]%list_elem_of_filter [_ Hb]%list_elem_of_filter. auto.
  - intros a [_ Ha]%list_elem_of_filter. auto.
Qed.

Lemma locks_ok_add (ls : Locks) (ino fd ty s e : Z) :
  locks_ok ls → 0 <= ty < 2 ^ 16 → ty ≠ F_UNLCK → find_conflict ls ino fd ty s e = None →
  locks_ok (add_lock ls ino fd ty s e).
Proof.
  intros [H1 H2] Ht1 Ht2 Hn. unfold add_lock. split.
  - intros a b [Ha| ->%list_elem_of_singleton]%elem_of_app [Hb| ->%list_elem_of_singleton]%elem_of_app.
    + auto.
    + by eapply no_conflict_compatible.
    + apply compatible_sym. by eapply no_conflict_compatible.
    + apply compatible_self.
  - intros a [Ha| ->%list_elem_of_singleton]%elem_of_app; auto.
Qed.

Lemma fcntl_lock_op_ok (y : Locks → Locks) (ls : Locks) (cmd fd ino : Z) (f : Flock) :
  locks_ok ls → locks_ok (y ls) → locks_ok (fcntl_lock_op y id ls cmd fd ino f).2.
Proof.
  intros Hok Hy. unfold fcntl_lock_op. pose proof (wrap_range 16 (l_type f) ltac:(lia)) as Ht.
  destruct (cmd =? F_GETLK); [by destruct (find_conflict _ _ _ _ _ _)|].
  destruct ((cmd =? F_SETLK) || (cmd =? F_SETLKW)); [|done].
  destruct (Z.eqb_spec (u16 (l_type f)) F_UNLCK); [by apply locks_ok_filter|].
  destruct (find_conflict ls _ _ _ _ _) eqn:E; [|by apply locks_ok_add].
  destruct (cmd =? F_SETLK); [done|].
  destruct (find_conflict (y ls) _ _ _ _ _) eqn:E'; [done|by apply locks_ok_add].
Qed.

Lemma history_ok (ls ls' : Locks) : history ls ls' → locks_ok ls → locks_ok ls'.
Proof.
  induction 1 as [|ls ls1 ls' cmd fd ino f _ IH1 _ IH2|ls ls' fd _ IH]; intros Hok; [done| |].
  - apply IH2, fcntl_lock_op_ok; auto.
  - apply IH, locks_ok_filter, Hok.
Qed.

Lemma getlk_unlocked (y b : Locks → Locks) (ls : Locks) (fd ino : Z) (f : Flock) :
  locks_ok ls →
  (l_type <$> (fcntl_lock_op y b ls F_GETLK fd ino f).1.2 = Some F_UNLCK ↔
   find_conflict ls ino fd (u16 (l_type f)) (abs_start f) (abs_end f) = None).
Proof.
  intros [_ Hty]. unfold fcntl_lock_op. simpl. destruct (find_conflict _ _ _ _ _ _) as [c|] eqn:E; simpl.
  - split; [|done]. intros [= Hi]. apply find_first_elem in E as [Hin _].
    destruct (Hty c Hin) as [H1 H2]. exfalso. apply H2.
    rewrite <- (wrap_small 16 (lock_type c)) by done.
    rewrite <- to_signed_wrap by lia. unfold i16 in Hi. by rewrite Hi.
  - done.
Qed.

(** A lock taken on a table without conflicts, with the check and the addition apart. *)
Lemma setlk_spec (y b : Locks → Locks) (ls : Locks) (fd ino : Z) (f : Flock) :
  u16 (l_type f) ≠ F_UNLCK →
  fcntl_lock_op y b ls F_SETLK fd ino f =
    match find_conflict ls ino fd (u16 (l_type f)) (abs_start f) (abs_end f) with
    | Some _ => ((-1, None), ls)
    | None => ((0, None), add_lock (b ls) ino fd (u16 (l_type f)) (abs_start f) (abs_end f))
    end.
Proof. intros Ht. unfold fcntl_lock_op. simpl. by rewrite (proj2 (Z.eqb_neq _ _) Ht). Qed.

(** C17: Byte-range locks exclude, by descriptor number and while no other
    command runs between a command's check and its addition.  In every history
    of lock commands and closes in which that is so (others may run while
    F_SETLKW yields), two granted locks with different descriptor numbers that
    cover one byte of one file are both shared.  On a table so reached, and for
    a request that is not F_UNLCK, F_GETLK reports F_UNLCK exactly when F_SETLK
    passes its check, which then adds the lock to the table as it is by then; it
    is refused with no change otherwise.  Both provisos are needed: an exclusive
    request whose check is followed by another one's whole command leaves two
    exclusive locks on the same bytes, and so do two requests under one
    descriptor number, of whichever processes. *)
Theorem file_locks_exclude (ls : Locks) :
  history [] ls →
  (∀ a b x, a ∈ ls → b ∈ ls → inode a = inode b → owner_fd a ≠ owner_fd b →
     start a <= x < end_ a → start b <= x < end_ b →
     lock_type a ≠ F_WRLCK ∧ lock_type b ≠ F_WRLCK) ∧
  (∀ y b fd ino f, u16 (l_type f) ≠ F_UNLCK →
     fcntl_lock_op y b ls F_SETLK fd ino f =
       if decide (l_type <$> (fcntl_lock_op y b ls F_GETLK fd ino f).1.2 = Some F_UNLCK)
       then ((0, None), b ls ++ [mkLock fd ino (u16 (l_type f)) (abs_start f) (abs_end f)])
       else ((-1, None), ls)) ∧
  (∀ fd fd' ino f, u16 (l_type f) = F_WRLCK →
     let lock n := mkLock n ino F_WRLCK (abs_start f) (abs_end f) in
     let other l := (fcntl_lock_op id id l F_SETLK fd' ino f).2 in
     fcntl_lock_op id other [] F_SETLK fd ino f = ((0, None), [lock fd'; lock fd]) ∧
     fcntl_lock_op id id [lock fd] F_SETLK fd ino f = ((0, None), [lock fd; lock fd])).
Proof.
  intros H. assert (locks_ok ls) as Hok by (apply (history_ok _ _ H); split; set_solver).
  split; [|split].
  - intros a b x Ha Hb Hi Ho Hxa Hxb. destruct Hok as [Hok _]. apply (Hok a b); auto.
    unfold ranges_overlap. rewrite !(proj2 (Z.ltb_lt _ _)); auto; lia.
  - intros y b fd ino f Ht. pose proof (getlk_unlocked y b ls fd ino f Hok) as Hg.
    rewrite setlk_spec by done.
    destruct (find_conflict ls _ _ _ _ _) eqn:E; case_decide; naive_solver.
  - intros fd fd' ino f Hw lock other. assert (u16 (l_type f) ≠ F_UNLCK) as Ht by by rewrite Hw.
    split.
    + rewrite setlk_spec by done. subst other. simpl. rewrite setlk_spec by done. simpl. by rewrite Hw.
    + rewrite setlk_spec by done. unfold find_conflict, conflicts. simpl.
      rewrite (Z.eqb_refl fd), (Z.eqb_refl ino), Hw. done.
Qed.

Lemma file_locks_exclude_witness :
  let ls := [mkLock 3 9 F_RDLCK 0 10; mkLock 4 9 F_RDLCK 5 8] in
  fcntl_lock_op id id ls F_SETLK 5 9 (mkFlock F_WRLCK 0 7 1 0) = ((-1, None), ls) ∧
  fcntl_lock_op id id ls F_SETLK 5 9 (mkFlock F_WRLCK 0 10 1 0) =
    ((0, None), ls ++ [mkLock 5 9 F_WRLCK 10 11]).
Proof.
  intros ls. destruct (file_locks_exclude ls) as (_ & H & _).
  - apply (h_fcntl _ [] _ F_SETLK 3 9 (mkFlock F_RDLCK 0 0 10 0)); [constructor|].
    apply (h_fcntl _ [] _ F_SETLK 4 9 (mkFlock F_RDLCK 0 5 3 0)); [|constructor].
    apply (h_release _ _ 3). constructor.
  - split.
    + rewrite (H id id 5 9 (mkFlock F_WRLCK 0 7 1 0)) by (vm_compute; discriminate). reflexivity.
    + rewrite (H id id 5 9 (mkFlock F_WRLCK 0 10 1 0)) by (vm_compute; discriminate). reflexivity.
Defined.
End FileLock.
