(* ===== verification/BTree.v ===== *)
(** BTree: the part of alloc::collections::BTreeMap the kernel uses.

    A map keyed by [usize] as its list of entries in ascending key order, so
    that iteration has the order of the source. *)

From stdpp Require Import base numbers list sets sorting.
From S2P Require Import Prelude.

Module BTree.

Section btree.
Context {A : Type}.
Implicit Types (m : list (nat * A)) (k : nat) (v : A).

Fixpoint get (k : nat) (m : list (nat * A)) : option A :=
  match m with
  | [] => None
  | (k', v) :: m' => if k =? k' then Some v else get k m'
  end.

Fixpoint insert (k : nat) (v : A) (m : list (nat * A)) : list (nat * A) :=
  match m with
  | [] => [(k, v)]
  | (k', v') :: m' =>
      if k <? k' then (k, v) :: m
      else if k =? k' then (k, v) :: m'
      else (k', v') :: insert k v m'
  end.

Definition remove (k : nat) (m : list (nat * A)) : list (nat * A) := filter (fun e => e.1 ≠ k) m.

Definition contains_key (k : nat) (m : list (nat * A)) : bool :=
  match get k m with Some _ => true | None => false end.

(** [get_mut(&k)], with what the caller does to the value. *)
Definition update (k : nat) (f : A → A) (m : list (nat * A)) : list (nat * A) :=
  (fun e => if e.1 =? k then (e.1, f e.2) else e) <$> m.

(** Keys ascend strictly. *)
Definition sorted (m : list (nat * A)) : Prop := StronglySorted lt (fst <$> m).

Lemma get_insert m k k' v : get k' (insert k v m) = if k' =? k then Some v else get k' m.
Proof.
  induction m as [|[k0 v0] m IH]; simpl; [done|].
  destruct (Nat.ltb_spec k k0); [simpl; done|].
  destruct (Nat.eqb_spec k k0); simpl; [subst; by destruct (k' =? k0)|]. rewrite IH.
  destruct (Nat.eqb_spec k' k0), (Nat.eqb_spec k' k); subst; done.
Qed.

Lemma get_insert_eq m k v : get k (insert k v m) = Some v.
Proof. by rewrite get_insert, Nat.eqb_refl. Qed.

Lemma get_insert_ne m k k' v : k' ≠ k → get k' (insert k v m) = get k' m.
Proof. intros H. rewrite get_insert. by destruct (Nat.eqb_spec k' k). Qed.

Lemma get_remove m k k' : get k' (remove k m) = if k' =? k then None else get k' m.
Proof.
  unfold remove. induction m as [|[k0 v0] m IH]; simpl; [by destruct (k' =? k)|].
  rewrite filter_cons. simpl. case_decide; simpl; rewrite IH;
    destruct (Nat.eqb_spec k' k0), (Nat.eqb_spec k' k); subst; done.
Qed.

Lemma get_update m k k' f :
  get k' (update k f m) = if k' =? k then f <$> get k' m else get k' m.
Proof.
  unfold update. induction m as [|[k0 v0] m IH]; simpl; [by destruct (k' =? k)|].
  destruct (Nat.eqb_spec k0 k) as [->|]; simpl.
  - by destruct (Nat.eqb_spec k' k).
  - destruct (Nat.eqb_spec k' k0) as [->|]; [|done]. by destruct (Nat.eqb_spec k0 k).
Qed.

Lemma keys_update m k f : fst <$> update k f m = fst <$> m.
Proof.
  unfold update. rewrite <- list_fmap_compose. apply list_fmap_ext. intros _ [k0 v0] _. simpl.
  by destruct (k0 =? k).
Qed.

Lemma sorted_update m k f : sorted m → sorted (update k f m).
Proof. unfold sorted. by rewrite keys_update. Qed.

Lemma insert_keys m k v k' : k' ∈ fst <$> insert k v m → k' = k ∨ k' ∈ fst <$> m.
Proof.
  induction m as [|[k0 v0] m IH]; simpl; [set_solver|].
  destruct (k <? k0); [set_solver|]. destruct (k =? k0); set_solver.
Qed.

Lemma sorted_insert m k v : sorted m → sorted (insert k v m).
Proof.
  unfold sorted. induction m as [|[k0 v0] m IH]; simpl; intros Hs; [by repeat constructor|].
  inversion Hs as [|x l Hs' Hf]; subst.
  destruct (Nat.ltb_spec k k0).
  - constructor; [done|]. constructor; [done|]. eapply Forall_impl; [exact Hf|]. intros; simpl in *; lia.
  - destruct (Nat.eqb_spec k k0); [by subst|]. constructor; [auto|].
    change (Forall (lt k0) (fst <$> insert k v m)).
    apply Forall_forall. intros k' [->|Hin]%insert_keys; [lia|]. rewrite Forall_forall in Hf. auto.
Qed.

Lemma sorted_remove m k : sorted m → sorted (remove k m).
Proof.
  unfold sorted, remove. induction m as [|[k0 v0] m IH]; [done|]. simpl. intros Hs.
  inversion Hs as [|x l Hs' Hf]; subst. rewrite filter_cons. case_decide; [|auto].
  simpl. constructor; [auto|]. apply Forall_forall.
  intros k' (e & -> & [_ He]%list_elem_of_filter)%list_elem_of_fmap.
  rewrite Forall_forall in Hf. apply Hf. apply list_elem_of_fmap. eauto.
Qed.

Lemma get_elem m k v : get k m = Some v → (k, v) ∈ m.
Proof.
  induction m as [|[k0 v0] m IH]; simpl; [done|].
  destruct (Nat.eqb_spec k k0) as [->|]; intros; simplify_eq; set_solver.
Qed.

Lemma elem_get m k v : sorted m → (k, v) ∈ m → get k m = Some v.
Proof.
  unfold sorted. induction m as [|[k0 v0] m IH]; intros Hs Hin; [set_solver|].
  inversion Hs as [|x l Hs' Hf]; subst. simpl.
  apply elem_of_cons in Hin as [[= -> ->]|Hin]; [by rewrite Nat.eqb_refl|].
  destruct (Nat.eqb_spec k k0) as [->|]; [|auto]. rewrite Forall_forall in Hf.
  assert (k0 < k0); [|lia]. apply Hf. apply list_elem_of_fmap. by exists (k0, v).
Qed.
End btree.
Abbreviation t A := (list (nat * A)).
End BTree.
