(* ===== verification/FdTable.v ===== *)
(** FdTable: per-process file descriptor tables (kernel/src/driver/fs.rs).

    32 slots of descriptors.  User memory is a function from addresses to bytes
    for reads, and a list of (address, byte) stores for writes.  What the
    readiness tests ask of the terminal, the pipes, eventfds and timerfds are
    arguments. *)

From stdpp Require Import base numbers list gmap strings sets.
From S2P Require Import Prelude Vfs.
Import Path.
Local Open Scope Z_scope.
Local Open Scope rust_scope.

Module FdTable.

Definition MAX_FDS : nat := 32.

Definition O_RDONLY : Z := 0.
Definition O_WRONLY : Z := 1.
Definition O_RDWR : Z := 2.
Definition O_CREAT : Z := 0x100.
Definition O_TRUNC : Z := 0x200.
Definition O_APPEND : Z := 0x400.

(** driver/ext4_x86_64.rs *)
Record Ext4FileDesc := mkExt4Desc { inode_num : Z; writable : bool }.

Inductive FdType :=
| Stdio
| File
| PipeRead
| PipeWrite
| FakeFile (d : list Z)
| VirtualFile
| Urandom
| Eventfd
| Epoll
| Timerfd
| Ext4File (d : Ext4FileDesc)
| VfsFile (vfs_fd : nat).

Record FileDescriptor := mkFd {
  name : str;
  pos : Z;
  flags : Z;
  valid : bool;
  fd_type : FdType;
  pipe_id : option nat;
  fd_num : nat
}.

(** [fds: [Option<FileDescriptor>; MAX_FDS]] *)
Abbreviation Fds := (list (option FileDescriptor)).

(** ** Readiness *)

Section ready.
Context (has_input : bool) (pipe_available : nat → Z) (eventfd_peek : nat → Z) (timerfd_peek : nat → bool).

Definition is_readable (d : FileDescriptor) : bool :=
  match fd_type d with
  | Stdio => if bool_decide (name d = bytes "stdin") then has_input else false
  | PipeRead =>
      match pipe_id d with
      | Some id => 0 <? pipe_available id
      | None => false
      end
  | Eventfd => 0 <? eventfd_peek (fd_num d)
  | Timerfd => timerfd_peek (fd_num d)
  | Epoll => false
  | PipeWrite | File | FakeFile _ | VirtualFile | VfsFile _ | Urandom => false
  | Ext4File _ => false
  end.
End ready.

Definition is_writable (d : FileDescriptor) : bool :=
  match fd_type d with
  | Stdio => negb (bool_decide (name d = bytes "stdin"))
  | PipeWrite => true
  | PipeRead | Eventfd | Epoll | Timerfd => false
  | File | FakeFile _ | VirtualFile | VfsFile _ | Urandom => true
  | Ext4File desc => writable desc
  end.

Definition fd_number (d : FileDescriptor) : nat := fd_num d.

(** ** The table *)

Definition stdio (n : string) (fl : Z) : FileDescriptor := mkFd (bytes n) 0 fl true Stdio None 0.

Definition new : Fds :=
  [Some (stdio "stdin" O_RDONLY); Some (stdio "stdout" O_WRONLY); Some (stdio "stderr" O_WRONLY)]
  ++ replicate (MAX_FDS - 3) None.

(** [slot.is_none() || !slot.as_ref().map(|f| f.valid).unwrap_or(false)] *)
Definition is_free (slot : option FileDescriptor) : bool :=
  match slot with
  | None => true
  | Some f => negb (valid f)
  end.

(** The loop of every [alloc*]: fill the first free slot [i] with [mk i]. *)
Fixpoint fill_free (i : nat) (fds : Fds) (mk : nat → FileDescriptor) : option nat * Fds :=
  match fds with
  | [] => (None, [])
  | slot :: rest =>
      if is_free slot then (Some i, Some (mk i) :: rest)
      else let '(r, rest') := fill_free (S i) rest mk in (r, slot :: rest')
  end.

Definition alloc (fds : Fds) (n : str) (fl : Z) : option nat * Fds :=
  fill_free 0 fds (fun _ => mkFd n 0 fl true File None 0).

Definition alloc_vfs_fd (fds : Fds) (n : str) (vfs_fd : nat) (fl : Z) : option nat * Fds :=
  fill_free 0 fds (fun _ => mkFd n 0 fl true (VfsFile vfs_fd) None 0).

Definition alloc_stdio_fd (fds : Fds) (n : str) (fl : Z) : option nat * Fds :=
  fill_free 0 fds (fun _ => mkFd n 0 fl true Stdio None 0).

Definition alloc_fake_fd (fds : Fds) (n : str) (fl : Z) : option nat * Fds :=
  fill_free 0 fds (fun _ => mkFd n 0 fl true (FakeFile []) None 0).

Definition alloc_urandom_fd (fds : Fds) (fl : Z) : option nat * Fds :=
  fill_free 0 fds (fun _ => mkFd (bytes "/dev/urandom") 0 fl true Urandom None 0).

Definition alloc_special_fd (fds : Fds) (n : str) (fl : Z) (ty : FdType) : option nat * Fds :=
  fill_free 0 fds (fun i => mkFd n 0 fl true ty None i).

Definition alloc_pipe_fd (fds : Fds) (id : nat) (is_read : bool) : option nat * Fds :=
  fill_free 0 fds (fun i =>
    mkFd (if is_read then bytes "pipe:read" else bytes "pipe:write") 0
      (if is_read then O_RDONLY else O_WRONLY) true
      (if is_read then PipeRead else PipeWrite) (Some id) i).

(** [self.fds.get(fd as usize)] for an [i32]: a negative one is out of range. *)
Definition slot_at (fds : Fds) (fd : Z) : option (option FileDescriptor) :=
  if fd <? 0 then None else fds !! Z.to_nat fd.

Definition set_pos (d : FileDescriptor) (p : Z) : FileDescriptor :=
  mkFd (name d) p (flags d) (valid d) (fd_type d) (pipe_id d) (fd_num d).

Definition set_type (d : FileDescriptor) (ty : FdType) : FileDescriptor :=
  mkFd (name d) (pos d) (flags d) (valid d) ty (pipe_id d) (fd_num d).

(** [for i in 0..len { data[pos + i] = user_read_u8(buf + i) }] *)
Fixpoint copy_in (mem : Z → Z) (buf p : Z) (d : list Z) (i : Z) (n : nat) : exec (list Z) :=
  match n with
  | O => Ret d
  | S n' =>
      let k := p +! i in
      if k <? Z.of_nat (length d)
      then copy_in mem buf p (<[Z.to_nat k := mem (buf +! i)]> d) (i + 1) n'
      else Panic
  end.

Definition fake_write (mem : Z → Z) (fds : Fds) (fd buf len : Z) : exec (option Z * Fds) :=
  match slot_at fds fd with
  | Some (Some desc) =>
      match fd_type desc with
      | FakeFile d =>
          let p := pos desc in
          let e := p +! len in
          let d1 := if Z.of_nat (length d) <? e then resize (Z.to_nat e) 0 d else d in
          let! d2 := copy_in mem buf p d1 0 (Z.to_nat len) in
          Ret (Some len, <[Z.to_nat fd := Some (set_pos (set_type desc (FakeFile d2)) e)]> fds)
      | _ => Ret (None, fds)
      end
  | _ => Ret (None, fds)
  end.

(** [for i in 0..to_read { user_write_u8(buf + i, data[pos + i]) }] *)
Fixpoint copy_out (buf p : Z) (d : list Z) (i : Z) (n : nat) : exec (list (Z * Z)) :=
  match n with
  | O => Ret []
  | S n' =>
      match d !! Z.to_nat (p +! i) with
      | Some b => let! r := copy_out buf p d (i + 1) n' in Ret ((buf +! i, b) :: r)
      | None => Panic
      end
  end.

(** The generator behind /dev/urandom: [PRNG] after the bytes, and the stores. *)
Fixpoint urandom (prng buf i : Z) (n : nat) : Z * list (Z * Z) :=
  match n with
  | O => (prng, [])
  | S n' =>
      let next := (prng *! 6364136223846793005) +! 1442695040888963407 in
      let byte := Z.land (Z.shiftr next (i `mod` 8 * 8)) 0xFF in
      let '(prng', r) := urandom next buf (i + 1) n' in
      (prng', (buf +! i, byte) :: r)
  end.

Definition PRNG_INIT : Z := 0xDEADBEEFCAFE1234.

(** Returns the count, the stores to user memory, [PRNG] and the table. *)
Definition fake_read (prng : Z) (fds : Fds) (fd buf len : Z)
    : exec (option Z * list (Z * Z) * Z * Fds) :=
  match slot_at fds fd with
  | Some (Some desc) =>
      match fd_type desc with
      | FakeFile d =>
          let p := pos desc in
          let l := Z.of_nat (length d) in
          let avail := if p <? l then l -! p else 0 in
          let to_read := Z.min len avail in
          let! out := copy_out buf p d 0 (Z.to_nat to_read) in
          Ret (Some to_read, out, prng, <[Z.to_nat fd := Some (set_pos desc (p +! to_read))]> fds)
      | Urandom =>
          let '(prng', out) := urandom prng buf 0 (Z.to_nat len) in
          Ret (Some len, out, prng', <[Z.to_nat fd := Some (set_pos desc (0 +! len))]> fds)
      | _ => Ret (None, [], prng, fds)
      end
  | _ => Ret (None, [], prng, fds)
  end.

Definition fake_truncate (fds : Fds) (fd size : Z) : bool * Fds :=
  match slot_at fds fd with
  | Some (Some desc) =>
      match fd_type desc with
      | FakeFile d =>
          let desc1 := set_type desc (FakeFile (resize (Z.to_nat size) 0 d)) in
          let desc2 := if size <? pos desc1 then set_pos desc1 size else desc1 in
          (true, <[Z.to_nat fd := Some desc2]> fds)
      | _ => (false, fds)
      end
  | _ => (false, fds)
  end.

Definition set_fd (fds : Fds) (fd : nat) (desc : FileDescriptor) : Fds :=
  if (fd <? length fds)%nat then <[fd := Some desc]> fds else fds.

Definition get (fds : Fds) (fd : nat) : option FileDescriptor :=
  match fds !! fd with
  | Some (Some f) => if valid f then Some f else None
  | _ => None
  end.

Definition dup (fds : Fds) (oldfd newfd : nat) : bool * Fds :=
  if (length fds <=? newfd)%nat then (false, fds)
  else
    match get fds oldfd with
    | Some d => (true, <[newfd := Some d]> fds)
    | None => (false, fds)
    end.

(** [get_mut(fd)], with what the caller does to the descriptor. *)
Definition get_mut (fds : Fds) (fd : nat) (f : FileDescriptor → FileDescriptor) : bool * Fds :=
  match get fds fd with
  | Some d => (true, <[fd := Some (f d)]> fds)
  | None => (false, fds)
  end.

Definition take (fds : Fds) (fd : nat) : option FileDescriptor * Fds :=
  match get fds fd with
  | Some d => (Some d, <[fd := None]> fds)
  | None => (None, fds)
  end.

Fixpoint drain (i : nat) (fds : Fds) : list (nat * FileDescriptor) * Fds :=
  match fds with
  | [] => ([], [])
  | slot :: rest =>
      let '(out, rest') := drain (S i) rest in
      match slot with
      | Some d => if valid d then ((i, d) :: out, None :: rest') else (out, slot :: rest')
      | None => (out, slot :: rest')
      end
  end.

Definition drain_open_fds (fds : Fds) : list (nat * FileDescriptor) * Fds := drain 0 fds.

Definition close (fds : Fds) (fd : nat) : bool * Fds :=
  match get fds fd with
  | Some _ => (true, <[fd := None]> fds)
  | None => (false, fds)
  end.

(** ** Allocation *)

Lemma fill_free_spec (mk : nat → FileDescriptor) (fds : Fds) : ∀ i,
  (Forall (fun s => is_free s = false) fds ∧ fill_free i fds mk = (None, fds)) ∨
  ∃ k, (k < length fds)%nat ∧ (is_free <$> fds !! k) = Some true ∧
    (∀ j, (j < k)%nat → (is_free <$> fds !! j) = Some false) ∧
    fill_free i fds mk = (Some (i + k)%nat, <[k := Some (mk (i + k)%nat)]> fds).
Proof.
  induction fds as [|s fds IH]; intros i; simpl; [by left|].
  destruct (is_free s) eqn:E.
  - right. exists 0%nat. rewrite Nat.add_0_r. simpl. rewrite E. repeat split; [lia|]. intros; lia.
  - destruct (IH (S i)) as [[Hf ->]|(k & Hk & Hfree & Hlow & ->)]; [left; by split; [constructor|]|].
    right. exists (S k). rewrite Nat.add_succ_r. simpl. repeat split; [lia|done|].
    intros [|j] Hj; simpl; [by rewrite E|apply Hlow; lia].
Qed.

(** ** Well-formed tables *)

Definition is_pipe (ty : FdType) : bool :=
  match ty with PipeRead | PipeWrite => true | _ => false end.

(** A stored descriptor is valid and names a pipe exactly when it is an end of
    one. *)
Definition desc_ok (d : FileDescriptor) : Prop :=
  valid d = true ∧ bool_decide (is_Some (pipe_id d)) = is_pipe (fd_type d).

Definition slot_ok (s : option FileDescriptor) : Prop :=
  match s with Some d => desc_ok d | None => True end.

Definition fds_ok (fds : Fds) : Prop := length fds = MAX_FDS ∧ Forall slot_ok fds.

Lemma fds_ok_insert (fds : Fds) (k : nat) (s : option FileDescriptor) :
  fds_ok fds → slot_ok s → fds_ok (<[k := s]> fds).
Proof. intros [Hl Hf] Hs. split; [by rewrite length_insert|]. by apply Forall_insert. Qed.

Lemma get_Some (fds : Fds) (fd : nat) (d : FileDescriptor) :
  get fds fd = Some d ↔ fds !! fd = Some (Some d) ∧ valid d = true.
Proof.
  unfold get. destruct (fds !! fd) as [[f|]|]; [|naive_solver..].
  destruct (valid f) eqn:E; naive_solver congruence.
Qed.

Lemma fds_ok_get (fds : Fds) (fd : nat) (d : FileDescriptor) :
  fds_ok fds → fds !! fd = Some (Some d) → desc_ok d.
Proof. intros [_ Hf] Hd. by apply (Forall_lookup_1 _ _ _ _ Hf) in Hd. Qed.

Lemma fds_ok_lookup (fds : Fds) (fd : nat) :
  fds_ok fds → fds !! fd = Some (get fds fd) ∨ ((MAX_FDS <= fd)%nat ∧ fds !! fd = None ∧ get fds fd = None).
Proof.
  intros Hok. unfold get. destruct (fds !! fd) as [[f|]|] eqn:E; [|by left|].
  - left. destruct (fds_ok_get _ _ _ Hok E) as [-> _]. done.
  - right. apply lookup_ge_None in E. destruct Hok as [<- _]. done.
Qed.

Lemma new_fds_ok : fds_ok new.
Proof. split; [done|]. repeat constructor. Qed.

Lemma fill_free_ok (mk : nat → FileDescriptor) (fds : Fds) (i : nat) :
  fds_ok fds → (∀ k, desc_ok (mk k)) → fds_ok (fill_free i fds mk).2.
Proof.
  intros Hok Hmk. destruct (fill_free_spec mk fds i) as [[_ ->]|(k & _ & _ & _ & ->)]; [done|].
  apply fds_ok_insert; [done|]. apply Hmk.
Qed.

Lemma slot_at_Some (fds : Fds) (fd : Z) (s : option FileDescriptor) :
  slot_at fds fd = Some s ↔ 0 <= fd ∧ fds !! Z.to_nat fd = Some s.
Proof. unfold slot_at. destruct (Z.ltb_spec fd 0); [naive_solver lia|naive_solver]. Qed.

(** ** In-memory files *)

(** The [n] bytes a call reads at [buf + i]. *)
Fixpoint user_bytes (mem : Z → Z) (buf i : Z) (n : nat) : list Z :=
  match n with
  | O => []
  | S n' => mem (buf +! i) :: user_bytes mem buf (i + 1) n'
  end.

(** The stores that write [bs] at [buf + i]. *)
Fixpoint user_stores (buf i : Z) (bs : list Z) : list (Z * Z) :=
  match bs with
  | [] => []
  | b :: bs' => (buf +! i, b) :: user_stores buf (i + 1) bs'
  end.

Lemma user_bytes_length (mem : Z → Z) (buf : Z) (n : nat) : ∀ i, length (user_bytes mem buf i n) = n.
Proof. induction n as [|n IH]; intros i; simpl; [done|]. by rewrite IH. Qed.

Lemma copy_in_spec (mem : Z → Z) (buf p : Z) (n : nat) : ∀ d i,
  0 <= p → 0 <= i → p + i + Z.of_nat n <= Z.of_nat (length d) → p + i + Z.of_nat n < 2 ^ 64 →
  copy_in mem buf p d i n =
    Ret (list.take (Z.to_nat (p + i)) d ++ user_bytes mem buf i n ++
         list.drop (Z.to_nat (p + i) + n) d).
Proof.
  induction n as [|n IH]; intros d i Hp Hi Hl Hb; simpl.
  - by rewrite Nat.add_0_r, take_drop.
  - rewrite u64_small by lia. rewrite (proj2 (Z.ltb_lt _ _)) by lia.
    rewrite IH by (rewrite ?length_insert; lia). f_equal.
    replace (Z.to_nat (p + (i + 1))) with (S (Z.to_nat (p + i))) by lia.
    set (k := Z.to_nat (p + i)). assert (k < length d)%nat as Hk by lia.
    erewrite take_S_r by (by apply list_lookup_insert_eq).
    rewrite take_insert_ge, drop_insert_lt by lia. rewrite <- app_assoc. simpl.
    do 3 f_equal. by rewrite Nat.add_succ_r.
Qed.

Lemma copy_out_spec (buf p : Z) (n : nat) (d : list Z) : ∀ i,
  0 <= p → 0 <= i → p + i + Z.of_nat n <= Z.of_nat (length d) → p + i + Z.of_nat n < 2 ^ 64 →
  copy_out buf p d i n = Ret (user_stores buf i (list.take n (list.drop (Z.to_nat (p + i)) d))).
Proof.
  induction n as [|n IH]; intros i Hp Hi Hl Hb; cbn [copy_out]; [done|].
  rewrite (u64_small (p + i)) by lia.
  destruct (lookup_lt_is_Some_2 d (Z.to_nat (p + i))) as [b Hlk]; [lia|]. rewrite Hlk.
  rewrite IH by lia. simpl. rewrite (drop_S _ _ _ Hlk). simpl.
  by replace (Z.to_nat (p + (i + 1))) with (S (Z.to_nat (p + i))) by lia.
Qed.

(** What [fake_write] builds is the file contents the VFS layer specifies. *)
Lemma fake_resize_splice (d data : list Z) (p : nat) :
  let e := (p + length data)%nat in
  let d1 := if (length d <? e)%nat then resize e 0 d else d in
  list.take p d1 ++ data ++ list.drop e d1 = Vfs.splice d p data.
Proof.
  intros e d1. unfold Vfs.splice. fold e. subst d1. destruct (Nat.ltb_spec (length d) e) as [Hlt|Hge].
  - rewrite resize_ge by lia. rewrite (drop_ge d), (drop_ge (d ++ _)) by (rewrite ?length_app, ?length_replicate; lia).
    f_equal. destruct (decide (p <= length d)%nat).
    + rewrite !take_app_le by lia. done.
    + rewrite !take_app_ge, !take_replicate by lia. f_equal. f_equal. lia.
  - f_equal. rewrite take_app_le; [done|lia].
Qed.

Section fake.
Context (fds : Fds) (fd : Z) (desc : FileDescriptor) (d : list Z).
Context (Hslot : slot_at fds fd = Some (Some desc)) (Hty : fd_type desc = FakeFile d).

Lemma fake_write_spec (mem : Z → Z) (buf len : Z) :
  0 <= pos desc → 0 <= len → pos desc + len < 2 ^ 64 →
  let d' := Vfs.splice d (Z.to_nat (pos desc)) (user_bytes mem buf 0 (Z.to_nat len)) in
  fake_write mem fds fd buf len =
    Ret (Some len, <[Z.to_nat fd := Some (set_pos (set_type desc (FakeFile d')) (pos desc + len))]> fds).
Proof.
  intros Hp Hl Hb d'. unfold fake_write. rewrite Hslot, Hty, u64_small by lia.
  set (e := pos desc + len). set (d1 := if _ <? _ then _ else _).
  pose proof (fake_resize_splice d (user_bytes mem buf 0 (Z.to_nat len)) (Z.to_nat (pos desc))) as Hs.
  cbv zeta in Hs. rewrite user_bytes_length in Hs.
  replace (Z.to_nat (pos desc) + Z.to_nat len)%nat with (Z.to_nat e) in Hs by lia.
  replace (if (length d <? Z.to_nat e)%nat then _ else _) with d1 in Hs.
  2:{ unfold d1. destruct (Z.ltb_spec (Z.of_nat (length d)) e), (Nat.ltb_spec (length d) (Z.to_nat e)); done || lia. }
  assert (e <= Z.of_nat (length d1)).
  { unfold d1. destruct (Z.ltb_spec (Z.of_nat (length d)) e); [rewrite length_resize|]; lia. }
  rewrite copy_in_spec by lia. simpl. rewrite Z.add_0_r.
  replace (Z.to_nat (pos desc) + Z.to_nat len)%nat with (Z.to_nat e) by lia. by rewrite Hs.
Qed.

Lemma fake_read_spec (prng buf len : Z) :
  0 <= pos desc → 0 <= len → Z.of_nat (length d) < 2 ^ 64 → pos desc < 2 ^ 64 →
  let bs := list.take (Z.to_nat len) (list.drop (Z.to_nat (pos desc)) d) in
  fake_read prng fds fd buf len =
    Ret (Some (Z.of_nat (length bs)), user_stores buf 0 bs, prng,
         <[Z.to_nat fd := Some (set_pos desc (pos desc + Z.of_nat (length bs)))]> fds).
Proof.
  intros Hp Hl Hd Hb bs. unfold fake_read. rewrite Hslot, Hty.
  set (avail := if _ <? _ then _ else _).
  assert (avail = Z.of_nat (length d - Z.to_nat (pos desc))) as Ha.
  { unfold avail. destruct (Z.ltb_spec (pos desc) (Z.of_nat (length d))); [rewrite u64_small|]; lia. }
  assert (Z.of_nat (length bs) = Z.min len avail) as Hn.
  { unfold bs. rewrite length_take, length_drop. lia. }
  rewrite <- Hn, Nat2Z.id.
  assert (length bs <= length d - Z.to_nat (pos desc))%nat by lia.
  assert (bs = [] ∨ pos desc + Z.of_nat (length bs) <= Z.of_nat (length d)) as [->|Hin].
  { destruct (decide (pos desc <= Z.of_nat (length d))); [right; lia|left].
    unfold bs. by rewrite drop_ge, take_nil by lia. }
  - simpl. by rewrite Z.add_0_r, u64_small by lia.
  - rewrite copy_out_spec by lia. cbn [exec_bind]. rewrite Z.add_0_r, u64_small by lia.
    assert (list.take (length bs) (list.drop (Z.to_nat (pos desc)) d) = bs) as ->; [|done].
    apply take_length_take.
Qed.
End fake.

(** An in-memory file descriptor is a byte file.  A write at position [p]
    stores exactly the user bytes there, fills a gap with zeros, advances the
    position and changes no other slot; a read after a seek to any position [q]
    stores to user memory the bytes of the new contents from [q] on, up to the
    end, and advances by that count. *)
Theorem fake_file_write_then_read (fds : Fds) (fd : Z) (desc : FileDescriptor) (d : list Z)
    (mem : Z → Z) (buf len : Z) :
  slot_at fds fd = Some (Some desc) → fd_type desc = FakeFile d →
  0 <= pos desc → 0 <= len → pos desc + len < 2 ^ 64 → Z.of_nat (length d) < 2 ^ 64 →
  let d' := Vfs.splice d (Z.to_nat (pos desc)) (user_bytes mem buf 0 (Z.to_nat len)) in
  let desc' := set_pos (set_type desc (FakeFile d')) (pos desc + len) in
  let fds' := <[Z.to_nat fd := Some desc']> fds in
  fake_write mem fds fd buf len = Ret (Some len, fds') ∧
  ∀ q prng rbuf rlen, 0 <= q < 2 ^ 64 → 0 <= rlen →
    let bs := list.take (Z.to_nat rlen) (list.drop (Z.to_nat q) d') in
    fake_read prng (<[Z.to_nat fd := Some (set_pos desc' q)]> fds) fd rbuf rlen =
      Ret (Some (Z.of_nat (length bs)), user_stores rbuf 0 bs, prng,
           <[Z.to_nat fd := Some (set_pos desc' (q + Z.of_nat (length bs)))]> fds).
Proof.
  intros Hs Hty Hp Hl Hb Hd d' desc' fds'. split; [by apply fake_write_spec|].
  intros q prng rbuf rlen Hq Hr bs. apply slot_at_Some in Hs as [Hfd Hlk].
  pose proof (fake_read_spec (<[Z.to_nat fd := Some (set_pos desc' q)]> fds) fd (set_pos desc' q) d')
    as Hread.
  rewrite Hread; [by rewrite list_insert_insert_eq| |done|simpl; lia|lia| |simpl; lia].
  - apply slot_at_Some. split; [done|]. apply list_lookup_insert_eq. by eapply lookup_lt_Some.
  - unfold d', Vfs.splice. rewrite !length_app, length_take, length_app, length_replicate, length_drop, user_bytes_length.
    lia.
Qed.

Lemma fake_file_write_then_read_witness :
  let desc := mkFd (bytes "notes") 2 O_RDWR true (FakeFile [7; 8; 9]) None 0 in
  fake_write (fun a => a `mod` 256) [None; Some desc] 1 100 2 =
    Ret (Some 2, [None; Some (mkFd (bytes "notes") 4 O_RDWR true (FakeFile [7; 8; 100; 101]) None 0)]).
Proof.
  intros desc.
  apply (fake_file_write_then_read [None; Some desc] 1 desc [7; 8; 9] (fun a => a `mod` 256) 100 2);
    simpl; reflexivity || lia.
Defined.

(** ** Every operation keeps the table well formed *)

(** The operations, with the arguments their callers pass: special descriptors
    are eventfds, epoll instances or timerfds, installed descriptors are copies
    of stored ones, and updates in place keep type, pipe and validity. *)
Inductive fdstep : Fds → Fds → Prop :=
| st_alloc fds n fl : fdstep fds (alloc fds n fl).2
| st_vfs fds n v fl : fdstep fds (alloc_vfs_fd fds n v fl).2
| st_stdio fds n fl : fdstep fds (alloc_stdio_fd fds n fl).2
| st_fake fds n fl : fdstep fds (alloc_fake_fd fds n fl).2
| st_urandom fds fl : fdstep fds (alloc_urandom_fd fds fl).2
| st_special fds n fl ty :
    ty = Eventfd ∨ ty = Epoll ∨ ty = Timerfd → fdstep fds (alloc_special_fd fds n fl ty).2
| st_pipe fds id r : fdstep fds (alloc_pipe_fd fds id r).2
| st_fake_write mem fds fd buf len r fds' :
    fake_write mem fds fd buf len = Ret (r, fds') → fdstep fds fds'
| st_fake_read prng fds fd buf len r fds' :
    fake_read prng fds fd buf len = Ret (r, fds') → fdstep fds fds'
| st_truncate fds fd size : fdstep fds (fake_truncate fds fd size).2
| st_set fds fd from d : get fds from = Some d → fdstep fds (set_fd fds fd d)
| st_dup fds o n : fdstep fds (dup fds o n).2
| st_get_mut fds fd p fl :
    fdstep fds (get_mut fds fd (fun d => mkFd (name d) p fl (valid d) (fd_type d) (pipe_id d) (fd_num d))).2
| st_take fds fd : fdstep fds (take fds fd).2
| st_drain fds : fdstep fds (drain_open_fds fds).2
| st_close fds fd : fdstep fds (close fds fd).2.

Lemma drain_spec (fds : Fds) : ∀ i,
  Forall slot_ok fds →
  (drain i fds).2 = replicate (length fds) None ∧
  ∀ k d, (k, d) ∈ (drain i fds).1 ↔ (i <= k)%nat ∧ fds !! (k - i)%nat = Some (Some d).
Proof.
  induction fds as [|s fds IH]; intros i Hf; simpl.
  - split; [done|]. intros k d. split; [by intros ?%not_elem_of_nil|naive_solver].
  - apply Forall_cons in Hf as [Hs Hf]. destruct (IH (S i) Hf) as [IH1 IH2].
    destruct (drain (S i) fds) as [out rest]. simpl in IH1, IH2. subst rest.
    assert (∀ k d, (S i <= k)%nat ∧ fds !! (k - S i)%nat = Some (Some d) ↔
      (i <= k)%nat ∧ k ≠ i ∧ (s :: fds) !! (k - i)%nat = Some (Some d)) as Hk.
    { intros k d. destruct (decide (k = i)) as [->|]; [naive_solver lia|].
      destruct (decide (i <= k)%nat); [|naive_solver lia].
      replace (k - i)%nat with (S (k - S i)) by lia. simpl. naive_solver lia. }
    destruct s as [d0|].
    + destruct Hs as [-> _]. simpl. split; [done|]. intros k d. rewrite elem_of_cons, IH2, Hk.
      destruct (decide (k = i)) as [->|]; [rewrite Nat.sub_diag; simpl|]; naive_solver.
    + simpl. split; [done|]. intros k d. rewrite IH2, Hk.
      destruct (decide (k = i)) as [->|]; [rewrite Nat.sub_diag; simpl|]; naive_solver.
Qed.

Lemma desc_ok_retype (d : FileDescriptor) (x y : list Z) (p : Z) :
  desc_ok d → fd_type d = FakeFile x → desc_ok (set_pos (set_type d (FakeFile y)) p).
Proof. intros [Hv Hp] Hty. rewrite Hty in Hp. done. Qed.

Lemma fake_ops_ok (fds : Fds) (fd : Z) :
  fds_ok fds →
  (∀ mem buf len r fds', fake_write mem fds fd buf len = Ret (r, fds') → fds_ok fds') ∧
  (∀ prng buf len r fds', fake_read prng fds fd buf len = Ret (r, fds') → fds_ok fds') ∧
  (∀ size, fds_ok (fake_truncate fds fd size).2).
Proof.
  intros Hok. unfold fake_write, fake_read, fake_truncate.
  destruct (slot_at fds fd) as [[desc|]|] eqn:Hs; [|naive_solver..].
  apply slot_at_Some in Hs as [_ Hs]. pose proof (fds_ok_get _ _ _ Hok Hs) as Hd.
  destruct (fd_type desc) eqn:Hty; try naive_solver.
  - splits.
    + intros mem buf len r fds'. destruct (copy_in _ _ _ _ _ _); [|done]. intros [= _ <-].
      apply fds_ok_insert; [done|]. by eapply desc_ok_retype.
    + intros prng buf len r fds'. destruct (copy_out _ _ _ _ _); [|done]. intros [= _ <-].
      apply fds_ok_insert; done.
    + intros size. apply fds_ok_insert; [done|]. cbn [slot_ok].
      destruct (size <? _); [by eapply desc_ok_retype|]. by apply (desc_ok_retype _ d _ (pos desc)).
  - split; [naive_solver|]. split; [|done]. intros prng buf len r fds'.
    destruct (urandom _ _ _ _). intros [= _ <-]. by apply fds_ok_insert.
Qed.

Lemma fdstep_ok (fds fds' : Fds) : fds_ok fds → fdstep fds fds' → fds_ok fds'.
Proof.
  intros Hok Hst. revert Hok. destruct Hst as [fds n fl|fds n v fl|fds n fl|fds n fl|fds fl|fds n fl ty Hty
    |fds id r|mem fds fd buf len r fds' E|prng fds fd buf len r fds' E|fds fd size|fds fd from d Hg
    |fds o n|fds fd p fl|fds fd|fds|fds fd]; intros Hok.
  1-5: by apply fill_free_ok.
  - apply fill_free_ok; [done|]. intros k. by destruct Hty as [->|[->| ->]].
  - apply fill_free_ok; [done|]. intros k. by destruct r.
  - by apply (fake_ops_ok fds fd Hok) in E.
  - by apply (fake_ops_ok fds fd Hok) in E.
  - by apply fake_ops_ok.
  - apply get_Some in Hg as [Hg _]. unfold set_fd. split_test; [|done].
    apply fds_ok_insert; [done|]. by eapply fds_ok_get.
  - unfold dup. split_test; [done|]. destruct (get fds o) eqn:Hg; [|done].
    apply get_Some in Hg as [Hg _]. apply fds_ok_insert; [done|]. by eapply fds_ok_get.
  - unfold get_mut. destruct (get fds fd) eqn:Hg; [|done].
    apply get_Some in Hg as [Hg _]. apply fds_ok_insert; [done|]. apply (fds_ok_get _ _ _ Hok Hg).
  - unfold take. destruct (get fds fd); [by apply fds_ok_insert|done].
  - destruct Hok as [Hl Hf]. unfold drain_open_fds. rewrite (proj1 (drain_spec fds 0 Hf)).
    split; [by rewrite length_replicate|]. by apply Forall_replicate.
  - unfold close. destruct (get fds fd); [by apply fds_ok_insert|done].
Qed.

(** C18: Descriptor tables are well typed.  Every table reached from a new one by
    any sequence of the table's operations has 32 slots, only valid descriptors,
    and a pipe number exactly in the descriptors of pipe ends; allocation
    returns the lowest free number and leaves every other slot alone, and fails
    only when all 32 are open. *)
Theorem fd_table_well_typed (fds : Fds) :
  reachable (eq new) fdstep fds →
  length fds = MAX_FDS ∧
  (∀ fd d, fds !! fd = Some (Some d) →
     valid d = true ∧ (is_Some (pipe_id d) ↔ fd_type d = PipeRead ∨ fd_type d = PipeWrite)) ∧
  (∀ n fl, match alloc fds n fl with
     | (Some fd, fds') =>
         (fd < MAX_FDS)%nat ∧ get fds fd = None ∧ (∀ j, (j < fd)%nat → is_Some (get fds j)) ∧
         fds' = <[fd := Some (mkFd n 0 fl true File None 0)]> fds
     | (None, fds') => fds' = fds ∧ ∀ j, (j < MAX_FDS)%nat → is_Some (get fds j)
     end).
Proof.
  intros Hr. assert (fds_ok fds) as Hok.
  { apply (reachable_invariant (eq new) fdstep fds_ok); [|apply fdstep_ok|done].
    intros s <-. apply new_fds_ok. }
  assert (∀ j, is_free <$> fds !! j = Some false → is_Some (get fds j)) as Hopen.
  { intros j. destruct (fds_ok_lookup fds j Hok) as [Hj|(_ & -> & _)]; [|done].
    rewrite Hj. by destruct (get fds j). }
  split; [apply Hok|]. split.
  - intros fd d Hd. destruct (fds_ok_get _ _ _ Hok Hd) as [Hv Hp]. split; [done|].
    rewrite <- (bool_decide_eq_true (is_Some _)), Hp. unfold is_pipe. destruct (fd_type d); naive_solver.
  - intros n fl. unfold alloc. destruct (fill_free_spec (fun _ => mkFd n 0 fl true File None 0) fds 0)
      as [[Hall ->]|(k & Hk & Hfree & Hlow & ->)]; simpl.
    + split; [done|]. intros j Hj. apply Hopen. destruct (lookup_lt_is_Some_2 fds j) as [s Hs].
      { destruct Hok as [-> _]. done. }
      rewrite Hs. simpl. by rewrite (Forall_lookup_1 _ _ _ _ Hall Hs).
    + destruct Hok as [Hl _]. rewrite <- Hl. repeat split; [done| |by auto].
      unfold get. destruct (fds !! k) as [[f|]|]; [|done..]. simpl in Hfree.
      destruct (valid f); [done|reflexivity].
Qed.

Lemma fd_table_well_typed_witness :
  alloc (close new 1).2 (bytes "f") O_RDWR =
    (Some 1%nat, <[1%nat := Some (mkFd (bytes "f") 0 O_RDWR true File None 0)]> (close new 1).2) ∧
  length (close new 1).2 = MAX_FDS.
Proof.
  destruct (fd_table_well_typed (close new 1).2) as (Hl & _ & Ha).
  - apply (reach_step _ _ new); [by apply reach_init|apply st_close].
  - specialize (Ha (bytes "f") O_RDWR). split; [reflexivity|exact Hl].
Defined.
End FdTable.
