(* ===== verification/Epoll.v ===== *)
(** Epoll: epoll instances and eventfds (kernel/src/syscall/epoll).

    The global maps are one record; the descriptor table of the calling process,
    the answers of terminal and pipes, and the clock are the rest of [World].
    Wake-ups and stores to user memory are part of the results.  A blocking
    [sys_epoll_wait] takes what happens at each of its blocks as an argument, and
    fuel for the number of blocks. *)

From stdpp Require Import base numbers list strings pretty sets.
From S2P Require Import Prelude Vfs FdTable BTree.
Import Path.
Local Open Scope Z_scope.
Local Open Scope rust_scope.

Module Epoll.
Import FdTable.

Record EpollEvent := mkEvent { events : Z; data : Z }.

Definition EPOLL_EVENT_SIZE : Z := 12.

(** [raw] is what [user_read_bytes] returned. *)
Definition read_epoll_event (raw : list Z) : EpollEvent :=
  mkEvent (of_le (slice 0 4 raw)) (of_le (slice 4 8 raw)).

(** The bytes given to [user_write_bytes]. *)
Definition write_epoll_event (e : EpollEvent) : list Z :=
  le_bytes 4 (events e) ++ le_bytes 8 (data e).

Definition EPOLLET : Z := 0x80000000.

Record EpollEntry := mkEntry { event : EpollEvent; last_revents : Z }.

(** [EpollInstance { entries }] *)
Abbreviation Instance_ := (BTree.t EpollEntry).

Definition EPOLL_CTL_ADD : Z := 1.
Definition EPOLL_CTL_DEL : Z := 2.
Definition EPOLL_CTL_MOD : Z := 3.

Definition EPOLLIN : Z := 0x001.
Definition EPOLLOUT : Z := 0x004.
Definition EPOLLERR : Z := 0x008.
Definition EPOLLHUP : Z := 0x010.

(** The statics of epoll/mod.rs and epoll/eventfd.rs. *)
Record Statics := mkStatics {
  EPOLL_INSTANCES : BTree.t Instance_;
  EPOLL_WAITERS : BTree.t (list nat);
  TIMERFD_STATES : BTree.t bool;
  EVENTFD_STATES : BTree.t Z;
  NEXT_EVENTFD : Z
}.

Definition statics_init : Statics := mkStatics [] [] [] [] 200.

Definition set_instances (st : Statics) m :=
  mkStatics m (EPOLL_WAITERS st) (TIMERFD_STATES st) (EVENTFD_STATES st) (NEXT_EVENTFD st).
Definition set_waiters (st : Statics) m :=
  mkStatics (EPOLL_INSTANCES st) m (TIMERFD_STATES st) (EVENTFD_STATES st) (NEXT_EVENTFD st).
Definition set_eventfds (st : Statics) m :=
  mkStatics (EPOLL_INSTANCES st) (EPOLL_WAITERS st) (TIMERFD_STATES st) m (NEXT_EVENTFD st).

Definition timerfd_peek (st : Statics) (fd : nat) : bool := default false (BTree.get fd (TIMERFD_STATES st)).

(** ** eventfd.rs *)

Definition sys_eventfd2 (fds : Fds) (st : Statics) (initval : Z) : Z * Fds * Statics :=
  match alloc_special_fd fds (bytes (String.append "eventfd_" (pretty (Z.to_N (NEXT_EVENTFD st))))) 0 Eventfd with
  | (Some fd, fds') =>
      (Z.of_nat fd, fds',
       mkStatics (EPOLL_INSTANCES st) (EPOLL_WAITERS st) (TIMERFD_STATES st)
         (BTree.insert fd initval (EVENTFD_STATES st)) (NEXT_EVENTFD st +! 1))
  | (None, fds') => (-24, fds', st)
  end.

Definition close_eventfd (st : Statics) (fd : nat) : Statics :=
  set_eventfds st (BTree.remove fd (EVENTFD_STATES st)).

Definition is_eventfd (st : Statics) (fd : nat) : bool := BTree.contains_key fd (EVENTFD_STATES st).

(** The value stored to [buf], if any. *)
Definition eventfd_read (st : Statics) (fd : nat) (len : Z) : Z * option Z * Statics :=
  if len <? 8 then (-22, None, st)
  else
    match BTree.get fd (EVENTFD_STATES st) with
    | Some v =>
        if v =? 0 then (-11, None, st)
        else (8, Some v, set_eventfds st (BTree.update fd (fun _ => 0) (EVENTFD_STATES st)))
    | None => (-9, None, st)
    end.

(** [for (&epfd, instance) in instances.iter()] that watch [fd]. *)
Definition watching (st : Statics) (fd : nat) : list nat :=
  fst <$> filter (fun e => is_Some (BTree.get fd e.2)) (EPOLL_INSTANCES st).

(** [for epfd in epfds { if let Some(slots) = waiters.get_mut(&epfd) { .. } }] *)
Fixpoint wake_all (epfds : list nat) (ws : BTree.t (list nat)) : list nat * BTree.t (list nat) :=
  match epfds with
  | [] => ([], ws)
  | epfd :: rest =>
      match BTree.get epfd ws with
      | Some slots =>
          let '(woken, ws') := wake_all rest (BTree.update epfd (fun _ => []) ws) in
          (slots ++ woken, ws')
      | None => wake_all rest ws
      end
  end.

Definition wake_waiters_for_fd (st : Statics) (fd : nat) : list nat * Statics :=
  let '(woken, ws) := wake_all (watching st fd) (EPOLL_WAITERS st) in
  (woken, set_waiters st (filter (fun e => e.2 ≠ []) ws)).

(** [val] is the u64 at the user's buffer. *)
Definition eventfd_write (st : Statics) (fd : nat) (len val : Z) : Z * list nat * Statics :=
  if len <? 8 then (-22, [], st)
  else if val =? USIZE_MAX then (-22, [], st)
  else
    match BTree.get fd (EVENTFD_STATES st) with
    | Some _ =>
        let st1 := set_eventfds st (BTree.update fd (fun c => saturating_add c val) (EVENTFD_STATES st)) in
        let '(woken, st2) := wake_waiters_for_fd st1 fd in
        (8, woken, st2)
    | None => (-9, [], st)
    end.

Definition eventfd_peek (st : Statics) (fd : nat) : Z := default 0 (BTree.get fd (EVENTFD_STATES st)).

(** ** mod.rs *)

Definition sys_epoll_create1 (fds : Fds) (st : Statics) : Z * Fds * Statics :=
  match alloc_special_fd fds (bytes "epoll") 0 Epoll with
  | (Some fd, fds') => (Z.of_nat fd, fds', set_instances st (BTree.insert fd [] (EPOLL_INSTANCES st)))
  | (None, fds') => (-24, fds', st)
  end.

Definition close_fd (st : Statics) (fd : nat) : Statics :=
  let insts := prod_map id (BTree.remove fd) <$> BTree.remove fd (EPOLL_INSTANCES st) in
  mkStatics insts (BTree.remove fd (EPOLL_WAITERS st)) (BTree.remove fd (TIMERFD_STATES st))
    (EVENTFD_STATES st) (NEXT_EVENTFD st).

Definition register_waiter (st : Statics) (epfd proc_idx : nat) : Statics :=
  let slots := default [] (BTree.get epfd (EPOLL_WAITERS st)) in
  let slots' := if bool_decide (proc_idx ∈ slots) then slots else slots ++ [proc_idx] in
  set_waiters st (BTree.insert epfd slots' (EPOLL_WAITERS st)).

Definition unregister_waiter (st : Statics) (epfd proc_idx : nat) : Statics :=
  match BTree.get epfd (EPOLL_WAITERS st) with
  | Some slots =>
      let slots' := filter (fun s => s ≠ proc_idx) slots in
      set_waiters st (if bool_decide (slots' = []) then BTree.remove epfd (EPOLL_WAITERS st)
                      else BTree.update epfd (fun _ => slots') (EPOLL_WAITERS st))
  | None => st
  end.

Record World := mkWorld {
  fds : Fds;
  statics : Statics;
  has_input : bool;
  pipe_available : nat → Z;
  uptime_ms : Z
}.

Definition set_statics (w : World) (st : Statics) : World :=
  mkWorld (fds w) st (has_input w) (pipe_available w) (uptime_ms w).

(** The body of the loop of [collect_ready_events] up to [revents]. *)
Definition poll_entry (w : World) (timers : BTree.t bool) (fd : nat) (e : EpollEntry) : Z * BTree.t bool :=
  match get (fds w) fd with
  | Some desc =>
      let readable := is_readable (has_input w) (pipe_available w) (eventfd_peek (statics w))
                        (fun n => default false (BTree.get n timers)) desc in
      let r1 := if negb (Z.land (events (event e)) EPOLLIN =? 0) && readable then EPOLLIN else 0 in
      let r2 := if negb (Z.land (events (event e)) EPOLLOUT =? 0) && is_writable desc
                then Z.lor r1 EPOLLOUT else r1 in
      let timers' :=
        match fd_type desc with
        | Timerfd => if Z.land r2 EPOLLIN =? 0 then timers else BTree.insert fd false timers
        | _ => timers
        end in
      (r2, timers')
  | None => (EPOLLHUP, timers)
  end.

(** [is_et && revents == entry.last_revents && revents != EPOLLHUP] *)
Definition suppressed (e : EpollEntry) (revents : Z) : bool :=
  negb (Z.land (events (event e)) EPOLLET =? 0) && (revents =? last_revents e) && negb (revents =? EPOLLHUP).

Fixpoint collect_loop (w : World) (max : nat) (timers : BTree.t bool) (entries : Instance_) (ready : list (Z * Z))
    : Instance_ * BTree.t bool * list (Z * Z) :=
  match entries with
  | [] => ([], timers, ready)
  | (fd, e) :: rest =>
      if (max <=? length ready)%nat then (entries, timers, ready)
      else
        let '(revents, timers1) := poll_entry w timers fd e in
        let '(e', ready') :=
          if suppressed e revents then (e, ready)
          else (mkEntry (event e) revents,
                if revents =? 0 then ready else ready ++ [(revents, data (event e))]) in
        let '(rest', timers2, ready2) := collect_loop w max timers1 rest ready' in
        ((fd, e') :: rest', timers2, ready2)
  end.

Definition collect_ready_events (w : World) (epfd max : nat) : result (list (Z * Z)) Z * World :=
  let st := statics w in
  match BTree.get epfd (EPOLL_INSTANCES st) with
  | Some entries =>
      let '(entries', timers', ready) := collect_loop w max (TIMERFD_STATES st) entries [] in
      (Ok ready,
       set_statics w (mkStatics (BTree.update epfd (fun _ => entries') (EPOLL_INSTANCES st))
                        (EPOLL_WAITERS st) timers' (EVENTFD_STATES st) (NEXT_EVENTFD st)))
  | None => (Err (-9), w)
  end.

(** The stores, by address, and the returned count. *)
Fixpoint write_events_from (events_ptr i : Z) (ready : list (Z * Z)) : list (Z * list Z) :=
  match ready with
  | [] => []
  | (rev, d) :: ready' =>
      (events_ptr +! u64 (i * EPOLL_EVENT_SIZE), write_epoll_event (mkEvent rev d))
        :: write_events_from events_ptr (i + 1) ready'
  end.

Definition write_ready_events (events_ptr : Z) (ready : list (Z * Z)) : Z * list (Z * list Z) :=
  (Z.of_nat (length ready), write_events_from events_ptr 0 ready).

Definition epoll_target_supported (desc : FileDescriptor) : bool :=
  match fd_type desc with
  | Stdio | PipeRead | PipeWrite => true
  | Eventfd | Timerfd => true
  | Epoll | File | FakeFile _ | VirtualFile | Urandom | VfsFile _ | Ext4File _ => false
  end.

Definition validate_epoll_target (t : Fds) (fd : nat) : result unit Z :=
  match get t fd with
  | Some desc => if epoll_target_supported desc then Ok tt else Err (-1)
  | None => Err (-9)
  end.

(** [raw] is the user's event, read when [event_ptr] is not null. *)
Definition sys_epoll_ctl (t : Fds) (st : Statics) (epfd : nat) (op : Z) (fd : nat) (event_ptr : Z) (raw : list Z)
    : Z * Statics :=
  match BTree.get epfd (EPOLL_INSTANCES st) with
  | None => (-9, st)
  | Some entries =>
      let store entries' := set_instances st (BTree.update epfd (fun _ => entries') (EPOLL_INSTANCES st)) in
      if op =? EPOLL_CTL_ADD then
        if event_ptr =? 0 then (-14, st)
        else match validate_epoll_target t fd with
             | Err e => (e, st)
             | Ok _ => (0, store (BTree.insert fd (mkEntry (read_epoll_event raw) 0) entries))
             end
      else if op =? EPOLL_CTL_MOD then
        if event_ptr =? 0 then (-14, st)
        else match validate_epoll_target t fd with
             | Err e => (e, st)
             | Ok _ =>
                 match BTree.get fd entries with
                 | Some _ => (0, store (BTree.update fd (fun _ => mkEntry (read_epoll_event raw) 0) entries))
                 | None => (-2, st)
                 end
             end
      else if op =? EPOLL_CTL_DEL then
        match BTree.get fd entries with
        | None => (-2, st)
        | Some _ => (0, store (BTree.remove fd entries))
        end
      else (-22, st)
  end.

Definition on_statics (w : World) (f : Statics → Statics) : World := set_statics w (f (statics w)).

Section wait.
Context (epfd max proc_idx : nat) (events_ptr : Z).

(** Return from the wait: the waiter is unregistered first. *)
Definition leave (w : World) (r : Z * list (Z * list Z)) : Z * list (Z * list Z) * World :=
  (r, on_statics w (fun st => unregister_waiter st epfd proc_idx)).

(** [sched k w] is the world when the [k]-th block of the call returns; [None]
    when the fuel is used up. *)
Fixpoint wait_loop (sched : nat → World → World) (deadline : option Z) (k fuel : nat) (w : World)
    : option (Z * list (Z * list Z) * World) :=
  match fuel with
  | O => None
  | S fuel' =>
      let expired w := match deadline with Some t => t <=? uptime_ms w | None => false end in
      if expired w then Some (leave w (0, []))
      else
        let w1 := sched k w in
        match collect_ready_events w1 epfd max with
        | (Err e, w2) => Some (leave w2 (e, []))
        | (Ok (r :: rs), w2) => Some (leave w2 (write_ready_events events_ptr (r :: rs)))
        | (Ok [], w2) =>
            if expired w2 then Some (leave w2 (0, []))
            else wait_loop sched deadline (S k) fuel' w2
        end
  end.
End wait.

Definition sys_epoll_wait (sched : nat → World → World) (fuel proc_idx : nat) (w : World)
    (epfd : nat) (events_ptr max_events timeout_ms : Z) : option (Z * list (Z * list Z) * World) :=
  if (max_events =? 0) || (1024 <? max_events) then Some (-22, [], w)
  else if events_ptr =? 0 then Some (-14, [], w)
  else
    let max := Z.to_nat max_events in
    match collect_ready_events w epfd max with
    | (Err e, w1) => Some (e, [], w1)
    | (Ok (r :: rs), w1) => Some (write_ready_events events_ptr (r :: rs), w1)
    | (Ok [], w1) =>
        if timeout_ms =? 0 then Some (0, [], w1)
        else
          let w2 := on_statics w1 (fun st => register_waiter st epfd proc_idx) in
          match collect_ready_events w2 epfd max with
          | (Err e, w3) => Some (leave epfd proc_idx w3 (e, []))
          | (Ok (r :: rs), w3) => Some (leave epfd proc_idx w3 (write_ready_events events_ptr (r :: rs)))
          | (Ok [], w3) =>
              let deadline :=
                if 0 <? timeout_ms then Some (saturating_add (uptime_ms w3) timeout_ms) else None in
              wait_loop epfd max proc_idx events_ptr sched deadline 0 fuel w3
          end
    end.

(** ** What a scan reports *)

Lemma epoll_event_roundtrip (e : EpollEvent) :
  0 <= events e < 2 ^ 32 → 0 <= data e < 2 ^ 64 → read_epoll_event (write_epoll_event e) = e.
Proof.
  intros He Hd. unfold read_epoll_event, write_epoll_event. destruct e as [ev d].
  cbn [events data] in *.
  assert (slice 0 4 (le_bytes 4 ev ++ le_bytes 8 d) = le_bytes 4 ev) as -> by reflexivity.
  assert (slice 4 8 (le_bytes 4 ev ++ le_bytes 8 d) = le_bytes 8 d) as -> by reflexivity.
  by rewrite !of_le_bytes, !wrap_small by done.
Qed.

(** No timerfd is marked as fired.  [TIMERFD_STATES] is only ever written with
    [false], so this holds in every run. *)
Definition no_timer (timers : BTree.t bool) : Prop := ∀ k, BTree.get k timers ≠ Some true.

Definition revents (w : World) (fd : nat) (e : EpollEntry) : Z :=
  (poll_entry w (TIMERFD_STATES (statics w)) fd e).1.

(** The event reported for an entry, if any. *)
Definition report (w : World) (x : nat * EpollEntry) : option (Z * Z) :=
  let r := revents w x.1 x.2 in
  if suppressed x.2 r || (r =? 0) then None else Some (r, data (event x.2)).

Lemma poll_entry_timers (w : World) (timers : BTree.t bool) (fd : nat) (e : EpollEntry) :
  no_timer timers → (poll_entry w timers fd e).2 = timers.
Proof.
  intros Hn. unfold poll_entry. destruct (get (fds w) fd) as [desc|]; [|done]. simpl.
  destruct (fd_type desc) eqn:Hty; try done. unfold is_readable, is_writable. rewrite Hty.
  specialize (Hn (fd_num desc)). destruct (BTree.get (fd_num desc) timers) as [[]|]; [done| |];
    simpl; rewrite !andb_false_r; done.
Qed.

Lemma collect_loop_spec (w : World) (max : nat) (entries : Instance_) : ∀ ready,
  no_timer (TIMERFD_STATES (statics w)) → (length ready <= max)%nat →
  ∃ entries', collect_loop w max (TIMERFD_STATES (statics w)) entries ready =
    (entries', TIMERFD_STATES (statics w), list.take max (ready ++ omap (report w) entries)) ∧
    fst <$> entries' = fst <$> entries.
Proof.
  induction entries as [|[fd e] rest IH]; intros ready Hn Hl; cbn [collect_loop omap list_omap].
  - exists []. rewrite app_nil_r, take_ge by done. done.
  - destruct (Nat.leb_spec max (length ready)) as [Hge|Hlt].
    { exists ((fd, e) :: rest). rewrite take_app_le by lia. rewrite take_ge by lia. done. }
    pose proof (poll_entry_timers w _ fd e Hn) as Ht.
    destruct (poll_entry w (TIMERFD_STATES (statics w)) fd e) as [r t1] eqn:Hp. simpl in Ht. subst t1.
    assert (revents w fd e = r) as Hr by (unfold revents; by rewrite Hp).
    unfold report at 1. cbn [fst snd]. rewrite Hr.
    destruct (suppressed e r); cbn [orb]; [|destruct (r =? 0)].
    + destruct (IH ready Hn Hl) as (rest' & -> & Hk). eexists. split; [done|]. by rewrite !fmap_cons, Hk.
    + destruct (IH ready Hn Hl) as (rest' & -> & Hk). eexists. split; [done|]. by rewrite !fmap_cons, Hk.
    + destruct (IH (ready ++ [(r, data (event e))]) Hn) as (rest' & -> & Hk); [rewrite length_app; simpl; lia|].
      eexists. split; [by rewrite <- app_assoc|]. by rewrite !fmap_cons, Hk.
Qed.

Lemma collect_spec (w : World) (epfd max : nat) (entries : Instance_) :
  no_timer (TIMERFD_STATES (statics w)) → BTree.get epfd (EPOLL_INSTANCES (statics w)) = Some entries →
  ∃ entries', fst <$> entries' = fst <$> entries ∧
  collect_ready_events w epfd max =
    (Ok (list.take max (omap (report w) entries)),
     on_statics w (fun st => set_instances st (BTree.update epfd (fun _ => entries') (EPOLL_INSTANCES st)))).
Proof.
  intros Hn He. unfold collect_ready_events. rewrite He.
  destruct (collect_loop_spec w max entries [] Hn ltac:(simpl; lia)) as (entries' & -> & Hk).
  exists entries'. done.
Qed.

(** The bits an entry can report. *)
Lemma revents_bits (w : World) (fd : nat) (e : EpollEntry) :
  revents w fd e =
    match get (fds w) fd with
    | None => EPOLLHUP
    | Some desc =>
        Z.lor
          (if negb (Z.land (events (event e)) EPOLLIN =? 0) &&
              is_readable (has_input w) (pipe_available w) (eventfd_peek (statics w)) (timerfd_peek (statics w)) desc
           then EPOLLIN else 0)
          (if negb (Z.land (events (event e)) EPOLLOUT =? 0) && is_writable desc then EPOLLOUT else 0)
    end.
Proof.
  unfold revents, poll_entry. destruct (get (fds w) fd) as [desc|]; [|done]. cbn [fst].
  fold (timerfd_peek (statics w)). destruct (negb (Z.land _ EPOLLIN =? 0) && _),
    (negb (Z.land _ EPOLLOUT =? 0) && _); done.
Qed.

(** ** Wake-ups *)

Lemma omap_length_le {A B : Type} (f : A → option B) (l : list A) : (length (omap f l) <= length l)%nat.
Proof.
  induction l as [|x l IH]; [done|]. cbn [omap list_omap length].
  destruct (f x); cbn [length]; unfold omap in *; lia.
Qed.

Lemma wake_all_In (p epfd : nat) (slots epfds : list nat) : ∀ ws,
  epfd ∈ epfds → BTree.get epfd ws = Some slots → p ∈ slots → p ∈ (wake_all epfds ws).1.
Proof.
  induction epfds as [|h epfds IH]; intros ws Hin Hg Hp; [set_solver|]. cbn [wake_all].
  destruct (decide (epfd = h)) as [->|Hne].
  - rewrite Hg. destruct (wake_all epfds _). set_solver.
  - assert (epfd ∈ epfds) as Hin' by set_solver.
    destruct (BTree.get h ws) as [s|]; [|auto].
    specialize (IH (BTree.update h (fun _ => []) ws) Hin').
    rewrite BTree.get_update in IH. destruct (Nat.eqb_spec epfd h); [done|].
    destruct (wake_all epfds _) as [woken ws']. simpl in *. set_solver.
Qed.

Lemma watching_In (st : Statics) (epfd fd : nat) (entries : Instance_) (e : EpollEntry) :
  BTree.get epfd (EPOLL_INSTANCES st) = Some entries → BTree.get fd entries = Some e →
  epfd ∈ watching st fd.
Proof.
  intros Hg He. apply BTree.get_elem in Hg. unfold watching. apply list_elem_of_fmap.
  exists (epfd, entries). split; [done|]. apply list_elem_of_filter. split; [|done]. simpl. by rewrite He.
Qed.

(** C19: The eventfd write routine wakes epoll.  Suppose an instance watches an
    eventfd for input, level triggered, a process is registered as a waiter of
    the instance, and no timerfd is armed.  Then [eventfd_write] of at least 8
    bytes and a value that is neither 0 nor u64::MAX returns 8 and wakes that
    process, and the scan the process runs next, with room for all entries of the
    instance, reports EPOLLIN with the entry's data, whatever else the instance
    watches.  (The write system call does not reach this routine.) *)
Theorem eventfd_write_wakes_epoll (w : World) (epfd fd p : nat) (slots : list nat) (entries : Instance_)
    (e : EpollEntry) (desc : FileDescriptor) (c len val : Z) (max : nat) :
  get (fds w) fd = Some desc → fd_type desc = Eventfd → fd_num desc = fd →
  BTree.get fd (EVENTFD_STATES (statics w)) = Some c → 0 <= c →
  BTree.get epfd (EPOLL_INSTANCES (statics w)) = Some entries → BTree.get fd entries = Some e →
  Z.land (events (event e)) EPOLLIN ≠ 0 → Z.land (events (event e)) EPOLLET = 0 →
  BTree.get epfd (EPOLL_WAITERS (statics w)) = Some slots → p ∈ slots →
  no_timer (TIMERFD_STATES (statics w)) → 8 <= len → 0 < val < USIZE_MAX →
  (length entries <= max)%nat →
  let '(r, woken, st') := eventfd_write (statics w) fd len val in
  r = 8 ∧ p ∈ woken ∧
  ∃ ready w', collect_ready_events (set_statics w st') epfd max = (Ok ready, w') ∧
    (EPOLLIN, data (event e)) ∈ ready.
Proof.
  intros Hd Hty Hnum Hc Hc0 Hi He Hin Het Hw Hp Hn Hlen Hval Hmax. unfold eventfd_write.
  rewrite (proj2 (Z.ltb_ge _ _) Hlen), (proj2 (Z.eqb_neq _ _)) by lia. rewrite Hc.
  set (st1 := set_eventfds _ _). unfold wake_waiters_for_fd.
  pose proof (wake_all_In p epfd slots (watching st1 fd) (EPOLL_WAITERS st1)
    (watching_In st1 epfd fd entries e Hi He) Hw Hp) as Hwake.
  destruct (wake_all (watching st1 fd) (EPOLL_WAITERS st1)) as [woken ws]. split; [done|]. split; [done|].
  set (st2 := set_waiters _ _). set (w2 := set_statics w st2).
  destruct (collect_spec w2 epfd max entries Hn Hi) as (entries' & _ & ->).
  eexists _, _. split; [done|]. rewrite take_ge by (etrans; [apply omap_length_le|done]).
  apply list_elem_of_omap. exists (fd, e). split; [by apply BTree.get_elem|].
  assert (revents w2 fd e = EPOLLIN) as Hr.
  { rewrite revents_bits. cbn [fds w2 set_statics]. rewrite Hd. unfold is_readable, is_writable. rewrite Hty, Hnum.
    unfold eventfd_peek. cbn [statics w2 set_statics st2 st1 EVENTFD_STATES set_waiters set_eventfds].
    rewrite BTree.get_update, Nat.eqb_refl, Hc. cbn [fmap option_fmap option_map default].
    rewrite (proj2 (Z.eqb_neq _ _) Hin), (proj2 (Z.ltb_lt _ _)), !andb_false_r; [done|].
    unfold saturating_add, USIZE_MAX in *. simpl; lia. }
  unfold report. cbn [fst snd]. rewrite Hr. unfold suppressed. rewrite Het. done.
Qed.

Definition demo_desc : FileDescriptor := mkFd (bytes "eventfd_200") 0 0 true Eventfd None 3.

(** Descriptor 3 is an eventfd with counter 0, watched by instance 4. *)
Definition demo_world (flags : Z) (waiters : BTree.t (list nat)) : World :=
  mkWorld (set_fd new 3 demo_desc)
    (mkStatics [(4%nat, [(3%nat, mkEntry (mkEvent flags 77) 0)])] waiters [] [(3%nat, 0)] 201)
    false (fun _ => 0) 0.

Lemma eventfd_write_wakes_epoll_witness :
  let w := demo_world EPOLLIN [(4%nat, [9%nat])] in
  let '(r, woken, st') := eventfd_write (statics w) 3 8 1 in
  r = 8 ∧ 9%nat ∈ woken ∧
  ∃ ready w', collect_ready_events (set_statics w st') 4 8 = (Ok ready, w') ∧ (EPOLLIN, 77) ∈ ready.
Proof.
  intros w. apply (eventfd_write_wakes_epoll w 4 3 9 [9%nat] [(3%nat, mkEntry (mkEvent EPOLLIN 77) 0)]
    (mkEntry (mkEvent EPOLLIN 77) 0) demo_desc 0 8 1 8); try reflexivity; try (vm_compute; discriminate).
  - constructor.
  - unfold USIZE_MAX. lia.
  - simpl. lia.
Defined.

(** An edge-triggered instance loses edges.  After a scan has reported an
    eventfd, the program reads the counter down to zero and a second write
    arrives: the waiter's next scan reports nothing although the counter is
    non-zero, because the readiness equals the one reported last. The
    level-triggered entry reports it. *)
Theorem epoll_edge_lost :
  let scan flags :=
    let w0 := demo_world flags [] in
    let st1 := (eventfd_write (statics w0) 3 8 5).2 in
    let '(r1, w1) := collect_ready_events (set_statics w0 st1) 4 8 in
    let '(got, st2) := eventfd_read (statics w1) 3 8 in
    let st3 := (eventfd_write st2 3 8 1).2 in
    let '(r2, w2) := collect_ready_events (set_statics w1 st3) 4 8 in
    (r1, got, eventfd_peek (statics w2) 3, r2) in
  scan (Z.lor EPOLLIN EPOLLET) = (Ok [(EPOLLIN, 77)], (8, Some 5), 1, Ok []) ∧
  scan EPOLLIN = (Ok [(EPOLLIN, 77)], (8, Some 5), 1, Ok [(EPOLLIN, 77)]).
Proof. split; vm_compute; reflexivity. Qed.

(** ** Waiting *)

Lemma unregistered (st : Statics) (epfd p : nat) :
  p ∉ default [] (BTree.get epfd (EPOLL_WAITERS (unregister_waiter st epfd p))).
Proof.
  unfold unregister_waiter. destruct (BTree.get epfd (EPOLL_WAITERS st)) as [slots|] eqn:E.
  - simpl. case_bool_decide.
    + rewrite BTree.get_remove, Nat.eqb_refl. simpl. apply not_elem_of_nil.
    + rewrite BTree.get_update, Nat.eqb_refl, E. simpl. by intros [? _]%list_elem_of_filter.
  - rewrite E. apply not_elem_of_nil.
Qed.

Lemma collect_keeps (w : World) (epfd max : nat) :
  uptime_ms (collect_ready_events w epfd max).2 = uptime_ms w ∧
  EPOLL_WAITERS (statics (collect_ready_events w epfd max).2) = EPOLL_WAITERS (statics w).
Proof.
  unfold collect_ready_events. destruct (BTree.get _ _); [|done].
  by destruct (collect_loop _ _ _ _ _) as [[??]?].
Qed.

(** A finished call: an error, a timeout, or the events it stored; the process
    is not registered any more. *)
Definition finished (epfd p : nat) (events_ptr : Z) (o : option (Z * list (Z * list Z) * World)) : Prop :=
  ∃ r w', o = Some (r, w') ∧ (p ∉ default [] (BTree.get epfd (EPOLL_WAITERS (statics w')))) ∧
    (r = (-9, []) ∨ (∃ ready, r = write_ready_events events_ptr ready)).

Lemma leave_finished (epfd p : nat) (events_ptr : Z) (w : World) (r : Z * list (Z * list Z)) :
  (r = (-9, []) ∨ (∃ ready, r = write_ready_events events_ptr ready)) →
  finished epfd p events_ptr (Some (leave epfd p w r)).
Proof. intros Hr. eexists _, _. split; [done|]. split; [apply unregistered|done]. Qed.

Lemma collect_Err (w w' : World) (epfd max : nat) (e : Z) :
  collect_ready_events w epfd max = (Err e, w') → e = -9.
Proof.
  unfold collect_ready_events. destruct (BTree.get _ _); [by destruct (collect_loop _ _ _ _ _) as [[??]?]|].
  by intros [= <- _].
Qed.

Lemma wait_loop_S (epfd max p : nat) (events_ptr deadline : Z) (sched : nat → World → World) (k d : nat) (w : World) :
  wait_loop epfd max p events_ptr sched (Some deadline) k (S d) w =
    if deadline <=? uptime_ms w then Some (leave epfd p w (0, []))
    else
      match collect_ready_events (sched k w) epfd max with
      | (Err e, w2) => Some (leave epfd p w2 (e, []))
      | (Ok (r :: rs), w2) => Some (leave epfd p w2 (write_ready_events events_ptr (r :: rs)))
      | (Ok [], w2) =>
          if deadline <=? uptime_ms w2 then Some (leave epfd p w2 (0, []))
          else wait_loop epfd max p events_ptr sched (Some deadline) (S k) d w2
      end.
Proof. reflexivity. Qed.

Lemma wait_loop_returns (epfd max p : nat) (events_ptr deadline : Z) (sched : nat → World → World) (d : nat) :
  ∀ k w, (∀ w', deadline <= uptime_ms (sched (k + d)%nat w')) →
  finished epfd p events_ptr (wait_loop epfd max p events_ptr sched (Some deadline) k (S d) w).
Proof.
  assert (∀ w r, r = (0, []) → finished epfd p events_ptr (Some (leave epfd p w r))) as H0.
  { intros w r ->. apply leave_finished. right. by exists []. }
  induction d as [|d IH]; intros k w Hs; rewrite wait_loop_S;
    (destruct (deadline <=? uptime_ms w); [by apply H0|]);
    destruct (collect_ready_events (sched k w) epfd max) as [[[|r rs]|e] w2] eqn:E;
    try (apply leave_finished; eauto; fail);
    try (apply leave_finished; left; by rewrite (collect_Err _ _ _ _ _ E)).
  - destruct (Z.leb_spec deadline (uptime_ms w2)); [by apply H0|].
    pose proof (collect_keeps (sched k w) epfd max) as [Hk _]. rewrite E in Hk. simpl in Hk.
    specialize (Hs w). rewrite Nat.add_0_r in Hs. lia.
  - destruct (deadline <=? uptime_ms w2); [by apply H0|]. apply (IH (S k)). intros w'.
    replace (S k + d)%nat with (k + S d)%nat by lia. apply Hs.
Qed.

(** Epoll_wait with a timeout returns.  For valid arguments and a positive
    timeout, if the clock has passed the deadline by the end of the n-th block,
    the call returns within n + 1 blocks, whatever else happens while it
    sleeps. It returns EBADF or the number of events it stored, and leaves the
    process unregistered. *)
Theorem epoll_wait_returns (sched : nat → World → World) (n p : nat) (w : World) (epfd : nat)
    (events_ptr max_events timeout_ms : Z) :
  0 < max_events <= 1024 → events_ptr ≠ 0 → 0 < timeout_ms →
  p ∉ default [] (BTree.get epfd (EPOLL_WAITERS (statics w))) →
  (∀ w', saturating_add (uptime_ms w) timeout_ms <= uptime_ms (sched n w')) →
  finished epfd p events_ptr (sys_epoll_wait sched (S n) p w epfd events_ptr max_events timeout_ms).
Proof.
  intros Hm Hp Ht Hnot Hclock. unfold sys_epoll_wait.
  rewrite (proj2 (Z.eqb_neq max_events 0)), (proj2 (Z.ltb_ge _ _)), (proj2 (Z.eqb_neq _ _) Hp),
    (proj2 (Z.eqb_neq timeout_ms 0)), (proj2 (Z.ltb_lt _ _) Ht) by lia. cbn [orb].
  set (max := Z.to_nat max_events).
  pose proof (collect_keeps w epfd max) as [Hu1 Hw1].
  destruct (collect_ready_events w epfd max) as [[[|r rs]|e] w1] eqn:E1; cbn [snd] in *.
  2:{ eexists _, _. split; [done|]. rewrite Hw1. split; [done|]. eauto. }
  2:{ eexists _, _. split; [done|]. rewrite Hw1. split; [done|]. left. by rewrite (collect_Err _ _ _ _ _ E1). }
  set (w2 := on_statics w1 _). pose proof (collect_keeps w2 epfd max) as [Hu2 _].
  destruct (collect_ready_events w2 epfd max) as [[[|r rs]|e] w3] eqn:E2; cbn [snd] in *.
  - apply wait_loop_returns. intros w'. rewrite Hu2. unfold w2. cbn [uptime_ms on_statics set_statics].
    rewrite Hu1. apply Hclock.
  - apply leave_finished. eauto.
  - apply leave_finished. left. by rewrite (collect_Err _ _ _ _ _ E2).
Qed.

Lemma epoll_wait_returns_witness :
  finished 4 9 4096 (sys_epoll_wait (fun k w => mkWorld (fds w) (statics w) false (fun _ => 0) (Z.of_nat k * 10)) 4 9
    (demo_world EPOLLIN []) 4 4096 16 25).
Proof.
  apply (epoll_wait_returns (fun k w => mkWorld (fds w) (statics w) false (fun _ => 0) (Z.of_nat k * 10)) 3);
    try lia; try discriminate.
  apply not_elem_of_nil.
Defined.
End Epoll.
