(* ===== verification/FdSys.v ===== *)
(** FdSys: descriptor system calls over the descriptor tables of all processes
    (kernel/src/syscall/mod.rs).

    [Kernel] composes the descriptor tables, the pipe table, the byte-range
    locks, the epoll statics and the VFS.  A descriptor table is the one behind
    an [Arc]: processes that share it (CLONE_FILES) use the same index.  The main
    result is that the per-end reference counts of pipes are the numbers of open
    descriptors, for the calls that keep them; the calls that do not are shown
    to break the count. *)

From stdpp Require Import base numbers list strings sets.
From S2P Require Import Prelude Ring Pipe Vfs RamFs FileLock FdTable BTree Epoll.
Local Open Scope Z_scope.
Local Open Scope rust_scope.

Module FdSys.
Import FdTable.

Definition ERR_OK : Z := 0.
Definition ERR_INVAL : Z := -22.
Definition ERR_NOMEM : Z := -12.

Section calls.
Context {F : Type} `{Vfs.FileSystem F}.

Record Kernel := mkKernel {
  tables : list Fds;
  pipes : Pipe.Table;
  locks : list FileLock.FileLock;
  epolls : Epoll.Statics;
  vfs : Vfs.VfsState F
}.

Definition set_table (k : Kernel) (t : nat) (fds : Fds) : Kernel :=
  mkKernel (<[t := fds]> (tables k)) (pipes k) (locks k) (epolls k) (vfs k).

Definition set_pipes (k : Kernel) (p : Pipe.Table) : Kernel :=
  mkKernel (tables k) p (locks k) (epolls k) (vfs k).

(** [with_fd_table]: "No current process" panics. *)
Definition table (k : Kernel) (t : nat) : exec Fds :=
  match tables k !! t with
  | Some fds => Ret fds
  | None => Panic
  end.

(** [fd < 0 || fd as usize >= MAX_FDS] *)
Definition bad_fd (fd : Z) : bool := (fd <? 0) || (Z.of_nat MAX_FDS <=? fd).

Definition get_fd_info (k : Kernel) (t : nat) (fd : Z) : exec (option (FdType * option nat * list Z)) :=
  if bad_fd fd then Ret None
  else
    let! fds := table k t in
    Ret ((fun f => (fd_type f, pipe_id f, name f)) <$> get fds (Z.to_nat fd)).

Definition inc_pipe_ref_for (p : Pipe.Table) (ty : FdType) (id : nat) : exec Pipe.Table :=
  match ty with
  | PipeRead => Pipe.inc_read p id
  | PipeWrite => Pipe.inc_write p id
  | _ => Ret p
  end.

(** [if let Some(pipe_id) = desc.pipe_id { inc_pipe_ref_for(..) }] *)
Definition inc_desc (p : Pipe.Table) (d : FileDescriptor) : exec Pipe.Table :=
  match pipe_id d with
  | Some id => inc_pipe_ref_for p (fd_type d) id
  | None => Ret p
  end.

(** Stores to user memory are (address, bytes). *)
Definition sys_pipe (k : Kernel) (t : nat) (fd_ptr : Z) : exec (Z * list (Z * list Z) * Kernel) :=
  if fd_ptr =? 0 then Ret (ERR_INVAL, [], k)
  else
    match Pipe.alloc_pipe (pipes k) with
    | (None, p) => Ret (ERR_NOMEM, [], set_pipes k p)
    | (Some id, p) =>
        let! fds := table k t in
        let '(rfd, fds1) := alloc_pipe_fd fds id true in
        let '(wfd, fds2) := alloc_pipe_fd fds1 id false in
        let k1 := set_table (set_pipes k p) t fds2 in
        match rfd, wfd with
        | Some r, Some w =>
            Ret (ERR_OK, [(fd_ptr, le_bytes 4 (Z.of_nat r)); (fd_ptr +! 4, le_bytes 4 (Z.of_nat w))], k1)
        | _, _ =>
            let! x := Pipe.close_read p id in
            let! y := Pipe.close_write (snd x) id in
            Ret (ERR_NOMEM, [], set_pipes k1 (snd y))
        end
    end.

(** First descriptor number in [from, from + n) that is not open. *)
Fixpoint first_closed (fds : Fds) (from n : nat) : option nat :=
  match n with
  | O => None
  | S n' => match get fds from with None => Some from | Some _ => first_closed fds (S from) n' end
  end.

Definition linux_dup (k : Kernel) (t oldfd : nat) : exec (Z * Kernel) :=
  let! fds := table k t in
  match first_closed fds 0 MAX_FDS with
  | Some new_fd =>
      match dup fds oldfd new_fd with
      | (true, fds1) =>
          let! p :=
            match get fds1 oldfd with
            | Some desc => inc_desc (pipes k) desc
            | None => Ret (pipes k)
            end in
          Ret (Z.of_nat new_fd, set_table (set_pipes k p) t fds1)
      | (false, fds1) => Ret (ERR_INVAL, set_table k t fds1)
      end
  | None => Ret (ERR_NOMEM, k)
  end.

Definition sys_dup2 (k : Kernel) (t : nat) (old_fd new_fd : Z) : exec (Z * Kernel) :=
  if bad_fd old_fd || bad_fd new_fd then Ret (ERR_INVAL, k)
  else if old_fd =? new_fd then Ret (new_fd, k)
  else
    let! fds := table k t in
    match get fds (Z.to_nat old_fd) with
    | None => Ret (ERR_INVAL, k)
    | Some desc =>
        let! p := inc_desc (pipes k) desc in
        Ret (new_fd, set_table (set_pipes k p) t (set_fd fds (Z.to_nat new_fd) desc))
    end.

Definition linux_dup2 (k : Kernel) (t : nat) (oldfd newfd : Z) : exec (Z * Kernel) :=
  sys_dup2 k t (i32 oldfd) (i32 newfd).

(** The arms F_DUPFD / F_DUPFD_CLOEXEC of [linux_fcntl]. *)
Definition fcntl_dupfd (k : Kernel) (t fd : nat) (arg : Z) : exec (Z * Kernel) :=
  let min := if 2 <? arg then arg else 0 in
  let! fds := table k t in
  match get fds fd with
  | None => Ret (-9, k)
  | Some desc =>
      match first_closed fds (Z.to_nat min) (MAX_FDS - Z.to_nat min) with
      | Some cand =>
          let! p := inc_desc (pipes k) desc in
          Ret (Z.of_nat cand, set_table (set_pipes k p) t (set_fd fds cand desc))
      | None => Ret (-24, k)
      end
  end.

(** The inode a lock of this descriptor is keyed by. *)
Definition lock_inode (k : Kernel) (t fd : nat) : exec (option Z) :=
  let! fds := table k t in
  Ret (match get fds fd with
       | Some desc =>
           match fd_type desc with
           | File => Vfs.get_inode_for_fd (vfs k) fd
           | VfsFile v => Vfs.get_inode_for_fd (vfs k) v
           | _ => Some (Z.of_nat fd + 0x10000)
           end
       | None => None
       end).

(** [raw] are the 24 bytes at [arg]; [schedule] is the yield of F_SETLKW, [between]
    what others do to the lock table between check and addition. *)
Definition fcntl_lock (schedule between : list FileLock.FileLock → list FileLock.FileLock) (k : Kernel) (t fd : nat)
    (cmd arg : Z) (raw : list Z) : exec (Z * list (Z * list Z) * Kernel) :=
  if arg =? 0 then Ret (-14, [], k)
  else
    let! flock := FileLock.from_bytes raw in
    let! ino := lock_inode k t fd in
    match ino with
    | None => Ret (-9, [], k)
    | Some ino =>
        let '(retval, out, ls) := FileLock.fcntl_lock_op schedule between (locks k) cmd (Z.of_nat fd) ino flock in
        let k' := mkKernel (tables k) (pipes k) ls (epolls k) (vfs k) in
        let stores := match out with Some f => [(arg, FileLock.to_bytes f)] | None => [] end in
        let r := if (retval =? -1) && ((cmd =? FileLock.F_SETLK) || (cmd =? FileLock.F_SETLKW))
                 then -11 else retval in
        Ret (r, stores, k')
    end.

Definition linux_fcntl (schedule between : list FileLock.FileLock → list FileLock.FileLock) (k : Kernel) (t fd : nat)
    (cmd arg : Z) (raw : list Z) : exec (Z * list (Z * list Z) * Kernel) :=
  let plain (m : exec (Z * Kernel)) := let! x := m in Ret (fst x, [], snd x) in
  if (cmd =? 0) || (cmd =? 1030) then plain (fcntl_dupfd k t fd arg)
  else if cmd =? 1 then Ret (0, [], k)
  else if cmd =? 2 then Ret (0, [], k)
  else if cmd =? 3 then
    plain (let! fds := table k t in
           Ret (match get fds fd with Some desc => flags desc | None => -9 end, k))
  else if cmd =? 4 then
    plain (let! fds := table k t in
           match get_mut fds fd (fun d => mkFd (name d) (pos d) (Z.lor (Z.land (flags d) 3) (Z.land (u32 arg) (u32 (Z.lnot 3))))
                                            (valid d) (fd_type d) (pipe_id d) (fd_num d)) with
           | (true, fds1) => Ret (0, set_table k t fds1)
           | (false, fds1) => Ret (-9, set_table k t fds1)
           end)
  else if (cmd =? FileLock.F_GETLK) || (cmd =? FileLock.F_SETLK) || (cmd =? FileLock.F_SETLKW)
  then fcntl_lock schedule between k t fd cmd arg raw
  else Ret (0, [], k).

(** Also returns the tasks the closed pipe ends wake. *)
Definition cleanup_fd_resources (k : Kernel) (fd : nat) (desc : FileDescriptor) : exec (list nat * Kernel) :=
  let k1 := mkKernel (tables k) (pipes k) (FileLock.release_fd_locks (locks k) (Z.of_nat fd))
              (Epoll.close_fd (epolls k) fd) (vfs k) in
  match fd_type desc with
  | PipeRead =>
      match pipe_id desc with
      | Some id => let! x := Pipe.close_read (pipes k1) id in Ret (fst x, set_pipes k1 (snd x))
      | None => Ret ([], k1)
      end
  | PipeWrite =>
      match pipe_id desc with
      | Some id => let! x := Pipe.close_write (pipes k1) id in Ret (fst x, set_pipes k1 (snd x))
      | None => Ret ([], k1)
      end
  | VfsFile v => Ret ([], mkKernel (tables k1) (pipes k1) (locks k1) (epolls k1) (snd (Vfs.close (vfs k1) v)))
  | Eventfd => Ret ([], mkKernel (tables k1) (pipes k1) (locks k1) (Epoll.close_eventfd (epolls k1) fd) (vfs k1))
  | _ => Ret ([], k1)
  end.

(** [for (fd, desc) in fds { cleanup_fd_resources(fd, desc) }] *)
Fixpoint cleanup_all (k : Kernel) (l : list (nat * FileDescriptor)) : exec (list nat * Kernel) :=
  match l with
  | [] => Ret ([], k)
  | (fd, desc) :: l' =>
      let! x := cleanup_fd_resources k fd desc in
      let! y := cleanup_all (snd x) l' in
      Ret (fst x ++ fst y, snd y)
  end.

Definition cleanup_current_process_fds (k : Kernel) (t : nat) : exec (list nat * Kernel) :=
  let! fds := table k t in
  let '(l, fds1) := drain_open_fds fds in
  cleanup_all (set_table k t fds1) l.

Definition sys_close (k : Kernel) (t : nat) (fd : Z) : exec (Z * list nat * Kernel) :=
  if bad_fd fd then Ret (ERR_INVAL, [], k)
  else
    let! fds := table k t in
    match take fds (Z.to_nat fd) with
    | (Some desc, fds1) =>
        let! x := cleanup_fd_resources (set_table k t fds1) (Z.to_nat fd) desc in
        Ret (ERR_OK, fst x, snd x)
    | (None, fds1) => Ret (ERR_INVAL, [], set_table k t fds1)
    end.

(** The table a forked child gets: a deep copy. *)
Definition fork_fd_table (k : Kernel) (t : nat) : exec (nat * Kernel) :=
  let! fds := table k t in
  Ret (length (tables k), mkKernel (tables k ++ [fds]) (pipes k) (locks k) (epolls k) (vfs k)).

(** The table of a cloned thread: shared with CLONE_FILES, else new. *)
Definition clone_fd_table (k : Kernel) (t : nat) (flags : Z) : exec (nat * Kernel) :=
  let! _ := table k t in
  if negb (Z.land flags 0x400 =? 0) then Ret (t, k)
  else Ret (length (tables k), mkKernel (tables k ++ [new]) (pipes k) (locks k) (epolls k) (vfs k)).

(** One redirection: the child's [slot] gets a copy of the parent's descriptor. *)
Definition redirect (k : Kernel) (c slot : nat) (is_read : bool) (desc : option FileDescriptor) : exec Kernel :=
  match desc with
  | Some d =>
      let! p :=
        match pipe_id d with
        | Some id => if is_read then Pipe.inc_read (pipes k) id else Pipe.inc_write (pipes k) id
        | None => Ret (pipes k)
        end in
      let! cf := table k c in
      Ret (set_table (set_pipes k p) c (set_fd cf slot d))
  | None => Ret k
  end.

(** The redirections into the child's table [c]. *)
Definition apply_redirections (k : Kernel) (t c : nat) (redir_stdin redir_stdout : Z) : exec Kernel :=
  if (0 <=? redir_stdin) || (0 <=? redir_stdout) then
    let! fds := table k t in
    let pick r := if 0 <=? r then get fds (Z.to_nat r) else None in
    let! k1 := redirect k c 0 true (pick redir_stdin) in
    redirect k1 c 1 false (pick redir_stdout)
  else Ret k.
End calls.
Arguments mkKernel {F}. Arguments tables {F}. Arguments pipes {F}. Arguments locks {F}.
Arguments epolls {F}. Arguments vfs {F}.

(** ** Counting descriptors *)

(** The descriptor in a slot is the read ([rd]) or write end of pipe [id]. *)
Definition slot_end (rd : bool) (id : nat) (s : option FileDescriptor) : nat :=
  match s with
  | Some d =>
      match fd_type d with
      | PipeRead => if rd && bool_decide (pipe_id d = Some id) then 1 else 0
      | PipeWrite => if negb rd && bool_decide (pipe_id d = Some id) then 1 else 0
      | _ => 0
      end
  | None => 0
  end.

Definition count_in (rd : bool) (id : nat) (fds : Fds) : nat := sum_list_with (slot_end rd id) fds.

Definition count (rd : bool) (id : nat) (ts : list Fds) : nat := sum_list_with (count_in rd id) ts.

(** The reference count the pipe table holds for that end. *)
Definition refs (p : Pipe.Table) (rd : bool) (id : nat) : Z :=
  match Pipe.PIPE_REFS p !! id with
  | Some (r, w) => if rd then r else w
  | None => 0
  end.

(** Reference counts are descriptor counts, with the descriptors [pend] taken
    out of their tables and not yet released. *)
Definition counted {F : Type} (pend : list (option FileDescriptor)) (k : @Kernel F) : Prop :=
  Pipe.table_ok (pipes k) ∧ Forall fds_ok (tables k) ∧ Forall slot_ok pend ∧
  (∀ rd id, refs (pipes k) rd id = Z.of_nat (count rd id (tables k) + count_in rd id pend)) ∧
  Z.of_nat (length (tables k)) < 2 ^ 32 ∧ (length pend <= 64)%nat.

Lemma sum_insert {A : Type} (f : A → nat) (l : list A) (i : nat) (x y : A) :
  l !! i = Some x → (sum_list_with f (<[i := y]> l) + f x = sum_list_with f l + f y)%nat.
Proof.
  revert i. induction l as [|z l IH]; intros [|i] H; simplify_eq/=; [lia|].
  specialize (IH _ H). lia.
Qed.

Lemma sum_bound {A : Type} (f : A → nat) (b : nat) (l : list A) :
  (∀ x, x ∈ l → (f x <= b)%nat) → (sum_list_with f l <= length l * b)%nat.
Proof.
  induction l as [|x l IH]; intros Hb; simpl; [lia|].
  pose proof (Hb x ltac:(set_solver)). pose proof (IH ltac:(set_solver)). lia.
Qed.

Lemma sum_pos {A : Type} (f : A → nat) (l : list A) (i : nat) (x : A) :
  l !! i = Some x → (f x <= sum_list_with f l)%nat.
Proof.
  revert i. induction l as [|z l IH]; intros [|i] H; simplify_eq/=; [lia|].
  specialize (IH _ H). lia.
Qed.

Lemma count_set_slot (rd : bool) (id t j : nat) (ts : list Fds) (fds : Fds) (s s' : option FileDescriptor) :
  ts !! t = Some fds → fds !! j = Some s →
  (count rd id (<[t := <[j := s']> fds]> ts) + slot_end rd id s = count rd id ts + slot_end rd id s')%nat.
Proof.
  intros Ht Hj. pose proof (sum_insert (count_in rd id) ts t fds (<[j := s']> fds) Ht) as H1.
  pose proof (sum_insert (slot_end rd id) fds j s s' Hj) as H2. unfold count, count_in in *. lia.
Qed.

Lemma slot_end_le (rd : bool) (id : nat) (s : option FileDescriptor) : (slot_end rd id s <= 1)%nat.
Proof. destruct s as [d|]; simpl; [|lia]. destruct (fd_type d), rd; simpl; try case_bool_decide; lia. Qed.

Lemma count_held (rd : bool) (id t j : nat) (ts : list Fds) (fds : Fds) (s : option FileDescriptor) :
  ts !! t = Some fds → fds !! j = Some s → (slot_end rd id s <= count rd id ts)%nat.
Proof.
  intros Ht Hj. etransitivity; [apply (sum_pos (slot_end rd id) fds j s Hj)|].
  apply (sum_pos (count_in rd id) ts t fds Ht).
Qed.

Lemma counted_bound {F : Type} (pend : list (option FileDescriptor)) (k : @Kernel F) (rd : bool) (id : nat) :
  counted pend k → 0 <= refs (pipes k) rd id < 2 ^ 40.
Proof.
  intros (_ & Hf & _ & -> & Hl & Hp). split; [lia|].
  assert (count rd id (tables k) <= length (tables k) * 32)%nat as H1.
  { apply sum_bound. intros fds Hin. rewrite Forall_forall in Hf. destruct (Hf fds Hin) as [Hlen _].
    change 32%nat with MAX_FDS. rewrite <- Hlen.
    pose proof (sum_bound (slot_end rd id) 1 fds) as Hb. unfold count_in. rewrite Nat.mul_1_r in Hb.
    apply Hb. intros x _. apply slot_end_le. }
  assert (count_in rd id pend <= length pend * 1)%nat as H2
    by (apply sum_bound; intros; apply slot_end_le). lia.
Qed.

(** ** Reference counts of the pipe table *)

Definition same_end (rd rd' : bool) (id id' : nat) : Z :=
  if bool_decide (rd = rd' ∧ id = id') then 1 else 0.

Lemma refs_insert (p : Pipe.Table) (tb : list (option Pipe.Pipe)) (id i : nat) (r w : Z) (rd : bool) :
  (id < length (Pipe.PIPE_REFS p))%nat →
  refs (Pipe.mkTable tb (<[id := (r, w)]> (Pipe.PIPE_REFS p))) rd i =
    if decide (i = id) then (if rd then r else w) else refs p rd i.
Proof.
  intros Hid. unfold refs. cbn [Pipe.PIPE_REFS]. case_decide as Hi.
  - subst i. by rewrite list_lookup_insert_eq.
  - by rewrite list_lookup_insert_ne by congruence.
Qed.

Lemma refs_lookup (p : Pipe.Table) (rd : bool) (id : nat) :
  0 < refs p rd id → ∃ r w, Pipe.PIPE_REFS p !! id = Some (r, w) ∧ (if rd then r else w) = refs p rd id.
Proof. unfold refs. destruct (Pipe.PIPE_REFS p !! id) as [[r w]|]; [eauto|lia]. Qed.

Lemma inc_end_spec (p : Pipe.Table) (rd : bool) (id : nat) :
  Pipe.table_ok p → 0 < refs p rd id < 2 ^ 40 →
  ∃ p', (if rd then Pipe.inc_read p id else Pipe.inc_write p id) = Ret p' ∧ Pipe.table_ok p' ∧
    ∀ rd' i, refs p' rd' i = refs p rd' i + same_end rd rd' id i.
Proof.
  intros Hok Hr. destruct (refs_lookup p rd id) as (r & w & Hl & Hrw); [lia|].
  assert (id < length (Pipe.PIPE_REFS p))%nat as Hid by (by eapply lookup_lt_Some).
  assert (0 <= r < 2 ^ 64 ∧ 0 <= w < 2 ^ 64) as [Hr64 Hw64].
  { destruct (Pipe.table_slot p id Hok) as (o & rw & _ & Hl' & (H1 & H2 & _) & _).
    - destruct Hok as (_ & Hlen & _). lia.
    - rewrite Hl in Hl'. simplify_eq. done. }
  exists (Pipe.mkTable (Pipe.PIPE_TABLE p)
    (<[id := ((if rd then r + 1 else r), (if rd then w else w + 1))]> (Pipe.PIPE_REFS p))).
  split; [|split].
  - apply Pipe.index_Ret in Hl. unfold Pipe.inc_read, Pipe.inc_write. rewrite Hl. cbn [exec_bind fst snd].
    destruct rd; by rewrite u64_small by lia.
  - apply (Pipe.inc_ok p id r w); try done; destruct rd; lia.
  - intros rd' i. rewrite refs_insert by done. unfold same_end. case_decide as Hi.
    + subst i. unfold refs. rewrite Hl. destruct rd, rd'; case_bool_decide; naive_solver lia.
    + rewrite bool_decide_eq_false_2 by naive_solver. lia.
Qed.

Lemma close_end_spec (p : Pipe.Table) (rd : bool) (id : nat) :
  Pipe.table_ok p → 0 < refs p rd id →
  ∃ ws p', (if rd then Pipe.close_read p id else Pipe.close_write p id) = Ret (ws, p') ∧ Pipe.table_ok p' ∧
    ∀ rd' i, refs p' rd' i = refs p rd' i - same_end rd rd' id i.
Proof.
  intros Hok Hr. destruct (refs_lookup p rd id) as (r & w & Hl & Hrw); [lia|].
  pose proof Hok as (Hlt & Hlen & _).
  assert (id < length (Pipe.PIPE_REFS p))%nat as Hid by (by eapply lookup_lt_Some).
  destruct (lookup_lt_is_Some_2 (Pipe.PIPE_TABLE p) id) as [o Ho]; [lia|].
  assert (∀ (r' w' : Z) (tb : list (option Pipe.Pipe)), r' = (if rd then r - 1 else r) → w' = (if rd then w else w - 1) →
    ∀ rd' i, refs (Pipe.mkTable tb (<[id := (r', w')]> (Pipe.PIPE_REFS p))) rd' i =
             refs p rd' i - same_end rd rd' id i) as Hrefs.
  { intros r' w' tb -> -> rd' i. rewrite refs_insert by done. unfold same_end. case_decide as Hi.
    - subst i. unfold refs. rewrite Hl. destruct rd, rd'; case_bool_decide; naive_solver lia.
    - rewrite bool_decide_eq_false_2 by naive_solver. lia. }
  destruct rd.
  - destruct (Pipe.close_read_spec p id o r w Hok Ho Hl) as (ws & -> & Hs). eexists _, _.
    split; [done|]. split; [apply Pipe.table_ok_store; [done|lia|done]|]. apply Hrefs; [lia|done].
  - destruct (Pipe.close_write_spec p id o r w Hok Ho Hl) as (ws & -> & Hs). eexists _, _.
    split; [done|]. split; [apply Pipe.table_ok_store; [done|lia|done]|]. apply Hrefs; [done|lia].
Qed.

Lemma desc_end (d : FileDescriptor) :
  desc_ok d →
  (∃ (rd : bool) (id : nat), pipe_id d = Some id ∧ fd_type d = (if rd then PipeRead else PipeWrite) ∧
     ∀ rd' i, Z.of_nat (slot_end rd' i (Some d)) = same_end rd rd' id i) ∨
  (pipe_id d = None ∧ is_pipe (fd_type d) = false ∧ ∀ rd' i, slot_end rd' i (Some d) = 0%nat).
Proof.
  intros [_ Hp]. destruct (is_pipe (fd_type d)) eqn:E.
  - left. apply bool_decide_eq_true in Hp as [id Hid].
    assert (∃ rd : bool, fd_type d = if rd then PipeRead else PipeWrite) as [rd Hrd].
    { destruct (fd_type d); try done; [by exists true|by exists false]. }
    exists rd, id. split; [done|]. split; [done|]. intros rd' i. unfold slot_end, same_end. rewrite Hrd, Hid.
    destruct rd, rd'; simpl; repeat case_bool_decide; naive_solver.
  - right. apply bool_decide_eq_false in Hp. split; [by apply eq_None_not_Some|]. split; [done|].
    intros rd' i. unfold slot_end. by destruct (fd_type d).
Qed.

Lemma inc_desc_spec (p : Pipe.Table) (d : FileDescriptor) :
  Pipe.table_ok p → desc_ok d →
  (∀ rd id, Z.of_nat (slot_end rd id (Some d)) <= refs p rd id < 2 ^ 40) →
  ∃ p', inc_desc p d = Ret p' ∧ Pipe.table_ok p' ∧
    ∀ rd i, refs p' rd i = refs p rd i + Z.of_nat (slot_end rd i (Some d)).
Proof.
  intros Hok Hd Hheld. unfold inc_desc, inc_pipe_ref_for.
  destruct (desc_end d Hd) as [(rd & id & Hid & Hty & Hend)|(Hid & _ & Hz)]; rewrite Hid.
  - destruct (inc_end_spec p rd id Hok) as (p' & Hinc & Hok' & Hr).
    { specialize (Hheld rd id). rewrite Hend in Hheld. unfold same_end in Hheld.
      rewrite bool_decide_eq_true_2 in Hheld by done. lia. }
    exists p'. rewrite Hty. split; [by destruct rd|]. split; [done|]. intros rd' i. by rewrite Hend.
  - exists p. split; [done|]. split; [done|]. intros rd i. rewrite Hz. lia.
Qed.

Section invariant.
Context {F : Type} `{Vfs.FileSystem F}.
Implicit Types k : @Kernel F.

(** Releasing a descriptor that was taken out. *)
Lemma cleanup_fd_resources_spec k (fd : nat) (d : FileDescriptor) (pend : list (option FileDescriptor)) :
  counted (Some d :: pend) k →
  ∃ ws k', cleanup_fd_resources k fd d = Ret (ws, k') ∧ counted pend k' ∧ tables k' = tables k.
Proof.
  intros Hc. pose proof Hc as (Hok & Hf & Hp & Hcount & Hl & Hlen). apply Forall_cons in Hp as [Hd Hp].
  simpl in Hlen. assert (length pend <= 64)%nat as Hlen' by lia.
  unfold cleanup_fd_resources. set (k1 := mkKernel (tables k) _ _ _ _).
  destruct (desc_end d Hd) as [(rd & id & Hid & Hty & Hend)|(Hid & Hnp & Hz)].
  - destruct (close_end_spec (pipes k) rd id Hok) as (ws & p' & Hcl & Hok' & Hr).
    { rewrite Hcount. unfold count_in. cbn [sum_list_with]. pose proof (Hend rd id) as He.
      unfold same_end in He. rewrite bool_decide_eq_true_2 in He by done. lia. }
    exists ws, (set_pipes k1 p'). rewrite Hty, Hid. split.
    { destruct rd; cbn [pipes k1]; by rewrite Hcl. }
    split; [|done]. unfold counted. cbn [pipes set_pipes tables k1]. splits; try assumption. intros rd' i.
    rewrite Hr, Hcount, <- Hend. unfold count_in. cbn [sum_list_with]. lia.
  - assert (∀ k', tables k' = tables k → pipes k' = pipes k → counted pend k') as Hsame.
    { intros k' E1 E2. unfold counted. rewrite E1, E2. splits; try assumption.
      intros rd' i. rewrite Hcount. unfold count_in. cbn [sum_list_with]. rewrite Hz. lia. }
    destruct (fd_type d) eqn:Hty; try done; eexists _, _; (split; [reflexivity|]);
      (split; [by apply Hsame|done]).
Qed.

Definition pending (l : list (nat * FileDescriptor)) : list (option FileDescriptor) :=
  (fun x => Some (snd x)) <$> l.

Lemma cleanup_all_spec (l : list (nat * FileDescriptor)) : ∀ k pend,
  counted (pending l ++ pend) k →
  ∃ ws k', cleanup_all k l = Ret (ws, k') ∧ counted pend k' ∧ tables k' = tables k.
Proof.
  induction l as [|[fd d] l IH]; intros k pend Hc; cbn [cleanup_all].
  - by exists [], k.
  - destruct (cleanup_fd_resources_spec k fd d (pending l ++ pend) Hc) as (ws & k1 & -> & Hc1 & Ht1).
    destruct (IH k1 pend Hc1) as (ws2 & k2 & E & Hc2 & Ht2). cbn [exec_bind fst snd]. rewrite E. eexists _, _.
    split; [reflexivity|]. split; [done|]. exact (eq_trans Ht2 Ht1).
Qed.

(** Storing a copy of a held descriptor in a slot that is not a pipe end. *)
Lemma store_copy k (t j : nat) (fds : Fds) (s : option FileDescriptor) (d : FileDescriptor) (t' j' : nat) (fds' : Fds) :
  counted [] k → tables k !! t = Some fds → fds !! j = Some s → (∀ rd id, slot_end rd id s = 0%nat) →
  tables k !! t' = Some fds' → fds' !! j' = Some (Some d) →
  ∃ p, inc_desc (pipes k) d = Ret p ∧
    counted [] (set_table (set_pipes k p) t (<[j := Some d]> fds)).
Proof.
  intros Hc Ht Hj Hs Ht' Hj'. pose proof Hc as (Hok & Hf & _ & Hcount & Hl & _).
  assert (fds_ok fds' ∧ fds_ok fds) as [Hok' Hokf].
  { split; by eapply (Forall_lookup_1 _ _ _ _ Hf). }
  pose proof (fds_ok_get _ _ _ Hok' Hj') as Hd.
  destruct (inc_desc_spec (pipes k) d Hok Hd) as (p & Hi & Hokp & Hr).
  { intros rd id. split; [|apply (counted_bound [] k rd id Hc)]. rewrite Hcount.
    pose proof (count_held rd id t' j' (tables k) fds' (Some d) Ht' Hj'). lia. }
  exists p. split; [done|]. unfold counted. cbn [pipes tables set_table set_pipes].
  split; [done|]. split; [apply Forall_insert; [done|by apply fds_ok_insert]|]. split; [done|].
  split; [|rewrite length_insert; split; [done|simpl; lia]]. intros rd id. rewrite Hr, Hcount.
  pose proof (count_set_slot rd id t j (tables k) fds s (Some d) Ht Hj) as E. rewrite Hs in E. lia.
Qed.

Lemma set_table_id k (t : nat) (fds : Fds) : tables k !! t = Some fds → set_table k t fds = k.
Proof. intros Ht. unfold set_table. rewrite list_insert_id by done. by destruct k. Qed.

Lemma counted_fds k (t : nat) (fds : Fds) (pend : list (option FileDescriptor)) :
  counted pend k → tables k !! t = Some fds → fds_ok fds.
Proof. intros (_ & Hf & _) Ht. by eapply (Forall_lookup_1 _ _ _ _ Hf). Qed.

(** Replacing a table: what it loses is pending. *)
Lemma counted_replace k (t : nat) (fds fds' : Fds) (pend : list (option FileDescriptor)) :
  counted [] k → tables k !! t = Some fds → fds_ok fds' → Forall slot_ok pend → (length pend <= 64)%nat →
  (∀ rd id, count_in rd id fds = count_in rd id fds' + count_in rd id pend)%nat →
  counted pend (set_table k t fds').
Proof.
  intros (Hok & Hf & _ & Hcount & Hl & _) Ht Hfds Hp Hlen Heq. unfold counted. cbn [pipes tables set_table].
  splits; try assumption.
  - by apply Forall_insert.
  - intros rd id. rewrite Hcount. cbn [count_in sum_list_with].
    pose proof (sum_insert (count_in rd id) (tables k) t fds fds' Ht). unfold count. rewrite Heq in *. lia.
  - by rewrite length_insert.
Qed.

Lemma take_counted k (t j : nat) (fds : Fds) (d : FileDescriptor) :
  counted [] k → tables k !! t = Some fds → fds !! j = Some (Some d) →
  counted [Some d] (set_table k t (<[j := None]> fds)).
Proof.
  intros Hc Ht Hj. pose proof (counted_fds _ _ _ _ Hc Ht) as Hfds.
  apply (counted_replace k t fds); try done.
  - by apply fds_ok_insert.
  - constructor; [by eapply fds_ok_get|done].
  - simpl. lia.
  - intros rd id. pose proof (sum_insert (slot_end rd id) fds j (Some d) None Hj).
    unfold count_in. cbn [sum_list_with slot_end] in *. lia.
Qed.

Lemma drain_count (fds : Fds) (rd : bool) (id : nat) : ∀ i,
  Forall slot_ok fds →
  count_in rd id (pending (drain i fds).1) = count_in rd id fds ∧
  Forall slot_ok (pending (drain i fds).1) ∧ (length (pending (drain i fds).1) <= length fds)%nat.
Proof.
  induction fds as [|s fds IH]; intros i Hf; cbn [drain]; [by repeat split|].
  apply Forall_cons in Hf as [Hs Hf]. specialize (IH (S i) Hf).
  destruct (drain (S i) fds) as [out rest]. cbn [fst] in IH. destruct IH as (IH1 & IH2 & IH3).
  destruct s as [d|].
  - pose proof Hs as [-> _]. cbn [fst]. unfold pending, count_in in *. rewrite fmap_cons. cbn [sum_list_with length].
    rewrite IH1. split; [done|]. split; [by constructor|simpl; lia].
  - cbn [fst]. unfold count_in in *. cbn [sum_list_with slot_end length]. split; [done|]. split; [done|lia].
Qed.

Lemma count_in_none (rd : bool) (id n : nat) : count_in rd id (replicate n None) = 0%nat.
Proof. induction n; [done|]. unfold count_in in *. simpl. done. Qed.

Lemma first_closed_spec (fds : Fds) (n : nat) : ∀ from c,
  first_closed fds from n = Some c → get fds c = None ∧ (from <= c < from + n)%nat.
Proof.
  induction n as [|n IH]; intros from c Hc; simpl in Hc; [done|].
  destruct (get fds from) eqn:E; simplify_eq; [|split; [done|lia]].
  destruct (IH _ _ Hc). split; [done|lia].
Qed.

Lemma closed_slot (fds : Fds) (c : nat) :
  fds_ok fds → (c < MAX_FDS)%nat → get fds c = None → fds !! c = Some None.
Proof.
  intros Hok Hc Hg. destruct (fds_ok_lookup fds c Hok) as [E|(? & _)]; [by rewrite Hg in E|lia].
Qed.

Lemma set_fd_insert (fds : Fds) (c : nat) (d : FileDescriptor) :
  fds_ok fds → (c < MAX_FDS)%nat → set_fd fds c d = <[c := Some d]> fds.
Proof. intros [Hl _] Hc. unfold set_fd. by rewrite Hl, (proj2 (Nat.ltb_lt _ _) Hc). Qed.

Lemma bad_fd_false (fd : Z) : bad_fd fd = false → 0 <= fd ∧ (Z.to_nat fd < MAX_FDS)%nat.
Proof. unfold bad_fd. intros Hb. bool_to_prop. unfold MAX_FDS in *. lia. Qed.

Lemma sys_close_spec k (t : nat) (fds : Fds) (fd : Z) :
  counted [] k → tables k !! t = Some fds →
  ∃ r ws k', sys_close k t fd = Ret (r, ws, k') ∧ counted [] k'.
Proof.
  intros Hc Ht. unfold sys_close, table. destruct (bad_fd fd); [by eexists _, _, _|].
  rewrite Ht. cbn [exec_bind]. unfold take. destruct (get fds (Z.to_nat fd)) as [d|] eqn:Hg.
  - apply get_Some in Hg as [Hg _]. pose proof (take_counted k t _ fds d Hc Ht Hg) as Hp.
    destruct (cleanup_fd_resources_spec _ (Z.to_nat fd) d [] Hp) as (ws & k' & -> & Hc' & _).
    by eexists _, _, _.
  - rewrite set_table_id by done. by eexists _, _, _.
Qed.

Lemma cleanup_process_spec k (t : nat) (fds : Fds) :
  counted [] k → tables k !! t = Some fds →
  ∃ ws k', cleanup_current_process_fds k t = Ret (ws, k') ∧ counted [] k' ∧
    tables k' !! t = Some (replicate MAX_FDS None).
Proof.
  intros Hc Ht. pose proof (counted_fds _ _ _ _ Hc Ht) as [Hlen Hok].
  unfold cleanup_current_process_fds, table. rewrite Ht. cbn [exec_bind]. unfold drain_open_fds.
  destruct (drain_spec fds 0 Hok) as [Hrest _]. pose proof (fun rd id => drain_count fds rd id 0 Hok) as Hd.
  destruct (drain 0 fds) as [l rest]. cbn [fst snd] in *. rewrite Hlen in Hrest. subst rest.
  destruct (cleanup_all_spec l (set_table k t (replicate MAX_FDS None)) []) as (ws & k' & E & Hc' & Ht').
  - rewrite app_nil_r. apply (counted_replace k t fds); try done.
    + split; [by rewrite length_replicate|]. by apply Forall_replicate.
    + apply (Hd true 0%nat).
    + destruct (Hd true 0%nat) as (_ & _ & Hll). rewrite Hlen in Hll. unfold MAX_FDS in Hll. lia.
    + intros rd id. rewrite count_in_none. symmetry. apply (Hd rd id).
  - exists ws, k'. split; [done|]. split; [done|]. rewrite Ht'. cbn [tables set_table].
    apply list_lookup_insert_eq. by eapply lookup_lt_Some.
Qed.

Lemma linux_dup_spec k (t : nat) (fds : Fds) (oldfd : nat) :
  counted [] k → tables k !! t = Some fds →
  ∃ r k', linux_dup k t oldfd = Ret (r, k') ∧ counted [] k'.
Proof.
  intros Hc Ht. pose proof (counted_fds _ _ _ _ Hc Ht) as Hok. unfold linux_dup, table. rewrite Ht. cbn [exec_bind].
  destruct (first_closed fds 0 MAX_FDS) as [c|] eqn:Hf; [|by eexists _, _].
  apply first_closed_spec in Hf as [Hg Hlt]. pose proof (closed_slot fds c Hok ltac:(lia) Hg) as Hslot.
  unfold dup. destruct Hok as [Hlen Hall]. rewrite Hlen, (proj2 (Nat.leb_gt _ _)) by lia.
  destruct (get fds oldfd) as [d|] eqn:Hd; [|rewrite set_table_id by done; by eexists _, _].
  pose proof Hd as [Hd' Hv]%get_Some.
  assert (get (<[c := Some d]> fds) oldfd = Some d) as ->.
  { apply get_Some. split; [|done]. rewrite list_lookup_insert_ne; [done|]. intros ->. congruence. }
  destruct (store_copy k t c fds None d t oldfd fds Hc Ht Hslot) as (p & -> & Hc'); try done.
  by eexists _, _.
Qed.

Lemma fcntl_dupfd_spec k (t : nat) (fds : Fds) (fd : nat) (arg : Z) :
  counted [] k → tables k !! t = Some fds →
  ∃ r k', fcntl_dupfd k t fd arg = Ret (r, k') ∧ counted [] k'.
Proof.
  intros Hc Ht. pose proof (counted_fds _ _ _ _ Hc Ht) as Hok. unfold fcntl_dupfd, table. rewrite Ht. cbn [exec_bind].
  set (m := Z.to_nat _). destruct (get fds fd) as [d|] eqn:Hd; [|by eexists _, _].
  destruct (first_closed fds m (MAX_FDS - m)) as [c|] eqn:Hf; [|by eexists _, _].
  apply first_closed_spec in Hf as [Hg Hlt]. assert (c < MAX_FDS)%nat as Hc32 by lia.
  pose proof (closed_slot fds c Hok Hc32 Hg) as Hslot. apply get_Some in Hd as [Hd _].
  destruct (store_copy k t c fds None d t fd fds Hc Ht Hslot) as (p & -> & Hc'); try done.
  rewrite set_fd_insert by done. by eexists _, _.
Qed.

(** Onto a descriptor that is not a pipe end. *)
Lemma sys_dup2_spec k (t : nat) (fds : Fds) (o n : Z) :
  counted [] k → tables k !! t = Some fds →
  (∀ d, get fds (Z.to_nat n) = Some d → is_pipe (fd_type d) = false) →
  ∃ r k', sys_dup2 k t o n = Ret (r, k') ∧ counted [] k'.
Proof.
  intros Hc Ht Hn. pose proof (counted_fds _ _ _ _ Hc Ht) as Hok. unfold sys_dup2, table.
  destruct (bad_fd o || bad_fd n) eqn:Hb; [by eexists _, _|]. apply orb_false_iff in Hb as [_ Hb].
  apply bad_fd_false in Hb as [_ Hb]. destruct (o =? n); [by eexists _, _|]. rewrite Ht. cbn [exec_bind].
  destruct (get fds (Z.to_nat o)) as [d|] eqn:Hd; [|by eexists _, _]. apply get_Some in Hd as [Hd _].
  destruct (fds_ok_lookup fds (Z.to_nat n) Hok) as [Hslot|[? _]]; [|lia].
  destruct (store_copy k t (Z.to_nat n) fds (get fds (Z.to_nat n)) d t (Z.to_nat o) fds Hc Ht Hslot)
    as (p & -> & Hc'); try done.
  - intros rd id. destruct (get fds (Z.to_nat n)) as [d0|] eqn:E; [|done]. specialize (Hn d0 eq_refl).
    unfold slot_end. by destruct (fd_type d0).
  - rewrite set_fd_insert by done. by eexists _, _.
Qed.

Lemma count_alloc (fds : Fds) (id : nat) (r : bool) :
  fds_ok fds →
  match alloc_pipe_fd fds id r with
  | (Some _, fds') => fds_ok fds' ∧
      ∀ rd i, Z.of_nat (count_in rd i fds') = Z.of_nat (count_in rd i fds) + same_end r rd id i
  | (None, fds') => fds' = fds
  end.
Proof.
  intros Hok. unfold alloc_pipe_fd. set (mk := fun i => mkFd _ _ _ _ _ _ i).
  assert (∀ i, desc_ok (mk i)) as Hmk by (intros i; by destruct r).
  destruct (fill_free_spec mk fds 0) as [[_ ->]|(c & Hc & Hfree & _ & ->)]; [done|]. cbn [Nat.add].
  split; [apply fds_ok_insert; [done|apply Hmk]|]. intros rd i.
  assert (fds !! c = Some None) as Hslot.
  { destruct (fds !! c) as [[d|]|] eqn:E; [|done|done]. destruct (fds_ok_get _ _ _ Hok E) as [Hv _].
    simpl in Hfree. rewrite Hv in Hfree. done. }
  pose proof (sum_insert (slot_end rd i) fds c None (Some (mk c)) Hslot) as E. unfold count_in.
  assert (Z.of_nat (slot_end rd i (Some (mk c))) = same_end r rd id i) as E2.
  { unfold slot_end, same_end, mk. destruct r, rd; simpl; repeat case_bool_decide; naive_solver. }
  change (slot_end rd i None) with 0%nat in E. lia.
Qed.

Lemma alloc_pipe_refs (p p' : Pipe.Table) (id : nat) :
  Pipe.table_ok p → Pipe.alloc_pipe p = (Some id, p') →
  ∀ rd i, refs p' rd i = refs p rd i + same_end true rd id i + same_end false rd id i.
Proof.
  intros Hok Ea rd i. pose proof (Pipe.alloc_pipe_spec p Hok) as [_ Ha]. rewrite Ea in Ha. cbn [fst snd] in Ha.
  destruct Ha as [Hnone _]. pose proof Hok as (Hlt & Hlr & Hs).
  assert (id < length (Pipe.PIPE_REFS p))%nat as Hid by (apply lookup_lt_Some in Hnone; lia).
  destruct (lookup_lt_is_Some_2 (Pipe.PIPE_REFS p) id) as [[r w] Hrw]; [done|].
  destruct (Hs _ _ _ Hnone Hrw) as (_ & _ & Hr & Hw). cbn [fst snd] in Hr, Hw. subst r w.
  unfold Pipe.alloc_pipe in Ea. destruct (Pipe.first_free _ _); simplify_eq.
  rewrite refs_insert by done. unfold same_end. case_decide as Hi.
  - subst i. unfold refs. rewrite Hrw. destruct rd; repeat case_bool_decide; naive_solver.
  - rewrite !bool_decide_eq_false_2 by naive_solver. lia.
Qed.

Lemma sys_pipe_spec k (t : nat) (fds : Fds) (ptr r : Z) (st : list (Z * list Z)) k' :
  counted [] k → tables k !! t = Some fds →
  sys_pipe k t ptr = Ret (r, st, k') → r ≠ ERR_NOMEM → counted [] k'.
Proof.
  intros Hc Ht Hs Hr. pose proof (counted_fds _ _ _ _ Hc Ht) as Hfds. unfold sys_pipe, table in Hs.
  destruct (ptr =? 0); [by simplify_eq|]. pose proof Hc as (Hok & Hf & _ & Hcount & Hl & _).
  destruct (Pipe.alloc_pipe_spec (pipes k) Hok) as [Hok' Ha].
  destruct (Pipe.alloc_pipe (pipes k)) as [[id|] p] eqn:Ea; cbn [fst snd] in *; [|by simplify_eq].
  rewrite Ht in Hs. cbn [exec_bind] in Hs.
  assert (∀ k1, (let! x := Pipe.close_read p id in let! y := Pipe.close_write (snd x) id in
      Ret (ERR_NOMEM, [], set_pipes k1 (snd y))) ≠ Ret (r, st, k')) as Hfail.
  { intros k1. destruct (Pipe.close_read p id) as [x|]; cbn [exec_bind]; [|done].
    destruct (Pipe.close_write (snd x) id); cbn [exec_bind]; [|done]. intros [= ? _ _]. congruence. }
  pose proof (count_alloc fds id true Hfds) as H1.
  destruct (alloc_pipe_fd fds id true) as [[rf|] fds1];
    [|destruct (alloc_pipe_fd fds1 id false) as [[wf|] fds2]; by apply Hfail in Hs].
  destruct H1 as [Hfds1 H1]. pose proof (count_alloc fds1 id false Hfds1) as H2.
  destruct (alloc_pipe_fd fds1 id false) as [[wf|] fds2]; [|by apply Hfail in Hs].
  destruct H2 as [Hfds2 H2]. simplify_eq. unfold counted. cbn [tables pipes set_table set_pipes].
  split; [done|]. split; [by apply Forall_insert|]. split; [done|].
  split; [|rewrite length_insert; split; [done|simpl; lia]]. intros rd i.
  pose proof (sum_insert (count_in rd i) (tables k) t fds fds2 Ht) as E. unfold count.
  specialize (H1 rd i). specialize (H2 rd i). specialize (Hcount rd i). unfold count in Hcount.
  assert (refs p rd i = refs (pipes k) rd i + same_end true rd id i + same_end false rd id i) as ->.
  { destruct Ha as [Hnone _]. by apply (alloc_pipe_refs _ _ _ Hok Ea). }
  cbn [count_in sum_list_with] in *. lia.
Qed.

Lemma counted_same k k' : counted [] k → tables k' = tables k → pipes k' = pipes k → counted [] k'.
Proof. intros Hc E1 E2. unfold counted. by rewrite E1, E2. Qed.

Lemma linux_fcntl_spec y b k (t : nat) (fds : Fds) (fd : nat) (cmd arg : Z) (raw : list Z) r st k' :
  counted [] k → tables k !! t = Some fds →
  linux_fcntl y b k t fd cmd arg raw = Ret (r, st, k') → counted [] k'.
Proof.
  intros Hc Ht Hs. unfold linux_fcntl, fcntl_lock, lock_inode, table in Hs.
  destruct ((cmd =? 0) || (cmd =? 1030)).
  { destruct (fcntl_dupfd_spec k t fds fd arg Hc Ht) as (x & k1 & E & Hc'). rewrite E in Hs.
    cbn [exec_bind fst snd] in Hs. by simplify_eq. }
  rewrite Ht in Hs. cbn [exec_bind] in Hs.
  destruct (cmd =? 1); [by simplify_eq|]. destruct (cmd =? 2); [by simplify_eq|].
  destruct (cmd =? 3); [cbn [fst snd] in Hs; by simplify_eq|].
  destruct (cmd =? 4).
  { unfold get_mut in Hs. destruct (get fds fd) as [d|] eqn:Hd; cbn [exec_bind fst snd] in Hs; simplify_eq.
    - apply get_Some in Hd as [Hd _]. pose proof (counted_fds _ _ _ _ Hc Ht) as Hok.
      apply (counted_replace k t fds); try done; [|simpl; lia|].
      + apply fds_ok_insert; [done|]. apply (fds_ok_get _ _ _ Hok Hd).
      + intros rd id. match goal with |- context [<[fd := Some ?x]> fds] => set (d' := x) end.
        pose proof (sum_insert (slot_end rd id) fds fd (Some d) (Some d') Hd).
        unfold count_in. cbn [sum_list_with]. change (slot_end rd id (Some d')) with (slot_end rd id (Some d)) in *. lia.
    - by rewrite set_table_id. }
  destruct (_ || _ || _); [|by simplify_eq]. destruct (arg =? 0); [by simplify_eq|].
  destruct (FileLock.from_bytes raw); cbn [exec_bind] in Hs; [|done].
  destruct (match get fds fd with Some _ => _ | None => _ end) as [ino|]; [|by simplify_eq].
  destruct (FileLock.fcntl_lock_op _ _ _ _ _ _ _) as [[rv out] ls]. simplify_eq. by eapply counted_same.
Qed.

Lemma new_table_counted k (fds : Fds) :
  counted [] k → fds_ok fds → (∀ rd id, count_in rd id fds = 0%nat) → Z.of_nat (length (tables k)) < 2 ^ 32 - 1 →
  counted [] (mkKernel (tables k ++ [fds]) (pipes k) (locks k) (epolls k) (vfs k)).
Proof.
  intros (Hok & Hf & _ & Hcount & _) Hfds Hz Hl. unfold counted. cbn [pipes tables]. splits; try done.
  - apply Forall_app. by split; [|constructor].
  - intros rd id. rewrite Hcount. unfold count. rewrite sum_list_with_app. cbn [sum_list_with]. rewrite Hz. lia.
  - rewrite length_app. simpl. lia.
  - simpl. lia.
Qed.

(** A descriptor of table [t] is copied into a slot of another table that is
    not a pipe end. *)
Lemma redirect_spec k (t c slot : nat) (fds cf : Fds) (is_read : bool) (n : Z) k' :
  counted [] k → tables k !! t = Some fds → tables k !! c = Some cf → t ≠ c → (slot < MAX_FDS)%nat →
  (∀ rd id, slot_end rd id (get cf slot) = 0%nat) →
  (∀ d, get fds (Z.to_nat n) = Some d → fd_type d ≠ if is_read then PipeWrite else PipeRead) →
  redirect k c slot is_read (if 0 <=? n then get fds (Z.to_nat n) else None) = Ret k' →
  counted [] k' ∧ tables k' !! t = Some fds ∧
  ∃ cf', tables k' !! c = Some cf' ∧ ∀ j, j ≠ slot → cf' !! j = cf !! j.
Proof.
  intros Hc Ht Hcf Htc Hslot Hend Hty Hs. pose proof (counted_fds _ _ _ _ Hc Ht) as Hok.
  pose proof (counted_fds _ _ _ _ Hc Hcf) as Hokc. unfold redirect, table in Hs.
  destruct (if 0 <=? n then get fds (Z.to_nat n) else None) as [d|] eqn:Hd;
    [|simplify_eq; split; [done|]; split; [done|]; by exists cf].
  destruct (0 <=? n); [|done]. specialize (Hty d Hd). apply get_Some in Hd as [Hd _].
  destruct (fds_ok_lookup cf slot Hokc) as [Hlk|[? _]]; [|lia].
  destruct (store_copy k c slot cf (get cf slot) d t (Z.to_nat n) fds) as (p & Hp & Hc'); try done.
  rewrite Hcf in Hs.
  assert (match pipe_id d with
          | Some id => if is_read then Pipe.inc_read (pipes k) id else Pipe.inc_write (pipes k) id
          | None => Ret (pipes k)
          end = inc_desc (pipes k) d) as E.
  { unfold inc_desc, inc_pipe_ref_for. destruct (desc_end d (fds_ok_get _ _ _ Hok Hd)) as
      [(rd & id & -> & Ht0 & _)|(-> & _)]; [|done]. rewrite Ht0 in *. by destruct rd, is_read. }
  rewrite E, Hp in Hs. cbn [exec_bind] in Hs. rewrite set_fd_insert in Hs by done. simplify_eq.
  split; [done|]. cbn [tables set_table set_pipes]. split; [by rewrite list_lookup_insert_ne|].
  eexists. split; [apply list_lookup_insert_eq; by eapply lookup_lt_Some|].
  intros j Hj. by rewrite list_lookup_insert_ne.
Qed.

(** A child's fresh table gets at most a read end as stdin and a write end as
    stdout. *)
Lemma apply_redirections_spec k (t c : nat) (fds : Fds) (i o : Z) k' :
  counted [] k → tables k !! t = Some fds → tables k !! c = Some new → t ≠ c →
  (∀ d, get fds (Z.to_nat i) = Some d → fd_type d ≠ PipeWrite) →
  (∀ d, get fds (Z.to_nat o) = Some d → fd_type d ≠ PipeRead) →
  apply_redirections k t c i o = Ret k' → counted [] k'.
Proof.
  intros Hc Ht Hcn Htc Hi Ho Hs. unfold apply_redirections in Hs.
  destruct ((0 <=? i) || (0 <=? o)); [|by simplify_eq].
  assert (table k t = Ret fds) as Etab by (unfold table; by rewrite Ht). rewrite Etab in Hs. cbn [exec_bind] in Hs.
  destruct (redirect k c 0 true _) as [k1|] eqn:E1; [|done]. cbn [exec_bind] in Hs.
  destruct (redirect_spec k t c 0 fds new true i k1) as (Hc1 & Ht1 & cf & Hcf & Hrest);
    try done; [unfold MAX_FDS; lia|].
  destruct (redirect_spec k1 t c 1 fds cf false o k') as (Hc2 & _); try done; [unfold MAX_FDS; lia|].
  intros rd id. unfold get. rewrite (Hrest 1%nat) by done. done.
Qed.

(** ** Histories *)

Definition kernel_init (v : Vfs.VfsState F) : Kernel := mkKernel [new] Pipe.table_init [] Epoll.statics_init v.

(** The descriptor calls, with the side conditions under which they keep the
    counts: dup2 does not overwrite a pipe end, pipe does not run out of
    descriptors half way, a forked table holds no pipe end, and an exec
    redirection gives standard input no write end and standard output no read
    end. *)
Inductive kstep : Kernel → Kernel → Prop :=
| k_pipe k t ptr r st k' : sys_pipe k t ptr = Ret (r, st, k') → r ≠ ERR_NOMEM → kstep k k'
| k_dup k t o r k' : linux_dup k t o = Ret (r, k') → kstep k k'
| k_dup2 k t fds o n r k' :
    tables k !! t = Some fds → (∀ d, get fds (Z.to_nat n) = Some d → is_pipe (fd_type d) = false) →
    sys_dup2 k t o n = Ret (r, k') → kstep k k'
| k_fcntl y b k t fd cmd arg raw r st k' : linux_fcntl y b k t fd cmd arg raw = Ret (r, st, k') → kstep k k'
| k_close k t fd r ws k' : sys_close k t fd = Ret (r, ws, k') → kstep k k'
| k_exit k t ws k' : cleanup_current_process_fds k t = Ret (ws, k') → kstep k k'
| k_clone k t flags c k' :
    Z.of_nat (length (tables k)) < 2 ^ 32 - 1 → clone_fd_table k t flags = Ret (c, k') → kstep k k'
| k_fork k t fds c k' :
    Z.of_nat (length (tables k)) < 2 ^ 32 - 1 → tables k !! t = Some fds →
    (∀ rd id, count_in rd id fds = 0%nat) → fork_fd_table k t = Ret (c, k') → kstep k k'
| k_redirect k t c fds i o k' :
    tables k !! t = Some fds → tables k !! c = Some new → t ≠ c →
    (∀ d, get fds (Z.to_nat i) = Some d → fd_type d ≠ PipeWrite) →
    (∀ d, get fds (Z.to_nat o) = Some d → fd_type d ≠ PipeRead) →
    apply_redirections k t c i o = Ret k' → kstep k k'
| k_table k t fds fds' :
    tables k !! t = Some fds → fdstep fds fds' → (∀ rd id, count_in rd id fds' = count_in rd id fds) →
    kstep k (set_table k t fds')
| k_pipe_io k p :
    Pipe.tstep (pipes k) p → Pipe.PIPE_REFS p = Pipe.PIPE_REFS (pipes k) → kstep k (set_pipes k p).

Lemma table_Ret {A : Type} k (t : nat) (f : Fds → exec A) (x : A) :
  (let! fds := table k t in f fds) = Ret x → ∃ fds, tables k !! t = Some fds.
Proof. unfold table. destruct (tables k !! t); [eauto|done]. Qed.

Lemma kstep_counted k k' : counted [] k → kstep k k' → counted [] k'.
Proof.
  intros Hc Hst. revert Hc. destruct Hst as [k t ptr r st k' E Hr|k t o r k' E|k t fds o n r k' Ht Hn E
    |y b k t fd cmd arg raw r st k' E|k t fd r ws k' E|k t ws k' E|k t fl c k' Hl E|k t fds c k' Hl Ht Hz E
    |k t c fds i o k' Ht Hcn Htc Hi Ho E|k t fds fds' Ht Hst Heq|k p Hp Hrefs]; intros Hc.
  - pose proof E as E0. unfold sys_pipe in E0. destruct (ptr =? 0); [by simplify_eq|].
    destruct (Pipe.alloc_pipe (pipes k)) as [[id|] p] eqn:Ea; [|by simplify_eq].
    apply table_Ret in E0 as [fds Ht]. by eapply (sys_pipe_spec k t fds).
  - pose proof E as [fds Ht]%table_Ret. destruct (linux_dup_spec k t fds o Hc Ht) as (? & ? & E' & ?).
    rewrite E' in E. by simplify_eq.
  - destruct (sys_dup2_spec k t fds o n Hc Ht Hn) as (? & ? & E' & ?). rewrite E' in E. by simplify_eq.
  - destruct (tables k !! t) as [fds|] eqn:Ht; [by eapply linux_fcntl_spec|].
    unfold linux_fcntl, fcntl_dupfd, fcntl_lock, lock_inode, table in E. rewrite Ht in E. cbn [exec_bind] in E.
    repeat (match type of E with (if ?b then _ else _) = _ => destruct b end; try done; try by simplify_eq).
    destruct (FileLock.from_bytes raw); done.
  - pose proof E as E0. unfold sys_close in E0. destruct (bad_fd fd); [by simplify_eq|].
    apply table_Ret in E0 as [fds Ht]. destruct (sys_close_spec k t fds fd Hc Ht) as (? & ? & ? & E' & ?).
    rewrite E' in E. by simplify_eq.
  - pose proof E as [fds Ht]%table_Ret. destruct (cleanup_process_spec k t fds Hc Ht) as (? & ? & E' & ? & _).
    rewrite E' in E. by simplify_eq.
  - pose proof E as [fds Ht]%table_Ret. unfold clone_fd_table, table in E. rewrite Ht in E. cbn [exec_bind] in E.
    destruct (negb _); simplify_eq; [done|]. apply new_table_counted; [done|apply new_fds_ok|done|done].
  - unfold fork_fd_table, table in E. rewrite Ht in E. cbn [exec_bind] in E. simplify_eq.
    apply new_table_counted; try done. by eapply counted_fds.
  - exact (apply_redirections_spec k t c fds i o k' Hc Ht Hcn Htc Hi Ho E).
  - apply (counted_replace k t fds); try done; [|simpl; lia|].
    + eapply fdstep_ok; [|done]. by eapply counted_fds.
    + intros rd id. rewrite Heq. cbn [count_in sum_list_with]. lia.
  - pose proof Hc as (Hok & Hf & Hp0 & Hcount & Hl & Hlen). unfold counted. cbn [pipes tables set_pipes].
    splits; try assumption; [by eapply Pipe.tstep_ok|]. intros rd id. rewrite <- Hcount. unfold refs. by rewrite Hrefs.
Qed.

Lemma init_counted (v : Vfs.VfsState F) : counted [] (kernel_init v).
Proof.
  unfold counted. cbn [pipes tables kernel_init]. splits.
  - apply Pipe.table_init_ok.
  - constructor; [apply new_fds_ok|done].
  - done.
  - intros rd id. unfold refs. cbn [Pipe.table_init Pipe.PIPE_REFS].
    destruct (replicate Pipe.MAX_PIPES (0, 0) !! id) as [[r w]|] eqn:E; [|done].
    apply lookup_replicate in E as [[= -> ->] _]. by destruct rd.
  - simpl. lia.
  - simpl. lia.
Qed.

(** C11: Pipe reference counts are descriptor counts, as long as none of the
    calls below that break them is made.  Take any history, over the tables of
    all processes, of pipe, dup, dup2, fcntl, close, clone, fork, exec
    redirection, exit and pipe I/O in which no dup2 overwrites a pipe end, no
    forked table holds a pipe end, no pipe call returns ERR_NOMEM, and no write
    end is redirected to standard input or read end to standard output.  Then the
    counters of each pipe are the numbers of open descriptors of its two ends, a
    pipe slot is in use exactly while a descriptor refers to it, a reader sees
    end of file exactly when no write descriptor is left anywhere, and a writer
    sees EPIPE exactly when no read descriptor is left. *)
Theorem pipe_refs_count_descriptors (v : Vfs.VfsState F) k (id : nat) (o : option Pipe.Pipe) :
  reachable (eq (kernel_init v)) kstep k → Pipe.PIPE_TABLE (pipes k) !! id = Some o →
  let readers := count true id (tables k) in
  let writers := count false id (tables k) in
  Pipe.PIPE_REFS (pipes k) !! id = Some (Z.of_nat readers, Z.of_nat writers) ∧
  (o = None ↔ readers = 0%nat ∧ writers = 0%nat) ∧
  ∀ p, o = Some p →
    (Pipe.write_closed p = true ↔ writers = 0%nat) ∧ (Pipe.read_closed p = true ↔ readers = 0%nat).
Proof.
  intros Hr Ho readers writers. assert (counted [] k) as (Hok & _ & _ & Hcount & _).
  { revert Hr. apply reachable_invariant; [intros s <-; apply init_counted|]. intros; by eapply kstep_counted. }
  pose proof Hok as (Hlt & Hlr & Hs).
  destruct (lookup_lt_is_Some_2 (Pipe.PIPE_REFS (pipes k)) id) as [[r w] Hrw].
  { apply lookup_lt_Some in Ho. lia. }
  pose proof (Hcount true id) as Hc1. pose proof (Hcount false id) as Hc2. unfold refs in Hc1, Hc2.
  rewrite Hrw in Hc1, Hc2. cbn [count_in sum_list_with] in Hc1, Hc2. fold readers in Hc1. fold writers in Hc2.
  assert (r = Z.of_nat readers) as -> by lia. assert (w = Z.of_nat writers) as -> by lia.
  split; [done|]. destruct (Hs _ _ _ Ho Hrw) as (_ & _ & Hslot). cbn [fst snd] in Hslot. destruct o as [p|].
  - destruct Hslot as (_ & Hrc & Hwc & Hnb). split; [split; [done|lia]|]. intros p' [= <-].
    rewrite Hrc, Hwc. lia.
  - split; [|done]. split; [intros _; lia|done].
Qed.
End invariant.

(** ** Runs *)

Abbreviation RK := (@Kernel RamFs.RamFileSystem).

Definition run {A B : Type} (m : exec A) (f : A → B) (d : B) : B :=
  match m with Ret x => f x | Panic => d end.

Definition k_init : RK := kernel_init Vfs.new_internal.

(** After pipe(): descriptors 3 and 4 of table 0. *)
Definition k_piped : RK := run (sys_pipe k_init 0 4096) snd k_init.

(** What is left of a pipe: its counters, the write-closed flag of the pipe in
    the slot, and the descriptors that refer to it. *)
Definition pipe_view (k : RK) (id : nat) : option (Z * Z) * option bool * (nat * nat) :=
  (Pipe.PIPE_REFS (pipes k) !! id,
   match Pipe.PIPE_TABLE (pipes k) !! id with Some (Some p) => Some (Pipe.write_closed p) | _ => None end,
   (count true id (tables k), count false id (tables k))).

Lemma pipe_refs_count_descriptors_witness :
  let k1 := run (linux_dup k_piped 0 3) snd k_piped in
  let k2 := run (sys_close k1 0 4) snd k1 in
  let p := snd (Pipe.close_write_end Pipe.new) in
  Pipe.PIPE_TABLE (pipes k2) !! 0%nat = Some (Some p) ∧
  Pipe.PIPE_REFS (pipes k2) !! 0%nat = Some (2, 0) ∧ (Pipe.write_closed p = true ↔ 0%nat = 0%nat).
Proof.
  intros k1 k2 p.
  assert (reachable (eq k_init) kstep k2) as Hr.
  { apply (reach_step _ _ k1); [|apply (k_close k1 0 4 0 []); vm_compute; reflexivity].
    apply (reach_step _ _ k_piped); [|apply (k_dup k_piped 0 3 5); vm_compute; reflexivity].
    apply (reach_step _ _ k_init); [by apply reach_init|].
    apply (k_pipe k_init 0 4096 0 [(4096, le_bytes 4 3); (4100, le_bytes 4 4)]); [vm_compute; reflexivity|discriminate]. }
  assert (Pipe.PIPE_TABLE (pipes k2) !! 0%nat = Some (Some p)) as Ho by (vm_compute; reflexivity).
  split; [exact Ho|].
  destruct (pipe_refs_count_descriptors Vfs.new_internal k2 0 (Some p) Hr Ho) as (Hrefs & _ & Hclosed).
  split; [exact Hrefs|]. apply (proj1 (Hclosed p eq_refl)).
Defined.

(** Three calls break the counts.  (1) dup2 onto an open write end does not
    close it, although its comment says so: the pipe keeps a write reference
    that no descriptor holds, so its reader never sees end of file.  (2) fork
    copies the table without counting: when the child has closed its two
    copies, the pipe is gone although the parent still holds both ends.  (3)
    pipe with a single free descriptor fails, frees the pipe, and leaves the
    read descriptor open on the freed slot. *)
Theorem descriptor_counts_broken :
  pipe_view k_piped 0 = (Some (1, 1), Some false, (1%nat, 1%nat)) ∧
  (let k1 := run (sys_dup2 k_piped 0 1 4) snd k_init in
   pipe_view k1 0 = (Some (1, 1), Some false, (1%nat, 0%nat))) ∧
  (let k1 := run (fork_fd_table k_piped 0) snd k_init in
   let k2 := run (sys_close k1 1 3) snd k_init in
   let k3 := run (sys_close k2 1 4) snd k_init in
   pipe_view k3 0 = (Some (0, 0), None, (1%nat, 1%nat))) ∧
  (let k0 : RK := mkKernel [FdTable.new] Pipe.table_init [] Epoll.statics_init Vfs.new_internal in
   let fds := list.take 3 FdTable.new ++ replicate 28 (Some (stdio "tty" 0)) ++ [None] in
   let k1 : RK := set_table k0 0 fds in
   let r := sys_pipe k1 0 4096 in
   run r (fun x => fst (fst x)) 0 = ERR_NOMEM ∧
   pipe_view (run r snd k1) 0 = (Some (0, 0), None, (1%nat, 0%nat))).
Proof. split; [|split; [|split]]; vm_compute; try split; reflexivity. Qed.
(** Two processes with the file of inode 7 open: as descriptor 3 of table 0,
    and as descriptor [n] of table 1. *)
Definition two_openers (n : nat) : RK :=
  let file := Vfs.mkOpenFile 0 7 0 O_RDWR in
  let desc v := mkFd (Path.bytes "db") 0 O_RDWR true (VfsFile v) None 0 in
  mkKernel [set_fd new 3 (desc 0%nat); set_fd new n (desc 1%nat)] Pipe.table_init []
    (Epoll.set_instances Epoll.statics_init [(3%nat, [])])
    (Vfs.mkVfs [] [Some file; Some file]).

(** F_SETLK of an exclusive lock on bytes 0 to 9: result and state. *)
Definition lock10 (k : RK) (t fd : nat) : Z * RK :=
  run (linux_fcntl id id k t fd FileLock.F_SETLK 4096 (FileLock.to_bytes (FileLock.mkFlock FileLock.F_WRLCK 0 0 10 0)))
    (fun x => (fst (fst x), snd x)) (0, k).

(** Locks and epoll instances are keyed by descriptor number alone, not by
    process.  Two processes that open one file under different numbers exclude
    each other (the second gets EAGAIN), but under the same number both are
    granted an exclusive lock on the same bytes; and when the second process
    closes its descriptor, the first one loses its lock and the epoll instance
    it has under that number. *)
Theorem fd_numbers_collide :
  (let '(r1, k1) := lock10 (two_openers 4) 0 3 in let '(r2, k2) := lock10 k1 1 4 in
   (r1, r2, length (locks k2)) = (0, -11, 1%nat)) ∧
  (let '(r1, k1) := lock10 (two_openers 3) 0 3 in let '(r2, k2) := lock10 k1 1 3 in
   (r1, r2, length (locks k2)) = (0, 0, 2%nat) ∧
   let k3 := run (sys_close k2 1 3) snd k2 in
   locks k3 = [] ∧ Epoll.EPOLL_INSTANCES (epolls k2) = [(3%nat, [])] ∧ Epoll.EPOLL_INSTANCES (epolls k3) = [] ∧
   get (default [] (tables k3 !! 0%nat)) 3 ≠ None).
Proof. split; vm_compute; [reflexivity|]. repeat split; discriminate. Qed.
End FdSys.
