(* ===== verification/Futex.v ===== *)
(** Futex: wait queues keyed by address space and address
    (kernel/src/syscall/mod.rs, "Futex support").

    [futex_wait] takes what other tasks do to the queues while it is blocked as
    an argument.  The last section runs the calls against the scheduler model:
    [futex_wake] reaches [Scheduler.wake_task], a wait blocks with
    [Scheduler.schedule_block]. *)

From stdpp Require Import base numbers list gmap sets.
From S2P Require Import Prelude ReadyQueue Scheduler.
Local Open Scope Z_scope.
Local Open Scope rust_scope.

Module Futex.

Record FutexWaiter := mkWaiter { proc_idx : nat; woken : bool }.

(** (page-table root, address) *)
Abbreviation FutexKey := (Z * Z)%type.

(** [FUTEX_QUEUES] *)
Abbreviation Queues := (gmap (Z * Z) (list FutexWaiter)).

Definition futex_key (root uaddr : Z) : FutexKey := (root, uaddr).

Definition cleanup_futex_waiters_for_processes (q : Queues) (procs : list nat) : Queues :=
  if bool_decide (procs = []) then q
  else filter (fun e => e.2 ≠ []) (filter (fun w => proc_idx w ∉ procs) <$> q).

(** [timespec] is None for a null pointer, else the seconds and nanoseconds read
    from user memory. *)
Definition futex_timeout_ms (timespec : option (Z * Z)) : option Z :=
  match timespec with
  | None => None
  | Some (sec, nsec) =>
      if (sec <? 0) || (nsec <? 0) || (1000000000 <=? nsec) then Some 0
      else
        let sec_ms := Z.min USIZE_MAX (sec * 1000) in
        let nsec_ms := (nsec +! 999999) / 1000000 in
        Some (saturating_add sec_ms nsec_ms)
  end.

(** [queues.entry(key).or_insert_with(Vec::new).push(..)] *)
Definition enqueue (q : Queues) (key : FutexKey) (p : nat) : Queues :=
  <[key := default [] (q !! key) ++ [mkWaiter p false]]> q.

(** Step 4 of [futex_wait]: drop our own entry; was it still there? *)
Definition dequeue_self (q : Queues) (key : FutexKey) (p : nat) : bool * Queues :=
  match q !! key with
  | Some queue =>
      let still_waiting := existsb (fun w => (proc_idx w =? p)%nat) queue in
      let queue' := filter (fun w => proc_idx w ≠ p) queue in
      (still_waiting, if bool_decide (queue' = []) then delete key q else <[key := queue']> q)
  | None => (false, q)
  end.

Definition futex_wait (block : Queues → Queues) (q : Queues) (root uaddr : Z) (p : nat)
    (current_val expected_val : Z) (timeout_ms : option Z) : Z * Queues :=
  if negb (current_val =? expected_val) then (-11, q)
  else
    let key := futex_key root uaddr in
    let q1 := enqueue q key p in
    let wait q1 :=
      let '(still_waiting, q2) := dequeue_self (block q1) key p in
      (if (match timeout_ms with Some _ => true | None => false end) && still_waiting then -110 else 0, q2) in
    match timeout_ms with
    | Some ms => if ms =? 0 then (-110, cleanup_futex_waiters_for_processes q1 [p]) else wait q1
    | None => wait q1
    end.

(** The loop of [futex_wake]: wake the first [n] waiters not yet woken. *)
Fixpoint wake_loop (queue : list FutexWaiter) (count max_count : Z) : Z * list nat * list FutexWaiter :=
  match queue with
  | [] => (count, [], [])
  | w :: queue' =>
      if negb (woken w) && (count <? max_count) then
        let '(c, ps, r) := wake_loop queue' (count + 1) max_count in
        (c, proc_idx w :: ps, mkWaiter (proc_idx w) true :: r)
      else
        let '(c, ps, r) := wake_loop queue' count max_count in
        (c, ps, w :: r)
  end.

(** Also returns the tasks passed to [wake_task]. *)
Definition futex_wake (q : Queues) (root uaddr max_count : Z) : Z * list nat * Queues :=
  let key := futex_key root uaddr in
  match q !! key with
  | Some queue =>
      let '(count, ps, queue1) := wake_loop queue 0 max_count in
      let queue2 := filter (fun w => woken w = false) queue1 in
      (count, ps, if bool_decide (queue2 = []) then delete key q else <[key := queue2]> q)
  | None => (0, [], q)
  end.

Definition FUTEX_WAIT : Z := 0.
Definition FUTEX_WAKE : Z := 1.
Definition FUTEX_WAIT_BITSET : Z := 9.
Definition FUTEX_WAKE_BITSET : Z := 10.

(** [current_val] is the word at [addr]. *)
Definition linux_futex_impl (block : Queues → Queues) (q : Queues) (root : Z) (p : nat) (current_val : Z)
    (addr op val : Z) (timespec : option (Z * Z)) : Z * list nat * Queues :=
  let base_op := Z.land op (not64 (Z.lor 128 256)) in
  if (base_op =? FUTEX_WAIT) || (base_op =? FUTEX_WAIT_BITSET) then
    if addr =? 0 then (-1, [], q)
    else
      let '(r, q') := futex_wait block q root addr p current_val (u32 val) (futex_timeout_ms timespec) in
      (r, [], q')
  else if (base_op =? FUTEX_WAKE) || (base_op =? FUTEX_WAKE_BITSET) then
    if addr =? 0 then (-1, [], q) else futex_wake q root addr (u32 val)
  else (0, [], q).

Definition linux_futex (block : Queues → Queues) (q : Queues) (root : Z) (p : nat) (current_val : Z)
    (addr op val : Z) : Z * list nat * Queues :=
  linux_futex_impl block q root p current_val addr op val None.

(** ** Queues *)

(** No queue is empty and no waiter is left marked. *)
Definition queues_ok (q : Queues) : Prop :=
  ∀ key queue, q !! key = Some queue → queue ≠ [] ∧ Forall (fun w => woken w = false) queue.

(** The processes waiting under a key, oldest first. *)
Definition waiters (q : Queues) (key : FutexKey) : list nat := proc_idx <$> default [] (q !! key).

Lemma wake_loop_spec (queue : list FutexWaiter) : ∀ count max_count,
  Forall (fun w => woken w = false) queue → 0 <= count <= max_count →
  let n := Z.to_nat (max_count - count) in
  let k := Nat.min n (length queue) in
  ∃ r, wake_loop queue count max_count = (count + Z.of_nat k, take n (proc_idx <$> queue), r) ∧
    filter (fun w => woken w = false) r = drop n queue.
Proof.
  induction queue as [|w queue IH]; intros count max_count Hf Hc; cbn [wake_loop].
  - exists []. rewrite Nat.min_0_r, Z.add_0_r. simpl. by rewrite take_nil, drop_nil.
  - apply Forall_cons in Hf as [Hw Hf]. rewrite Hw. cbn [negb andb].
    destruct (Z.ltb_spec count max_count) as [Hlt|Hge].
    + destruct (IH (count + 1) max_count Hf ltac:(lia)) as (r & -> & Hr).
      set (m := Z.to_nat (max_count - (count + 1))) in *.
      assert (Z.to_nat (max_count - count) = S m) as -> by lia.
      exists (mkWaiter (proc_idx w) true :: r).
      split; [|rewrite filter_cons; cbn [woken]; rewrite decide_False by done; exact Hr].
      simpl. f_equal. f_equal. lia.
    + destruct (IH count max_count Hf ltac:(lia)) as (r & -> & Hr).
      assert (max_count - count = 0) as E by lia. rewrite E in *. simpl Z.to_nat in *. simpl Nat.min in *.
      eexists. split; [done|]. rewrite filter_cons, Hw, decide_True by done. rewrite Hr. done.
Qed.

Lemma existsb_proc (p : nat) (queue : list FutexWaiter) :
  existsb (fun w => (proc_idx w =? p)%nat) queue = bool_decide (p ∈ proc_idx <$> queue).
Proof.
  apply eq_bool_prop_intro. rewrite bool_decide_spec, Is_true_true, existsb_exists, list_elem_of_fmap.
  split.
  - intros (w & Hin & <-%Nat.eqb_eq). exists w. split; [done|]. by apply list_elem_of_In.
  - intros (w & -> & Hin). exists w. split; [by apply list_elem_of_In|apply Nat.eqb_refl].
Qed.

(** Futex_wake wakes the oldest waiters.  It returns the smaller of the
    requested count and the number of waiters, wakes exactly that many in the
    order they arrived, keeps the others in order, and touches no other key;
    no empty queue and no marked waiter is left behind. *)
Theorem futex_wake_fifo (q : Queues) (root uaddr n : Z) :
  queues_ok q → 0 <= n < 2 ^ 32 →
  let key := futex_key root uaddr in
  let '(count, ps, q') := futex_wake q root uaddr n in
  count = Z.min n (Z.of_nat (length (waiters q key))) ∧
  ps = take (Z.to_nat n) (waiters q key) ∧
  waiters q' key = drop (Z.to_nat n) (waiters q key) ∧
  (∀ key', key' ≠ key → q' !! key' = q !! key') ∧ queues_ok q'.
Proof.
  intros Hok Hn key. unfold futex_wake, waiters. fold key. destruct (q !! key) as [queue|] eqn:E.
  - destruct (Hok key queue E) as [Hne Hw].
    destruct (wake_loop_spec queue 0 n Hw ltac:(lia)) as (r & -> & Hr). rewrite Z.sub_0_r in *.
    change (default [] (Some queue)) with queue. rewrite length_fmap, Hr. split; [lia|]. split; [done|].
    case_bool_decide as Hd.
    + rewrite lookup_delete_eq. cbn [default]. rewrite <- fmap_drop, Hd. split; [done|].
      split; [intros; by rewrite lookup_delete_ne|].
      intros k0 q0 [_ H0]%lookup_delete_Some. by apply (Hok k0).
    + rewrite lookup_insert_eq. cbn [default]. rewrite <- fmap_drop. split; [done|].
      split; [intros; by rewrite lookup_insert_ne|].
      intros k0 q0 [[<- <-]|[_ H0]]%lookup_insert_Some; [|by apply (Hok k0)].
      split; [done|]. by apply Forall_drop.
  - rewrite E. cbn [default]. simpl. rewrite take_nil, drop_nil. split; [lia|]. done.
Qed.

Lemma futex_wake_fifo_witness :
  let q : Queues := {[ (7, 64) := [mkWaiter 5 false; mkWaiter 6 false; mkWaiter 9 false] ]} in
  let '(count, ps, q') := futex_wake q 7 64 2 in
  count = 2 ∧ ps = [5%nat; 6%nat] ∧ waiters q' (7, 64) = [9%nat].
Proof.
  intros q. destruct (futex_wake_fifo q 7 64 2) as (H1 & H2 & H3 & _).
  - intros key queue [<- <-]%lookup_singleton_Some. split; [discriminate|]. by repeat constructor.
  - lia.
  - split; [exact H1|]. split; [exact H2|exact H3].
Defined.

Lemma dequeue_self_spec (q : Queues) (key : FutexKey) (p : nat) :
  (dequeue_self q key p).1 = bool_decide (p ∈ waiters q key) ∧
  waiters (dequeue_self q key p).2 key = filter (fun x => x ≠ p) (waiters q key) ∧
  ∀ key', key' ≠ key → (dequeue_self q key p).2 !! key' = q !! key'.
Proof.
  unfold dequeue_self, waiters. destruct (q !! key) as [queue|] eqn:E.
  - change (default [] (Some queue)) with queue. rewrite existsb_proc. split; [done|].
    assert (proc_idx <$> filter (fun w => proc_idx w ≠ p) queue = filter (fun x => x ≠ p) (proc_idx <$> queue)) as Hf.
    { clear E. induction queue as [|w queue IH]; [done|]. rewrite fmap_cons, !filter_cons. repeat case_decide;
        rewrite ?fmap_cons, ?IH; done. }
    cbn [snd]. case_bool_decide as Hn.
    + rewrite lookup_delete_eq. split; [by rewrite <- Hf, Hn|]. intros. by rewrite lookup_delete_ne.
    + rewrite lookup_insert_eq. split; [exact Hf|]. intros. by rewrite lookup_insert_ne.
  - cbn [fst snd]. rewrite E. done.
Qed.

Lemma cleanup_removes (q : Queues) (procs : list nat) (key : FutexKey) (p : nat) :
  p ∈ procs → p ∉ waiters (cleanup_futex_waiters_for_processes q procs) key.
Proof.
  intros Hp. unfold cleanup_futex_waiters_for_processes, waiters. case_bool_decide; [set_solver|].
  rewrite map_lookup_filter, lookup_fmap. destruct (q !! key) as [queue|]; [|apply not_elem_of_nil].
  simpl. case_guard; [|apply not_elem_of_nil]. simpl.
  intros (w & -> & [Hw _]%list_elem_of_filter)%list_elem_of_fmap. done.
Qed.

(** A futex wait leaves no waiter behind.  Whatever other tasks do to the
    queues while the caller is blocked: with a changed value the call returns
    EAGAIN and changes nothing; otherwise, when it returns, the caller is in the
    queue of that address no more; it returns ETIMEDOUT exactly when a timeout
    was given and either it was zero or no wake-up had removed the caller, and 0
    in every other case. *)
Theorem futex_wait_leaves_no_waiter (block : Queues → Queues) (q : Queues) (root uaddr : Z) (p : nat)
    (v e : Z) (timeout : option Z) :
  let key := futex_key root uaddr in
  let '(r, q') := futex_wait block q root uaddr p v e timeout in
  (v ≠ e → r = -11 ∧ q' = q) ∧
  (v = e →
     (p ∉ waiters q' key) ∧
     r = if bool_decide (timeout = Some 0 ∨ (is_Some timeout ∧ p ∈ waiters (block (enqueue q key p)) key))
         then -110 else 0).
Proof.
  intros key. unfold futex_wait. destruct (Z.eqb_spec v e) as [->|Hne]; cbn [negb]; [|done].
  fold key. set (q1 := enqueue q key p). pose proof (dequeue_self_spec (block q1) key p) as (H1 & H2 & _).
  destruct (dequeue_self (block q1) key p) as [still q2]. cbn [fst snd] in H1, H2.
  assert (p ∉ waiters q2 key) as Hnot.
  { rewrite H2. by intros [? _]%list_elem_of_filter. }
  destruct timeout as [ms|]; [destruct (Z.eqb_spec ms 0) as [->|Hms]|]; cbn [andb].
  - split; [done|]. intros _. split; [apply cleanup_removes; set_solver|]. by rewrite bool_decide_eq_true_2 by auto.
  - split; [done|]. intros _. split; [done|]. subst still.
    destruct (decide (p ∈ waiters (block q1) key)) as [Hin|Hin].
    + rewrite !bool_decide_eq_true_2; [done|right; split; [eauto|done]|done].
    + rewrite !bool_decide_eq_false_2; [done|naive_solver|done].
  - split; [done|]. intros _. split; [done|]. rewrite bool_decide_eq_false_2; [done|].
    intros [?|[[? ?] _]]; done.
Qed.

(** The timeout of a futex wait is never too short.  A valid timespec gives
    the least number of milliseconds that covers it (u64::MAX when that does not
    fit), an invalid one an immediate timeout, and a null pointer no timeout. *)
Theorem futex_timeout_rounds_up (sec nsec ms : Z) :
  is_signed 64 sec → is_signed 64 nsec → futex_timeout_ms (Some (sec, nsec)) = Some ms →
  (0 <= sec → 0 <= nsec < 1000000000 →
     0 <= ms <= USIZE_MAX ∧ (ms < USIZE_MAX → sec * 1000000000 + nsec <= ms * 1000000) ∧
     (0 < ms → (ms - 1) * 1000000 < sec * 1000000000 + nsec)) ∧
  (sec < 0 ∨ nsec < 0 ∨ 1000000000 <= nsec → ms = 0).
Proof.
  intros Hs Hn Hms. unfold futex_timeout_ms in Hms. unfold is_signed in *.
  destruct ((sec <? 0) || (nsec <? 0) || (1000000000 <=? nsec)) eqn:E.
  - injection Hms as <-. apply orb_true_iff in E as [[E|E]%orb_true_iff|E]; bool_to_prop; split; intros; lia.
  - bool_to_prop. split; [intros _ _|lia].
    rewrite u64_small in Hms by lia. injection Hms as <-. unfold saturating_add, USIZE_MAX.
    pose proof (Z.div_mod (nsec + 999999) 1000000 ltac:(lia)).
    pose proof (Z.mod_pos_bound (nsec + 999999) 1000000 ltac:(lia)). lia.
Qed.

Lemma futex_timeout_rounds_up_witness :
  futex_timeout_ms (Some (1, 1)) = Some 1001 ∧ 1 * 1000000000 + 1 <= 1001 * 1000000.
Proof.
  assert (futex_timeout_ms (Some (1, 1)) = Some 1001) as E by reflexivity.
  split; [exact E|].
  destruct (futex_timeout_rounds_up 1 1 1001) as [H _]; [unfold is_signed; lia|unfold is_signed; lia|exact E|].
  apply H; unfold USIZE_MAX; lia.
Defined.

(** ** With the scheduler *)

(** [wake_task] on each woken process. *)
Definition wake_tasks (k : Scheduler.Kernel) (ps : list nat) : Scheduler.Kernel :=
  foldl (fun k p => snd (Scheduler.wake_task k p)) k ps.

(** The state of a process' task, and whether it is queued to run or sleeping. *)
Definition task_state (k : Scheduler.Kernel) (p : nat) : option Scheduler.TaskState :=
  match Scheduler.proc_slot_get k p with
  | Some slot => Scheduler.state <$> Scheduler.node_ref (Scheduler.sched k) slot
  | None => None
  end.

(** Wake-ups can be lost.  Process 5 runs a futex wait and is interrupted
    before it blocks.  (1) When the interruption is between its check of the
    value and its entry into the queue, the waker's store and wake find no
    waiter; (2) when it is between entering the queue and blocking, the wake
    counts it and removes it from the queue, but [wake_task] does nothing to a
    task that is not blocked.  Either way the wait then blocks although the
    value has changed and the wake has happened; in (2) no queue holds the
    process any more, so no later wake can reach it. *)
Theorem futex_wakeup_lost :
  let k := Scheduler.demo_started in
  let blocked k := Scheduler.schedule_block Scheduler.demo_root k in
  let key := futex_key 5 64 in
  task_state k 5 = Some Scheduler.Running ∧
  (let '(n, ps, q1) := futex_wake ∅ 5 64 1 in
   let k1 := blocked (wake_tasks k ps) in
   n = 0 ∧ task_state k1 5 = Some Scheduler.Blocked ∧ Scheduler.sleepq k1 = []) ∧
  (let '(n, ps, q1) := futex_wake (enqueue ∅ key 5) 5 64 1 in
   let k1 := blocked (wake_tasks k ps) in
   n = 1 ∧ ps = [5%nat] ∧ q1 = ∅ ∧ task_state k1 5 = Some Scheduler.Blocked ∧ Scheduler.sleepq k1 = []).
Proof. vm_compute. repeat split. Qed.
End Futex.
