(* ===== verification/Process.v ===== *)
(** Process: the process table and the calls that end and reap processes
    (kernel/src/process/mod.rs, kernel/src/syscall/mod.rs).

    Handlers run in a state monad over [World] that also records what they ask
    of other components (scheduler, memory, descriptors, user memory) as
    [effect]s, in order.  The futex queues are part of the state. *)

From stdpp Require Import base numbers list gmap sets.
From S2P Require Import Prelude ReadyQueue Scheduler Futex.
Local Open Scope Z_scope.
Local Open Scope rust_scope.

Module Process.

Inductive ProcessState := Ready | Running | Blocked | Exited.

#[global] Instance ProcessState_eq : EqDecision ProcessState.
Proof. solve_decision. Defined.

(** [fd_table] is the index of the shared table, [env] the environment. *)
Record Process := mkProcess {
  pid : Z;
  ppid : Z;
  page_table_root : Z;
  kernel_stack_top : Z;
  fs_base : Z;
  user_stack_top : Z;
  brk : Z;
  initial_brk : Z;
  entry : Z;
  state : ProcessState;
  exit_code : Z;
  wait_child_idx : option nat;
  fd_table : nat;
  trap_ctx_ptr : Z;
  shared_page_table : bool;
  clone_tls : Z;
  child_tid_ptr : Z;
  env : list (list Z * list Z)
}.

Record ProcessTable := mkTable { slots : list (option Process); free : list nat }.

(** ** Indexing *)

(** [table[i]] as a value: out of range reads as an empty slot. *)
Definition index (t : ProcessTable) (i : nat) : option Process :=
  match slots t !! i with
  | Some o => o
  | None => None
  end.

(** [table[i]] as a place: out of range grows the table. *)
Definition index_mut (t : ProcessTable) (i : nat) (f : option Process → option Process) : ProcessTable :=
  let s := if (length (slots t) <=? i)%nat then resize (i + 1) None (slots t) else slots t in
  mkTable (<[i := f (match s !! i with Some o => o | None => None end)]> s) (free t).

(** ** The monad *)

Inductive effect :=
| WakeTask (p : nat)
| RemoveTask (p : nat)
| MarkTaskExited (p : nat)
| MarkCurrentExited
| ReleaseRoot (root : Z)
| FreeUserPageTable (root : Z)
| DeallocKernelStack (top : Z)
| UserWrite (ptr : Z) (bytes : list Z)
| CleanupFds
| Shutdown
| BroadcastReschedule
| Schedule
| ScheduleExit.

(** [current] and [root] are CURRENT_PROCESS and CURRENT_PAGE_TABLE_ROOT of the
    running hart. *)
Record World := mkWorld {
  table : ProcessTable;
  current : nat;
  root : Z;
  futexes : Futex.Queues
}.

Definition M (A : Type) : Type := World → A * list effect * World.

Definition ret {A : Type} (a : A) : M A := fun w => (a, [], w).

Definition bind {A B : Type} (m : M A) (f : A → M B) : M B :=
  fun w => let '(a, e1, w1) := m w in let '(b, e2, w2) := f a w1 in (b, e1 ++ e2, w2).

Definition gets {A : Type} (f : World → A) : M A := fun w => (f w, [], w).

Definition tell (e : effect) : M unit := fun w => (tt, [e], w).

Definition on_table (f : ProcessTable → ProcessTable) : M unit :=
  fun w => (tt, [], mkWorld (f (table w)) (current w) (root w) (futexes w)).

Notation "'let*' x := m 'in' k" := (bind m (fun x => k))
  (at level 10, x pattern, m at level 100, k at level 200) : rust_scope.
Notation "m ;; k" := (bind m (fun _ => k)) (at level 100, k at level 200, right associativity) : rust_scope.

Fixpoint for_each {A : Type} (l : list A) (f : A → M unit) : M unit :=
  match l with
  | [] => ret tt
  | x :: l' => f x ;; for_each l' f
  end.

(** ** process/mod.rs *)

Definition with_state (s : ProcessState) (p : Process) : Process :=
  mkProcess (pid p) (ppid p) (page_table_root p) (kernel_stack_top p) (fs_base p) (user_stack_top p) (brk p)
    (initial_brk p) (entry p) s (exit_code p) (wait_child_idx p) (fd_table p) (trap_ctx_ptr p)
    (shared_page_table p) (clone_tls p) (child_tid_ptr p) (env p).
Definition with_exit (code : Z) (p : Process) : Process :=
  mkProcess (pid p) (ppid p) (page_table_root p) (kernel_stack_top p) (fs_base p) (user_stack_top p) (brk p)
    (initial_brk p) (entry p) Exited code (wait_child_idx p) (fd_table p) (trap_ctx_ptr p)
    (shared_page_table p) (clone_tls p) (child_tid_ptr p) (env p).
Definition with_wait (c : option nat) (p : Process) : Process :=
  mkProcess (pid p) (ppid p) (page_table_root p) (kernel_stack_top p) (fs_base p) (user_stack_top p) (brk p)
    (initial_brk p) (entry p) (state p) (exit_code p) c (fd_table p) (trap_ctx_ptr p)
    (shared_page_table p) (clone_tls p) (child_tid_ptr p) (env p).
Definition with_brk (b : Z) (p : Process) : Process :=
  mkProcess (pid p) (ppid p) (page_table_root p) (kernel_stack_top p) (fs_base p) (user_stack_top p) b
    (initial_brk p) (entry p) (state p) (exit_code p) (wait_child_idx p) (fd_table p) (trap_ctx_ptr p)
    (shared_page_table p) (clone_tls p) (child_tid_ptr p) (env p).
Definition with_ppid (x : Z) (p : Process) : Process :=
  mkProcess (pid p) x (page_table_root p) (kernel_stack_top p) (fs_base p) (user_stack_top p) (brk p)
    (initial_brk p) (entry p) (state p) (exit_code p) (wait_child_idx p) (fd_table p) (trap_ctx_ptr p)
    (shared_page_table p) (clone_tls p) (child_tid_ptr p) (env p).
Definition with_fs_base (x : Z) (p : Process) : Process :=
  mkProcess (pid p) (ppid p) (page_table_root p) (kernel_stack_top p) x (user_stack_top p) (brk p)
    (initial_brk p) (entry p) (state p) (exit_code p) (wait_child_idx p) (fd_table p) (trap_ctx_ptr p)
    (shared_page_table p) (clone_tls p) (child_tid_ptr p) (env p).
Definition with_tid_ptr (x : Z) (p : Process) : Process :=
  mkProcess (pid p) (ppid p) (page_table_root p) (kernel_stack_top p) (fs_base p) (user_stack_top p) (brk p)
    (initial_brk p) (entry p) (state p) (exit_code p) (wait_child_idx p) (fd_table p) (trap_ctx_ptr p)
    (shared_page_table p) (clone_tls p) x (env p).

Definition USER_HEAP_BASE : Z := 0x10000000.

(** [table.free.pop()] takes the last entry. *)
Definition pop (l : list nat) : option (nat * list nat) :=
  match last l with
  | Some i => Some (i, take (length l - 1) l)
  | None => None
  end.

Definition add_process_to (t : ProcessTable) (p : Process) : option nat * ProcessTable :=
  match pop (free t) with
  | Some (i, rest) => (Some i, index_mut (mkTable (slots t) rest) i (fun _ => Some p))
  | None => (Some (length (slots t)), mkTable (slots t ++ [Some p]) (free t))
  end.

Definition add_process (p : Process) : M (option nat) := fun w =>
  let '(r, t) := add_process_to (table w) p in (r, [], mkWorld t (current w) (root w) (futexes w)).

Definition get_process_by_index (i : nat) : M (option Process) := gets (fun w => index (table w) i).
Definition current_index : M nat := gets current.
Definition current_page_table_root : M Z := gets root.
Definition current_process : M (option Process) := gets (fun w => index (table w) (current w)).
Definition set_current_index (i : nat) : M unit :=
  fun w => (tt, [], mkWorld (table w) i (root w) (futexes w)).
Definition set_current_page_table_root (r : Z) : M unit :=
  fun w => (tt, [], mkWorld (table w) (current w) r (futexes w)).

(** [table[idx].as_ref().map(f).unwrap_or(d)] *)
Definition field {A : Type} (i : nat) (f : Process → A) (d : A) : M A :=
  gets (fun w => match index (table w) i with Some p => f p | None => d end).

Definition get_page_table_root (i : nat) : M Z := field i page_table_root 0.
Definition get_ppid (i : nat) : M Z := field i ppid 0.
Definition get_fs_base (i : nat) : M Z := field i fs_base 0.
Definition get_kernel_sp (i : nat) : M (option Z) := field i (fun p => Some (kernel_stack_top p)) None.
Definition get_state (i : nat) : M (option ProcessState) := field i (fun p => Some (state p)) None.
Definition is_child_of (i : nat) (parent : Z) : M bool := field i (fun p => ppid p =? parent) false.
Definition get_exit_code (i : nat) : M (option Z) :=
  field i (fun p => if decide (state p = Exited) then Some (exit_code p) else None) None.
Definition current_brk : M Z := fun w => field (current w) brk USER_HEAP_BASE w.
Definition current_page_table_ppn : M Z := fun w => field (current w) page_table_root 0 w.
Definition current_ppid : M Z := fun w => field (current w) ppid 0 w.
Definition current_pid : M Z := fun w => field (current w) pid 0 w.

(** [if let Some(p) = table[idx].as_mut() { .. }] *)
Definition update (i : nat) (f : Process → Process) : M unit := on_table (fun t => index_mut t i (fmap f)).

Definition set_current_brk (a : Z) : M unit := fun w => update (current w) (with_brk a) w.
Definition set_exit_code (code : Z) : M unit := fun w => update (current w) (with_exit code) w.
Definition set_child_tid_ptr (x : Z) : M unit := fun w => update (current w) (with_tid_ptr x) w.
Definition set_exit_code_by_index (i : nat) (code : Z) : M unit := update i (with_exit code).
Definition set_ppid (i : nat) (x : Z) : M unit := update i (with_ppid x).
Definition set_fs_base (i : nat) (x : Z) : M unit := update i (with_fs_base x).
Definition set_wait_child (i : nat) (c : option nat) : M unit := update i (with_wait c).
Definition set_state (i : nat) (s : ProcessState) : M unit := update i (with_state s).

Definition free_process_slot (i : nat) : M unit :=
  on_table (fun t => let t1 := index_mut t i (fun _ => None) in mkTable (slots t1) (free t1 ++ [i])).

(** First slot from [i] on whose process satisfies [f]. *)
Fixpoint find_slot (s : list (option Process)) (i : nat) (f : Process → bool) : option nat :=
  match s with
  | [] => None
  | Some p :: s' => if f p then Some i else find_slot s' (S i) f
  | None :: s' => find_slot s' (S i) f
  end.

Definition find_process_by_pid (x : Z) : M (option nat) :=
  gets (fun w => find_slot (slots (table w)) 0 (fun p => pid p =? x)).
Definition find_waiting_parent (c : nat) : M (option nat) :=
  gets (fun w => find_slot (slots (table w)) 0 (fun p => bool_decide (wait_child_idx p = Some c))).
Definition find_exited_child (x : Z) : M (option (nat * Z)) :=
  gets (fun w =>
    match find_slot (slots (table w)) 0 (fun p => (ppid p =? x) && bool_decide (state p = Exited)) with
    | Some i => match index (table w) i with Some p => Some (i, exit_code p) | None => None end
    | None => None
    end).
Definition has_children (x : Z) : M bool :=
  gets (fun w => existsb (fun o => match o with Some p => ppid p =? x | None => false end) (slots (table w))).

(** Indices from [i] on whose process satisfies [f]. *)
Fixpoint slots_where (s : list (option Process)) (i : nat) (f : Process → bool) : list nat :=
  match s with
  | [] => []
  | Some p :: s' => if f p then i :: slots_where s' (S i) f else slots_where s' (S i) f
  | None :: s' => slots_where s' (S i) f
  end.

Definition find_processes_by_page_table_root (r : Z) : M (list nat) :=
  gets (fun w => slots_where (slots (table w)) 0 (fun p => page_table_root p =? r)).

Definition find_group_leader_by_page_table_root (r : Z) : M (option nat) :=
  gets (fun w =>
    match find_slot (slots (table w)) 0 (fun p => (page_table_root p =? r) && negb (shared_page_table p)) with
    | Some i => Some i
    | None => find_slot (slots (table w)) 0 (fun p => page_table_root p =? r)
    end).

Definition reclaim_process (i : nat) : M bool :=
  let* proc := get_process_by_index i in
  on_table (fun t => index_mut t i (fun _ => None)) ;;
  match proc with
  | Some p =>
      (if negb (page_table_root p =? 0) && negb (shared_page_table p) then
         tell (ReleaseRoot (page_table_root p)) ;; tell (FreeUserPageTable (page_table_root p))
       else ret tt) ;;
      tell (DeallocKernelStack (kernel_stack_top p)) ;; ret true
  | None => ret false
  end.

(** The inner loop of [kill_clone_children]: slots from [i] on that are new
    children of [x]. *)
Fixpoint new_children (s : list (option Process)) (i : nat) (x parent : Z) (kill : list nat) : list (nat * Z) :=
  match s with
  | [] => []
  | o :: s' =>
      let rest := new_children s' (S i) x parent kill in
      match o with
      | Some p =>
          if bool_decide (i ∈ kill) then rest
          else if (ppid p =? x) && negb (pid p =? parent) then (i, pid p) :: rest
          else rest
      | None => rest
      end
  end.

(** [while let Some(ppid) = frontier.pop()]: [frontier] has its top first. *)
Fixpoint collect (fuel : nat) (s : list (option Process)) (parent : Z) (frontier : list Z) (kill : list nat)
    : option (list nat) :=
  match fuel, frontier with
  | _, [] => Some kill
  | O, _ => None
  | S fuel', x :: rest =>
      let found := new_children s 0 x parent kill in
      collect fuel' s parent (reverse (snd <$> found) ++ rest) (kill ++ (fst <$> found))
  end.

Definition descendants (s : list (option Process)) (parent : Z) : option (list nat) :=
  collect (length s + 1) s parent [parent] [].

Definition cleanup_futex (l : list nat) : M unit := fun w =>
  (tt, [], mkWorld (table w) (current w) (root w) (Futex.cleanup_futex_waiters_for_processes (futexes w) l)).

(** [linux_futex(ptr, 1, 1)]: wake one waiter at [ptr] in the current address
    space. *)
Definition futex_wake_one (ptr : Z) : M unit := fun w =>
  let '(_, ps, q) := Futex.futex_wake (futexes w) (root w) ptr 1 in
  (tt, WakeTask <$> ps, mkWorld (table w) (current w) (root w) q).

(** CLONE_CHILD_CLEARTID of a process. *)
Definition clear_tid (p : Process) : M unit :=
  if child_tid_ptr p =? 0 then ret tt
  else tell (UserWrite (child_tid_ptr p) (le_bytes 4 0)) ;; futex_wake_one (child_tid_ptr p).

Definition kill_one (i : nat) : M unit :=
  let* o := get_process_by_index i in
  (match o with Some p => clear_tid p | None => ret tt end) ;;
  set_state i Exited ;; set_exit_code_by_index i 0 ;;
  tell (MarkTaskExited i) ;; free_process_slot i.

Definition kill_clone_children (parent : Z) : M unit :=
  let* s := gets (fun w => slots (table w)) in
  let l := default [] (descendants s parent) in
  cleanup_futex l ;; for_each l kill_one ;; tell BroadcastReschedule.

(** ** syscall/mod.rs *)

Definition WAIT_AGAIN : Z := -1.
Definition WAIT_ERR : Z := -2.

Definition wake_waiting_parent (i : nat) : M unit :=
  let* o := find_waiting_parent i in
  match o with
  | Some parent_idx => set_wait_child parent_idx None ;; tell (WakeTask parent_idx)
  | None => ret tt
  end.

Definition sys_exit (code : Z) : M Z :=
  let* my_idx := current_index in
  cleanup_futex [my_idx] ;;
  let* my_pid := current_pid in
  kill_clone_children my_pid ;;
  tell MarkCurrentExited ;; set_exit_code (u64 code) ;;
  (if my_pid =? 1 then tell Shutdown else ret tt) ;;
  let* proc := current_process in
  (match proc with Some p => clear_tid p | None => ret tt end) ;;
  tell CleanupFds ;; wake_waiting_parent my_idx ;; tell ScheduleExit ;; ret 0.

Definition end_member (my_idx leader_idx : nat) (code : Z) (i : nat) : M unit :=
  if (i =? my_idx)%nat then ret tt
  else
    let* o := get_process_by_index i in
    (match o with Some p => clear_tid p | None => ret tt end) ;;
    set_exit_code_by_index i (u64 code) ;; tell (MarkTaskExited i) ;;
    (if (i =? leader_idx)%nat then ret tt else free_process_slot i).

Definition linux_exit_group (code : Z) : M Z :=
  let* my_idx := current_index in
  let* my_pid := current_pid in
  let* r := current_page_table_root in
  let* leader := find_group_leader_by_page_table_root r in
  let leader_idx := default my_idx leader in
  let* group := find_processes_by_page_table_root r in
  cleanup_futex group ;;
  for_each group (end_member my_idx leader_idx code) ;;
  (if (leader_idx =? my_idx)%nat then ret tt else set_exit_code_by_index leader_idx (u64 code)) ;;
  wake_waiting_parent leader_idx ;;
  tell MarkCurrentExited ;; set_exit_code (u64 code) ;;
  let* proc := current_process in
  (match proc with Some p => clear_tid p | None => ret tt end) ;;
  tell CleanupFds ;;
  (if my_pid =? 1 then tell Shutdown else ret tt) ;;
  (if (my_idx =? leader_idx)%nat then ret tt else free_process_slot my_idx) ;;
  tell ScheduleExit ;; ret 0.

Definition sys_waitpid (x : Z) : M Z :=
  let* my_pid := current_pid in
  let* found := find_process_by_pid x in
  match found with
  | None => ret WAIT_ERR
  | Some i =>
      let* pp := get_ppid i in
      if negb (pp =? my_pid) then ret WAIT_ERR
      else
        let* code := get_exit_code i in
        match code with
        | Some c => reclaim_process i ;; tell (RemoveTask i) ;; ret (i64 c)
        | None => tell Schedule ;; ret WAIT_AGAIN
        end
  end.

Definition linux_wait4 (x status_ptr : Z) : M Z :=
  let* result := sys_waitpid x in
  (if (0 <=? result) && negb (status_ptr =? 0)
   then tell (UserWrite status_ptr (le_bytes 4 (Z.shiftl (Z.land result 0xFF) 8)))
   else ret tt) ;;
  ret result.

(** [others k w] is the world after the [k]-th yield of the loop. *)
Fixpoint wait4_loop (others : nat → World → World) (fuel k : nat) (x status_ptr : Z) (w : World)
    : option (Z * list effect * World) :=
  match fuel with
  | O => None
  | S fuel' =>
      let '(code, e, w1) := sys_waitpid x w in
      if 0 <=? code then
        let st := if status_ptr =? 0 then [] else [UserWrite status_ptr (le_bytes 4 (u32 (Z.shiftl (u32 code) 8)))] in
        Some (x, e ++ st, w1)
      else if code =? WAIT_AGAIN then
        match wait4_loop others fuel' (S k) x status_ptr (others k w1) with
        | Some (r, e', w2) => Some (r, e ++ e', w2)
        | None => None
        end
      else Some (-10, e, w1)
  end.

Definition sys_wait4 (others : nat → World → World) (fuel : nat) (x status_ptr : Z) (w : World)
    : option (Z * list effect * World) :=
  if (x =? 0) || (x =? USIZE_MAX) then Some (-22, [], w) else wait4_loop others fuel 0 x status_ptr w.

Definition sys_kill (x sig : Z) : M Z :=
  if negb (sig =? 2) && negb (sig =? 9) && negb (sig =? 15) then ret (-22)
  else
    let* found := find_process_by_pid x in
    match found with
    | None => ret (-2)
    | Some i =>
        set_exit_code sig ;; set_state i Exited ;; wake_waiting_parent i ;;
        tell (RemoveTask i) ;; reclaim_process i ;; ret 0
    end.

(** ** The descendants that die with a process *)

(** Processes whose chain of parents leads to [parent]. *)
Inductive descendant (s : list (option Process)) (parent : Z) : nat → Prop :=
| desc_child i p :
    s !! i = Some (Some p) → ppid p = parent → pid p ≠ parent → descendant s parent i
| desc_step i p j q :
    descendant s parent i → s !! i = Some (Some p) →
    s !! j = Some (Some q) → ppid q = pid p → pid q ≠ parent → descendant s parent j.

Lemma new_children_spec (x parent : Z) (kill : list nat) (s : list (option Process)) : ∀ i j y,
  (j, y) ∈ new_children s i x parent kill ↔
  ∃ p, (i <= j)%nat ∧ s !! (j - i)%nat = Some (Some p) ∧ (j ∉ kill) ∧ ppid p = x ∧ pid p ≠ parent ∧ y = pid p.
Proof.
  induction s as [|o s IH]; intros i j y; cbn [new_children].
  { split; [by intros ?%not_elem_of_nil|naive_solver]. }
  assert ((∃ p, (i <= j)%nat ∧ (o :: s) !! (j - i)%nat = Some (Some p) ∧ (j ∉ kill) ∧ ppid p = x ∧
            pid p ≠ parent ∧ y = pid p) ↔
          (∃ p, j = i ∧ o = Some p ∧ (i ∉ kill) ∧ ppid p = x ∧ pid p ≠ parent ∧ y = pid p) ∨
          (j, y) ∈ new_children s (S i) x parent kill) as ->.
  { rewrite IH. destruct (decide (j = i)) as [->|Hne].
    - rewrite Nat.sub_diag. simpl. naive_solver lia.
    - destruct (decide (i <= j)%nat) as [Hle|]; [|naive_solver lia].
      replace (j - i)%nat with (S (j - S i)) by lia. simpl. naive_solver lia. }
  destruct o as [p|]; [|naive_solver].
  case_bool_decide as Hk; [naive_solver|].
  destruct ((ppid p =? x) && negb (pid p =? parent)) eqn:E.
  - bool_to_prop. rewrite elem_of_cons. naive_solver.
  - apply andb_false_iff in E as [E|E]; bool_to_prop; naive_solver.
Qed.

Lemma new_children_NoDup (x parent : Z) (kill : list nat) (s : list (option Process)) : ∀ i,
  NoDup (fst <$> new_children s i x parent kill).
Proof.
  induction s as [|o s IH]; intros i; cbn [new_children]; [constructor|].
  destruct o as [p|]; [|apply IH]. case_bool_decide; [apply IH|]. destruct (_ && _); [|apply IH].
  rewrite fmap_cons. constructor; [|apply IH].
  intros ([j y] & Hj & (q & Hle & _)%new_children_spec)%list_elem_of_fmap. simpl in *. lia.
Qed.

Lemma NoDup_bounded (l : list nat) (n : nat) : NoDup l → (∀ i, i ∈ l → (i < n)%nat) → (length l <= n)%nat.
Proof.
  intros Hnd Hb. rewrite <- (length_seq n 0). apply submseteq_length, NoDup_submseteq; [done|].
  intros i Hi. apply elem_of_seq. specialize (Hb i Hi). lia.
Qed.

Section collecting.
Context (s : list (option Process)) (parent : Z).

(** All children of [x] that count are in [kill]. *)
Definition done_with (kill : list nat) (x : Z) : Prop :=
  ∀ j q, s !! j = Some (Some q) → ppid q = x → pid q ≠ parent → j ∈ kill.

Definition collect_inv (frontier : list Z) (kill : list nat) : Prop :=
  NoDup kill ∧ (∀ i, i ∈ kill → descendant s parent i) ∧
  (∀ x, x ∈ frontier → x = parent ∨ (∃ i p, i ∈ kill ∧ s !! i = Some (Some p) ∧ pid p = x)) ∧
  (parent ∈ frontier ∨ done_with kill parent) ∧
  (∀ i p, i ∈ kill → s !! i = Some (Some p) → pid p ∈ frontier ∨ done_with kill (pid p)).

Lemma descendant_slot (i : nat) : descendant s parent i → ∃ p, s !! i = Some (Some p).
Proof. destruct 1; eauto. Qed.

Lemma collect_step (x : Z) (rest : list Z) (kill : list nat) :
  collect_inv (x :: rest) kill →
  let found := new_children s 0 x parent kill in
  collect_inv (reverse (snd <$> found) ++ rest) (kill ++ (fst <$> found)).
Proof.
  intros (Hnd & Hdesc & Hfr & Hpar & Hpid) found.
  assert (∀ j, j ∈ fst <$> found ↔ ∃ q, s !! j = Some (Some q) ∧ (j ∉ kill) ∧ ppid q = x ∧ pid q ≠ parent) as Hf.
  { intros j. rewrite list_elem_of_fmap. split.
    - intros ([j' y] & -> & (q & _ & Hq & H1 & H2 & H3 & _)%new_children_spec). rewrite Nat.sub_0_r in Hq. eauto.
    - intros (q & Hq & H1 & H2 & H3). exists (j, pid q). split; [done|]. apply new_children_spec.
      exists q. rewrite Nat.sub_0_r. repeat split; [lia|done..]. }
  assert (∀ j q, j ∈ fst <$> found → s !! j = Some (Some q) → pid q ∈ reverse (snd <$> found) ++ rest) as Hin.
  { intros j q ([j' y] & -> & Hm)%list_elem_of_fmap Hq.
    pose proof Hm as (q' & _ & Hq' & _ & _ & _ & Hy)%new_children_spec. rewrite Nat.sub_0_r in Hq'. simpl in *.
    rewrite elem_of_app, elem_of_reverse, list_elem_of_fmap. left. exists (j', y). simpl. split; [congruence|done]. }
  assert (∀ y, done_with kill y → done_with (kill ++ (fst <$> found)) y) as Hmono.
  { intros y Hy j q H1 H2 H3. apply elem_of_app. left. by eapply Hy. }
  assert (done_with (kill ++ (fst <$> found)) x) as Hx.
  { intros j q H1 H2 H3. apply elem_of_app. destruct (decide (j ∈ kill)); [by left|right]. apply Hf. eauto. }
  unfold collect_inv. splits.
  - apply NoDup_app. split; [done|]. split; [|apply new_children_NoDup].
    intros j Hj (q & _ & Hn & _)%Hf. done.
  - intros j [Hj|(q & Hq & _ & Hpx & Hne)%Hf]%elem_of_app; [auto|].
    destruct (Hfr x ltac:(set_solver)) as [->|(i & p & Hi & Hp & <-)].
    + by eapply desc_child.
    + eapply desc_step; [by apply Hdesc|done..].
  - intros y [Hy|Hy]%elem_of_app.
    + right. apply elem_of_reverse, list_elem_of_fmap in Hy as ([j y'] & -> & Hm).
      pose proof Hm as (q & _ & Hq & _ & _ & _ & ->)%new_children_spec. rewrite Nat.sub_0_r in Hq.
      exists j, q. split; [|done]. apply elem_of_app. right. apply list_elem_of_fmap. by exists (j, pid q).
    + destruct (Hfr y ltac:(set_solver)) as [->|(i & p & Hi & Hp & <-)]; [by left|right].
      exists i, p. split; [set_solver|done].
  - destruct Hpar as [Hp|Hp]; [|by right; apply Hmono].
    apply elem_of_cons in Hp as [->|Hp]; [by right|left; set_solver].
  - intros i p [Hi|Hi]%elem_of_app Hp; [|left; by eapply Hin].
    destruct (Hpid i p Hi Hp) as [Hy|Hy]; [|by right; apply Hmono].
    apply elem_of_cons in Hy as [->|Hy]; [by right|left; set_solver].
Qed.

Lemma collect_descendants (fuel : nat) : ∀ frontier kill,
  collect_inv frontier kill → (length frontier + (length s - length kill) <= fuel)%nat →
  ∃ l, collect fuel s parent frontier kill = Some l ∧ collect_inv [] l.
Proof.
  induction fuel as [|fuel IH]; intros frontier kill Hinv Hf.
  - destruct frontier; [by exists kill|simpl in Hf; lia].
  - destruct frontier as [|x rest]; [by exists kill|]. cbn [collect].
    pose proof (collect_step x rest kill Hinv) as Hstep. cbv zeta in Hstep.
    set (found := new_children s 0 x parent kill) in *. apply IH; [done|].
    assert (length (kill ++ (fst <$> found)) <= length s)%nat as Hk.
    { destruct Hstep as (Hnd & Hdesc & _). apply NoDup_bounded; [done|]. intros i Hi.
      destruct (descendant_slot i (Hdesc i Hi)) as [p Hp]. by eapply lookup_lt_Some. }
    rewrite length_app, length_fmap in Hk. rewrite !length_app, length_reverse, !length_fmap. simpl in Hf. lia.
Qed.

Lemma collect_inv_done (kill : list nat) :
  collect_inv [] kill → NoDup kill ∧ ∀ i, i ∈ kill ↔ descendant s parent i.
Proof.
  intros (Hnd & Hdesc & _ & Hpar & Hpid). split; [done|]. intros i. split; [auto|].
  induction 1 as [i p Hi Hpp Hne|i p j q _ IH Hi Hj Hpp Hne].
  - destruct Hpar as [?%not_elem_of_nil|Hd]; [done|]. by eapply Hd.
  - destruct (Hpid i p IH Hi) as [?%not_elem_of_nil|Hd]; [done|]. by eapply Hd.
Qed.
End collecting.

Lemma descendants_spec (s : list (option Process)) (parent : Z) :
  ∃ l, descendants s parent = Some l ∧ NoDup l ∧ ∀ i, i ∈ l ↔ descendant s parent i.
Proof.
  destruct (collect_descendants s parent (length s + 1) [parent] []) as (l & E & Hl).
  - unfold collect_inv. splits; [constructor|set_solver|set_solver|left; set_solver|set_solver].
  - simpl. lia.
  - exists l. split; [done|]. by apply collect_inv_done.
Qed.

(** ** Slots *)

Lemma index_index_mut (t : ProcessTable) (i j : nat) (f : option Process → option Process) :
  index (index_mut t i f) j = if decide (j = i) then f (index t i) else index t j.
Proof.
  unfold index, index_mut. cbn [slots]. set (s := if (length (slots t) <=? i)%nat then resize (i + 1) None (slots t) else slots t).
  assert (∀ k, match s !! k with Some o => o | None => None end =
               match slots t !! k with Some o => o | None => None end) as Hs.
  { intros k. subst s. destruct (Nat.leb_spec (length (slots t)) i) as [Hle|]; [|done].
    rewrite resize_ge, lookup_app by lia. destruct (slots t !! k) as [o|] eqn:E; [done|].
    destruct (replicate _ _ !! _) eqn:E2; [|done]. by apply lookup_replicate in E2 as [-> _]. }
  assert (i < length s)%nat as Hi.
  { subst s. destruct (Nat.leb_spec (length (slots t)) i); [rewrite length_resize|]; lia. }
  case_decide as Hj.
  - subst j. rewrite list_lookup_insert_eq by done. by rewrite Hs.
  - rewrite list_lookup_insert_ne by congruence. apply Hs.
Qed.

Lemma index_mut_length (t : ProcessTable) (i : nat) (f : option Process → option Process) :
  (length (slots t) <= length (slots (index_mut t i f)) ∧ i < length (slots (index_mut t i f)))%nat.
Proof.
  unfold index_mut. cbn [slots]. rewrite length_insert.
  destruct (Nat.leb_spec (length (slots t)) i); [rewrite length_resize|]; lia.
Qed.

(** Free slots are empty and listed once. *)
Definition table_ok (t : ProcessTable) : Prop :=
  NoDup (free t) ∧ ∀ i, i ∈ free t → index t i = None ∧ (i < length (slots t))%nat.

Definition live (w : World) (i : nat) : Prop := is_Some (index (table w) i).

(** From [w] to [w'] the slots of [l] were freed; no other slot was filled or
    emptied. *)
Record ends (l : list nat) (w w' : World) : Prop := mkEnds {
  ends_free : free (table w') = free (table w) ++ l;
  ends_live : ∀ i, live w' i ↔ live w i ∧ (i ∉ l);
  ends_pids : ∀ i, (i ∉ l) → pid <$> index (table w') i = pid <$> index (table w) i;
  ends_length : (length (slots (table w)) <= length (slots (table w')))%nat;
  ends_bound : ∀ i, i ∈ l → (i < length (slots (table w')))%nat;
  ends_hart : current w' = current w ∧ root w' = root w
}.

Lemma ends_refl (w : World) : ends [] w w.
Proof. split; [by rewrite app_nil_r|set_solver..|done|set_solver|done]. Qed.

Lemma ends_trans (l1 l2 : list nat) (w1 w2 w3 : World) :
  ends l1 w1 w2 → ends l2 w2 w3 → ends (l1 ++ l2) w1 w3.
Proof.
  intros [F1 L1 P1 N1 B1 [C1 R1]] [F2 L2 P2 N2 B2 [C2 R2]]. split.
  - by rewrite F2, F1, app_assoc.
  - intros i. rewrite L2, L1. set_solver.
  - intros i Hi. rewrite P2, P1 by set_solver. done.
  - lia.
  - intros i [Hi|Hi]%elem_of_app; [|by apply B2]. specialize (B1 i Hi). lia.
  - split; congruence.
Qed.

Lemma table_ok_ends (l : list nat) (w w' : World) :
  ends l w w' → NoDup l → (∀ i, i ∈ l → live w i) → table_ok (table w) → table_ok (table w').
Proof.
  intros [HF HL _ HN HB _] Hnd Hl [Hfr Hok]. split.
  - rewrite HF. apply NoDup_app. splits; [done| |done]. intros i Hi Hil. apply Hok in Hi as [Hi _].
    apply Hl in Hil. unfold live in Hil. rewrite Hi in Hil. by apply is_Some_None in Hil.
  - intros i Hi. rewrite HF in Hi. split.
    + apply eq_None_not_Some. intros Hs. apply (HL i) in Hs as [Hs Hn].
      apply elem_of_app in Hi as [Hi|Hi]; [|done]. apply Hok in Hi as [Hi _]. unfold live in Hs.
      rewrite Hi in Hs. by apply is_Some_None in Hs.
    + apply elem_of_app in Hi as [Hi|Hi]; [|by apply HB]. apply Hok in Hi as [_ Hi]. lia.
Qed.

(** A call that frees the slots [l] whatever the state. *)
Definition frees {A : Type} (l : list nat) (m : M A) : Prop := ∀ w, ends l w (m w).2.

Lemma frees_bind {A B : Type} (l1 l2 : list nat) (m : M A) (f : A → M B) :
  frees l1 m → (∀ a, frees l2 (f a)) → frees (l1 ++ l2) (bind m f).
Proof.
  intros Hm Hf w. unfold bind. specialize (Hm w). destruct (m w) as [[a e1] w1]. specialize (Hf a w1).
  destruct (f a w1) as [[b e2] w2]. by eapply ends_trans.
Qed.

Abbreviation quiet := (frees []).

Lemma frees_after {A B : Type} (l : list nat) (m : M A) (f : A → M B) :
  quiet m → (∀ a, frees l (f a)) → frees l (bind m f).
Proof. intros Hm Hf. exact (frees_bind [] l m f Hm Hf). Qed.

Lemma frees_before {A B : Type} (l : list nat) (m : M A) (f : A → M B) :
  frees l m → (∀ a, quiet (f a)) → frees l (bind m f).
Proof. intros Hm Hf. rewrite <- (app_nil_r l). by apply frees_bind. Qed.

Lemma quiet_ret {A : Type} (a : A) : quiet (ret a).
Proof. intros w. apply ends_refl. Qed.

Lemma quiet_gets {A : Type} (f : World → A) : quiet (gets f).
Proof. intros w. apply ends_refl. Qed.

Lemma quiet_tell (e : effect) : quiet (tell e).
Proof. intros w. apply ends_refl. Qed.

Lemma quiet_update (i : nat) (f : Process → Process) : (∀ p, pid (f p) = pid p) → quiet (update i f).
Proof.
  intros Hf w. unfold update, on_table.
  split; cbn [snd table free current root]; [by rewrite app_nil_r| | | |set_solver|done].
  - intros j. unfold live. cbn [table]. rewrite index_index_mut.
    case_decide; [subst; rewrite fmap_is_Some|]; set_solver.
  - intros j _. rewrite index_index_mut. case_decide; [|done]. subst.
    destruct (index (table w) i); [|done]. simpl. by rewrite Hf.
  - apply index_mut_length.
Qed.

Lemma quiet_current {A : Type} (f : nat → M A) : (∀ i, quiet (f i)) → quiet (fun w => f (current w) w).
Proof. intros Hf w. apply Hf. Qed.

Lemma quiet_futexes {A : Type} (f : World → A * list effect * Futex.Queues) :
  quiet (fun w => let '(a, e, q) := f w in (a, e, mkWorld (table w) (current w) (root w) q)).
Proof.
  intros w. destruct (f w) as [[a e] q]. destruct (ends_refl w) as [HF HL HP HN HB HC]. by split.
Qed.

Lemma quiet_cleanup_futex (l : list nat) : quiet (cleanup_futex l).
Proof.
  exact (quiet_futexes (fun w => (tt, [], Futex.cleanup_futex_waiters_for_processes (futexes w) l))).
Qed.

Lemma quiet_futex_wake_one (ptr : Z) : quiet (futex_wake_one ptr).
Proof.
  intros w. unfold futex_wake_one. destruct (Futex.futex_wake _ _ _ _) as [[a ps] q].
  exact (quiet_futexes (fun _ => (tt, WakeTask <$> ps, q)) w).
Qed.

Lemma frees_slot (i : nat) : frees [i] (free_process_slot i).
Proof.
  intros w. unfold free_process_slot, on_table. cbn [snd]. split; cbn [table free slots current root]; [done|..|done].
  - intros j. unfold live, index. cbn [table slots].
    change (is_Some (index (index_mut (table w) i (λ _, None)) j) ↔ is_Some (index (table w) j) ∧ j ∉ [i]).
    rewrite index_index_mut. case_decide as E; [subst|set_solver].
    split; [by intros ?%is_Some_None|set_solver].
  - intros j Hj. unfold index. cbn [slots].
    change (pid <$> index (index_mut (table w) i (λ _, None)) j = pid <$> index (table w) j).
    rewrite index_index_mut, decide_False; [done|set_solver].
  - apply index_mut_length.
  - intros j ->%list_elem_of_singleton. apply index_mut_length.
Qed.

#[local] Hint Resolve quiet_ret quiet_gets quiet_tell quiet_update quiet_cleanup_futex quiet_futex_wake_one
  quiet_current frees_after frees_slot : karte.

Lemma quiet_clear_tid (p : Process) : quiet (clear_tid p).
Proof. unfold clear_tid. destruct (_ =? _); auto with karte. Qed.

Lemma quiet_clear_tid_opt (o : option Process) : quiet (match o with Some p => clear_tid p | None => ret tt end).
Proof. destruct o; [apply quiet_clear_tid|apply quiet_ret]. Qed.

Lemma quiet_wake_waiting_parent (i : nat) : quiet (wake_waiting_parent i).
Proof.
  apply frees_after; [apply quiet_gets|]. intros [j|]; [|apply quiet_ret].
  apply frees_after; [by apply quiet_update|intros; apply quiet_tell].
Qed.

Lemma quiet_set_exit_code (i : nat) (c : Z) : quiet (set_exit_code_by_index i c).
Proof. by apply quiet_update. Qed.

Lemma quiet_set_state (i : nat) (s : ProcessState) : quiet (set_state i s).
Proof. by apply quiet_update. Qed.

Lemma quiet_exit_code (c : Z) : quiet (set_exit_code c).
Proof. apply (quiet_current (fun i => update i (with_exit c))). intros i. by apply quiet_update. Qed.

#[local] Hint Resolve quiet_clear_tid_opt quiet_wake_waiting_parent quiet_set_exit_code quiet_set_state
  quiet_exit_code : karte.

Lemma frees_for_each (P : nat → Prop) `{∀ i, Decision (P i)} (f : nat → M unit) (l : list nat) :
  (∀ i, frees (if decide (P i) then [i] else []) (f i)) → frees (filter P l) (for_each l f).
Proof.
  intros Hf. induction l as [|i l IH]; cbn [for_each]; [apply quiet_ret|].
  rewrite filter_cons. specialize (Hf i). case_decide; [apply (frees_bind [i])|apply frees_after]; auto.
Qed.

(** *** The handlers *)

Lemma frees_kill_one (i : nat) : frees [i] (kill_one i).
Proof. unfold kill_one, get_process_by_index. repeat (apply frees_after; [solve [auto with karte]|intros]). auto with karte. Qed.

Lemma ends_gets {A B : Type} (l : list nat) (w : World) (g : World → A) (f : A → M B) :
  ends l w (f (g w) w).2 → ends l w (bind (gets g) f w).2.
Proof. unfold bind, gets. by destruct (f (g w) w) as [[??]?]. Qed.

Lemma ends_bind {A B : Type} (l1 l2 : list nat) (w : World) (m : M A) (f : A → M B) :
  ends l1 w (m w).2 → (∀ a, frees l2 (f a)) → ends (l1 ++ l2) w (bind m f w).2.
Proof.
  intros Hm Hf. unfold bind. destruct (m w) as [[a e1] w1]. specialize (Hf a w1).
  destruct (f a w1) as [[b e2] w2]. by eapply ends_trans.
Qed.

Lemma ends_then {A B : Type} (l : list nat) (w : World) (m : M A) (f : A → M B) (a : A) (e : list effect) (w1 : World) :
  m w = (a, e, w1) → ends [] w (m w).2 → ends l w1 (f a w1).2 → ends l w (bind m f w).2.
Proof.
  intros E Hm Hf. unfold bind. rewrite E in *. destruct (f a w1) as [[b e2] w2].
  exact (ends_trans [] l _ _ _ Hm Hf).
Qed.

Lemma filter_all {A : Type} (P : A → Prop) `{∀ x, Decision (P x)} (l : list A) : (∀ x, P x) → filter P l = l.
Proof. intros HP. induction l as [|x l IH]; [done|]. rewrite filter_cons_True, IH; auto. Qed.

Lemma ends_kill_clone_children (w : World) (parent : Z) (l : list nat) :
  descendants (slots (table w)) parent = Some l → ends l w (kill_clone_children parent w).2.
Proof.
  intros Hl. apply ends_gets. rewrite Hl. cbn [default]. revert w Hl. intros w _. revert w.
  apply frees_after; [auto with karte|intros _]. apply frees_before; [|auto with karte].
  rewrite <- (filter_all (fun _ => True) l) at 1 by done.
  apply frees_for_each. intros i. rewrite decide_True by done. apply frees_kill_one.
Qed.

Lemma frees_end_member (my_idx leader_idx : nat) (code : Z) (i : nat) :
  frees (if decide (i ≠ my_idx ∧ i ≠ leader_idx) then [i] else []) (end_member my_idx leader_idx code i).
Proof.
  unfold end_member, get_process_by_index. destruct (Nat.eqb_spec i my_idx) as [->|Hm].
  { rewrite decide_False by naive_solver. apply quiet_ret. }
  repeat (apply frees_after; [solve [auto with karte]|intros]).
  destruct (Nat.eqb_spec i leader_idx) as [->|Hl].
  - rewrite decide_False by naive_solver. apply quiet_ret.
  - rewrite decide_True by naive_solver. auto with karte.
Qed.

Definition pid_of_current (w : World) : Z := match index (table w) (current w) with Some p => pid p | None => 0 end.

Lemma quiet_if_tell (b : bool) (e : effect) : quiet (if b then tell e else ret tt).
Proof. destruct b; auto with karte. Qed.

#[local] Hint Resolve quiet_if_tell : karte.

Lemma ends_sys_exit (w : World) (code : Z) (l : list nat) :
  descendants (slots (table w)) (pid_of_current w) = Some l → ends l w (sys_exit code w).2.
Proof.
  intros Hl. apply ends_gets. eapply ends_then; [done|apply (quiet_cleanup_futex [current w])|].
  apply (ends_gets l _ pid_of_current). cbn [snd cleanup_futex].
  rewrite <- (app_nil_r l). apply ends_bind; [by apply ends_kill_clone_children|].
  intros []. unfold current_process. repeat (apply frees_after; [solve [auto with karte]|intros]).
  auto with karte.
Qed.

(** Members of the group, other than the caller and the leader, are freed; then
    the caller unless it leads. *)
Definition group_freed (w : World) : list nat :=
  let leader := default (current w) (find_group_leader_by_page_table_root (root w) w).1.1 in
  filter (fun i => i ≠ current w ∧ i ≠ leader) (slots_where (slots (table w)) 0 (fun p => page_table_root p =? root w))
  ++ (if decide (current w = leader) then [] else [current w]).

Lemma ends_exit_group (w : World) (code : Z) : ends (group_freed w) w (linux_exit_group code w).2.
Proof.
  unfold linux_exit_group, current_index, current_pid, field, current_page_table_root,
    find_group_leader_by_page_table_root, find_processes_by_page_table_root, current_process.
  do 5 apply ends_gets. cbv zeta. unfold group_freed. cbn [find_group_leader_by_page_table_root gets fst].
  generalize (default (current w) (match find_slot (slots (table w)) 0
    (fun p => (page_table_root p =? root w) && negb (shared_page_table p)) with
    | Some i => Some i
    | None => find_slot (slots (table w)) 0 (fun p => page_table_root p =? root w)
    end)). intros leader.
  generalize (slots_where (slots (table w)) 0 (fun p => page_table_root p =? root w)). intros group.
  generalize (match index (table w) (current w) with Some p => pid p | None => 0 end). intros x.
  generalize (current w). intros my.
  revert w.
  apply frees_after; [auto with karte|intros _].
  apply frees_bind; [apply frees_for_each, frees_end_member|intros _].
  apply frees_after; [destruct (_ =? _)%nat; auto with karte|intros _].
  do 3 (apply frees_after; [solve [auto with karte]|intros _]).
  do 2 (apply frees_after; [solve [auto with karte]|intros ?]).
  do 2 (apply frees_after; [solve [auto with karte]|intros _]).
  apply frees_before; [|auto with karte].
  destruct (Nat.eqb_spec my leader); [rewrite decide_True by done|rewrite decide_False by done]; auto with karte.
Qed.

Lemma slots_where_spec (f : Process → bool) (s : list (option Process)) : ∀ i j,
  j ∈ slots_where s i f → ∃ p, (i <= j)%nat ∧ s !! (j - i)%nat = Some (Some p) ∧ f p = true.
Proof.
  induction s as [|o s IH]; intros i j; cbn [slots_where]; [by intros ?%not_elem_of_nil|].
  assert (j ∈ slots_where s (S i) f → ∃ p, (i <= j)%nat ∧ (o :: s) !! (j - i)%nat = Some (Some p) ∧ f p = true) as Hrest.
  { intros (p & Hle & Hp & Hf)%IH. exists p. replace (j - i)%nat with (S (j - S i)) by lia. by splits; [lia|..]. }
  destruct o as [p|]; [|done]. destruct (f p) eqn:E; [|done].
  intros [->|Hj]%elem_of_cons; [|by apply Hrest]. exists p. by rewrite Nat.sub_diag.
Qed.

Lemma slots_where_NoDup (f : Process → bool) (s : list (option Process)) : ∀ i, NoDup (slots_where s i f).
Proof.
  induction s as [|o s IH]; intros i; cbn [slots_where]; [constructor|].
  destruct o as [p|]; [|apply IH]. destruct (f p); [|apply IH]. constructor; [|apply IH].
  intros (q & Hle & _)%slots_where_spec. lia.
Qed.

Lemma index_lookup (t : ProcessTable) (i : nat) (p : Process) : index t i = Some p ↔ slots t !! i = Some (Some p).
Proof. unfold index. destruct (slots t !! i) as [[?|]|]; naive_solver. Qed.

Lemma live_lookup (w : World) (i : nat) : live w i ↔ ∃ p, slots (table w) !! i = Some (Some p).
Proof. unfold live, is_Some. by setoid_rewrite index_lookup. Qed.

Lemma pop_spec (l : list nat) :
  match pop l with Some (i, rest) => l = rest ++ [i] | None => l = [] end.
Proof.
  unfold pop. destruct l as [|x l] using rev_ind; [done|].
  rewrite last_snoc, length_app. simpl. by rewrite Nat.add_sub, take_app_length.
Qed.

(** A new process goes to an empty slot and disturbs no other. *)
Lemma add_process_to_spec (t : ProcessTable) (p : Process) : table_ok t →
  ∃ i t', add_process_to t p = (Some i, t') ∧ index t i = None ∧ table_ok t' ∧
    ∀ j, index t' j = if decide (j = i) then Some p else index t j.
Proof.
  intros [Hnd Hok]. unfold add_process_to. pose proof (pop_spec (free t)) as Hpop.
  destruct (pop (free t)) as [[i rest]|].
  - assert (i ∈ free t) as [Hi Hlt]%Hok by (rewrite Hpop; set_solver).
    rewrite Hpop in Hnd, Hok. apply NoDup_app in Hnd as (Hnd & Hdis & _).
    exists i, (index_mut (mkTable (slots t) rest) i (fun _ => Some p)). splits; [done|done| |].
    + split; [done|]. intros j Hj. cbn [index_mut free] in Hj. destruct (Hok j) as [Hj1 Hj2]; [set_solver|].
      rewrite index_index_mut, decide_False; [|intros ->; set_solver]. split; [done|].
      pose proof (index_mut_length (mkTable (slots t) rest) i (fun _ => Some p)) as [? _]. cbn [slots] in *. lia.
    + intros j. rewrite index_index_mut. by case_decide.
  - exists (length (slots t)), (mkTable (slots t ++ [Some p]) (free t)). splits; [done| | |].
    + unfold index. by rewrite lookup_ge_None_2.
    + split; cbn [free]; rewrite Hpop; [constructor|set_solver].
    + intros j. unfold index. cbn [slots]. case_decide as E; [subst; by rewrite lookup_app_r, Nat.sub_diag by lia|].
      destruct (decide (j < length (slots t))%nat); [by rewrite lookup_app_l|].
      rewrite !lookup_ge_None_2; [done|..]; rewrite ?length_app; simpl; lia.
Qed.

Lemma table_ok_clear (t : ProcessTable) (i : nat) : table_ok t → table_ok (index_mut t i (fun _ => None)).
Proof.
  intros [Hnd Hok]. split; [done|]. intros j Hj. rewrite index_index_mut.
  apply Hok in Hj as [Hj Hlt]. pose proof (index_mut_length t i (fun _ => None)). split; [by case_decide|lia].
Qed.

(** Calls that keep the table well formed. *)
Definition keeps {A : Type} (m : M A) : Prop := ∀ w, table_ok (table w) → table_ok (table (m w).2).

Lemma keeps_quiet {A : Type} (m : M A) : quiet m → keeps m.
Proof. intros Hm w. apply (table_ok_ends []); [apply Hm|constructor|set_solver]. Qed.

Lemma keeps_bind {A B : Type} (m : M A) (f : A → M B) : keeps m → (∀ a, keeps (f a)) → keeps (bind m f).
Proof.
  intros Hm Hf w Hw. unfold bind. specialize (Hm w Hw). destruct (m w) as [[a e1] w1].
  specialize (Hf a w1 Hm). by destruct (f a w1) as [[b e2] w2].
Qed.

#[local] Hint Resolve keeps_quiet : karte.

Lemma keeps_reclaim (i : nat) : keeps (reclaim_process i).
Proof.
  apply keeps_bind; [unfold get_process_by_index; auto with karte|intros proc].
  apply keeps_bind; [intros w Hw; by apply table_ok_clear|intros _]. apply keeps_quiet.
  destruct proc; [|apply quiet_ret]. apply frees_after; [|auto with karte].
  destruct (_ && _); auto with karte.
Qed.

#[local] Hint Resolve keeps_reclaim : karte.

Lemma keeps_waitpid (x : Z) : keeps (sys_waitpid x).
Proof.
  apply keeps_bind; [apply keeps_quiet, quiet_gets|intros my_pid].
  apply keeps_bind; [apply keeps_quiet, quiet_gets|intros [i|]]; [|auto with karte].
  apply keeps_bind; [apply keeps_quiet, quiet_gets|intros pp]. destruct (negb _); [auto with karte|].
  apply keeps_bind; [apply keeps_quiet, quiet_gets|intros [c|]].
  - apply keeps_bind; auto with karte.
  - auto with karte.
Qed.

Lemma keeps_kill (x sig : Z) : keeps (sys_kill x sig).
Proof.
  unfold sys_kill. destruct (_ && _); [auto with karte|].
  apply keeps_bind; [apply keeps_quiet, quiet_gets|intros [i|]]; [|auto with karte].
  repeat (apply keeps_bind; [solve [auto with karte]|intros _]). auto with karte.
Qed.

Lemma table_ok_sys_exit (w : World) (code : Z) : table_ok (table w) → table_ok (table (sys_exit code w).2).
Proof.
  destruct (descendants_spec (slots (table w)) (pid_of_current w)) as (l & Hl & Hnd & Hdesc).
  apply (table_ok_ends l); [by apply ends_sys_exit|done|].
  intros i Hi. apply live_lookup. apply Hdesc in Hi. by eapply descendant_slot.
Qed.

Lemma table_ok_exit_group (w : World) (code : Z) :
  live w (current w) → table_ok (table w) → table_ok (table (linux_exit_group code w).2).
Proof.
  intros Hcur. apply (table_ok_ends (group_freed w)); [apply ends_exit_group|..]; unfold group_freed.
  - apply NoDup_app. splits; [apply NoDup_filter, slots_where_NoDup| |case_decide; [constructor|apply NoDup_singleton]].
    intros i [[Hi _] _]%list_elem_of_filter. case_decide; set_solver.
  - intros i [[_ Hi]%list_elem_of_filter|Hi]%elem_of_app.
    + apply live_lookup. apply slots_where_spec in Hi as (p & _ & Hp & _). rewrite Nat.sub_0_r in Hp. eauto.
    + case_decide; [by apply not_elem_of_nil in Hi|]. by apply list_elem_of_singleton in Hi as ->.
Qed.

(** What changes the table: processes are created, end, and are reaped, while
    the hart switches between live processes. *)
Inductive pstep : World → World → Prop :=
| step_add p w : pstep w (add_process p w).2
| step_exit code w : pstep w (sys_exit code w).2
| step_exit_group code w : live w (current w) → pstep w (linux_exit_group code w).2
| step_waitpid x w : pstep w (sys_waitpid x w).2
| step_kill x sig w : pstep w (sys_kill x sig w).2
| step_update i f w : (∀ p, pid (f p) = pid p) → pstep w (update i f w).2
| step_switch i r w : pstep w (mkWorld (table w) i r (futexes w))
| step_futex q w : pstep w (mkWorld (table w) (current w) (root w) q).

Definition world_init : World := mkWorld (mkTable [] []) 0 0 ∅.

Lemma pstep_table_ok (w w' : World) : table_ok (table w) → pstep w w' → table_ok (table w').
Proof.
  intros Hok Hstep. destruct Hstep as [p w|code w|code w Hc|x w|x sig w|i f w Hf|i r w|q w].
  - destruct (add_process_to_spec (table w) p Hok) as (i & t' & E & _ & Ht & _).
    unfold add_process. by rewrite E.
  - by apply table_ok_sys_exit.
  - by apply table_ok_exit_group.
  - by apply keeps_waitpid.
  - by apply keeps_kill.
  - by apply (keeps_quiet _ (quiet_update i f Hf)).
  - done.
  - done.
Qed.

(** C10: In every state reached by creating, ending, killing and reaping
    processes, [add_process] succeeds, puts the new process into a slot that
    was empty, and leaves every other process as it is: a slot is never given
    to two processes, although exits free slots behind each other's back. *)
Theorem process_slots_not_shared (w : World) (p : Process) :
  reachable (eq world_init) pstep w →
  ∃ i w', add_process p w = (Some i, [], w') ∧ index (table w) i = None ∧
    ∀ j, index (table w') j = if decide (j = i) then Some p else index (table w) j.
Proof.
  intros Hr. assert (table_ok (table w)) as Hok.
  { revert Hr. apply (reachable_invariant _ _ (fun w => table_ok (table w))); [|intros; by eapply pstep_table_ok].
    intros w' <-. split; [constructor|]. intros i ?%not_elem_of_nil. done. }
  destruct (add_process_to_spec (table w) p Hok) as (i & t' & E & Hi & _ & Hj).
  unfold add_process. rewrite E. eauto 6.
Qed.

(** ** Waiting and killing *)

Definition unique_pids (t : ProcessTable) : Prop :=
  ∀ i j p q, index t i = Some p → index t j = Some q → pid p = pid q → i = j.

Lemma find_slot_spec (f : Process → bool) (s : list (option Process)) : ∀ i,
  match find_slot s i f with
  | Some j => ∃ p, (i <= j)%nat ∧ s !! (j - i)%nat = Some (Some p) ∧ f p = true
  | None => ∀ j p, s !! j = Some (Some p) → f p = false
  end.
Proof.
  induction s as [|o s IH]; intros i; cbn [find_slot]; [done|].
  assert (match find_slot s (S i) f with
          | Some j => ∃ p, (i <= j)%nat ∧ (o :: s) !! (j - i)%nat = Some (Some p) ∧ f p = true
          | None => ∀ j p, s !! j = Some (Some p) → f p = false
          end) as Hrest.
  { specialize (IH (S i)). destruct (find_slot s (S i) f) as [j|]; [|done].
    destruct IH as (p & Hle & Hp & Hf). exists p. replace (j - i)%nat with (S (j - S i)) by lia. by splits; [lia|..]. }
  destruct o as [p|]; [destruct (f p) eqn:E|].
  - exists p. by rewrite Nat.sub_diag.
  - destruct (find_slot s (S i) f); [done|]. intros [|j] q Hq; [simplify_eq/=; done|by eapply Hrest].
  - destruct (find_slot s (S i) f); [done|]. intros [|j] q Hq; [done|by eapply Hrest].
Qed.

Lemma find_by_pid (t : ProcessTable) (i : nat) (p : Process) : unique_pids t → index t i = Some p →
  find_slot (slots t) 0 (fun q => pid q =? pid p) = Some i.
Proof.
  intros Hu Hi. pose proof (find_slot_spec (fun q => pid q =? pid p) (slots t) 0) as Hs.
  destruct (find_slot _ _ _) as [j|].
  - destruct Hs as (q & _ & Hq & E). bool_to_prop. rewrite Nat.sub_0_r in Hq.
    f_equal. apply (Hu j i q p); [by apply index_lookup|done|done].
  - apply index_lookup in Hi. apply Hs in Hi. bool_to_prop. done.
Qed.

Lemma find_by_pid_gone (t : ProcessTable) (i : nat) (p : Process) (t' : ProcessTable) :
  unique_pids t → index t i = Some p → index t' i = None → (∀ j, j ≠ i → pid <$> index t' j = pid <$> index t j) →
  find_slot (slots t') 0 (fun q => pid q =? pid p) = None.
Proof.
  intros Hu Hi Hn Hj. pose proof (find_slot_spec (fun q => pid q =? pid p) (slots t') 0) as Hs.
  destruct (find_slot _ _ _) as [j|]; [|done]. destruct Hs as (q & _ & Hq & E). bool_to_prop.
  rewrite Nat.sub_0_r in Hq. apply index_lookup in Hq. destruct (decide (j = i)) as [->|Hne]; [congruence|].
  specialize (Hj j Hne). rewrite Hq in Hj. symmetry in Hj. apply fmap_Some in Hj as (q' & Hq' & E').
  destruct Hne. apply (Hu j i q' p); congruence.
Qed.

Lemma waitpid_unknown (x : Z) (w : World) :
  find_slot (slots (table w)) 0 (fun q => pid q =? x) = None → sys_waitpid x w = (WAIT_ERR, [], w).
Proof. intros E. unfold sys_waitpid, bind, current_pid, field, find_process_by_pid, gets. by rewrite E. Qed.

(** What reaping a process releases. *)
Definition released (p : Process) : list effect :=
  (if negb (page_table_root p =? 0) && negb (shared_page_table p)
   then [ReleaseRoot (page_table_root p); FreeUserPageTable (page_table_root p)] else [])
  ++ [DeallocKernelStack (kernel_stack_top p)].

Definition clear_slot (i : nat) (w : World) : World :=
  mkWorld (index_mut (table w) i (fun _ => None)) (current w) (root w) (futexes w).

Lemma reclaim_process_spec (i : nat) (p : Process) (w : World) :
  index (table w) i = Some p → reclaim_process i w = (true, released p, clear_slot i w).
Proof.
  intros E. unfold reclaim_process, bind, get_process_by_index, gets, on_table. rewrite E.
  unfold released. by destruct (_ && _).
Qed.

Section waiting.
Context (w : World) (i : nat) (p : Process).
Context (Hu : unique_pids (table w)) (Hi : index (table w) i = Some p) (Hpp : ppid p = pid_of_current w).

Lemma waitpid_running : state p ≠ Exited → sys_waitpid (pid p) w = (WAIT_AGAIN, [Schedule], w).
Proof.
  intros Hs. unfold sys_waitpid, bind, current_pid, field, find_process_by_pid, get_ppid, get_exit_code, field, gets.
  rewrite (find_by_pid _ i p) by done. rewrite Hi. unfold pid_of_current in Hpp.
  rewrite Hpp, Z.eqb_refl. cbn [negb].
  rewrite Hi. by destruct (decide (state p = Exited)).
Qed.

Lemma waitpid_exited : state p = Exited →
  sys_waitpid (pid p) w = (i64 (exit_code p), released p ++ [RemoveTask i], clear_slot i w).
Proof.
  intros Hs. unfold sys_waitpid, bind at 1, current_pid, field, gets. unfold bind at 1, find_process_by_pid, gets.
  rewrite (find_by_pid _ i p) by done. unfold bind at 1, get_ppid, field, gets. rewrite Hi.
  unfold pid_of_current in Hpp. rewrite Hpp, Z.eqb_refl. cbn [negb].
  unfold bind at 1, get_exit_code, field, gets. rewrite Hi.
  destruct (decide (state p = Exited)); [|done]. unfold bind. rewrite (reclaim_process_spec i p) by done. done.
Qed.

Lemma waitpid_gone : sys_waitpid (pid p) (clear_slot i w) = (WAIT_ERR, [], clear_slot i w).
Proof.
  apply waitpid_unknown. apply (find_by_pid_gone (table w) i p); [done|done|..]; cbn [clear_slot table].
  - by rewrite index_index_mut, decide_True.
  - intros j Hj. by rewrite index_index_mut, decide_False.
Qed.
End waiting.

(** A parent reaps a child exactly once.  While the child runs, waitpid
    changes nothing and says try again; once it has exited with a code below
    2^63, waitpid returns the code, releases the page table (unless shared) and
    the kernel stack, empties that slot only and drops the task; a second call
    then fails. *)
Theorem waitpid_reaps_once (w : World) (i : nat) (p : Process) :
  unique_pids (table w) → index (table w) i = Some p → ppid p = pid_of_current w → 0 <= exit_code p < 2 ^ 63 →
  (state p ≠ Exited → sys_waitpid (pid p) w = (WAIT_AGAIN, [Schedule], w)) ∧
  (state p = Exited →
    ∃ w', sys_waitpid (pid p) w = (exit_code p, released p ++ [RemoveTask i], w') ∧
      (∀ j, index (table w') j = if decide (j = i) then None else index (table w) j) ∧
      sys_waitpid (pid p) w' = (WAIT_ERR, [], w')).
Proof.
  intros Hu Hi Hpp Hc. split; [exact (waitpid_running w i p Hu Hi Hpp)|]. intros Hs. exists (clear_slot i w). splits.
  - rewrite (waitpid_exited w i p Hu Hi Hpp Hs).
    unfold i64. rewrite to_signed_id; [done|lia|]. unfold is_signed. lia.
  - intros j. cbn [clear_slot table]. rewrite index_index_mut. by case_decide.
  - by apply waitpid_gone.
Qed.

(** A child that exits with a negative code is reaped, but its parent is
    told there was no such child: wait4 returns -ECHILD and stores no status,
    because the code is read back as one of waitpid's own error values. *)
Theorem wait4_negative_exit_code (w : World) (i : nat) (p : Process) (n status_ptr : Z) (fuel : nat) :
  unique_pids (table w) → index (table w) i = Some p → ppid p = pid_of_current w →
  state p = Exited → - 2 ^ 63 <= n < 0 → exit_code p = u64 n → pid p ≠ 0 → pid p ≠ USIZE_MAX →
  ∃ e, sys_wait4 (fun _ w => w) (S (S fuel)) (pid p) status_ptr w = Some (-10, e, clear_slot i w) ∧
    e = released p ++ [RemoveTask i].
Proof.
  intros Hu Hi Hpp Hs Hn Hc H0 Hmax. exists (released p ++ [RemoveTask i]). split; [|done].
  unfold sys_wait4. rewrite (proj2 (Z.eqb_neq _ _)), (proj2 (Z.eqb_neq _ _)) by done. cbn [orb wait4_loop].
  rewrite (waitpid_exited w i p Hu Hi Hpp Hs).
  assert (i64 (exit_code p) = n) as ->.
  { rewrite Hc. unfold i64, u64. rewrite to_signed_mod by lia. apply to_signed_id; [lia|]. unfold is_signed. lia. }
  rewrite (proj2 (Z.leb_gt 0 n)) by lia. unfold WAIT_AGAIN. destruct (Z.eqb_spec n (-1)) as [->|]; [|done].
  rewrite (waitpid_gone w i p) by done. change (0 <=? WAIT_ERR) with false. change (WAIT_ERR =? -1) with false.
  cbv iota. by rewrite app_nil_r.
Qed.

Lemma wake_waiting_parent_spec (c : nat) (w : World) : ∃ e w',
  wake_waiting_parent c w = (tt, e, w') ∧ current w' = current w ∧
  ∀ j, index (table w') j = index (table w) j ∨ index (table w') j = with_wait None <$> index (table w) j.
Proof.
  unfold wake_waiting_parent, bind, find_waiting_parent, gets. destruct (find_slot _ _ _) as [k|].
  - eexists _, _. split; [done|]. split; [done|]. intros j. cbn [table]. rewrite index_index_mut.
    case_decide; [subst; by right|by left].
  - eexists _, _. split; [done|]. split; [done|]. by left.
Qed.

Lemma kill_body (w : World) (i : nat) (p q : Process) (sig : Z) :
  index (table w) i = Some p → index (table w) (current w) = Some q → i ≠ current w →
  ∃ e w' q', (set_exit_code sig ;; set_state i Exited ;; wake_waiting_parent i ;;
      tell (RemoveTask i) ;; reclaim_process i ;; ret 0) w = (0, e, w') ∧
    index (table w') i = None ∧ index (table w') (current w) = Some q' ∧
    state q' = Exited ∧ exit_code q' = sig ∧ pid q' = pid q ∧
    ∀ j, j ≠ i → pid <$> index (table w') j = pid <$> index (table w) j.
Proof.
  intros Hi Hq Hne. unfold set_exit_code, set_state, update, on_table, tell, bind, ret. cbn [table current root futexes].
  set (w1 := mkWorld (index_mut (index_mut _ _ _) _ _) _ _ _).
  assert (∀ j, index (table w1) j = if decide (j = i) then Some (with_state Exited p)
            else if decide (j = current w) then Some (with_exit sig q) else index (table w) j) as H1.
  { intros j. subst w1. cbn [table]. rewrite !index_index_mut, Hi, Hq, (decide_False (P := i = current w)) by done. done. }
  destruct (wake_waiting_parent_spec i w1) as (e & w2 & -> & _ & H2).
  assert (∃ p', index (table w2) i = Some p') as [p' Hp'].
  { destruct (H2 i) as [-> | ->]; rewrite H1, decide_True by done; eauto. }
  rewrite (reclaim_process_spec i p') by done. eexists _, (clear_slot i w2).
  assert (∃ q', index (table w2) (current w) = Some q' ∧ state q' = Exited ∧ exit_code q' = sig ∧ pid q' = pid q)
    as (q' & Hq' & Hs).
  { destruct (H2 (current w)) as [-> | ->]; rewrite H1, decide_False, decide_True by done; simpl; eauto. }
  exists q'. cbn [clear_slot table]. split; [done|]. split; [by rewrite index_index_mut, decide_True|].
  split; [by rewrite index_index_mut, decide_False|]. do 3 (split; [apply Hs|]).
  intros j Hj. rewrite index_index_mut, decide_False by done.
  destruct (H2 j) as [-> | ->]; rewrite H1, decide_False by done; case_decide; simplify_eq; rewrite ?Hq; try done.
  by destruct (index (table w) j).
Qed.

(** Kill(pid, sig) ends the caller as well as the target: the caller is
    marked exited with the signal number as its code, while the target's slot
    is emptied at once and its code is lost, so the target's parent can no
    longer wait for it. *)
Theorem kill_marks_the_caller (w : World) (i : nat) (p q : Process) (sig : Z) :
  unique_pids (table w) → index (table w) i = Some p → index (table w) (current w) = Some q → i ≠ current w →
  sig = 2 ∨ sig = 9 ∨ sig = 15 →
  ∃ e w' q', sys_kill (pid p) sig w = (0, e, w') ∧ index (table w') i = None ∧
    index (table w') (current w) = Some q' ∧ state q' = Exited ∧ exit_code q' = sig ∧ pid q' = pid q ∧
    ∀ parent r, (sys_waitpid (pid p) (mkWorld (table w') parent r (futexes w'))).1.1 = WAIT_ERR.
Proof.
  intros Hu Hi Hq Hne Hsig. unfold sys_kill.
  assert (negb (sig =? 2) && negb (sig =? 9) && negb (sig =? 15) = false) as -> by (by destruct Hsig as [ -> |[ -> | -> ]]).
  unfold bind at 1, find_process_by_pid, gets. rewrite (find_by_pid _ i p) by done.
  destruct (kill_body w i p q sig Hi Hq Hne) as (e & w' & q' & -> & H1 & H2 & H3 & H4 & H5 & Hj).
  exists e, w', q'. splits; try done.
  intros parent r. rewrite waitpid_unknown; [done|]. by apply (find_by_pid_gone (table w) i p).
Qed.

(** ** What dies with a process *)

(** Every effect of a call satisfies [Q]. *)
Definition emits {A : Type} (Q : effect → Prop) (m : M A) : Prop := ∀ w, Forall Q (m w).1.2.

Lemma emits_bind {A B : Type} (Q : effect → Prop) (m : M A) (f : A → M B) :
  emits Q m → (∀ a, emits Q (f a)) → emits Q (bind m f).
Proof.
  intros Hm Hf w. unfold bind. specialize (Hm w). destruct (m w) as [[a e1] w1]. specialize (Hf a w1).
  destruct (f a w1) as [[b e2] w2]. by apply Forall_app.
Qed.

Lemma emits_none {A : Type} (Q : effect → Prop) (m : M A) : (∀ w, (m w).1.2 = []) → emits Q m.
Proof. intros Hm w. by rewrite Hm. Qed.

Lemma emits_tell (Q : effect → Prop) (e : effect) : Q e → emits Q (tell e).
Proof. intros HQ w. by apply Forall_singleton. Qed.

Lemma emits_for_each {A : Type} (Q : effect → Prop) (f : A → M unit) (l : list A) :
  (∀ x, emits Q (f x)) → emits Q (for_each l f).
Proof. intros Hf. induction l as [|x l IH]; [by apply emits_none|]. by apply emits_bind. Qed.

Lemma for_each_emitted {A : Type} (f : A → M unit) (g : A → effect) (l : list A) :
  (∀ x w, g x ∈ (f x w).1.2) → ∀ x w, x ∈ l → g x ∈ (for_each l f w).1.2.
Proof.
  intros Hf. induction l as [|y l IH]; intros x w Hx; [by apply not_elem_of_nil in Hx|].
  cbn [for_each]. unfold bind. specialize (Hf y w). destruct (f y w) as [[? e1] w1]. specialize (IH x w1).
  destruct (for_each l f w1) as [[? e2] w2]. simpl in *. apply elem_of_cons in Hx as [-> |Hx]; set_solver.
Qed.

(** Effects that give memory back. *)
Definition releases_memory (e : effect) : Prop :=
  match e with ReleaseRoot _ | FreeUserPageTable _ | DeallocKernelStack _ => True | _ => False end.

Abbreviation leaks := (emits (fun e => ¬ releases_memory e)).

Lemma emitted_first {A B : Type} (x : effect) (m : M A) (f : A → M B) (w : World) :
  x ∈ (m w).1.2 → x ∈ (bind m f w).1.2.
Proof. unfold bind. destruct (m w) as [[a e1] w1]. destruct (f a w1) as [[b e2] w2]. simpl. set_solver. Qed.

Lemma emitted_then {A B : Type} (x : effect) (m : M A) (f : A → M B) (w : World) :
  (∀ a w1, x ∈ (f a w1).1.2) → x ∈ (bind m f w).1.2.
Proof.
  intros Hf. unfold bind. destruct (m w) as [[a e1] w1]. specialize (Hf a w1).
  destruct (f a w1) as [[b e2] w2]. simpl in *. set_solver.
Qed.

Lemma emitted_run {A B : Type} (x : effect) (m : M A) (f : A → M B) (w : World) (a : A) (e : list effect) (w1 : World) :
  m w = (a, e, w1) → x ∈ (f a w1).1.2 → x ∈ (bind m f w).1.2.
Proof. intros E. unfold bind. rewrite E. destruct (f a w1) as [[??]?]. simpl. set_solver. Qed.

Lemma emitted_gets {A B : Type} (x : effect) (g : World → A) (f : A → M B) (w : World) :
  x ∈ (f (g w) w).1.2 → x ∈ (bind (gets g) f w).1.2.
Proof. unfold bind, gets. by destruct (f (g w) w) as [[??]?]. Qed.

Lemma leaks_clear_tid (o : option Process) : leaks (match o with Some p => clear_tid p | None => ret tt end).
Proof.
  destruct o as [p|]; [|by apply emits_none]. unfold clear_tid. destruct (_ =? _); [by apply emits_none|].
  apply emits_bind; [by apply emits_tell; intros []|intros _ w]. unfold futex_wake_one.
  destruct (Futex.futex_wake _ _ _ _) as [[??]?]. apply Forall_fmap, Forall_true. by intros ? [].
Qed.

Lemma leaks_wake_waiting_parent (i : nat) : leaks (wake_waiting_parent i).
Proof.
  apply emits_bind; [by apply emits_none|]. intros [j|]; [|by apply emits_none].
  apply emits_bind; [by apply emits_none|intros _; by apply emits_tell; intros []].
Qed.

Ltac leaking := first
  [ apply leaks_clear_tid | apply leaks_wake_waiting_parent
  | by apply emits_none | apply emits_tell; by intros []
  | apply emits_bind; [leaking|intros; leaking]
  | case_match; leaking ].

Lemma leaks_kill_clone_children (parent : Z) : leaks (kill_clone_children parent).
Proof.
  apply emits_bind; [by apply emits_none|intros s]. apply emits_bind; [by apply emits_none|intros _].
  apply emits_bind; [|intros; leaking]. apply emits_for_each. intros i. unfold kill_one. leaking.
Qed.

Lemma leaks_sys_exit (code : Z) : leaks (sys_exit code).
Proof.
  do 3 (apply emits_bind; [by apply emits_none|intros]).
  apply emits_bind; [apply leaks_kill_clone_children|intros _]. leaking.
Qed.

Lemma kill_clone_children_marks (w : World) (parent : Z) (l : list nat) (i : nat) :
  descendants (slots (table w)) parent = Some l → i ∈ l → MarkTaskExited i ∈ (kill_clone_children parent w).1.2.
Proof.
  intros Hl Hi. apply emitted_gets. rewrite Hl. apply emitted_then. intros _ w1. apply emitted_first.
  revert Hi. apply for_each_emitted. clear. intros i w. unfold kill_one. do 4 (apply emitted_then; intros).
  apply emitted_first. set_solver.
Qed.

(** Everything that descends from an exiting process dies with it: exactly
    those slots are emptied and put on the free list, and their tasks are
    marked exited.  This holds for forked descendants too, which own an address
    space; none of their page tables or kernel stacks is given back. *)
Theorem exit_takes_descendants (w : World) (code : Z) :
  let '(_, e, w') := sys_exit code w in
  (∀ i, descendant (slots (table w)) (pid_of_current w) i →
     index (table w') i = None ∧ i ∈ free (table w') ∧ MarkTaskExited i ∈ e) ∧
  (∀ i, live w i → ¬ descendant (slots (table w)) (pid_of_current w) i → live w' i) ∧
  Forall (fun x => ¬ releases_memory x) e.
Proof.
  destruct (descendants_spec (slots (table w)) (pid_of_current w)) as (l & Hl & Hnd & Hdesc).
  pose proof (ends_sys_exit w code l Hl) as [HF HL _ _ _ _]. pose proof (leaks_sys_exit code w) as Hleak.
  assert (∀ i, i ∈ l → MarkTaskExited i ∈ (sys_exit code w).1.2) as Hm.
  { intros i Hi. apply emitted_gets. eapply emitted_run; [done|].
    apply (emitted_gets _ pid_of_current). apply emitted_first. by apply (kill_clone_children_marks _ _ l). }
  destruct (sys_exit code w) as [[r e] w']. cbn [fst snd] in *. splits; [|..|done].
  - intros i Hi%Hdesc. splits; [|rewrite HF; set_solver|by apply Hm].
    apply eq_None_not_Some. intros [_ Hn]%HL. done.
  - intros i Hi Hn. apply HL. split; [done|]. by rewrite Hdesc.
Qed.

(** ** Witnesses *)

Definition proc (p pp : Z) (st : ProcessState) (code : Z) : Process :=
  mkProcess p pp (0x1000 * p) (0x8000 + p) 0 0 USER_HEAP_BASE USER_HEAP_BASE 0 st code None 0 0 false 0 0 [].

(** A shell (pid 2, running), its exited child (pid 3) and a daemon (pid 4). *)
Definition family (code : Z) : World :=
  mkWorld (mkTable [Some (proc 2 1 Running 0); Some (proc 3 2 Exited code); Some (proc 4 1 Ready 0)] []) 0 0x2000 ∅.

Lemma family_unique (code : Z) : unique_pids (table (family code)).
Proof.
  intros i j p q Hi%index_lookup Hj%index_lookup E. cbn [family table slots] in *.
  do 3 (destruct i as [|i]; [do 3 (destruct j as [|j]; [simplify_eq/=; done|]); done|]). done.
Qed.

Lemma process_slots_not_shared_witness :
  ∃ w, reachable (eq world_init) pstep w ∧ ∃ i w', add_process (proc 5 2 Ready 0) w = (Some i, [], w') ∧
    index (table w) i = None ∧ ∀ j, index (table w') j = if decide (j = i) then Some (proc 5 2 Ready 0) else index (table w) j.
Proof.
  pose (w1 := (add_process (proc 2 1 Running 0) world_init).2). pose (w2 := (add_process (proc 3 2 Ready 0) w1).2).
  pose (w3 := (sys_exit 0 w2).2).
  assert (reachable (eq world_init) pstep w3) as Hr.
  { apply reach_step with w2; [|apply step_exit]. apply reach_step with w1; [|apply step_add].
    apply reach_step with world_init; [by apply reach_init|apply step_add]. }
  exists w3. split; [exact Hr|]. exact (process_slots_not_shared w3 (proc 5 2 Ready 0) Hr).
Defined.

Lemma waitpid_reaps_once_witness :
  ∃ w', sys_waitpid 3 (family 7) = (7, released (proc 3 2 Exited 7) ++ [RemoveTask 1], w') ∧
    sys_waitpid 3 w' = (WAIT_ERR, [], w').
Proof.
  destruct (waitpid_reaps_once (family 7) 1 (proc 3 2 Exited 7) (family_unique 7) eq_refl eq_refl) as [_ H].
  - split; [discriminate|reflexivity].
  - destruct (H eq_refl) as (w' & H1 & _ & H2). exists w'. split; [exact H1|exact H2].
Defined.

Lemma wait4_negative_exit_code_witness :
  sys_wait4 (fun _ w => w) 2 3 0x4000 (family (u64 (-1))) =
  Some (-10, released (proc 3 2 Exited (u64 (-1))) ++ [RemoveTask 1], clear_slot 1 (family (u64 (-1)))).
Proof.
  destruct (wait4_negative_exit_code (family (u64 (-1))) 1 (proc 3 2 Exited (u64 (-1))) (-1) 0x4000 0
    (family_unique _) eq_refl eq_refl eq_refl) as (e & H & E).
  - split; [discriminate|reflexivity].
  - reflexivity.
  - discriminate.
  - discriminate.
  - rewrite <- E. exact H.
Defined.

Lemma kill_marks_the_caller_witness :
  ∃ e w' q', sys_kill 4 9 (family 0) = (0, e, w') ∧ index (table w') 2 = None ∧
    index (table w') 0 = Some q' ∧ state q' = Exited ∧ exit_code q' = 9.
Proof.
  destruct (kill_marks_the_caller (family 0) 2 (proc 4 1 Ready 0) (proc 2 1 Running 0) 9
    (family_unique 0) eq_refl eq_refl) as (e & w' & q' & H1 & H2 & H3 & H4 & H5 & _).
  - discriminate.
  - right. left. reflexivity.
  - exists e, w', q'. splits; assumption.
Defined.

(** A forked grandchild (pid 6, with its own page table) of an exiting shell. *)
Example exit_takes_forked_grandchild :
  let w := mkWorld (mkTable [Some (proc 2 1 Running 0); Some (proc 3 2 Ready 0); Some (proc 6 3 Ready 0)] []) 0 0x2000 ∅ in
  (sys_exit 0 w).1.2 =
    [MarkTaskExited 1; MarkTaskExited 2; BroadcastReschedule; MarkCurrentExited; CleanupFds; ScheduleExit] ∧
  free (table (sys_exit 0 w).2) = [1; 2]%nat.
Proof. by vm_compute. Qed.
End Process.
