(* ===== verification/Disk.v ===== *)
(** Disk: byte access to a sector device
    (kernel/src/driver/ext4_x86_64.rs, kernel/src/driver/fat32.rs).

    ext4 reads and writes at byte offsets through a write-through sector cache;
    FAT32 reads and writes at a current position without a cache.  The AHCI or
    VirtIO driver below is an instance of [BlockIO]. *)

From stdpp Require Import base numbers list gmap sets.
From S2P Require Import Prelude.
Local Open Scope Z_scope.
Local Open Scope rust_scope.

(** [read_block] and [write_block] of the driver, None for an error. *)
Class BlockIO (D : Type) := {
  read_block : D → Z → option (list Z);
  write_block : D → Z → list Z → option D
}.

(** A working disk: sectors below its capacity can be read and written, a write
    changes that sector and no other, and accesses beyond it fail. *)
Class BlockLaws (D : Type) `{BlockIO D} := {
  sectors : D → Z;
  read_block_ok : ∀ d s, 0 <= s < sectors d → ∃ b, read_block d s = Some b ∧ length b = 512%nat;
  read_block_out : ∀ d s, sectors d <= s → read_block d s = None;
  write_block_ok : ∀ d s b, 0 <= s < sectors d → length b = 512%nat →
    ∃ d', write_block d s b = Some d' ∧ sectors d' = sectors d ∧
      ∀ s', read_block d' s' = if decide (s' = s) then Some b else read_block d s';
  write_block_out : ∀ d s b, sectors d <= s → write_block d s b = None
}.

Module Disk.

Definition SECTOR_SIZE : nat := 512.
Definition BLOCK_SIZE : nat := 4096.
Definition CACHE_CAPACITY : nat := 2048.

(** ** The sector cache *)

Record SectorCache := mkCache { map : gmap Z (list Z); order : list Z }.

Definition new : SectorCache := mkCache ∅ [].

Definition get (c : SectorCache) (sector : Z) : option (list Z) := map c !! sector.

(** [while order.len() > CACHE_CAPACITY]: the oldest sectors go. *)
Fixpoint evict (m : gmap Z (list Z)) (o : list Z) : SectorCache :=
  match o with
  | [] => mkCache m []
  | x :: o' => if (CACHE_CAPACITY <? length o)%nat then evict (delete x m) o' else mkCache m o
  end.

Definition insert (c : SectorCache) (sector : Z) (data : list Z) : SectorCache :=
  let m := <[sector := data]> (map c) in
  match map c !! sector with
  | Some _ => mkCache m (order c)
  | None => evict m (order c ++ [sector])
  end.

(** [dst[pos..pos + src.len()].copy_from_slice(src)] *)
Definition copy_at (dst : list Z) (pos : nat) (src : list Z) : list Z :=
  take pos dst ++ src ++ drop (pos + length src) dst.

(** ** The block device of ext4 *)

(** The driver and the statics: [SECTOR_CACHE], [READ_COUNT], [WRITE_COUNT],
    [MAX_DISK_OFFSET]. *)
Record Device (D : Type) := mkDevice {
  dev : D;
  cache : SectorCache;
  reads : Z;
  writes : Z;
  max_offset : Z
}.
Arguments mkDevice {D}. Arguments dev {D}. Arguments cache {D}. Arguments reads {D}. Arguments writes {D}.
Arguments max_offset {D}.

Section device.
Context {D : Type} `{BlockIO D}.

Definition set_max_disk_offset (st : Device D) (m : Z) : Device D :=
  mkDevice (dev st) (cache st) (reads st) (writes st) m.

Definition is_offset_valid (st : Device D) (offset : Z) : bool :=
  (max_offset st =? 0) || (offset <? max_offset st).

Definition block_read (st : Device D) (sector : Z) : option (list Z) * Device D :=
  (read_block (dev st) sector, mkDevice (dev st) (cache st) (reads st +! 1) (writes st) (max_offset st)).

Definition block_write (st : Device D) (sector : Z) (buf : list Z) : bool * Device D :=
  match write_block (dev st) sector buf with
  | Some d => (true, mkDevice d (cache st) (reads st) (writes st +! 1) (max_offset st))
  | None => (false, mkDevice (dev st) (cache st) (reads st) (writes st +! 1) (max_offset st))
  end.

Definition count_read (st : Device D) : Device D :=
  mkDevice (dev st) (cache st) (reads st +! 1) (writes st) (max_offset st).
Definition count_write (st : Device D) : Device D :=
  mkDevice (dev st) (cache st) (reads st) (writes st +! 1) (max_offset st).
Definition cache_insert (st : Device D) (sector : Z) (data : list Z) : Device D :=
  mkDevice (dev st) (insert (cache st) sector data) (reads st) (writes st) (max_offset st).

Fixpoint read_loop (fuel : nat) (st : Device D) (base_sector : Z) (skip buf_pos sector_idx : nat) (buf : list Z)
    : option (list Z * Device D) :=
  match fuel with
  | O => None
  | S fuel' =>
      if (buf_pos <? BLOCK_SIZE)%nat then
        let abs_sector := base_sector +! Z.of_nat sector_idx in
        let src_start := if (sector_idx =? 0)%nat then skip else 0%nat in
        let remaining := (BLOCK_SIZE - buf_pos)%nat in
        let copy_len := Nat.min (SECTOR_SIZE - src_start) remaining in
        match get (cache st) abs_sector with
        | Some cached =>
            read_loop fuel' st base_sector skip (buf_pos + copy_len) (S sector_idx)
              (copy_at buf buf_pos (slice src_start copy_len cached))
        | None =>
            let '(r, st1) := block_read st abs_sector in
            match r with
            | None => Some (buf, st1)
            | Some sector =>
                read_loop fuel' st1 base_sector skip (buf_pos + copy_len) (S sector_idx)
                  (copy_at buf buf_pos (slice src_start copy_len sector))
            end
        end
      else Some (buf, st)
  end.

(** Nine sectors cover a block at any offset; one more round ends the loop. *)
Definition read_offset (st : Device D) (offset : Z) : option (list Z * Device D) :=
  let st1 := count_read st in
  if negb (is_offset_valid st1 (offset +! Z.of_nat BLOCK_SIZE -! 1)) then Some (replicate BLOCK_SIZE 0, st1)
  else
    read_loop 10 st1 (offset / Z.of_nat SECTOR_SIZE) (Z.to_nat (offset mod Z.of_nat SECTOR_SIZE)) 0 0
      (replicate BLOCK_SIZE 0).

(** The sector a partial write starts from: the cached one, else the disk's. *)
Definition old_sector (st : Device D) (sector_idx : Z) : option (list Z) * Device D :=
  match get (cache st) sector_idx with
  | Some cached => (Some cached, st)
  | None => block_read st sector_idx
  end.

Fixpoint write_loop (fuel : nat) (st : Device D) (data : list Z) (data_pos : nat) (current_offset : Z)
    : option (Device D) :=
  match fuel with
  | O => None
  | S fuel' =>
      if (data_pos <? length data)%nat then
        let sector_idx := current_offset / Z.of_nat SECTOR_SIZE in
        let sector_offset := Z.to_nat (current_offset mod Z.of_nat SECTOR_SIZE) in
        let bytes_in_sector := Nat.min (SECTOR_SIZE - sector_offset) (length data - data_pos) in
        let '(sector, st1) :=
          if negb (sector_offset =? 0)%nat || negb (bytes_in_sector =? SECTOR_SIZE)%nat
          then old_sector st sector_idx else (Some (replicate SECTOR_SIZE 0), st) in
        match sector with
        | None => Some st1
        | Some s =>
            let s' := copy_at s sector_offset (slice data_pos bytes_in_sector data) in
            let '(ok, st2) := block_write st1 sector_idx s' in
            if ok then
              write_loop fuel' (cache_insert st2 sector_idx s') data (data_pos + bytes_in_sector)
                (current_offset +! Z.of_nat bytes_in_sector)
            else Some st2
        end
      else Some st
  end.

(** Every round stores at least one byte. *)
Definition write_offset (st : Device D) (offset : Z) (data : list Z) : option (Device D) :=
  let st1 := count_write st in
  if negb (is_offset_valid st1 (offset +! Z.of_nat (length data) -! 1)) then Some st1
  else write_loop (S (length data)) st1 data 0 offset.

(** ** The storage of FAT32 *)

Record Fat32Storage := mkStorage { position : Z; capacity_bytes : Z }.

(** [capacity] is what the driver reports, in sectors. *)
Definition storage_new (capacity : option Z) : Fat32Storage :=
  mkStorage 0 (default 0 capacity *! Z.of_nat SECTOR_SIZE).

Fixpoint fat_read_loop (fuel : nat) (d : D) (base_sector : Z) (offset len total_read : nat) (buf : list Z)
    : option (result (list Z) unit) :=
  match fuel with
  | O => None
  | S fuel' =>
      if (total_read <? len)%nat then
        let byte_offset := (offset + total_read)%nat in
        let sector_idx := base_sector +! Z.of_nat (byte_offset `div` 512)%nat in
        match read_block d sector_idx with
        | None => Some (Err tt)
        | Some sector_buf =>
            let src_start := (byte_offset `mod` 512)%nat in
            let to_copy := Nat.min (512 - src_start) (len - total_read) in
            fat_read_loop fuel' d base_sector offset len (total_read + to_copy)
              (copy_at buf total_read (slice src_start to_copy sector_buf))
        end
      else Some (Ok buf)
  end.

(** [buf] is the caller's buffer; returned are the bytes read and the buffer. *)
Definition read (d : D) (st : Fat32Storage) (buf : list Z)
    : option (result (nat * list Z) unit * Fat32Storage) :=
  if (length buf =? 0)%nat then Some (Ok (0%nat, buf), st)
  else if capacity_bytes st <=? position st then Some (Ok (0%nat, buf), st)
  else
    match fat_read_loop (S (length buf)) d (position st / Z.of_nat SECTOR_SIZE)
            (Z.to_nat (position st mod Z.of_nat SECTOR_SIZE)) (length buf) 0 buf with
    | None => None
    | Some (Err e) => Some (Err e, st)
    | Some (Ok buf') =>
        Some (Ok (length buf, buf'), mkStorage (position st +! Z.of_nat (length buf)) (capacity_bytes st))
    end.

Fixpoint fat_write_loop (fuel : nat) (d : D) (base_sector : Z) (offset : nat) (buf : list Z) (total_written : nat)
    : option (result unit unit * D) :=
  match fuel with
  | O => None
  | S fuel' =>
      if (total_written <? length buf)%nat then
        let byte_offset := (offset + total_written)%nat in
        let sector_idx := base_sector +! Z.of_nat (byte_offset `div` 512)%nat in
        match read_block d sector_idx with
        | None => Some (Err tt, d)
        | Some sector_buf =>
            let src_start := (byte_offset `mod` 512)%nat in
            let to_copy := Nat.min (512 - src_start) (length buf - total_written) in
            match write_block d sector_idx (copy_at sector_buf src_start (slice total_written to_copy buf)) with
            | None => Some (Err tt, d)
            | Some d1 => fat_write_loop fuel' d1 base_sector offset buf (total_written + to_copy)
            end
        end
      else Some (Ok tt, d)
  end.

Definition write (d : D) (st : Fat32Storage) (buf : list Z) : option (result nat unit * Fat32Storage * D) :=
  if (length buf =? 0)%nat then Some (Ok 0%nat, st, d)
  else if capacity_bytes st <=? position st then Some (Err tt, st, d)
  else
    match fat_write_loop (S (length buf)) d (position st / Z.of_nat SECTOR_SIZE)
            (Z.to_nat (position st mod Z.of_nat SECTOR_SIZE)) buf 0 with
    | None => None
    | Some (Err e, d') => Some (Err e, st, d')
    | Some (Ok _, d') =>
        Some (Ok (length buf), mkStorage (position st +! Z.of_nat (length buf)) (capacity_bytes st), d')
    end.

Inductive SeekFrom := Start (offset : Z) | End_ (offset : Z) | Current (offset : Z).

Definition seek (st : Fat32Storage) (pos : SeekFrom) : result Z unit * Fat32Storage :=
  let go new := if new <? 0 then (Err tt, st) else (Ok (u64 new), mkStorage (u64 new) (capacity_bytes st)) in
  match pos with
  | Start offset => (Ok offset, mkStorage offset (capacity_bytes st))
  | End_ offset => go (i64 (i64 (capacity_bytes st) + offset))
  | Current offset => go (i64 (i64 (position st) + offset))
  end.
End device.

(** ** Bytes of a disk *)

Section bytes.
Context {D : Type} `{BlockIO D, !BlockLaws D}.

(** The byte at disk offset [i]. *)
Definition byte (d : D) (i : Z) : option Z :=
  match read_block d (i / 512) with
  | Some b => b !! Z.to_nat (i mod 512)
  | None => None
  end.

(** [n] bytes from [off] on, zeros beyond the end. *)
Definition bytes (d : D) (off : Z) (n : nat) : list Z :=
  (fun k => default 0 (byte d (off + Z.of_nat k))) <$> seq 0 n.

Lemma bytes_length (d : D) (off : Z) (n : nat) : length (bytes d off n) = n.
Proof. unfold bytes. by rewrite length_fmap, length_seq. Qed.

Lemma bytes_lookup (d : D) (off : Z) (n k : nat) : (k < n)%nat →
  bytes d off n !! k = Some (default 0 (byte d (off + Z.of_nat k))).
Proof. intros Hk. unfold bytes. by rewrite list_lookup_fmap, lookup_seq_lt. Qed.

Lemma bytes_app (d : D) (off : Z) (n m : nat) :
  bytes d off (n + m) = bytes d off n ++ bytes d (off + Z.of_nat n) m.
Proof.
  unfold bytes. rewrite seq_app, fmap_app. f_equal.
  rewrite <- (Nat.add_comm n), <- (fmap_add_seq n 0 m), <- list_fmap_compose. apply list_fmap_ext. intros i x _. simpl. do 2 f_equal. lia.
Qed.

Lemma byte_is_Some (d : D) (i : Z) : 0 <= i → is_Some (byte d i) ↔ i < 512 * sectors d.
Proof.
  intros Hi. unfold byte. pose proof (Z.mod_pos_bound i 512 ltac:(lia)). pose proof (Z.div_mod i 512 ltac:(lia)).
  destruct (decide (i / 512 < sectors d)) as [Hlt|Hge].
  - destruct (read_block_ok d (i / 512)) as (b & -> & Hb); [split; [apply Z.div_pos|]; lia|].
    rewrite lookup_lt_is_Some, Hb. lia.
  - rewrite read_block_out by lia. split; [by intros ?%is_Some_None|lia].
Qed.

Lemma bytes_out (d : D) (off : Z) (n : nat) : 512 * sectors d <= off → 0 <= off → bytes d off n = replicate n 0.
Proof.
  intros Ho H0. apply list_eq_same_length with (n := n); [apply length_replicate|apply bytes_length|].
  intros k x y Hk. rewrite bytes_lookup by done. rewrite lookup_replicate_2 by done. intros [= <-] [= <-].
  destruct (byte d (off + Z.of_nat k)) as [b|] eqn:E; [|done].
  assert (off + Z.of_nat k < 512 * sectors d) by (apply byte_is_Some; [lia|by rewrite E]). lia.
Qed.

(** Part of one sector. *)
Lemma bytes_sector (d : D) (i : Z) (b : list Z) (n : nat) :
  0 <= i → read_block d (i / 512) = Some b → length b = 512%nat → (n <= 512 - Z.to_nat (i mod 512))%nat →
  bytes d i n = slice (Z.to_nat (i mod 512)) n b.
Proof.
  intros Hi Hb Hlen Hn. pose proof (Z.mod_pos_bound i 512 ltac:(lia)) as Hm.
  pose proof (Z.div_mod i 512 ltac:(lia)) as Hdm. unfold slice.
  apply list_eq. intros k. destruct (decide (k < n)%nat) as [Hk|Hk].
  - rewrite bytes_lookup, lookup_take_lt, lookup_drop by done. unfold byte.
    assert ((i + Z.of_nat k) / 512 = i / 512) as ->.
    { symmetry. apply (Z.div_unique _ _ _ (i mod 512 + Z.of_nat k)); lia. }
    assert ((i + Z.of_nat k) mod 512 = i mod 512 + Z.of_nat k) as ->.
    { symmetry. apply (Z.mod_unique _ _ (i / 512)); lia. }
    rewrite Hb. replace (Z.to_nat (i mod 512 + Z.of_nat k)) with (Z.to_nat (i mod 512) + k)%nat by lia.
    destruct (b !! _) eqn:E; [done|]. apply lookup_ge_None in E. lia.
  - rewrite !lookup_ge_None_2; [done| |].
    + rewrite length_take. lia.
    + rewrite bytes_length. lia.
Qed.
End bytes.

(** ** Cache coherence *)

(** The queue lists the cached sectors, once each. *)
Definition cache_ok (c : SectorCache) : Prop :=
  NoDup (order c) ∧ (∀ s, s ∈ order c ↔ is_Some (map c !! s)) ∧ (length (order c) <= CACHE_CAPACITY)%nat.

Lemma evict_ok (o : list Z) : ∀ m, NoDup o → (∀ s, s ∈ o ↔ is_Some (m !! s)) →
  cache_ok (evict m o) ∧ map (evict m o) ⊆ m.
Proof.
  induction o as [|x o IH]; intros m Hnd Ho; cbn [evict].
  - splits; [|done]. unfold cache_ok. splits; [constructor|done|cbn; lia].
  - destruct (Nat.ltb_spec CACHE_CAPACITY (length (x :: o))) as [Hlt|Hge].
    + apply NoDup_cons in Hnd as [Hx Hnd]. destruct (IH (delete x m) Hnd) as [Hok Hsub].
      * intros s. destruct (decide (s = x)) as [->|Hne].
        -- rewrite lookup_delete_eq. split; [done|by intros ?%is_Some_None].
        -- rewrite lookup_delete_ne, <- Ho by done. set_solver.
      * split; [done|]. etrans; [done|apply delete_subseteq].
    + split; [|done]. by unfold cache_ok; splits.
Qed.

Lemma cache_insert_ok (c : SectorCache) (s : Z) (b : list Z) :
  cache_ok c → cache_ok (insert c s b) ∧ map (insert c s b) ⊆ <[s := b]> (map c).
Proof.
  intros (Hnd & Ho & Hlen). unfold insert. destruct (map c !! s) as [b0|] eqn:E.
  - split; [|done]. unfold cache_ok. cbn [order map]. splits; [done| |done].
    intros s'. rewrite Ho, lookup_insert_is_Some. destruct (decide (s = s')) as [->|]; [rewrite E|]; naive_solver.
  - apply evict_ok.
    + apply NoDup_app. splits; [done| |apply NoDup_singleton]. intros x Hx ->%list_elem_of_singleton.
      apply Ho in Hx. rewrite E in Hx. by apply is_Some_None in Hx.
    + intros s'. rewrite elem_of_app, Ho, lookup_insert_is_Some, list_elem_of_singleton.
      destruct (decide (s = s')); naive_solver.
Qed.

Lemma cache_size (c : SectorCache) : cache_ok c → (size (map c) <= CACHE_CAPACITY)%nat.
Proof.
  intros (Hnd & Ho & Hlen). rewrite <- (size_dom (D := gset Z)).
  replace (dom (map c)) with (list_to_set (C := gset Z) (order c)).
  - rewrite size_list_to_set by done. lia.
  - apply set_eq. intros s. by rewrite elem_of_list_to_set, elem_of_dom.
Qed.

Section coherence.
Context {D : Type} `{BlockIO D, !BlockLaws D}.

(** Every cached sector is the one on the disk. *)
Definition coherent (st : Device D) : Prop :=
  cache_ok (cache st) ∧ ∀ s b, map (cache st) !! s = Some b → read_block (dev st) s = Some b.

Lemma read_block_length (d : D) (s : Z) (b : list Z) : 0 <= s → read_block d s = Some b → length b = 512%nat.
Proof.
  intros Hs Hb. destruct (decide (s < sectors d)) as [Hlt|Hge].
  - destruct (read_block_ok d s) as (b' & Hb' & Hlen); [lia|congruence].
  - rewrite read_block_out in Hb by lia. done.
Qed.

Lemma sector_missing (d : D) (i : Z) : 0 <= i → read_block d (i / 512) = None → 512 * sectors d <= i.
Proof.
  intros Hi Hn. apply Z.nlt_ge. intros Hlt. destruct (read_block_ok d (i / 512)) as (b & Hb & _); [|congruence].
  split; [apply Z.div_pos; lia|]. apply Z.div_lt_upper_bound; lia.
Qed.

(** Same disk and cache; the counters may differ. *)
Definition same_disk (st st' : Device D) : Prop :=
  dev st' = dev st ∧ cache st' = cache st ∧ max_offset st' = max_offset st.

Lemma copy_at_end (l src : list Z) (n : nat) : (length src <= n)%nat →
  copy_at (l ++ replicate n 0) (length l) src = (l ++ src) ++ replicate (n - length src) 0.
Proof.
  intros Hn. unfold copy_at. rewrite take_app_length, drop_app_add, drop_replicate. by rewrite app_assoc.
Qed.

Lemma read_sectors_spec (off : Z) : 0 <= off → off + 4096 < 2 ^ 64 →
  ∀ fuel st buf_pos idx, coherent st →
  let src := if (idx =? 0)%nat then Z.to_nat (off mod 512) else 0%nat in
  (buf_pos <= 4096)%nat →
  ((buf_pos < 4096)%nat → (off / 512 + Z.of_nat idx) * 512 + Z.of_nat src = off + Z.of_nat buf_pos) →
  (1 <= fuel)%nat → (4096 - buf_pos + src <= 512 * (fuel - 1))%nat →
  ∃ st', read_loop fuel st (off / 512) (Z.to_nat (off mod 512)) buf_pos idx
      (bytes (dev st) off buf_pos ++ replicate (4096 - buf_pos) 0) = Some (bytes (dev st) off 4096, st') ∧
    same_disk st st'.
Proof.
  intros Hoff Hmax. induction fuel as [|fuel IH]; intros st buf_pos idx [Hc Hcoh] src Hpos Hidx Hf1 Hf; [lia|].
  cbn [read_loop]. unfold BLOCK_SIZE, SECTOR_SIZE. fold src.
  pose proof (Z.mod_pos_bound off 512 ltac:(lia)) as Hm. pose proof (Z.div_mod off 512 ltac:(lia)) as Hdm.
  destruct (Nat.ltb_spec buf_pos 4096) as [Hlt|Hge]; [|].
  - specialize (Hidx Hlt). set (n := Nat.min (512 - src) (4096 - buf_pos)).
    assert (src < 512)%nat as Hsrc by (subst src; destruct (idx =? 0)%nat; lia).
    assert (off / 512 +! Z.of_nat idx = (off + Z.of_nat buf_pos) / 512) as ->.
    { rewrite u64_small by (split; [apply Z.add_nonneg_nonneg; [apply Z.div_pos|]|]; lia).
      apply (Z.div_unique _ _ _ (Z.of_nat src)); lia. }
    assert (Z.to_nat ((off + Z.of_nat buf_pos) mod 512) = src) as Esrc.
    { rewrite <- (Z.mod_unique (off + Z.of_nat buf_pos) 512 (off / 512 + Z.of_nat idx) (Z.of_nat src)); lia. }
    assert (∀ b st1, same_disk st st1 → read_block (dev st) ((off + Z.of_nat buf_pos) / 512) = Some b →
      ∃ st', read_loop fuel st1 (off / 512) (Z.to_nat (off mod 512)) (buf_pos + n) (S idx)
        (copy_at (bytes (dev st) off buf_pos ++ replicate (4096 - buf_pos) 0) buf_pos (slice src n b)) =
        Some (bytes (dev st) off 4096, st') ∧ same_disk st st') as Hnext.
    { intros b st1 (E1 & E2 & E3) Hb. assert (length b = 512%nat) as Hlen.
      { eapply read_block_length, Hb. apply Z.div_pos; lia. }
      replace (slice src n b) with (bytes (dev st) (off + Z.of_nat buf_pos) n)
        by (rewrite <- Esrc; apply bytes_sector; [lia|done|done|lia]).
      pose proof (copy_at_end (bytes (dev st) off buf_pos) (bytes (dev st) (off + Z.of_nat buf_pos) n)
        (4096 - buf_pos)) as Hcopy. rewrite !bytes_length in Hcopy. rewrite Hcopy by lia.
      rewrite <- bytes_app. replace (4096 - buf_pos - n)%nat with (4096 - (buf_pos + n))%nat by lia.
      rewrite <- E1. destruct (IH st1 (buf_pos + n)%nat (S idx)) as (st' & -> & HS).
      - split; rewrite ?E1, ?E2; done.
      - lia.
      - cbn [Nat.eqb]. lia.
      - lia.
      - cbn [Nat.eqb]. lia.
      - exists st'. split; [done|]. destruct HS as (E1' & E2' & E3'). unfold same_disk. splits; congruence. }
    destruct (get (cache st) _) as [b|] eqn:Eg.
    + apply Hnext; [done|]. by apply Hcoh.
    + unfold block_read. destruct (read_block (dev st) _) as [b|] eqn:Eb; [by apply Hnext|].
      eexists. split; [apply f_equal, f_equal2; [|reflexivity]|done]. replace 4096%nat with (buf_pos + (4096 - buf_pos))%nat at 2 by lia.
      rewrite bytes_app. f_equal. symmetry.
      apply bytes_out; [apply sector_missing; [lia|done]|lia].
  - assert (buf_pos = 4096)%nat as -> by lia. exists st. rewrite Nat.sub_diag. cbn [replicate].
    by rewrite app_nil_r.
Qed.

(** The bytes from [off] on are [data] now, up to the end of the disk. *)
Definition wrote (d d' : D) (off : Z) (data : list Z) : Prop :=
  sectors d' = sectors d ∧ ∀ i, 0 <= i →
    byte d' i = if decide (off <= i < off + Z.of_nat (length data) ∧ i < 512 * sectors d)
                then data !! Z.to_nat (i - off) else byte d i.

Lemma wrote_nothing (d : D) (off : Z) (data : list Z) :
  data = [] ∨ 512 * sectors d <= off → wrote d d off data.
Proof.
  intros Hd. split; [done|]. intros i Hi. rewrite decide_False; [done|].
  destruct Hd as [->|]; cbn [length]; lia.
Qed.

Lemma wrote_trans (d d1 d2 : D) (off : Z) (c1 c2 : list Z) : 0 <= off →
  wrote d d1 off c1 → wrote d1 d2 (off + Z.of_nat (length c1)) c2 → wrote d d2 off (c1 ++ c2).
Proof.
  intros Ho [S1 H1] [S2 H2]. split; [congruence|]. intros i Hi. rewrite H2, H1, S1, length_app by done.
  destruct (decide (i < 512 * sectors d)) as [Hs|Hs]; [|by rewrite !decide_False by lia].
  destruct (decide (off <= i < off + Z.of_nat (length c1))) as [Hi1|Hi1].
  - rewrite decide_False, decide_True, decide_True by lia. rewrite lookup_app_l by lia. done.
  - destruct (decide (off + Z.of_nat (length c1) <= i < off + Z.of_nat (length c1) + Z.of_nat (length c2))).
    + rewrite decide_True, decide_True by lia. rewrite lookup_app_r by lia. f_equal. lia.
    + by rewrite !decide_False by lia.
Qed.

Lemma copy_at_lookup (dst src : list Z) (pos k : nat) : (pos + length src <= length dst)%nat →
  copy_at dst pos src !! k = if decide (pos <= k < pos + length src)%nat then src !! (k - pos)%nat else dst !! k.
Proof.
  intros Hlen. unfold copy_at. case_decide as Hk.
  - rewrite lookup_app_r, length_take, Nat.min_l by (rewrite ?length_take; lia).
    by rewrite lookup_app_l by lia.
  - destruct (decide (k < pos)%nat).
    + rewrite lookup_app_l by (rewrite length_take; lia). by rewrite lookup_take_lt.
    + rewrite !lookup_app_r, lookup_drop, length_take by (rewrite ?length_take; lia). f_equal. lia.
Qed.

Lemma copy_at_length (dst src : list Z) (pos : nat) : (pos + length src <= length dst)%nat →
  length (copy_at dst pos src) = length dst.
Proof. intros Hlen. unfold copy_at. rewrite !length_app, length_take, length_drop. lia. Qed.

(** Rewriting part of a sector writes those bytes. *)
Lemma sector_write (d : D) (cur : Z) (b chunk : list Z) :
  let so := Z.to_nat (cur mod 512) in
  0 <= cur → cur / 512 < sectors d → length b = 512%nat → (so + length chunk <= 512)%nat →
  read_block d (cur / 512) = Some b ∨ length chunk = 512%nat →
  ∃ d1, write_block d (cur / 512) (copy_at b so chunk) = Some d1 ∧ wrote d d1 cur chunk ∧
    ∀ s', read_block d1 s' = if decide (s' = cur / 512) then Some (copy_at b so chunk) else read_block d s'.
Proof.
  intros so Hcur Hs Hb Hso Hold.
  pose proof (Z.mod_pos_bound cur 512 ltac:(lia)) as Hm. pose proof (Z.div_mod cur 512 ltac:(lia)) as Hdm.
  destruct (write_block_ok d (cur / 512) (copy_at b so chunk)) as (d1 & Hw & Hsec & Hr);
    [split; [apply Z.div_pos|]; lia|rewrite copy_at_length; lia|].
  exists d1. splits; [done| |done]. split; [done|]. intros i Hi. unfold byte. rewrite Hr.
  pose proof (Z.mod_pos_bound i 512 ltac:(lia)) as Hmi. pose proof (Z.div_mod i 512 ltac:(lia)) as Hdi.
  destruct (decide (i / 512 = cur / 512)) as [E|E].
  - rewrite copy_at_lookup by lia. rewrite E in *. destruct (decide (cur <= i < cur + Z.of_nat (length chunk))).
    + rewrite !decide_True by lia. f_equal. lia.
    + rewrite !decide_False by lia. destruct Hold as [-> |Hfull]; [done|]. lia.
  - rewrite decide_False; [done|]. intros [[H1 H2] _]. destruct E.
    symmetry. apply (Z.div_unique _ _ _ (Z.of_nat so + (i - cur))); lia.
Qed.

Lemma old_sector_spec (st : Device D) (cur : Z) (b : bool) : coherent st → 0 <= cur →
  let '(sector, st1) := if b then old_sector st (cur / 512) else (Some (replicate 512 0), st) in
  same_disk st st1 ∧
  match sector with
  | None => 512 * sectors (dev st) <= cur
  | Some x => length x = 512%nat ∧ (read_block (dev st) (cur / 512) = Some x ∨ b = false)
  end.
Proof.
  intros [_ Hcoh] Hcur. assert (0 <= cur / 512) by (apply Z.div_pos; lia).
  destruct b; [|by split; [|split; [apply length_replicate|right]]].
  unfold old_sector, get. destruct (map (cache st) !! (cur / 512)) as [x|] eqn:E.
  - apply Hcoh in E. split; [done|]. split; [by eapply read_block_length|by left].
  - unfold block_read. split; [done|]. destruct (read_block (dev st) (cur / 512)) as [x|] eqn:E'.
    + split; [by eapply read_block_length|by left].
    + by apply sector_missing.
Qed.

Lemma coherent_insert (st : Device D) (d1 : D) (s : Z) (b : list Z) (r w m : Z) :
  coherent st → (∀ s', read_block d1 s' = if decide (s' = s) then Some b else read_block (dev st) s') →
  coherent (mkDevice d1 (insert (cache st) s b) r w m).
Proof.
  intros [Hc Hcoh] Hr. destruct (cache_insert_ok (cache st) s b Hc) as [Hok Hsub]. split; [done|].
  intros s' b' Hb'. cbn [cache dev] in *. eapply lookup_weaken in Hb'; [|exact Hsub]. rewrite Hr.
  apply lookup_insert_Some in Hb' as [[-> ->]|[Hne Hb']]; [by rewrite decide_True|].
  rewrite decide_False by done. by apply Hcoh.
Qed.

Lemma drop_slice (l : list Z) (a n : nat) : drop a l = slice a n l ++ drop (a + n) l.
Proof. unfold slice. by rewrite <- drop_drop, take_drop. Qed.

Lemma write_sectors_spec (data : list Z) : ∀ fuel st data_pos cur,
  coherent st → 0 <= cur → cur + Z.of_nat (length data - data_pos) < 2 ^ 64 → (data_pos <= length data)%nat →
  (length data - data_pos < fuel)%nat →
  ∃ st', write_loop fuel st data data_pos cur = Some st' ∧ coherent st' ∧
    wrote (dev st) (dev st') cur (drop data_pos data) ∧ max_offset st' = max_offset st.
Proof.
  induction fuel as [|fuel IH]; intros st dp cur Hcoh Hcur Hmax Hdp Hf; [lia|].
  cbn [write_loop]. unfold SECTOR_SIZE. destruct (Nat.ltb_spec dp (length data)) as [Hlt|Hge].
  2:{ exists st. splits; [done|done| |done]. apply wrote_nothing. left. apply drop_ge. lia. }
  set (so := Z.to_nat (cur mod Z.of_nat 512)). set (n := Nat.min (512 - so) (length data - dp)).
  pose proof (Z.mod_pos_bound cur 512 ltac:(lia)) as Hm.
  assert (so < 512)%nat as Hso by (unfold so; lia).
  pose proof (old_sector_spec st cur (negb (so =? 0)%nat || negb (n =? 512)%nat) Hcoh Hcur) as Hold.
  change (Z.of_nat 512) with 512 in *.
  destruct (if negb (so =? 0)%nat || negb (n =? 512)%nat then _ else _) as [sector st1].
  destruct Hold as [(E1 & E2 & E3) Hold]. destruct sector as [b|].
  2:{ exists st1. splits; [done|by unfold coherent; rewrite E1, E2| |done]. rewrite E1. apply wrote_nothing. by right. }
  destruct Hold as [Hb Hold]. assert (length (slice dp n data) = n) as Hn.
  { unfold slice. rewrite length_take, length_drop. lia. }
  unfold block_write. rewrite E1. destruct (decide (cur / 512 < sectors (dev st))) as [Hs|Hs].
  - destruct (sector_write (dev st) cur b (slice dp n data)) as (d1 & Hw & Hwr & Hr); fold so; try lia.
    { destruct Hold as [?|Hfull]; [by left|right]. rewrite Hn. apply orb_false_iff in Hfull as [_ Hfull].
      apply negb_false_iff, Nat.eqb_eq in Hfull. lia. }
    fold so in Hw, Hr. rewrite Hw. cbv iota.
    rewrite (u64_small (cur + Z.of_nat n)) by lia. unfold cache_insert. cbn [dev cache reads writes max_offset]. rewrite E2.
    edestruct (IH (mkDevice d1 (insert (cache st) (cur / 512) (copy_at b so (slice dp n data))) (reads st1)
      (writes st1 +! 1) (max_offset st1)) (dp + n)%nat (cur + Z.of_nat n)) as (st' & -> & Hc' & Hw' & Hm').
    + by apply coherent_insert.
    + lia.
    + lia.
    + lia.
    + lia.
    + exists st'. splits; [done|done| |by rewrite Hm'].
      rewrite (drop_slice data dp n). eapply wrote_trans; [done|done|]. by rewrite Hn.
  - rewrite write_block_out by lia. eexists. split; [done|]. split; [|split; [|done]].
    + unfold coherent. cbn [cache dev]. rewrite E2. apply Hcoh.
    + cbn [dev]. apply wrote_nothing. right. pose proof (Z.div_mod cur 512 ltac:(lia)). lia.
Qed.

(** ** ext4's view is a flat array of bytes *)

Lemma read_offset_spec (st : Device D) (off : Z) : coherent st → 0 <= off → off + 4096 < 2 ^ 64 →
  ∃ st', read_offset st off =
      Some (if is_offset_valid st (off + 4095) then bytes (dev st) off 4096 else replicate 4096 0, st') ∧
    same_disk st st'.
Proof.
  intros Hcoh Hoff Hmax. unfold read_offset, BLOCK_SIZE, SECTOR_SIZE. change (Z.of_nat 4096) with 4096.
  change (Z.of_nat 512) with 512.
  rewrite (u64_small (off + 4096)), u64_small by lia. replace (off + 4096 - 1) with (off + 4095) by lia.
  change (is_offset_valid (count_read st) (off + 4095)) with (is_offset_valid st (off + 4095)).
  destruct (is_offset_valid st (off + 4095)); cbn [negb].
  - pose proof (Z.mod_pos_bound off 512 ltac:(lia)). pose proof (Z.div_mod off 512 ltac:(lia)).
    apply (read_sectors_spec off Hoff Hmax 10 (count_read st) 0 0); [done|cbn [Nat.eqb]; lia..].
  - by eexists.
Qed.

Lemma write_offset_spec (st : Device D) (off : Z) (data : list Z) :
  coherent st → 0 <= off → off + Z.of_nat (length data) < 2 ^ 64 →
  ∃ st', write_offset st off data = Some st' ∧ coherent st' ∧ max_offset st' = max_offset st ∧
    wrote (dev st) (dev st') off (if is_offset_valid st (off + Z.of_nat (length data) - 1) then data else []).
Proof.
  intros Hcoh Hoff Hmax. unfold write_offset. rewrite (u64_small (off + _)) by lia.
  change (is_offset_valid (count_write st) ?x) with (is_offset_valid st x).
  destruct data as [|x data].
  { exists (count_write st). splits; [by destruct (is_offset_valid _ _)|done|done|].
    apply wrote_nothing. left. by destruct (is_offset_valid _ _). }
  rewrite u64_small by (cbn [length] in *; lia). set (l := x :: data) in *.
  destruct (is_offset_valid st _); cbn [negb].
  - destruct (write_sectors_spec l (S (length l)) (count_write st) 0 off) as (st' & -> & Hc & Hw & Hm); try done; try lia.
    exists st'. by splits.
  - exists (count_write st). splits; [done..|]. apply wrote_nothing. by left.
Qed.
End coherence.

Inductive op := Read (off : Z) | Write (off : Z) (data : list Z) | SetMax (m : Z).

Definition op_ok (o : op) : Prop :=
  match o with
  | Read off => 0 <= off ∧ off + 4096 < 2 ^ 64
  | Write off data => 0 <= off ∧ off + Z.of_nat (length data) < 2 ^ 64
  | SetMax _ => True
  end.

(** Specification: an array of bytes and a limit. *)
Record Flat := mkFlat { content : Z → option Z; limit : Z }.

Definition flat_valid (f : Flat) (i : Z) : bool := (limit f =? 0) || (i <? limit f).

Definition flat_step (f : Flat) (o : op) : list Z * Flat :=
  match o with
  | Read off =>
      (if flat_valid f (off + 4095) then (fun k => default 0 (content f (off + Z.of_nat k))) <$> seq 0 4096
       else replicate 4096 0, f)
  | Write off data =>
      ([], if flat_valid f (off + Z.of_nat (length data) - 1) then
             mkFlat (fun i => if decide (off <= i < off + Z.of_nat (length data) ∧ is_Some (content f i))
                              then data !! Z.to_nat (i - off) else content f i) (limit f)
           else f)
  | SetMax m => ([], mkFlat (content f) m)
  end.

Section refinement.
Context {D : Type} `{BlockIO D, !BlockLaws D}.

Definition step (st : Device D) (o : op) : option (list Z * Device D) :=
  match o with
  | Read off => read_offset st off
  | Write off data => match write_offset st off data with Some st' => Some ([], st') | None => None end
  | SetMax m => Some ([], set_max_disk_offset st m)
  end.

Fixpoint run (st : Device D) (ops : list op) : option (list (list Z) * Device D) :=
  match ops with
  | [] => Some ([], st)
  | o :: ops' =>
      match step st o with
      | None => None
      | Some (r, st1) => match run st1 ops' with Some (rs, st2) => Some (r :: rs, st2) | None => None end
      end
  end.

Fixpoint flat_run (f : Flat) (ops : list op) : list (list Z) * Flat :=
  match ops with
  | [] => ([], f)
  | o :: ops' => let '(r, f1) := flat_step f o in let '(rs, f2) := flat_run f1 ops' in (r :: rs, f2)
  end.

Definition refines (st : Device D) (f : Flat) : Prop :=
  coherent st ∧ limit f = max_offset st ∧ ∀ i, 0 <= i → byte (dev st) i = content f i.

Lemma refines_valid (st : Device D) (f : Flat) (i : Z) : refines st f → is_offset_valid st i = flat_valid f i.
Proof. intros (_ & E & _). unfold is_offset_valid, flat_valid. by rewrite E. Qed.

Lemma step_refines (st : Device D) (f : Flat) (o : op) : refines st f → op_ok o →
  ∃ st', step st o = Some ((flat_step f o).1, st') ∧ refines st' (flat_step f o).2.
Proof.
  intros Href Ho. pose proof Href as (Hcoh & Hlim & Hb). destruct o as [off|off data|m]; cbn [step flat_step].
  - destruct (read_offset_spec st off Hcoh) as (st' & -> & E1 & E2 & E3); [apply Ho..|].
    exists st'. rewrite (refines_valid st f) by done. split.
    + do 2 f_equal. case_match; [|done]. unfold bytes. apply list_fmap_ext. intros i x _. rewrite Hb; [done|].
      destruct Ho. lia.
    + unfold refines, coherent. cbn [snd]. by rewrite E1, E2, E3.
  - destruct (write_offset_spec st off data Hcoh) as (st' & -> & Hc & Hm & Hs & Hw); [apply Ho..|].
    exists st'. split; [done|]. rewrite (refines_valid st f) in Hw by done. cbn [snd].
    destruct (flat_valid f _); (split; [done|]; split; [by rewrite Hm|]); intros i Hi; cbn [content]; rewrite Hw by done.
    + rewrite <- (Hb i Hi). destruct (decide (off <= i < off + Z.of_nat (length data) ∧ i < 512 * sectors (dev st))) as [Hd|Hd].
      * rewrite decide_True; [done|]. rewrite byte_is_Some by done. done.
      * rewrite decide_False; [done|]. by rewrite byte_is_Some.
    + rewrite decide_False by (cbn [length]; lia). by apply Hb.
  - eexists. split; [done|]. split; [apply Hcoh|]. by split.
Qed.

(** C9: ext4 sees a flat disk.  Through the write-through sector cache, any
    sequence of block reads and byte-range writes returns what the same
    sequence returns on a plain array of bytes: reads give the bytes last
    written (zeros beyond the disk or the limit), writes change exactly their
    range.  The cache never holds more than 2048 sectors, each one equal to
    the sector on the disk. *)
Theorem cached_disk_is_flat (st : Device D) (ops : list op) :
  coherent st → Forall op_ok ops →
  let '(rs, f) := flat_run (mkFlat (byte (dev st)) (max_offset st)) ops in
  ∃ st', run st ops = Some (rs, st') ∧ (∀ i, 0 <= i → byte (dev st') i = content f i) ∧
    coherent st' ∧ (size (map (cache st')) <= 2048)%nat.
Proof.
  intros Hcoh Hops. assert (refines st (mkFlat (byte (dev st)) (max_offset st))) as Href by done.
  revert Href. generalize (mkFlat (byte (dev st)) (max_offset st)). intros f Href. clear Hcoh.
  revert st f Href. induction Hops as [|o ops Ho _ IH]; intros st f Href; cbn [flat_run run].
  - exists st. destruct Href as ([Hc Hcoh] & _ & Hb). splits; [done|done|done|]. by apply cache_size.
  - destruct (step_refines st f o Href Ho) as (st1 & -> & Href1). destruct (flat_step f o) as [r f1].
    specialize (IH st1 f1 Href1). cbn [fst]. destruct (flat_run f1 ops) as [rs f2].
    destruct IH as (st' & -> & H'). by exists st'.
Qed.
End refinement.

(** ** FAT32's view *)

Section fat32.
Context {D : Type} `{BlockIO D, !BlockLaws D}.

(** The sector and offset of byte [t] after [pos]. *)
Lemma sector_of (pos : Z) (t : nat) : 0 <= pos → pos + Z.of_nat t < 2 ^ 64 →
  let bo := (Z.to_nat (pos mod 512) + t)%nat in
  pos / 512 +! Z.of_nat (bo `div` 512)%nat = (pos + Z.of_nat t) / 512 ∧
  (bo `mod` 512)%nat = Z.to_nat ((pos + Z.of_nat t) mod 512).
Proof.
  intros Hpos Hmax bo. pose proof (Z.mod_pos_bound pos 512 ltac:(lia)) as Hm.
  pose proof (Z.div_mod pos 512 ltac:(lia)) as Hdm.
  pose proof (Nat.div_mod bo 512 ltac:(lia)) as Hbo. pose proof (Nat.mod_upper_bound bo 512 ltac:(lia)) as Hbm.
  assert (pos + Z.of_nat t = 512 * (pos / 512 + Z.of_nat (bo `div` 512)) + Z.of_nat (bo `mod` 512)) as E.
  { subst bo. lia. }
  split.
  - rewrite u64_small by (split; [apply Z.add_nonneg_nonneg; [apply Z.div_pos|]|]; lia).
    apply (Z.div_unique _ _ _ (Z.of_nat (bo `mod` 512))); lia.
  - rewrite <- (Z.mod_unique _ 512 _ (Z.of_nat (bo `mod` 512)) ltac:(lia) E). lia.
Qed.

Lemma fat_read_loop_spec (d : D) (pos : Z) (buf : list Z) :
  0 <= pos → pos + Z.of_nat (length buf) < 2 ^ 64 → buf ≠ [] → ∀ fuel t,
  (t <= length buf)%nat → (length buf - t < fuel)%nat → t = 0%nat ∨ pos + Z.of_nat t <= 512 * sectors d →
  fat_read_loop fuel d (pos / 512) (Z.to_nat (pos mod 512)) (length buf) t (bytes d pos t ++ drop t buf) =
  Some (if decide (pos + Z.of_nat (length buf) <= 512 * sectors d) then Ok (bytes d pos (length buf)) else Err tt).
Proof.
  intros Hpos Hmax Hne. assert (0 < length buf)%nat as Hlen by (destruct buf; simpl; [done|lia]).
  induction fuel as [|fuel IH]; intros t Ht Hf Hin; [lia|]. cbn [fat_read_loop].
  destruct (Nat.ltb_spec t (length buf)) as [Hlt|Hge].
  2:{ assert (t = length buf) as -> by lia. rewrite drop_all, app_nil_r, decide_True by lia. done. }
  destruct (sector_of pos t) as [-> ->]; [lia..|].
  pose proof (Z.mod_pos_bound (pos + Z.of_nat t) 512 ltac:(lia)) as Hm.
  pose proof (Z.div_mod (pos + Z.of_nat t) 512 ltac:(lia)) as Hdm.
  destruct (read_block d _) as [b|] eqn:Eb.
  - set (n := Nat.min _ _). assert ((pos + Z.of_nat t) / 512 < sectors d) as Hs.
    { apply Z.nle_gt. intros Hle. by rewrite read_block_out in Eb. }
    rewrite <- (bytes_sector d (pos + Z.of_nat t) b n);
      [|lia|done|eapply read_block_length, Eb; apply Z.div_pos; lia|lia].
    unfold copy_at. rewrite take_app_length' by (by rewrite bytes_length).
    rewrite drop_app_ge, drop_drop, !bytes_length by (rewrite bytes_length; lia).
    replace (t + (t + n - t))%nat with (t + n)%nat by lia. rewrite app_assoc, <- bytes_app. apply IH; lia.
  - apply sector_missing in Eb; [|lia]. by rewrite decide_False by lia.
Qed.

Lemma fat_write_loop_spec (pos : Z) (buf : list Z) : 0 <= pos → pos + Z.of_nat (length buf) < 2 ^ 64 → buf ≠ [] →
  ∀ fuel d t, (t <= length buf)%nat → (length buf - t < fuel)%nat → t = 0%nat ∨ pos + Z.of_nat t <= 512 * sectors d →
  ∃ d', fat_write_loop fuel d (pos / 512) (Z.to_nat (pos mod 512)) buf t =
      Some (if decide (pos + Z.of_nat (length buf) <= 512 * sectors d) then Ok tt else Err tt, d') ∧
    wrote d d' (pos + Z.of_nat t) (drop t buf).
Proof.
  intros Hpos Hmax Hne. assert (0 < length buf)%nat as Hlen by (destruct buf; simpl; [done|lia]).
  induction fuel as [|fuel IH]; intros d t Ht Hf Hin; [lia|]. cbn [fat_write_loop].
  destruct (Nat.ltb_spec t (length buf)) as [Hlt|Hge].
  2:{ assert (t = length buf) as -> by lia. exists d. rewrite decide_True by lia. split; [done|].
      apply wrote_nothing. left. by rewrite drop_all. }
  destruct (sector_of pos t) as [-> ->]; [lia..|].
  pose proof (Z.mod_pos_bound (pos + Z.of_nat t) 512 ltac:(lia)) as Hm.
  pose proof (Z.div_mod (pos + Z.of_nat t) 512 ltac:(lia)) as Hdm.
  destruct (read_block d _) as [b|] eqn:Eb.
  - set (n := Nat.min _ _). assert ((pos + Z.of_nat t) / 512 < sectors d) as Hs.
    { apply Z.nle_gt. intros Hle. by rewrite read_block_out in Eb. }
    assert (length (slice t n buf) = n) as Hn by (unfold slice; rewrite length_take, length_drop; lia).
    destruct (sector_write d (pos + Z.of_nat t) b (slice t n buf)) as (d1 & -> & Hw & _);
      [lia|lia|eapply read_block_length, Eb; apply Z.div_pos; lia|lia|by left|].
    pose proof Hw as [Hsec _]. destruct (IH d1 (t + n)%nat) as (d' & -> & Hw'); [lia|lia|lia|].
    exists d'. rewrite Hsec. split; [done|]. rewrite (drop_slice buf t n).
    eapply wrote_trans; [lia|done|]. rewrite Hn. by replace (pos + Z.of_nat t + Z.of_nat n) with (pos + Z.of_nat (t + n)) by lia.
  - apply sector_missing in Eb; [|lia]. exists d. rewrite decide_False by lia. split; [done|].
    apply wrote_nothing. by right.
Qed.

(** What FAT32 writes it reads back.  A write of a non-empty buffer that
    fits on the disk stores exactly its bytes and moves the position behind
    them; seeking back and reading that many bytes returns them.  If it does
    not fit, the bytes up to the end of the disk are stored, the call fails and
    the position stays. *)
Theorem fat_storage_roundtrip (d : D) (st : Fat32Storage) (data buf : list Z) :
  data ≠ [] → length buf = length data → 0 <= position st < capacity_bytes st →
  position st + Z.of_nat (length data) < 2 ^ 64 →
  ∃ r st' d', write d st data = Some (r, st', d') ∧ wrote d d' (position st) data ∧
    if decide (position st + Z.of_nat (length data) <= 512 * sectors d) then
      r = Ok (length data) ∧ position st' = position st + Z.of_nat (length data) ∧
      read d' (seek st' (Start (position st))).2 buf = Some (Ok (length data, data), st')
    else r = Err tt ∧ st' = st.
Proof.
  intros Hne Hbuf [Hp0 Hp1] Hmax. unfold write, SECTOR_SIZE. change (Z.of_nat 512) with 512.
  rewrite (proj2 (Nat.eqb_neq _ _)) by (by destruct data). rewrite (proj2 (Z.leb_gt _ _)) by done.
  destruct (fat_write_loop_spec (position st) data Hp0 Hmax Hne (S (length data)) d 0) as (d' & -> & Hw); [lia|lia|by left|].
  rewrite Z.add_0_r, drop_0 in Hw. case_decide as Hfit; [|by eexists _, st, d'].
  eexists _, _, d'. split; [done|]. split; [done|]. rewrite u64_small by lia. cbn [position]. splits; [done|done|].
  cbn [seek snd capacity_bytes]. unfold read, SECTOR_SIZE. cbn [position capacity_bytes]. change (Z.of_nat 512) with 512.
  rewrite Hbuf, (proj2 (Nat.eqb_neq _ _)) by (by destruct data). rewrite (proj2 (Z.leb_gt _ _)) by done.
  pose proof (fat_read_loop_spec d' (position st) buf Hp0) as Hr. rewrite Hbuf in Hr.
  specialize (Hr Hmax ltac:(by destruct buf, data) (S (length data)) 0%nat ltac:(lia) ltac:(lia) ltac:(by left)).
  rewrite drop_0 in Hr. cbn [bytes seq fmap list_fmap app] in Hr. rewrite Hr.
  destruct Hw as [Hsec Hw]. rewrite Hsec, decide_True by done. rewrite u64_small by lia. do 4 f_equal.
  apply list_eq_same_length with (n := length data); [done|apply bytes_length|]. intros k x y Hk Hx Hy.
  rewrite bytes_lookup, Hw, decide_True in Hx by lia.
  replace (Z.to_nat (position st + Z.of_nat k - position st)) with k in Hx by lia. rewrite Hy in Hx. by injection Hx.
Qed.
End fat32.

(** ** A disk in memory *)

Abbreviation ram_disk := (list (list Z)).

#[global] Instance ram_disk_io : BlockIO ram_disk := {
  read_block d s := if decide (0 <= s) then list.resize 512 0 <$> (d !! Z.to_nat s) else None;
  write_block d s b := if decide (0 <= s < Z.of_nat (length d)) then Some (<[Z.to_nat s := b]> d) else None
}.

#[global, refine] Instance ram_disk_laws : BlockLaws ram_disk := { sectors d := Z.of_nat (length d) }.
Proof.
  - intros d s Hs. cbn [read_block ram_disk_io]. rewrite decide_True by lia.
    destruct (lookup_lt_is_Some_2 d (Z.to_nat s)) as [b ->]; [lia|]. eexists. split; [done|]. apply length_resize.
  - intros d s Hs. cbn [read_block ram_disk_io]. case_decide; [|done]. by rewrite lookup_ge_None_2 by lia.
  - intros d s b Hs Hb. cbn [read_block write_block ram_disk_io]. rewrite decide_True by lia.
    eexists. split; [done|]. rewrite length_insert. split; [done|]. intros s'. destruct (decide (s' = s)) as [->|Hne].
    + rewrite decide_True, list_lookup_insert_eq by lia. simpl. by rewrite <- Hb, resize_all.
    + case_decide; [|done]. by rewrite list_lookup_insert_ne by lia.
  - intros d s b Hs. cbn [write_block ram_disk_io]. by rewrite decide_False by lia.
Defined.

Definition blank (n : nat) : ram_disk := replicate n (replicate 512 0).

Definition blank_device : Device ram_disk := mkDevice (blank 16) new 0 0 8192.

Lemma cached_disk_is_flat_witness :
  let ops := [Write 510 [1; 2; 3]; Read 509; Write 8190 [7]; Read 8000] in
  let '(rs, _) := flat_run (mkFlat (byte (dev blank_device)) 8192) ops in
  take 5 <$> rs = [[]; [0; 1; 2; 3; 0]; []; [0; 0; 0; 0; 0]] ∧ ∃ st', run blank_device ops = Some (rs, st').
Proof.
  pose proof (cached_disk_is_flat blank_device [Write 510 [1; 2; 3]; Read 509; Write 8190 [7]; Read 8000]) as H.
  cbv zeta. change (mkFlat _ 8192) with (mkFlat (byte (dev blank_device)) (max_offset blank_device)) in *.
  destruct (flat_run _ _) as [rs f] eqn:E. destruct H as (st' & Hrun & _).
  - split; [|by intros s b]. unfold cache_ok. splits; [constructor| |cbn; lia].
    intros s. cbn. rewrite lookup_empty. split; [by intros ?%not_elem_of_nil|by intros ?%is_Some_None].
  - repeat constructor; cbn; lia.
  - split; [|by exists st']. apply (f_equal fst) in E. cbn [fst] in E. rewrite <- E. vm_compute. reflexivity.
Defined.

Lemma fat_storage_roundtrip_witness :
  let st := mkStorage 510 8192 in
  ∃ r st' d', write (blank 16) st [1; 2; 3] = Some (r, st', d') ∧ r = Ok 3%nat ∧
    read d' (seek st' (Start 510)).2 [0; 0; 0] = Some (Ok (3%nat, [1; 2; 3]), st').
Proof.
  destruct (fat_storage_roundtrip (blank 16) (mkStorage 510 8192) [1; 2; 3] [0; 0; 0])
    as (r & st' & d' & H1 & _ & H2); [done|done|cbn; lia|cbn; lia|].
  rewrite decide_True in H2 by (cbn; lia). exists r, st', d'. split; [exact H1|]. split; [apply H2|apply H2].
Defined.
End Disk.
