(* ===== verification/Ext4.v ===== *)
(** Ext4: checksums, allocation bitmaps and the inode allocator of the vendored
    ext4 library (kernel/vendor/ext4_rs/src), on the block device of [Disk].

    A block group descriptor is its 64 bytes in memory, as the library reads
    them from a block; the superblock has the fields used here. *)

From stdpp Require Import base numbers list gmap sets.
From S2P Require Import Prelude Disk.
Local Open Scope Z_scope.
Local Open Scope rust_scope.

(** ** utils/crc.rs *)

Module Crc.

Definition CRC32C_TAB : list Z := [
  0x00000000; 0xF26B8303; 0xE13B70F7; 0x1350F3F4; 0xC79A971F; 0x35F1141C; 0x26A1E7E8; 0xD4CA64EB;
  0x8AD958CF; 0x78B2DBCC; 0x6BE22838; 0x9989AB3B; 0x4D43CFD0; 0xBF284CD3; 0xAC78BF27; 0x5E133C24;
  0x105EC76F; 0xE235446C; 0xF165B798; 0x030E349B; 0xD7C45070; 0x25AFD373; 0x36FF2087; 0xC494A384;
  0x9A879FA0; 0x68EC1CA3; 0x7BBCEF57; 0x89D76C54; 0x5D1D08BF; 0xAF768BBC; 0xBC267848; 0x4E4DFB4B;
  0x20BD8EDE; 0xD2D60DDD; 0xC186FE29; 0x33ED7D2A; 0xE72719C1; 0x154C9AC2; 0x061C6936; 0xF477EA35;
  0xAA64D611; 0x580F5512; 0x4B5FA6E6; 0xB93425E5; 0x6DFE410E; 0x9F95C20D; 0x8CC531F9; 0x7EAEB2FA;
  0x30E349B1; 0xC288CAB2; 0xD1D83946; 0x23B3BA45; 0xF779DEAE; 0x05125DAD; 0x1642AE59; 0xE4292D5A;
  0xBA3A117E; 0x4851927D; 0x5B016189; 0xA96AE28A; 0x7DA08661; 0x8FCB0562; 0x9C9BF696; 0x6EF07595;
  0x417B1DBC; 0xB3109EBF; 0xA0406D4B; 0x522BEE48; 0x86E18AA3; 0x748A09A0; 0x67DAFA54; 0x95B17957;
  0xCBA24573; 0x39C9C670; 0x2A993584; 0xD8F2B687; 0x0C38D26C; 0xFE53516F; 0xED03A29B; 0x1F682198;
  0x5125DAD3; 0xA34E59D0; 0xB01EAA24; 0x42752927; 0x96BF4DCC; 0x64D4CECF; 0x77843D3B; 0x85EFBE38;
  0xDBFC821C; 0x2997011F; 0x3AC7F2EB; 0xC8AC71E8; 0x1C661503; 0xEE0D9600; 0xFD5D65F4; 0x0F36E6F7;
  0x61C69362; 0x93AD1061; 0x80FDE395; 0x72966096; 0xA65C047D; 0x5437877E; 0x4767748A; 0xB50CF789;
  0xEB1FCBAD; 0x197448AE; 0x0A24BB5A; 0xF84F3859; 0x2C855CB2; 0xDEEEDFB1; 0xCDBE2C45; 0x3FD5AF46;
  0x7198540D; 0x83F3D70E; 0x90A324FA; 0x62C8A7F9; 0xB602C312; 0x44694011; 0x5739B3E5; 0xA55230E6;
  0xFB410CC2; 0x092A8FC1; 0x1A7A7C35; 0xE811FF36; 0x3CDB9BDD; 0xCEB018DE; 0xDDE0EB2A; 0x2F8B6829;
  0x82F63B78; 0x709DB87B; 0x63CD4B8F; 0x91A6C88C; 0x456CAC67; 0xB7072F64; 0xA457DC90; 0x563C5F93;
  0x082F63B7; 0xFA44E0B4; 0xE9141340; 0x1B7F9043; 0xCFB5F4A8; 0x3DDE77AB; 0x2E8E845F; 0xDCE5075C;
  0x92A8FC17; 0x60C37F14; 0x73938CE0; 0x81F80FE3; 0x55326B08; 0xA759E80B; 0xB4091BFF; 0x466298FC;
  0x1871A4D8; 0xEA1A27DB; 0xF94AD42F; 0x0B21572C; 0xDFEB33C7; 0x2D80B0C4; 0x3ED04330; 0xCCBBC033;
  0xA24BB5A6; 0x502036A5; 0x4370C551; 0xB11B4652; 0x65D122B9; 0x97BAA1BA; 0x84EA524E; 0x7681D14D;
  0x2892ED69; 0xDAF96E6A; 0xC9A99D9E; 0x3BC21E9D; 0xEF087A76; 0x1D63F975; 0x0E330A81; 0xFC588982;
  0xB21572C9; 0x407EF1CA; 0x532E023E; 0xA145813D; 0x758FE5D6; 0x87E466D5; 0x94B49521; 0x66DF1622;
  0x38CC2A06; 0xCAA7A905; 0xD9F75AF1; 0x2B9CD9F2; 0xFF56BD19; 0x0D3D3E1A; 0x1E6DCDEE; 0xEC064EED;
  0xC38D26C4; 0x31E6A5C7; 0x22B65633; 0xD0DDD530; 0x0417B1DB; 0xF67C32D8; 0xE52CC12C; 0x1747422F;
  0x49547E0B; 0xBB3FFD08; 0xA86F0EFC; 0x5A048DFF; 0x8ECEE914; 0x7CA56A17; 0x6FF599E3; 0x9D9E1AE0;
  0xD3D3E1AB; 0x21B862A8; 0x32E8915C; 0xC083125F; 0x144976B4; 0xE622F5B7; 0xF5720643; 0x07198540;
  0x590AB964; 0xAB613A67; 0xB831C993; 0x4A5A4A90; 0x9E902E7B; 0x6CFBAD78; 0x7FAB5E8C; 0x8DC0DD8F;
  0xE330A81A; 0x115B2B19; 0x020BD8ED; 0xF0605BEE; 0x24AA3F05; 0xD6C1BC06; 0xC5914FF2; 0x37FACCF1;
  0x69E9F0D5; 0x9B8273D6; 0x88D28022; 0x7AB90321; 0xAE7367CA; 0x5C18E4C9; 0x4F48173D; 0xBD23943E;
  0xF36E6F75; 0x0105EC76; 0x12551F82; 0xE03E9C81; 0x34F4F86A; 0xC69F7B69; 0xD5CF889D; 0x27A40B9E;
  0x79B737BA; 0x8BDCB4B9; 0x988C474D; 0x6AE7C44E; 0xBE2DA0A5; 0x4C4623A6; 0x5F16D052; 0xAD7D5351].

Definition EXT4_CRC32_INIT : Z := 0xFFFFFFFF.

Fixpoint crc32 (size : nat) (crc : Z) (p tab : list Z) : exec Z :=
  match size with
  | O => Ret crc
  | S size' =>
      match p with
      | [] => Panic
      | b :: p' =>
          match tab !! Z.to_nat (Z.lxor (u8 crc) b) with
          | None => Panic
          | Some x => crc32 size' (Z.lxor x (Z.shiftr crc 8)) p' tab
          end
      end
  end.

Definition ext4_crc32c (crc : Z) (buf : list Z) (size : Z) : exec Z := crc32 (Z.to_nat size) crc buf CRC32C_TAB.

(** *** Reference: the polynomial 0x1EDC6F41, reflected, one bit at a time *)

Definition POLY : Z := 0x82F63B78.

Definition bit_step (c : Z) : Z := Z.lxor (Z.shiftr c 1) (if Z.testbit c 0 then POLY else 0).

Fixpoint bit_steps (n : nat) (c : Z) : Z :=
  match n with
  | O => c
  | S n' => bit_steps n' (bit_step c)
  end.

Definition byte_step (crc b : Z) : Z := bit_steps 8 (Z.lxor crc b).

Definition crc_spec (crc : Z) (buf : list Z) : Z := foldl byte_step crc buf.

Lemma bit_step_lxor (a b : Z) : bit_step (Z.lxor a b) = Z.lxor (bit_step a) (bit_step b).
Proof.
  unfold bit_step. rewrite Z.lxor_spec, Z.shiftr_lxor. rewrite !Z.lxor_assoc. f_equal.
  rewrite <- !Z.lxor_assoc, (Z.lxor_comm _ (Z.shiftr b 1)), !Z.lxor_assoc. f_equal.
  destruct (Z.testbit a 0), (Z.testbit b 0); cbn [xorb]; rewrite ?Z.lxor_0_l, ?Z.lxor_0_r, ?Z.lxor_nilpotent; done.
Qed.

Lemma bit_steps_lxor (n : nat) : ∀ a b, bit_steps n (Z.lxor a b) = Z.lxor (bit_steps n a) (bit_steps n b).
Proof. induction n as [|n IH]; intros a b; [done|]. cbn [bit_steps]. by rewrite bit_step_lxor, IH. Qed.

Lemma bit_steps_shiftl (n : nat) (a : Z) : bit_steps n (Z.shiftl a (Z.of_nat n)) = a.
Proof.
  induction n as [|n IH]; [by rewrite Z.shiftl_0_r|]. cbn [bit_steps].
  assert (bit_step (Z.shiftl a (Z.of_nat (S n))) = Z.shiftl a (Z.of_nat n)) as ->; [|done].
  unfold bit_step. rewrite Z.shiftl_spec_low, Z.lxor_0_r, Z.shiftr_shiftl_l by lia. f_equal. lia.
Qed.

(** The table holds the eight steps of each byte. *)
Lemma table_entry (b : Z) : 0 <= b < 256 → CRC32C_TAB !! Z.to_nat b = Some (bit_steps 8 b).
Proof.
  intros Hb. assert (CRC32C_TAB = (fun k => bit_steps 8 (Z.of_nat k)) <$> seq 0 256) as -> by (vm_compute; reflexivity).
  rewrite list_lookup_fmap, lookup_seq_lt by lia.
  change (Some (bit_steps 8 (Z.of_nat (0 + Z.to_nat b))) = Some (bit_steps 8 b)).
  by rewrite Nat.add_0_l, Z2Nat.id by lia.
Qed.

Lemma split_byte (c : Z) : c = Z.lxor (Z.land c 255) (Z.shiftl (Z.shiftr c 8) 8).
Proof.
  apply Z.bits_inj'. intros i Hi. rewrite Z.lxor_spec, Z.land_spec. change 255 with (Z.ones 8).
  destruct (decide (i < 8)).
  - rewrite Z.ones_spec_low, Z.shiftl_spec_low by lia. by rewrite andb_true_r, xorb_false_r.
  - rewrite Z.ones_spec_high, Z.shiftl_spec_high, Z.shiftr_spec by lia. rewrite andb_false_r, xorb_false_l.
    f_equal. lia.
Qed.

Lemma land_byte (b : Z) : is_byte b → Z.land b 255 = b.
Proof. intros Hb. change 255 with (Z.ones 8). rewrite Z.land_ones by lia. by apply Z.mod_small. Qed.

Lemma lxor_land (a b c : Z) : Z.land (Z.lxor a b) c = Z.lxor (Z.land a c) (Z.land b c).
Proof.
  apply Z.bits_inj'. intros i Hi. rewrite Z.land_spec, !Z.lxor_spec, !Z.land_spec.
  by destruct (Z.testbit a i), (Z.testbit b i), (Z.testbit c i).
Qed.

(** One table look-up is eight bit steps. *)
Lemma table_step (crc b : Z) : is_byte b →
  ∃ x, CRC32C_TAB !! Z.to_nat (Z.lxor (u8 crc) b) = Some x ∧ Z.lxor x (Z.shiftr crc 8) = byte_step crc b.
Proof.
  intros Hb. set (i := Z.lxor (u8 crc) b). assert (i = Z.land (Z.lxor crc b) 255) as Ei.
  { subst i. rewrite lxor_land, (land_byte b) by done. f_equal. unfold u8, wrap.
    change 255 with (Z.ones 8). by rewrite Z.land_ones. }
  exists (bit_steps 8 i). split.
  - apply table_entry. rewrite Ei. change 255 with (Z.ones 8). rewrite Z.land_ones by lia. apply Z.mod_pos_bound. lia.
  - unfold byte_step. rewrite (split_byte (Z.lxor crc b)), bit_steps_lxor, <- Ei. f_equal.
    rewrite (bit_steps_shiftl 8). rewrite Z.shiftr_lxor.
    assert (Z.shiftr b 8 = 0) as ->; [|by rewrite Z.lxor_0_r].
    rewrite Z.shiftr_div_pow2 by lia. by apply Z.div_small.
Qed.

Lemma crc32_table (buf : list Z) : Forall is_byte buf → ∀ crc n,
  crc32 n crc buf CRC32C_TAB =
  if decide (n <= length buf)%nat then Ret (crc_spec crc (take n buf)) else Panic.
Proof.
  induction 1 as [|b buf Hb _ IH]; intros crc [|n]; cbn [crc32].
  - done.
  - by rewrite decide_False by (cbn [length]; lia).
  - done.
  - destruct (table_step crc b Hb) as (x & -> & ->). rewrite IH. cbn [length take crc_spec foldl].
    repeat case_decide; done || lia.
Qed.

(** C20: The table-driven checksum is CRC-32C.  For every start value and every
    buffer of at least [size] bytes, [ext4_crc32c] returns the bit-by-bit
    division of the first [size] bytes by the polynomial 0x1EDC6F41 in reflected
    form; on a shorter buffer it panics. *)
Theorem crc32c_table_correct (crc : Z) (buf : list Z) (size : Z) :
  Forall is_byte buf → 0 <= size →
  ext4_crc32c crc buf size =
  if decide (size <= Z.of_nat (length buf)) then Ret (crc_spec crc (take (Z.to_nat size) buf)) else Panic.
Proof.
  intros Hbuf Hsize. unfold ext4_crc32c. rewrite crc32_table by done. repeat case_decide; done || lia.
Qed.

Lemma crc32c_returns (crc : Z) (buf : list Z) (size : Z) :
  Forall is_byte buf → size <= Z.of_nat (length buf) → ∃ c, ext4_crc32c crc buf size = Ret c.
Proof.
  intros Hbuf Hs. unfold ext4_crc32c. rewrite crc32_table, decide_True by (done || lia). eauto.
Qed.

Lemma crc32c_table_correct_witness :
  ext4_crc32c EXT4_CRC32_INIT [0x31; 0x32; 0x33; 0x34; 0x35; 0x36; 0x37; 0x38; 0x39] 9 =
    Ret (Z.lxor 0xE3069283 0xFFFFFFFF).
Proof.
  rewrite crc32c_table_correct; [vm_compute; reflexivity| |discriminate].
  repeat constructor; discriminate.
Defined.
End Crc.

(** ** utils/bitmap.rs *)

Module Bitmap.

Definition ext4_bmap_is_bit_set (bmap : list Z) (bit : Z) : exec bool :=
  match bmap !! Z.to_nat (Z.shiftr bit 3) with
  | Some b => Ret (negb (Z.land b (Z.shiftl 1 (Z.land bit 7)) =? 0))
  | None => Panic
  end.

Definition ext4_bmap_is_bit_clr (bmap : list Z) (bit : Z) : exec bool :=
  let! r := ext4_bmap_is_bit_set bmap bit in Ret (negb r).

Definition ext4_bmap_bit_set (bmap : list Z) (bit : Z) : exec (list Z) :=
  match bmap !! Z.to_nat (Z.shiftr bit 3) with
  | Some b => Ret (<[Z.to_nat (Z.shiftr bit 3) := Z.lor b (Z.shiftl 1 (Z.land bit 7))]> bmap)
  | None => Panic
  end.

Definition ext4_bmap_bit_clr (bmap : list Z) (bit : Z) : exec (list Z) :=
  match bmap !! Z.to_nat (Z.shiftr bit 3) with
  | Some b => Ret (<[Z.to_nat (Z.shiftr bit 3) := Z.land b (u8 (Z.lnot (Z.shiftl 1 (Z.land bit 7))))]> bmap)
  | None => Panic
  end.

(** Bits up to a byte boundary: [inl] when the function returns here. *)
Fixpoint lead_loop (bmap : list Z) (i : Z) (bcnt : nat) : exec (option Z + Z * nat) :=
  if Z.land i 7 =? 0 then Ret (inr (i, bcnt))
  else
    match bcnt with
    | O => Ret (inl None)
    | S bcnt' =>
        let! clr := ext4_bmap_is_bit_clr bmap i in
        if clr then Ret (inl (Some i)) else lead_loop bmap (u32 (i + 1)) bcnt'
    end.

(** [for j in 0..8] *)
Fixpoint byte_loop (bmap : list Z) (bit_pos : Z) (n : nat) : exec (option Z) :=
  match n with
  | O => Ret None
  | S n' =>
      let! clr := ext4_bmap_is_bit_clr bmap bit_pos in
      if clr then Ret (Some bit_pos) else byte_loop bmap (u32 (bit_pos + 1)) n'
  end.

Fixpoint bytes_loop (fuel : nat) (bmap : list Z) (byte_idx : nat) (bit_pos : Z) (bcnt : nat)
    : exec (option Z + Z * nat) :=
  match fuel with
  | O => Ret (inr (bit_pos, bcnt))
  | S fuel' =>
      if (8 <=? bcnt)%nat then
        match bmap !! byte_idx with
        | None => Ret (inl None)
        | Some b =>
            let! r := if b =? 0xFF then Ret None else byte_loop bmap bit_pos 8 in
            match r with
            | Some i => Ret (inl (Some i))
            | None => bytes_loop fuel' bmap (S byte_idx) (u32 (bit_pos + 8)) (bcnt - 8)
            end
        end
      else Ret (inr (bit_pos, bcnt))
  end.

Fixpoint tail_loop (bmap : list Z) (bit_pos ebit : Z) (bcnt : nat) : exec (option Z) :=
  match bcnt with
  | O => Ret None
  | S bcnt' =>
      if ebit <=? bit_pos then Ret None
      else
        let! clr := ext4_bmap_is_bit_clr bmap bit_pos in
        if clr then Ret (Some bit_pos) else tail_loop bmap (u32 (bit_pos + 1)) ebit bcnt'
  end.

(** The bit stored in [bit_id], or None for false.  The byte loop takes eight
    bits a round. *)
Definition ext4_bmap_bit_find_clr (bmap : list Z) (sbit ebit : Z) : exec (option Z) :=
  let bcnt := Z.to_nat (u32 (ebit - sbit)) in
  let! r1 := lead_loop bmap sbit bcnt in
  match r1 with
  | inl r => Ret r
  | inr (i, bcnt1) =>
      let! r2 := bytes_loop bcnt1 bmap (Z.to_nat (Z.shiftr i 3)) i bcnt1 in
      match r2 with
      | inl r => Ret r
      | inr (bit_pos, bcnt2) => tail_loop bmap bit_pos ebit bcnt2
      end
  end.

(** *** Reference *)

Definition bit (l : list Z) (i : Z) : bool :=
  match l !! Z.to_nat (i / 8) with
  | Some b => Z.testbit b (i mod 8)
  | None => false
  end.

Fixpoint first_clear (l : list Z) (i : Z) (n : nat) : option Z :=
  match n with
  | O => None
  | S n' => if bit l i then first_clear l (i + 1) n' else Some i
  end.

Lemma first_clear_spec (l : list Z) (n : nat) : ∀ i,
  match first_clear l i n with
  | Some k => i <= k < i + Z.of_nat n ∧ bit l k = false ∧ ∀ j, i <= j < k → bit l j = true
  | None => ∀ j, i <= j < i + Z.of_nat n → bit l j = true
  end.
Proof.
  induction n as [|n IH]; intros i; cbn [first_clear]; [lia|]. destruct (bit l i) eqn:E; [|split; [lia|split; [done|lia]]].
  specialize (IH (i + 1)). destruct (first_clear l (i + 1) n) as [k|].
  - destruct IH as (Hk & Hc & Hb). split; [lia|split; [done|]]. intros j Hj.
    destruct (decide (j = i)) as [->|]; [done|]. apply Hb. lia.
  - intros j Hj. destruct (decide (j = i)) as [->|]; [done|]. apply IH. lia.
Qed.

Lemma first_clear_app (l : list Z) (n m : nat) : ∀ i,
  first_clear l i (n + m) =
  match first_clear l i n with Some k => Some k | None => first_clear l (i + Z.of_nat n) m end.
Proof.
  induction n as [|n IH]; intros i; cbn [Nat.add first_clear]; [f_equal; lia|].
  destruct (bit l i); [|done]. rewrite IH. destruct (first_clear l (i + 1) n); [done|]. f_equal. lia.
Qed.

Lemma bit_index (i : Z) : 0 <= i → Z.shiftr i 3 = i / 8 ∧ Z.land i 7 = i mod 8.
Proof. intros Hi. split; [by rewrite Z.shiftr_div_pow2 by lia|]. change 7 with (Z.ones 3). by rewrite Z.land_ones by lia. Qed.

Lemma test_mask (b k : Z) : 0 <= k → negb (Z.land b (Z.shiftl 1 k) =? 0) = Z.testbit b k.
Proof.
  intros Hk. rewrite Z.shiftl_1_l. destruct (Z.testbit b k) eqn:E.
  - apply negb_true_iff, Z.eqb_neq. intros H0. apply (f_equal (fun x => Z.testbit x k)) in H0.
    rewrite Z.land_spec, Z.pow2_bits_true, E, Z.bits_0 in H0 by done. done.
  - apply negb_false_iff, Z.eqb_eq, Z.bits_inj'. intros i Hi. rewrite Z.land_spec, Z.pow2_bits_eqb, Z.bits_0 by done.
    destruct (Z.eqb_spec k i) as [<-|]; [by rewrite E|apply andb_false_r].
Qed.

Lemma byte_low_bits (x : Z) : Z.land x 255 = x → is_byte x.
Proof. intros <-. change 255 with (Z.ones 8). rewrite Z.land_ones by lia. apply Z.mod_pos_bound. lia. Qed.

Lemma byte_lor (b k : Z) : is_byte b → 0 <= k < 8 → is_byte (Z.lor b (Z.shiftl 1 k)).
Proof.
  intros Hb Hk. apply byte_low_bits. rewrite Z.land_lor_distr_l, Crc.land_byte by done. f_equal.
  rewrite Z.shiftl_1_l. apply Crc.land_byte. split; [apply Z.pow_nonneg; lia|].
  change 256 with (2 ^ 8). apply Z.pow_lt_mono_r; lia.
Qed.

Lemma byte_land (b m : Z) : is_byte b → is_byte (Z.land b m).
Proof.
  intros Hb. apply byte_low_bits. rewrite (Z.land_comm b m), <- Z.land_assoc, Crc.land_byte by done. done.
Qed.

Section bitmap.
Context (l : list Z) (Hl : 8 * Z.of_nat (length l) < 2 ^ 32).

Lemma is_bit_clr_spec (i : Z) : 0 <= i < 8 * Z.of_nat (length l) → ext4_bmap_is_bit_clr l i = Ret (negb (bit l i)).
Proof.
  intros Hi. unfold ext4_bmap_is_bit_clr, ext4_bmap_is_bit_set, bit. destruct (bit_index i ltac:(lia)) as [-> ->].
  pose proof (Z.div_lt_upper_bound i 8 (Z.of_nat (length l)) ltac:(lia) ltac:(lia)).
  pose proof (Z.div_pos i 8 ltac:(lia) ltac:(lia)).
  destruct (lookup_lt_is_Some_2 l (Z.to_nat (i / 8))) as [b ->]; [lia|]. cbn [exec_bind].
  rewrite test_mask; [done|]. apply Z.mod_pos_bound. lia.
Qed.

Lemma lead_loop_spec (n : nat) : ∀ i, 0 <= i → i + Z.of_nat n <= 8 * Z.of_nat (length l) →
  ∃ r, lead_loop l i n = Ret r ∧
    match r with
    | inl r => first_clear l i n = r
    | inr (i', n') => i' mod 8 = 0 ∧ i <= i' ∧ i' + Z.of_nat n' = i + Z.of_nat n ∧ first_clear l i n = first_clear l i' n'
    end.
Proof.
  induction n as [|n IH]; intros i Hi Hn; cbn [lead_loop]; rewrite (proj2 (bit_index i Hi));
    (destruct (Z.eqb_spec (i mod 8) 0); [by eexists; split; [done|]|]).
  - by eexists.
  - rewrite is_bit_clr_spec by lia. cbn [exec_bind first_clear]. destruct (bit l i); cbn [negb]; [|by eexists].
    unfold u32. rewrite wrap_small by lia. destruct (IH (i + 1)) as (r & -> & Hr); [lia..|]. exists r. split; [done|].
    destruct r as [r|[i' n']]; [done|]. destruct Hr as (?&?&?&?). splits; [done|lia|lia|done].
Qed.

Lemma byte_loop_spec (n : nat) : ∀ i, 0 <= i → i + Z.of_nat n <= 8 * Z.of_nat (length l) →
  byte_loop l i n = Ret (first_clear l i n).
Proof.
  induction n as [|n IH]; intros i Hi Hn; cbn [byte_loop first_clear]; [done|].
  rewrite is_bit_clr_spec by lia. cbn [exec_bind]. destruct (bit l i); cbn [negb]; [|done].
  unfold u32. rewrite wrap_small by lia. apply IH; lia.
Qed.

Lemma tail_loop_spec (ebit : Z) (n : nat) : ∀ i, 0 <= i → i + Z.of_nat n = ebit → ebit <= 8 * Z.of_nat (length l) →
  tail_loop l i ebit n = Ret (first_clear l i n).
Proof.
  induction n as [|n IH]; intros i Hi Hn He; cbn [tail_loop first_clear]; [done|].
  rewrite (proj2 (Z.leb_gt _ _)) by lia. rewrite is_bit_clr_spec by lia. cbn [exec_bind].
  destruct (bit l i); cbn [negb]; [|done]. unfold u32. rewrite wrap_small by lia. apply IH; lia.
Qed.

Lemma full_byte (i : Z) : 0 <= i → i mod 8 = 0 → l !! Z.to_nat (i / 8) = Some 255 → first_clear l i 8 = None.
Proof.
  intros Hi Hm Hb. pose proof (first_clear_spec l 8 i) as Hs. destruct (first_clear l i 8) as [k|]; [|done].
  destruct Hs as (Hk & Hc & _). unfold bit in Hc. exfalso. pose proof (Z.div_mod i 8 ltac:(lia)) as Hdm.
  assert (k / 8 = i / 8) as E by (symmetry; apply (Z.div_unique _ _ _ (k - i)); lia).
  rewrite E, Hb in Hc. change 255 with (Z.ones 8) in Hc.
  rewrite Z.ones_spec_low in Hc by (apply Z.mod_pos_bound; lia). done.
Qed.

Lemma bytes_loop_spec (fuel : nat) : ∀ i n, 0 <= i → i mod 8 = 0 → i + Z.of_nat n <= 8 * Z.of_nat (length l) →
  (n < 8 * S fuel)%nat →
  ∃ r, bytes_loop fuel l (Z.to_nat (i / 8)) i n = Ret r ∧
    match r with
    | inl r => first_clear l i n = r
    | inr (i', n') => 0 <= i' ∧ i' + Z.of_nat n' = i + Z.of_nat n ∧ first_clear l i n = first_clear l i' n'
    end.
Proof.
  induction fuel as [|fuel IH]; intros i n Hi Hm Hn Hf; cbn [bytes_loop]; [by eexists|].
  destruct (Nat.leb_spec 8 n) as [H8|H8]; [|by eexists].
  pose proof (Z.div_mod i 8 ltac:(lia)) as Hdm.
  destruct (lookup_lt_is_Some_2 l (Z.to_nat (i / 8))) as [b Hb]; [lia|]. rewrite Hb.
  assert ((if b =? 255 then Ret None else byte_loop l i 8) = Ret (first_clear l i 8)) as ->.
  { destruct (Z.eqb_spec b 255) as [->|]; [by rewrite full_byte|]. apply byte_loop_spec; lia. }
  cbn [exec_bind]. assert (first_clear l i n = match first_clear l i 8 with Some k => Some k
    | None => first_clear l (i + 8) (n - 8) end) as ->.
  { pose proof (first_clear_app l 8 (n - 8) i) as Happ. replace (8 + (n - 8))%nat with n in Happ by lia. exact Happ. }
  destruct (first_clear l i 8) as [k|]; [by eexists|].
  unfold u32. rewrite wrap_small by lia.
  replace (S (Z.to_nat (i / 8))) with (Z.to_nat ((i + 8) / 8)).
  2:{ rewrite <- (Z.div_unique (i + 8) 8 (i / 8 + 1) 0) by lia. lia. }
  destruct (IH (i + 8) (n - 8)%nat) as (r & -> & Hr); [lia| |lia|lia|].
  { rewrite <- (Z.mod_unique (i + 8) 8 (i / 8 + 1) 0); lia. }
  exists r. split; [done|]. destruct r as [r|[i' n']]; [done|]. destruct Hr as (?&?&?). split; [done|split; [lia|done]].
Qed.

(** The search finds the lowest clear bit of the range. *)
Lemma find_clr_spec (sbit ebit : Z) : 0 <= sbit <= ebit → ebit <= 8 * Z.of_nat (length l) →
  ext4_bmap_bit_find_clr l sbit ebit = Ret (first_clear l sbit (Z.to_nat (ebit - sbit))).
Proof.
  intros Hs He. unfold ext4_bmap_bit_find_clr. unfold u32. rewrite wrap_small by lia.
  set (n := Z.to_nat (ebit - sbit)). destruct (lead_loop_spec n sbit) as (r & -> & Hr); [lia..|]. cbn [exec_bind].
  destruct r as [r|[i n1]]; [by rewrite Hr|]. destruct Hr as (Hm & Hi & Hn & ->).
  rewrite (proj1 (bit_index i ltac:(lia))).
  destruct (bytes_loop_spec n1 i n1) as (r & -> & Hr); [lia..|]. cbn [exec_bind].
  destruct r as [r|[i' n2]]; [by rewrite Hr|]. destruct Hr as (Hi' & Hn' & ->). apply tail_loop_spec; lia.
Qed.

Lemma bit_insert (i j b b' : Z) : 0 <= i → 0 <= j → l !! Z.to_nat (i / 8) = Some b →
  bit (<[Z.to_nat (i / 8) := b']> l) j = if decide (j / 8 = i / 8) then Z.testbit b' (j mod 8) else bit l j.
Proof.
  intros Hi Hj Hb. apply lookup_lt_Some in Hb. pose proof (Z.div_pos i 8 Hi ltac:(lia)).
  pose proof (Z.div_pos j 8 Hj ltac:(lia)). unfold bit. case_decide as E.
  - by rewrite E, list_lookup_insert_eq by done.
  - by rewrite list_lookup_insert_ne by lia.
Qed.

(** Setting or clearing a bit changes that bit only. *)
Lemma bit_change (i b b' : Z) (v : bool) : 0 <= i → l !! Z.to_nat (i / 8) = Some b →
  (∀ k, 0 <= k < 8 → Z.testbit b' k = if decide (k = i mod 8) then v else Z.testbit b k) →
  ∀ j, 0 <= j → bit (<[Z.to_nat (i / 8) := b']> l) j = if decide (j = i) then v else bit l j.
Proof.
  intros Hi Hb Hk j Hj. rewrite (bit_insert i j b) by done.
  pose proof (Z.div_mod i 8 ltac:(lia)). pose proof (Z.div_mod j 8 ltac:(lia)).
  destruct (decide (j / 8 = i / 8)) as [E|E].
  - rewrite Hk by (apply Z.mod_pos_bound; lia). destruct (decide (j = i)) as [->|Hne]; [by rewrite decide_True|].
    rewrite decide_False by lia. unfold bit. by rewrite E, Hb.
  - rewrite decide_False; [done|]. by intros ->.
Qed.

Lemma byte_of_bit (i : Z) : 0 <= i < 8 * Z.of_nat (length l) → ∃ b, l !! Z.to_nat (i / 8) = Some b.
Proof.
  intros Hi. apply lookup_lt_is_Some_2. pose proof (Z.div_lt_upper_bound i 8 (Z.of_nat (length l)) ltac:(lia) ltac:(lia)).
  pose proof (Z.div_pos i 8 ltac:(lia) ltac:(lia)). lia.
Qed.

Lemma bit_set_spec (i : Z) : 0 <= i < 8 * Z.of_nat (length l) → ∃ l',
  ext4_bmap_bit_set l i = Ret l' ∧ length l' = length l ∧ (Forall is_byte l → Forall is_byte l') ∧ ∀ j, 0 <= j → bit l' j = if decide (j = i) then true else bit l j.
Proof.
  intros Hi. unfold ext4_bmap_bit_set. destruct (bit_index i ltac:(lia)) as [-> ->].
  destruct (byte_of_bit i Hi) as [b Hb]. rewrite Hb. eexists. split; [done|].
  pose proof (Z.mod_pos_bound i 8 ltac:(lia)). split; [by rewrite length_insert|]. split.
  { intros Hl'. apply Forall_insert; [done|]. apply byte_lor; [by eapply Forall_lookup_1|lia]. }
  apply (bit_change i b); [lia|done|]. intros k Hk.
  rewrite Z.lor_spec, Z.shiftl_1_l, Z.pow2_bits_eqb by lia.
  case_decide as E; [subst; by rewrite Z.eqb_refl, orb_true_r|].
  by rewrite (proj2 (Z.eqb_neq _ _)), orb_false_r by done.
Qed.

Lemma bit_clr_spec (i : Z) : 0 <= i < 8 * Z.of_nat (length l) → ∃ l',
  ext4_bmap_bit_clr l i = Ret l' ∧ length l' = length l ∧ (Forall is_byte l → Forall is_byte l') ∧ ∀ j, 0 <= j → bit l' j = if decide (j = i) then false else bit l j.
Proof.
  intros Hi. unfold ext4_bmap_bit_clr. destruct (bit_index i ltac:(lia)) as [-> ->].
  destruct (byte_of_bit i Hi) as [b Hb]. rewrite Hb. eexists. split; [done|].
  pose proof (Z.mod_pos_bound i 8 ltac:(lia)). split; [by rewrite length_insert|]. split.
  { intros Hl'. apply Forall_insert; [done|]. apply byte_land; by eapply Forall_lookup_1. }
  apply (bit_change i b); [lia|done|]. intros k Hk.
  unfold u8, wrap. rewrite Z.land_spec, Z.mod_pow2_bits_low, Z.lnot_spec, Z.shiftl_1_l, Z.pow2_bits_eqb by lia.
  case_decide as E; [subst; by rewrite Z.eqb_refl, andb_false_r|].
  by rewrite (proj2 (Z.eqb_neq _ _)), andb_true_r by done.
Qed.
End bitmap.
End Bitmap.

(** ** ext4_defs/super_block.rs, block_group.rs, ext4_impls/ialloc.rs *)

Module Ialloc.

Record Ext4Superblock := mkSuper {
  inodes_count : Z;
  blocks_count_lo : Z;
  blocks_count_hi : Z;
  free_inodes_count : Z;
  first_data_block : Z;
  blocks_per_group : Z;
  inodes_per_group : Z;
  desc_size_raw : Z;
  features_read_only : Z;
  uuid : list Z
}.

Definition EXT4_MIN_BLOCK_GROUP_DESCRIPTOR_SIZE : Z := 32.
Definition EXT4_MAX_BLOCK_GROUP_DESCRIPTOR_SIZE : Z := 64.

Definition block_group_count (s : Ext4Superblock) : exec Z :=
  let blocks_count := Z.lor (Z.shiftl (blocks_count_hi s) 32) (blocks_count_lo s) in
  if blocks_per_group s =? 0 then Panic
  else
    let n := blocks_count / blocks_per_group s in
    Ret (u32 (if negb (blocks_count mod blocks_per_group s =? 0) then n + 1 else n)).

Definition desc_size (s : Ext4Superblock) : Z :=
  if desc_size_raw s <? EXT4_MIN_BLOCK_GROUP_DESCRIPTOR_SIZE then EXT4_MIN_BLOCK_GROUP_DESCRIPTOR_SIZE
  else desc_size_raw s.

Definition get_inodes_in_group_cnt (s : Ext4Superblock) (bgid : Z) : exec Z :=
  let! count := block_group_count s in
  Ret (if bgid <? u32 (count - 1) then inodes_per_group s
       else u32 (inodes_count s - u32 (u32 (count - 1) * inodes_per_group s))).

Definition ext4_ialloc_bitmap_csum (s : Ext4Superblock) (bitmap : list Z) : exec Z :=
  let! csum := Crc.ext4_crc32c Crc.EXT4_CRC32_INIT (uuid s) (u32 (Z.of_nat (length (uuid s)))) in
  Crc.ext4_crc32c csum bitmap (u32 (inodes_per_group s + 7) / 8).

(** A field of a block group descriptor: [n] bytes at offset [off]. *)
Definition field (off n : nat) (bg : list Z) : Z := of_le (slice off n bg).
Definition set_field (off n : nat) (bg : list Z) (v : Z) : list Z := Disk.copy_at bg off (le_bytes (Z.of_nat n) v).

Definition get_inode_bitmap_block (s : Ext4Superblock) (bg : list Z) : Z :=
  if EXT4_MIN_BLOCK_GROUP_DESCRIPTOR_SIZE <? desc_size_raw s
  then Z.lor (field 4 4 bg) (Z.shiftl (field 36 4 bg) 32) else field 4 4 bg.

Definition get_free_inodes_count (bg : list Z) : Z := field 14 2 bg.

Definition get_itable_unused (s : Ext4Superblock) (bg : list Z) : Z :=
  if EXT4_MIN_BLOCK_GROUP_DESCRIPTOR_SIZE <? desc_size s
  then Z.lor (field 28 2 bg) (u32 (Z.shiftl (field 50 2 bg) 32)) else field 28 2 bg.

Definition get_used_dirs_count (s : Ext4Superblock) (bg : list Z) : Z :=
  if EXT4_MIN_BLOCK_GROUP_DESCRIPTOR_SIZE <? desc_size s
  then Z.lor (field 16 2 bg) (u32 (Z.shiftl (field 48 2 bg) 32)) else field 16 2 bg.

(** The low half at [lo] and, in large descriptors, the high half at [hi]. *)
Definition set_halves (lo hi : nat) (s : Ext4Superblock) (bg : list Z) (cnt : Z) : list Z :=
  let bg1 := set_field lo 2 bg (Z.land cnt 0xffff) in
  if EXT4_MIN_BLOCK_GROUP_DESCRIPTOR_SIZE <? desc_size s then set_field hi 2 bg1 (u16 (Z.shiftr cnt 16)) else bg1.

Definition set_used_dirs_count : Ext4Superblock → list Z → Z → list Z := set_halves 28 50.
Definition set_itable_unused : Ext4Superblock → list Z → Z → list Z := set_halves 28 50.
Definition set_free_inodes_count : Ext4Superblock → list Z → Z → list Z := set_halves 14 46.

Definition set_block_group_ialloc_bitmap_csum (s : Ext4Superblock) (bg bitmap : list Z) : exec (list Z) :=
  let! csum := ext4_ialloc_bitmap_csum s bitmap in
  let lo_csum := Z.land csum 0xFFFF in
  let hi_csum := Z.shiftr csum 16 in
  if Z.shiftr (Z.land (features_read_only s) 0x400) 10 =? 0 then Ret bg
  else
    let bg1 := set_field 26 2 bg (u16 lo_csum) in
    Ret (if desc_size s =? EXT4_MAX_BLOCK_GROUP_DESCRIPTOR_SIZE then set_field 58 2 bg1 (u16 hi_csum) else bg1).

Inductive Errno := ENOSPC.

Section ialloc.
Context {D : Type} `{BlockIO D}.
(** The 64-byte read of a descriptor goes past a block that ends with a 32-byte
    one: [junk] is the memory behind the block. *)
Context (junk : list Z).

Definition read_dev (st : Disk.Device D) (offset : Z) : exec (list Z * Disk.Device D) :=
  match Disk.read_offset st offset with Some r => Ret r | None => Panic end.
Definition write_dev (st : Disk.Device D) (offset : Z) (data : list Z) : exec (Disk.Device D) :=
  match Disk.write_offset st offset data with Some st' => Ret st' | None => Panic end.

(** Block and offset of a descriptor; a descriptor larger than a block divides
    by zero. *)
Definition desc_pos (s : Ext4Superblock) (bgid : Z) : exec (Z * Z) :=
  let dsize := if desc_size_raw s =? 0 then 32 else desc_size_raw s in
  let dsc_cnt := 4096 / dsize in
  if dsc_cnt =? 0 then Panic
  else Ret (first_data_block s +! bgid / dsc_cnt +! 1, (bgid mod dsc_cnt) * dsize).

Definition load_new (st : Disk.Device D) (s : Ext4Superblock) (bgid : Z) : exec (list Z * Disk.Device D) :=
  let! (block_id, offset) := desc_pos s bgid in
  let! (block, st1) := read_dev st (block_id *! 4096) in
  Ret (take 64 (drop (Z.to_nat offset) block ++ junk), st1).

(** The counters and checksum of the descriptor in memory; nothing writes it
    back. *)
Definition note_alloc (s : Ext4Superblock) (bg bitmap : list Z) (is_dir : bool) (inodes_in_bg idx : Z)
    : exec (list Z) :=
  let! bg1 := set_block_group_ialloc_bitmap_csum s bg bitmap in
  let bg2 := set_free_inodes_count s bg1 (get_free_inodes_count bg - 1) in
  let bg3 := if is_dir then set_used_dirs_count s bg2 (u32 (get_used_dirs_count s bg2 + 1)) else bg2 in
  let unused := get_itable_unused s bg3 in
  Ret (if u32 (inodes_in_bg - unused) <=? idx then set_itable_unused s bg3 (u32 (inodes_in_bg - u32 (idx + 1)))
       else bg3).

Definition alloc_in_group (st : Disk.Device D) (s : Ext4Superblock) (bg : list Z) (bgid : Z) (is_dir : bool)
    : exec (Z * Disk.Device D) :=
  let block := get_inode_bitmap_block s bg in
  let! (raw_data, st1) := read_dev st (block *! 4096) in
  let! inodes_in_bg := get_inodes_in_group_cnt s bgid in
  let! found := Bitmap.ext4_bmap_bit_find_clr raw_data 0 inodes_in_bg in
  let idx_in_bg := default 0 found in
  let! bitmap_data := Bitmap.ext4_bmap_bit_set raw_data idx_in_bg in
  let! st2 := write_dev st1 (block *! 4096) bitmap_data in
  let! _ := note_alloc s bg bitmap_data is_dir inodes_in_bg idx_in_bg in
  Ret (u32 (bgid * inodes_per_group s + u32 (idx_in_bg + 1)), st2).

Fixpoint alloc_loop (fuel : nat) (st : Disk.Device D) (s : Ext4Superblock) (is_dir : bool) (bg_count bgid iterations : Z)
    : exec (result Z Errno * Disk.Device D) :=
  match fuel with
  | O => Panic
  | S fuel' =>
      if bgid <? bg_count then
        if u32 (u32 (bg_count * 2) + 1) <? u32 (iterations + 1) then Ret (Err ENOSPC, st)
        else
          let! (bg, st1) := load_new st s bgid in
          if 0 <? get_free_inodes_count bg then
            let! (inode_num, st2) := alloc_in_group st1 s bg bgid is_dir in
            Ret (Ok inode_num, st2)
          else alloc_loop fuel' st1 s is_dir bg_count (u32 (bgid + 1)) (u32 (iterations + 1))
      else Ret (Err ENOSPC, st)
  end.

(** One round per group. *)
Definition ialloc_alloc_inode (st : Disk.Device D) (s : Ext4Superblock) (is_dir : bool)
    : exec (result Z Errno * Disk.Device D) :=
  let! bg_count := block_group_count s in
  alloc_loop (S (Z.to_nat bg_count)) st s is_dir bg_count 0 0.

Definition get_bgid_of_inode (s : Ext4Superblock) (inode_num : Z) : exec Z :=
  if inodes_per_group s =? 0 then Panic else Ret (inode_num / inodes_per_group s).
Definition inode_to_bgidx (s : Ext4Superblock) (inode_num : Z) : exec Z :=
  if inodes_per_group s =? 0 then Panic else Ret (inode_num mod inodes_per_group s).

Definition note_free (s : Ext4Superblock) (bg bitmap : list Z) (is_dir : bool) : exec (list Z) :=
  let! bg1 := set_block_group_ialloc_bitmap_csum s bg bitmap in
  let bg2 := set_free_inodes_count s bg1 (u32 (get_free_inodes_count bg1 + 1)) in
  Ret (if is_dir then set_used_dirs_count s bg2 (u32 (get_used_dirs_count s bg2 - 1)) else bg2).

Definition ialloc_free_inode (st : Disk.Device D) (s : Ext4Superblock) (index : Z) (is_dir : bool)
    : exec (Disk.Device D) :=
  let! bgid := get_bgid_of_inode s index in
  let! (bg, st1) := load_new st s bgid in
  let block := get_inode_bitmap_block s bg in
  let! (bitmap_data, st2) := read_dev st1 (block *! 4096) in
  let! index_in_group := inode_to_bgidx s index in
  let! bitmap := Bitmap.ext4_bmap_bit_clr bitmap_data index_in_group in
  let! st3 := write_dev st2 (block *! 4096) bitmap in
  let! _ := note_free s bg bitmap is_dir in
  Ret st3.
End ialloc.

(** *** On a working disk *)

Section correct.
Context {D : Type} `{BlockIO D, !BlockLaws D} (junk : list Z).

(** Block number [blk] of the disk. *)
Definition block (d : D) (blk : Z) : list Z := Disk.bytes d (blk * 4096) 4096.

(** The block is on the disk and below the limit. *)
Definition usable (st : Disk.Device D) (blk : Z) : Prop :=
  0 <= blk ∧ (blk + 1) * 4096 <= 512 * sectors (Disk.dev st) ∧ (blk + 1) * 4096 < 2 ^ 64 ∧
  (Disk.max_offset st = 0 ∨ (blk + 1) * 4096 <= Disk.max_offset st).

Lemma same_disk_coherent (st st' : Disk.Device D) : Disk.same_disk st st' → Disk.coherent st → Disk.coherent st'.
Proof. intros (E1 & E2 & _). unfold Disk.coherent. by rewrite E1, E2. Qed.

Lemma usable_same (st st' : Disk.Device D) (blk : Z) : Disk.same_disk st st' → usable st blk → usable st' blk.
Proof. intros (E1 & _ & E3). unfold usable. by rewrite E1, E3. Qed.

Lemma usable_valid (st : Disk.Device D) (blk : Z) : usable st blk → Disk.is_offset_valid st (blk * 4096 + 4095) = true.
Proof.
  intros (_ & _ & _ & Hm). unfold Disk.is_offset_valid. apply orb_true_iff.
  destruct Hm; [left; by apply Z.eqb_eq|right; apply Z.ltb_lt; lia].
Qed.

Lemma read_dev_spec (st : Disk.Device D) (blk : Z) : Disk.coherent st → usable st blk →
  ∃ st', read_dev st (blk *! 4096) = Ret (block (Disk.dev st) blk, st') ∧ Disk.same_disk st st'.
Proof.
  intros Hc Hu. pose proof (usable_valid st blk Hu) as Hv. destruct Hu as (H0 & _ & H2 & _).
  unfold read_dev. rewrite u64_small by lia.
  destruct (Disk.read_offset_spec st (blk * 4096) Hc) as (st' & -> & Hs); [lia..|]. rewrite Hv. by exists st'.
Qed.

Lemma write_dev_spec (st : Disk.Device D) (blk : Z) (data : list Z) :
  Disk.coherent st → usable st blk → length data = 4096%nat →
  ∃ st', write_dev st (blk *! 4096) data = Ret st' ∧ Disk.coherent st' ∧ block (Disk.dev st') blk = data ∧
    ∀ i, 0 <= i → ¬ blk * 4096 <= i < (blk + 1) * 4096 → Disk.byte (Disk.dev st') i = Disk.byte (Disk.dev st) i.
Proof.
  intros Hc Hu Hlen. pose proof (usable_valid st blk Hu) as Hv. destruct Hu as (H0 & H1 & H2 & _).
  unfold write_dev. rewrite u64_small by lia. assert (Z.of_nat (length data) = 4096) as Hl by (rewrite Hlen; lia).
  destruct (Disk.write_offset_spec st (blk * 4096) data Hc) as (st' & -> & Hc' & _ & Hs & Hw); [lia..|].
  replace (blk * 4096 + Z.of_nat (length data) - 1) with (blk * 4096 + 4095) in Hw by lia. rewrite Hv in Hw.
  exists st'. split; [done|]. split; [done|]. split.
  - apply list_eq_same_length with (n := length data); [done|unfold block; by rewrite Disk.bytes_length|].
    intros k x y Hk Hx Hy. unfold block in Hx. rewrite Disk.bytes_lookup, Hw, decide_True in Hx by lia.
    replace (Z.to_nat (blk * 4096 + Z.of_nat k - blk * 4096)) with k in Hx by lia. rewrite Hy in Hx. by injection Hx.
  - intros i Hi Hout. rewrite Hw by done. by rewrite decide_False by lia.
Qed.

(** The descriptor of group [g] as [load_new] sees it. *)
Definition desc (d : D) (s : Ext4Superblock) (g : Z) : list Z :=
  match desc_pos s g with
  | Ret (b, off) => take 64 (drop (Z.to_nat off) (block d b) ++ junk)
  | Panic => []
  end.

Definition desc_usable (st : Disk.Device D) (s : Ext4Superblock) (g : Z) : Prop :=
  ∃ b off, desc_pos s g = Ret (b, off) ∧ usable st b.

Lemma load_new_spec (st : Disk.Device D) (s : Ext4Superblock) (g : Z) : Disk.coherent st → desc_usable st s g →
  ∃ st', load_new junk st s g = Ret (desc (Disk.dev st) s g, st') ∧ Disk.same_disk st st'.
Proof.
  intros Hc (b & off & Hp & Hu). unfold load_new, desc. rewrite Hp. cbn [exec_bind].
  destruct (read_dev_spec st b Hc Hu) as (st' & -> & Hs). by exists st'.
Qed.

Definition inode_bitmap (d : D) (s : Ext4Superblock) (g : Z) : list Z :=
  block d (get_inode_bitmap_block s (desc d s g)).

Context (s : Ext4Superblock) (Huuid : Forall is_byte (uuid s) ∧ length (uuid s) = 16%nat).
Context (Hipg : 0 < inodes_per_group s <= 32768).

Lemma csum_returns (bg bitmap : list Z) : Forall is_byte bitmap → length bitmap = 4096%nat →
  ∃ bg', set_block_group_ialloc_bitmap_csum s bg bitmap = Ret bg'.
Proof.
  intros Hb Hlen. destruct Huuid as [Hu1 Hu2]. unfold set_block_group_ialloc_bitmap_csum, ext4_ialloc_bitmap_csum.
  destruct (Crc.crc32c_returns Crc.EXT4_CRC32_INIT (uuid s) (u32 (Z.of_nat (length (uuid s))))) as [c ->];
    [done|unfold u32; rewrite wrap_small; lia|]. cbn [exec_bind].
  destruct (Crc.crc32c_returns c bitmap (u32 (inodes_per_group s + 7) / 8)) as [c' ->]; [done| |].
  - unfold u32. rewrite wrap_small by lia. apply Z.lt_succ_r, Z.div_lt_upper_bound; lia.
  - cbn [exec_bind]. destruct (_ =? 0); eauto.
Qed.

Lemma note_alloc_returns (bg bitmap : list Z) (is_dir : bool) (n idx : Z) :
  Forall is_byte bitmap → length bitmap = 4096%nat → ∃ bg', note_alloc s bg bitmap is_dir n idx = Ret bg'.
Proof. intros Hb Hlen. unfold note_alloc. destruct (csum_returns bg bitmap Hb Hlen) as [bg1 ->]. cbn [exec_bind]. eauto. Qed.

Lemma note_free_returns (bg bitmap : list Z) (is_dir : bool) :
  Forall is_byte bitmap → length bitmap = 4096%nat → ∃ bg', note_free s bg bitmap is_dir = Ret bg'.
Proof. intros Hb Hlen. unfold note_free. destruct (csum_returns bg bitmap Hb Hlen) as [bg1 ->]. cbn [exec_bind]. eauto. Qed.

(** Bit [k] of block [blk] becomes [v]; nothing else on the disk changes. *)
Definition one_bit_changed (d d' : D) (blk k : Z) (v : bool) : Prop :=
  (∀ j, 0 <= j < 32768 → Bitmap.bit (block d' blk) j = if decide (j = k) then v else Bitmap.bit (block d blk) j) ∧
  ∀ i, 0 <= i → ¬ blk * 4096 <= i < (blk + 1) * 4096 → Disk.byte d' i = Disk.byte d i.

Lemma alloc_in_group_spec (st : Disk.Device D) (bg : list Z) (g n : Z) (is_dir : bool) :
  let blk := get_inode_bitmap_block s bg in
  let k := default 0 (Bitmap.first_clear (block (Disk.dev st) blk) 0 (Z.to_nat n)) in
  Disk.coherent st → usable st blk → Forall is_byte (block (Disk.dev st) blk) →
  get_inodes_in_group_cnt s g = Ret n → 0 <= n <= 32768 → 0 <= g → g * inodes_per_group s + 32768 < 2 ^ 32 →
  ∃ st', alloc_in_group st s bg g is_dir = Ret (g * inodes_per_group s + k + 1, st') ∧
    Disk.coherent st' ∧ one_bit_changed (Disk.dev st) (Disk.dev st') blk k true.
Proof.
  intros blk k Hc Hu Hby Hn Hn2 Hg Hmax. unfold alloc_in_group. fold blk.
  destruct (read_dev_spec st blk Hc Hu) as (st1 & -> & Hs1). cbn [exec_bind]. rewrite Hn. cbn [exec_bind].
  set (b := block (Disk.dev st) blk) in *. assert (length b = 4096%nat) as Hlen by apply Disk.bytes_length.
  rewrite Bitmap.find_clr_spec, Z.sub_0_r by (rewrite ?Hlen; lia). cbn [exec_bind]. fold k.
  assert (0 <= k < 32768) as Hk.
  { pose proof (Bitmap.first_clear_spec b (Z.to_nat n) 0) as Hf. subst k. destruct (Bitmap.first_clear _ _ _); cbn; lia. }
  destruct (Bitmap.bit_set_spec b k) as (b' & -> & Hb' & Hby' & Hbit); [rewrite Hlen; lia|]. cbn [exec_bind].
  destruct (write_dev_spec st1 blk b') as (st2 & -> & Hc2 & Hblk & Hout);
    [by eapply same_disk_coherent|by eapply usable_same|congruence|]. cbn [exec_bind].
  destruct (note_alloc_returns bg b' is_dir n k) as [bg' ->]; [by apply Hby'|congruence|]. cbn [exec_bind].
  exists st2. split; [|split; [done|split]].
  - unfold u32. rewrite (wrap_small _ (k + 1)), wrap_small by lia. do 2 f_equal. lia.
  - intros j Hj. rewrite Hblk. apply Hbit. lia.
  - intros i Hi Hi'. rewrite Hout by done. by destruct Hs1 as (-> & _).
Qed.

Lemma alloc_loop_spec (g count : Z) (is_dir : bool) (fuel : nat) : ∀ st bgid,
  Disk.coherent st → 0 <= bgid <= g → g < count → count * 2 + 1 < 2 ^ 32 → (Z.to_nat (g - bgid) < fuel)%nat →
  (∀ g', 0 <= g' <= g → desc_usable st s g') →
  (∀ g', 0 <= g' < g → get_free_inodes_count (desc (Disk.dev st) s g') = 0) →
  0 < get_free_inodes_count (desc (Disk.dev st) s g) →
  ∃ st1, Disk.same_disk st st1 ∧
    alloc_loop junk fuel st s is_dir count bgid bgid =
    (let! (i, st2) := alloc_in_group st1 s (desc (Disk.dev st) s g) g is_dir in Ret (Ok i, st2)).
Proof.
  induction fuel as [|fuel IH]; intros st bgid Hc Hb Hg Hcount Hf Hu Hz Hpos; [lia|]. cbn [alloc_loop].
  rewrite (proj2 (Z.ltb_lt _ _)) by lia. unfold u32. rewrite !wrap_small by (rewrite ?wrap_small; lia).
  rewrite (proj2 (Z.ltb_ge _ _)) by lia.
  destruct (load_new_spec st s bgid Hc (Hu bgid ltac:(lia))) as (st1 & -> & Hs). cbn [exec_bind].
  destruct (decide (bgid = g)) as [->|Hne].
  - rewrite (proj2 (Z.ltb_lt _ _)) by done. by exists st1.
  - rewrite Hz by lia. rewrite Z.ltb_irrefl. pose proof Hs as (E1 & _ & _).
    destruct (IH st1 (bgid + 1)) as (st2 & Hs2 & ->); rewrite ?E1; try done; try lia.
    + by eapply same_disk_coherent.
    + intros g' Hg'. destruct (Hu g' Hg') as (b & off & Hp & Hub). exists b, off. split; [done|]. by eapply usable_same.
    + exists st2. split; [|done]. destruct Hs as (? & ? & ?), Hs2 as (? & ? & ?). unfold Disk.same_disk. splits; congruence.
Qed.

(** The bitmap of group [g] can be read and written. *)
Definition group_usable (st : Disk.Device D) (g : Z) : Prop :=
  desc_usable st s g ∧ usable st (get_inode_bitmap_block s (desc (Disk.dev st) s g)) ∧
  Forall is_byte (inode_bitmap (Disk.dev st) s g).

(** [g] is the first group whose descriptor claims free inodes, and has [n]. *)
Definition first_with_free (st : Disk.Device D) (g n : Z) : Prop :=
  (∃ count, block_group_count s = Ret count ∧ g < count ∧ count * 2 + 1 < 2 ^ 32) ∧
  (∀ g', 0 <= g' <= g → desc_usable st s g') ∧
  (∀ g', 0 <= g' < g → get_free_inodes_count (desc (Disk.dev st) s g') = 0) ∧
  0 < get_free_inodes_count (desc (Disk.dev st) s g) ∧ get_inodes_in_group_cnt s g = Ret n ∧ 0 <= n <= 32768.

(** C21: Inode allocation.  In the first group whose descriptor claims free
    inodes, the allocator marks one inode used and returns its number, changing
    one bit on the disk.  While the bitmap of the group has a clear bit it is
    the lowest clear one, so the inode was free.  Once the bitmap is full it is
    inode 1 of the group, which is in use: neither the result of the search is
    looked at nor the count in the descriptor ever written back. *)
Theorem inode_alloc_lowest_free (st : Disk.Device D) (g n : Z) (is_dir : bool) :
  Disk.coherent st → 0 <= g → g * inodes_per_group s + 32768 < 2 ^ 32 → group_usable st g → first_with_free st g n →
  let bm := inode_bitmap (Disk.dev st) s g in
  ∃ k st', ialloc_alloc_inode junk st s is_dir = Ret (Ok (g * inodes_per_group s + k + 1), st') ∧ Disk.coherent st' ∧
    one_bit_changed (Disk.dev st) (Disk.dev st') (get_inode_bitmap_block s (desc (Disk.dev st) s g)) k true ∧
    ((∃ j, 0 <= j < n ∧ Bitmap.bit bm j = false) →
       0 <= k < n ∧ Bitmap.bit bm k = false ∧ ∀ j, 0 <= j < k → Bitmap.bit bm j = true) ∧
    ((∀ j, 0 <= j < n → Bitmap.bit bm j = true) → k = 0).
Proof.
  intros Hc Hg Hmax (Hd & Hu & Hby) ((count & Hcount & Hgc & Hc2) & Hds & Hz & Hpos & Hn & Hn2) bm.
  unfold ialloc_alloc_inode. rewrite Hcount. cbn [exec_bind].
  destruct (alloc_loop_spec g count is_dir (S (Z.to_nat count)) st 0) as (st1 & Hs1 & ->); try done; try lia.
  pose proof Hs1 as (E1 & _ & _).
  destruct (alloc_in_group_spec st1 (desc (Disk.dev st) s g) g n is_dir) as (st2 & -> & Hc' & Hone); rewrite ?E1; try done.
  { by eapply same_disk_coherent. }
  { by eapply usable_same. }
  rewrite E1 in Hone. fold (inode_bitmap (Disk.dev st) s g) in Hone |- *. fold bm in Hone |- *.
  eexists _, st2. split; [done|]. split; [done|]. split; [done|].
  pose proof (Bitmap.first_clear_spec bm (Z.to_nat n) 0) as Hf. destruct (Bitmap.first_clear bm 0 (Z.to_nat n)) as [k|].
  - destruct Hf as (Hk & Hclr & Hall). change (default 0 (Some k)) with k. split; [intros _; split; [lia|done]|].
    intros Hfull. rewrite Hfull in Hclr by lia. done.
  - split; [|done]. intros (j & Hj & Hclr). rewrite Hf in Hclr by lia. done.
Qed.

(** Freeing an inode frees its successor.  Inodes count from 1, but
    [ialloc_free_inode] takes the number itself as the index into the bitmap:
    freeing the inode of bit [k] leaves that bit set, so it is never reused,
    and clears bit [k + 1], whatever inode [k + 2] is used for. *)
Theorem inode_free_clears_successor (st : Disk.Device D) (g k : Z) (is_dir : bool) :
  Disk.coherent st → 0 <= g → 0 <= k → k + 1 < inodes_per_group s → group_usable st g →
  ∃ st', ialloc_free_inode junk st s (g * inodes_per_group s + k + 1) is_dir = Ret st' ∧ Disk.coherent st' ∧
    one_bit_changed (Disk.dev st) (Disk.dev st') (get_inode_bitmap_block s (desc (Disk.dev st) s g)) (k + 1) false.
Proof.
  intros Hc Hg Hk Hk1 (Hd & Hu & Hby). unfold ialloc_free_inode, get_bgid_of_inode, inode_to_bgidx.
  rewrite (proj2 (Z.eqb_neq _ _)) by lia. cbn [exec_bind].
  rewrite <- (Z.div_unique (g * inodes_per_group s + k + 1) (inodes_per_group s) g (k + 1)) by lia.
  rewrite <- (Z.mod_unique (g * inodes_per_group s + k + 1) (inodes_per_group s) g (k + 1)) by lia.
  destruct (load_new_spec st s g Hc Hd) as (st1 & -> & Hs1). cbn [exec_bind]. pose proof Hs1 as (E1 & _ & _).
  set (blk := get_inode_bitmap_block s (desc (Disk.dev st) s g)) in *.
  destruct (read_dev_spec st1 blk) as (st2 & -> & Hs2); [by eapply same_disk_coherent|by eapply usable_same|].
  cbn [exec_bind]. rewrite E1. set (b := block (Disk.dev st) blk) in *.
  assert (length b = 4096%nat) as Hlen by apply Disk.bytes_length.
  destruct (Bitmap.bit_clr_spec b (k + 1)) as (b' & -> & Hb' & Hby' & Hbit); [rewrite Hlen; lia|]. cbn [exec_bind].
  destruct (write_dev_spec st2 blk b') as (st3 & -> & Hc3 & Hblk & Hout).
  { eapply same_disk_coherent; [done|]. by eapply same_disk_coherent. }
  { eapply usable_same; [done|]. by eapply usable_same. }
  { congruence. }
  cbn [exec_bind]. destruct (note_free_returns (desc (Disk.dev st) s g) b' is_dir) as [bg' ->];
    [by apply Hby'|congruence|]. cbn [exec_bind].
  exists st3. split; [done|]. split; [done|]. split.
  - intros j Hj. rewrite Hblk. apply Hbit. lia.
  - intros i Hi Hi'. rewrite Hout by done. destruct Hs2 as (-> & _). by rewrite E1.
Qed.
End correct.

(** A volume of one group: descriptor in block 1, inode bitmap in block 2, 16
    inodes, two said to be free. *)
Definition volume_sb : Ext4Superblock := mkSuper 16 4 0 2 0 8 16 32 0 (replicate 16 0).

Definition volume (bits : list Z) : Disk.Device Disk.ram_disk :=
  let sector l := l ++ replicate (512 - length l) 0 in
  Disk.mkDevice (<[8%nat := sector [0;0;0;0; 2;0;0;0; 3;0;0;0; 0;0; 2;0]]> (<[16%nat := sector bits]> (Disk.blank 32)))
    Disk.new 0 0 16384.

Lemma volume_coherent (bits : list Z) : Disk.coherent (volume bits).
Proof.
  split; [|by intros s b]. unfold Disk.cache_ok. splits; [constructor| |cbn; lia].
  intros s. cbn. rewrite lookup_empty. split; [by intros ?%not_elem_of_nil|by intros ?%is_Some_None].
Qed.

Lemma volume_usable (bits : list Z) (blk : Z) : 0 <= blk < 4 → usable (volume bits) blk.
Proof.
  intros Hb. unfold usable. change (sectors (Disk.dev (volume bits))) with 32.
  change (Disk.max_offset (volume bits)) with 16384. lia.
Qed.

Lemma all_bytes (l : list Z) : forallb (fun b => (0 <=? b) && (b <? 256)) l = true → Forall is_byte l.
Proof.
  intros H. apply Forall_forall. intros b Hb%list_elem_of_In. apply (proj1 (forallb_forall _ _) H) in Hb.
  unfold is_byte. lia.
Qed.

Lemma volume_group (bits : list Z) :
  get_inode_bitmap_block volume_sb (desc [] (Disk.dev (volume bits)) volume_sb 0) = 2 →
  forallb (fun b => (0 <=? b) && (b <? 256)) (inode_bitmap [] (Disk.dev (volume bits)) volume_sb 0) = true →
  group_usable [] volume_sb (volume bits) 0.
Proof.
  intros E Hb. split; [|split].
  - exists 1, 0. split; [done|]. apply volume_usable. lia.
  - rewrite E. apply volume_usable. lia.
  - by apply all_bytes.
Qed.

Lemma volume_free (bits : list Z) :
  get_free_inodes_count (desc [] (Disk.dev (volume bits)) volume_sb 0) = 2 → first_with_free [] volume_sb (volume bits) 0 16.
Proof.
  intros E. split; [|split; [|split; [|split; [|split]]]].
  - exists 1. split; [reflexivity|]. lia.
  - intros g' Hg'. assert (g' = 0) as -> by lia. exists 1, 0. split; [done|]. apply volume_usable. lia.
  - intros g' Hg'. lia.
  - rewrite E. lia.
  - reflexivity.
  - lia.
Qed.

Lemma volume_uuid : Forall is_byte (uuid volume_sb) ∧ length (uuid volume_sb) = 16%nat.
Proof. split; [by apply all_bytes|done]. Qed.

(** With inodes 1 to 3 in use a free one is returned; with all 16 in use inode 1
    is returned again. *)
Lemma inode_alloc_lowest_free_witness :
  (∃ k st', ialloc_alloc_inode [] (volume [7]) volume_sb false = Ret (Ok (k + 1), st') ∧ 0 <= k < 16 ∧
     Bitmap.bit (inode_bitmap [] (Disk.dev (volume [7])) volume_sb 0) k = false) ∧
  ∃ st', ialloc_alloc_inode [] (volume [255; 255]) volume_sb false = Ret (Ok 1, st').
Proof.
  assert (0 < inodes_per_group volume_sb <= 32768) as Hipg by (cbn; lia). split.
  - destruct (inode_alloc_lowest_free [] volume_sb volume_uuid Hipg (volume [7]) 0 16 false)
      as (k & st' & H & _ & _ & Hfree & _); [apply volume_coherent|done|done| | |].
    + apply volume_group; vm_compute; reflexivity.
    + apply volume_free; vm_compute; reflexivity.
    + destruct Hfree as (Hk & Hbit & _); [exists 3; split; [lia|vm_compute; reflexivity]|].
      exists k, st'. split; [exact H|]. split; [exact Hk|exact Hbit].
  - destruct (inode_alloc_lowest_free [] volume_sb volume_uuid Hipg (volume [255; 255]) 0 16 false)
      as (k & st' & H & _ & _ & _ & Hfull); [apply volume_coherent|done|done| | |].
    + apply volume_group; vm_compute; reflexivity.
    + apply volume_free; vm_compute; reflexivity.
    + rewrite Hfull in H; [exists st'; exact H|]. intros j Hj.
      assert (j ∈ seqZ 0 16) as Hj' by (apply elem_of_seqZ; lia).
      assert (forallb (Bitmap.bit (inode_bitmap [] (Disk.dev (volume [255; 255])) volume_sb 0)) (seqZ 0 16) = true)
        as Hall by (vm_compute; reflexivity).
      apply (proj1 (forallb_forall _ _) Hall). by apply list_elem_of_In.
Defined.

(** Freeing inode 2 of the first three leaves it marked and frees inode 3. *)
Lemma inode_free_clears_successor_witness :
  ∃ st', ialloc_free_inode [] (volume [7]) volume_sb 2 false = Ret st' ∧
    Bitmap.bit (block (Disk.dev st') 2) 1 = true ∧ Bitmap.bit (block (Disk.dev st') 2) 2 = false.
Proof.
  destruct (inode_free_clears_successor [] volume_sb volume_uuid ltac:(cbn; lia) (volume [7]) 0 1 false)
    as (st' & H & _ & Hbits & _); [apply volume_coherent|done|done|cbn; lia| |].
  - apply volume_group; vm_compute; reflexivity.
  - exists st'. split; [exact H|].
    assert (get_inode_bitmap_block volume_sb (desc [] (Disk.dev (volume [7])) volume_sb 0) = 2) as E
      by (vm_compute; reflexivity).
    rewrite E in Hbits. rewrite !Hbits by lia. split; vm_compute; reflexivity.
Defined.
End Ialloc.
