(* ===== verification/MemSys.v ===== *)
(** The memory system calls and the page-fault handler: [sys_brk],
    [linux_mmap], [linux_mprotect], [linux_munmap], [linux_madvise] and
    [ensure_user_write_pages] of kernel/src/syscall/mod.rs, and
    [page_fault_handler_raw] of kernel/src/arch/x86_64/idt.rs, over the region
    table of Vma.v, the page tables of PageTable.v and a frame source. *)

From stdpp Require Import base numbers list.
From Stdlib Require Import ZArith Lia.
From S2P Require Import Prelude Pmm Vma PageTable.
Local Open Scope Z_scope.
Local Open Scope rust_scope.

Module MemSys.
Import Pmm Vma PageTable.

(** ** State and constants *)

Definition USER_HEAP_BASE : Z := 0x10000000.
Definition USER_HEAP_LIMIT : Z := 0x20000000.
Definition USER_STACK_TOP : Z := 0x80000000.
Definition USER_STACK_BASE : Z := 0x7F000000.

Definition ERR_INVAL : Z := -22.
Definition ERR_NOMEM : Z := -12.

Definition PROT_READ : Z := 1.
Definition PROT_WRITE : Z := 2.
Definition PROT_EXEC : Z := 4.
Definition MAP_FIXED : Z := 0x10.

Section memsys.
Context (ar : arch) {A : Type} `{FrameSource A}.

(** What the calls of the running process see: memory and the frame allocator,
    the region tables, [CURRENT_PAGE_TABLE_ROOT], the page-table root and the
    break of the current process entry, and the kernel's own page table. *)
Record Vm := mkVm {
  pt : @State A;
  regs : list VmStateSlot;
  cur_root : Z;
  proc : option (Z * Z);
  kernel_pt : Z
}.

Definition set_pt (vm : Vm) (s : @State A) : Vm := mkVm s (regs vm) (cur_root vm) (proc vm) (kernel_pt vm).
Definition set_regs (vm : Vm) (r : list VmStateSlot) : Vm :=
  mkVm (pt vm) r (cur_root vm) (proc vm) (kernel_pt vm).

Definition current_brk (vm : Vm) : Z :=
  match proc vm with Some (_, b) => b | None => USER_HEAP_BASE end.

Definition set_current_brk (vm : Vm) (addr : Z) : Vm :=
  match proc vm with
  | Some (r, _) => mkVm (pt vm) (regs vm) (cur_root vm) (Some (r, addr)) (kernel_pt vm)
  | None => vm
  end.

(** [get_user_pt_safe] on x86_64, [get_current_user_pt] on riscv64: the address
    of the root table. *)
Definition user_pt (vm : Vm) : Z :=
  let ppn := match ar with
             | X86_64 => cur_root vm
             | Riscv64 => match proc vm with Some (r, _) => r | None => 0 end
             end in
  if ppn =? 0 then kernel_pt vm else u64 (Z.shiftl ppn 12).

(** [x & !(page_size - 1)] *)
Definition page_down (x : Z) : Z := Z.land x (not64 (page_size - 1)).

(** The iterations of a loop over the pages of [start, end), both page aligned. *)
Definition pages (start end_ : Z) : nat := Z.to_nat ((end_ - start) / page_size).

Definition in_range (lo hi a : Z) : bool := (lo <=? a) && (a <? hi).

Definition prot_to_pte_flags (prot : Z) : Z :=
  let readable := negb (Z.land prot PROT_READ =? 0) in
  let writable := negb (Z.land prot PROT_WRITE =? 0) in
  let executable := negb (Z.land prot PROT_EXEC =? 0) in
  match ar with
  | Riscv64 =>
      let f := Z.lor 0x1 0x10 in
      let f := if readable then Z.lor f 0x2 else f in
      let f := if writable then Z.lor f 0x4 else f in
      let f := if executable then Z.lor f 0x8 else f in
      if prot =? 0 then Z.lor f (Z.lor 0x2 0x4) else f
  | X86_64 =>
      let f := Z.lor 0x1 0x4 in
      let f := if writable then Z.lor f 0x2 else f in
      if negb executable then Z.lor f (2 ^ 63) else f
  end.

(** [alloc_frame], zero it with [write_bytes], [map] it: false when no frame is left. *)
Definition map_fresh (s : @State A) (root vaddr flags : Z) : exec (bool * @State A) :=
  let! x := fs_alloc (frames s) in
  match x with
  | (Some f, fa) =>
      let! s' := PageTable.map ar (mkState (zero_table (mem s) f) fa) root vaddr f flags in
      Ret (true, s')
  | (None, fa) => Ret (false, mkState (mem s) fa)
  end.

(** ** brk *)

(** The loop of [sys_brk]: false when it ran out of frames. *)
Fixpoint brk_loop (n : nat) (s : @State A) (root vaddr : Z) : exec (bool * @State A) :=
  match n with
  | O => Ret (true, s)
  | S n =>
      match translate_user ar (mem s) root vaddr with
      | Some _ => brk_loop n s root (vaddr +! page_size)
      | None =>
          let! x := map_fresh s root vaddr (URW ar) in
          match x with
          | (true, s) => brk_loop n s root (vaddr +! page_size)
          | (false, s) => Ret (false, s)
          end
      end
  end.

Definition sys_brk (vm : Vm) (addr : Z) : exec (Z * Vm) :=
  let current := current_brk vm in
  if addr =? 0 then Ret (i64 current, vm)
  else if (addr <? USER_HEAP_BASE) || (USER_HEAP_LIMIT <? addr) then Ret (ERR_INVAL, vm)
  else if addr <=? current then Ret (i64 current, vm)
  else
    let start_page := page_down (current +! page_size -! 1) in
    let end_page := page_down (addr +! page_size -! 1) in
    let! x := brk_loop (pages start_page end_page) (pt vm) (user_pt vm) start_page in
    match ar, x with
    | Riscv64, (false, s) => Ret (ERR_NOMEM, set_pt vm s)
    | _, (_, s) => Ret (i64 addr, set_current_brk (set_pt vm s) addr)
    end.

(** ** mmap, munmap, mprotect, madvise *)

Fixpoint unmap_loop (n : nat) (m : memory) (root vaddr : Z) : memory :=
  match n with
  | O => m
  | S n => unmap_loop n (snd (unmap_user ar m root vaddr)) root (vaddr +! page_size)
  end.

Definition unmap_range (vm : Vm) (start end_ : Z) : Vm :=
  set_pt vm (set_mem (pt vm) (unmap_loop (pages start end_) (mem (pt vm)) (user_pt vm) start)).

(** The address a hint or [MAP_FIXED] asks for: 0 lets the kernel choose, and
    [None] is the refusal to map over the ELF image. *)
Definition mmap_target (vm : Vm) (addr aligned_len : Z) (map_fixed : bool) : option Z :=
  let aligned := page_down addr in
  if negb (addr =? 0) && map_fixed then
    if vma_is_elf (regs vm) (cur_root vm) aligned then None else Some aligned
  else if negb (addr =? 0) then
    let hint_end := default 0 (checked_add aligned aligned_len) in
    let hint_in_range := (USER_MMAP_BASE <=? aligned) && negb (hint_end =? 0) && (hint_end <=? USER_MMAP_LIMIT) in
    let hint_overlaps := hint_in_range && vma_overlaps (regs vm) (cur_root vm) aligned hint_end in
    if hint_in_range && negb hint_overlaps then Some aligned else Some 0
  else Some 0.

Definition linux_mmap_inner (vm : Vm) (addr len prot flags : Z) : Z * Vm :=
  let aligned_len := page_down (len +! page_size -! 1) in
  let map_fixed := negb (Z.land flags MAP_FIXED =? 0) in
  let root := cur_root vm in
  match mmap_target vm addr aligned_len map_fixed with
  | None => (ERR_NOMEM, vm)
  | Some t =>
      let x := if negb (t =? 0) then (Ok t, regs vm) else reserve_mmap_addr (regs vm) root aligned_len in
      match x with
      | (Err _, r) => (ERR_NOMEM, set_regs vm r)
      | (Ok target_addr, r) =>
          let end_ := target_addr +! aligned_len in
          match vma_add r root target_addr end_ prot map_fixed with
          | (Err _, r) => (ERR_NOMEM, set_regs vm r)
          | (Ok _, r) =>
              let vm := set_regs vm r in
              if prot =? 0 then (i64 target_addr, vm)
              else if map_fixed then (i64 target_addr, unmap_range vm target_addr end_)
              else (i64 target_addr, vm)
          end
      end
  end.

Definition linux_mmap (vm : Vm) (addr len prot flags : Z) : Z * Vm :=
  if len =? 0 then (ERR_INVAL, vm) else linux_mmap_inner vm addr len prot flags.

Definition sys_mmap (vm : Vm) (addr len flags : Z) : Z * Vm :=
  if len =? 0 then (ERR_INVAL, vm) else linux_mmap vm addr len flags 0x22.

(** The page range [start, end) that [mprotect], [munmap] and [madvise] work on. *)
Definition range_of (addr len : Z) : Z * Z :=
  (page_down addr, page_down (addr +! len +! page_size -! 1)).

Fixpoint mprotect_loop (n : nat) (m : memory) (root vaddr flags : Z) : memory :=
  match n with
  | O => m
  | S n =>
      let m := match translate_user ar m root vaddr with
               | Some _ => snd (mprotect_user ar m root vaddr flags)
               | None => m
               end in
      mprotect_loop n m root (vaddr +! page_size) flags
  end.

Definition linux_mprotect (vm : Vm) (addr len prot : Z) : Z * Vm :=
  if (addr =? 0) || (len =? 0) then (ERR_INVAL, vm)
  else
    let '(start, end_) := range_of addr len in
    let vm := set_regs vm (vma_update_prot (regs vm) (cur_root vm) start end_ prot) in
    let m := mprotect_loop (pages start end_) (mem (pt vm)) (user_pt vm) start (prot_to_pte_flags prot) in
    (0, set_pt vm (set_mem (pt vm) m)).

Definition linux_munmap (vm : Vm) (addr len : Z) : Z * Vm :=
  if (addr =? 0) || (len =? 0) then (ERR_INVAL, vm)
  else
    let '(start, end_) := range_of addr len in
    if (start <? USER_HEAP_BASE) || (USER_MMAP_LIMIT <? end_) then (ERR_INVAL, vm)
    else
      let vm := set_regs vm (vma_remove_range (regs vm) (cur_root vm) start end_) in
      (0, unmap_range vm start end_).

(** The pre-fault loop of [linux_madvise]. *)
Fixpoint populate_loop (n : nat) (s : @State A) (root vaddr flags : Z) : exec (@State A) :=
  match n with
  | O => Ret s
  | S n =>
      let needs_alloc := match translate_user ar (mem s) root vaddr, ar with
                         | None, _ => true
                         | Some f, X86_64 => f =? vaddr
                         | Some _, Riscv64 => false
                         end in
      if needs_alloc then
        let! x := map_fresh s root vaddr flags in
        populate_loop n (snd x) root (vaddr +! page_size) flags
      else populate_loop n s root (vaddr +! page_size) flags
  end.

Definition linux_madvise (vm : Vm) (addr len advice : Z) : exec (Z * Vm) :=
  if len =? 0 then Ret (0, vm)
  else
    let '(start, end_) := range_of addr len in
    if (advice =? 4) || (advice =? 8) then Ret (0, unmap_range vm start end_)
    else if (advice =? 22) || (advice =? 23) || (advice =? 3) then
      let pte_flags := match vma_check (regs vm) (cur_root vm) start with
                       | Some prot => prot_to_pte_flags prot
                       | None => prot_to_pte_flags (Z.lor 1 2)
                       end in
      let! s := populate_loop (pages start end_) (pt vm) (user_pt vm) start pte_flags in
      Ret (0, set_pt vm s)
    else Ret (0, vm).

End memsys.
Arguments Vm A : clear implicits.

(** ** The page-fault handler of x86_64 *)

Section fault.
Context {A : Type} `{FrameSource A}.

Definition needs_alloc (r : option Z) (page_addr : Z) : bool :=
  match r with None => true | Some f => f =? page_addr end.

(** A present page: restore the permissions its region allows. *)
Definition protection_fault (vm : Vm A) (addr error_code : Z) : exec (bool * Vm A) :=
  let page_addr := page_down addr in
  let vma_prot := vma_query (regs vm) (cur_root vm) addr in
  let is_write := negb (Z.land error_code (Z.shiftl 1 1) =? 0) in
  let is_exec := negb (Z.land error_code (Z.shiftl 1 4) =? 0) in
  let vma_allows := match vma_prot with
    | None => false
    | Some p => negb (p =? 0) && (if is_exec then negb (Z.land p 0x4 =? 0)
                                  else if is_write then negb (Z.land p 0x2 =? 0)
                                  else negb (Z.land p 0x3 =? 0))
    end in
  let heap_region := in_range USER_HEAP_BASE USER_HEAP_LIMIT addr in
  let stack_region := in_range USER_STACK_BASE USER_STACK_TOP addr in
  if vma_allows || heap_region || stack_region then
    let pte_flags := match vma_prot with Some p => prot_to_pte_flags X86_64 p | None => URW X86_64 end in
    let root := user_pt X86_64 vm in
    match translate_user X86_64 (mem (pt vm)) root page_addr with
    | None => Ret (false, vm)
    | Some frame =>
        if frame =? page_addr then
          if vma_is_elf (regs vm) (cur_root vm) addr then Ret (false, vm)
          else
            let! x := map_fresh X86_64 (pt vm) root page_addr pte_flags in
            Ret (fst x, set_pt vm (snd x))
        else
          let! s := PageTable.map X86_64 (pt vm) root page_addr frame pte_flags in
          Ret (true, set_pt vm s)
    end
  else Ret (false, vm).

(** A missing page of a region with protection [vma_prot], not [PROT_NONE]. *)
Definition vma_fault (vm : Vm A) (addr vma_prot : Z) : exec (bool * Vm A) :=
  let page_addr := page_down addr in
  let pte_flags := prot_to_pte_flags X86_64 vma_prot in
  let root := user_pt X86_64 vm in
  let old_frame := translate_user X86_64 (mem (pt vm)) root page_addr in
  if needs_alloc old_frame page_addr then
    if vma_is_elf (regs vm) (cur_root vm) addr && bool_decide (is_Some old_frame) then Ret (false, vm)
    else
      let! x := map_fresh X86_64 (pt vm) root page_addr pte_flags in
      Ret (fst x, set_pt vm (snd x))
  else
    match old_frame with
    | Some f =>
        let! s := PageTable.map X86_64 (pt vm) root page_addr f pte_flags in
        Ret (true, set_pt vm s)
    | None => Ret (false, vm)
    end.

Definition heap_fault (vm : Vm A) (page_addr : Z) : exec (bool * Vm A) :=
  let root := user_pt X86_64 vm in
  if needs_alloc (translate_user X86_64 (mem (pt vm)) root page_addr) page_addr then
    let! x := map_fresh X86_64 (pt vm) root page_addr (URW X86_64) in
    let vm := set_pt vm (snd x) in
    if fst x then
      let new_brk := page_addr +! page_size in
      Ret (true, if current_brk vm <? new_brk then set_current_brk vm new_brk else vm)
    else Ret (true, vm)
  else Ret (true, vm).

(** The stack, and the pages of the ELF image without a region. *)
Definition stack_fault (vm : Vm A) (page_addr : Z) : exec (bool * Vm A) :=
  let root := user_pt X86_64 vm in
  match translate_user X86_64 (mem (pt vm)) root page_addr with
  | None =>
      let! x := map_fresh X86_64 (pt vm) root page_addr (URW X86_64) in
      Ret (true, set_pt vm (snd x))
  | Some _ => Ret (true, vm)
  end.

(** The value of the block labelled 'handler, with the state it leaves. *)
Definition page_fault (vm : Vm A) (addr error_code : Z) (from_user can_lazy_alloc : bool) : exec (bool * Vm A) :=
  let page_addr := page_down addr in
  if negb (Z.land error_code 1 =? 0) then
    if can_lazy_alloc && from_user then protection_fault vm addr error_code else Ret (false, vm)
  else if negb can_lazy_alloc then Ret (false, vm)
  else
    match vma_query (regs vm) (cur_root vm) addr with
    | Some vma_prot => if negb (vma_prot =? 0) then vma_fault vm addr vma_prot else Ret (false, vm)
    | None =>
        if in_range USER_HEAP_BASE USER_HEAP_LIMIT addr then heap_fault vm page_addr
        else if in_range USER_STACK_BASE USER_STACK_TOP addr then stack_fault vm page_addr
        else if in_range 0x400000 USER_HEAP_BASE addr then stack_fault vm page_addr
        else Ret (false, vm)
    end.

Inductive fault_outcome := Resume | ExitProcess (code : Z) | HaltKernel.

(** [page_fault_handler_raw]: [cs] and the saved CR3 come from the stub's frame. *)
Definition page_fault_handler_raw (vm : Vm A) (addr error_code cs saved_cr3 kernel_cr3 : Z)
  : exec (fault_outcome * Vm A) :=
  let from_user := negb (Z.land cs 0x3 =? 0) in
  let can_lazy_alloc := from_user || negb (saved_cr3 =? kernel_cr3) in
  let! x := page_fault vm addr error_code from_user can_lazy_alloc in
  match x with
  | (true, vm) => Ret (Resume, vm)
  | (false, vm) => Ret (if from_user then ExitProcess 99 else HaltKernel, vm)
  end.

(** The loop of [ensure_user_write_pages]. *)
Fixpoint ensure_loop (n : nat) (vm : Vm A) (page : Z) : exec (bool * Vm A) :=
  match n with
  | O => Ret (true, vm)
  | S n =>
      let flags := match vma_query (regs vm) (cur_root vm) page with
        | Some prot => if Z.land prot PROT_WRITE =? 0 then None else Some (prot_to_pte_flags X86_64 prot)
        | None => if in_range USER_HEAP_BASE USER_HEAP_LIMIT page then Some (URW X86_64)
                  else if in_range USER_STACK_BASE USER_STACK_TOP page then Some (URW X86_64)
                  else None
        end in
      let root := user_pt X86_64 vm in
      match flags with
      | None => Ret (false, vm)
      | Some flags =>
          let fresh :=
            let! x := map_fresh X86_64 (pt vm) root page flags in
            match x with
            | (true, s) => ensure_loop n (set_pt vm s) (page +! page_size)
            | (false, s) => Ret (false, set_pt vm s)
            end in
          match translate_user X86_64 (mem (pt vm)) root page with
          | Some frame =>
              if negb (frame =? page) then
                let! s := PageTable.map X86_64 (pt vm) root page frame flags in
                ensure_loop n (set_pt vm s) (page +! page_size)
              else fresh
          | None => fresh
          end
      end
  end.

Definition ensure_user_write_pages (vm : Vm A) (addr len : Z) : exec (bool * Vm A) :=
  if len =? 0 then Ret (true, vm)
  else
    let start := page_down addr in
    match checked_add addr (len - 1) with
    | None => Ret (false, vm)
    | Some last =>
        let end_ := page_down last +! page_size in
        ensure_loop (pages start end_) vm start
    end.

End fault.

(** ** Pages and flags *)

Lemma page_down_eq (x : Z) : is_u64 x → page_down x = x / 4096 * 4096.
Proof. intros Hx. unfold page_down, page_size. apply (land_not_ones x 12); [lia|done]. Qed.

Lemma page_down_page (x : Z) : is_u64 x → page_down x / 4096 = x / 4096.
Proof. intros Hx. rewrite page_down_eq by done. by rewrite Z.div_mul. Qed.

Lemma prot_flags_ok (ar : arch) (prot : Z) :
  flags_ok ar (prot_to_pte_flags ar prot) ∧ Z.testbit (prot_to_pte_flags ar prot) 0 = true.
Proof.
  unfold prot_to_pte_flags. destruct ar.
  - repeat case_match; (split; [apply flags_ok_small; vm_compute; split; congruence|reflexivity]).
  - assert (∀ f, 0 <= f < 2 ^ 10 → Z.testbit f 0 = true →
      flags_ok X86_64 (Z.lor f (2 ^ 63)) ∧ Z.testbit (Z.lor f (2 ^ 63)) 0 = true) as Hnx.
    { intros f Hf H0. rewrite Z.lor_spec, H0. split; [|done]. split.
      - split; [apply Z.lor_nonneg; lia|]. apply Z.log2_lt_cancel. rewrite Z.log2_lor by lia.
        rewrite (Z.log2_pow2 63), (Z.log2_pow2 64) by lia.
        assert (Z.log2 f < 10) by (destruct (decide (f = 0)) as [->|]; [done|apply Z.log2_lt_pow2; lia]). lia.
      - intros i Hi. rewrite Z.lor_spec, Z.pow2_bits_false by lia. rewrite (bits_above i 10 f); done || lia. }
    repeat case_match; first [apply Hnx; [vm_compute; split; congruence|reflexivity]
      |split; [apply flags_ok_small; vm_compute; split; congruence|reflexivity]].
Qed.

Lemma URW_ok (ar : arch) : flags_ok ar (URW ar) ∧ Z.testbit (URW ar) 0 = true.
Proof. split; [|by destruct ar]. apply flags_ok_small. destruct ar; vm_compute; split; congruence. Qed.

Lemma vpn_page (v v' : Z) (k : nat) : v / 4096 = v' / 4096 → vpn v k = vpn v' k.
Proof.
  intros Heq. rewrite !vpn_eq, Z.pow_add_r, <- !Z.div_div by lia. change (2 ^ 12) with 4096. by rewrite Heq.
Qed.

(** ** A fresh page *)

Section lemmas.
Context (ar : arch) {A : Type} `{FrameSource A}.

(** [v] now has a zeroed frame [f] that was free before; no other page moved, and
    no page of data changed. *)
Record fresh_page (s s' : @State A) (root v f : Z) : Prop := {
  fp_good : good ar s' root;
  fp_fresh : ¬ fs_used (frames s) f;
  fp_data : data_frame ar s' root f;
  fp_zero : ∀ j, 0 <= j < 512 → mem s' (entry_addr f j) = 0;
  fp_translate : ∀ v', 0 <= v' < VA_LIMIT ar →
    translate_user ar (mem s') root v' =
      if decide (v' / 4096 = v / 4096) then Some (f + v' mod 4096) else translate_user ar (mem s) root v';
  fp_keeps : ∀ g, data_frame ar s root g → data_frame ar s' root g ∧
    ∀ j, 0 <= j < 512 → mem s' (entry_addr g j) = mem s (entry_addr g j);
  fp_used : ∀ g, fs_used (frames s) g → fs_used (frames s') g;
  fp_free : (fs_free (frames s) <= S (TOP_LEVEL ar) + fs_free (frames s'))%nat
}.

Lemma map_fresh_spec (s : @State A) (root v fl : Z) :
  good ar s root → (S (TOP_LEVEL ar) <= fs_free (frames s))%nat → 0 <= v < VA_LIMIT ar →
  flags_ok ar fl → Z.testbit fl 0 = true →
  ∃ s' f, map_fresh ar s root v fl = Ret (true, s') ∧ fresh_page s s' root v f.
Proof.
  intros Hg Hfree Hv Hfl Hbit. destruct (fs_alloc_ok (frames s) (proj2 Hg)) as (r & fa & Ha & Hinv & Hr).
  destruct r as [f|]; [|lia]. destruct Hr as (Hnu & Hal & Hf & HU & Hc).
  destruct (cleared_frame ar s fa root f Hg Hinv Hnu Hal HU) as (Hg1 & Hd1 & Ht1 & Hu1 & Hk1).
  set (s1 := mkState (zero_table (mem s) f) fa) in *.
  destruct (map_spec ar s1 root v f fl Hg1) as (s' & Hm & Hg' & Ht & Hk & Hc' & Hu'); try done;
    [cbn [frames s1]; lia|lia|].
  exists s', f. split; [unfold map_fresh; rewrite Ha; cbn [exec_bind]; fold s1; by rewrite Hm|].
  destruct (Hk f Hd1) as [Hdf Hz]. split; try done.
  - intros j Hj. rewrite Hz by done. by apply zero_table_in.
  - intros v' Hv'. rewrite Ht by done. case_decide; [|apply Ht1].
    f_equal. Z.to_euclidean_division_equations; lia.
  - intros g [Hg2 E]%Hk1. destruct (Hk g Hg2) as [? E']. split; [done|]. intros j Hj. by rewrite E', E.
  - eauto.
  - cbn [frames s1] in Hc'. lia.
Qed.

Lemma map_fresh_none (s : @State A) (root v fl : Z) :
  fs_inv (frames s) → fs_free (frames s) = 0%nat → map_fresh ar s root v fl = Ret (false, s).
Proof.
  intros Hinv Hfree. unfold map_fresh. destruct (fs_alloc_ok (frames s) Hinv) as (r & fa & -> & _ & Hr).
  cbn [exec_bind]. destruct r as [f|]; [|by destruct s, Hr as [-> _]]. destruct Hr as (_ & _ & _ & _ & Hc). lia.
Qed.

(** Addresses of one page are mapped together. *)
Lemma translate_page (m : memory) (v v' : Z) (k : nat) : ∀ t, v / 4096 = v' / 4096 →
  translate_from ar m t k v = None ↔ translate_from ar m t k v' = None.
Proof.
  induction k as [|k IH]; intros t Hp; cbn [translate_from]; rewrite (vpn_page v v') by done; [by case_match|].
  destruct (negb _); [done|]. destruct (pte_ps _ _); [done|]. destruct (_ =? 0); [done|]. by apply IH.
Qed.

(** [lo, hi) is mapped now: pages mapped before stayed, and each new page has a
    zeroed frame of its own that was free. *)
Record grown (s s' : @State A) (root lo hi : Z) : Prop := {
  gr_good : good ar s' root;
  gr_old : ∀ v p, 0 <= v < VA_LIMIT ar → translate_user ar (mem s) root v = Some p →
    translate_user ar (mem s') root v = Some p;
  gr_out : ∀ v, 0 <= v < VA_LIMIT ar → ¬ lo <= v < hi →
    translate_user ar (mem s') root v = translate_user ar (mem s) root v;
  gr_new : ∀ v, lo <= v < hi → translate_user ar (mem s) root v = None →
    ∃ f, translate_user ar (mem s') root v = Some (f + v mod 4096) ∧ ¬ fs_used (frames s) f ∧
      data_frame ar s' root f ∧ ∀ j, 0 <= j < 512 → mem s' (entry_addr f j) = 0;
  gr_own : ∀ v v', lo <= v < hi → lo <= v' < hi → translate_user ar (mem s) root v = None →
    translate_user ar (mem s) root v' = None →
    translate_user ar (mem s') root v = translate_user ar (mem s') root v' → v = v';
  gr_keeps : ∀ g, data_frame ar s root g → data_frame ar s' root g ∧
    ∀ j, 0 <= j < 512 → mem s' (entry_addr g j) = mem s (entry_addr g j);
  gr_used : ∀ g, fs_used (frames s) g → fs_used (frames s') g
}.

Lemma grown_refl (s : @State A) (root lo hi : Z) : good ar s root → hi <= lo → grown s s root lo hi.
Proof. intros Hg Hh. split; try done; intros; lia. Qed.

Lemma grown_skip (s s' : @State A) (root v hi : Z) :
  v mod 4096 = 0 → is_Some (translate_user ar (mem s) root v) →
  grown s s' root (v + 4096) hi → grown s s' root v hi.
Proof.
  intros Hal [q Hq] G.
  assert (∀ v', v <= v' → translate_user ar (mem s) root v' = None → v + 4096 <= v') as Hlo.
  { intros v' Hv' Hn. destruct (decide (v + 4096 <= v')); [done|]. exfalso.
    unfold translate_user in *. apply (translate_page _ _ v) in Hn; [congruence|].
    Z.to_euclidean_division_equations; lia. }
  split; try by apply G.
  - intros v' Hv' Hout. apply G; [done|lia].
  - intros v' Hv' Hn. pose proof (Hlo v' ltac:(lia) Hn). apply G; [lia|done].
  - intros v1 v2 H1 H2 N1 N2. pose proof (Hlo v1 ltac:(lia) N1). pose proof (Hlo v2 ltac:(lia) N2).
    apply G; (done || lia).
Qed.

Lemma grown_step (s s1 s' : @State A) (root v f hi : Z) :
  v mod 4096 = 0 → 0 <= v → hi <= VA_LIMIT ar → v + 4096 <= hi → translate_user ar (mem s) root v = None →
  fresh_page s s1 root v f → grown s1 s' root (v + 4096) hi → grown s s' root v hi.
Proof.
  intros Hal H0 Hlim Hhi Hn F G.
  assert (∀ v', v' / 4096 = v / 4096 ↔ v <= v' < v + 4096) as Hpage
    by (intros v'; Z.to_euclidean_division_equations; lia).
  assert (∀ v', v <= v' < v + 4096 → translate_user ar (mem s') root v' = Some (f + v' mod 4096)) as Hfirst.
  { intros v' Hv'. apply (gr_old _ _ _ _ _ G); [lia|]. rewrite (fp_translate _ _ _ _ _ F) by lia.
    by rewrite decide_True by (by apply Hpage). }
  assert (∀ v', 0 <= v' < VA_LIMIT ar → ¬ v <= v' < v + 4096 →
    translate_user ar (mem s1) root v' = translate_user ar (mem s) root v') as Hother.
  { intros v' Hv' Hne. rewrite (fp_translate _ _ _ _ _ F) by lia. by rewrite decide_False by (by rewrite Hpage). }
  destruct (fp_data _ _ _ _ _ F) as (Hfu & Hfal & _).
  assert (∀ v1 v2, v <= v1 < v + 4096 → v + 4096 <= v2 < hi → translate_user ar (mem s) root v2 = None →
    translate_user ar (mem s') root v1 = translate_user ar (mem s') root v2 → False) as Hdiff.
  { intros v1 v2 H1 H2 N2 E. rewrite Hfirst in E by done.
    destruct (gr_new _ _ _ _ _ G v2 ltac:(lia)) as (f2 & E2 & Hnu & (_ & Hal2 & _) & _); [by rewrite Hother by lia|].
    rewrite E2 in E. injection E as E. apply Hnu. replace f2 with f; [done|].
    Z.to_euclidean_division_equations; lia. }
  split; try by apply G.
  - intros v' p Hv' Hp. apply G; [done|]. rewrite Hother; [done|lia|]. intros Hin%Hpage.
    unfold translate_user in *. apply (translate_page _ _ v') in Hn; [congruence|done].
  - intros v' Hv' Hout. rewrite (gr_out _ _ _ _ _ G) by lia. apply Hother; [done|lia].
  - intros v' Hv' Hn'. destruct (decide (v <= v' < v + 4096)) as [Hin|Hin].
    + exists f. destruct (gr_keeps _ _ _ _ _ G f (fp_data _ _ _ _ _ F)) as [Hd E].
      split_and!; [by apply Hfirst|by apply F|done|]. intros j Hj. rewrite E by done. by apply F.
    + destruct (gr_new _ _ _ _ _ G v' ltac:(lia)) as (g & ? & Hnu & ?); [by rewrite Hother by lia|].
      exists g. split; [done|]. split; [|done]. intros Hu. apply Hnu. by apply (fp_used _ _ _ _ _ F).
  - intros v1 v2 H1 H2 N1 N2 E.
    destruct (decide (v1 < v + 4096)) as [L1|L1], (decide (v2 < v + 4096)) as [L2|L2].
    + rewrite !Hfirst in E by lia. injection E as E. Z.to_euclidean_division_equations; lia.
    + exfalso. by eapply (Hdiff v1 v2); [lia|lia|..].
    + exfalso. by eapply (Hdiff v2 v1); [lia|lia|..].
    + apply (gr_own _ _ _ _ _ G); [lia|lia|rewrite Hother by lia; done..|done].
  - intros g [Hd E]%(fp_keeps _ _ _ _ _ F). destruct (gr_keeps _ _ _ _ _ G g Hd) as [Hd' E'].
    split; [done|]. intros j Hj. by rewrite E', E.
  - intros g Hg. apply (gr_used _ _ _ _ _ G). by apply (fp_used _ _ _ _ _ F).
Qed.

Lemma brk_loop_spec (root : Z) (n : nat) : ∀ (s : @State A) (v : Z),
  good ar s root → (n * S (TOP_LEVEL ar) <= fs_free (frames s))%nat → v mod 4096 = 0 → 0 <= v →
  v + Z.of_nat n * 4096 <= VA_LIMIT ar →
  ∃ s', brk_loop ar n s root v = Ret (true, s') ∧ grown s s' root v (v + Z.of_nat n * 4096).
Proof.
  assert (VA_LIMIT ar < 2 ^ 64) as Hlim by (by destruct ar).
  induction n as [|n IH]; intros s v Hg Hfree Hal H0 Hv; cbn [brk_loop].
  { exists s. split; [done|]. apply grown_refl; [done|lia]. }
  assert (v +! page_size = v + 4096) as Hnext by (apply u64_small; unfold page_size; lia).
  rewrite Hnext.
  replace (v + Z.of_nat (S n) * 4096) with (v + 4096 + Z.of_nat n * 4096) in * by lia.
  destruct (translate_user ar (mem s) root v) as [p|] eqn:Hp.
  - destruct (IH s (v + 4096)) as (s' & -> & G); [done|lia|Z.to_euclidean_division_equations; lia|lia|lia|].
    exists s'. split; [done|]. apply grown_skip; [done|by rewrite Hp|done].
  - destruct (URW_ok ar) as [Hfl Hbit].
    destruct (map_fresh_spec s root v (URW ar) Hg) as (s1 & f & -> & F); [lia|lia|done|done|].
    cbn [exec_bind]. pose proof (fp_free _ _ _ _ _ F).
    destruct (IH s1 (v + 4096)) as (s' & -> & G);
      [apply F|lia|Z.to_euclidean_division_equations; lia|lia|lia|].
    exists s'. split; [done|]. by eapply grown_step; [..|exact F|exact G]; (done || lia).
Qed.

(** Physical addresses have 52 bits. *)
Lemma translate_range (m : memory) (root v p : Z) (U : Z → Prop) :
  tree ar m root U → translate_user ar m root v = Some p → 0 <= p < 2 ^ 52.
Proof.
  intros Ht. unfold translate_user.
  assert (∀ k t, reach ar m root k (path ar v k) t → translate_from ar m t k v = Some p → 0 <= p < 2 ^ 52) as Hk.
  2:{ apply (Hk (TOP ar)), reach_root. }
  induction k as [|k IH]; intros t Hr; cbn [translate_from];
    [destruct (tree_entry _ _ _ _ Ht _ _ _ _ Hr (vpn_range v 0)) as (_ & _ & Hppn)
    |destruct (tree_entry _ _ _ _ Ht _ _ _ _ Hr (vpn_range v (S k))) as (_ & Hhuge & _)].
  - destruct (pte_valid _) eqn:Hv; [|done]. cbn [negb]. intros [= <-]. specialize (Hppn eq_refl).
    rewrite pte_frame_ppn by done. change 0xFFF with (Z.ones 12). rewrite Z.land_ones by lia.
    rewrite (lor_low _ 12) by (try (apply Z.mod_pos_bound); lia).
    pose proof (Z.mod_pos_bound v (2 ^ 12) ltac:(lia)). lia.
  - destruct (pte_valid _) eqn:Hv; [|done]. cbn [negb]. destruct (pte_ps _ _) eqn:Hp.
    + destruct (Hhuge ltac:(lia) eq_refl eq_refl) as [Hk Hal]. injection Hk as ->. destruct ar; [done|].
      intros [= <-]. change (Z.shiftl 1 (12 + 9 * Z.of_nat 1) - 1) with (2 ^ 21 - 1).
      rewrite huge_page_offset by done. change 0xFFF with (Z.ones 12). rewrite Z.land_ones by lia.
      rewrite (lor_low _ 12) by (try (apply Z.mod_pos_bound); lia).
      pose proof (Z.mod_pos_bound v (2 ^ 12) ltac:(lia)). pose proof (vpn_range v 0).
      pose proof (pte_ppn_x86_range (m (entry_addr t (vpn v 1)))).
      Z.to_euclidean_division_equations; lia.
    + destruct (_ =? 0); [done|]. apply IH. by apply reach_next.
Qed.

(** ** Unmapping a range *)

Definition huge (w : WalkResult) : bool := match w with MappedHuge _ _ _ _ => true | _ => false end.

(** Unmapping a 4 KiB page changes no huge page. *)
Lemma unmap_huge (m : memory) (root v v' : Z) (U : Z → Prop) :
  tree ar m root U →
  huge (walk_mapping ar (snd (unmap_user ar m root v)) root v') = huge (walk_mapping ar m root v').
Proof.
  intros Ht. unfold unmap_user, walk_to_pt.
  pose proof (walk_to_pt_reach ar m root v (TOP ar) root (reach_root ar _ _ _)) as Hw.
  unfold TOP in Hw. destruct (walk_to_pt_from _ _ _ _ _) as [[t1 i]|]; [|done]. destruct Hw as [-> Hr].
  destruct (negb _); [done|]. cbn [snd]. unfold walk_mapping.
  set (m' := write m (entry_addr t1 (vpn v 0)) 0).
  assert (∀ k t0, reach ar m root k (path ar v' k) t0 →
    huge (walk_mapping_from ar m' t0 k v') = huge (walk_mapping_from ar m t0 k v')) as Hk.
  2:{ apply (Hk (TOP ar)), reach_root. }
  induction k as [|k IH]; intros t0 Hr0; cbn [walk_mapping_from].
  { by repeat case_match. }
  assert (m' (entry_addr t0 (vpn v' (S k))) = m (entry_addr t0 (vpn v' (S k)))) as ->.
  { eapply leaf_other_entry; [done|done|apply vpn_range|exact Hr0|apply vpn_range|by intros [? _]]. }
  destruct (pte_valid _) eqn:Hv; [|done]. destruct (pte_ps _ _) eqn:Hp; [done|].
  destruct (_ =? 0); [done|]. apply IH. by apply reach_next.
Qed.

Lemma unmap_loop_spec (root : Z) (U : Z → Prop) (n : nat) : ∀ (m : memory) (v : Z),
  tree ar m root U → v mod 4096 = 0 → 0 <= v → v + Z.of_nat n * 4096 <= VA_LIMIT ar →
  (∀ v', v <= v' < v + Z.of_nat n * 4096 → huge (walk_mapping ar m root v') = false) →
  let m' := unmap_loop ar n m root v in
  tree ar m' root U ∧ keeps_data ar m m' root ∧
  ∀ v', 0 <= v' < VA_LIMIT ar →
    translate_user ar m' root v' =
      if decide (v <= v' < v + Z.of_nat n * 4096) then None else translate_user ar m root v'.
Proof.
  assert (VA_LIMIT ar < 2 ^ 64) as Hlim by (by destruct ar).
  induction n as [|n IH]; intros m v Ht Hal H0 Hv Hh; cbn [unmap_loop].
  { split; [done|]. split; [apply keeps_data_refl|]. intros v' _. rewrite decide_False by lia. done. }
  assert (v +! page_size = v + 4096) as -> by (apply u64_small; unfold page_size; lia).
  pose proof (unmap_spec ar m root v U Ht ltac:(lia)) as Hu.
  pose proof (unmap_huge m root v) as Hhuge.
  destruct (unmap_user ar m root v) as [r m1]. cbn [snd] in *. destruct Hu as (Ht1 & Hk1 & Hr).
  assert (∀ v', 0 <= v' < VA_LIMIT ar → translate_user ar m1 root v' =
    if decide (v <= v' < v + 4096) then None else translate_user ar m root v') as Hone.
  { intros v' Hv'. assert (v' / 4096 = v / 4096 ↔ v <= v' < v + 4096) as Hp
      by (Z.to_euclidean_division_equations; lia).
    destruct r as [p|]; [destruct Hr as [_ Hr]; rewrite Hr by done; do 2 case_decide; tauto|].
    destruct Hr as [-> Hr]. case_decide as Hd; [|done]. apply Hp in Hd.
    destruct Hr as [Hr|(? & ? & ? & ? & Hr)]; [|specialize (Hh v ltac:(lia)); by rewrite Hr in Hh].
    unfold translate_user in *. by apply (translate_page _ _ v). }
  destruct (IH m1 (v + 4096) Ht1) as (Ht2 & Hk2 & Hr2); [Z.to_euclidean_division_equations; lia|lia|lia| |].
  { intros v' Hv'. rewrite (Hhuge v' U Ht). apply Hh. lia. }
  split; [done|]. split; [by eapply keeps_data_trans|]. intros v' Hv'. rewrite Hr2, Hone by done.
  repeat case_decide; (done || lia).
Qed.

(** ** Protecting a range *)

Lemma mprotect_loop_spec (root fl : Z) (U : Z → Prop) (n : nat) : ∀ (m : memory) (v : Z),
  tree ar m root U → 0 <= v → v + Z.of_nat n * 4096 <= VA_LIMIT ar →
  flags_ok ar fl → Z.testbit fl 0 = true →
  let m' := mprotect_loop ar n m root v fl in
  tree ar m' root U ∧ keeps_data ar m m' root ∧
  ∀ v', 0 <= v' < VA_LIMIT ar → translate_user ar m' root v' = translate_user ar m root v'.
Proof.
  assert (VA_LIMIT ar < 2 ^ 64) as Hlim by (by destruct ar).
  induction n as [|n IH]; intros m v Ht H0 Hv Hfl Hbit; cbn [mprotect_loop]; [done|].
  assert (v +! page_size = v + 4096) as -> by (apply u64_small; unfold page_size; lia).
  destruct (translate_user ar m root v) as [q|]; [|apply IH; (done || lia)].
  pose proof (mprotect_spec ar m root v fl U Ht ltac:(lia) Hfl) as Hp.
  destruct (mprotect_user ar m root v fl) as [ok m1]. destruct Hp as (Ht1 & Hk1 & _ & _ & Hr1). cbn [snd].
  destruct (IH m1 (v + 4096) Ht1) as (Ht2 & Hk2 & Hr2); [lia|lia|done|done|].
  split; [done|]. split; [by eapply keeps_data_trans|]. intros v' Hv'. rewrite Hr2, Hr1 by done.
  rewrite decide_False; [done|]. intros (_ & _ & ?). congruence.
Qed.

End lemmas.

Lemma range_of_eq (addr len : Z) : 0 <= addr → 0 <= len → addr + len + 4095 < 2 ^ 64 →
  range_of addr len = (addr / 4096 * 4096, (addr + len + 4095) / 4096 * 4096).
Proof.
  intros Ha Hl Hs. unfold range_of. f_equal; [apply page_down_eq; unfold is_u64; lia|].
  rewrite (u64_small (addr + len)) by lia. apply align_up_page; lia.
Qed.

Lemma pages_of (lo hi : Z) : lo mod 4096 = 0 → hi mod 4096 = 0 → lo <= hi →
  lo + Z.of_nat (pages lo hi) * 4096 = hi.
Proof. unfold pages, page_size. intros. rewrite Z2Nat.id; Z.to_euclidean_division_equations; lia. Qed.

(** ** Claims *)

(** A fault on a page that is not present. *)
Lemma demand_zero {A : Type} `{FrameSource A} (vm : Vm A) (addr err prot : Z) :
  let root := user_pt X86_64 vm in
  good X86_64 (pt vm) root → 0 <= addr < VA_LIMIT X86_64 → Z.land err 1 = 0 →
  vma_query (regs vm) (cur_root vm) addr = Some prot →
  translate_user X86_64 (mem (pt vm)) root (page_down addr) = None →
  (prot ≠ 0 → (4 <= fs_free (frames (pt vm)))%nat → ∃ s' f,
     (∀ from_user, page_fault vm addr err from_user true = Ret (true, set_pt vm s')) ∧
     fresh_page X86_64 (pt vm) s' root addr f) ∧
  (prot = 0 ∨ fs_free (frames (pt vm)) = 0%nat → ∀ from_user, page_fault vm addr err from_user true = Ret (false, vm)).
Proof.
  intros root Hg Ha He Hq Ht. unfold page_fault. rewrite He, Hq. cbn [Z.eqb negb].
  assert (is_u64 addr) as Hu by (unfold is_u64; change (VA_LIMIT X86_64) with (2 ^ 48) in Ha; lia).
  assert (0 <= page_down addr < VA_LIMIT X86_64) as Hpd.
  { rewrite page_down_eq by done. Z.to_euclidean_division_equations; lia. }
  unfold vma_fault. fold root. rewrite Ht. cbn [needs_alloc].
  rewrite (bool_decide_eq_false_2 (is_Some None)) by (by intros [? ?]). rewrite andb_false_r.
  split.
  - intros Hp Hf. rewrite (proj2 (Z.eqb_neq prot 0) Hp). cbn [negb].
    destruct (prot_flags_ok X86_64 prot) as [Hfl Hbit].
    destruct (map_fresh_spec X86_64 (pt vm) root (page_down addr) _ Hg Hf Hpd Hfl Hbit) as (s' & f & -> & [F1 F2 F3 F4 F5 F6 F7 F8]).
    cbn [exec_bind fst snd]. exists s', f. split; [done|]. split; try done.
    intros v' Hv'. rewrite F5 by done. by rewrite page_down_page.
  - intros [->|Hf] _; [done|]. destruct (negb _); [|done].
    rewrite (map_fresh_none X86_64) by (done || apply Hg). cbn [exec_bind fst snd]. by destruct vm.
Qed.

(** What the handler makes of the block's value, in user mode or on a user page table. *)
Lemma handler_value {A : Type} `{FrameSource A} (vm vm' : Vm A) (addr err cs saved_cr3 kernel_cr3 : Z) (b : bool) :
  Z.land cs 3 ≠ 0 ∨ saved_cr3 ≠ kernel_cr3 → (∀ from_user, page_fault vm addr err from_user true = Ret (b, vm')) →
  page_fault_handler_raw vm addr err cs saved_cr3 kernel_cr3 =
    Ret (if b then Resume else if decide (Z.land cs 3 = 0) then HaltKernel else ExitProcess 99, vm').
Proof.
  intros Hm Hb. unfold page_fault_handler_raw. rewrite (proj2 (orb_true_iff _ _)), Hb.
  - cbn [exec_bind]. destruct b; [done|]. case_decide as Hc; [by rewrite Hc|]. by rewrite (proj2 (Z.eqb_neq _ _) Hc).
  - rewrite !negb_true_iff, !Z.eqb_neq. done.
Qed.

(** C4: A first access to a page of a mapped region, from user mode or from the kernel on a user page table. On a
    well-formed page table, a fault on a page that is not present, in a region that allows some access,
    with at least four free frames (one for the page, three for tables that may be missing), resumes with the
    page backed by a frame that was free and is all zeroes; no other page moves and no page of data changes, and
    the region table, the break and the kernel table stay. If the region is [PROT_NONE], or no frame is left at
    all, nothing changes, and the handler ends the process with code 99 when the access came from user mode and
    halts the kernel when it came from the kernel. *)
Theorem page_fault_demand_zero {A : Type} `{FrameSource A} (vm : Vm A) (addr err cs saved_cr3 kernel_cr3 prot : Z) :
  let root := user_pt X86_64 vm in
  good X86_64 (pt vm) root → 0 <= addr < VA_LIMIT X86_64 → Z.land err 1 = 0 → Z.land cs 3 ≠ 0 ∨ saved_cr3 ≠ kernel_cr3 →
  vma_query (regs vm) (cur_root vm) addr = Some prot →
  translate_user X86_64 (mem (pt vm)) root (page_down addr) = None →
  (prot ≠ 0 → (4 <= fs_free (frames (pt vm)))%nat → ∃ s' f,
     page_fault_handler_raw vm addr err cs saved_cr3 kernel_cr3 = Ret (Resume, set_pt vm s') ∧
     fresh_page X86_64 (pt vm) s' root addr f) ∧
  (prot = 0 ∨ fs_free (frames (pt vm)) = 0%nat →
     page_fault_handler_raw vm addr err cs saved_cr3 kernel_cr3 =
       Ret (if decide (Z.land cs 3 = 0) then HaltKernel else ExitProcess 99, vm)).
Proof.
  intros root Hg Ha He Hm Hq Ht. destruct (demand_zero vm addr err prot Hg Ha He Hq Ht) as [Hok Hno]. split.
  - intros Hp Hf. destruct (Hok Hp Hf) as (s' & f & E & Hfr). exists s', f. split; [|done]. by apply (handler_value vm _ addr err cs _ _ true).
  - intros Hp. apply (handler_value vm _ addr err cs _ _ false); [done|]. by apply Hno.
Qed.

(** ** Pages the kernel may write for the process *)

(** The page has a region with [PROT_WRITE], or none and lies in the heap or the stack. *)
Definition writable {A : Type} (vm : Vm A) (page : Z) : bool :=
  match vma_query (regs vm) (cur_root vm) page with
  | Some prot => negb (Z.land prot PROT_WRITE =? 0)
  | None => in_range USER_HEAP_BASE USER_HEAP_LIMIT page || in_range USER_STACK_BASE USER_STACK_TOP page
  end.

(** What one iteration does to the page table. *)
Definition remapped {A : Type} `{FrameSource A} (s s1 : @State A) (root page : Z) : Prop :=
  good X86_64 s1 root ∧ (fs_free (frames s) <= 4 + fs_free (frames s1))%nat ∧
  (∃ q, ∀ v, 0 <= v < VA_LIMIT X86_64 → translate_user X86_64 (mem s1) root v =
     if decide (v / 4096 = page / 4096) then Some (q + v mod 4096) else translate_user X86_64 (mem s) root v) ∧
  ∀ g, data_frame X86_64 s root g → data_frame X86_64 s1 root g ∧
    ∀ j, 0 <= j < 512 → mem s1 (entry_addr g j) = mem s (entry_addr g j).

Lemma ensure_step {A : Type} `{FrameSource A} (n : nat) (vm : Vm A) (page : Z) :
  let root := user_pt X86_64 vm in
  good X86_64 (pt vm) root → (4 <= fs_free (frames (pt vm)))%nat → 0 <= page < VA_LIMIT X86_64 →
  if writable vm page then
    ∃ s1, ensure_loop (S n) vm page = ensure_loop n (set_pt vm s1) (page +! page_size) ∧
      remapped (pt vm) s1 root page
  else ensure_loop (S n) vm page = Ret (false, vm).
Proof.
  intros root Hg Hf Hp. unfold writable. cbn [ensure_loop]. fold root.
  assert (∀ flags, flags_ok X86_64 flags → Z.testbit flags 0 = true → ∃ s1,
    (let fresh := let! x := map_fresh X86_64 (pt vm) root page flags in
       match x with
       | (true, s) => ensure_loop n (set_pt vm s) (page +! page_size)
       | (false, s) => Ret (false, set_pt vm s)
       end in
     match translate_user X86_64 (mem (pt vm)) root page with
     | Some frame =>
         if negb (frame =? page) then
           let! s := PageTable.map X86_64 (pt vm) root page frame flags in
           ensure_loop n (set_pt vm s) (page +! page_size)
         else fresh
     | None => fresh
     end) = ensure_loop n (set_pt vm s1) (page +! page_size) ∧ remapped (pt vm) s1 root page) as Hmain.
  { intros flags Hfl Hbit. cbv zeta.
    destruct (map_fresh_spec X86_64 (pt vm) root page flags Hg Hf Hp Hfl Hbit) as (s1 & f & -> & F).
    assert (remapped (pt vm) s1 root page) as Hrem.
    { split; [apply F|]. split; [apply F|]. split; [|apply F]. exists f. apply F. }
    destruct (translate_user X86_64 (mem (pt vm)) root page) as [fr|] eqn:Ht; [|by exists s1].
    destruct (negb _); [|by exists s1]. pose proof (translate_range _ _ _ _ _ _ (proj1 Hg) Ht) as Hr.
    destruct (map_spec X86_64 (pt vm) root page fr flags Hg ltac:(change (TOP_LEVEL X86_64) with 3%nat; lia) Hp Hr Hfl Hbit)
      as (s2 & -> & Hg2 & Ht2 & Hd2 & Hc2 & _).
    exists s2. split; [done|]. split; [done|].
    split; [change (TOP_LEVEL X86_64) with 3%nat in Hc2; lia|]. split; [|done]. by eexists. }
  destruct (vma_query _ _ _) as [prot|].
  - destruct (_ =? 0); [done|]. cbn [negb]. apply Hmain; apply prot_flags_ok.
  - destruct (in_range USER_HEAP_BASE _ _); [apply Hmain; apply URW_ok|].
    destruct (in_range _ _ _); [apply Hmain; apply URW_ok|done].
Qed.

Lemma ensure_loop_spec {A : Type} `{FrameSource A} (n : nat) : ∀ (vm : Vm A) (page : Z),
  let root := user_pt X86_64 vm in
  let hi := page + Z.of_nat n * 4096 in
  good X86_64 (pt vm) root → (n * 4 <= fs_free (frames (pt vm)))%nat → page mod 4096 = 0 → 0 <= page →
  hi <= VA_LIMIT X86_64 →
  ∃ b s', ensure_loop n vm page = Ret (b, set_pt vm s') ∧ good X86_64 s' root ∧
    (b = true ↔ ∀ v, page <= v < hi → v mod 4096 = 0 → writable vm v = true) ∧
    (b = true → ∀ v, page <= v < hi → is_Some (translate_user X86_64 (mem s') root v)) ∧
    (∀ v, 0 <= v < VA_LIMIT X86_64 → ¬ page <= v < hi →
       translate_user X86_64 (mem s') root v = translate_user X86_64 (mem (pt vm)) root v) ∧
    ∀ g, data_frame X86_64 (pt vm) root g → data_frame X86_64 s' root g ∧
      ∀ j, 0 <= j < 512 → mem s' (entry_addr g j) = mem (pt vm) (entry_addr g j).
Proof.
  change (VA_LIMIT X86_64) with (2 ^ 48).
  induction n as [|n IH]; intros vm page root hi Hg Hf Hal H0 Hlim.
  { exists true, (pt vm). split; [by destruct vm|]. split; [done|].
    split; [|split; [|done]]; [split; [|done]; intros _ v Hv; lia|intros _ v Hv; lia]. }
  pose proof (ensure_step n vm page Hg ltac:(lia) ltac:(change (VA_LIMIT X86_64) with (2 ^ 48); lia)) as Hs.
  destruct (writable vm page) eqn:Hw.
  2:{ rewrite Hs. exists false, (pt vm). split; [by destruct vm|]. split; [done|]. split; [|done].
      split; [done|]. intros Hall. rewrite Hall in Hw; [done|lia|done]. }
  destruct Hs as (s1 & -> & Hg1 & Hc1 & [q Ht1] & Hk1).
  assert (page +! page_size = page + 4096) as -> by (apply u64_small; unfold page_size; lia).
  destruct (IH (set_pt vm s1) (page + 4096)) as (b & s' & -> & Hg' & Hb & Hm & Hout & Hk);
    [done|cbn [set_pt pt]; lia|Z.to_euclidean_division_equations; lia|lia|lia|].
  replace (page + 4096 + Z.of_nat n * 4096) with hi in * by (unfold hi; lia).
  exists b, s'. split; [done|]. split; [done|]. split; [|split; [|split]].
  - rewrite Hb. split; intros Hall v Hv Hvm.
    + destruct (decide (v = page)) as [->|]; [done|]. apply Hall; [|done].
      Z.to_euclidean_division_equations; lia.
    + apply Hall; [lia|done].
  - intros Hbt v Hv. destruct (decide (page + 4096 <= v)); [apply Hm; (done || lia)|].
    change (user_pt X86_64 (set_pt vm s1)) with root in Hout. rewrite Hout by lia. cbn [set_pt pt].
    rewrite Ht1 by (change (VA_LIMIT X86_64) with (2 ^ 48); lia).
    rewrite decide_True by (Z.to_euclidean_division_equations; lia). done.
  - intros v Hv Hne. change (user_pt X86_64 (set_pt vm s1)) with root in Hout. rewrite Hout by lia. cbn [set_pt pt].
    rewrite Ht1 by (by change (VA_LIMIT X86_64) with (2 ^ 48)).
    rewrite decide_False; [done|]. Z.to_euclidean_division_equations; lia.
  - intros g [Hd E]%Hk1. destruct (Hk g Hd) as [Hd' E']. split; [done|]. intros j Hj. by rewrite E', E.
Qed.

(** [sys_brk]. With frames left, growing the break maps every page up to
    the new break, each new page on a zeroed frame of its own, and keeps what was
    mapped. With no frame left and the next page unmapped, riscv64 reports
    [ENOMEM] and keeps the break; x86_64 still reports success and moves the
    break over memory that is not there. *)
Theorem brk_grows_or_runs_out (ar : arch) {A : Type} `{FrameSource A} (vm : Vm A) (r b addr : Z) :
  let root := user_pt ar vm in
  let lo := (b + 4095) / 4096 * 4096 in
  let hi := (addr + 4095) / 4096 * 4096 in
  good ar (pt vm) root → proc vm = Some (r, b) → USER_HEAP_BASE <= b → b < addr <= USER_HEAP_LIMIT →
  ((pages lo hi * S (TOP_LEVEL ar) <= fs_free (frames (pt vm)))%nat →
   ∃ s', sys_brk ar vm addr = Ret (addr, set_current_brk (set_pt vm s') addr) ∧
     grown ar (pt vm) s' root lo hi) ∧
  (fs_free (frames (pt vm)) = 0%nat → lo < hi → translate_user ar (mem (pt vm)) root lo = None →
   sys_brk ar vm addr =
     match ar with
     | Riscv64 => Ret (-12, vm)
     | X86_64 => Ret (addr, set_current_brk vm addr)
     end).
Proof.
  intros root lo hi Hg Hp Hb Ha. unfold USER_HEAP_BASE, USER_HEAP_LIMIT in *.
  assert (i64 addr = addr) as Hi by (apply to_signed_id; unfold is_signed; lia).
  assert (lo mod 4096 = 0 ∧ hi mod 4096 = 0 ∧ 0 <= lo <= hi ∧ hi <= 0x20000000) as (Hl & Hh & Hlh & Hlim)
    by (unfold lo, hi; Z.to_euclidean_division_equations; lia).
  assert (2 ^ 30 <= VA_LIMIT ar) as Hva by (by destruct ar).
  unfold sys_brk, current_brk. rewrite Hp. unfold USER_HEAP_BASE, USER_HEAP_LIMIT.
  rewrite (proj2 (Z.eqb_neq addr 0)), (proj2 (Z.ltb_ge addr _)), (proj2 (Z.ltb_ge _ addr)),
    (proj2 (Z.leb_gt addr b)) by lia. cbn [orb].
  unfold page_down. rewrite !align_up_page by lia. fold root lo hi. rewrite Hi. split.
  - intros Hf. destruct (brk_loop_spec ar root (pages lo hi) (pt vm) lo Hg Hf Hl) as (s' & -> & G).
    { lia. } { rewrite pages_of by lia. lia. }
    rewrite pages_of in G by lia. exists s'. split; [|done]. cbn [exec_bind]. by destruct ar.
  - intros Hf Hlt Hn. destruct (pages lo hi) as [|n] eqn:En.
    { pose proof (pages_of lo hi Hl Hh ltac:(lia)) as Hpg. rewrite En in Hpg. lia. }
    cbn [brk_loop]. rewrite Hn, (map_fresh_none ar) by (done || apply Hg).
    cbn [exec_bind]. by destruct ar, vm.
Qed.

(** C5: [linux_munmap] on a region table with a free slot (cutting a region in two takes one) whose regions do
    not overlap, of a range without huge pages: exactly the addresses of the range lose their region and their
    translation, everything else stays, data included, and the next user-mode access to the range ends the process with
    code 99, except in the heap and stack windows, where the fault handler maps a page again. No frame goes back to
    the allocator. *)
Theorem munmap_removes_range {A : Type} `{FrameSource A} (vm : Vm A) (addr len : Z) (st : VmState) :
  let root := user_pt X86_64 vm in
  let lo := addr / 4096 * 4096 in
  let hi := (addr + len + 4095) / 4096 * 4096 in
  good X86_64 (pt vm) root → 0 < len → USER_HEAP_BASE <= lo → hi <= USER_MMAP_LIMIT →
  state_of (regs vm) (cur_root vm) = Some st → unique_cover (vmas st) →
  Exists (fun v => v_active v = false) (vmas st) →
  (∀ v, lo <= v < hi → huge (walk_mapping X86_64 (mem (pt vm)) root v) = false) →
  ∃ vm' st', linux_munmap X86_64 vm addr len = (0, vm') ∧
    good X86_64 (pt vm') root ∧ user_pt X86_64 vm' = root ∧ frames (pt vm') = frames (pt vm) ∧
    keeps_data X86_64 (mem (pt vm)) (mem (pt vm')) root ∧
    (∀ v, 0 <= v < VA_LIMIT X86_64 → translate_user X86_64 (mem (pt vm')) root v =
       if decide (lo <= v < hi) then None else translate_user X86_64 (mem (pt vm)) root v) ∧
    state_of (regs vm') (cur_root vm) = Some st' ∧
    (∀ a p, covered (vmas st') a p ↔ covered (vmas st) a p ∧ ¬ lo <= a < hi) ∧
    ∀ a err cs saved_cr3 kernel_cr3, lo <= a < hi → ¬ USER_HEAP_BASE <= a < USER_HEAP_LIMIT →
      ¬ USER_STACK_BASE <= a < USER_STACK_TOP → Z.land err 1 = 0 → Z.land cs 3 ≠ 0 →
      page_fault_handler_raw vm' a err cs saved_cr3 kernel_cr3 = Ret (ExitProcess 99, vm').
Proof.
  intros root lo hi [Ht Hinv] Hlen Hlo Hhi Hst Hu Hfree Hh. unfold USER_HEAP_BASE, USER_MMAP_LIMIT in *.
  assert (lo mod 4096 = 0 ∧ hi mod 4096 = 0 ∧ lo < hi ∧ lo <= addr ∧ addr + len <= hi) as (Hl & Hm & Hlt & Hal & Hah)
    by (unfold lo, hi; Z.to_euclidean_division_equations; lia).
  destruct (remove_range_spec (regs vm) (cur_root vm) lo hi st Hst Hlt Hu Hfree) as (st' & Hst' & Hu' & _ & Hc & _).
  assert (hi <= VA_LIMIT X86_64) as Hva by (change (VA_LIMIT X86_64) with (2 ^ 48); lia).
  pose proof (unmap_loop_spec X86_64 root _ (pages lo hi) (mem (pt vm)) lo Ht Hl ltac:(lia)) as Hun.
  rewrite pages_of in Hun by lia. specialize (Hun Hva Hh).
  eexists (unmap_range X86_64 (set_regs vm (vma_remove_range (regs vm) (cur_root vm) lo hi)) lo hi), st'.
  split.
  { unfold linux_munmap. rewrite range_of_eq by lia. fold lo hi. unfold USER_HEAP_BASE, USER_MMAP_LIMIT.
    rewrite (proj2 (Z.eqb_neq addr 0)), (proj2 (Z.eqb_neq len 0)) by lia.
    rewrite (proj2 (Z.ltb_ge lo _)), (proj2 (Z.ltb_ge _ hi)) by lia. done. }
  destruct Hun as (Ht' & Hk' & Htr'). split_and!; try done.
  intros a err cs saved kernel Ha Hheap Hstack He Hcs. rewrite (handler_value _ (unmap_range X86_64 (set_regs vm (vma_remove_range (regs vm) (cur_root vm) lo hi)) lo hi)
    a err cs saved kernel false (or_introl Hcs)); [by rewrite decide_False|]. intros from_user. unfold page_fault. rewrite He. cbn [Z.eqb negb].
  assert (vma_query (vma_remove_range (regs vm) (cur_root vm) lo hi) (cur_root vm) a = None) as Hq.
  { destruct (vma_query _ _ _) as [q|] eqn:E; [|done].
    apply (query_spec _ _ _ _ st' Hst' Hu'), Hc in E. tauto. }
  cbn [unmap_range set_pt set_regs regs cur_root]. rewrite Hq. unfold in_range, USER_HEAP_BASE in *.
  rewrite (proj2 (andb_false_iff _ _)); [|rewrite Z.leb_gt, Z.ltb_ge; lia].
  rewrite (proj2 (andb_false_iff _ _)); [|rewrite Z.leb_gt, Z.ltb_ge; lia].
  rewrite (proj2 (andb_false_iff _ _)); [|rewrite Z.leb_gt, Z.ltb_ge; lia]. done.
Qed.

(** [linux_mprotect] moves no page and changes no data, but it gives the new
    protection to every region that meets the range, whole: an address outside
    the range changes its protection with the region it lies in. *)
Theorem mprotect_changes_whole_regions (ar : arch) {A : Type} `{FrameSource A} (vm : Vm A) (addr len prot : Z)
    (st : VmState) :
  let root := user_pt ar vm in
  let lo := addr / 4096 * 4096 in
  let hi := (addr + len + 4095) / 4096 * 4096 in
  good ar (pt vm) root → 0 < addr → 0 < len → hi <= VA_LIMIT ar →
  state_of (regs vm) (cur_root vm) = Some st →
  ∃ vm' st', linux_mprotect ar vm addr len prot = (0, vm') ∧
    good ar (pt vm') root ∧ frames (pt vm') = frames (pt vm) ∧
    keeps_data ar (mem (pt vm)) (mem (pt vm')) root ∧
    (∀ v, 0 <= v < VA_LIMIT ar →
       translate_user ar (mem (pt vm')) root v = translate_user ar (mem (pt vm)) root v) ∧
    state_of (regs vm') (cur_root vm) = Some st' ∧
    (∀ a p, covered (vmas st') a p ↔ ∃ v, v ∈ vmas st ∧ covers_addr a v = true ∧
       p = if overlaps lo hi v then prot else v_prot v).
Proof.
  intros root lo hi [Ht Hinv] Haddr Hlen Hva Hst.
  assert (VA_LIMIT ar < 2 ^ 64) as Hlim by (by destruct ar).
  assert (lo mod 4096 = 0 ∧ hi mod 4096 = 0 ∧ lo < hi ∧ 0 <= lo <= addr ∧ addr + len <= hi) as (Hl & Hm & Hlt & Hal & Hah)
    by (unfold lo, hi; Z.to_euclidean_division_equations; lia).
  destruct (prot_flags_ok ar prot) as [Hfl Hbit].
  pose proof (mprotect_loop_spec ar root (prot_to_pte_flags ar prot) _ (pages lo hi) (mem (pt vm)) lo Ht ltac:(lia)) as Hpr.
  rewrite pages_of in Hpr by lia. destruct (Hpr Hva Hfl Hbit) as (Ht' & Hk' & Htr').
  assert (addr + len + 4095 < 2 ^ 64) as Hno.
  { destruct ar; [change (VA_LIMIT Riscv64) with (2 ^ 39) in *|change (VA_LIMIT X86_64) with (2 ^ 48) in *];
      unfold hi in Hva; Z.to_euclidean_division_equations; lia. }
  pose proof (with_state_spec (regs vm) (cur_root vm) (fun st => (tt, set_vmas st
      ((fun v => if overlaps lo hi v then mkVma (v_start v) (v_end v) prot (v_active v) else v) <$> vmas st)))
      st Hst) as (reg' & Hw & Hst' & _).
  eexists _, _. split.
  { unfold linux_mprotect. rewrite range_of_eq by lia. fold lo hi.
    rewrite (proj2 (Z.eqb_neq addr 0)), (proj2 (Z.eqb_neq len 0)) by lia. cbn [orb]. reflexivity. }
  cbn [set_pt set_regs pt regs frames set_mem mem]. unfold vma_update_prot. rewrite Hw. cbn [snd].
  split_and!; try done. intros a p. cbn [snd set_vmas vmas]. split.
  - intros (i & v & Hi & Hc & <-). rewrite list_lookup_fmap_Some in Hi. destruct Hi as (w & -> & Hw').
    exists w. split; [by eapply list_elem_of_lookup_2|]. destruct (overlaps lo hi w); by rewrite ?Hc.
  - intros (v & [i Hi]%list_elem_of_lookup & Hc & ->).
    exists i, (if overlaps lo hi v then mkVma (v_start v) (v_end v) prot (v_active v) else v).
    split; [by rewrite list_lookup_fmap, Hi|]. by destruct (overlaps lo hi v).
Qed.

(** [linux_mmap] of a kernel-chosen address, as the bump allocator serves it. *)
Lemma mmap_chosen {A : Type} `{FrameSource A} (ar : arch) (vm : Vm A) (len prot flags : Z) (st : VmState) :
  let n := (len + 4095) / 4096 * 4096 in
  state_of (regs vm) (cur_root vm) = Some st → unique_cover (vmas st) → ends_ok (vmas st) →
  is_u64 (next_mmap_addr st) → Exists (fun v => v_active v = false) (vmas st) →
  0 < len < 2 ^ 63 → Z.land flags MAP_FIXED = 0 →
  ((∀ c, candidate_of st <= c → c + n <= USER_MMAP_LIMIT → c mod 4096 = 0 →
      vma_overlaps (regs vm) (cur_root vm) c (c + n) = true) ∧
   ∃ r st', linux_mmap ar vm 0 len prot flags = (-12, set_regs vm r) ∧ state_of r (cur_root vm) = Some st' ∧ vmas st' = vmas st) ∨
  ∃ c r st', linux_mmap ar vm 0 len prot flags = (c, set_regs vm r) ∧
    candidate_of st <= c ∧ c + n <= USER_MMAP_LIMIT ∧ vma_overlaps (regs vm) (cur_root vm) c (c + n) = false ∧
    (next_mmap_addr st mod 4096 = 0 → c mod 4096 = 0) ∧
    state_of r (cur_root vm) = Some st' ∧ unique_cover (vmas st') ∧
    ∀ a p, covered (vmas st') a p ↔ covered (vmas st) a p ∨ (c <= a < c + n ∧ p = prot).
Proof.
  intros n Hst Hu He Hn Hfree Hlen Hfl.
  assert (n mod 4096 = 0 ∧ len <= n < 2 ^ 63 + 4096) as [Hnm Hnl] by (unfold n; Z.to_euclidean_division_equations; lia).
  assert ((n + 4095) / 4096 * 4096 = n) as Hnn by (Z.to_euclidean_division_equations; lia).
  unfold linux_mmap, linux_mmap_inner, mmap_target, page_down. rewrite Hfl, align_up_page by lia. fold n.
  rewrite (proj2 (Z.eqb_neq len 0)) by lia. cbn [Z.eqb negb andb].
  pose proof (reserve_spec (regs vm) (cur_root vm) n st Hst He Hn ltac:(lia) ltac:(lia)) as Hres.
  cbv zeta in Hres. rewrite Hnn in Hres. destruct Hres as [(r & -> & Htk & (st' & Hst1 & Hv) & _)|(c & r1 & -> & Hc1 & Hc2 & Hov & _ & Hal & Hst1 & _)].
  { left. split; [done|]. by exists r, st'. }
  right. pose proof Hov as Hex. unfold vma_overlaps in Hex. rewrite (with_state_ref_spec _ _ _ st) in Hex by done.
  assert (0 < c) as H0.
  { revert Hc1. unfold candidate_of, USER_MMAP_BASE. destruct (Z.ltb_spec 0 (next_mmap_addr st)); lia. }
  unfold USER_MMAP_LIMIT in *. rewrite (u64_small (c + n)) by lia.
  destruct (add_disjoint_spec r1 (cur_root vm) c (c + n) prot _ Hst1 ltac:(lia) Hu Hex Hfree)
    as (r & st' & -> & Hst' & Hu' & Hcov & _).
  exists c, r, st'. split; [|done].
  assert (i64 c = c) as -> by (apply to_signed_id; unfold is_signed; lia). by destruct (prot =? 0).
Qed.

(** C3: [mmap] and the first access together, on a table with a free slot. A mapping without [MAP_FIXED] at an
    address the kernel chooses fails with [ENOMEM] only when from the bump pointer on every page-aligned range of
    the length meets a region, and then leaves the regions; otherwise it returns the start of a page-aligned range below
    the user limit that met no region, the range is one region of the asked protection, all other regions stay, and
    no page moves. If the next thing to happen is a user-mode fault on an address of the range whose page is not mapped,
    then with a protection other than [PROT_NONE] and at least four free frames it is served with a zeroed frame that
    was free; with [PROT_NONE], or with no free frame, it ends the process. *)
Theorem mmap_then_access {A : Type} `{FrameSource A} (vm : Vm A) (len prot flags : Z) (st : VmState) :
  let root := user_pt X86_64 vm in
  let n := (len + 4095) / 4096 * 4096 in
  good X86_64 (pt vm) root → state_of (regs vm) (cur_root vm) = Some st → unique_cover (vmas st) →
  ends_ok (vmas st) → is_u64 (next_mmap_addr st) → next_mmap_addr st mod 4096 = 0 →
  Exists (fun v => v_active v = false) (vmas st) → 0 < len < 2 ^ 63 → Z.land flags MAP_FIXED = 0 →
  ((∀ c, candidate_of st <= c → c + n <= USER_MMAP_LIMIT → c mod 4096 = 0 →
      vma_overlaps (regs vm) (cur_root vm) c (c + n) = true) ∧
   ∃ r st', linux_mmap X86_64 vm 0 len prot flags = (-12, set_regs vm r) ∧ state_of r (cur_root vm) = Some st' ∧ vmas st' = vmas st) ∨
  ∃ c vm' st', linux_mmap X86_64 vm 0 len prot flags = (c, vm') ∧ pt vm' = pt vm ∧
    c mod 4096 = 0 ∧ 0 < c ∧ c + n <= USER_MMAP_LIMIT ∧ vma_overlaps (regs vm) (cur_root vm) c (c + n) = false ∧
    state_of (regs vm') (cur_root vm) = Some st' ∧
    (∀ a p, covered (vmas st') a p ↔ covered (vmas st) a p ∨ (c <= a < c + n ∧ p = prot)) ∧
    ∀ a err cs saved_cr3 kernel_cr3, c <= a < c + n → Z.land err 1 = 0 → Z.land cs 3 ≠ 0 →
      translate_user X86_64 (mem (pt vm)) root (page_down a) = None →
      (prot ≠ 0 → (4 <= fs_free (frames (pt vm)))%nat →
        ∃ s' f, page_fault_handler_raw vm' a err cs saved_cr3 kernel_cr3 = Ret (Resume, set_pt vm' s') ∧
          fresh_page X86_64 (pt vm) s' root a f) ∧
      (prot = 0 ∨ fs_free (frames (pt vm)) = 0%nat →
        page_fault_handler_raw vm' a err cs saved_cr3 kernel_cr3 = Ret (ExitProcess 99, vm')).
Proof.
  intros root n Hg Hst Hu He Hn Hnm Hfree Hlen Hfl.
  destruct (mmap_chosen X86_64 vm len prot flags st Hst Hu He Hn Hfree Hlen Hfl)
    as [Herr|(c & r & st' & Hm & Hc & Hlim & Hov & Hal & Hst' & Hu' & Hcov)]; [by left|right].
  assert (0 < c) as H0.
  { revert Hc. unfold candidate_of, USER_MMAP_BASE. unfold is_u64 in Hn.
    destruct (Z.ltb_spec 0 (next_mmap_addr st)); lia. }
  exists c, (set_regs vm r), st'. split_and!; try done; [by apply Hal|].
  intros a err cs saved kernel Ha Herr Hcs Ht. fold n in Hlim, Hcov. unfold USER_MMAP_LIMIT in Hlim.
  destruct (demand_zero (set_regs vm r) a err prot) as [Hok Hno]; try done.
  - change (VA_LIMIT X86_64) with (2 ^ 48). lia.
  - apply (query_spec _ _ _ _ st'); [done|done|]. apply Hcov. by right.
  - split.
    + intros Hp Hf. destruct (Hok Hp Hf) as (s' & f & E & Hfr). exists s', f. split; [|done].
      apply (handler_value _ _ a err cs _ _ true); [by left|done].
    + intros Hp. rewrite (handler_value _ _ a err cs saved kernel false (or_introl Hcs) (Hno Hp)). by rewrite decide_False.
Qed.

(** [ensure_user_write_pages], which system calls use before they write to a
    user buffer. With frames left it returns, true exactly when each page of the
    buffer is one the process may write, and then every byte of the buffer is
    mapped; pages outside the buffer do not move and no page of data changes. *)
Theorem ensure_user_write_pages_correct {A : Type} `{FrameSource A} (vm : Vm A) (addr len : Z) :
  let root := user_pt X86_64 vm in
  let lo := addr / 4096 * 4096 in
  let hi := (addr + len - 1) / 4096 * 4096 + 4096 in
  good X86_64 (pt vm) root → 0 <= addr → 0 < len → addr + len <= VA_LIMIT X86_64 →
  (pages lo hi * 4 <= fs_free (frames (pt vm)))%nat →
  ∃ b s', ensure_user_write_pages vm addr len = Ret (b, set_pt vm s') ∧ good X86_64 s' root ∧
    (b = true ↔ ∀ v, lo <= v < hi → v mod 4096 = 0 → writable vm v = true) ∧
    (b = true → ∀ a, addr <= a < addr + len → is_Some (translate_user X86_64 (mem s') root a)) ∧
    (∀ v, 0 <= v < VA_LIMIT X86_64 → ¬ lo <= v < hi →
       translate_user X86_64 (mem s') root v = translate_user X86_64 (mem (pt vm)) root v) ∧
    ∀ g, data_frame X86_64 (pt vm) root g → data_frame X86_64 s' root g ∧
      ∀ j, 0 <= j < 512 → mem s' (entry_addr g j) = mem (pt vm) (entry_addr g j).
Proof.
  change (VA_LIMIT X86_64) with (2 ^ 48). intros root lo hi Hg Ha Hl Hlim Hf.
  assert (lo mod 4096 = 0 ∧ hi mod 4096 = 0 ∧ 0 <= lo <= addr ∧ addr + len <= hi <= 2 ^ 48) as (Hlm & Hhm & Hlo & Hhi)
    by (unfold lo, hi; Z.to_euclidean_division_equations; lia).
  destruct (ensure_loop_spec (pages lo hi) vm lo Hg Hf Hlm) as (b & s' & E & Hg' & Hb & Hm & Hout & Hk).
  { lia. } { rewrite pages_of by lia. change (VA_LIMIT X86_64) with (2 ^ 48). lia. }
  rewrite pages_of in * by lia. exists b, s'. split.
  { unfold ensure_user_write_pages. rewrite (proj2 (Z.eqb_neq len 0)) by lia.
    unfold checked_add, USIZE_MAX. rewrite decide_True by lia.
    rewrite !page_down_eq by (unfold is_u64; lia).
    replace (addr + (len - 1)) with (addr + len - 1) by lia.
    rewrite u64_small by (unfold page_size; Z.to_euclidean_division_equations; lia). exact E. }
  split_and!; try done. intros Hbt a Haa. apply Hm; [done|lia].
Qed.

(** Outside every region, in the heap and stack windows and in the ELF window,
    a fault that finds no free frame is reported as handled although nothing
    was mapped: the process resumes at the same instruction in the same state
    and faults again, for as long as no frame is freed. *)
Theorem fault_out_of_frames_repeats {A : Type} `{FrameSource A} (vm : Vm A) (addr err cs saved_cr3 kernel_cr3 : Z) :
  good X86_64 (pt vm) (user_pt X86_64 vm) → Z.land err 1 = 0 → Z.land cs 3 ≠ 0 →
  vma_query (regs vm) (cur_root vm) addr = None →
  0x400000 <= addr < USER_HEAP_LIMIT ∨ USER_STACK_BASE <= addr < USER_STACK_TOP →
  translate_user X86_64 (mem (pt vm)) (user_pt X86_64 vm) (page_down addr) = None →
  fs_free (frames (pt vm)) = 0%nat →
  page_fault_handler_raw vm addr err cs saved_cr3 kernel_cr3 = Ret (Resume, vm).
Proof.
  intros [_ Hinv] He Hc Hq Ha Ht Hf. unfold page_fault_handler_raw, page_fault.
  rewrite (proj2 (Z.eqb_neq _ _) Hc), He, Hq. cbn [Z.eqb negb orb].
  assert (heap_fault vm (page_down addr) = Ret (true, vm)) as Hheap.
  { unfold heap_fault. rewrite Ht. cbn [needs_alloc]. rewrite (map_fresh_none X86_64) by done. by destruct vm. }
  assert (stack_fault vm (page_down addr) = Ret (true, vm)) as Hstack.
  { unfold stack_fault. rewrite Ht. rewrite (map_fresh_none X86_64) by done. by destruct vm. }
  rewrite Hheap, Hstack. destruct (in_range USER_HEAP_BASE _ addr) eqn:E1; [done|].
  destruct (in_range USER_STACK_BASE _ addr) eqn:E2; [done|].
  destruct (in_range 0x400000 _ addr) eqn:E3; [done|]. exfalso.
  unfold in_range, USER_HEAP_BASE, USER_HEAP_LIMIT, USER_STACK_BASE, USER_STACK_TOP in *.
  apply andb_false_iff in E1, E2, E3. rewrite Z.leb_gt, Z.ltb_ge in E1, E2, E3. lia.
Qed.

(** ** A small address space *)

(** Thirty frames, and one frame. *)
Definition pool : FrameAllocator := new X86_64 0x20000 0x200001.
Definition tiny : FrameAllocator := new X86_64 0x3000 0x200001.

Lemma pool_inv : pmm_inv pool ∧ fs_free pool = 30%nat.
Proof.
  split; [|vm_compute; reflexivity]. split; [|by vm_compute].
  split; [vm_compute; intuition discriminate..|]. apply Forall_replicate. unfold is_u64. lia.
Qed.

Lemma tiny_inv : pmm_inv tiny ∧ fs_free tiny = 1%nat.
Proof.
  split; [|vm_compute; reflexivity]. split; [|by vm_compute].
  split; [vm_compute; intuition discriminate..|]. apply Forall_replicate. unfold is_u64. lia.
Qed.

Definition booted (fa : FrameAllocator) : Z * @State FrameAllocator :=
  match create_user_page_table (mkState (fun _ => 0) fa) with
  | Ret x => x
  | Panic => (0, mkState (fun _ => 0) fa)
  end.

Definition demo_vmas : VmState :=
  mkVmState [mkVma 0x400000 0x410000 5 true; mkVma 0x30000000 0x30004000 3 true; empty; empty; empty; empty]
    0x30004000 0x410000.

(** A process with an empty page table and two regions. *)
Definition demo_vm (fa : FrameAllocator) : Vm FrameAllocator :=
  let ppn := Z.shiftr (fst (booted fa)) 12 in
  mkVm (snd (booted fa)) [mkSlot ppn true demo_vmas] ppn (Some (ppn, USER_HEAP_BASE)) 0.

Lemma demo_good (ar : arch) (fa : FrameAllocator) : pmm_inv fa → (0 < fs_free fa)%nat →
  user_pt ar (demo_vm fa) = fst (booted fa) ∧ good ar (pt (demo_vm fa)) (user_pt ar (demo_vm fa)) ∧
  fs_free fa = S (fs_free (frames (pt (demo_vm fa)))) ∧
  ∀ i, 0 <= i < 512 → mem (pt (demo_vm fa)) (entry_addr (user_pt ar (demo_vm fa)) i) = 0.
Proof.
  intros Hinv Hf. destruct (create_user_page_table_ok ar (mkState (fun _ => 0) fa)) as (root & s & E & G & F); [done|done|].
  destruct (zeroed_ok (mkState (fun _ => 0) fa)) as (f & fa' & Ez & _ & _ & Hal & Hr & _); [done|done|].
  unfold create_user_page_table in E. rewrite Ez in E. injection E as <- <-.
  assert (booted fa = (f, mkState (zero_table (fun _ => 0) f) fa')) as Hb
    by (unfold booted, create_user_page_table; by rewrite Ez).
  assert (user_pt ar (demo_vm fa) = f) as ->.
  { unfold user_pt, demo_vm. cbn [cur_root proc kernel_pt]. rewrite Hb. cbn [fst].
    assert (Z.shiftr f 12 ≠ 0) as Hne.
    { rewrite Z.shiftr_div_pow2 by lia. Z.to_euclidean_division_equations; lia. }
    destruct ar; rewrite (proj2 (Z.eqb_neq _ _) Hne); by apply shift_back. }
  unfold demo_vm. cbn [pt]. rewrite Hb. cbn [fst snd]. split; [done|]. split; [done|]. split; [done|].
  intros i Hi. by apply zero_table_in.
Qed.

Lemma demo_state (fa : FrameAllocator) : state_of (regs (demo_vm fa)) (cur_root (demo_vm fa)) = Some demo_vmas.
Proof.
  unfold state_of, demo_vm. cbn [regs cur_root find_first]. unfold has_root. cbn [s_active s_root andb].
  by rewrite Z.eqb_refl.
Qed.

Lemma demo_active (k : nat) (x : VmaRegion) : vmas demo_vmas !! k = Some x → v_active x = true →
  (k = 0%nat ∧ v_start x = 0x400000 ∧ v_end x = 0x410000) ∨
  (k = 1%nat ∧ v_start x = 0x30000000 ∧ v_end x = 0x30004000).
Proof. do 6 (destruct k as [|k]; [cbn; intros; simplify_eq; cbn in *; naive_solver|]). done. Qed.

Lemma demo_vmas_unique : unique_cover (vmas demo_vmas).
Proof.
  intros a i j v w Hi Hj [Hv Hva]%covers_addr_true [Hw Hwa]%covers_addr_true.
  destruct (demo_active i v Hi Hv) as [(-> & ? & ?)|(-> & ? & ?)], (demo_active j w Hj Hw) as [(-> & ? & ?)|(-> & ? & ?)]; (done || lia).
Qed.

Lemma demo_unmapped (fa : FrameAllocator) (v : Z) : pmm_inv fa → (0 < fs_free fa)%nat →
  walk_mapping X86_64 (mem (pt (demo_vm fa))) (user_pt X86_64 (demo_vm fa)) v = NotMapped ∧
  translate_user X86_64 (mem (pt (demo_vm fa))) (user_pt X86_64 (demo_vm fa)) v = None.
Proof.
  intros Hinv Hf. destruct (demo_good X86_64 fa Hinv Hf) as (_ & _ & _ & Hz).
  unfold walk_mapping, translate_user. change (TOP_LEVEL X86_64) with 3%nat.
  cbn [walk_mapping_from translate_from]. by rewrite Hz by apply vpn_range.
Qed.

Lemma demo_query (fa : FrameAllocator) (a : Z) : 0x30000000 <= a < 0x30004000 →
  vma_query (regs (demo_vm fa)) (cur_root (demo_vm fa)) a = Some 3.
Proof.
  intros Ha. apply (query_spec _ _ _ _ demo_vmas); [apply demo_state|apply demo_vmas_unique|].
  exists 1%nat, (mkVma 0x30000000 0x30004000 3 true). split; [done|]. split; [|done]. by apply covers_addr_true.
Qed.

(** The small process on the thirty frames. *)
Abbreviation demo := (demo_vm pool).

Lemma demo_ok (ar : arch) : good ar (pt demo) (user_pt ar demo) ∧ fs_free (frames (pt demo)) = 29%nat.
Proof. destruct pool_inv as [Hi Hc]. destruct (demo_good ar pool Hi ltac:(lia)) as (_ & G & F & _). split; [done|lia]. Qed.

Lemma demo_none (v : Z) :
  walk_mapping X86_64 (mem (pt demo)) (user_pt X86_64 demo) v = NotMapped ∧
  translate_user X86_64 (mem (pt demo)) (user_pt X86_64 demo) v = None.
Proof. destruct pool_inv as [Hi Hc]. apply demo_unmapped; [done|lia]. Qed.

Lemma page_fault_demand_zero_witness :
  ∃ s' f, page_fault_handler_raw demo 0x30001234 6 0x23 1 0 = Ret (Resume, set_pt demo s') ∧
    translate_user X86_64 (mem s') (user_pt X86_64 demo) 0x30001234 = Some (f + 0x234).
Proof.
  destruct (demo_ok X86_64) as [G F].
  destruct (page_fault_demand_zero demo 0x30001234 6 0x23 1 0 3 G) as [Hok _];
    [split; [lia|reflexivity]|reflexivity|left; discriminate|exact (demo_query pool 0x30001234 ltac:(lia))|exact (proj2 (demo_none _))|].
  destruct Hok as (s' & f & E & [_ _ _ _ Ht _ _ _]); [lia|rewrite F; lia|].
  exists s', f. split; [exact E|]. rewrite (Ht 0x30001234 ltac:(split; [lia|reflexivity])).
  rewrite decide_True by reflexivity. reflexivity.
Defined.

Lemma brk_grows_or_runs_out_witness :
  ∃ s', sys_brk X86_64 demo (USER_HEAP_BASE + 5000) =
    Ret (USER_HEAP_BASE + 5000, set_current_brk (set_pt demo s') (USER_HEAP_BASE + 5000)).
Proof.
  destruct (demo_ok X86_64) as [G F].
  destruct (brk_grows_or_runs_out X86_64 demo (Z.shiftr (fst (booted pool)) 12) USER_HEAP_BASE (USER_HEAP_BASE + 5000) G)
    as [Hok _]; [reflexivity|done|split; [reflexivity|discriminate]|].
  destruct Hok as (s' & E & _); [rewrite F; vm_compute; lia|]. by exists s'.
Defined.

Lemma munmap_removes_range_witness :
  ∃ vm', linux_munmap X86_64 demo 0x30001000 0x1000 = (0, vm') ∧
    page_fault_handler_raw vm' 0x30001008 4 0x23 1 0 = Ret (ExitProcess 99, vm').
Proof.
  destruct (demo_ok X86_64) as [G F].
  destruct (munmap_removes_range demo 0x30001000 0x1000 demo_vmas G) as (vm' & st' & E & _ & _ & _ & _ & _ & _ & _ & Hf).
  - lia.
  - by vm_compute.
  - by vm_compute.
  - exact (demo_state pool).
  - apply demo_vmas_unique.
  - do 2 right. by left.
  - intros v _. by rewrite (proj1 (demo_none v)).
  - exists vm'. split; [exact E|]. apply Hf; [split; [discriminate|reflexivity]|intros [_ Hx]; discriminate Hx|intros [Hx _]; by apply Hx|reflexivity|discriminate].
Defined.

(** Making one page of the second region read-only makes all of it read-only. *)
Lemma mprotect_changes_whole_regions_witness :
  ∃ vm' st', linux_mprotect X86_64 demo 0x30001000 0x1000 1 = (0, vm') ∧
    state_of (regs vm') (cur_root demo) = Some st' ∧ covered (vmas st') 0x30003000 1.
Proof.
  destruct (demo_ok X86_64) as [G F].
  destruct (mprotect_changes_whole_regions X86_64 demo 0x30001000 0x1000 1 demo_vmas G)
    as (vm' & st' & E & _ & _ & _ & _ & Hst & Hc); [lia|lia|discriminate|exact (demo_state pool)|].
  exists vm', st'. split; [exact E|]. split; [exact Hst|]. apply Hc.
  exists (mkVma 0x30000000 0x30004000 3 true). split; [by right; left|]. by split.
Defined.

Lemma mmap_then_access_witness :
  ∃ c vm' s' f, linux_mmap X86_64 demo 0 100 3 0x22 = (c, vm') ∧
    page_fault_handler_raw vm' c 6 0x23 1 0 = Ret (Resume, set_pt vm' s') ∧
    translate_user X86_64 (mem s') (user_pt X86_64 demo) c = Some (f + c mod 4096).
Proof.
  destruct (demo_ok X86_64) as [G F].
  destruct (mmap_then_access demo 100 3 0x22 demo_vmas G (demo_state pool) demo_vmas_unique)
    as [[_ (r & st' & E & _)]|(c & vm' & st' & E & Hpt & Hal & H0 & Hlim & _ & _ & _ & Hf)].
  - repeat constructor; cbn; lia.
  - split; [discriminate|reflexivity].
  - reflexivity.
  - do 2 right. by left.
  - lia.
  - reflexivity.
  - apply (f_equal fst) in E. vm_compute in E. discriminate.
  - change ((100 + 4095) / 4096 * 4096) with 4096 in *. unfold USER_MMAP_LIMIT in Hlim.
    destruct (Hf c 6 0x23 1 0) as [Hok _]; [lia|reflexivity|discriminate|exact (proj2 (demo_none _))|].
    destruct Hok as (s' & f & Ef & [_ _ _ _ Ht _ _ _]); [discriminate|rewrite F; lia|].
    exists c, vm', s', f. split; [exact E|]. split; [exact Ef|].
    rewrite Ht by (change (VA_LIMIT X86_64) with (2 ^ 48); lia). by rewrite decide_True.
Defined.

Lemma ensure_user_write_pages_correct_witness :
  ∃ s', ensure_user_write_pages demo 0x30001ffc 8 = Ret (true, set_pt demo s') ∧
    is_Some (translate_user X86_64 (mem s') (user_pt X86_64 demo) 0x30002003).
Proof.
  destruct (demo_ok X86_64) as [G F].
  destruct (ensure_user_write_pages_correct demo 0x30001ffc 8 G) as (b & s' & E & _ & Hb & Hm & _);
    [lia|lia|discriminate|rewrite F; vm_compute; lia|].
  assert (b = true) as ->.
  { apply Hb. intros v Hv _. unfold writable. rewrite (demo_query pool v); [reflexivity|].
    change (0x30001ffc / 4096 * 4096) with 0x30001000 in Hv.
    change ((0x30001ffc + 8 - 1) / 4096 * 4096 + 4096) with 0x30003000 in Hv. lia. }
  exists s'. split; [exact E|]. apply Hm; [reflexivity|lia].
Defined.

Lemma fault_out_of_frames_repeats_witness :
  page_fault_handler_raw (demo_vm tiny) USER_HEAP_BASE 4 0x23 0 0 = Ret (Resume, demo_vm tiny).
Proof.
  destruct tiny_inv as [Hi Hc]. destruct (demo_good X86_64 tiny Hi ltac:(lia)) as (_ & G & F & _).
  apply fault_out_of_frames_repeats.
  - exact G.
  - reflexivity.
  - discriminate.
  - destruct (vma_query _ _ _) as [q|] eqn:E; [|done]. exfalso.
    apply (query_spec _ _ _ _ demo_vmas (demo_state tiny) demo_vmas_unique) in E as (i & v & Hi' & [Hv Ha]%covers_addr_true & _).
    unfold USER_HEAP_BASE in Ha. destruct (demo_active i v Hi' Hv) as [(_ & ? & ?)|(_ & ? & ?)]; lia.
  - left. split; [discriminate|reflexivity].
  - apply (demo_unmapped tiny); [done|lia].
  - lia.
Defined.

End MemSys.
