(* ===== verification/Elf.v ===== *)
(** The ELF parser (kernel/src/process/elf.rs).

    A buffer is the byte at each offset from its pointer, together with its
    length. The code checks some offsets against the length and then reads
    whole structures through raw pointers, so a read may leave the buffer; the
    offset of a read wraps at 64 bits, as pointer arithmetic does. *)

From stdpp Require Import base numbers list list_numbers.
From Stdlib Require Import ZArith Lia.
From S2P Require Import Prelude Pmm.
Local Open Scope Z_scope.
Local Open Scope rust_scope.

Module Elf.
Import Pmm.

(** ** Buffers *)

Record Buffer := mkBuffer { raw : Z → Z; len : Z }.

(** [*((ptr + off) as *const uN)], little endian, [n] bytes. *)
Definition load (b : Buffer) (off : Z) (n : nat) : Z :=
  of_le ((fun i => raw b (off +! Z.of_nat i)) <$> seq 0 n).

Section elf.
Context (ar : arch).

Definition ELF_MAGIC : Z := 0x464c457f.
Definition EM_MACHINE : Z := match ar with Riscv64 => 243 | X86_64 => 62 end.
Definition PT_LOAD : Z := 1.
Definition PT_PHDR : Z := 6.

(** The fields of [ElfHeader] that are used, at their offsets in the structure of 64 bytes. *)
Definition HEADER_SIZE : Z := 64.
Definition ident (b : Buffer) (i : Z) : Z := load b i 1.
Definition magic (b : Buffer) : Z := load b 0 4.
Definition machine (b : Buffer) : Z := load b 18 2.
Definition entry_field (b : Buffer) : Z := load b 24 8.
Definition phoff_field (b : Buffer) : Z := load b 32 8.
Definition phentsize_field (b : Buffer) : Z := load b 54 2.
Definition phnum_field (b : Buffer) : Z := load b 56 2.

Record ProgramHeader := mkPh {
  ptype : Z; ph_flags : Z; ph_offset : Z; ph_vaddr : Z; ph_file_size : Z; ph_mem_size : Z
}.

(** [&*(data.as_ptr().add(off) as *const ProgramHeader)]: 56 bytes. *)
Definition PH_SIZE : Z := 56.
Definition program_header (b : Buffer) (off : Z) : ProgramHeader :=
  mkPh (load b off 4) (load b (off +! 4) 4) (load b (off +! 8) 8) (load b (off +! 16) 8)
    (load b (off +! 32) 8) (load b (off +! 40) 8).

Record Segment := mkSegment {
  vaddr : Z; offset : Z; file_size : Z; mem_size : Z; flags : Z
}.

Definition segment_of (ph : ProgramHeader) : Segment :=
  mkSegment (ph_vaddr ph) (ph_offset ph) (ph_file_size ph) (ph_mem_size ph) (ph_flags ph).

Inductive elf_error :=
| TooSmall | BadMagic | Not64Bit | NotLittleEndian | WrongMachine | HeaderOutOfBounds | NoSegments.

(** The checks both parsers start with. *)
Definition check_ident (b : Buffer) : result unit elf_error :=
  if len b <? HEADER_SIZE then Err TooSmall
  else if negb (magic b =? ELF_MAGIC) then Err BadMagic
  else if negb (ident b 4 =? 2) then Err Not64Bit
  else if negb (ident b 5 =? 1) then Err NotLittleEndian
  else if negb (machine b =? EM_MACHINE) then Err WrongMachine
  else Ok tt.

Record ElfFile := mkElfFile { entry : Z; loadable_segments : list Segment }.

(** The offset of program header [i]. *)
Definition ph_position (b : Buffer) (i : nat) : Z :=
  phoff_field b +! (Z.of_nat i *! phentsize_field b).

(** The loop of [ElfFile::parse] from header [i] on, [n] headers to go. *)
Fixpoint parse_loop (n : nat) (b : Buffer) (i : nat) (acc : list Segment) : result (list Segment) elf_error :=
  match n with
  | O => Ok acc
  | S n =>
      let pos := ph_position b i in
      if len b <? pos +! phentsize_field b then Err HeaderOutOfBounds
      else
        let ph := program_header b pos in
        parse_loop n b (S i) (if ptype ph =? PT_LOAD then acc ++ [segment_of ph] else acc)
  end.

Definition parse (b : Buffer) : result ElfFile elf_error :=
  let? _ := check_ident b in
  let? segs := parse_loop (Z.to_nat (phnum_field b)) b 0 [] in
  match segs with
  | [] => Err NoSegments
  | _ => Ok (mkElfFile (entry_field b) segs)
  end.

(** ** The parser of the streaming loader *)

(** The array of 16 options and its count are the list of the segments found. *)
Record ElfInfo := mkElfInfo {
  i_entry : Z; segments : list Segment; phdr_vaddr : Z; phent : Z; phnum : Z
}.

Definition MAX_SEGMENTS : nat := 16.

(** The loop of [parse_header_only]: the segments and [phdr_vaddr]. *)
Fixpoint header_loop (n : nat) (b : Buffer) (i : nat) (acc : list Segment) (phdr : Z)
  : result (list Segment * Z) elf_error :=
  match n with
  | O => Ok (acc, phdr)
  | S n =>
      if (MAX_SEGMENTS <=? length acc)%nat then Ok (acc, phdr)
      else
        let pos := ph_position b i in
        if len b <? pos +! phentsize_field b then Err HeaderOutOfBounds
        else
          let ph := program_header b pos in
          let phdr := if ptype ph =? PT_PHDR then ph_vaddr ph else phdr in
          header_loop n b (S i) (if ptype ph =? PT_LOAD then acc ++ [segment_of ph] else acc) phdr
  end.

(** The address of the program headers, when no [PT_PHDR] gives it. *)
Definition phdr_fallback (b : Buffer) (segs : list Segment) (phdr : Z) : Z :=
  if phdr =? 0 then
    match segs with
    | s :: _ =>
        if (offset s <=? phoff_field b) && (0 <? file_size s) then vaddr s +! (phoff_field b -! offset s) else phdr
    | [] => phdr
    end
  else phdr.

Definition parse_header_only (b : Buffer) : result ElfInfo elf_error :=
  let? _ := check_ident b in
  let? x := header_loop (Z.to_nat (phnum_field b)) b 0 [] 0 in
  let '(segs, phdr) := x in
  match segs with
  | [] => Err NoSegments
  | _ => Ok (mkElfInfo (entry_field b) segs (phdr_fallback b segs phdr) (phentsize_field b) (phnum_field b))
  end.

(** ** What the loop collects *)

(** Program header [i] lies inside the buffer as the code checks it. *)
Definition ph_checked (b : Buffer) (i : nat) : bool :=
  negb (len b <? ph_position b i +! phentsize_field b).

(** The loadable segments among the headers [i, i + n). *)
Definition pt_loads (b : Buffer) (i n : nat) : list Segment :=
  segment_of <$> filter (fun ph => ptype ph = PT_LOAD) ((fun k => program_header b (ph_position b k)) <$> seq i n).

Lemma parse_loop_spec (n : nat) (b : Buffer) : ∀ (i : nat) (acc : list Segment),
  parse_loop n b i acc =
    if forallb (ph_checked b) (seq i n) then Ok (acc ++ pt_loads b i n) else Err HeaderOutOfBounds.
Proof.
  induction n as [|n IH]; intros i acc; cbn [parse_loop seq forallb pt_loads].
  { unfold pt_loads. cbn. by rewrite app_nil_r. }
  unfold ph_checked at 1. destruct (len b <? _); [done|]. cbn [negb andb]. rewrite IH.
  destruct (forallb _ _); [|done]. f_equal. unfold pt_loads. cbn [seq fmap list_fmap].
  rewrite filter_cons. destruct (Z.eqb_spec (ptype (program_header b (ph_position b i))) PT_LOAD) as [E|E].
  - rewrite decide_True by done. cbn. by rewrite <- app_assoc.
  - by rewrite decide_False.
Qed.

Lemma header_loop_spec (n : nat) (b : Buffer) : ∀ (i : nat) (acc : list Segment) (phdr : Z),
  (length acc <= MAX_SEGMENTS)%nat → forallb (ph_checked b) (seq i n) = true →
  ∃ phdr', header_loop n b i acc phdr = Ok (take MAX_SEGMENTS (acc ++ pt_loads b i n), phdr').
Proof.
  induction n as [|n IH]; intros i acc phdr Hacc Hck; cbn [header_loop].
  { exists phdr. unfold pt_loads. cbn. by rewrite app_nil_r, take_ge. }
  destruct (Nat.leb_spec MAX_SEGMENTS (length acc)).
  { exists phdr. by rewrite take_app_le, take_ge by lia. }
  cbn [seq forallb] in Hck. apply andb_true_iff in Hck as [Hc Hck]. unfold ph_checked in Hc.
  apply negb_true_iff in Hc. rewrite Hc.
  unfold pt_loads at 1. cbn [seq fmap list_fmap]. rewrite filter_cons.
  destruct (Z.eqb_spec (ptype (program_header b (ph_position b i))) PT_LOAD) as [E|E].
  - rewrite decide_True by done. cbn [fmap list_fmap].
    destruct (IH (S i) (acc ++ [segment_of (program_header b (ph_position b i))])
      (if ptype (program_header b (ph_position b i)) =? PT_PHDR
       then ph_vaddr (program_header b (ph_position b i)) else phdr)) as [q Hq]; [rewrite length_app; cbn; lia|done|].
    exists q. rewrite Hq. by rewrite <- app_assoc.
  - rewrite decide_False by done. by apply IH.
Qed.

(** ** Buffers that differ only outside *)

Definition same_inside (b b' : Buffer) : Prop :=
  len b' = len b ∧ 0 <= len b < 2 ^ 64 ∧ ∀ i, 0 <= i < len b → raw b' i = raw b i.

Lemma load_inside (b b' : Buffer) (off : Z) (n : nat) :
  same_inside b b' → 0 <= off → off + Z.of_nat n <= len b → load b' off n = load b off n.
Proof.
  intros (_ & Hl & Hs) H0 Hn. unfold load. f_equal. apply list_fmap_ext. intros i x Hx.
  apply lookup_seq in Hx as [-> Hi]. rewrite u64_small by lia. apply Hs. lia.
Qed.

Lemma program_header_inside (b b' : Buffer) (off : Z) :
  same_inside b b' → 0 <= off → off + PH_SIZE <= len b → program_header b' off = program_header b off.
Proof.
  intros Hs H0 Hn. unfold PH_SIZE in Hn. pose proof Hs as (_ & Hl & _).
  unfold program_header. rewrite !u64_small by lia.
  by rewrite !(load_inside b b') by (done || lia).
Qed.

Lemma load_range (b : Buffer) (off : Z) (n : nat) :
  (∀ i, is_byte (raw b i)) → 0 <= load b off n < 2 ^ (Z.of_nat n * 8).
Proof.
  intros Hb. unfold load, of_le.
  pose proof (little_endian_to_Z_bound 8 ((fun i => raw b (off +! Z.of_nat i)) <$> seq 0 n)) as Hr.
  rewrite length_fmap, length_seq in Hr. apply Hr; [lia|].
  apply Forall_fmap, Forall_true. intros i. apply Hb.
Qed.

Section inside.
Context (b b' : Buffer) (Hs : same_inside b b') (Hb : ∀ i, is_byte (raw b i)).
Context (Hsize : HEADER_SIZE <= len b) (Hph : PH_SIZE <= phentsize_field b).
Context (Hend : phoff_field b + phnum_field b * phentsize_field b < 2 ^ 64).

Lemma fields_inside : phoff_field b' = phoff_field b ∧ phentsize_field b' = phentsize_field b ∧
  phnum_field b' = phnum_field b ∧ entry_field b' = entry_field b.
Proof.
  unfold phoff_field, phentsize_field, phnum_field, entry_field. unfold HEADER_SIZE in Hsize.
  rewrite !(load_inside b b') by (done || lia). done.
Qed.

Lemma check_ident_inside : check_ident b' = check_ident b.
Proof.
  unfold check_ident, magic, machine, ident, HEADER_SIZE in *. destruct Hs as (-> & _ & _).
  rewrite !(load_inside b b') by (done || lia). done.
Qed.

Lemma header_inside (i : nat) : Z.of_nat i < phnum_field b →
  ph_position b' i = ph_position b i ∧ ph_checked b' i = ph_checked b i ∧
  (ph_checked b i = true → program_header b' (ph_position b i) = program_header b (ph_position b i)).
Proof.
  intros Hi. destruct fields_inside as (E1 & E2 & _ & _). destruct Hs as (El & _ & _).
  assert (ph_position b' i = ph_position b i) as Ep by (unfold ph_position; by rewrite E1, E2).
  pose proof (load_range b 32 8 Hb) as Hoff. fold (phoff_field b) in Hoff. unfold PH_SIZE in Hph.
  assert (0 <= phoff_field b + Z.of_nat i * phentsize_field b ∧
    phoff_field b + Z.of_nat i * phentsize_field b + phentsize_field b < 2 ^ 64) as [Hp0 Hp1] by nia.
  assert (ph_position b i = phoff_field b + Z.of_nat i * phentsize_field b) as Epos.
  { unfold ph_position. rewrite (u64_small (Z.of_nat i * phentsize_field b)) by nia. apply u64_small. lia. }
  split; [done|]. split; [unfold ph_checked; by rewrite Ep, E2, El|].
  unfold ph_checked. rewrite negb_true_iff, Z.ltb_ge, Epos, u64_small by lia. intros Hc.
  apply program_header_inside; [done|lia|unfold PH_SIZE; lia].
Qed.

Lemma parse_loop_inside (n : nat) : ∀ (i : nat) (acc : list Segment), Z.of_nat (i + n) <= phnum_field b →
  parse_loop n b' i acc = parse_loop n b i acc.
Proof.
  induction n as [|n IH]; intros i acc Hi; cbn [parse_loop]; [done|].
  destruct (header_inside i ltac:(lia)) as (Ep & Ec & Eh). unfold ph_checked in Ec, Eh. rewrite Ep in *.
  destruct (len b' <? _), (len b <? _); try done. rewrite Eh by done. apply IH. lia.
Qed.

Lemma header_loop_inside (n : nat) : ∀ (i : nat) (acc : list Segment) (phdr : Z), Z.of_nat (i + n) <= phnum_field b →
  header_loop n b' i acc phdr = header_loop n b i acc phdr.
Proof.
  induction n as [|n IH]; intros i acc phdr Hi; cbn [header_loop]; [done|].
  destruct (_ <=? _)%nat; [done|].
  destruct (header_inside i ltac:(lia)) as (Ep & Ec & Eh). unfold ph_checked in Ec, Eh. rewrite Ep in *.
  destruct (len b' <? _), (len b <? _); try done. rewrite Eh by done. apply IH. lia.
Qed.

End inside.

End elf.

(** An image of one program header, of claimed size [e], which ends the buffer.
    The type says PT_LOAD, and [x] is the last byte of the memory size. *)
Definition one_header_bytes (ar : arch) (e : Z) : list Z :=
  [0x7f; 0x45; 0x4c; 0x46; 2; 1; 1] ++ replicate 9 0 ++ [2; 0; EM_MACHINE ar; 0] ++ [1; 0; 0; 0] ++
  replicate 8 0 ++ [64; 0; 0; 0; 0; 0; 0; 0] ++ replicate 8 0 ++ replicate 4 0 ++ [64; 0] ++ [e; 0] ++ [1; 0] ++
  replicate 6 0.

Definition claiming_size (ar : arch) (e x : Z) : Buffer :=
  mkBuffer (fun i => if i <? 64 then default 0 (one_header_bytes ar e !! Z.to_nat i)
                     else if i =? 64 then 1 else if i =? 111 then x else 0) (64 + e).

Lemma claiming_size_bytes (ar : arch) (e x i : Z) :
  is_byte e → is_byte x → is_byte (raw (claiming_size ar e x) i).
Proof.
  intros He Hx. assert (Forall is_byte (one_header_bytes ar e)) as Hf by (destruct ar; cbn; repeat (apply List.Forall_cons; [first [exact He|done]|]); apply List.Forall_nil).
  cbn [claiming_size raw]. destruct (i <? 64); [|by destruct (i =? 64), (i =? 111)].
  destruct (one_header_bytes ar e !! Z.to_nat i) as [y|] eqn:E; [|done].
  apply (proj1 (Forall_forall _ _) Hf). by eapply list_elem_of_lookup_2.
Qed.

Lemma claiming_size_inside (ar : arch) (e : Z) : 0 <= e < 48 → same_inside (claiming_size ar e 0) (claiming_size ar e 1).
Proof.
  intros He. split; [done|]. cbn [claiming_size len raw]. split; [lia|]. intros i Hi.
  destruct (i <? 64); [done|]. destruct (i =? 64); [done|]. by rewrite (proj2 (Z.eqb_neq i 111)) by lia.
Qed.

(** What [parse] makes of it. *)
Definition one_segment (x : Z) : list Segment := [mkSegment 0 0 0 (x * 2 ^ 56) 0].

Lemma claiming_size_parse (ar : arch) (e x : Z) :
  0 <= e < 48 → x = 0 ∨ x = 1 →
  phentsize_field (claiming_size ar e x) = e ∧ phoff_field (claiming_size ar e x) = 64 ∧
  phnum_field (claiming_size ar e x) = 1 ∧
  parse ar (claiming_size ar e x) = Ok (mkElfFile 0 (one_segment x)).
Proof.
  intros He Hx. assert (e ∈ seqZ 0 48) as Hin by (apply elem_of_seqZ; lia).
  revert He. pattern e. revert e Hin. apply Forall_forall. destruct Hx as [-> | ->], ar;
    repeat (apply Forall_cons; split; [intros _; vm_compute; repeat split|]); apply Forall_nil; done.
Qed.

(** ** Claims *)

(** The two parsers agree: on a file [parse] accepts, [parse_header_only]
    returns the same entry point and the first sixteen of the same segments,
    which are the [PT_LOAD] headers in their order, at least one. *)
Theorem elf_parsers_agree (ar : arch) (b : Buffer) (f : ElfFile) :
  parse ar b = Ok f →
  loadable_segments f = pt_loads b 0 (Z.to_nat (phnum_field b)) ∧ loadable_segments f ≠ [] ∧
  ∃ i, parse_header_only ar b = Ok i ∧ i_entry i = entry f ∧
    segments i = take MAX_SEGMENTS (loadable_segments f) ∧ phnum i = phnum_field b.
Proof.
  unfold parse, parse_header_only. destruct (check_ident ar b) as [[]|]; [|done]. cbn [result_bind].
  rewrite parse_loop_spec. destruct (forallb _ _) eqn:Hck; [|done]. cbn [result_bind app].
  destruct (header_loop_spec (Z.to_nat (phnum_field b)) b 0 [] 0 ltac:(cbn; lia) Hck) as [phdr ->].
  cbn [result_bind app]. destruct (pt_loads b 0 _) as [|s ss]; [done|]. intros [= <-].
  split; [done|]. split; [done|]. by eexists.
Qed.

(** C22: What a parser reads.  With a declared program header size of at least 56
    bytes and a table that does not wrap around the address space, both results
    depend only on the bytes of the buffer.  A smaller size does not ensure that:
    for every declared size below 48 there are two buffers with the same bytes,
    with one program header that ends where the buffer ends, that [parse] accepts
    with different segments, because the length check uses the declared size
    and the read the size of the structure. *)
Theorem elf_parse_reads_inside (ar : arch) :
  (∀ b b', same_inside b b' → (∀ i, is_byte (raw b i)) → PH_SIZE <= phentsize_field b →
     phoff_field b + phnum_field b * phentsize_field b < 2 ^ 64 →
     parse ar b' = parse ar b ∧ parse_header_only ar b' = parse_header_only ar b) ∧
  ∀ e, 0 <= e < 48 → ∃ b b' f f', same_inside b b' ∧ (∀ i, is_byte (raw b i) ∧ is_byte (raw b' i)) ∧
     phentsize_field b = e ∧ phnum_field b = 1 ∧ phoff_field b + e = len b ∧
     parse ar b = Ok f ∧ parse ar b' = Ok f' ∧ loadable_segments f ≠ loadable_segments f'.
Proof.
  split.
  - intros b b' Hs Hb Hph Hend. unfold parse, parse_header_only.
    destruct (decide (HEADER_SIZE <= len b)) as [Hsz|Hsz].
    2:{ unfold check_ident. destruct Hs as (-> & _ & _). by rewrite (proj2 (Z.ltb_lt (len b) HEADER_SIZE)) by lia. }
    destruct (fields_inside b b' Hs Hsz) as (E1 & E2 & E3 & E4).
    rewrite (check_ident_inside ar b b' Hs Hsz), E3, E4, E2. destruct (check_ident ar b) as [[]|]; [|done].
    cbn [result_bind]. pose proof (load_range b 56 2 Hb) as Hn. fold (phnum_field b) in Hn.
    rewrite (parse_loop_inside b b' Hs Hb Hsz Hph Hend) by lia.
    rewrite (header_loop_inside b b' Hs Hb Hsz Hph Hend) by lia. split; [done|].
    destruct (header_loop _ b _ _ _) as [[segs phdr]|]; [|done]. cbn [result_bind].
    unfold phdr_fallback. by rewrite E1.
  - intros e He. destruct (claiming_size_parse ar e 0 He (or_introl eq_refl)) as (H1 & H2 & H3 & H4).
    destruct (claiming_size_parse ar e 1 He (or_intror eq_refl)) as (_ & _ & _ & H4').
    exists (claiming_size ar e 0), (claiming_size ar e 1). do 2 eexists. split; [by apply claiming_size_inside|].
    split; [intros i; split; apply claiming_size_bytes; unfold is_byte; lia|].
    split; [done|]. split; [done|]. split; [by rewrite H2|]. split; [exact H4|]. split; [exact H4'|]. done.
Qed.

Lemma elf_parsers_agree_witness :
  ∃ f i, parse X86_64 (claiming_size X86_64 0 0) = Ok f ∧
    parse_header_only X86_64 (claiming_size X86_64 0 0) = Ok i ∧
    segments i = loadable_segments f.
Proof.
  destruct (parse X86_64 (claiming_size X86_64 0 0)) as [f|e] eqn:E;
    [|vm_compute in E; discriminate].
  destruct (elf_parsers_agree X86_64 _ f E) as (_ & _ & i & Hi & _ & Hsg & _).
  exists f, i. split; [done|]. split; [exact Hi|]. rewrite Hsg. vm_compute in E. injection E as <-. reflexivity.
Defined.

End Elf.
