(* ===== verification/Loader.v ===== *)
(** The ELF loader of kernel/src/process/mod.rs: loading the segments of an
    image into a user page table and building the initial user stack.

    Frames are written through the physical addresses that the kernel maps one
    to one, in the word store of [PageTable]; this file adds byte access to it.
    [from_elf] takes the bytes of a segment from the file in memory,
    [from_elf_streaming] from a reader; both are the argument [fetch] here. *)

From stdpp Require Import base numbers list list_numbers gmap.
From Stdlib Require Import ZArith Lia.
From S2P Require Import Prelude Pmm Vma PageTable MemSys Elf.
Local Open Scope Z_scope.
Local Open Scope rust_scope.

Module Loader.
Import Pmm Vma PageTable MemSys Elf.

(** ** Bytes of the word store *)

Definition get_byte (m : memory) (p : Z) : Z :=
  Z.land (Z.shiftr (m (p / 8 * 8)) (p mod 8 * 8)) 0xFF.

Definition set_byte (m : memory) (p b : Z) : memory :=
  let k := p mod 8 * 8 in
  write m (p / 8 * 8) (Z.lor (Z.ldiff (m (p / 8 * 8)) (Z.shiftl 0xFF k)) (Z.shiftl b k)).

(** [copy_nonoverlapping(bs.as_ptr(), p as *mut u8, bs.len())] *)
Fixpoint copy_bytes (m : memory) (p : Z) (bs : list Z) : memory :=
  match bs with
  | [] => m
  | b :: bs => copy_bytes (set_byte m p b) (p + 1) bs
  end.

(** ** Segments *)

Inductive load_error := OutOfMemory | ReadFailed | BadElf (e : elf_error).

Section load.
Context (ar : arch) {A : Type} `{FrameSource A}.

Definition elf_segment_pte_flags (flags : Z) : Z :=
  let executable := negb (Z.land flags 1 =? 0) in
  let writable := negb (Z.land flags 2 =? 0) in
  let readable := negb (Z.land flags 4 =? 0) in
  match ar with
  | X86_64 =>
      let f := Z.lor 0x1 0x4 in
      let f := if writable then Z.lor f 0x2 else f in
      if negb executable then Z.lor f (2 ^ 63) else f
  | Riscv64 =>
      let f := Z.lor 0x1 0x10 in
      let f := if readable then Z.lor f 0x2 else f in
      let f := if writable then Z.lor f 0x4 else f in
      if executable then Z.lor f 0x8 else f
  end.

(** The permissions of a page that two segments share. *)
Definition merge_page_flags (m : memory) (root vaddr new_flags : Z) : Z :=
  match ar with
  | X86_64 =>
      match debug_pte ar m root vaddr with
      | Some e =>
          let existing := pte_flags ar e in
          let merged := Z.lor existing new_flags in
          if negb (Z.testbit existing 63) || negb (Z.testbit new_flags 63) then Z.ldiff merged (2 ^ 63) else merged
      | None => new_flags
      end
  | Riscv64 =>
      match walk_mapping ar m root vaddr with
      | Mapped4K _ fl | MappedHuge _ _ _ fl => Z.lor (Z.land fl 0xFF) new_flags
      | _ => new_flags
      end
  end.

(** [alloc_frame], [map_user], then clear the frame. *)
Definition new_page (s : @State A) (root vaddr fl : Z) : exec (option Z * @State A) :=
  let! x := fs_alloc (frames s) in
  match x with
  | (Some f, fa) =>
      let! s1 := map_user ar (mkState (mem s) fa) root vaddr f fl in
      Ret (Some f, set_mem s1 (zero_table (mem s1) f))
  | (None, fa) => Ret (None, mkState (mem s) fa)
  end.

(** The frame the page [vaddr] of a segment is loaded into. *)
Definition page_frame (s : @State A) (root vaddr fl : Z) : exec (option Z * @State A) :=
  match translate_user ar (mem s) root vaddr with
  | Some f =>
      if f =? vaddr then new_page s root vaddr fl
      else
        let! s1 := map_user ar s root vaddr f (merge_page_flags (mem s) root vaddr fl) in
        Ret (Some f, s1)
  | None => new_page s root vaddr fl
  end.

(** [fetch seg src n]: [n] bytes at [src] of the file part of the segment. *)
Context (fetch : Segment → Z → Z → exec (option (list Z))).
(** What the loader does for each page before it copies. *)
Context (before_copy : Segment → exec unit).

Definition load_page (s : @State A) (root : Z) (seg : Segment) (v : Z)
  : exec (result unit load_error * @State A) :=
  let! x := page_frame s root v (elf_segment_pte_flags (flags seg)) in
  match x with
  | (None, s) => Ret (Err OutOfMemory, s)
  | (Some frame, s) =>
      let! _ := before_copy seg in
      let copy_start := Z.max v (vaddr seg) in
      let copy_end := Z.min (v +! page_size) (vaddr seg +! file_size seg) in
      if copy_start <? copy_end then
        let dst_offset := Z.land copy_start (page_size - 1) in
        let! r := fetch seg (copy_start -! vaddr seg) (copy_end -! copy_start) in
        match r with
        | Some bs => Ret (Ok tt, set_mem s (copy_bytes (mem s) (frame + dst_offset) bs))
        | None => Ret (Err ReadFailed, s)
        end
      else Ret (Ok tt, s)
  end.

Fixpoint load_pages (n : nat) (s : @State A) (root : Z) (seg : Segment) (v : Z)
  : exec (result unit load_error * @State A) :=
  match n with
  | O => Ret (Ok tt, s)
  | S n =>
      let! x := load_page s root seg v in
      match x with
      | (Ok _, s) => load_pages n s root seg (v +! page_size)
      | (Err e, s) => Ret (Err e, s)
      end
  end.

Definition page_start (seg : Segment) : Z := page_down (vaddr seg).
Definition page_end (seg : Segment) : Z := page_down (vaddr seg +! mem_size seg +! page_size -! 1).

(** The loop over the segments, with [max_vaddr]. *)
Fixpoint load_segments (segs : list Segment) (s : @State A) (root max_vaddr : Z)
  : exec (result Z load_error * @State A) :=
  match segs with
  | [] => Ret (Ok max_vaddr, s)
  | seg :: segs =>
      let! x := load_pages (pages (page_start seg) (page_end seg)) s root seg (page_start seg) in
      match x with
      | (Ok _, s) => load_segments segs s root (Z.max max_vaddr (vaddr seg +! mem_size seg))
      | (Err e, s) => Ret (Err e, s)
      end
  end.

End load.

(** [from_elf]: the slice of the file, which panics when it is out of range. *)
Definition slice_checked (b : Buffer) (seg : Segment) : exec unit :=
  let end_ := offset seg +! file_size seg in
  if (offset seg <=? end_) && (end_ <=? len b) then Ret tt else Panic.

Definition fetch_slice (b : Buffer) (seg : Segment) (src n : Z) : exec (option (list Z)) :=
  if (src <=? src +! n) && (src +! n <=? file_size seg)
  then Ret (Some ((fun i => raw b (offset seg + src + Z.of_nat i)) <$> seq 0 (Z.to_nat n)))
  else Panic.

(** [from_elf_streaming]: [read_fn offset n] is the bytes it put into the buffer of [n] bytes;
    the rest stays zero. *)
Definition fetch_reader (read_fn : Z → Z → option (list Z)) (seg : Segment) (src n : Z) : exec (option (list Z)) :=
  Ret ((fun bs => take (Z.to_nat n) (bs ++ replicate (Z.to_nat n) 0)) <$> read_fn (offset seg +! src) n).

(** ** The initial stack *)

Definition USER_STACK_PAGES : nat := 512.

Section stack.
Context (ar : arch) {A : Type} `{FrameSource A}.

(** The loop that maps the stack, page [i] below the top and [n] to go. *)
Fixpoint map_stack (n i : nat) (s : @State A) (root : Z) : exec (result unit load_error * @State A) :=
  match n with
  | O => Ret (Ok tt, s)
  | S n =>
      let v := page_down (USER_STACK_TOP -! Z.of_nat i *! page_size) in
      let! x := fs_alloc (frames s) in
      match x with
      | (Some f, fa) =>
          let! s := map_user ar (mkState (mem s) fa) root v f (URW ar) in
          map_stack n (S i) s root
      | (None, fa) => Ret (Err OutOfMemory, mkState (mem s) fa)
      end
  end.

Definition write_byte_to_user (m : memory) (root addr val : Z) : memory :=
  match translate_user ar m root addr with
  | Some p => set_byte m p val
  | None => m
  end.

Definition write_u64_to_user (m : memory) (root addr val : Z) : memory :=
  match translate_user ar m root addr with
  | Some p => copy_bytes m p (le_bytes 8 val)
  | None => m
  end.

Fixpoint put_bytes (m : memory) (root pos : Z) (bs : list Z) : memory :=
  match bs with
  | [] => m
  | b :: bs => put_bytes (write_byte_to_user m root pos b) root (pos +! 1) bs
  end.

(** The strings one after the other: the pointers to them and the end position. *)
Fixpoint put_strings (m : memory) (root pos : Z) (strs : list (list Z)) : memory * list Z * Z :=
  match strs with
  | [] => (m, [], pos)
  | str :: strs =>
      let '(m, ptrs, e) := put_strings (put_bytes m root pos str) root (pos +! Z.of_nat (length str)) strs in
      (m, pos :: ptrs, e)
  end.

Fixpoint put_words (m : memory) (root pos : Z) (ws : list Z) : memory :=
  match ws with
  | [] => m
  | w :: ws => put_words (write_u64_to_user m root pos w) root (pos +! 8) ws
  end.

(** "KEY=VALUE", and an argument, each with its terminating zero. *)
Definition env_str (kv : list Z * list Z) : list Z := kv.1 ++ [61] ++ kv.2 ++ [0].
Definition arg_str (s : list Z) : list Z := if decide (last s = Some 0) then s else s ++ [0].

Definition RANDOM_ADDR : Z := USER_STACK_TOP - 16.

Definition total_len (strs : list (list Z)) : Z := u64 (Z.of_nat (sum_list_with length strs)).

(** What the processes see at their stack pointer: argc, argv, envp and the auxiliary vector. *)
Definition stack_words (argv_ptrs envp_ptrs : list Z) (auxv : list (Z * Z)) : list Z :=
  [Z.of_nat (length argv_ptrs)] ++ argv_ptrs ++ [0] ++ envp_ptrs ++ [0] ++ mjoin ((fun '(t, v) => [t; v]) <$> auxv).

Definition build_stack (m : memory) (root : Z) (argv : list (list Z)) (envp : list (list Z * list Z))
    (auxv : list (Z * Z)) : memory * Z :=
  let m := write_u64_to_user m root RANDOM_ADDR 0x123456789ABCDEF0 in
  let m := write_u64_to_user m root (RANDOM_ADDR +! 8) 0xDEADBEEFFEEDFACE in
  let envp_strs := env_str <$> envp in
  let argv_strs := arg_str <$> argv in
  let strings_start := RANDOM_ADDR -! (total_len argv_strs +! total_len envp_strs) in
  let '(m, argv_ptrs, pos) := put_strings m root strings_start argv_strs in
  let '(m, envp_ptrs, _) := put_strings m root pos envp_strs in
  let metadata_size := 8 +! (Z.of_nat (length argv_ptrs) + 1) *! 8 +! (Z.of_nat (length envp_ptrs) + 1) *! 8
                       +! Z.of_nat (length auxv) *! 16 in
  let initial_rsp := Z.land (strings_start -! metadata_size) (not64 0xF) in
  (put_words m root initial_rsp (stack_words argv_ptrs envp_ptrs auxv), initial_rsp).

End stack.

(** The auxiliary vectors of the two loaders. *)
Definition auxv_from_elf (f : ElfFile) : list (Z * Z) :=
  [(33, 0); (3, 0); (4, 56); (5, Z.of_nat (length (loadable_segments f))); (6, page_size); (9, entry f);
   (11, 0); (12, 0); (13, 0); (14, 0); (25, RANDOM_ADDR); (0, 0)].

Definition auxv_streaming (i : ElfInfo) : list (Z * Z) :=
  [(33, 0); (3, phdr_vaddr i); (4, phent i); (5, phnum i); (6, page_size); (9, i_entry i);
   (11, 0); (12, 0); (13, 0); (14, 0); (25, RANDOM_ADDR); (0, 0)].

(** ** Byte lemmas *)

Lemma get_byte_bit (m : memory) (p i : Z) : 0 <= i →
  Z.testbit (get_byte m p) i = bool_decide (i < 8) && Z.testbit (m (p / 8 * 8)) (p mod 8 * 8 + i).
Proof.
  intros Hi. unfold get_byte. rewrite Z.land_spec. change 0xFF with (Z.ones 8).
  rewrite ones_testbit by lia. rewrite Z.shiftr_spec by lia.
  rewrite (Z.add_comm i). by rewrite andb_comm.
Qed.

Lemma get_byte_range (m : memory) (p : Z) : is_byte (get_byte m p).
Proof. unfold get_byte, is_byte. change 0xFF with (Z.ones 8). rewrite Z.land_ones by lia. by apply Z.mod_pos_bound. Qed.

Lemma get_set_byte (m : memory) (p b : Z) : is_byte b → get_byte (set_byte m p b) p = b.
Proof.
  intros Hb. apply Z.bits_inj'. intros i Hi. rewrite get_byte_bit by done. unfold set_byte. rewrite write_eq.
  set (k := p mod 8 * 8). assert (0 <= k) by (subst k; Z.to_euclidean_division_equations; lia).
  rewrite Z.lor_spec, Z.ldiff_spec, !Z.shiftl_spec by lia. replace (k + i - k) with i by lia.
  change 0xFF with (Z.ones 8). rewrite ones_testbit by lia. case_bool_decide as Hc.
  - cbn [negb]. rewrite andb_false_r. done.
  - rewrite (bits_above i 8 b); [done|lia|exact Hb|lia].
Qed.

Lemma get_set_byte_ne (m : memory) (p q b : Z) : is_byte b → p ≠ q → get_byte (set_byte m p b) q = get_byte m q.
Proof.
  intros Hb Hne. apply Z.bits_inj'. intros i Hi. rewrite !get_byte_bit by done. unfold set_byte.
  case_bool_decide as Hc; [|done]. cbn [andb].
  destruct (decide (q / 8 * 8 = p / 8 * 8)) as [E|E]; [|by rewrite write_ne].
  rewrite E, write_eq. set (k := p mod 8 * 8). set (k' := q mod 8 * 8).
  assert (0 <= k ∧ 0 <= k' ∧ (k' + 8 <= k ∨ k + 8 <= k')) as (Hk & Hk' & Hd)
    by (subst k k'; Z.to_euclidean_division_equations; lia).
  rewrite Z.lor_spec, Z.ldiff_spec, !Z.shiftl_spec by lia. change 0xFF with (Z.ones 8).
  destruct Hd as [Hd|Hd].
  - rewrite (Z.testbit_neg_r (Z.ones 8)), (Z.testbit_neg_r b) by lia. cbn [negb]. by rewrite andb_true_r, orb_false_r.
  - rewrite ones_testbit by lia. rewrite bool_decide_eq_false_2 by lia.
    rewrite (bits_above (k' + i - k) 8 b); [|lia|exact Hb|lia]. cbn [negb]. by rewrite andb_true_r, orb_false_r.
Qed.

Lemma set_byte_word (m : memory) (p b x : Z) : x ≠ p / 8 * 8 → set_byte m p b x = m x.
Proof. intros Hx. unfold set_byte. by rewrite write_ne. Qed.

Lemma copy_bytes_get (bs : list Z) : ∀ (m : memory) (p q : Z), Forall is_byte bs →
  get_byte (copy_bytes m p bs) q = if decide (p <= q < p + Z.of_nat (length bs))
    then bs !!! Z.to_nat (q - p) else get_byte m q.
Proof.
  induction bs as [|b bs IH]; intros m p q Hb; cbn [copy_bytes length].
  { rewrite decide_False by lia. done. }
  apply Forall_cons in Hb as [Hb Hbs]. rewrite IH by done.
  destruct (decide (q = p)) as [->|Hne].
  - rewrite decide_False, decide_True by lia. rewrite get_set_byte by done.
    by replace (Z.to_nat (p - p)) with 0%nat by lia.
  - rewrite get_set_byte_ne by done. do 2 case_decide; try lia.
    by replace (Z.to_nat (q - p)) with (S (Z.to_nat (q - (p + 1)))) by lia.
Qed.

Lemma copy_bytes_word (bs : list Z) : ∀ (m : memory) (p x : Z),
  (∀ i, 0 <= i < Z.of_nat (length bs) → x ≠ (p + i) / 8 * 8) → copy_bytes m p bs x = m x.
Proof.
  induction bs as [|b bs IH]; intros m p x Hx; cbn [copy_bytes]; [done|]. rewrite IH.
  - apply set_byte_word. replace p with (p + 0) by lia. apply Hx. cbn. lia.
  - intros i Hi. replace (p + 1 + i) with (p + (i + 1)) by lia. apply Hx. cbn. lia.
Qed.

Lemma get_byte_word (m m' : memory) (p : Z) : m' (p / 8 * 8) = m (p / 8 * 8) → get_byte m' p = get_byte m p.
Proof. unfold get_byte. by intros ->. Qed.

(** The words of a page. *)
Lemma page_word (f i : Z) : f mod 4096 = 0 → 0 <= i < 4096 →
  (f + i) / 8 * 8 = entry_addr f (i / 8) ∧ 0 <= i / 8 < 512.
Proof. unfold entry_addr. intros. Z.to_euclidean_division_equations; lia. Qed.

(** ** Pages of data *)

Section pages.
Context (ar : arch) {A : Type} `{FrameSource A}.

(** A write into a page of data changes no table and no other page. *)
Lemma data_write (s : @State A) (root f : Z) (m' : memory) :
  good ar s root → data_frame ar s root f →
  (∀ x, (∀ j, 0 <= j < 512 → x ≠ entry_addr f j) → m' x = mem s x) →
  let s' := set_mem s m' in
  good ar s' root ∧ (∀ v, translate_user ar (mem s') root v = translate_user ar (mem s) root v) ∧
  (∀ g, data_frame ar s' root g ↔ data_frame ar s root g) ∧
  ∀ g j, g ≠ f → g mod 4096 = 0 → 0 <= j < 512 → m' (entry_addr g j) = mem s (entry_addr g j).
Proof.
  intros [Ht Hinv] (Hu & Hal & Hn) Hout s'.
  assert (∀ g j, g ≠ f → g mod 4096 = 0 → 0 <= j < 512 → m' (entry_addr g j) = mem s (entry_addr g j)) as Hne.
  { intros g j Hg Hgal Hj. apply Hout. intros i Hi Heq. apply entry_addr_inj in Heq as [? _]; done. }
  assert (∀ k p t j, reach ar (mem s) root k p t → 0 <= j < 512 →
    mem s' (entry_addr t j) = mem s (entry_addr t j)) as Hag.
  { intros k p t j Hr Hj. destruct (tree_frame _ _ _ _ Ht _ _ _ Hr) as (_ & Htal & _).
    apply Hne; [|done|done]. intros ->. by eapply Hn. }
  pose proof (reach_agree ar (mem s) (mem s') root Hag) as Hre.
  split; [split; [|done]; by eapply (tree_agree ar (mem s))|].
  split; [intros v; exact (translate_agree ar (mem s) (mem s') root Hag v (TOP ar) root (reach_root ar _ _ _))|]. split; [|done].
  intros g. unfold data_frame. cbn [set_mem frames]. setoid_rewrite Hre. done.
Qed.

(** A frame just taken is a page of data. *)
Lemma claimed_frame (s : @State A) (fa : A) (root f : Z) :
  good ar s root → fs_inv fa → ¬ fs_used (frames s) f → f mod 4096 = 0 →
  (∀ g, fs_used fa g ↔ g = f ∨ fs_used (frames s) g) →
  let s' := mkState (mem s) fa in
  good ar s' root ∧ data_frame ar s' root f ∧ ∀ g, data_frame ar s root g → data_frame ar s' root g.
Proof.
  intros [Ht Hinv] Hfa Hfresh Hal HU s'. split; [|split].
  - split; [|done]. eapply (tree_agree ar (mem s)); [done| |exact Ht]. intros x Hx. apply HU. by right.
  - split; [apply HU; by left|]. split; [done|]. intros k p Hr. by apply (tree_frame _ _ _ _ Ht) in Hr as [? _].
  - intros g (Hu & Hrest). split; [|done]. apply HU. by right.
Qed.

(** [v] now has a frame [f] of its own that was free before, with any contents; the rest
    as in [fresh_page]. *)
Record placed (s s' : @State A) (root v f : Z) : Prop := {
  pl_good : good ar s' root;
  pl_fresh : ¬ fs_used (frames s) f;
  pl_data : data_frame ar s' root f;
  pl_translate : ∀ v', 0 <= v' < VA_LIMIT ar →
    translate_user ar (mem s') root v' =
      if decide (v' / 4096 = v / 4096) then Some (f + v' mod 4096) else translate_user ar (mem s) root v';
  pl_keeps : ∀ g, data_frame ar s root g → data_frame ar s' root g ∧
    ∀ j, 0 <= j < 512 → mem s' (entry_addr g j) = mem s (entry_addr g j);
  pl_used : ∀ g, fs_used (frames s) g → fs_used (frames s') g;
  pl_free : (fs_free (frames s) <= S (TOP_LEVEL ar) + fs_free (frames s'))%nat
}.

Lemma fresh_placed (s s' : @State A) (root v f : Z) : fresh_page ar s s' root v f → placed s s' root v f.
Proof. by intros []. Qed.

(** A frame allocated and mapped. *)
Lemma map_placed (s : @State A) (root v fl : Z) :
  good ar s root → (S (TOP_LEVEL ar) <= fs_free (frames s))%nat → 0 <= v < VA_LIMIT ar →
  flags_ok ar fl → Z.testbit fl 0 = true →
  ∃ f fa s', fs_alloc (frames s) = Ret (Some f, fa) ∧ map ar (mkState (mem s) fa) root v f fl = Ret s' ∧
    placed s s' root v f.
Proof.
  intros Hg Hfree Hv Hfl Hbit. destruct (fs_alloc_ok (frames s) (proj2 Hg)) as (r & fa & Ha & Hinv & Hr).
  destruct r as [f|]; [|lia]. destruct Hr as (Hnu & Hal & Hf & HU & Hc).
  destruct (claimed_frame s fa root f Hg Hinv Hnu Hal HU) as (Hg1 & Hd1 & Hk1).
  set (s1 := mkState (mem s) fa) in *.
  destruct (map_spec ar s1 root v f fl Hg1) as (s2 & Hm & Hg2 & Ht & Hk & Hc' & Hu'); try done;
    [cbn [frames s1]; lia|lia|].
  exists f, fa, s2. split; [done|]. split; [done|]. split; try done.
  - by apply Hk.
  - intros v' Hv'. rewrite Ht by done. case_decide; [|done]. f_equal. Z.to_euclidean_division_equations; lia.
  - intros g Hg'. exact (Hk g (Hk1 g Hg')).
  - intros g Hg'. apply Hu', HU. by right.
  - cbn [frames s1] in Hc'. lia.
Qed.

(** [new_page]: as [map_fresh], cleared after mapping. *)
Lemma new_page_spec (s : @State A) (root v fl : Z) :
  good ar s root → (S (TOP_LEVEL ar) <= fs_free (frames s))%nat → 0 <= v < VA_LIMIT ar →
  flags_ok ar fl → Z.testbit fl 0 = true →
  ∃ s' f, new_page ar s root v fl = Ret (Some f, s') ∧ fresh_page ar s s' root v f.
Proof.
  intros Hg Hfree Hv Hfl Hbit. destruct (map_placed s root v fl Hg Hfree Hv Hfl Hbit) as (f & fa & s2 & Ha & Hm & P).
  destruct P as [Hg2 Hnu Hdf Ht Hk Hu Hc].
  destruct (data_write s2 root f (zero_table (mem s2) f) Hg2 Hdf) as (Hg3 & Ht3 & Hd3 & Hne);
    [intros x Hx; by apply zero_table_out|].
  exists (set_mem s2 (zero_table (mem s2) f)), f.
  split; [unfold new_page, map_user; rewrite Ha; cbn [exec_bind]; by rewrite Hm|].
  split; try done.
  - by apply Hd3.
  - intros j Hj. by apply zero_table_in.
  - intros v' Hv'. by rewrite Ht3, Ht.
  - intros g Hg'. destruct (Hk g Hg') as [Hdg E]. split; [by apply Hd3|].
    intros j Hj. cbn [set_mem mem]. rewrite Hne; [by apply E| |apply Hg'|done].
    intros ->. by destruct Hg' as [? _].
Qed.

End pages.

(** ** Flags *)

Lemma flags_ok_and (ar : arch) (a b c : Z) : flags_ok ar a → flags_ok ar b → (∀ i, 0 <= i → Z.testbit c i = true →
  Z.testbit a i = true ∨ Z.testbit b i = true) → 0 <= c → flags_ok ar c.
Proof.
  intros [Ha Ha'] [Hb Hb'] Hc H0.
  assert (∀ i, 0 <= i → Z.testbit a i = false → Z.testbit b i = false → Z.testbit c i = false) as Hf.
  { intros i Hi Ea Eb. apply not_true_is_false. intros E. destruct (Hc i Hi E); congruence. }
  split.
  - unfold is_u64 in *. apply Z.bounded_iff_bits_nonneg'; [lia|done|]. intros i Hi.
    apply Hf; [lia|apply (bits_above i 64)|apply (bits_above i 64)]; lia.
  - destruct ar; intros i Hi; apply Hf; (lia || auto).
Qed.

Lemma segment_flags_ok (ar : arch) (fl : Z) :
  flags_ok ar (elf_segment_pte_flags ar fl) ∧ Z.testbit (elf_segment_pte_flags ar fl) 0 = true.
Proof.
  assert (∃ p, elf_segment_pte_flags ar fl = prot_to_pte_flags ar p) as [p ->].
  2:{ apply prot_flags_ok. }
  unfold elf_segment_pte_flags, prot_to_pte_flags.
  exists (Z.lor (if Z.land fl 4 =? 0 then 0 else 1)
    (Z.lor (if Z.land fl 2 =? 0 then 0 else 2) (if Z.land fl 1 =? 0 then 8 else 12))).
  destruct (Z.land fl 4 =? 0), (Z.land fl 2 =? 0), (Z.land fl 1 =? 0), ar; reflexivity.
Qed.

Lemma merged_flags_ok (ar : arch) (m : memory) (root v fl : Z) :
  flags_ok ar fl → Z.testbit fl 0 = true →
  flags_ok ar (merge_page_flags ar m root v fl) ∧ Z.testbit (merge_page_flags ar m root v fl) 0 = true.
Proof.
  intros Hfl Hbit. unfold merge_page_flags. destruct ar.
  - assert (∀ x, flags_ok Riscv64 (Z.lor (Z.land x 0xFF) fl) ∧ Z.testbit (Z.lor (Z.land x 0xFF) fl) 0 = true) as Hm.
    { intros x. split; [|by rewrite Z.lor_spec, Hbit, orb_true_r].
      apply (flags_ok_and _ (Z.land x 0xFF) fl); [apply flags_ok_small|done| |].
      - change 0xFF with (Z.ones 8). rewrite Z.land_ones by lia. pose proof (Z.mod_pos_bound x (2 ^ 8)). lia.
      - intros i Hi. rewrite Z.lor_spec. intros [?|?]%orb_true_iff; auto.
      - apply Z.lor_nonneg. split; [apply Z.land_nonneg; by right|destruct Hfl; unfold is_u64 in *; lia]. }
    destruct (walk_mapping _ _ _ _); auto.
  - destruct (debug_pte X86_64 m root v) as [e|]; [|done].
    set (ex := pte_flags X86_64 e).
    assert (flags_ok X86_64 ex) as Hex.
    { apply (flags_ok_and _ 0x1FF (Z.lor 1 (2 ^ 63))); [by apply flags_ok_small| | |].
      - split; [by vm_compute|]. intros i Hi. rewrite Z.lor_spec, Z.pow2_bits_false by lia.
        by rewrite (bits_above i 1 1) by lia.
      - intros i Hi. subst ex. unfold pte_flags. rewrite Z.land_spec, Z.lor_spec.
        intros [_ [?|E]%orb_true_iff]%andb_true_iff; [by left|]. right. by rewrite Z.lor_spec, E, orb_true_r.
      - subst ex. unfold pte_flags. apply Z.land_nonneg. right. by vm_compute. }
    assert (0 <= ex ∧ 0 <= fl) as [H0 H1] by (destruct Hex, Hfl; unfold is_u64 in *; lia).
    destruct (_ || _).
    + split; [|by rewrite Z.ldiff_spec, Z.lor_spec, Hbit, orb_true_r].
      apply (flags_ok_and _ ex fl); [done|done| |apply Z.ldiff_nonneg; left; by apply Z.lor_nonneg].
      intros i Hi. rewrite Z.ldiff_spec, Z.lor_spec. intros [[?|?]%orb_true_iff _]%andb_true_iff; auto.
    + split; [|by rewrite Z.lor_spec, Hbit, orb_true_r].
      apply (flags_ok_and _ ex fl); [done|done| |by apply Z.lor_nonneg].
      intros i Hi. rewrite Z.lor_spec. intros [?|?]%orb_true_iff; auto.
Qed.

(** ** The image in memory *)

Section image.
Context (ar : arch) {A : Type} `{FrameSource A} (root : Z) (s0 : @State A).

(** Page [n] lies in the frame [f]. *)
Definition backed (s : @State A) (n f : Z) : Prop :=
  ∀ i, 0 <= i < 4096 → translate_user ar (mem s) root (n * 4096 + i) = Some (f + i).

(** The pages of [L] have frames of their own that were free in [s0] and that hold the
    bytes [c]; nothing else changed since [s0]. *)
Record holds (s : @State A) (L : gset Z) (c : Z → Z) : Prop := {
  h_good : good ar s root;
  h_pages : ∀ n, n ∈ L → 0 <= n ∧ n * 4096 + 4096 <= VA_LIMIT ar;
  h_out : ∀ v, 0 <= v < VA_LIMIT ar → (v / 4096 ∉ L) →
    translate_user ar (mem s) root v = translate_user ar (mem s0) root v;
  h_in : ∀ n, n ∈ L → ∃ f, backed s n f ∧ f ≠ n * 4096 ∧ data_frame ar s root f ∧ ¬ fs_used (frames s0) f ∧
    ∀ i, 0 <= i < 4096 → get_byte (mem s) (f + i) = c (n * 4096 + i);
  h_own : ∀ n n' f, n ∈ L → n' ∈ L → backed s n f → backed s n' f → n = n';
  h_keeps : ∀ g, data_frame ar s0 root g → data_frame ar s root g ∧
    ∀ j, 0 <= j < 512 → mem s (entry_addr g j) = mem s0 (entry_addr g j);
  h_used : ∀ g, fs_used (frames s0) g → fs_used (frames s) g
}.

Lemma backed_det (s : @State A) (n f f' : Z) : backed s n f → backed s n f' → f = f'.
Proof. intros H1 H2. specialize (H1 0 ltac:(lia)). specialize (H2 0 ltac:(lia)). rewrite H1 in H2. injection H2. lia. Qed.

Lemma holds_start (s : @State A) : s = s0 → good ar s root → holds s ∅ (fun _ => 0).
Proof. intros -> Hg. split; try done; set_solver. Qed.

Lemma holds_ext (s : @State A) (L L' : gset Z) (c c' : Z → Z) :
  holds s L c → (∀ n, n ∈ L' ↔ n ∈ L) → (∀ n i, n ∈ L → 0 <= i < 4096 → c' (n * 4096 + i) = c (n * 4096 + i)) →
  holds s L' c'.
Proof.
  intros [H1 H2 H3 H4 H5 H6 H7] HL Hc. assert (L' = L) as -> by (by apply set_eq). split; try done.
  intros n Hn. destruct (H4 n Hn) as (f & Hb & Hne & Hd & Hu & Hg). exists f. split_and!; try done.
  intros i Hi. rewrite Hg by done. by rewrite Hc.
Qed.

(** Pages of data that keep their words keep their bytes. *)
Lemma data_bytes (s s' : @State A) (g i : Z) :
  g mod 4096 = 0 → (∀ j, 0 <= j < 512 → mem s' (entry_addr g j) = mem s (entry_addr g j)) → 0 <= i < 4096 →
  get_byte (mem s') (g + i) = get_byte (mem s) (g + i).
Proof. intros Hal Hk Hi. destruct (page_word g i Hal Hi) as [E Hr]. apply get_byte_word. rewrite E. by apply Hk. Qed.

(** Moves of the page table that keep translations and data. *)
Lemma holds_moved (s s' : @State A) (L : gset Z) (c : Z → Z) :
  holds s L c → good ar s' root →
  (∀ v, 0 <= v < VA_LIMIT ar → translate_user ar (mem s') root v = translate_user ar (mem s) root v) →
  (∀ g, data_frame ar s root g → data_frame ar s' root g ∧
     ∀ j, 0 <= j < 512 → mem s' (entry_addr g j) = mem s (entry_addr g j)) →
  (∀ g, fs_used (frames s) g → fs_used (frames s') g) → holds s' L c.
Proof.
  intros [H1 H2 H3 H4 H5 H6 H7] Hg Ht Hd Hu.
  assert (∀ n f, n ∈ L → backed s' n f ↔ backed s n f) as Hb.
  { intros n f Hn. destruct (H2 n Hn). split; intros B i Hi; [rewrite <- Ht by lia|rewrite Ht by lia]; by apply B. }
  split; try done.
  - intros v Hv Hn. by rewrite Ht, H3.
  - intros n Hn. destruct (H4 n Hn) as (f & B & Hne & Df & Hf & Hc). destruct (Hd f Df) as [Df' E].
    exists f. split; [by apply Hb|]. split_and!; try done. intros i Hi.
    rewrite (data_bytes s s') by (done || apply Df). by apply Hc.
  - intros n n' f Hn Hn' B B'. apply (H5 n n' f); try done; by apply Hb.
  - intros g [Dg E]%H6. destruct (Hd g Dg) as [Dg' E']. split; [done|]. intros j Hj. by rewrite E', E.
  - auto.
Qed.

(** A page added on a frame of its own. *)
Lemma holds_placed (s s' : @State A) (L : gset Z) (c : Z → Z) (n f : Z) :
  holds s L c → (n ∉ L) → 0 <= n → n * 4096 + 4096 <= VA_LIMIT ar → fs_used (frames s0) (n * 4096) →
  placed ar s s' root (n * 4096) f → (∀ i, 0 <= i < 4096 → get_byte (mem s') (f + i) = c (n * 4096 + i)) →
  holds s' ({[n]} ∪ L) c.
Proof.
  intros [H1 H2 H3 H4 H5 H6 H7] Hn H0 Hlim Hused [F1 F2 F3 F5 F6 F7 F8] Hc.
  assert (∀ n' i, 0 <= n' → n' * 4096 + 4096 <= VA_LIMIT ar → 0 <= i < 4096 →
    translate_user ar (mem s') root (n' * 4096 + i) =
      if decide (n' = n) then Some (f + i) else translate_user ar (mem s) root (n' * 4096 + i)) as Ht.
  { intros n' i Hn0 Hnl Hi. rewrite F5 by lia. rewrite Z.div_mul by lia.
    replace ((n' * 4096 + i) / 4096) with n' by (Z.to_euclidean_division_equations; lia).
    replace ((n' * 4096 + i) mod 4096) with i by (Z.to_euclidean_division_equations; lia). done. }
  assert (∀ n' g, n' ∈ L → backed s' n' g ↔ backed s n' g) as Hb.
  { intros n' g Hn'. destruct (H2 n' Hn'). assert (n' ≠ n) by (by intros ->).
    split; intros B i Hi; specialize (B i Hi); rewrite Ht, decide_False in * by (lia || done); done. }
  assert (backed s' n f) as Bf by (intros i Hi; rewrite Ht by lia; by rewrite decide_True).
  assert (∀ n' g, n' ∈ L → backed s' n' g → g ≠ f) as Hgf.
  { intros n' g Hn' B%Hb ->; [|done]. destruct (H4 n' Hn') as (f' & B' & _ & (Hu' & _) & _).
    rewrite (backed_det _ _ _ _ B B') in F2. by apply F2. }
  split; try done.
  - intros n' [->%elem_of_singleton|Hn']%elem_of_union; [lia|by apply H2].
  - intros v Hv Hnot. rewrite F5 by done. rewrite Z.div_mul by lia. rewrite decide_False by set_solver.
    apply H3; [done|set_solver].
  - intros n' [->%elem_of_singleton|Hn']%elem_of_union.
    + exists f. split; [done|]. split; [intros ->; by apply F2, H7|]. split; [done|].
      split; [intros Hu; by apply F2, H7|]. done.
    + destruct (H4 n' Hn') as (g & B & Hne & Dg & Hgu & Hgc). destruct (F6 g Dg) as [Dg' E].
      exists g. split; [by apply Hb|]. split_and!; try done. intros i Hi.
      rewrite (data_bytes s s') by (done || apply Dg). by apply Hgc.
  - intros n1 n2 g [->%elem_of_singleton|Hn1]%elem_of_union [->%elem_of_singleton|Hn2]%elem_of_union B1 B2.
    + done.
    + exfalso. apply (Hgf n2 g Hn2 B2). by apply (backed_det s' n).
    + exfalso. apply (Hgf n1 g Hn1 B1). by apply (backed_det s' n).
    + apply (H5 n1 n2 g); try done; by apply Hb.
  - intros g [Dg E]%H6. destruct (F6 g Dg) as [Dg' E']. split; [done|]. intros j Hj. by rewrite E', E.
  - auto.
Qed.

Lemma holds_fresh (s s' : @State A) (L : gset Z) (c : Z → Z) (n f : Z) :
  holds s L c → (n ∉ L) → 0 <= n → n * 4096 + 4096 <= VA_LIMIT ar → fs_used (frames s0) (n * 4096) →
  (∀ i, 0 <= i < 4096 → c (n * 4096 + i) = 0) → fresh_page ar s s' root (n * 4096) f → holds s' ({[n]} ∪ L) c.
Proof.
  intros Hh Hn H0 Hlim Hused Hc F. apply (holds_placed s s' L c n f); try done; [by apply fresh_placed|].
  intros i Hi. destruct (page_word f i) as [E Hr]; [apply (fp_data _ _ _ _ _ _ F)|done|].
  unfold get_byte. rewrite Hc, E, (fp_zero _ _ _ _ _ _ F) by done. by rewrite Z.shiftr_0_l.
Qed.

(** Bytes copied into a page. *)
Lemma holds_copy (s : @State A) (L : gset Z) (c : Z → Z) (n f off : Z) (bs : list Z) :
  holds s L c → n ∈ L → backed s n f → 0 <= off → off + Z.of_nat (length bs) <= 4096 → Forall is_byte bs →
  holds (set_mem s (copy_bytes (mem s) (f + off) bs)) L
    (fun a => if decide (n * 4096 + off <= a < n * 4096 + off + Z.of_nat (length bs))
              then bs !!! Z.to_nat (a - (n * 4096 + off)) else c a).
Proof.
  intros [H1 H2 H3 H4 H5 H6 H7] Hn B H0 Hlen Hbs.
  destruct (H4 n Hn) as (f' & B' & Hne & Df & Hfu & Hc). rewrite <- (backed_det _ _ _ _ B B') in *. clear f' B'.
  pose proof Df as (Hu & Hal & Hnr).
  destruct (data_write ar s root f (copy_bytes (mem s) (f + off) bs) H1 Df) as (Hg & Ht & Hd & Hw).
  { intros x Hx. apply copy_bytes_word. intros i Hi. rewrite <- Z.add_assoc.
    destruct (page_word f (off + i) Hal ltac:(lia)) as [-> Hr]. by apply Hx. }
  set (s' := set_mem s (copy_bytes (mem s) (f + off) bs)) in *.
  assert (∀ n' g, backed s' n' g ↔ backed s n' g) as Hb.
  { intros n' g. split; intros Bg i Hi; specialize (Bg i Hi); [by rewrite Ht in Bg|by rewrite Ht]. }
  split; try done.
  - intros v Hv Hnot. rewrite Ht. by apply H3.
  - intros n' Hn'. destruct (H4 n' Hn') as (g & Bg & Hgne & Dg & Hgu & Hgc).
    exists g. split; [by apply Hb|]. split; [done|]. split; [by apply Hd|]. split; [done|]. intros i Hi.
    change (mem s') with (copy_bytes (mem s) (f + off) bs).
    destruct (decide (n' = n)) as [->|Hnn].
    + rewrite (backed_det _ _ _ _ Bg B) in *. rewrite copy_bytes_get by done.
      do 2 case_decide; try lia; [f_equal; lia|by apply Hgc].
    + assert (g ≠ f) as Hgf by (intros ->; apply Hnn; by eapply H5).
      rewrite decide_False by lia. rewrite <- Hgc by done.
      apply (data_bytes s s'); [apply Dg|intros j Hj; apply Hw; (done || apply Dg)|done].
  - intros n1 n2 g Hn1 Hn2 B1 B2. apply (H5 n1 n2 g); try done; by apply Hb.
  - intros g Dg0. destruct (H6 g Dg0) as [Dg E]. split; [by apply Hd|]. intros j Hj. rewrite <- E by done.
    apply Hw; [|apply Dg|done]. intros ->. by apply Hfu, Dg0.
Qed.

(** ** Loading *)

Context (file : Z → Z) (Hfile : ∀ i, is_byte (file i)).
Context (fetch : Segment → Z → Z → exec (option (list Z))) (before_copy : Segment → exec unit).

(** The bytes [n] bytes of the file from [off] on. *)
Definition file_bytes (off n : Z) : list Z := (fun i => file (off + Z.of_nat i)) <$> seq 0 (Z.to_nat n).

(** What the loader may assume of a segment. *)
Record seg_ok (seg : Segment) : Prop := {
  so_range : 0 <= vaddr seg ∧ 0 <= file_size seg <= mem_size seg ∧ vaddr seg + mem_size seg + 4095 < VA_LIMIT ar;
  so_before : before_copy seg = Ret tt;
  so_fetch : ∀ src n, 0 <= src → 0 < n → src + n <= file_size seg →
    fetch seg src n = Ret (Some (file_bytes (offset seg + src) n));
  so_pages : ∀ n, vaddr seg / 4096 <= n < (vaddr seg + mem_size seg + 4095) / 4096 →
    fs_used (frames s0) (n * 4096) ∧
    (translate_user ar (mem s0) root (n * 4096) = None ∨ translate_user ar (mem s0) root (n * 4096) = Some (n * 4096))
}.

(** The bytes [seg] puts over [c]. *)
Definition overlay (seg : Segment) (c : Z → Z) (a : Z) : Z :=
  if decide (vaddr seg <= a < vaddr seg + file_size seg) then file (offset seg + (a - vaddr seg)) else c a.

Lemma page_frame_ok (s : @State A) (L : gset Z) (c : Z → Z) (n fl : Z) :
  holds s L c → (∀ i, 0 <= i < 4096 → (n ∉ L) → c (n * 4096 + i) = 0) →
  0 <= n → n * 4096 + 4096 <= VA_LIMIT ar → fs_used (frames s0) (n * 4096) →
  translate_user ar (mem s0) root (n * 4096) = None ∨ translate_user ar (mem s0) root (n * 4096) = Some (n * 4096) →
  (S (TOP_LEVEL ar) <= fs_free (frames s))%nat → flags_ok ar fl → Z.testbit fl 0 = true →
  ∃ f s', page_frame ar s root (n * 4096) fl = Ret (Some f, s') ∧ holds s' ({[n]} ∪ L) c ∧ backed s' n f ∧
    (fs_free (frames s) <= S (TOP_LEVEL ar) + fs_free (frames s'))%nat.
Proof.
  intros Hh Hc H0 Hlim Hu Hinit Hf Hfl Hbit. unfold page_frame.
  pose proof (h_good _ _ _ Hh) as Hg.
  assert (0 <= n * 4096 < VA_LIMIT ar) as Hv by lia.
  destruct (decide (n ∈ L)) as [Hn|Hn].
  - destruct (h_in _ _ _ Hh n Hn) as (f & B & Hne & Df & Hfu & _).
    pose proof (B 0 ltac:(lia)) as B0. rewrite !Z.add_0_r in B0. rewrite B0, (proj2 (Z.eqb_neq _ _) Hne).
    destruct (merged_flags_ok ar (mem s) root (n * 4096) fl Hfl Hbit) as [Hmf Hmb].
    pose proof (translate_range _ _ _ _ _ _ (proj1 Hg) B0) as Hfr. destruct Df as (Hused & Hal & Hnr).
    destruct (map_spec ar s root (n * 4096) f _ Hg ltac:(lia) Hv Hfr Hmf Hmb) as (s' & Hm & Hg' & Ht & Hd & Hc' & Hu').
    assert (∀ v, 0 <= v < VA_LIMIT ar → translate_user ar (mem s') root v = translate_user ar (mem s) root v) as Hsame.
    { intros v Hvv. rewrite Ht by done. rewrite Z.div_mul by lia. case_decide as E; [|done].
      replace v with (n * 4096 + v mod 4096) at 2 by (Z.to_euclidean_division_equations; lia).
      rewrite B by (apply Z.mod_pos_bound; lia). f_equal. Z.to_euclidean_division_equations; lia. }
    exists f, s'. unfold map_user. rewrite Hm. split; [done|]. split; [|split; [|lia]].
    + eapply (holds_ext _ L); [by eapply holds_moved|set_solver|done].
    + intros i Hi. rewrite Hsame by lia. by apply B.
  - pose proof (h_out _ _ _ Hh (n * 4096) Hv) as Ho. rewrite Z.div_mul in Ho by lia. rewrite (Ho Hn).
    destruct (new_page_spec ar s root (n * 4096) fl Hg Hf Hv Hfl Hbit) as (s' & f & Hm & F).
    assert (match translate_user ar (mem s0) root (n * 4096) with
      | Some f0 => if f0 =? n * 4096 then new_page ar s root (n * 4096) fl
          else let! s1 := map_user ar s root (n * 4096) f0 (merge_page_flags ar (mem s) root (n * 4096) fl) in Ret (Some f0, s1)
      | None => new_page ar s root (n * 4096) fl end = Ret (Some f, s')) as ->.
    { destruct Hinit as [->| ->]; [done|]. by rewrite Z.eqb_refl. }
    exists f, s'. split; [done|]. split; [|split; [|apply F]].
    + eapply holds_fresh; try done. auto.
    + intros i Hi. rewrite (fp_translate _ _ _ _ _ _ F) by lia. rewrite Z.div_mul by lia.
      rewrite decide_True by (Z.to_euclidean_division_equations; lia). f_equal. Z.to_euclidean_division_equations; lia.
Qed.

Lemma file_bytes_length (off n : Z) : 0 <= n → Z.of_nat (length (file_bytes off n)) = n.
Proof. intros Hn. unfold file_bytes. rewrite length_fmap, length_seq. lia. Qed.

Lemma file_bytes_lookup (off n k : Z) : 0 <= k < n → file_bytes off n !!! Z.to_nat k = file (off + k).
Proof.
  intros Hk. apply list_lookup_total_correct. unfold file_bytes. rewrite list_lookup_fmap, lookup_seq_lt by lia.
  cbn. f_equal. f_equal. lia.
Qed.

Lemma load_page_ok (s : @State A) (L : gset Z) (c : Z → Z) (seg : Segment) (n : Z) :
  seg_ok seg → holds s L c → (∀ a, (a / 4096 ∉ L) → c a = 0) →
  vaddr seg / 4096 <= n < (vaddr seg + mem_size seg + 4095) / 4096 →
  (S (TOP_LEVEL ar) <= fs_free (frames s))%nat →
  ∃ s', load_page ar fetch before_copy s root seg (n * 4096) = Ret (Ok tt, s') ∧
    holds s' ({[n]} ∪ L) (fun a => if decide (a / 4096 = n) then overlay seg c a else c a) ∧
    (fs_free (frames s) <= S (TOP_LEVEL ar) + fs_free (frames s'))%nat.
Proof.
  intros [(Hv0 & Hfs & Hlim) Hbc Hfetch Hpg] Hh Hc Hn Hfree.
  assert (VA_LIMIT ar < 2 ^ 64) as H64 by (by destruct ar).
  assert (0 <= n ∧ n * 4096 + 4096 <= VA_LIMIT ar) as [H0 Hnl].
  { assert (VA_LIMIT ar mod 4096 = 0) by (by destruct ar). Z.to_euclidean_division_equations; lia. }
  destruct (Hpg n Hn) as [Hu Hinit]. destruct (segment_flags_ok ar (flags seg)) as [Hfl Hbit].
  destruct (page_frame_ok s L c n _ Hh ltac:(intros i Hi Hnot; apply Hc;
      replace ((n * 4096 + i) / 4096) with n by (Z.to_euclidean_division_equations; lia); done) H0 Hnl Hu Hinit Hfree Hfl Hbit)
    as (f & s1 & Hpf & Hh1 & B & Hc1).
  unfold load_page. rewrite Hpf. cbn [exec_bind]. rewrite Hbc. cbn [exec_bind].
  unfold page_size. rewrite (u64_small (n * 4096 + 4096)), (u64_small (vaddr seg + file_size seg)) by lia.
  set (st := Z.max (n * 4096) (vaddr seg)). set (en := Z.min (n * 4096 + 4096) (vaddr seg + file_size seg)).
  destruct (Z.ltb_spec st en) as [Hlt|Hge].
  - rewrite (u64_small (st - vaddr seg)), (u64_small (en - st)) by lia. rewrite Hfetch by lia. cbn [exec_bind].
    replace (Z.land st (4096 - 1)) with (st - n * 4096).
    2:{ change (4096 - 1) with (Z.ones 12). rewrite Z.land_ones by lia. Z.to_euclidean_division_equations; lia. }
    eexists. split; [done|]. split; [|exact Hc1].
    set (bs := file_bytes (offset seg + (st - vaddr seg)) (en - st)).
    assert (Z.of_nat (length bs) = en - st) as Hl by (apply file_bytes_length; lia).
    eapply holds_ext; [apply (holds_copy s1 _ c n f (st - n * 4096) bs Hh1); [set_solver|done|lia|lia|]|done|].
    { apply Forall_fmap, Forall_true. intros i. apply Hfile. }
    intros n' i Hn' Hi. cbv beta. rewrite Hl.
    replace ((n' * 4096 + i) / 4096) with n' by (Z.to_euclidean_division_equations; lia).
    destruct (decide (n' = n)) as [->|Hne]; [|rewrite decide_False by lia; done].
    unfold overlay. do 2 case_decide; try lia; try done. unfold bs.
    rewrite file_bytes_lookup by lia. f_equal. lia.
  - exists s1. split; [done|]. split; [|done]. eapply holds_ext; [exact Hh1|done|].
    intros n' i Hn' Hi. cbv beta.
    replace ((n' * 4096 + i) / 4096) with n' by (Z.to_euclidean_division_equations; lia).
    destruct (decide (n' = n)) as [->|Hne]; [|done]. unfold overlay. by rewrite decide_False by lia.
Qed.

Lemma load_pages_ok (seg : Segment) (k : nat) : ∀ (s : @State A) (L : gset Z) (c : Z → Z) (n : Z),
  seg_ok seg → holds s L c → (∀ a, (a / 4096 ∉ L) → c a = 0) →
  vaddr seg / 4096 <= n → n + Z.of_nat k <= (vaddr seg + mem_size seg + 4095) / 4096 →
  (k * S (TOP_LEVEL ar) <= fs_free (frames s))%nat →
  ∃ s', load_pages ar fetch before_copy k s root seg (n * 4096) = Ret (Ok tt, s') ∧
    holds s' (list_to_set (seqZ n (Z.of_nat k)) ∪ L)
      (fun a => if decide (n <= a / 4096 < n + Z.of_nat k) then overlay seg c a else c a) ∧
    (fs_free (frames s) <= k * S (TOP_LEVEL ar) + fs_free (frames s'))%nat.
Proof.
  induction k as [|k IH]; intros s L c n Hok Hh Hc Hlo Hhi Hfree; cbn [load_pages].
  { exists s. split; [done|]. split; [|lia]. eapply holds_ext; [exact Hh| |].
    - intros m. rewrite elem_of_union, elem_of_list_to_set, elem_of_seqZ. split; [intros [?|?]; [lia|done]|by right].
    - intros m i Hm Hi. cbv beta. by rewrite decide_False by lia. }
  destruct (load_page_ok s L c seg n Hok Hh Hc ltac:(lia) ltac:(lia)) as (s1 & -> & Hh1 & Hc1). cbn [exec_bind].
  pose proof (so_range _ Hok) as (Hv0 & Hfs & Hlim).
  assert (VA_LIMIT ar < 2 ^ 64) as H64 by (by destruct ar).
  assert (n * 4096 +! page_size = (n + 1) * 4096) as ->.
  { unfold page_size. rewrite u64_small; [lia|]. Z.to_euclidean_division_equations; lia. }
  destruct (IH s1 _ _ (n + 1) Hok Hh1) as (s' & -> & Hh' & Hc'); [|lia|lia|lia|].
  { intros a Ha. cbv beta. rewrite decide_False by set_solver. apply Hc. set_solver. }
  exists s'. split; [done|]. split; [|lia]. eapply holds_ext; [exact Hh'| |].
  - intros m. rewrite !elem_of_union, !elem_of_list_to_set, !elem_of_seqZ, elem_of_singleton.
    destruct (decide (m ∈ L)); [tauto|]. split; [intros [?|?]; [|done]|intros [?|[?|?]]; [| |done]]; lia.
  - intros m i Hm Hi. cbv beta. replace ((m * 4096 + i) / 4096) with m by (Z.to_euclidean_division_equations; lia).
    unfold overlay. repeat case_decide; (done || lia).
Qed.

Lemma load_segments_ok (segs : list Segment) : ∀ (s : @State A) (L : gset Z) (c : Z → Z) (mv : Z),
  Forall seg_ok segs → holds s L c → (∀ a, (a / 4096 ∉ L) → c a = 0) →
  (sum_list_with (fun seg => pages (page_start seg) (page_end seg)) segs * S (TOP_LEVEL ar) <= fs_free (frames s))%nat →
  ∃ s' L' mv', load_segments ar fetch before_copy segs s root mv = Ret (Ok mv', s') ∧
    holds s' L' (foldl (fun c seg => overlay seg c) c segs) ∧
    ∀ n, n ∈ L' ↔ n ∈ L ∨ ∃ seg, seg ∈ segs ∧ vaddr seg / 4096 <= n < (vaddr seg + mem_size seg + 4095) / 4096.
Proof.
  induction segs as [|seg segs IH]; intros s L c mv Hok Hh Hc Hfree; cbn [load_segments foldl].
  { exists s, L, mv. split; [done|]. split; [done|]. set_solver. }
  apply Forall_cons in Hok as [Hseg Hok]. pose proof (so_range _ Hseg) as (Hv0 & Hfs & Hlim).
  assert (VA_LIMIT ar < 2 ^ 64) as H64 by (by destruct ar).
  assert (page_start seg = vaddr seg / 4096 * 4096) as Eps by (apply page_down_eq; unfold is_u64; lia).
  assert (page_end seg = (vaddr seg + mem_size seg + 4095) / 4096 * 4096) as Epe.
  { unfold page_end, page_down. rewrite (u64_small (vaddr seg + mem_size seg)) by lia. apply align_up_page; lia. }
  set (lo := vaddr seg / 4096) in *. set (hi := (vaddr seg + mem_size seg + 4095) / 4096) in *.
  assert (lo <= hi) as Hlh by (subst lo hi; Z.to_euclidean_division_equations; lia).
  assert (Z.of_nat (pages (page_start seg) (page_end seg)) = hi - lo) as Ek.
  { unfold pages, page_size. rewrite Eps, Epe. rewrite Z2Nat.id; Z.to_euclidean_division_equations; lia. }
  cbn [sum_list_with] in Hfree. set (k := pages (page_start seg) (page_end seg)) in *. rewrite Eps.
  destruct (load_pages_ok seg k s L c lo Hseg Hh Hc) as (s1 & -> & Hh1 & Hc1); [lia|lia|lia|]. cbn [exec_bind].
  destruct (IH s1 (list_to_set (seqZ lo (Z.of_nat k)) ∪ L) (overlay seg c) (Z.max mv (vaddr seg +! mem_size seg)) Hok)
    as (s' & L' & mv' & -> & Hh' & HL').
  - eapply holds_ext; [exact Hh1|done|]. intros n i Hn Hi. cbv beta.
    replace ((n * 4096 + i) / 4096) with n by (Z.to_euclidean_division_equations; lia).
    unfold overlay. repeat case_decide; try done. exfalso. subst lo hi. Z.to_euclidean_division_equations; lia.
  - intros a Ha. unfold overlay. rewrite elem_of_union, elem_of_list_to_set, elem_of_seqZ in Ha.
    rewrite decide_False; [apply Hc; tauto|]. intros Hin. apply Ha. left. subst lo hi. Z.to_euclidean_division_equations; lia.
  - lia.
  - exists s', L', mv'. split; [done|]. split; [done|]. intros n. rewrite HL'.
    rewrite elem_of_union, elem_of_list_to_set, elem_of_seqZ. split.
    + intros [[?|?]|(sg & ? & ?)]; [right; exists seg; split; [by left|lia]|by left|right; exists sg; split; [by right|done]].
    + intros [?|(sg & [->|?]%elem_of_cons & ?)]; [by left; right|left; left; lia|right; by exists sg].
Qed.

End image.

(** ** The initial stack *)

(** What the process reads at [a]. *)
Definition user_byte (ar : arch) (m : memory) (root a : Z) : option Z :=
  get_byte m <$> translate_user ar m root a.

Definition user_has (ar : arch) (m : memory) (root a : Z) (bs : list Z) : Prop :=
  ∀ i b, bs !! i = Some b → user_byte ar m root (a + Z.of_nat i) = Some b.

(** [c] with the bytes [bs] put at [a]. *)
Definition upd (c : Z → Z) (a : Z) (bs : list Z) (x : Z) : Z :=
  if decide (a <= x < a + Z.of_nat (length bs)) then bs !!! Z.to_nat (x - a) else c x.

Lemma upd_in (c : Z → Z) (a : Z) (bs : list Z) (i : nat) (b : Z) :
  bs !! i = Some b → upd c a bs (a + Z.of_nat i) = b.
Proof.
  intros Hb. pose proof (lookup_lt_Some _ _ _ Hb). unfold upd. rewrite decide_True by lia.
  replace (Z.to_nat _) with i by lia. by apply list_lookup_total_correct.
Qed.

Lemma upd_out (c : Z → Z) (a : Z) (bs : list Z) (x : Z) :
  x < a ∨ a + Z.of_nat (length bs) <= x → upd c a bs x = c x.
Proof. intros Hx. unfold upd. by rewrite decide_False by lia. Qed.

Lemma upd_app (c : Z → Z) (a : Z) (bs bs' : list Z) (x : Z) :
  upd (upd c a bs) (a + Z.of_nat (length bs)) bs' x = upd c a (bs ++ bs') x.
Proof.
  unfold upd. rewrite length_app. destruct (decide (a <= x < a + Z.of_nat (length bs))) as [Hin|Hin].
  - rewrite decide_False, decide_True by lia. by rewrite lookup_total_app_l by lia.
  - do 2 case_decide; try lia. rewrite lookup_total_app_r by lia. f_equal. lia.
Qed.

Lemma user_has_app (ar : arch) (m : memory) (root a : Z) (bs bs' : list Z) :
  user_has ar m root a (bs ++ bs') →
  user_has ar m root a bs ∧ user_has ar m root (a + Z.of_nat (length bs)) bs'.
Proof.
  intros Hh. split; intros i b Hb.
  - apply Hh. by apply lookup_app_l_Some.
  - rewrite <- Z.add_assoc, <- Nat2Z.inj_add. apply Hh. rewrite lookup_app_r by lia. by replace (_ - _)%nat with i by lia.
Qed.

(** The pointers to strings that follow each other. *)
Fixpoint str_ptrs (pos : Z) (strs : list (list Z)) : list Z :=
  match strs with
  | [] => []
  | str :: strs => pos :: str_ptrs (pos + Z.of_nat (length str)) strs
  end.

Lemma str_ptrs_length (strs : list (list Z)) : ∀ pos, length (str_ptrs pos strs) = length strs.
Proof. induction strs as [|str strs IH]; intros pos; cbn [str_ptrs length]; [done|by rewrite IH]. Qed.

Lemma str_ptrs_has (ar : arch) (m : memory) (root : Z) (strs : list (list Z)) : ∀ pos,
  user_has ar m root pos (mjoin strs) → Forall2 (user_has ar m root) (str_ptrs pos strs) strs.
Proof.
  induction strs as [|str strs IH]; intros pos Hh; cbn [str_ptrs]; [constructor|].
  apply user_has_app in Hh as [H1 H2]. constructor; [done|by apply IH].
Qed.

Lemma length_join (strs : list (list Z)) : length (mjoin strs) = sum_list_with length strs.
Proof. induction strs as [|str strs IH]; [done|]. cbn. rewrite length_app. by f_equal. Qed.

Section stack_ok.
Context (ar : arch) {A : Type} `{FrameSource A} (root : Z) (s0 : @State A) (L : gset Z).
Implicit Types (s : @State A) (c : Z → Z).

Lemma limit_bounds : 2 ^ 32 <= VA_LIMIT ar < 2 ^ 64.
Proof. by destruct ar. Qed.

(** Bytes inside a page, as written through [translate_user]. *)
Lemma holds_write s c (a : Z) (bs : list Z) :
  holds ar root s0 s L c → a / 4096 ∈ L → a mod 4096 + Z.of_nat (length bs) <= 4096 → Forall is_byte bs →
  ∃ p, translate_user ar (mem s) root a = Some p ∧
    holds ar root s0 (set_mem s (copy_bytes (mem s) p bs)) L (upd c a bs).
Proof.
  intros Hh Ha Hlen Hbs. destruct (h_in _ _ _ _ _ _ Hh _ Ha) as (f & B & _).
  pose proof (Z.mod_pos_bound a 4096 ltac:(lia)) as Hm. pose proof (B _ Hm) as Ht.
  assert (a / 4096 * 4096 + a mod 4096 = a) as Ea by (Z.to_euclidean_division_equations; lia).
  rewrite Ea in Ht. exists (f + a mod 4096). split; [done|].
  eapply holds_ext; [apply (holds_copy ar root s0 s L c _ f (a mod 4096) bs Hh Ha B); (done || lia)|done|].
  intros n i _ _. unfold upd. by rewrite Ea.
Qed.

Lemma write_byte_ok s c (a b : Z) :
  holds ar root s0 s L c → a / 4096 ∈ L → is_byte b →
  holds ar root s0 (set_mem s (write_byte_to_user ar (mem s) root a b)) L (upd c a [b]).
Proof.
  intros Hh Ha Hb. destruct (holds_write s c a [b] Hh Ha) as (p & Hp & Hh'); [|by apply Forall_singleton|].
  - cbn. pose proof (Z.mod_pos_bound a 4096 ltac:(lia)). lia.
  - unfold write_byte_to_user. by rewrite Hp.
Qed.

Lemma write_u64_ok s c (a w : Z) :
  holds ar root s0 s L c → a / 4096 ∈ L → a mod 8 = 0 →
  holds ar root s0 (set_mem s (write_u64_to_user ar (mem s) root a w)) L (upd c a (le_bytes 8 w)).
Proof.
  intros Hh Ha Hal. destruct (holds_write s c a (le_bytes 8 w) Hh Ha) as (p & Hp & Hh').
  - rewrite (le_bytes_length 8). Z.to_euclidean_division_equations; lia.
  - by apply le_bytes_byte.
  - unfold write_u64_to_user. by rewrite Hp.
Qed.

(** All of [lo, hi) lies in pages of [L]. *)
Definition spans (lo hi : Z) : Prop := 0 <= lo ∧ hi < 2 ^ 64 ∧ ∀ a, lo <= a < hi → a / 4096 ∈ L.

Lemma put_bytes_ok (bs : list Z) : ∀ s c (a : Z),
  holds ar root s0 s L c → spans a (a + Z.of_nat (length bs)) → Forall is_byte bs →
  holds ar root s0 (set_mem s (put_bytes ar (mem s) root a bs)) L (upd c a bs).
Proof.
  induction bs as [|b bs IH]; intros s c a Hh (H0 & H64 & Hin) Hbs; cbn [put_bytes length] in *.
  { eapply holds_ext; [by destruct s|done|]. intros n i _ _. by rewrite upd_out by (cbn; lia). }
  apply Forall_cons in Hbs as [Hb Hbs]. rewrite u64_small by lia.
  assert (holds ar root s0 (set_mem s (write_byte_to_user ar (mem s) root a b)) L (upd c a [b])) as H1
    by (apply write_byte_ok; [done|apply Hin; lia|done]).
  eapply holds_ext; [apply (IH _ _ (a + 1) H1); [|done]|done|].
  - split; [lia|]. split; [lia|]. intros x Hx. apply Hin. lia.
  - intros n i _ _. symmetry. apply (upd_app c a [b] bs).
Qed.

Lemma put_words_ok (ws : list Z) : ∀ s c (a : Z),
  holds ar root s0 s L c → spans a (a + 8 * Z.of_nat (length ws)) → a mod 8 = 0 →
  holds ar root s0 (set_mem s (put_words ar (mem s) root a ws)) L (upd c a (mjoin (le_bytes 8 <$> ws))).
Proof.
  induction ws as [|w ws IH]; intros s c a Hh (H0 & H64 & Hin) Hal; cbn [put_words length] in *.
  { eapply holds_ext; [by destruct s|done|]. intros n i _ _. by rewrite upd_out by (cbn; lia). }
  rewrite u64_small by lia.
  assert (holds ar root s0 (set_mem s (write_u64_to_user ar (mem s) root a w)) L (upd c a (le_bytes 8 w))) as H1
    by (apply write_u64_ok; [done|apply Hin; lia|done]).
  eapply holds_ext; [apply (IH _ _ (a + 8) H1)|done|].
  - split; [lia|]. split; [lia|]. intros x Hx. apply Hin. lia.
  - Z.to_euclidean_division_equations; lia.
  - intros n i _ _. cbn [fmap list_fmap mjoin list_join]. rewrite <- upd_app. by rewrite (le_bytes_length 8).
Qed.

Lemma put_bytes_app (bs bs' : list Z) : ∀ (m : memory) (a : Z),
  0 <= a → a + Z.of_nat (length bs) < 2 ^ 64 →
  put_bytes ar m root a (bs ++ bs') = put_bytes ar (put_bytes ar m root a bs) root (a + Z.of_nat (length bs)) bs'.
Proof.
  induction bs as [|b bs IH]; intros m a Ha H64; cbn [put_bytes app length] in *; [by rewrite Z.add_0_r|].
  rewrite u64_small by lia. rewrite IH by lia. f_equal. lia.
Qed.

Lemma put_strings_eq (strs : list (list Z)) : ∀ (m : memory) (a : Z),
  0 <= a → a + Z.of_nat (length (mjoin strs)) < 2 ^ 64 →
  put_strings ar m root a strs =
    (put_bytes ar m root a (mjoin strs), str_ptrs a strs, a + Z.of_nat (length (mjoin strs))).
Proof.
  induction strs as [|str strs IH]; intros m a Ha H64; cbn [put_strings str_ptrs].
  { by rewrite Z.add_0_r. }
  change (mjoin (str :: strs)) with (str ++ mjoin strs) in *. rewrite length_app in *.
  rewrite u64_small by lia. rewrite IH by lia. rewrite put_bytes_app by lia. f_equal. lia.
Qed.

Lemma holds_user_has s c (a : Z) (bs : list Z) :
  holds ar root s0 s L c → spans a (a + Z.of_nat (length bs)) →
  (∀ i b, bs !! i = Some b → c (a + Z.of_nat i) = b) → user_has ar (mem s) root a bs.
Proof.
  intros Hh (H0 & H64 & Hin) Hc i b Hb. pose proof (lookup_lt_Some _ _ _ Hb).
  destruct (h_in _ _ _ _ _ _ Hh _ (Hin (a + Z.of_nat i) ltac:(lia))) as (f & B & _ & _ & _ & Hg).
  set (x := a + Z.of_nat i) in *. pose proof (Z.mod_pos_bound x 4096 ltac:(lia)) as Hm.
  assert (x / 4096 * 4096 + x mod 4096 = x) as Ex by (Z.to_euclidean_division_equations; lia).
  specialize (B _ Hm). specialize (Hg _ Hm). rewrite Ex in B, Hg. unfold user_byte. rewrite B. cbn.
  rewrite Hg. f_equal. by apply Hc.
Qed.

End stack_ok.

(** The page [k] below the top of the stack. *)
Definition stack_page (k : nat) : Z := 0x80000 - Z.of_nat k.

Section map_stack_ok.
Context (ar : arch) {A : Type} `{FrameSource A} (root : Z) (s0 : @State A).

Lemma map_stack_ok (n : nat) : ∀ (i : nat) (s : @State A) (L : gset Z) (c : Z → Z),
  holds ar root s0 s L c → (i + n <= 512)%nat →
  (∀ k, (i <= k < i + n)%nat → (stack_page k ∉ L) ∧ fs_used (frames s0) (stack_page k * 4096)) →
  (n * S (TOP_LEVEL ar) <= fs_free (frames s))%nat →
  ∃ s' L' c', map_stack ar n i s root = Ret (Ok tt, s') ∧ holds ar root s0 s' L' c' ∧
    ∀ p, p ∈ L' ↔ p ∈ L ∨ stack_page (i + n) < p <= stack_page i.
Proof.
  induction n as [|n IH]; intros i s L c Hh Hi Hk Hfree; cbn [map_stack].
  { exists s, L, c. split; [done|]. split; [done|]. intros p. split; [by left|intros [?|?]; [done|]].
    unfold stack_page in *. lia. }
  assert (page_down (USER_STACK_TOP -! Z.of_nat i *! page_size) = stack_page i * 4096) as Hv.
  { unfold USER_STACK_TOP, page_size, stack_page. rewrite (u64_small (Z.of_nat i * 4096)), u64_small by lia.
    rewrite page_down_eq by (unfold is_u64; lia). Z.to_euclidean_division_equations; lia. }
  pose proof (limit_bounds ar) as HL. destruct (Hk i ltac:(lia)) as [Hn Hu].
  destruct (URW_ok ar) as [Hfl Hbit]. cbv zeta. rewrite Hv.
  destruct (map_placed ar s root (stack_page i * 4096) (URW ar) (h_good _ _ _ _ _ _ Hh)) as (f & fa & s1 & Ha & Hm & P);
    [lia|unfold stack_page; lia|done|done|].
  rewrite Ha. cbn [exec_bind]. unfold map_user. rewrite Hm. cbn [exec_bind].
  set (c1 := fun a => if decide (a / 4096 = stack_page i) then get_byte (mem s1) (f + a mod 4096) else c a).
  assert (holds ar root s0 s1 ({[stack_page i]} ∪ L) c1) as Hh1.
  { apply (holds_placed ar root s0 s s1 L c1 _ f); try done; [|unfold stack_page; lia|unfold stack_page; lia|].
    - eapply holds_ext; [exact Hh|done|]. intros p j Hp Hj. unfold c1. rewrite decide_False; [done|].
      replace ((p * 4096 + j) / 4096) with p by (Z.to_euclidean_division_equations; lia). by intros ->.
    - intros j Hj. unfold c1. rewrite decide_True by (Z.to_euclidean_division_equations; lia).
      do 2 f_equal. Z.to_euclidean_division_equations; lia. }
  pose proof (pl_free _ _ _ _ _ _ P) as Hc.
  destruct (IH (S i) s1 _ _ Hh1) as (s' & L' & c' & E & Hh' & HL'); [lia| |lia|].
  { intros k Hk'. destruct (Hk k ltac:(lia)). split; [|done]. rewrite not_elem_of_union, elem_of_singleton.
    split; [unfold stack_page; lia|done]. }
  exists s', L', c'. split; [done|]. split; [done|]. intros p. rewrite HL', elem_of_union, elem_of_singleton.
  unfold stack_page. destruct (decide (p ∈ L)); [tauto|]. split; [intros [[?|?]|?]|intros [?|?]]; (done || lia).
Qed.

End map_stack_ok.

(** ** Claims on loading *)

(** Where the bytes come from: the file in memory, or a reader. *)
Inductive source := InMemory (b : Buffer) | Reader (read_fn : Z → Z → option (list Z)).

Definition fetch_of (src : source) : Segment → Z → Z → exec (option (list Z)) :=
  match src with InMemory b => fetch_slice b | Reader rd => fetch_reader rd end.
Definition before_of (src : source) : Segment → exec unit :=
  match src with InMemory b => slice_checked b | Reader _ => fun _ => Ret tt end.

(** The source gives the bytes of [file] for the segment. *)
Definition source_has (src : source) (file : Z → Z) (seg : Segment) : Prop :=
  0 <= offset seg ∧ offset seg + file_size seg < 2 ^ 64 ∧
  match src with
  | InMemory b => offset seg + file_size seg <= len b ∧ ∀ i, 0 <= i < len b → file i = raw b i
  | Reader rd => ∀ off n, offset seg <= off → 0 < n → off + n <= offset seg + file_size seg →
      rd off n = Some (file_bytes file off n)
  end.

(** The segment has an address range the page table covers; each of its pages is still
    unmapped or mapped to its own address, and no free frame has its address. *)
Definition seg_fits (ar : arch) {A : Type} `{FrameSource A} (root : Z) (s : @State A) (seg : Segment) : Prop :=
  (0 <= vaddr seg ∧ 0 <= file_size seg <= mem_size seg ∧ vaddr seg + mem_size seg + 4095 < VA_LIMIT ar) ∧
  ∀ n, vaddr seg / 4096 <= n < (vaddr seg + mem_size seg + 4095) / 4096 →
    fs_used (frames s) (n * 4096) ∧
    (translate_user ar (mem s) root (n * 4096) = None ∨ translate_user ar (mem s) root (n * 4096) = Some (n * 4096)).

Lemma source_ok (ar : arch) {A : Type} `{FrameSource A} (root : Z) (s : @State A) (src : source) (file : Z → Z)
    (seg : Segment) :
  source_has src file seg → seg_fits ar root s seg → seg_ok ar root s file (fetch_of src) (before_of src) seg.
Proof.
  intros (Ho & H64 & Hsrc) [Hr Hp]. split; [done| | |done].
  - destruct src as [b|rd]; [|done]. destruct Hsrc as [Hl _]. cbn [before_of]. unfold slice_checked.
    rewrite u64_small by lia. rewrite (proj2 (Z.leb_le _ _)), (proj2 (Z.leb_le _ _)) by lia. done.
  - intros off n Hoff Hn Hlim. destruct src as [b|rd]; cbn [fetch_of].
    + destruct Hsrc as [Hl Hf]. unfold fetch_slice. rewrite u64_small by lia.
      rewrite (proj2 (Z.leb_le _ _)), (proj2 (Z.leb_le _ _)) by lia. cbn [andb]. do 2 f_equal.
      unfold file_bytes. apply list_fmap_ext. intros i x Hx. apply lookup_seq in Hx as [-> Hi]. symmetry. apply Hf. lia.
    + unfold fetch_reader. rewrite u64_small by lia. rewrite Hsrc by lia. cbn. do 2 f_equal.
      rewrite take_app_le; [|unfold file_bytes; rewrite length_fmap, length_seq; lia].
      apply take_ge. unfold file_bytes. rewrite length_fmap, length_seq. lia.
Qed.

(** The bytes of the image: the last segment with file bytes for an address counts. *)
Definition image (file : Z → Z) (segs : list Segment) : Z → Z :=
  foldl (fun c seg => overlay file seg c) (fun _ => 0) segs.

Definition in_image (segs : list Segment) (a : Z) : Prop :=
  ∃ seg, seg ∈ segs ∧ vaddr seg / 4096 <= a / 4096 < (vaddr seg + mem_size seg + 4095) / 4096.

(** C23: Loading an image, from memory or through a reader that delivers the
    file's bytes.  Suppose that the segments lie in the address range of the page
    table; that each of their pages is unmapped or identity mapped before; that
    no free frame has the address of one of these pages; and that for every page
    of every segment there are as many free frames as the table has levels.  Then
    loading succeeds: every address of a page of a segment translates to memory
    that holds the byte of the file that the last segment covering it names, or
    zero, pages shared by segments included; no two addresses of the image share
    memory, all other addresses translate as before, and no page of data changes.
    The condition on the free frames is needed: a new frame at the address of its
    page is later taken for an identity mapping. *)
Theorem elf_image_loaded (ar : arch) {A : Type} `{FrameSource A} (s : @State A) (root : Z) (src : source)
    (file : Z → Z) (segs : list Segment) :
  good ar s root → (∀ i, is_byte (file i)) → Forall (source_has src file) segs → Forall (seg_fits ar root s) segs →
  (sum_list_with (fun seg => pages (page_start seg) (page_end seg)) segs * S (TOP_LEVEL ar) <= fs_free (frames s))%nat →
  ∃ s' max_vaddr, load_segments ar (fetch_of src) (before_of src) segs s root 0 = Ret (Ok max_vaddr, s') ∧
    good ar s' root ∧
    (∀ a, in_image segs a → ∃ p, translate_user ar (mem s') root a = Some p ∧ get_byte (mem s') p = image file segs a) ∧
    (∀ a a' p, in_image segs a → in_image segs a' → translate_user ar (mem s') root a = Some p →
       translate_user ar (mem s') root a' = Some p → a = a') ∧
    (∀ a, 0 <= a < VA_LIMIT ar → ¬ in_image segs a →
       translate_user ar (mem s') root a = translate_user ar (mem s) root a) ∧
    ∀ g, data_frame ar s root g → data_frame ar s' root g ∧
      ∀ j, 0 <= j < 512 → mem s' (entry_addr g j) = mem s (entry_addr g j).
Proof.
  intros Hg Hb Hsrc Hfit Hfree.
  assert (Forall (seg_ok ar root s file (fetch_of src) (before_of src)) segs) as Hok.
  { rewrite Forall_forall in *. intros seg Hin. apply source_ok; auto. }
  destruct (load_segments_ok ar root s file Hb (fetch_of src) (before_of src) segs s ∅ (fun _ => 0) 0 Hok
    (holds_start ar root s s eq_refl Hg) ltac:(done) Hfree) as (s' & L & mv & Hld & Hh & HL).
  assert (∀ a, in_image segs a ↔ a / 4096 ∈ L) as Hin by (intros a; rewrite HL; set_solver).
  assert (∀ a, in_image segs a → ∃ f, f mod 4096 = 0 ∧ backed ar root s' (a / 4096) f ∧
    translate_user ar (mem s') root a = Some (f + a mod 4096) ∧
    get_byte (mem s') (f + a mod 4096) = image file segs a) as Hat.
  { intros a Ha%Hin. destruct (h_in _ _ _ _ _ _ Hh _ Ha) as (f & B & _ & (_ & Hal & _) & _ & Hc).
    pose proof (Z.mod_pos_bound a 4096 ltac:(lia)) as Hm.
    assert (a / 4096 * 4096 + a mod 4096 = a) as Ea by (Z.to_euclidean_division_equations; lia).
    exists f. split; [done|]. split; [done|]. specialize (B _ Hm). specialize (Hc _ Hm). by rewrite Ea in B, Hc. }
  exists s', mv. split; [done|]. split; [apply Hh|]. split; [|split; [|split]].
  - intros a Ha. destruct (Hat a Ha) as (f & _ & _ & Ht & Hgb). by eexists.
  - intros a a' p Ha Ha' Ht Ht'. destruct (Hat a Ha) as (f & Hf & B & E & _), (Hat a' Ha') as (f' & Hf' & B' & E' & _).
    rewrite Ht in E. rewrite Ht' in E'. injection E as E. injection E' as E'.
    assert (f = f' ∧ a mod 4096 = a' mod 4096) as [-> Em] by (Z.to_euclidean_division_equations; lia).
    pose proof (h_own _ _ _ _ _ _ Hh _ _ _ (proj1 (Hin a) Ha) (proj1 (Hin a') Ha') B B') as En.
    Z.to_euclidean_division_equations; lia.
  - intros a Hr Ha. apply (h_out _ _ _ _ _ _ Hh); [done|]. by rewrite <- Hin.
  - apply Hh.
Qed.

(** ** The stack of a new process *)

(** The bytes the strings and the table below them take, alignment included. *)
Definition stack_need (argv : list (list Z)) (envp : list (list Z * list Z)) (auxv : list (Z * Z)) : Z :=
  16 + Z.of_nat (length (mjoin (arg_str <$> argv)) + length (mjoin (env_str <$> envp))) +
  8 * Z.of_nat (length argv + length envp + 3) + 16 * Z.of_nat (length auxv) + 15.

Lemma strings_bytes (argv : list (list Z)) (envp : list (list Z * list Z)) :
  Forall (Forall is_byte) argv → Forall (fun kv => Forall is_byte kv.1 ∧ Forall is_byte kv.2) envp →
  Forall is_byte (mjoin (arg_str <$> argv)) ∧ Forall is_byte (mjoin (env_str <$> envp)).
Proof.
  intros Ha He. assert (is_byte 0 ∧ is_byte 61) as [B0 B61] by (unfold is_byte; lia).
  split; apply Forall_join, Forall_fmap; (eapply Forall_impl; [eassumption|]); cbn.
  - intros str Hs. unfold arg_str. case_decide; [done|]. apply Forall_app. split; [done|by apply Forall_singleton].
  - intros [k v] [Hk Hv]. unfold env_str. cbn in *.
    apply Forall_app. split; [done|]. apply Forall_cons. split; [done|]. apply Forall_app.
    split; [done|by apply Forall_singleton].
Qed.

Lemma length_stack_words (argv_ptrs envp_ptrs : list Z) (auxv : list (Z * Z)) :
  length (stack_words argv_ptrs envp_ptrs auxv) = (length argv_ptrs + length envp_ptrs + 3 + 2 * length auxv)%nat.
Proof.
  unfold stack_words. rewrite !length_app. cbn [length]. rewrite length_join.
  assert (sum_list_with length ((fun '(t, v) => [t; v]) <$> auxv) = 2 * length auxv)%nat as ->; [|lia].
  induction auxv as [|[t v] auxv IH]; [done|]. cbn in *. lia.
Qed.

Lemma length_words (ws : list Z) : length (mjoin (le_bytes 8 <$> ws)) = (8 * length ws)%nat.
Proof.
  induction ws as [|w ws IH]; [done|]. cbn [fmap list_fmap]. change (mjoin (?x :: ?y)) with (x ++ mjoin y).
  rewrite length_app, (le_bytes_length 8). cbn [fmap list_fmap length] in *. lia.
Qed.

Definition RANDOM_BYTES : list Z := le_bytes 8 0x123456789ABCDEF0 ++ le_bytes 8 0xDEADBEEFFEEDFACE.

Section build.
Context (ar : arch) {A : Type} `{FrameSource A} (root : Z) (s0 : @State A) (L : gset Z).

Lemma build_stack_ok (s : @State A) (c : Z → Z) (argv : list (list Z)) (envp : list (list Z * list Z))
    (auxv : list (Z * Z)) :
  holds ar root s0 s L c → spans L (USER_STACK_TOP - 511 * 4096) (USER_STACK_TOP + 4096) →
  Forall (Forall is_byte) argv → Forall (fun kv => Forall is_byte kv.1 ∧ Forall is_byte kv.2) envp →
  stack_need argv envp auxv <= 511 * 4096 →
  let arg_bytes := mjoin (arg_str <$> argv) in
  let env_bytes := mjoin (env_str <$> envp) in
  let start := RANDOM_ADDR - Z.of_nat (length arg_bytes + length env_bytes) in
  let words := stack_words (str_ptrs start (arg_str <$> argv))
                 (str_ptrs (start + Z.of_nat (length arg_bytes)) (env_str <$> envp)) auxv in
  ∃ m rsp, build_stack ar (mem s) root argv envp auxv = (m, rsp) ∧ rsp mod 16 = 0 ∧
    USER_STACK_TOP - stack_need argv envp auxv <= rsp ∧ rsp + 8 * Z.of_nat (length words) <= start ∧
    holds ar root s0 (set_mem s m) L
      (upd (upd (upd c RANDOM_ADDR RANDOM_BYTES) start (arg_bytes ++ env_bytes)) rsp (mjoin (le_bytes 8 <$> words))).
Proof.
  intros Hh (Hlo & Hhi & Hin) Ha He Hneed arg_bytes env_bytes start words.
  destruct (strings_bytes argv envp Ha He) as [Hab Heb]. fold arg_bytes in Hab. fold env_bytes in Heb.
  unfold stack_need in *. fold arg_bytes env_bytes in Hneed |- *.
  unfold build_stack. unfold RANDOM_ADDR, USER_STACK_TOP in *.
  set (m1 := write_u64_to_user _ (mem s) _ _ _). rewrite (u64_small (_ - 16 + 8)) by lia.
  set (m2 := write_u64_to_user _ m1 _ _ _).
  assert (holds ar root s0 (set_mem s m2) L (upd c (0x80000000 - 16) RANDOM_BYTES)) as H2.
  { assert (holds ar root s0 (set_mem s m1) L (upd c (0x80000000 - 16) (le_bytes 8 0x123456789ABCDEF0))) as H1
      by (apply write_u64_ok; [done|apply Hin; lia|done]).
    eapply holds_ext; [apply (write_u64_ok ar root s0 L _ _ (0x80000000 - 16 + 8) 0xDEADBEEFFEEDFACE H1)|done|];
      [apply Hin; lia|done|].
    intros n i _ _. unfold RANDOM_BYTES. rewrite <- upd_app. by rewrite (le_bytes_length 8). }
  assert (total_len (arg_str <$> argv) = Z.of_nat (length arg_bytes)) as ->.
  { unfold total_len. rewrite <- length_join. apply u64_small. fold arg_bytes. lia. }
  assert (total_len (env_str <$> envp) = Z.of_nat (length env_bytes)) as ->.
  { unfold total_len. rewrite <- length_join. apply u64_small. fold env_bytes. lia. }
  rewrite (u64_small (Z.of_nat (length arg_bytes) + _)), u64_small by lia.
  replace (0x80000000 - 16 - (Z.of_nat (length arg_bytes) + Z.of_nat (length env_bytes))) with start by (subst start; lia).
  rewrite put_strings_eq by (fold arg_bytes; lia). fold arg_bytes.
  rewrite put_strings_eq by (fold env_bytes; lia). fold env_bytes. cbv zeta.
  rewrite <- put_bytes_app by lia. set (m3 := put_bytes _ _ _ _ _).
  assert (holds ar root s0 (set_mem s m3) L (upd (upd c (0x80000000 - 16) RANDOM_BYTES) start (arg_bytes ++ env_bytes))) as H3.
  { apply (put_bytes_ok ar root s0 L _ (set_mem s m2) _ start H2); [|by apply Forall_app].
    rewrite length_app. split; [lia|]. split; [lia|]. intros a Hx. apply Hin. lia. }
  rewrite !str_ptrs_length, !length_fmap.
  rewrite (u64_small ((Z.of_nat (length argv) + 1) * 8)), (u64_small ((Z.of_nat (length envp) + 1) * 8)),
    (u64_small (Z.of_nat (length auxv) * 16)) by lia.
  rewrite (u64_small (8 + _)), (u64_small (8 + _ + _)), (u64_small (8 + _ + _ + _)), (u64_small (start - _)) by lia.
  set (x := start - _).
  assert (Z.land x (not64 0xF) = x / 16 * 16) as -> by (apply (land_not_ones x 4); subst x; unfold is_u64; lia).
  assert (length words = (length argv + length envp + 3 + 2 * length auxv)%nat) as Hw
    by (subst words; by rewrite length_stack_words, !str_ptrs_length, !length_fmap).
  eexists _, (x / 16 * 16). split; [reflexivity|].
  assert (x - 15 <= x / 16 * 16 <= x) by (Z.to_euclidean_division_equations; lia).
  split; [Z.to_euclidean_division_equations; lia|]. split; [lia|]. split; [lia|].
  apply (put_words_ok ar root s0 L _ (set_mem s m3) _ _ H3).
  - fold words. split; [lia|]. split; [lia|]. intros a Hx. apply Hin. lia.
  - Z.to_euclidean_division_equations; lia.
Qed.

End build.

(** C24: The initial stack. With frames left and arguments that fit below the top,
    mapping and filling the stack succeeds. The stack pointer is 16-aligned; from it
    upwards the process reads argc, the argv and envp pointers, each list ended by a
    zero, and the auxiliary vector; each pointer leads to its string, and the random
    bytes are at their address. Nothing outside the stack pages changes. *)
Theorem initial_stack_layout (ar : arch) {A : Type} `{FrameSource A} (s : @State A) (root : Z)
    (argv : list (list Z)) (envp : list (list Z * list Z)) (auxv : list (Z * Z)) :
  good ar s root → (USER_STACK_PAGES * S (TOP_LEVEL ar) <= fs_free (frames s))%nat →
  (∀ k, (k < USER_STACK_PAGES)%nat → fs_used (frames s) (stack_page k * 4096)) →
  Forall (Forall is_byte) argv → Forall (fun kv => Forall is_byte kv.1 ∧ Forall is_byte kv.2) envp →
  stack_need argv envp auxv <= 511 * 4096 →
  ∃ s1 m rsp argv_ptrs envp_ptrs, map_stack ar USER_STACK_PAGES 0 s root = Ret (Ok tt, s1) ∧
    build_stack ar (mem s1) root argv envp auxv = (m, rsp) ∧ rsp mod 16 = 0 ∧ rsp < USER_STACK_TOP ∧
    user_has ar m root rsp (mjoin (le_bytes 8 <$> stack_words argv_ptrs envp_ptrs auxv)) ∧
    Forall2 (user_has ar m root) argv_ptrs (arg_str <$> argv) ∧
    Forall2 (user_has ar m root) envp_ptrs (env_str <$> envp) ∧
    user_has ar m root RANDOM_ADDR RANDOM_BYTES ∧
    (∀ a, 0 <= a < VA_LIMIT ar → ¬ USER_STACK_TOP - 511 * 4096 <= a < USER_STACK_TOP + 4096 →
       translate_user ar m root a = translate_user ar (mem s) root a) ∧
    ∀ g, data_frame ar s root g → ∀ j, 0 <= j < 512 → m (entry_addr g j) = mem s (entry_addr g j).
Proof.
  intros Hg Hfree Hu Ha He Hneed.
  destruct (map_stack_ok ar root s USER_STACK_PAGES 0 s ∅ (fun _ => 0) (holds_start ar root s s eq_refl Hg))
    as (s1 & L & c & E1 & H1 & HL); [unfold USER_STACK_PAGES; lia| |done|].
  { intros k Hk. split; [set_solver|]. apply Hu. lia. }
  assert (∀ p, p ∈ L ↔ 0x80000 - 512 < p <= 0x80000) as HL'.
  { intros p. rewrite HL. change (stack_page (0 + USER_STACK_PAGES)) with (0x80000 - 512). change (stack_page 0) with 0x80000.
    clear. split; [intros [[]%elem_of_empty|?]; done|by right]. }
  assert (spans L (USER_STACK_TOP - 511 * 4096) (USER_STACK_TOP + 4096)) as Hsp.
  { unfold USER_STACK_TOP. split; [lia|]. split; [lia|]. intros a Hx. apply HL'. Z.to_euclidean_division_equations; lia. }
  destruct (build_stack_ok ar root s L s1 c argv envp auxv H1 Hsp Ha He Hneed) as (m & rsp & E2 & Hal & Hlo & Hhi & H2).
  set (arg_bytes := mjoin (arg_str <$> argv)) in *. set (env_bytes := mjoin (env_str <$> envp)) in *.
  set (start := RANDOM_ADDR - _) in *. set (words := stack_words _ _ _) in *.
  assert (stack_need argv envp auxv > 0) by (unfold stack_need; lia).
  assert (∀ a bs, rsp <= a → a + Z.of_nat (length bs) <= USER_STACK_TOP →
    (∀ i b, bs !! i = Some b → upd (upd (upd c RANDOM_ADDR RANDOM_BYTES) start (arg_bytes ++ env_bytes)) rsp
       (mjoin (le_bytes 8 <$> words)) (a + Z.of_nat i) = b) → user_has ar m root a bs) as Hhas.
  { intros a bs Hlo' Hhi' Hc. apply (holds_user_has ar root s L (set_mem s1 m) _ a bs H2); [|exact Hc].
    destruct Hsp as (? & ? & Hin). split; [lia|]. split; [lia|]. intros x Hx. apply Hin. lia. }
  assert (user_has ar m root start (arg_bytes ++ env_bytes)) as Hstr.
  { apply Hhas; [lia|rewrite length_app; unfold start, RANDOM_ADDR; lia|]. intros i b Hb.
    rewrite upd_out by (rewrite length_words; lia). by apply upd_in. }
  apply user_has_app in Hstr as [Hargs Henvs].
  exists s1, m, rsp, (str_ptrs start (arg_str <$> argv)), (str_ptrs (start + Z.of_nat (length arg_bytes)) (env_str <$> envp)).
  fold words. split; [done|]. split; [done|]. split; [done|].
  split; [unfold start, RANDOM_ADDR in Hhi; lia|]. split.
  { apply Hhas; [lia|rewrite length_words; unfold start, RANDOM_ADDR in Hhi; lia|]. intros i b Hb. by apply upd_in. }
  split; [by apply str_ptrs_has|]. split; [by apply str_ptrs_has|]. split; [|split].
  - apply Hhas; [unfold start in Hhi; lia|done|]. intros i b Hb. pose proof (lookup_lt_Some _ _ _ Hb).
    rewrite upd_out by (rewrite length_words; unfold start in Hhi; lia).
    rewrite upd_out by (rewrite length_app; unfold start; lia). by apply upd_in.
  - intros a Hr Hout. apply (h_out _ _ _ _ _ _ H2); [done|]. rewrite HL'. unfold USER_STACK_TOP in Hout.
    Z.to_euclidean_division_equations; lia.
  - intros g Dg. apply (h_keeps _ _ _ _ _ _ H2 g Dg).
Qed.

(** ** Examples *)

(** An allocator with frames from 2 MiB to 12 MiB. *)
Definition big : FrameAllocator := new X86_64 0xA00000 0x200001.

Lemma big_inv : pmm_inv big ∧ fs_free big = 2558%nat.
Proof.
  split; [|vm_compute; reflexivity]. split; [|by vm_compute].
  split; [vm_compute; intuition discriminate..|]. apply Forall_replicate. unfold is_u64. lia.
Qed.

Lemma big_used (g : Z) : 0x1000000 <= g → fs_used (frames (pt (demo_vm big))) g.
Proof.
  intros Hg. destruct big_inv as [Hi Hc].
  destruct (zeroed_ok (mkState (fun _ => 0) big)) as (f & fa & Ez & _ & _ & _ & _ & HU & _); [done|cbn [frames]; lia|].
  unfold demo_vm, booted, create_user_page_table. cbn [pt]. rewrite Ez. cbn [exec_bind snd frames]. apply HU. right.
  intros (i & Hin & E). apply elem_of_free_frames in Hin as [Hr _].
  assert (start big = 0x202000 ∧ total_frames big = 2558) as [Es Et] by (split; reflexivity).
  unfold frame_addr, PAGE_SIZE in E. cbn [frames] in Hr, E. lia.
Qed.

Lemma big_good : good X86_64 (pt (demo_vm big)) (user_pt X86_64 (demo_vm big)) ∧
  fs_free (frames (pt (demo_vm big))) = 2557%nat.
Proof.
  destruct big_inv as [Hi Hc]. destruct (demo_good X86_64 big Hi ltac:(lia)) as (_ & G & F & _). split; [done|lia].
Qed.

(** Two segments that share the page at 0x1001000. *)
Definition demo_segs : list Segment := [mkSegment 0x1000000 0 0x1800 0x1800 5; mkSegment 0x1001800 0x1800 0x10 0x2000 6].

Lemma elf_image_loaded_witness :
  ∃ s' mv, load_segments X86_64 (fetch_of (Reader (fun off n => Some (file_bytes (fun i => i mod 251) off n))))
      (before_of (Reader (fun off n => Some (file_bytes (fun i => i mod 251) off n)))) demo_segs
      (pt (demo_vm big)) (user_pt X86_64 (demo_vm big)) 0 = Ret (Ok mv, s') ∧
    ∃ p, translate_user X86_64 (mem s') (user_pt X86_64 (demo_vm big)) 0x1001805 = Some p ∧
      get_byte (mem s') p = 0x1805 mod 251.
Proof.
  destruct big_good as [G F].
  destruct (elf_image_loaded X86_64 (pt (demo_vm big)) (user_pt X86_64 (demo_vm big))
    (Reader (fun off n => Some (file_bytes (fun i => i mod 251) off n))) (fun i => i mod 251) demo_segs G)
    as (s' & mv & E & _ & Hat & _).
  - intros i. unfold is_byte. pose proof (Z.mod_pos_bound i 251). lia.
  - repeat constructor; cbn; lia.
  - assert (∀ n, 0x1000 <= n → fs_used (frames (pt (demo_vm big))) (n * 4096) ∧
      (translate_user X86_64 (mem (pt (demo_vm big))) (user_pt X86_64 (demo_vm big)) (n * 4096) = None ∨
       translate_user X86_64 (mem (pt (demo_vm big))) (user_pt X86_64 (demo_vm big)) (n * 4096) = Some (n * 4096))) as Hp.
    { intros n Hn. split; [apply big_used; lia|left]. destruct big_inv as [Hi Hc]. apply demo_unmapped; [done|lia]. }
    unfold demo_segs. apply Forall_cons. split; [|apply Forall_singleton]; (split; [vm_compute; intuition discriminate|]);
      intros n Hn; apply Hp; (etransitivity; [|exact (proj1 Hn)]); vm_compute; discriminate.
  - rewrite F. apply Nat.leb_le. vm_compute. reflexivity.
  - exists s', mv. split; [exact E|]. destruct (Hat 0x1001805) as (p & Ht & Hb).
    { exists (mkSegment 0x1001800 0x1800 0x10 0x2000 6). split; [right; left|].
      split; [vm_compute; discriminate|vm_compute; reflexivity]. }
    exists p. split; [exact Ht|]. rewrite Hb. vm_compute. reflexivity.
Defined.

Lemma initial_stack_layout_witness :
  ∃ s1 m rsp, map_stack X86_64 USER_STACK_PAGES 0 (pt (demo_vm big)) (user_pt X86_64 (demo_vm big)) = Ret (Ok tt, s1) ∧
    build_stack X86_64 (mem s1) (user_pt X86_64 (demo_vm big)) [[108; 115]; [45; 108]] [([72], [47])] [(6, 4096); (0, 0)]
      = (m, rsp) ∧ rsp mod 16 = 0.
Proof.
  destruct big_good as [G F].
  destruct (initial_stack_layout X86_64 (pt (demo_vm big)) (user_pt X86_64 (demo_vm big))
    [[108; 115]; [45; 108]] [([72], [47])] [(6, 4096); (0, 0)] G) as (s1 & m & rsp & _ & _ & E1 & E2 & Hal & _).
  - rewrite F. apply Nat.leb_le. vm_compute. reflexivity.
  - intros k Hk. apply big_used. unfold stack_page, USER_STACK_PAGES in *. lia.
  - clear. repeat first [apply Forall_nil_2|apply Forall_cons_2|split]; lia.
  - clear. repeat first [apply Forall_nil_2|apply Forall_cons_2|split]; cbn; lia.
  - vm_compute. discriminate.
  - exists s1, m, rsp. split; [exact E1|]. split; [exact E2|exact Hal].
Defined.

End Loader.
