(* ===== verification/Sync.v ===== *)
(** The locks of kernel/src/sync: [SpinLock], [IntSpinLock], [BlockingMutex]
    and [YieldMutex].

    A lock is a few shared atomics and, for each task, the point of the code the
    task has reached; each atomic access is one step. What a lock
    promises is the class [Lock]: at most one task holds a guard. Critical
    sections are shown to be atomic against that class, and each lock is an
    instance. The guarantee of [BlockingMutex] to wake its waiters and the use
    of [IntSpinLock] against interrupt handlers are treated on their own. *)

From stdpp Require Import base numbers list gmap functions.
From Stdlib Require Import ZArith Lia.
From S2P Require Import Prelude.

(** ** What a lock promises *)

(** Tasks are numbered by their process index. *)
Class Lock := {
  lk_state : Type;
  lk_pc : Type;
  lk_new : lk_state;
  lk_idle : lk_pc;
  lk_guard : lk_pc → Prop;
  lk_step : nat → lk_state * (nat → lk_pc) → lk_state * (nat → lk_pc) → Prop;
  lk_idle_guard : ¬ lk_guard lk_idle;
  lk_frame : ∀ i j c c', lk_step i c c' → i ≠ j → lk_guard (c.2 j) → lk_guard (c'.2 j);
  lk_excl : ∀ c, reachable (fun c => c = (lk_new, fun _ => lk_idle)) (fun c c' => ∃ i, lk_step i c c') c →
    ∀ i j, lk_guard (c.2 i) → lk_guard (c.2 j) → i = j
}.

Module Sync.

(** [AtomicBool::swap(true)]: the old and the new value. *)
Definition swap_true (l : bool) : bool * bool := (l, true).

(** ** SpinLock and YieldMutex *)

(** In the loop of [lock], or outside; [SGuard]: the guard is alive. *)
Inductive spin_pc := SIdle | SLoop | SGuard.

(** One round of [while self.locked.swap(true)]. *)
Definition spin_lock (l : bool) : bool * spin_pc :=
  let '(old, l) := swap_true l in (l, if old then SLoop else SGuard).

(** [try_lock]: [None] is [SIdle]. *)
Definition spin_try_lock (l : bool) : bool * spin_pc :=
  let '(old, l) := swap_true l in (l, if old then SIdle else SGuard).

(** One round of the loop of [YieldMutex::lock]; [schedule] touches no lock. *)
Definition yield_lock (l : bool) : bool * spin_pc :=
  let '(old, l) := swap_true l in if negb old then (l, SGuard) else (l, SLoop).

(** [Drop] of the guard. *)
Definition spin_unlock (_ : bool) : bool * spin_pc := (false, SIdle).

(** What a task can do next at each point, in [SpinLock] and in [YieldMutex]. *)
Definition spin_calls (yields : bool) (p : spin_pc) : list (bool → bool * spin_pc) :=
  match p with
  | SIdle => if yields then [yield_lock] else [spin_lock; spin_try_lock]
  | SLoop => if yields then [yield_lock] else [spin_lock]
  | SGuard => [spin_unlock]
  end.

Inductive spin_step (yields : bool) (i : nat) : bool * (nat → spin_pc) → bool * (nat → spin_pc) → Prop :=
| spin_step_call l l' pcs p call :
    call ∈ spin_calls yields (pcs i) → call l = (l', p) → spin_step yields i (l, pcs) (l', <[i:=p]> pcs).

(** ** BlockingMutex *)

Record mutex := mkMutex { locked : bool; waiter : nat }.

(** [Fast]: in the fast path; [Store], [Recheck], [Block]: the steps of the slow
    loop; [Blocked]: descheduled; [Clear]: took the lock in the loop; [Guard]:
    the guard is alive; [Release w], [Wake w]: in [unlock], with the waiter it
    found. *)
Inductive mutex_pc := Idle | Fast | Store | Recheck | Block | Blocked | Clear | Guard | Release (w : nat) | Wake (w : nat).

#[global] Instance mutex_pc_eq_dec : EqDecision mutex_pc.
Proof. solve_decision. Defined.

(** What task [i] does next in [lock]. *)
Definition mutex_lock (i : nat) (m : mutex) (p : mutex_pc) : option (mutex * mutex_pc) :=
  match p with
  | Fast =>
      let '(old, l) := swap_true (locked m) in
      Some (mkMutex l (waiter m), if old then Store else Guard)
  | Store => Some (mkMutex (locked m) i, Recheck)
  | Recheck =>
      let '(old, l) := swap_true (locked m) in
      Some (mkMutex l (waiter m), if old then Block else Clear)
  | Clear => Some (mkMutex (locked m) 0, Guard)
  | Block => Some (m, Blocked)
  | _ => None
  end.

(** What it does next in [unlock], with the task that is to be woken. *)
Definition mutex_unlock (m : mutex) (p : mutex_pc) : option (mutex * mutex_pc * option nat) :=
  match p with
  | Guard => Some (mkMutex (locked m) 0, Release (waiter m), None)
  | Release w => Some (mkMutex false (waiter m), Wake w, None)
  | Wake w => Some (m, Idle, if decide (w = 0) then None else Some w)
  | _ => None
  end.

(** [wake_task]: a blocked task goes on with the loop; any other task is left alone. *)
Definition wake_task (w : nat) (pcs : nat → mutex_pc) : nat → mutex_pc :=
  if decide (pcs w = Blocked) then <[w:=Store]> pcs else pcs.

Inductive mutex_step (i : nat) : mutex * (nat → mutex_pc) → mutex * (nat → mutex_pc) → Prop :=
| step_call m pcs : pcs i = Idle → mutex_step i (m, pcs) (m, <[i:=Fast]> pcs)
| step_lock m pcs m' p : mutex_lock i m (pcs i) = Some (m', p) → mutex_step i (m, pcs) (m', <[i:=p]> pcs)
| step_unlock m pcs m' p w : mutex_unlock m (pcs i) = Some (m', p, w) →
    mutex_step i (m, pcs) (m', from_option wake_task id w (<[i:=p]> pcs)).

(** The task that runs owns the lock. *)
Definition owns (p : mutex_pc) : bool :=
  match p with Clear | Guard | Release _ => true | _ => false end.

(** ** IntSpinLock *)

(** One CPU: the interrupt flag and the locks that are taken. *)
Record cpu := mkCpu { ie : bool; taken : gset nat }.

(** [lock]: [None] is spinning forever, which it does when the lock is taken, as only
    this CPU could release it; the guard keeps the interrupt flag. *)
Definition int_lock (l : nat) (c : cpu) : option (bool * cpu) :=
  let sie_enabled := ie c in
  let c := mkCpu false (taken c) in
  if decide (l ∈ taken c) then None else Some (sie_enabled, mkCpu (ie c) ({[l]} ∪ taken c)).

(** [Drop] of the guard. *)
Definition int_unlock (l : nat) (sie_enabled : bool) (c : cpu) : cpu :=
  let c := mkCpu (ie c) (taken c ∖ {[l]}) in
  if sie_enabled then mkCpu true (taken c) else c.

(** The same for [SpinLock], which leaves the flag alone. *)
Definition plain_lock (l : nat) (c : cpu) : option cpu :=
  if decide (l ∈ taken c) then None else Some (mkCpu (ie c) ({[l]} ∪ taken c)).
Definition plain_unlock (l : nat) (c : cpu) : cpu := mkCpu (ie c) (taken c ∖ {[l]}).

(** A handler runs with the flag clear and restores it on return; here it takes the
    locks [hs] one after the other. *)
Fixpoint handler (hs : list nat) (c : cpu) : option cpu :=
  match hs with
  | [] => Some c
  | l :: hs => match int_lock l c with Some (f, c) => handler hs (int_unlock l f c) | None => None end
  end.

Definition irq (hs : list nat) (c : cpu) : option cpu :=
  if ie c then (fun c' => mkCpu true (taken c')) <$> handler hs (mkCpu false (taken c)) else Some c.

(** Code that uses the locks: critical sections, whose guard is dropped at the end
    of the block, and points at which an interrupt may arrive. *)
Inductive code := Nothing | Then (p q : code) | Irq (hs : list nat) | Critical (l : nat) (body : code).

Fixpoint run_int (p : code) (c : cpu) : option cpu :=
  match p with
  | Nothing => Some c
  | Then p q => match run_int p c with Some c => run_int q c | None => None end
  | Irq hs => irq hs c
  | Critical l body =>
      match int_lock l c with Some (f, c) => int_unlock l f <$> run_int body c | None => None end
  end.

Fixpoint run_plain (p : code) (c : cpu) : option cpu :=
  match p with
  | Nothing => Some c
  | Then p q => match run_plain p c with Some c => run_plain q c | None => None end
  | Irq hs => irq hs c
  | Critical l body =>
      match plain_lock l c with Some c => plain_unlock l <$> run_plain body c | None => None end
  end.

(** No section contains a section of a lock that is already taken. *)
Fixpoint no_relock (p : code) (L : gset nat) : Prop :=
  match p with
  | Nothing | Irq _ => True
  | Then p q => no_relock p L ∧ no_relock q L
  | Critical l body => (l ∉ L) ∧ no_relock body ({[l]} ∪ L)
  end.

(** ** Exclusion *)

(** The flag is set while a task owns the lock, and at most one does. *)
Definition owned {pc : Type} (own : pc → bool) (l : bool) (pcs : nat → pc) : Prop :=
  ∀ i, own (pcs i) = true → l = true ∧ ∀ j, own (pcs j) = true → j = i.

Section owned.
Context {pc : Type} (own : pc → bool).

Lemma owned_same (l l' : bool) (pcs : nat → pc) (i : nat) (p : pc) :
  owned own l pcs → own p = own (pcs i) → (l = true → l' = true) → owned own l' (<[i:=p]> pcs).
Proof.
  intros Ho Hp Hl j Hj.
  assert (∀ k, own (<[i:=p]> pcs k) = own (pcs k)) as E.
  { intros k. destruct (decide (k = i)) as [->|?]; [by rewrite fn_lookup_insert|by rewrite fn_lookup_insert_ne]. }
  rewrite E in Hj. destruct (Ho j Hj) as [H1 H2]. split; [auto|]. intros k. rewrite E. auto.
Qed.

Lemma owned_take (pcs : nat → pc) (i : nat) (p : pc) : owned own false pcs → owned own true (<[i:=p]> pcs).
Proof.
  intros Ho j Hj. split; [done|]. intros k Hk.
  assert (∀ k, own (<[i:=p]> pcs k) = true → k = i) as E; [|by rewrite (E j), (E k)].
  intros x Hx. destruct (decide (x = i)) as [|Hne]; [done|]. rewrite fn_lookup_insert_ne in Hx by done.
  by destruct (Ho x Hx).
Qed.

Lemma owned_release (l : bool) (pcs : nat → pc) (i : nat) (p : pc) :
  owned own l pcs → own (pcs i) = true → own p = false → owned own false (<[i:=p]> pcs).
Proof.
  intros Ho Hi Hp j Hj. destruct (decide (j = i)) as [->|Hne]; [rewrite fn_lookup_insert in Hj; congruence|].
  rewrite fn_lookup_insert_ne in Hj by done. destruct (Ho i Hi) as [_ Hu]. by apply Hu in Hj.
Qed.

End owned.

Definition spin_owns (p : spin_pc) : bool := match p with SGuard => true | _ => false end.

Lemma spin_step_owned (yields : bool) (i : nat) (c c' : bool * (nat → spin_pc)) :
  spin_step yields i c c' → owned spin_owns c.1 c.2 → owned spin_owns c'.1 c'.2.
Proof.
  intros [l l' pcs p call Hin Hc] Ho. cbn [fst snd] in *.
  assert ((p = SGuard ∧ l = false ∧ l' = true) ∨ (spin_owns p = false ∧ spin_owns (pcs i) = false ∧ l' = true) ∨
    (pcs i = SGuard ∧ p = SIdle ∧ l' = false)) as [(-> & -> & ->)|[(Hp & Hi & ->)|(Hi & -> & ->)]].
  { unfold spin_calls in Hin. destruct (pcs i), yields; repeat (apply elem_of_cons in Hin as [->|Hin]);
      try (by apply elem_of_nil in Hin); destruct l; injection Hc as <- <-; naive_solver. }
  - by apply owned_take.
  - by apply (owned_same _ l); [|congruence|].
  - eapply owned_release; [exact Ho|by rewrite Hi|done].
Qed.

Lemma wake_owned (l : bool) (pcs : nat → mutex_pc) (w : option nat) :
  owned owns l pcs → owned owns l (from_option wake_task id w pcs).
Proof.
  intros Ho. destruct w as [w|]; [|done]. cbn. unfold wake_task. case_decide as E; [|done].
  apply (owned_same _ l); [done|by rewrite E|done].
Qed.

(** A step that leaves ownership as it is. *)
Ltac owned_keep l := apply (owned_same _ l); [done|match goal with E : _ = _ |- _ => by rewrite E end|done].

Lemma mutex_step_owned (i : nat) (c c' : mutex * (nat → mutex_pc)) :
  mutex_step i c c' → owned owns (locked c.1) c.2 → owned owns (locked c'.1) c'.2.
Proof.
  intros [m pcs Hi|m pcs m' p Hl|m pcs m' p w Hu] Ho; cbn [fst snd] in *.
  - owned_keep (locked m).
  - destruct (pcs i) eqn:Hi; try done; cbn in Hl; injection Hl as <- <-; try owned_keep (locked m).
    all: destruct (locked m) eqn:E; cbn in *; [|by apply owned_take]; clear E; owned_keep true.
  - apply wake_owned. destruct (pcs i) eqn:Hi; try done; injection Hu as <- <- _; try owned_keep (locked m).
    eapply owned_release; [exact Ho|by rewrite Hi|done].
Qed.

Lemma owned_reachable {St pc : Type} (own : pc → bool) (flag : St → bool) (s0 : St) (p0 : pc)
    (step : nat → St * (nat → pc) → St * (nat → pc) → Prop) :
  own p0 = false → (∀ i c c', step i c c' → owned own (flag c.1) c.2 → owned own (flag c'.1) c'.2) →
  ∀ c, reachable (fun c => c = (s0, fun _ => p0)) (fun c c' => ∃ i, step i c c') c → owned own (flag c.1) c.2.
Proof.
  intros H0 Hs. apply reachable_invariant.
  - intros c -> i Hi. cbn in Hi. congruence.
  - intros c c' Ho [i Hi]. eauto.
Qed.

#[global] Program Instance spin_lock_impl (yields : bool) : Lock := {|
  lk_state := bool; lk_pc := spin_pc; lk_new := false; lk_idle := SIdle; lk_guard p := p = SGuard; lk_step := spin_step yields
|}.
Next Obligation. done. Qed.
Next Obligation.
  intros yields i j c c' [l l' pcs p call Hin Hc] Hne Hj. cbn in *. by rewrite fn_lookup_insert_ne.
Qed.
Next Obligation.
  intros yields c Hr i j Hi Hj.
  apply (owned_reachable spin_owns id false SIdle (spin_step yields) eq_refl (spin_step_owned yields)) in Hr.
  symmetry. apply (Hr i); by rewrite ?Hi, ?Hj.
Qed.

#[global] Program Instance blocking_mutex_impl : Lock := {|
  lk_state := mutex; lk_pc := mutex_pc; lk_new := mkMutex false 0; lk_idle := Idle; lk_guard p := p = Guard;
  lk_step := mutex_step
|}.
Next Obligation. done. Qed.
Next Obligation.
  intros i j c c' [m pcs Hi|m pcs m' p Hl|m pcs m' p w Hu] Hne Hj; cbn in *; try by rewrite fn_lookup_insert_ne.
  assert (<[i:=p]> pcs j = Guard) as Hj' by (by rewrite fn_lookup_insert_ne).
  destruct w as [w|]; [|done]. cbn. unfold wake_task. case_decide as E; [|done].
  rewrite fn_lookup_insert_ne; [done|]. intros ->. congruence.
Qed.
Next Obligation.
  intros c Hr i j Hi Hj.
  apply (owned_reachable owns locked (mkMutex false 0) Idle mutex_step eq_refl mutex_step_owned) in Hr.
  symmetry. apply (Hr i); by rewrite ?Hi, ?Hj.
Qed.

Inductive lock_kind := KSpin | KYield | KBlocking.

Definition kernel_lock (k : lock_kind) : Lock :=
  match k with KSpin => spin_lock_impl false | KYield => spin_lock_impl true | KBlocking => blocking_mutex_impl end.

(** ** Critical sections *)

Section client.
Context `{Lock} {V : Type} (update : nat → V → V) (v0 : V).

(** The protected data, what each task has read of it inside its section, and the updates
    in the order in which they were stored. *)
Record client := mkClient {
  lock_of : lk_state * (nat → lk_pc);
  cell : V;
  seen : nat → option V;
  updates : list nat
}.

(** A task moves in the lock code, but drops its guard only when its update is stored; or
    it reads the data through the guard; or it stores the update of what it read. *)
Inductive client_step : client → client → Prop :=
| cl_lock i k k' v rd us : lk_step i k k' → rd i = None → client_step (mkClient k v rd us) (mkClient k' v rd us)
| cl_read i k v rd us : lk_guard (k.2 i) → rd i = None →
    client_step (mkClient k v rd us) (mkClient k v (<[i:=Some v]> rd) us)
| cl_write i k v rd us x : lk_guard (k.2 i) → rd i = Some x →
    client_step (mkClient k v rd us) (mkClient k (update i x) (<[i:=None]> rd) (us ++ [i])).

Definition client_init (c : client) : Prop :=
  c = mkClient (lk_new, fun _ => lk_idle) v0 (fun _ => None) [].

(** What a task has read is the current value, and it still holds its guard. *)
Record client_inv (c : client) : Prop := {
  ci_lock : reachable (fun k => k = (lk_new, fun _ => lk_idle)) (fun k k' => ∃ i, lk_step i k k') (lock_of c);
  ci_seen : ∀ i x, seen c i = Some x → x = cell c ∧ lk_guard ((lock_of c).2 i);
  ci_cell : cell c = foldl (fun v i => update i v) v0 (updates c)
}.

Lemma client_invariant (c : client) : reachable client_init client_step c → client_inv c.
Proof.
  revert c. apply reachable_invariant.
  - intros c ->. split; cbn; [by constructor|done|done].
  - intros c c' Hinv Hst. destruct Hst as [i k k' v rd us Hs Hi|i k v rd us Hg Hi|i k v rd us x Hg Hi];
      destruct Hinv as [Hk Hr Hc]; cbn in *.
    + split; cbn; [exact (reach_step _ _ k k' Hk (ex_intro _ i Hs))| |done]. intros j x Hj. destruct (Hr j x Hj) as [? Hgj].
      split; [done|]. apply (lk_frame i j k); [done|congruence|done].
    + split; cbn; [done| |done]. intros j x. destruct (decide (j = i)) as [->|Hne].
      * rewrite fn_lookup_insert. intros [= ->]. done.
      * rewrite fn_lookup_insert_ne by done. auto.
    + split; cbn; [done| |].
      * intros j y. destruct (decide (j = i)) as [->|Hne]; [by rewrite fn_lookup_insert|].
        rewrite fn_lookup_insert_ne by done. intros Hj. destruct (Hr j y Hj) as [_ Hgj].
        by pose proof (lk_excl k Hk j i Hgj Hg).
      * rewrite foldl_app. cbn. destruct (Hr i x Hi) as [-> _]. by rewrite <- Hc.
Qed.

End client.

(** ** Waiters of the blocking mutex *)

(** Task [i] sleeps and no task is about to wake it. *)
Definition stranded (i : nat) (c : mutex * (nat → mutex_pc)) : Prop :=
  c.2 i = Blocked ∧ (waiter c.1 = i → i = 0) ∧
  ∀ j w, c.2 j = Release w ∨ c.2 j = Wake w → w = i → i = 0.

Lemma stranded_step (i j : nat) (c c' : mutex * (nat → mutex_pc)) :
  mutex_step j c c' → stranded i c → stranded i c'.
Proof.
  intros Hs (Hb & Hw & Hp). assert (c.2 j ≠ Blocked → j ≠ i) as Hji by congruence.
  destruct Hs as [m pcs Hj|m pcs m' p Hl|m pcs m' p w Hu]; unfold stranded; cbn [fst snd] in *.
  - assert (j ≠ i) as Hne by (apply Hji; congruence). split; [by rewrite fn_lookup_insert_ne|]. split; [done|].
    intros k w Hk. destruct (decide (k = j)) as [->|?]; [rewrite fn_lookup_insert in Hk; naive_solver|].
    rewrite fn_lookup_insert_ne in Hk by done. eauto.
  - assert (j ≠ i) as Hne by (apply Hji; by destruct (pcs j)).
    assert ((waiter m' = waiter m ∨ waiter m' = j ∨ waiter m' = 0) ∧ ∀ w, p ≠ Release w ∧ p ≠ Wake w) as [Hm' Hpc].
    { destruct (pcs j); try done; cbn in Hl; injection Hl as <- <-; cbn; destruct (locked m); naive_solver. }
    split; [by rewrite fn_lookup_insert_ne|].
    split; [intros E; destruct Hm' as [?|[?|?]]; [apply Hw|..]; congruence|].
    intros k w Hk. destruct (decide (k = j)) as [->|?]; [rewrite fn_lookup_insert in Hk; naive_solver|].
    rewrite fn_lookup_insert_ne in Hk by done. eauto.
  - assert (j ≠ i) as Hne by (apply Hji; by destruct (pcs j)).
    assert (waiter m' = 0 ∨ waiter m' = waiter m) as Hm'
      by (destruct (pcs j); try done; injection Hu as <- <- <-; auto).
    assert (∀ x, p = Release x ∨ p = Wake x → x = i → i = 0) as Hpc.
    { intros x Hx ->. destruct (pcs j) eqn:E; try done; injection Hu as <- <- <-; naive_solver. }
    assert (w ≠ Some i) as Hwi.
    { intros ->. destruct (pcs j) eqn:E; try done; cbn in Hu. case_decide; simplify_eq. eapply H, Hp; eauto. }
    assert (∀ k x, from_option wake_task id w (<[j:=p]> pcs) k = x → x = <[j:=p]> pcs k ∨ (x = Store ∧ w = Some k)) as Hwake.
    { intros k x <-. destruct w as [w|]; [|by left]. cbn. unfold wake_task. case_decide as E; [|by left].
      destruct (decide (k = w)) as [->|?]; [right; by rewrite fn_lookup_insert|left; by rewrite fn_lookup_insert_ne]. }
    split; [|split; [intros E; destruct Hm' as [?|?]; [|apply Hw]; congruence|]].
    + destruct (Hwake i _ eq_refl) as [->|[_ ?]]; [by rewrite fn_lookup_insert_ne|done].
    + intros k x Hk. destruct (Hwake k _ eq_refl) as [E|[E _]]; rewrite E in Hk; [|naive_solver].
      destruct (decide (k = j)) as [->|?]; [rewrite fn_lookup_insert in Hk; eauto|].
      rewrite fn_lookup_insert_ne in Hk by done. eauto.
Qed.

Lemma stranded_forever (i : nat) (c : mutex * (nat → mutex_pc)) :
  stranded i c → ∀ c', reachable (eq c) (fun c c' => ∃ j, mutex_step j c c') c' → stranded i c'.
Proof.
  intros Hs. apply reachable_invariant; [by intros c' <-|]. intros c1 c2 H1 [j Hj]. by eapply stranded_step.
Qed.

(** Runs of the mutex, task by task. *)
Definition next (i : nat) (c : mutex * (nat → mutex_pc)) : mutex * (nat → mutex_pc) :=
  let '(m, pcs) := c in
  match pcs i with
  | Idle => (m, <[i:=Fast]> pcs)
  | p =>
      match mutex_lock i m p with
      | Some (m', p') => (m', <[i:=p']> pcs)
      | None =>
          match mutex_unlock m p with
          | Some (m', p', w) => (m', from_option wake_task id w (<[i:=p']> pcs))
          | None => c
          end
      end
  end.

Definition mutex_init : mutex * (nat → mutex_pc) := (mkMutex false 0, fun _ => Idle).

Lemma next_reachable (ts : list nat) :
  reachable (eq mutex_init) (fun c c' => ∃ j, mutex_step j c c') (foldl (fun c i => next i c) mutex_init ts).
Proof.
  induction ts as [|i ts IH] using rev_ind; [by constructor|]. rewrite foldl_app. cbn.
  set (c := foldl _ _ ts) in *. destruct c as [m pcs] eqn:E. unfold next.
  destruct (pcs i) eqn:Hi; cbn [mutex_lock mutex_unlock]; try exact IH; (eapply reach_step; [exact IH|exists i]);
    try (by constructor); try (by apply step_lock; rewrite Hi); by apply step_unlock; rewrite Hi.
Qed.

Lemma next_unlock (m : mutex) (pcs : nat → mutex_pc) (h : nat) : pcs h = Guard →
  next h (next h (next h (m, pcs))) =
    (mkMutex false 0, from_option wake_task id (if decide (waiter m = 0) then None else Some (waiter m))
       (<[h:=Idle]> (<[h:=Wake (waiter m)]> (<[h:=Release (waiter m)]> pcs)))).
Proof.
  intros Hh. assert (∀ m' pcs' p, next h (m', <[h:=p]> pcs') = match p with
    | Release w => (mkMutex false (waiter m'), <[h:=Wake w]> (<[h:=p]> pcs'))
    | Wake w => (m', from_option wake_task id (if decide (w = 0) then None else Some w) (<[h:=Idle]> (<[h:=p]> pcs')))
    | _ => next h (m', <[h:=p]> pcs') end) as E.
  { intros m' pcs' p. destruct p; try done; unfold next; by rewrite fn_lookup_insert. }
  assert (next h (m, pcs) = (mkMutex (locked m) 0, <[h:=Release (waiter m)]> pcs)) as -> by (unfold next; by rewrite Hh).
  by rewrite !E.
Qed.

(** ** Claims *)

(** C25: Critical sections are atomic. Under [SpinLock], [YieldMutex] and
    [BlockingMutex], whatever steps the tasks take, at most one task holds a guard,
    what a task has read through its guard stays the current value until it stores its
    update, and the protected value is the result of all updates one after the
    other: none is lost. *)
Theorem critical_sections_are_atomic (k : lock_kind) (V : Type) (update : nat → V → V) (v0 : V)
    (c : @client (kernel_lock k) V) :
  reachable (client_init v0) (client_step update) c →
  (∀ i j, lk_guard ((lock_of c).2 i) → lk_guard ((lock_of c).2 j) → i = j) ∧
  (∀ i x, seen c i = Some x → x = cell c) ∧
  cell c = foldl (fun v i => update i v) v0 (updates c).
Proof.
  intros Hr. apply client_invariant in Hr as [Hk Hs Hc]. split; [by apply lk_excl|]. split; [|done].
  intros i x Hx. by destruct (Hs i x Hx).
Qed.

(** Waiters of the blocking mutex. A task that has gone to sleep with its index in
    the waiter slot is woken by the unlock. But the slot keeps only the last waiter,
    index 0 means none, and a wake-up between the last attempt and the sleep is dropped: in
    three runs the lock ends up free with a task asleep that no later step of any task wakes. *)
Theorem blocking_mutex_loses_waiters :
  (∀ m pcs i h, pcs i = Blocked → waiter m = i → i ≠ 0 → pcs h = Guard →
     let c := next h (next h (next h (m, pcs))) in locked c.1 = false ∧ c.2 i = Store ∧ c.2 h = Idle) ∧
  ∀ ts i, (ts, i) ∈ [([1; 1; 2; 2; 2; 2; 2; 3; 3; 3; 3; 3; 1; 1; 1; 3; 3; 3; 3; 3; 3], 2);
                     ([1; 1; 0; 0; 0; 0; 0; 1; 1; 1], 0);
                     ([1; 1; 2; 2; 2; 2; 1; 1; 1; 2], 2)] →
    let c := foldl (fun c i => next i c) mutex_init ts in
    reachable (eq mutex_init) (fun c c' => ∃ j, mutex_step j c c') c ∧ locked c.1 = false ∧
    ∀ c', reachable (eq c) (fun c c' => ∃ j, mutex_step j c c') c' → c'.2 i = Blocked.
Proof.
  split.
  - intros m pcs i h Hi <- H0 Hh c. subst c.
    assert (h ≠ waiter m) as Hne by congruence.
    rewrite next_unlock by done. rewrite decide_False by done. cbn. unfold wake_task.
    rewrite !fn_lookup_insert_ne by done. rewrite decide_True by done.
    rewrite fn_lookup_insert. by rewrite fn_lookup_insert_ne, fn_lookup_insert by done.
  - intros ts i Hin c. split; [apply next_reachable|].
    assert (locked c.1 = false ∧ stranded i c) as [Hl Hs]; [|split; [done|]; intros c' Hc'; by apply (stranded_forever i c)].
    repeat (apply elem_of_cons in Hin as [[= -> ->]|Hin]); [..|by apply elem_of_nil in Hin]; subst c.
    all: split; [reflexivity|]; split; [reflexivity|]; split; [by vm_compute|].
    all: intros j w; destruct j as [|[|[|[|j]]]]; vm_compute; naive_solver.
Qed.

(** The new guard of [i] and its update. *)
Lemma critical_sections_are_atomic_witness :
  ∃ c : @client (kernel_lock KSpin) nat, reachable (client_init 5) (client_step (fun i v => v + i)) c ∧
    updates c = [3] ∧ cell c = foldl (fun v i => v + i) 5 [3].
Proof.
  exists (@mkClient (kernel_lock KSpin) nat (true, <[3:=SGuard]> (fun _ => SIdle)) 8
    (<[3:=None]> (<[3:=Some 5]> (fun _ => None))) ([] ++ [3])).
  assert (reachable (client_init 5) (client_step (fun i v => v + i))
    (@mkClient (kernel_lock KSpin) nat (true, <[3:=SGuard]> (fun _ => SIdle)) 8
      (<[3:=None]> (<[3:=Some 5]> (fun _ => None))) ([] ++ [3]))) as Hr.
  { eapply reach_step; [eapply reach_step; [eapply reach_step; [by constructor|]|]|].
    - apply (@cl_lock (kernel_lock KSpin) nat _ 3 _ (true, <[3:=SGuard]> (fun _ => SIdle))); [|done].
      apply (spin_step_call false 3 false true (fun _ => SIdle) SGuard spin_lock); [left|done].
    - by apply (@cl_read (kernel_lock KSpin) nat _ 3).
    - by apply (@cl_write (kernel_lock KSpin) nat (fun i v => v + i) 3 _ _ _ _ 5). }
  split; [exact Hr|]. split; [done|]. exact (proj2 (proj2 (critical_sections_are_atomic _ _ _ _ _ Hr))).
Defined.

Lemma handler_free (hs : list nat) : handler hs (mkCpu false ∅) = Some (mkCpu false ∅).
Proof.
  induction hs as [|l hs IH]; [done|]. cbn [handler]. unfold int_lock. cbn [taken ie].
  rewrite decide_False by set_solver. unfold int_unlock. cbn [taken ie].
  replace (({[l]} ∪ ∅) ∖ {[l]}) with (∅ : gset nat) by set_solver. exact IH.
Qed.

Lemma run_int_ok (p : code) : ∀ c, no_relock p (taken c) → (ie c = true → taken c = ∅) → run_int p c = Some c.
Proof.
  induction p as [|p IHp q IHq|hs|l body IH]; intros [i t] Hn Hi; cbn [run_int no_relock taken ie] in *.
  - done.
  - destruct Hn as [Hp Hq]. by rewrite IHp, IHq.
  - unfold irq. cbn [ie taken]. destruct i; [|done]. rewrite Hi by done. by rewrite handler_free.
  - destruct Hn as [Hl Hb]. unfold int_lock. cbn [ie taken]. rewrite decide_False by done.
    rewrite IH by done. cbn. unfold int_unlock. cbn [ie taken].
    replace (({[l]} ∪ t) ∖ {[l]}) with t by (apply set_eq; set_solver). by destruct i.
Qed.

(** [IntSpinLock] against interrupt handlers. Code whose critical sections are nested
    and never take a lock again runs to its end whatever interrupts arrive and
    whatever locks their handlers take, and leaves the interrupt flag as it was. With
    [SpinLock] a handler that takes the lock of the interrupted section spins forever;
    and so it does with [IntSpinLock] when the guards are not dropped innermost first,
    since the first guard dropped turns the interrupts back on under the other lock. *)
Theorem int_spinlock_no_deadlock :
  (∀ (p : code) (c : cpu), no_relock p (taken c) → (ie c = true → taken c = ∅) → run_int p c = Some c) ∧
  run_plain (Critical 1 (Irq [1])) (mkCpu true ∅) = None ∧
  ∃ f c1 c2, int_lock 1 (mkCpu true ∅) = Some (true, c1) ∧ int_lock 2 c1 = Some (f, c2) ∧
    ie (int_unlock 1 true c2) = true ∧ irq [2] (int_unlock 1 true c2) = None.
Proof.
  split; [exact run_int_ok|]. split; [reflexivity|].
  exists false, (mkCpu false {[1]}), (mkCpu false {[2; 1]}). done.
Qed.

End Sync.
