(* ===== verification/KLog.v ===== *)
(** The kernel log of kernel/src/kernel_log.rs and the environment store of
    kernel/src/env.rs.

    The log is a ring of 32 KiB whose positions are two atomics; the console writes
    it byte by byte and drops the oldest byte when it is full. Each operation is a
    function on the ring, with Panic for an access outside the array; [read] is also
    split at the point where it stores the new position, since an interrupt may log
    in between. The environment is a list of pairs, kept in order. *)

From stdpp Require Import base numbers list gmap strings.
From Stdlib Require Import ZArith Lia.
From S2P Require Import Prelude Ring Vfs.
Local Open Scope Z_scope.
Local Open Scope rust_scope.

Module KLog.
Import Ring.

Definition KLOG_BUF_SIZE : Z := 32768.

Record LogBuffer := mkLog { data : list Z; head : Z; tail : Z }.

Definition new : LogBuffer := mkLog (replicate (Z.to_nat KLOG_BUF_SIZE) 0) 0 0.

Definition write_byte (b : LogBuffer) (byte : Z) : exec LogBuffer :=
  let h := head b in
  let next_head := (h +! 1) mod KLOG_BUF_SIZE in
  let t := tail b in
  let t' := if next_head =? t then (t +! 1) mod KLOG_BUF_SIZE else t in
  let! d := index_set (data b) h byte in
  Ret (mkLog d next_head t').

Definition available (b : LogBuffer) : Z :=
  if tail b <=? head b then head b - tail b else KLOG_BUF_SIZE - tail b + head b.

(** [n] bytes from [pos] on. *)
Fixpoint copy_out (d : list Z) (pos : Z) (n : nat) : exec (list Z) :=
  match n with
  | O => Ret []
  | S n =>
      let! x := index d pos in
      let! rest := copy_out d ((pos +! 1) mod KLOG_BUF_SIZE) n in
      Ret (x :: rest)
  end.

(** [read] up to the store of [tail]: the bytes and the value to be stored. *)
Definition read_begin (b : LogBuffer) (buf_len : Z) : exec (list Z * Z) :=
  let to_read := Z.min (available b) buf_len in
  let! bs := copy_out (data b) (tail b) (Z.to_nat to_read) in
  Ret (bs, (tail b +! to_read) mod KLOG_BUF_SIZE).

Definition read_finish (b : LogBuffer) (t : Z) : LogBuffer := mkLog (data b) (head b) t.

Definition read (b : LogBuffer) (buf_len : Z) : exec (list Z * LogBuffer) :=
  let! r := read_begin b buf_len in
  Ret (fst r, read_finish b (snd r)).

Definition peek (b : LogBuffer) (buf_len offset : Z) : exec (list Z) :=
  let avail := available b in
  if avail <=? offset then Ret []
  else
    let to_read := Z.min (avail - offset) buf_len in
    copy_out (data b) ((tail b +! offset) mod KLOG_BUF_SIZE) (Z.to_nat to_read).

Definition clear (b : LogBuffer) : LogBuffer := mkLog (data b) (head b) (head b).

Definition log_read (b : LogBuffer) (buf_len : Z) : exec (Z * Z * list Z * LogBuffer) :=
  let avail := available b in
  let! r := read b buf_len in
  Ret (Z.of_nat (length (fst r)), avail, fst r, snd r).

(** What is handed to [write_file_owned("/var/log/kernel", ..)]. *)
Definition log_flush_to_file (b : LogBuffer) : exec (option (list Z) * LogBuffer) :=
  let avail := available b in
  if avail =? 0 then Ret (None, b)
  else
    let! r := log_read b avail in
    let '(n, _, bs, b) := r in
    Ret (if n =? 0 then None else Some bs, b).

(** [sys_syslog]: the result and the bytes copied to the user at [buf]. *)
Definition sys_syslog (b : LogBuffer) (buf len offset : Z) : exec (Z * list Z) :=
  if (buf =? 0) || (len =? 0) then Ret (-22, [])
  else
    let! bs := peek b len offset in
    Ret (Z.of_nat (length bs), bs).

Definition LEVEL_TRACE : Z := 4.
Definition klog_set_level (level : Z) : Z := Z.min level 4.
Definition klog_enabled (current level : Z) : bool := level <=? current.

(** ** The ring as a queue *)

(** Positions in range, and the bytes between them. *)
Definition log_ok (b : LogBuffer) : Prop :=
  Z.of_nat (length (data b)) = KLOG_BUF_SIZE ∧ 0 <= head b < KLOG_BUF_SIZE ∧ 0 <= tail b < KLOG_BUF_SIZE.

Definition contents (b : LogBuffer) : list Z := window (data b) (tail b) (Z.to_nat (available b)).

(** The log on lists: the last 32767 bytes. *)
Definition keep (bs : list Z) : list Z := drop (length bs - Z.to_nat (KLOG_BUF_SIZE - 1)) bs.

Lemma available_mod (b : LogBuffer) : log_ok b →
  0 <= available b < KLOG_BUF_SIZE ∧ head b = (tail b + available b) mod KLOG_BUF_SIZE.
Proof.
  unfold log_ok, available, KLOG_BUF_SIZE. intros (_ & Hh & Ht). destruct (Z.leb_spec (tail b) (head b)).
  - split; [lia|]. rewrite Z.mod_small; lia.
  - split; [lia|]. replace (tail b + _) with (head b + 1 * 32768) by lia. rewrite Z_mod_plus_full, Z.mod_small; lia.
Qed.

Lemma contents_length (b : LogBuffer) : length (contents b) = Z.to_nat (available b).
Proof. apply window_length. Qed.

Lemma wrap_pos (x y : Z) : 0 <= x < KLOG_BUF_SIZE → 0 <= y <= KLOG_BUF_SIZE →
  (x +! y) mod KLOG_BUF_SIZE = (x + y) mod KLOG_BUF_SIZE.
Proof. unfold KLOG_BUF_SIZE. intros. by rewrite u64_small by lia. Qed.

(** Positions with [n] bytes between them. *)
Lemma available_of (d : list Z) (t n : Z) : 0 <= t < KLOG_BUF_SIZE → 0 <= n < KLOG_BUF_SIZE →
  available (mkLog d ((t + n) mod KLOG_BUF_SIZE) t) = n.
Proof.
  unfold available, KLOG_BUF_SIZE. cbn. intros Ht Hn. destruct (Z.leb_spec t ((t + n) mod 32768)) as [H|H];
    Z.to_euclidean_division_equations; lia.
Qed.

Lemma log_byte_ok (b : LogBuffer) (x : Z) : log_ok b →
  ∃ b', write_byte b x = Ret b' ∧ log_ok b' ∧ contents b' = keep (contents b ++ [x]).
Proof.
  intros Hok. destruct (available_mod b Hok) as [Ha Hh]. pose proof Hok as (Hl & Hhr & Htr).
  unfold write_byte. rewrite index_set_in by lia. cbn [exec_bind].
  rewrite (wrap_pos (head b)) by (unfold KLOG_BUF_SIZE in *; lia).
  rewrite (wrap_pos (tail b)) by (unfold KLOG_BUF_SIZE in *; lia).
  set (N := KLOG_BUF_SIZE) in *. assert (N = 32768) as EN by done. set (n := available b) in *.
  assert ((head b + 1) mod N = (tail b + (n + 1)) mod N) as En.
  { rewrite Hh, Zplus_mod_idemp_l. f_equal. lia. }
  assert (contents b ++ [x] = window (<[Z.to_nat (head b) := x]> (data b)) (tail b) (S (Z.to_nat n))) as Hw.
  { rewrite Hh. rewrite <- Hl. rewrite <- (Z2Nat.id n) at 1 by lia. rewrite window_back; [done|lia|lia]. }
  assert (length (contents b ++ [x]) = S (Z.to_nat n)) as Hlen.
  { rewrite length_app, contents_length. cbn. fold n. lia. }
  rewrite En. eexists. split; [reflexivity|]. destruct (Z.eqb_spec ((tail b + (n + 1)) mod N) (tail b)) as [E|E].
  - assert (n + 1 = N) as Hn by (Z.to_euclidean_division_equations; lia).
    split; [unfold log_ok; cbn; rewrite length_insert; fold N; split; [done|split; apply Z.mod_pos_bound; lia]|].
    unfold contents at 1. cbn [data tail].
    replace ((tail b + (n + 1)) mod N) with (((tail b + 1) mod N + n) mod N) by (rewrite Zplus_mod_idemp_l; f_equal; lia).
    rewrite available_of by (fold N; (lia || apply Z.mod_pos_bound; lia)).
    unfold keep. rewrite Hlen. fold N. replace (S (Z.to_nat n) - Z.to_nat (N - 1))%nat with 1%nat by lia. rewrite Hw.
    destruct (index_in (<[Z.to_nat (head b):=x]> (data b)) (tail b)) as (y & Hy & _); [rewrite length_insert; lia|].
    rewrite (window_front _ _ _ y); [|rewrite length_insert; lia|done]. cbn [drop]. by rewrite length_insert, Hl.
  - assert (n + 1 < N) as Hn.
    { destruct (decide (n + 1 = N)) as [En'|]; [|lia]. exfalso. apply E. rewrite En'.
      replace (tail b + N) with (tail b + 1 * N) by lia. rewrite Z_mod_plus_full. by apply Z.mod_small. }
    split; [unfold log_ok; cbn; rewrite length_insert; fold N; split; [done|split; [apply Z.mod_pos_bound; lia|done]]|].
    unfold contents at 1. cbn [data tail]. rewrite available_of by (fold N; lia).
    unfold keep. rewrite Hlen. fold N. replace (S (Z.to_nat n) - Z.to_nat (N - 1))%nat with 0%nat by lia. cbn [drop].
    rewrite drop_0, Hw. f_equal. lia.
Qed.

Lemma copy_out_ok (d : list Z) (n : nat) : ∀ pos, Z.of_nat (length d) = KLOG_BUF_SIZE → 0 <= pos < KLOG_BUF_SIZE →
  copy_out d pos n = Ret (window d pos n).
Proof.
  induction n as [|n IH]; intros pos Hd Hp; cbn [copy_out]; [done|].
  destruct (index_in d pos) as (x & Hx & ->); [lia|]. cbn [exec_bind].
  rewrite (window_front d pos n x) by (done || lia). rewrite Hd.
  rewrite wrap_pos by (unfold KLOG_BUF_SIZE in *; lia).
  rewrite IH; [done|done|apply Z.mod_pos_bound; unfold KLOG_BUF_SIZE; lia].
Qed.

Lemma read_ok (b : LogBuffer) (n : Z) : log_ok b → 0 <= n →
  ∃ b', read b n = Ret (take (Z.to_nat n) (contents b), b') ∧ log_ok b' ∧ contents b' = drop (Z.to_nat n) (contents b).
Proof.
  intros Hok Hn. destruct (available_mod b Hok) as [Ha Hh]. pose proof Hok as (Hl & Hhr & Htr).
  unfold read, read_begin. rewrite copy_out_ok by done. cbn [exec_bind fst snd].
  set (k := Z.min (available b) n). assert (0 <= k <= available b) as Hk by lia.
  rewrite wrap_pos by lia.
  assert (∀ l : list Z, length l = Z.to_nat (available b) → take (Z.to_nat n) l = take (Z.to_nat k) l ∧
    drop (Z.to_nat n) l = drop (Z.to_nat k) l) as Hcut.
  { intros l Hlen. destruct (decide (n <= available b)) as [Hle|Hgt]; [by replace n with k by lia|].
    rewrite !take_ge, !drop_ge by lia. done. }
  destruct (Hcut (contents b) (contents_length b)) as [-> ->].
  eexists. split; [unfold contents; rewrite window_take by lia; reflexivity|].
  assert (0 <= (tail b + k) mod KLOG_BUF_SIZE < KLOG_BUF_SIZE) as Hr by (apply Z.mod_pos_bound; unfold KLOG_BUF_SIZE; lia).
  split; [done|]. unfold contents at 1, read_finish. cbn [data tail head].
  replace (head b) with (((tail b + k) mod KLOG_BUF_SIZE + (available b - k)) mod KLOG_BUF_SIZE)
    by (rewrite Hh, Zplus_mod_idemp_l; f_equal; lia).
  rewrite available_of by lia. unfold contents. rewrite window_drop by lia. rewrite Hl. f_equal; [|lia].
  do 2 f_equal. lia.
Qed.

Lemma peek_ok (b : LogBuffer) (n off : Z) : log_ok b → 0 <= n → 0 <= off →
  peek b n off = Ret (take (Z.to_nat n) (drop (Z.to_nat off) (contents b))).
Proof.
  intros Hok Hn Ho. destruct (available_mod b Hok) as [Ha Hh]. pose proof Hok as (Hl & Hhr & Htr).
  unfold peek. destruct (Z.leb_spec (available b) off) as [Hle|Hlt].
  - rewrite drop_ge by (rewrite contents_length; lia). by rewrite take_nil.
  - rewrite wrap_pos by lia. rewrite copy_out_ok; [|done|apply Z.mod_pos_bound; unfold KLOG_BUF_SIZE; lia].
    unfold contents. rewrite window_drop by lia. rewrite Hl, Z2Nat.id by lia. f_equal.
    destruct (decide (n <= available b - off)) as [Hc|Hc].
    + rewrite window_take by lia. f_equal. lia.
    + rewrite take_ge by (rewrite window_length; lia). f_equal. lia.
Qed.

(** ** Claims *)

Inductive log_op := OWrite (x : Z) | ORead (n : Z) | OPeek (n off : Z) | OClear.

Definition log_step (b : LogBuffer) (o : log_op) : exec (list Z * LogBuffer) :=
  match o with
  | OWrite x => let! b := write_byte b x in Ret ([], b)
  | ORead n => read b n
  | OPeek n off => let! bs := peek b n off in Ret (bs, b)
  | OClear => Ret ([], clear b)
  end.

(** The same on lists. *)
Definition log_spec (l : list Z) (o : log_op) : list Z * list Z :=
  match o with
  | OWrite x => ([], keep (l ++ [x]))
  | ORead n => (take (Z.to_nat n) l, drop (Z.to_nat n) l)
  | OPeek n off => (take (Z.to_nat n) (drop (Z.to_nat off) l), l)
  | OClear => ([], [])
  end.

Definition op_ok (o : log_op) : Prop :=
  match o with ORead n => 0 <= n | OPeek n off => 0 <= n ∧ 0 <= off | _ => True end.

Fixpoint log_run (b : LogBuffer) (os : list log_op) : exec (list (list Z) * LogBuffer) :=
  match os with
  | [] => Ret ([], b)
  | o :: os => let! r := log_step b o in let! rs := log_run (snd r) os in Ret (fst r :: fst rs, snd rs)
  end.

Fixpoint spec_run (l : list Z) (os : list log_op) : list (list Z) * list Z :=
  match os with
  | [] => ([], l)
  | o :: os => let r := log_spec l o in let rs := spec_run (snd r) os in (fst r :: fst rs, snd rs)
  end.

Lemma log_step_ok (b : LogBuffer) (o : log_op) : log_ok b → op_ok o →
  ∃ b', log_step b o = Ret (fst (log_spec (contents b) o), b') ∧ log_ok b' ∧ contents b' = snd (log_spec (contents b) o).
Proof.
  intros Hok Ho. destruct o as [x|n|n off|]; cbn in *.
  - destruct (log_byte_ok b x Hok) as (b' & -> & ?). by exists b'.
  - destruct (read_ok b n Hok Ho) as (b' & -> & ?). by exists b'.
  - destruct Ho. rewrite peek_ok by done. by exists b.
  - exists (clear b). split; [done|]. destruct Hok as (? & ? & ?). split; [done|].
    unfold contents, available, clear. cbn. by rewrite Z.leb_refl, Z.sub_diag.
Qed.

Lemma log_run_ok (os : list log_op) : ∀ b, log_ok b → Forall op_ok os →
  ∃ b', log_run b os = Ret (fst (spec_run (contents b) os), b') ∧ log_ok b' ∧ contents b' = snd (spec_run (contents b) os).
Proof.
  induction os as [|o os IH]; intros b Hok Hos; cbn; [by exists b|]. apply Forall_cons in Hos as [Ho Hos].
  destruct (log_step_ok b o Hok Ho) as (b1 & -> & Hok1 & Hc1). cbn. rewrite <- Hc1.
  destruct (IH b1 Hok1 Hos) as (b' & -> & Hok' & Hc'). by exists b'.
Qed.

Lemma klog_new_ok : log_ok new ∧ contents new = [].
Proof. split; [|done]. split; [unfold new; cbn [data]; by rewrite length_replicate|]. done. Qed.

(** A full log of letters, and three more bytes. *)
Definition full_log : LogBuffer := mkLog (replicate (Z.to_nat KLOG_BUF_SIZE) 97) (KLOG_BUF_SIZE - 1) 0.

Definition log3 (b : LogBuffer) : exec LogBuffer :=
  let! b := write_byte b 120 in let! b := write_byte b 121 in write_byte b 122.

Lemma full_log_ok : log_ok full_log.
Proof. split; [unfold full_log; cbn [data]; by rewrite length_replicate|]. done. Qed.

Lemma write_byte_eq (d : list Z) (h t x : Z) : Z.of_nat (length d) = KLOG_BUF_SIZE → 0 <= h < KLOG_BUF_SIZE →
  0 <= t < KLOG_BUF_SIZE →
  write_byte (mkLog d h t) x = Ret (mkLog (<[Z.to_nat h:=x]> d) ((h + 1) mod KLOG_BUF_SIZE)
    (if (h + 1) mod KLOG_BUF_SIZE =? t then (t + 1) mod KLOG_BUF_SIZE else t)).
Proof.
  intros Hd Hh Ht. unfold write_byte. cbn [head tail data]. rewrite index_set_in by lia. cbn [exec_bind].
  by rewrite !wrap_pos by (unfold KLOG_BUF_SIZE in *; lia).
Qed.

Lemma log3_full : log3 full_log =
  Ret (mkLog (<[1%nat:=122]> (<[0%nat:=121]> (<[Z.to_nat (KLOG_BUF_SIZE - 1):=120]> (data full_log)))) 2 3).
Proof.
  pose proof full_log_ok as (Hl & _). unfold log3, full_log in *. cbn [data] in *.
  revert Hl. generalize (replicate (Z.to_nat KLOG_BUF_SIZE) 97). intros d Hl.
  rewrite write_byte_eq by done. cbn [exec_bind].
  rewrite write_byte_eq by (done || rewrite length_insert; done). cbn [exec_bind].
  by rewrite write_byte_eq by (done || rewrite !length_insert; done).
Qed.

Lemma read_one (d : list Z) : Z.of_nat (length d) = KLOG_BUF_SIZE →
  read_begin (mkLog d (KLOG_BUF_SIZE - 1) 0) 1 = Ret (window d 0 1, 1).
Proof. intros Hd. unfold read_begin. cbn [data tail]. by rewrite copy_out_ok. Qed.

Lemma one_left (d : list Z) (x : Z) : d !! 1%nat = Some x → Z.of_nat (length d) = KLOG_BUF_SIZE →
  contents (mkLog d 2 1) = [x].
Proof.
  intros Hx Hd. unfold contents. change (available (mkLog d 2 1)) with 1. cbn [tail data].
  change (Z.to_nat 1) with 1%nat. by rewrite (window_front d 1 0 x) by (done || rewrite Hd; done).
Qed.

(** The log keeps the latest bytes. From boot on, any sequence of log bytes, reads,
    peeks and clears stays inside the buffer and returns what the same sequence
    returns on a list that is cut to its last 32767 bytes. A reader of a full log that
    is interrupted by the logging of three bytes, however, stores an older position
    over the writer's: of the 32767 bytes one is left. *)
Theorem klog_keeps_latest :
  (∀ os, Forall op_ok os → ∃ b, log_run new os = Ret (fst (spec_run [] os), b) ∧ log_ok b ∧
     contents b = snd (spec_run [] os)) ∧
  available full_log = 32767 ∧
  ∃ bs t b, read_begin full_log 1 = Ret (bs, t) ∧ log3 full_log = Ret b ∧ available b = 32767 ∧
    contents (read_finish b t) = [122].
Proof.
  destruct klog_new_ok as [Hn Hc]. split; [|split; [done|]].
  - intros os Hos. rewrite <- Hc. by apply log_run_ok.
  - pose proof full_log_ok as (Hl & _). eexists _, 1, _. split; [exact (read_one _ Hl)|].
    split; [exact log3_full|]. split; [reflexivity|]. unfold read_finish. cbn [data head]. apply one_left.
    + apply list_lookup_insert_eq. rewrite !length_insert. unfold KLOG_BUF_SIZE in Hl. lia.
    + by rewrite !length_insert.
Qed.

End KLog.

(** ** The environment *)

Module Env.
Import Path.

(** [ENV] *)
Abbreviation env := (list (str * str)).

Definition init (e : env) : env := e ++ [(bytes "PATH", bytes "/"); (bytes "USER", bytes "root")].

Fixpoint get (e : env) (key : str) : option str :=
  match e with
  | [] => None
  | (k, v) :: e => if decide (k = key) then Some v else get e key
  end.

Fixpoint set (e : env) (key val : str) : env :=
  match e with
  | [] => [(key, val)]
  | (k, v) :: e => if decide (k = key) then (k, val) :: e else (k, v) :: set e key val
  end.

Definition unset (e : env) (key : str) : env := filter (fun kv => kv.1 ≠ key) e.

Definition list_all (e : env) : list (str * str) := e.

Lemma set_keys (e : env) (key val : str) :
  (set e key val).*1 = if decide (key ∈ e.*1) then e.*1 else e.*1 ++ [key].
Proof.
  induction e as [|[k v] e IH]; [done|]. cbn [set fmap list_fmap fst]. destruct (decide (k = key)) as [->|Hne].
  - rewrite decide_True; [done|left].
  - cbn [fmap list_fmap fst]. cbn [fmap list_fmap] in IH. rewrite IH.
    destruct (decide (key ∈ e.*1)) as [Hin|Hin].
    + by rewrite decide_True by (by right).
    + rewrite decide_False; [done|]. intros [->|?]%elem_of_cons; [by apply Hne|done].
Qed.

Lemma get_set (e : env) (key val k : str) : get (set e key val) k = if decide (k = key) then Some val else get e k.
Proof.
  induction e as [|[k' v] e IH]; cbn.
  - repeat case_decide; congruence.
  - destruct (decide (k' = key)) as [->|Hne]; cbn.
    + repeat case_decide; congruence.
    + rewrite IH. repeat case_decide; congruence.
Qed.

Lemma get_unset (e : env) (key k : str) : get (unset e key) k = if decide (k = key) then None else get e k.
Proof.
  unfold unset. induction e as [|[k' v] e IH]; [by case_decide|]. rewrite filter_cons. cbn [fst get].
  destruct (decide (k' ≠ key)) as [Hne|He].
  - cbn [get]. rewrite IH. repeat case_decide; congruence.
  - rewrite IH. assert (k' = key) as -> by (by destruct (decide (k' = key))). repeat case_decide; congruence.
Qed.

Inductive env_op := ESet (key val : str) | EUnset (key : str).

Definition env_run (e : env) (os : list env_op) : env :=
  foldl (fun e o => match o with ESet k v => set e k v | EUnset k => unset e k end) e os.

Definition env_spec (m : gmap str str) (os : list env_op) : gmap str str :=
  foldl (fun m o => match o with ESet k v => <[k:=v]> m | EUnset k => delete k m end) m os.

Lemma env_run_ok (os : list env_op) : ∀ e (m : gmap str str), NoDup e.*1 → (∀ k, get e k = m !! k) →
  NoDup (env_run e os).*1 ∧ ∀ k, get (env_run e os) k = env_spec m os !! k.
Proof.
  induction os as [|[key val|key] os IH]; intros e m Hnd Hg; cbn; [done|apply IH|apply IH].
  - rewrite set_keys. case_decide as Hin; [done|]. apply NoDup_app. split; [done|]. split; [|apply NoDup_singleton].
    intros k Hk ->%list_elem_of_singleton. done.
  - intros k. rewrite get_set, Hg. case_decide as E; [by rewrite E, lookup_insert_eq|by rewrite lookup_insert_ne].
  - unfold unset. clear -Hnd. induction e as [|[k v] e IH]; [done|]. rewrite filter_cons. cbn in Hnd.
    apply NoDup_cons in Hnd as [Hk Hnd]. case_decide; [|auto]. cbn. constructor; [|auto].
    intros ([k' v'] & -> & [_ Hin]%list_elem_of_filter)%list_elem_of_fmap. apply Hk. apply list_elem_of_fmap. by exists (k', v').
  - intros k. rewrite get_unset, Hg. case_decide as E; [by rewrite E, lookup_delete_eq|by rewrite lookup_delete_ne].
Qed.

(** The environment is a map: after any sets and unsets from boot on, each variable has
    the value last set, none after it was unset, and the listing has each name once. *)
Theorem env_is_map (os : list env_op) :
  NoDup (list_all (env_run (init []) os)).*1 ∧
  ∀ k, get (env_run (init []) os) k = env_spec {[bytes "PATH" := bytes "/"; bytes "USER" := bytes "root"]} os !! k.
Proof.
  apply env_run_ok.
  - cbn. apply NoDup_cons. split; [|apply NoDup_singleton]. intros ?%list_elem_of_singleton. done.
  - intros k. unfold init. cbn [app get]. destruct (decide (bytes "PATH" = k)) as [<-|?]; [done|].
    rewrite lookup_insert_ne by done. destruct (decide (bytes "USER" = k)) as [<-|?]; [done|]. by rewrite lookup_singleton_ne.
Qed.

End Env.
