(* ===== verification/Ota.v ===== *)
(** The A/B update slots of kernel/src/ota.rs: the image header, its CRC-32 and
    the choice of the slot to boot.

    An image is its list of bytes. [copy_from_slice] into a range is [put], which
    panics when the range leaves the buffer. *)

From stdpp Require Import base numbers list.
From Stdlib Require Import ZArith Lia.
From S2P Require Import Prelude.
Local Open Scope Z_scope.
Local Open Scope rust_scope.

Module Ota.

Definition KOTA_MAGIC : Z := 0x41544F4B.
Definition KOTA_HEADER_LEN : Z := 32.
Definition KOTA_FLAG_TRIAL : Z := 1.

Inductive KotaErr := BadMagic | BadCrc.

(** ** The checksum *)

(** One round of the inner loop. *)
Definition crc_round (crc : Z) : Z :=
  let mask := u32 (- Z.land crc 1) in
  Z.lxor (Z.shiftr crc 1) (Z.land 0xEDB88320 mask).

Definition crc_byte (crc b : Z) : Z := Nat.iter 8 crc_round (Z.lxor crc b).

Definition crc32 (data : list Z) : Z := u32 (Z.lnot (foldl crc_byte 0xFFFFFFFF data)).

(** ** Slots *)

(** [l[off..off + bs.len()].copy_from_slice(bs)] *)
Definition put (off : nat) (bs l : list Z) : exec (list Z) :=
  if decide (off + length bs <= length l)%nat then Ret (take off l ++ bs ++ drop (off + length bs) l) else Panic.

Definition rd32 (image : list Z) (off : nat) : Z := of_le (slice off 4 image).

Definition parse_slot (image : list Z) : exec (result (Z * Z * Z) KotaErr) :=
  if Z.of_nat (length image) <? KOTA_HEADER_LEN then Ret (Err BadMagic)
  else if negb (rd32 image 0 =? KOTA_MAGIC) then Ret (Err BadMagic)
  else
    let version := rd32 image 4 in
    let image_len := rd32 image 8 in
    let crc := rd32 image 12 in
    let flags := rd32 image 28 in
    let len := Z.min image_len (Z.of_nat (length image)) in
    let! probe := put 12 [0; 0; 0; 0] (take (Z.to_nat len) image) in
    if negb (crc32 probe =? crc) then Ret (Err BadCrc) else Ret (Ok (version, crc, flags)).

Definition select_slot (a b : list Z) : exec Z :=
  let! pa := parse_slot a in
  let! pb := parse_slot b in
  Ret (match pa, pb with
       | Ok (va, _, fa), Ok (vb, _, fb) =>
           if negb (va =? vb) then (if va <? vb then 1 else 0)
           else if negb (Z.land fa KOTA_FLAG_TRIAL =? 0) && (Z.land fb KOTA_FLAG_TRIAL =? 0) then 1 else 0
       | Ok _, Err _ => 0
       | Err _, Ok _ => 1
       | Err _, Err _ => 0
       end).

Definition make_slot (version : Z) (payload : list Z) (trial : bool) : exec (list Z) :=
  let img := replicate (Z.to_nat KOTA_HEADER_LEN + length payload) 0 in
  let! img := put 0 (le_bytes 4 KOTA_MAGIC) img in
  let! img := put 4 (le_bytes 4 version) img in
  let total := u32 (Z.of_nat (length img)) in
  let! img := put 8 (le_bytes 4 total) img in
  let! img := put 28 (le_bytes 4 (if trial then KOTA_FLAG_TRIAL else 0)) img in
  let! img := put 32 payload img in
  let crc := crc32 img in
  put 12 (le_bytes 4 crc) img.

(** ** The checksum separates single bytes *)

Lemma crc_round_eq (c : Z) : 0 <= c →
  crc_round c = Z.lxor (Z.shiftr c 1) (if Z.testbit c 0 then 0xEDB88320 else 0).
Proof.
  intros Hc. unfold crc_round. f_equal. change (Z.land c 1) with (Z.land c (Z.ones 1)).
  rewrite Z.land_ones, Z.bit0_odd by lia. change (2 ^ 1) with 2.
  rewrite Zmod_odd. by destruct (Z.odd c).
Qed.

Lemma u32_bits (x : Z) : 0 <= x < 2 ^ 32 ↔ 0 <= x ∧ ∀ i, 32 <= i → Z.testbit x i = false.
Proof.
  split.
  - intros Hx. split; [lia|]. intros i Hi. apply (bits_above i 32); lia.
  - intros [H0 Hi]. split; [done|]. destruct (Z.eq_dec x 0) as [->|Hne]; [lia|].
    apply Z.log2_lt_pow2; [lia|]. destruct (Z.lt_ge_cases (Z.log2 x) 32) as [|Hge]; [done|].
    specialize (Hi _ Hge). rewrite Z.bit_log2 in Hi; [done|lia].
Qed.

Lemma crc_round_range (c : Z) : 0 <= c < 2 ^ 32 → 0 <= crc_round c < 2 ^ 32.
Proof.
  intros Hc. rewrite crc_round_eq by lia. pose proof (proj1 (u32_bits c) Hc) as [_ Hb]. apply u32_bits. split.
  - apply Z.lxor_nonneg. split; intros _; [by destruct (Z.testbit c 0)|apply Z.shiftr_nonneg; lia].
  - intros i Hi. rewrite Z.lxor_spec, Z.shiftr_spec, Hb by lia.
    destruct (Z.testbit c 0); [|by rewrite Z.bits_0]. by rewrite (bits_above i 32) by lia.
Qed.

(** The top bit of the result is the bit shifted out. *)
Lemma crc_round_inj (c c' : Z) : 0 <= c < 2 ^ 32 → 0 <= c' < 2 ^ 32 → crc_round c = crc_round c' → c = c'.
Proof.
  intros Hc Hc'. rewrite !crc_round_eq by lia. intros E.
  assert (∀ x, 0 <= x < 2 ^ 32 →
    Z.testbit (Z.lxor (Z.shiftr x 1) (if Z.testbit x 0 then 0xEDB88320 else 0)) 31 = Z.testbit x 0) as Htop.
  { intros x Hx. rewrite Z.lxor_spec, Z.shiftr_spec by lia. rewrite (bits_above (31 + 1) 32) by lia.
    by destruct (Z.testbit x 0). }
  assert (Z.testbit c 0 = Z.testbit c' 0) as E0 by (by rewrite <- (Htop c), <- (Htop c'), E).
  rewrite E0 in E. apply Z.bits_inj'. intros i Hi. destruct (Z.eq_dec i 0) as [->|Hne]; [done|].
  assert (Z.shiftr c 1 = Z.shiftr c' 1) as Es.
  { set (k := if Z.testbit c' 0 then _ else _) in E.
    by rewrite <- (Z.lxor_0_r (Z.shiftr c 1)), <- (Z.lxor_nilpotent k), <- Z.lxor_assoc, E,
      Z.lxor_assoc, Z.lxor_nilpotent, Z.lxor_0_r. }
  replace i with (i - 1 + 1) by lia. rewrite <- !Z.shiftr_spec by lia. by rewrite Es.
Qed.

Lemma iter_round (n : nat) : ∀ c c', 0 <= c < 2 ^ 32 → 0 <= c' < 2 ^ 32 →
  0 <= Nat.iter n crc_round c < 2 ^ 32 ∧ (Nat.iter n crc_round c = Nat.iter n crc_round c' → c = c').
Proof.
  induction n as [|n IH]; intros c c' Hc Hc'; cbn [Nat.iter nat_rect]; [done|].
  change (nat_rect _ c _ n) with (Nat.iter n crc_round c). change (nat_rect _ c' _ n) with (Nat.iter n crc_round c').
  destruct (IH c c' Hc Hc') as [Hr Hi]. destruct (IH c' c Hc' Hc) as [Hr' _].
  split; [by apply crc_round_range|]. intros E. apply Hi. by apply crc_round_inj.
Qed.

Lemma lxor_u32 (c b : Z) : 0 <= c < 2 ^ 32 → is_byte b → 0 <= Z.lxor c b < 2 ^ 32.
Proof.
  intros Hc Hb. pose proof (proj1 (u32_bits c) Hc) as [_ Hi]. unfold is_byte in Hb. apply u32_bits. split.
  - apply Z.lxor_nonneg. lia.
  - intros i Hge. rewrite Z.lxor_spec, Hi, (bits_above i 8) by lia. done.
Qed.

Lemma crc_byte_range (c b : Z) : 0 <= c < 2 ^ 32 → is_byte b → 0 <= crc_byte c b < 2 ^ 32.
Proof. intros Hc Hb. pose proof (lxor_u32 c b Hc Hb). unfold crc_byte. by apply (iter_round 8 _ 0). Qed.

Lemma lxor_cancel (c x y : Z) : Z.lxor c x = Z.lxor c y → x = y.
Proof.
  intros E. rewrite <- (Z.lxor_0_l x), <- (Z.lxor_0_l y), <- (Z.lxor_nilpotent c), !Z.lxor_assoc. by rewrite E.
Qed.

(** Different states stay different, and different bytes make them different. *)
Lemma crc_byte_inj (c c' b b' : Z) : 0 <= c < 2 ^ 32 → 0 <= c' < 2 ^ 32 → is_byte b → is_byte b' →
  crc_byte c b = crc_byte c' b' → Z.lxor c b = Z.lxor c' b'.
Proof. intros Hc Hc' Hb Hb'. by apply (iter_round 8); apply lxor_u32. Qed.

Lemma crc_fold_range (l : list Z) : ∀ c, 0 <= c < 2 ^ 32 → Forall is_byte l → 0 <= foldl crc_byte c l < 2 ^ 32.
Proof.
  induction l as [|b l IH]; intros c Hc Hl; [done|]. apply Forall_cons in Hl as [Hb Hl]. apply IH; [|done].
  by apply crc_byte_range.
Qed.

Lemma crc_fold_inj (l : list Z) : ∀ c c', 0 <= c < 2 ^ 32 → 0 <= c' < 2 ^ 32 → Forall is_byte l →
  foldl crc_byte c l = foldl crc_byte c' l → c = c'.
Proof.
  induction l as [|b l IH]; intros c c' Hc Hc' Hl E; [done|]. apply Forall_cons in Hl as [Hb Hl]. cbn in E.
  apply IH in E; [|by apply crc_byte_range|by apply crc_byte_range|done]. apply crc_byte_inj in E; [|done..].
  rewrite (Z.lxor_comm c), (Z.lxor_comm c') in E. by apply lxor_cancel in E.
Qed.

(** One changed byte changes the checksum. *)
Lemma crc32_one_byte (l1 l2 : list Z) (x y : Z) :
  Forall is_byte (l1 ++ x :: l2) → is_byte y → x ≠ y → crc32 (l1 ++ x :: l2) ≠ crc32 (l1 ++ y :: l2).
Proof.
  intros Hl Hy Hne. apply Forall_app in Hl as [H1 [Hx H2]%Forall_cons].
  set (a := foldl crc_byte 0xFFFFFFFF l1).
  assert (0 <= a < 2 ^ 32) as Ha by (by apply crc_fold_range).
  assert (0 <= crc_byte a x < 2 ^ 32 ∧ 0 <= crc_byte a y < 2 ^ 32) as [Hax Hay] by (split; by apply crc_byte_range).
  pose proof (crc_fold_range l2 _ Hax H2) as Rx. pose proof (crc_fold_range l2 _ Hay H2) as Ry.
  unfold crc32. rewrite !foldl_app. cbn [foldl]. fold a. intros E.
  assert (foldl crc_byte (crc_byte a x) l2 = foldl crc_byte (crc_byte a y) l2) as E'.
  { unfold u32, wrap, Z.lnot in E. Z.to_euclidean_division_equations. lia. }
  apply crc_fold_inj in E'; [|done..]. apply crc_byte_inj in E'; [|done..]. by apply lxor_cancel in E'.
Qed.

(** ** Reading and patching *)

Lemma put_at (off : nat) (l1 bs mid l2 l : list Z) : l = l1 ++ mid ++ l2 → off = length l1 → length bs = length mid →
  put off bs l = Ret (l1 ++ bs ++ l2).
Proof.
  intros -> -> Hl. unfold put. rewrite decide_True by (rewrite !length_app; lia).
  rewrite take_app_length. do 3 f_equal. rewrite Hl, app_assoc. apply drop_app_length'. by rewrite length_app.
Qed.

Lemma rd32_at (off : nat) (l1 mid l2 l : list Z) : l = l1 ++ mid ++ l2 → off = length l1 → length mid = 4%nat →
  rd32 l off = of_le mid.
Proof. intros -> -> Hl. unfold rd32, slice. by rewrite drop_app_length, <- Hl, take_app_length. Qed.

(** A word that keeps its value keeps its bytes. *)
Lemma rd32_insert (l : list Z) (off i : nat) (y : Z) : Forall is_byte l → is_byte y → (off + 4 <= length l)%nat →
  (off <= i < off + 4)%nat → l !! i ≠ Some y → rd32 (<[i:=y]> l) off ≠ rd32 l off.
Proof.
  intros Hl Hy Hoff Hi Hne E.
  assert (slice off 4 (<[i:=y]> l) = slice off 4 l) as Es.
  { unfold rd32 in E. apply (f_equal (le_bytes 4)) in E. rewrite !le_bytes_of_le in E; [done|..].
    - by rewrite slice_length.
    - by apply slice_bytes.
    - by rewrite slice_length by (rewrite length_insert; lia).
    - by apply slice_bytes, Forall_insert. }
  apply (f_equal (fun s => s !! (i - off)%nat)) in Es. rewrite !slice_lookup, !decide_True in Es by lia.
  replace (off + (i - off))%nat with i in Es by lia. rewrite list_lookup_insert_eq in Es by lia. congruence.
Qed.

Lemma rd32_other (l : list Z) (off i : nat) (y : Z) : (i < off ∨ off + 4 <= i)%nat → rd32 (<[i:=y]> l) off = rd32 l off.
Proof.
  intros Hi. unfold rd32. f_equal. apply list_eq. intros k. rewrite !slice_lookup. case_decide; [|done].
  by rewrite list_lookup_insert_ne by lia.
Qed.

Lemma patch_insert (l : list Z) (off i : nat) (y : Z) (bs : list Z) : (off + length bs <= length l)%nat →
  (i < off ∨ off + length bs <= i)%nat →
  take off (<[i:=y]> l) ++ bs ++ drop (off + length bs) (<[i:=y]> l) =
    <[i:=y]> (take off l ++ bs ++ drop (off + length bs) l).
Proof.
  intros Hoff [Hi|Hi].
  - rewrite insert_app_l by (rewrite length_take; lia). by rewrite take_insert_lt, drop_insert_lt by lia.
  - rewrite insert_app_r_alt by (rewrite length_take; lia). rewrite length_take, Nat.min_l by lia.
    rewrite insert_app_r_alt by lia. rewrite take_insert_ge, drop_insert_ge by lia.
    by replace (i - off - length bs)%nat with (i - (off + length bs))%nat by lia.
Qed.

(** ** The layout of a slot *)

Definition zeros (n : nat) : list Z := replicate n 0.

Definition layout (M V T C F payload : list Z) : list Z := M ++ V ++ T ++ C ++ zeros 12 ++ F ++ payload.

Section layout.
Context (M V T F payload : list Z).
Context (HM : length M = 4%nat) (HV : length V = 4%nat) (HT : length T = 4%nat) (HF : length F = 4%nat).

(** Sums of the lengths above. *)
Ltac lens := unfold zeros in *; rewrite ?length_app, ?length_replicate, ?HM, ?HV, ?HT, ?HF in *; cbn [length] in *; lia.
Ltac assoc := unfold layout; by rewrite <- ?app_assoc.

Lemma layout_length (C : list Z) : length C = 4%nat → length (layout M V T C F payload) = (32 + length payload)%nat.
Proof. intros HC. unfold layout. lens. Qed.

Lemma layout_fields (C : list Z) : length C = 4%nat →
  let l := layout M V T C F payload in
  rd32 l 0 = of_le M ∧ rd32 l 4 = of_le V ∧ rd32 l 8 = of_le T ∧ rd32 l 12 = of_le C ∧ rd32 l 28 = of_le F.
Proof.
  intros HC l. split_and!.
  - apply (rd32_at 0 [] M (V ++ T ++ C ++ zeros 12 ++ F ++ payload)); [assoc|lens|done].
  - apply (rd32_at 4 M V (T ++ C ++ zeros 12 ++ F ++ payload)); [assoc|lens|done].
  - apply (rd32_at 8 (M ++ V) T (C ++ zeros 12 ++ F ++ payload)); [subst l; assoc|lens|done].
  - apply (rd32_at 12 (M ++ V ++ T) C (zeros 12 ++ F ++ payload)); [subst l; assoc|lens|done].
  - apply (rd32_at 28 (M ++ V ++ T ++ C ++ zeros 12) F payload); [subst l; assoc|lens|done].
Qed.

Lemma layout_crc (C C' : list Z) : length C = 4%nat → length C' = 4%nat →
  put 12 C' (layout M V T C F payload) = Ret (layout M V T C' F payload).
Proof.
  intros HC HC'. rewrite (put_at 12 (M ++ V ++ T) C' C (zeros 12 ++ F ++ payload)); [assoc|assoc|lens|lens].
Qed.

(** Filling the fields of a zeroed image, one after the other. *)
Lemma layout_build :
  ∃ i1 i2 i3 i4, put 0 M (replicate (32 + length payload) 0) = Ret i1 ∧ put 4 V i1 = Ret i2 ∧
    length i2 = (32 + length payload)%nat ∧ put 8 T i2 = Ret i3 ∧ put 28 F i3 = Ret i4 ∧
    put 32 payload i4 = Ret (layout M V T (zeros 4) F payload).
Proof.
  assert (replicate (32 + length payload) 0 =
    zeros 4 ++ zeros 4 ++ zeros 4 ++ zeros 4 ++ zeros 12 ++ zeros 4 ++ zeros (length payload)) as ->.
  { unfold zeros. by rewrite <- !replicate_add. }
  set (zp := zeros (length payload)). assert (length zp = length payload) as Hzp by apply length_replicate.
  eexists _, _, _, _. split_and!.
  - apply (put_at 0 [] M (zeros 4) (zeros 4 ++ zeros 4 ++ zeros 4 ++ zeros 12 ++ zeros 4 ++ zp)); (done || lens).
  - apply (put_at 4 M V (zeros 4) (zeros 4 ++ zeros 4 ++ zeros 12 ++ zeros 4 ++ zp)); (done || lens).
  - lens.
  - apply (put_at 8 (M ++ V) T (zeros 4) (zeros 4 ++ zeros 12 ++ zeros 4 ++ zp)); (assoc || lens).
  - apply (put_at 28 ((M ++ V) ++ T ++ zeros 4 ++ zeros 12) F (zeros 4) zp); (assoc || lens).
  - rewrite (put_at 32 (((M ++ V) ++ T ++ zeros 4 ++ zeros 12) ++ F) payload zp []);
      [by rewrite app_nil_r; assoc|by rewrite app_nil_r; assoc|lens|done].
Qed.

End layout.

(** ** Claims *)

(** Slots round trip. An image built for any version and payload whose length fits its
    field is accepted, with the version, the checksum of the image with a cleared checksum
    field, and the trial flag. A header whose length field is below 16, however, makes
    the parser panic, and with it the choice of the slot. *)
Theorem ota_slot_roundtrip :
  (∀ version payload trial, 0 <= version < 2 ^ 32 → 32 + Z.of_nat (length payload) < 2 ^ 32 →
     ∃ img crc, make_slot version payload trial = Ret img ∧ length img = (32 + length payload)%nat ∧
       parse_slot img = Ret (Ok (version, crc, if trial then 1 else 0)) ∧ drop 32 img = payload) ∧
  ∃ img, length img = 32%nat ∧ Forall is_byte img ∧ parse_slot img = Panic ∧ ∀ b, select_slot img b = Panic.
Proof.
  split.
  - intros version payload trial Hv Hp.
    set (M := le_bytes 4 KOTA_MAGIC). set (V := le_bytes 4 version). set (T := le_bytes 4 (32 + Z.of_nat (length payload))).
    set (F := le_bytes 4 (if trial then KOTA_FLAG_TRIAL else 0)).
    assert (length M = 4%nat ∧ length V = 4%nat ∧ length T = 4%nat ∧ length F = 4%nat) as (HM & HV & HT & HF)
      by (repeat split; apply (le_bytes_length 4)).
    set (crc := crc32 (layout M V T (zeros 4) F payload)). set (C := le_bytes 4 crc).
    assert (length C = 4%nat) as HC by apply (le_bytes_length 4).
    assert (0 <= crc < 2 ^ 32) as Hcrc by (apply Z.mod_pos_bound; lia).
    exists (layout M V T C F payload), crc.
    pose proof (layout_length M V T F payload HM HV HT HF C HC) as Hlen. split; [|split; [done|split]].
    + destruct (layout_build M V T F payload HM HV HT HF) as (i1 & i2 & i3 & i4 & E1 & E2 & L2 & E3 & E4 & E5).
      unfold make_slot. change (Z.to_nat KOTA_HEADER_LEN) with 32%nat. fold M V F.
      rewrite E1. cbn [exec_bind]. rewrite E2. cbn [exec_bind].
      replace (u32 (Z.of_nat (length i2))) with (32 + Z.of_nat (length payload)) by (unfold u32, wrap; rewrite Z.mod_small; lia).
      fold T. rewrite E3. cbn [exec_bind]. rewrite E4. cbn [exec_bind]. rewrite E5. cbn [exec_bind].
      by apply layout_crc.
    + unfold parse_slot. rewrite Hlen. destruct (layout_fields M V T F payload HM HV HT HF C HC) as (-> & -> & -> & -> & ->).
      unfold KOTA_HEADER_LEN. rewrite (proj2 (Z.ltb_ge _ _)) by lia. cbn [negb].
      change (of_le M =? KOTA_MAGIC) with true. cbn [negb].
      assert (of_le T = 32 + Z.of_nat (length payload)) as ->.
      { unfold T. rewrite of_le_bytes by lia. apply Z.mod_small. lia. }
      rewrite Z.min_l, take_ge by lia. change [0; 0; 0; 0] with (zeros 4).
      rewrite layout_crc by done. cbn [exec_bind]. fold crc.
      assert (of_le C = crc) as -> by (unfold C; rewrite of_le_bytes by lia; by apply Z.mod_small).
      rewrite Z.eqb_refl. cbn [negb]. do 4 f_equal; [f_equal|].
      * unfold V. rewrite of_le_bytes by lia. by apply Z.mod_small.
      * unfold F. rewrite of_le_bytes by lia. by destruct trial.
    + unfold layout. rewrite !app_assoc. apply drop_app_length'. rewrite !length_app, HM, HV, HT, HC, HF. reflexivity.
  - exists (layout (le_bytes 4 KOTA_MAGIC) (zeros 4) (zeros 4) (zeros 4) (zeros 4) []).
    split; [reflexivity|]. split; [|split; [reflexivity|done]].
    apply (bool_decide_unpack _). vm_compute. exact I.
Qed.

(** An image and one changed byte: what is rejected. *)
Lemma changed_byte_rejected (a : list Z) (i : nat) (y v c f : Z) :
  Forall is_byte a → is_byte y → a !! i ≠ Some y → (i < length a)%nat → ¬ (8 <= i < 12)%nat →
  parse_slot a = Ret (Ok (v, c, f)) → rd32 a 8 = Z.of_nat (length a) →
  parse_slot (<[i:=y]> a) = Ret (Err (if decide (i < 4)%nat then BadMagic else BadCrc)).
Proof.
  intros Ha Hy Hne Hi H8 Hp Hlen. unfold parse_slot in *. rewrite length_insert.
  destruct (Z.ltb_spec (Z.of_nat (length a)) KOTA_HEADER_LEN) as [|Hl]; [done|]. unfold KOTA_HEADER_LEN in Hl.
  destruct (Z.eqb_spec (rd32 a 0) KOTA_MAGIC) as [Hm|]; [|done]. cbn [negb] in Hp.
  case_decide as H4.
  { rewrite (proj2 (Z.eqb_neq _ _)); [done|]. rewrite <- Hm. apply rd32_insert; (done || lia). }
  rewrite (rd32_other a 0) by lia. rewrite Hm, Z.eqb_refl. cbn [negb].
  rewrite (rd32_other a 8) by lia. rewrite Hlen, Z.min_id, Nat2Z.id in *.
  rewrite take_ge in Hp by lia. rewrite take_ge by (rewrite length_insert; lia).
  unfold put in *. rewrite length_insert. rewrite decide_True in * by (cbn [length]; lia). cbn [exec_bind] in *.
  set (probe := take 12 a ++ _ ++ _) in Hp.
  destruct (Z.eqb_spec (crc32 probe) (rd32 a 12)) as [Hc|]; [|done]. cbn [negb] in Hp.
  rewrite (proj2 (Z.eqb_neq _ _)); [done|]. destruct (decide (12 <= i < 16)%nat) as [H12|H12].
  - rewrite take_insert_ge, drop_insert_lt by (cbn [length]; lia). fold probe. rewrite Hc. apply not_eq_sym.
    apply rd32_insert; (done || lia).
  - rewrite rd32_other, <- Hc by lia. rewrite patch_insert by (cbn [length]; lia). fold probe.
    assert (probe !! i = a !! i) as Ei.
    { unfold probe. destruct (decide (i < 12)%nat).
      - rewrite lookup_app_l by (rewrite length_take; lia). by rewrite lookup_take_lt.
      - rewrite lookup_app_r by (rewrite length_take; lia). rewrite length_take, Nat.min_l by lia.
        rewrite lookup_app_r by (cbn [length]; lia). cbn [length]. rewrite lookup_drop. f_equal. lia. }
    assert (length probe = length a) as El.
    { unfold probe. rewrite !length_app, length_take, length_drop. cbn [length]. lia. }
    assert (Forall is_byte probe) as Hb.
    { unfold probe. apply Forall_app. split; [by apply Forall_take|]. apply Forall_app. split; [|by apply Forall_drop].
      clear. repeat first [apply Forall_nil_2|apply Forall_cons_2]; unfold is_byte; lia. }
    destruct (lookup_lt_is_Some_2 probe i) as [x Hx]; [lia|].
    rewrite (insert_take_drop probe) by lia.
    rewrite <- (take_drop_middle probe i x Hx) in Hb. rewrite <- (take_drop_middle probe i x Hx) at 3.
    apply not_eq_sym, crc32_one_byte; [done|done|congruence].
Qed.

(** C26: A damaged slot is not booted. If a slot is accepted and its length field is the
    length of the image, then changing any single byte outside that field makes the
    slot be rejected, as a bad magic in the first four bytes and as a bad
    checksum elsewhere; the choice then falls on the other slot if that one is accepted. *)
Theorem ota_detects_corruption (a b : list Z) (i : nat) (y : Z) (ra rb : Z * Z * Z) :
  Forall is_byte a → is_byte y → a !! i ≠ Some y → (i < length a)%nat → ¬ (8 <= i < 12)%nat →
  parse_slot a = Ret (Ok ra) → rd32 a 8 = Z.of_nat (length a) → parse_slot b = Ret (Ok rb) →
  parse_slot (<[i:=y]> a) = Ret (Err (if decide (i < 4)%nat then BadMagic else BadCrc)) ∧
  select_slot (<[i:=y]> a) b = Ret 1 ∧ select_slot b (<[i:=y]> a) = Ret 0.
Proof.
  intros Ha Hy Hne Hi H8 Hp Hlen Hb. destruct ra as [[v c] f], rb as [[v' c'] f'].
  assert (parse_slot (<[i:=y]> a) = Ret (Err (if decide (i < 4)%nat then BadMagic else BadCrc))) as E
    by (by eapply changed_byte_rejected). split; [done|]. unfold select_slot. by rewrite E, Hb.
Qed.

(** A slot with the payload "k", its byte changed. *)
Definition demo_slot : list Z := match make_slot 3 [107] false with Ret l => l | Panic => [] end.

Lemma ota_detects_corruption_witness :
  parse_slot (<[32%nat:=106]> demo_slot) = Ret (Err BadCrc) ∧
  select_slot (<[32%nat:=106]> demo_slot) demo_slot = Ret 1 ∧ select_slot demo_slot (<[32%nat:=106]> demo_slot) = Ret 0.
Proof.
  apply (ota_detects_corruption demo_slot demo_slot 32 106 (3, rd32 demo_slot 12, 0) (3, rd32 demo_slot 12, 0)).
  - apply (bool_decide_unpack _). vm_compute. exact I.
  - unfold is_byte. lia.
  - vm_compute. discriminate.
  - vm_compute. lia.
  - lia.
  - vm_compute. reflexivity.
  - vm_compute. reflexivity.
  - vm_compute. reflexivity.
Defined.

End Ota.
