(* ===== verification/TokPipe.v ===== *)
(** The token pipe of kernel/src/tokpipe.rs: a ring of 256 slots of up to 64
    bytes, with positions that run over twice the ring so that full and empty differ.
    [push] overwrites the oldest token when the ring is full; [view] lends two
    slices of the ring, and [consume] moves the read position. *)

From stdpp Require Import base numbers list.
From Stdlib Require Import ZArith Lia.
From S2P Require Import Prelude Ring.
Local Open Scope Z_scope.
Local Open Scope rust_scope.

Module TokPipe.
Import Ring.

Definition TOKEN_SLOTS : Z := 256.
Definition TOKEN_MAX : Z := 64.

Record TokenSlot := mkSlot { slot_len : Z; slot_data : list Z }.

#[global] Instance slot_inhabited : Inhabited TokenSlot := populate (mkSlot 0 []).

Record TokenPipe := mkPipe { ring : list TokenSlot; head : Z; tail : Z; dropped : Z }.

Definition new : TokenPipe :=
  mkPipe (replicate (Z.to_nat TOKEN_SLOTS) (mkSlot 0 (replicate (Z.to_nat TOKEN_MAX) 0))) 0 0 0.

Definition len (p : TokenPipe) : Z := (head p -! tail p) mod (TOKEN_SLOTS * 2).

Definition is_empty (p : TokenPipe) : bool := head p =? tail p.

(** [slot.data[..n].copy_from_slice(&data[..n])]: the rest of the slot keeps its bytes. *)
Definition fill (s : TokenSlot) (n : nat) (data : list Z) : TokenSlot :=
  mkSlot (Z.of_nat n) (take n data ++ drop n (slot_data s)).

Definition push (p : TokenPipe) (data : list Z) : exec TokenPipe :=
  let n := Nat.min (length data) (Z.to_nat TOKEN_MAX) in
  let full := len p =? TOKEN_SLOTS in
  let t := if full then (tail p +! 1) mod (TOKEN_SLOTS * 2) else tail p in
  let d := if full then dropped p +! 1 else dropped p in
  let! slot := index (ring p) (head p mod TOKEN_SLOTS) in
  let! r := index_set (ring p) (head p mod TOKEN_SLOTS) (fill slot n data) in
  Ret (mkPipe r ((head p +! 1) mod (TOKEN_SLOTS * 2)) t d).

(** [&v[a..b]] *)
Definition range (v : list TokenSlot) (a b : Z) : exec (list TokenSlot) :=
  if (a <=? b) && (b <=? Z.of_nat (length v)) then Ret (take (Z.to_nat (b - a)) (drop (Z.to_nat a) v)) else Panic.

Definition view (p : TokenPipe) (max : Z) : exec (list TokenSlot * list TokenSlot * Z) :=
  let avail := Z.min (len p) max in
  if avail =? 0 then Ret ([], [], 0)
  else
    let t := tail p mod TOKEN_SLOTS in
    let first := Z.min (TOKEN_SLOTS - t) avail in
    if first =? avail then
      let! s0 := range (ring p) t (t + first) in
      let! s1 := range (ring p) 0 0 in
      Ret (s0, s1, avail)
    else
      let! s0 := range (ring p) t (Z.of_nat (length (ring p))) in
      let! s1 := range (ring p) 0 (avail - first) in
      Ret (s0, s1, avail).

Definition consume (p : TokenPipe) (n : Z) : TokenPipe :=
  mkPipe (ring p) (head p) ((tail p +! n) mod (TOKEN_SLOTS * 2)) (dropped p).

(** ** The pipe as a queue *)

Definition token (s : TokenSlot) : list Z := take (Z.to_nat (slot_len s)) (slot_data s).

Record pipe_ok (p : TokenPipe) : Prop := {
  po_ring : Z.of_nat (length (ring p)) = TOKEN_SLOTS;
  po_head : 0 <= head p < 512;
  po_tail : 0 <= tail p < 512;
  po_len : len p <= 256;
  po_slot : Forall (fun s => length (slot_data s) = 64%nat) (ring p)
}.

Definition slots (p : TokenPipe) : list TokenSlot := window (ring p) (tail p mod 256) (Z.to_nat (len p)).

Definition tokens (p : TokenPipe) : list (list Z) := token <$> slots p.

Lemma len_of (r : list TokenSlot) (t n d : Z) : 0 <= t < 512 → 0 <= n < 512 → len (mkPipe r ((t + n) mod 512) t d) = n.
Proof.
  intros Ht Hn. unfold len, TOKEN_SLOTS, u64, wrap. cbn [head tail].
  Z.to_euclidean_division_equations; lia.
Qed.

Lemma head_of (p : TokenPipe) : pipe_ok p → 0 <= len p <= 256 ∧ head p = (tail p + len p) mod 512.
Proof.
  intros [_ Hh Ht Hl _]. unfold len, TOKEN_SLOTS, u64, wrap in *. change (256 * 2) with 512 in *.
  split; [split; [apply Z.mod_pos_bound; lia|done]|]. Z.to_euclidean_division_equations; lia.
Qed.

Lemma mod_512_256 (x : Z) : (x mod 512) mod 256 = x mod 256.
Proof. Z.to_euclidean_division_equations; lia. Qed.

Lemma tokens_length (p : TokenPipe) : length (tokens p) = Z.to_nat (len p).
Proof. unfold tokens, slots. by rewrite length_fmap, window_length. Qed.

Lemma fill_token (s : TokenSlot) (data : list Z) : length (slot_data s) = 64%nat →
  let s' := fill s (Nat.min (length data) 64) data in token s' = take 64 data ∧ length (slot_data s') = 64%nat.
Proof.
  intros Hs s'. subst s'. unfold token, fill. cbn [slot_len slot_data]. split.
  - rewrite Nat2Z.id, take_app_le by (rewrite length_take; lia). rewrite take_take, Nat.min_id.
    destruct (decide (length data <= 64)%nat); [by rewrite !take_ge by lia|by rewrite Nat.min_r by lia].
  - rewrite length_app, length_take, length_drop, Hs. lia.
Qed.

(** A push drops the oldest token exactly when the ring is full. *)
Definition overflow (p : TokenPipe) : nat := if len p =? 256 then 1 else 0.

Lemma push_ok (p : TokenPipe) (data : list Z) : pipe_ok p →
  ∃ p', push p data = Ret p' ∧ pipe_ok p' ∧ dropped p' = (if len p =? 256 then dropped p +! 1 else dropped p) ∧
    tokens p' = drop (overflow p) (tokens p) ++ [take 64 data].
Proof.
  intros Hok. destruct (head_of p Hok) as [Hl Hh]. pose proof Hok as [Hr Hhr Htr _ Hs].
  set (k := Z.of_nat (overflow p)). assert (0 <= k <= len p ∧ len p - k < 256) as [Hk Hlk].
  { subst k. unfold overflow. destruct (Z.eqb_spec (len p) 256); lia. }
  set (t := (tail p + k) mod 512). assert (0 <= t < 512) as Ht by (apply Z.mod_pos_bound; lia).
  assert ((if len p =? TOKEN_SLOTS then (tail p +! 1) mod (TOKEN_SLOTS * 2) else tail p) = t) as Et.
  { subst t k. unfold overflow, TOKEN_SLOTS. destruct (Z.eqb_spec (len p) 256).
    - by rewrite u64_small by lia.
    - rewrite Z.add_0_r. symmetry. by apply Z.mod_small. }
  assert ((head p + 1) mod 512 = (t + (len p - k + 1)) mod 512) as Eh.
  { rewrite Hh. subst t. rewrite !Zplus_mod_idemp_l. f_equal. lia. }
  assert (head p mod 256 = (t mod 256 + Z.of_nat (Z.to_nat (len p - k))) mod 256) as Epos.
  { rewrite Hh, Z2Nat.id, Zplus_mod_idemp_l by lia. subst t. rewrite <- (mod_512_256 (_ mod 512 + _)), Zplus_mod_idemp_l.
    rewrite !mod_512_256. f_equal. lia. }
  assert (0 <= head p mod 256 < 256) as Hp by (apply Z.mod_pos_bound; lia).
  destruct (index_in (ring p) (head p mod 256)) as (s & Hsl & Hix); [unfold TOKEN_SLOTS in *; lia|].
  pose proof (proj1 (Forall_lookup _ _) Hs _ _ Hsl) as Hs64. destruct (fill_token s data Hs64) as [Htok Hdl].
  set (s' := fill s (Nat.min (length data) 64) data) in *.
  unfold push. change (Z.to_nat TOKEN_MAX) with 64%nat. fold s'. rewrite Et. change (TOKEN_SLOTS * 2) with 512. unfold TOKEN_SLOTS in *.
  rewrite Hix. cbn [exec_bind]. fold s'. rewrite index_set_in by lia. cbn [exec_bind].
  rewrite (u64_small (head p + 1)), Eh by lia. eexists. split; [reflexivity|].
  assert (∀ r d, len (mkPipe r ((t + (len p - k + 1)) mod 512) t d) = len p - k + 1) as Elen by (intros; apply len_of; lia).
  split; [split; cbn [ring head tail]|split; [done|]].
  - by rewrite length_insert.
  - apply Z.mod_pos_bound. lia.
  - done.
  - rewrite Elen. lia.
  - by apply Forall_insert.
  - unfold tokens, slots. rewrite Elen. cbn [ring tail]. replace (Z.to_nat (len p - k + 1)) with (S (Z.to_nat (len p - k))) by lia.
    pose proof (window_back (ring p) (t mod 256) (Z.to_nat (len p - k)) s') as Hw. rewrite Hr in Hw.
    rewrite <- Epos in Hw. rewrite Hw by (lia || apply Z.mod_pos_bound; lia). rewrite fmap_app, <- fmap_drop. cbn [fmap list_fmap].
    rewrite Htok. do 2 f_equal. rewrite window_drop by lia. rewrite Hr. f_equal; [|lia].
    subst t k. by rewrite mod_512_256, Zplus_mod_idemp_l.
Qed.

Lemma window_split (r : list TokenSlot) (t n : Z) : Z.of_nat (length r) = 256 → 0 <= t < 256 → 0 <= n <= 256 →
  window r t (Z.to_nat n) =
    if decide (n <= 256 - t) then take (Z.to_nat n) (drop (Z.to_nat t) r)
    else drop (Z.to_nat t) r ++ take (Z.to_nat (n - (256 - t))) r.
Proof.
  intros Hr Ht Hn. apply list_eq. intros i. unfold window. rewrite list_lookup_fmap, Hr.
  destruct (decide (i < Z.to_nat n)%nat) as [Hi|Hi].
  - rewrite lookup_seq_lt by lia. cbn. rewrite <- list_lookup_lookup_total_lt by (Z.to_euclidean_division_equations; lia).
    case_decide.
    + rewrite lookup_take_lt, lookup_drop by lia. f_equal. rewrite Z.mod_small; lia.
    + destruct (decide (i < 256 - Z.to_nat t)%nat).
      * rewrite lookup_app_l, lookup_drop by (rewrite length_drop; lia). f_equal. rewrite Z.mod_small; lia.
      * rewrite lookup_app_r by (rewrite length_drop; lia). rewrite length_drop, lookup_take_lt by lia. f_equal.
        Z.to_euclidean_division_equations; lia.
  - rewrite lookup_seq_ge by lia. cbn. symmetry. apply lookup_ge_None.
    case_decide; rewrite ?length_app, ?length_take, ?length_drop; lia.
Qed.

Lemma view_ok (p : TokenPipe) (max : Z) : pipe_ok p → 0 <= max →
  ∃ s0 s1, view p max = Ret (s0, s1, Z.min (len p) max) ∧ token <$> s0 ++ s1 = take (Z.to_nat max) (tokens p).
Proof.
  intros Hok Hm. destruct (head_of p Hok) as [Hl Hh]. pose proof Hok as [Hr Hhr Htr _ Hs].
  set (a := Z.min (len p) max). set (t := tail p mod 256). assert (0 <= t < 256) as Ht by (apply Z.mod_pos_bound; lia).
  assert (take (Z.to_nat max) (tokens p) = token <$> window (ring p) t (Z.to_nat a)) as ->.
  { unfold tokens, slots. fold t. rewrite <- fmap_take. f_equal.
    destruct (decide (max <= len p)); [rewrite window_take by lia; f_equal; lia|].
    rewrite take_ge by (rewrite window_length; lia). f_equal. lia. }
  rewrite window_split by (unfold TOKEN_SLOTS in *; lia). unfold view, TOKEN_SLOTS in *. fold a t.
  destruct (Z.eqb_spec a 0) as [->|Ha]; [exists [], []; by rewrite decide_True by lia|].
  unfold range. destruct (Z.eqb_spec (Z.min (256 - t) a) a) as [He|He].
  - rewrite decide_True by lia. rewrite He.
    rewrite (proj2 (Z.leb_le t _)), (proj2 (Z.leb_le (t + a) _)), (proj2 (Z.leb_le 0 (Z.of_nat _))) by lia. cbn.
    eexists _, _. split; [reflexivity|]. rewrite app_nil_r. do 2 f_equal. lia.
  - rewrite decide_False by lia. replace (Z.min (256 - t) a) with (256 - t) by lia.
    rewrite (proj2 (Z.leb_le t _)), Z.leb_refl, (proj2 (Z.leb_le 0 (a - _))), (proj2 (Z.leb_le (a - _) _)) by lia. cbn.
    eexists _, _. split; [reflexivity|]. rewrite Hr. f_equal. f_equal.
    + rewrite take_ge; [done|rewrite length_drop; lia].
    + rewrite Z.sub_0_r. by rewrite drop_0.
Qed.

Lemma consume_ok (p : TokenPipe) (n : Z) : pipe_ok p → 0 <= n <= len p →
  pipe_ok (consume p n) ∧ tokens (consume p n) = drop (Z.to_nat n) (tokens p).
Proof.
  intros Hok Hn. destruct (head_of p Hok) as [Hl Hh]. pose proof Hok as [Hr Hhr Htr _ Hs].
  set (t := (tail p + n) mod 512). assert (0 <= t < 512) as Ht by (apply Z.mod_pos_bound; lia).
  assert (consume p n = mkPipe (ring p) ((t + (len p - n)) mod 512) t (dropped p)) as ->.
  { unfold consume, TOKEN_SLOTS. rewrite u64_small by lia. f_equal. rewrite Hh. subst t. rewrite Zplus_mod_idemp_l. f_equal. lia. }
  assert (∀ r d, len (mkPipe r ((t + (len p - n)) mod 512) t d) = len p - n) as Elen by (intros; apply len_of; lia).
  split; [split; cbn [ring head tail]; try done; [apply Z.mod_pos_bound; lia|rewrite Elen; lia]|].
  unfold tokens, slots. rewrite Elen. cbn [ring tail]. rewrite <- fmap_drop, window_drop by lia. unfold TOKEN_SLOTS in Hr.
  rewrite Hr. do 2 f_equal; [|lia]. subst t. rewrite mod_512_256, Zplus_mod_idemp_l. do 2 f_equal. lia.
Qed.

(** ** Claims *)

Inductive tok_op := TPush (data : list Z) | TView (max : Z) | TConsume (n : Z).

Definition tok_step (p : TokenPipe) (o : tok_op) : exec (list (list Z) * TokenPipe) :=
  match o with
  | TPush d => let! p := push p d in Ret ([], p)
  | TView m => let! v := view p m in let '(s0, s1, _) := v in Ret (token <$> s0 ++ s1, p)
  | TConsume n => Ret ([], consume p n)
  end.

(** The queue on lists: at most 256 tokens of at most 64 bytes, with the number lost. *)
Definition tok_spec (q : list (list Z) * Z) (o : tok_op) : list (list Z) * (list (list Z) * Z) :=
  match o with
  | TPush d =>
      if decide (length q.1 = 256%nat) then ([], (drop 1 q.1 ++ [take 64 d], q.2 +! 1)) else ([], (q.1 ++ [take 64 d], q.2))
  | TView m => (take (Z.to_nat m) q.1, q)
  | TConsume n => ([], (drop (Z.to_nat n) q.1, q.2))
  end.

(** The caller consumes no more than there is. *)
Definition tok_pre (q : list (list Z) * Z) (o : tok_op) : Prop :=
  match o with TPush _ => True | TView m => 0 <= m | TConsume n => 0 <= n <= Z.of_nat (length q.1) end.

Fixpoint tok_run (p : TokenPipe) (os : list tok_op) : exec (list (list (list Z)) * TokenPipe) :=
  match os with
  | [] => Ret ([], p)
  | o :: os => let! r := tok_step p o in let! rs := tok_run (snd r) os in Ret (fst r :: fst rs, snd rs)
  end.

Fixpoint tok_spec_run (q : list (list Z) * Z) (os : list tok_op) : list (list (list Z)) * (list (list Z) * Z) :=
  match os with
  | [] => ([], q)
  | o :: os => let r := tok_spec q o in let rs := tok_spec_run (snd r) os in (fst r :: fst rs, snd rs)
  end.

Fixpoint tok_allowed (q : list (list Z) * Z) (os : list tok_op) : Prop :=
  match os with [] => True | o :: os => tok_pre q o ∧ tok_allowed (snd (tok_spec q o)) os end.

Lemma tok_step_ok (p : TokenPipe) (o : tok_op) : pipe_ok p → tok_pre (tokens p, dropped p) o →
  ∃ p', tok_step p o = Ret (fst (tok_spec (tokens p, dropped p) o), p') ∧ pipe_ok p' ∧
    (tokens p', dropped p') = snd (tok_spec (tokens p, dropped p) o).
Proof.
  intros Hok Hpre. destruct (head_of p Hok) as [Hl _]. destruct o as [d|m|n]; cbn [tok_step tok_spec tok_pre fst snd] in *.
  - destruct (push_ok p d Hok) as (p' & -> & Hok' & Hd & Ht). exists p'. cbn [exec_bind]. rewrite tokens_length.
    unfold overflow in Ht. destruct (Z.eqb_spec (len p) 256) as [E|E].
    + rewrite decide_True by lia. by rewrite Ht, Hd.
    + rewrite decide_False by lia. by rewrite Ht, Hd, drop_0.
  - destruct (view_ok p m Hok Hpre) as (s0 & s1 & -> & Hv). exists p. cbn [exec_bind]. by rewrite Hv.
  - rewrite tokens_length in Hpre. destruct (consume_ok p n Hok) as [Hok' Ht]; [lia|]. exists (consume p n).
    split; [done|]. split; [done|]. by rewrite Ht.
Qed.

Lemma tok_run_ok (os : list tok_op) : ∀ p, pipe_ok p → tok_allowed (tokens p, dropped p) os →
  ∃ p', tok_run p os = Ret (fst (tok_spec_run (tokens p, dropped p) os), p') ∧ pipe_ok p' ∧
    (tokens p', dropped p') = snd (tok_spec_run (tokens p, dropped p) os).
Proof.
  induction os as [|o os IH]; intros p Hok Hal; cbn; [by exists p|]. destruct Hal as [Hpre Hal].
  destruct (tok_step_ok p o Hok Hpre) as (p1 & -> & Hok1 & E1). cbn. rewrite <- E1 in *.
  destruct (IH p1 Hok1 Hal) as (p' & -> & Hok' & E'). by exists p'.
Qed.

Lemma new_ok : pipe_ok new ∧ tokens new = [] ∧ dropped new = 0.
Proof.
  split; [|done]. split; [unfold new; cbn [ring]; by rewrite length_replicate|done|done|done|].
  by apply Forall_replicate.
Qed.

(** The token pipe is a queue of the latest tokens. Any pushes, views and consumptions
    of no more tokens than there are behave as on a list of at most 256 tokens cut to 64 bytes,
    with the number of overwritten tokens counted; the slices lent are
    inside the ring and hold the oldest tokens in order, also around its end. [consume]
    does not check its argument: one token consumed from the empty pipe leaves 511. *)
Theorem token_pipe_is_queue :
  (∀ os, tok_allowed ([], 0) os → ∃ p, tok_run new os = Ret (fst (tok_spec_run ([], 0) os), p) ∧ pipe_ok p ∧
     (tokens p, dropped p) = snd (tok_spec_run ([], 0) os)) ∧
  is_empty new = true ∧ len (consume new 1) = 511.
Proof.
  destruct new_ok as (Hok & Ht & Hd). split; [|done]. intros os. rewrite <- Ht, <- Hd at 1. intros Hal.
  destruct (tok_run_ok os new Hok Hal) as (p & E & Hok' & Ep). rewrite Ht, Hd in E, Ep. by exists p.
Qed.

End TokPipe.
