(* ===== verification/Wire.v ===== *)
(** Wire formats: MQTT packets (kernel/src/mqtt.rs), the compact tool-call frames
    and the call table (kernel/src/mcp_cb.rs) and the mDNS announcement
    (kernel/src/mdns.rs).

    Buffers are lists of bytes; a [&str] is a list of bytes that passes [utf8],
    the check of [core::str::from_utf8]. Lengths are cut to the width of their
    field where the code casts them. *)

From stdpp Require Import base numbers list list_numbers sets.
From Stdlib Require Import ZArith Lia.
From S2P Require Import Prelude.
Local Open Scope Z_scope.
Local Open Scope rust_scope.

(** ** UTF-8 *)

Module Utf8.

Definition between (lo hi b : Z) : bool := (lo <=? b) && (b <=? hi).
Definition cont (b : Z) : bool := between 0x80 0xBF b.

(** The second byte allowed after a lead byte of three, and of four bytes. *)
Definition second3 (b0 b1 : Z) : bool :=
  if b0 =? 0xE0 then between 0xA0 0xBF b1 else if b0 =? 0xED then between 0x80 0x9F b1 else cont b1.
Definition second4 (b0 b1 : Z) : bool :=
  if b0 =? 0xF0 then between 0x90 0xBF b1 else if b0 =? 0xF4 then between 0x80 0x8F b1 else cont b1.

(** [from_utf8(l).is_ok()] *)
Fixpoint utf8 (l : list Z) : bool :=
  match l with
  | [] => true
  | b0 :: l1 =>
      if b0 <? 0x80 then utf8 l1
      else match l1 with
      | [] => false
      | b1 :: l2 =>
          if between 0xC2 0xDF b0 then cont b1 && utf8 l2
          else match l2 with
          | [] => false
          | b2 :: l3 =>
              if between 0xE0 0xEF b0 then second3 b0 b1 && cont b2 && utf8 l3
              else match l3 with
              | [] => false
              | b3 :: l4 => between 0xF0 0xF4 b0 && second4 b0 b1 && cont b2 && cont b3 && utf8 l4
              end
          end
      end
  end.

Lemma utf8_app (n : nat) : ∀ a b, (length a <= n)%nat → utf8 a = true → utf8 (a ++ b) = utf8 b.
Proof.
  induction n as [|n IH]; intros a b Hl Ha; [destruct a; [done|cbn in Hl; lia]|].
  destruct a as [|b0 [|b1 [|b2 [|b3 a]]]]; cbn [app utf8 length] in *; [done|..].
  - by destruct (b0 <? 0x80).
  - destruct (b0 <? 0x80); [apply (IH [b1]); [cbn; lia|done]|]. destruct (between 0xC2 0xDF b0); [|done].
    by rewrite andb_true_r in Ha; rewrite Ha.
  - destruct (b0 <? 0x80); [apply (IH [b1; b2]); [cbn; lia|done]|]. destruct (between 0xC2 0xDF b0).
    + apply andb_true_iff in Ha as [-> Ha]. apply (IH [b2]); [cbn; lia|done].
    + destruct (between 0xE0 0xEF b0); [|done]. by rewrite andb_true_r in Ha; rewrite Ha.
  - destruct (b0 <? 0x80); [apply (IH (b1 :: b2 :: b3 :: a)); [cbn; lia|done]|]. destruct (between 0xC2 0xDF b0).
    + apply andb_true_iff in Ha as [-> Ha]. apply (IH (b2 :: b3 :: a)); [cbn; lia|done].
    + destruct (between 0xE0 0xEF b0).
      * apply andb_true_iff in Ha as [-> Ha]. apply (IH (b3 :: a)); [cbn; lia|done].
      * apply andb_true_iff in Ha as [-> Ha]. apply (IH a); [cbn; lia|done].
Qed.

Lemma utf8_concat (a b : list Z) : utf8 a = true → utf8 (a ++ b) = utf8 b.
Proof. by apply (utf8_app (length a)). Qed.

Lemma utf8_ascii (l : list Z) : Forall (fun b => b < 0x80) l → utf8 l = true.
Proof. induction 1 as [|b l Hb _ IH]; [done|]. cbn [utf8]. by rewrite (proj2 (Z.ltb_lt _ _) Hb). Qed.

End Utf8.

(** [u16::to_be_bytes] and back. *)
Definition be16 (x : Z) : list Z := [u16 x / 256; u16 x mod 256].
Definition of_be16 (hi lo : Z) : Z := hi * 256 + lo.

Lemma of_be16_be16 (x : Z) : 0 <= x < 2 ^ 16 → of_be16 (u16 x / 256) (u16 x mod 256) = x.
Proof. intros Hx. unfold u16, wrap, of_be16. rewrite (Z.mod_small x) by done. Z.to_euclidean_division_equations; lia. Qed.

(** ** MQTT *)

Module Mqtt.
Import Utf8.

(** The loop of [encode_remaining_len]; ten bytes are enough for a usize. *)
Fixpoint encode_loop (fuel : nat) (n : Z) : list Z :=
  match fuel with
  | O => []
  | S fuel =>
      let b := u8 (n mod 128) in
      let n := n / 128 in
      if 0 <? n then Z.lor b 0x80 :: encode_loop fuel n else [b]
  end.

Definition encode_remaining_len (n : Z) : list Z := encode_loop 10 n.

Fixpoint decode_loop (buf : list Z) (i mult val : Z) : option (Z * Z) :=
  match buf with
  | [] => None
  | b :: buf =>
      let val := val +! (Z.land b 0x7F *! mult) in
      if Z.land b 0x80 =? 0 then Some (val, i + 1)
      else
        let mult := mult *! 128 in
        if 128 * 128 * 128 <? mult then None else decode_loop buf (i + 1) mult val
  end.

Definition decode_remaining_len (buf : list Z) : option (Z * Z) := decode_loop buf 0 1 0.

Definition push_str (s : list Z) : list Z := be16 (Z.of_nat (length s)) ++ s.

(** Fixed header and body. *)
Definition packet (first : Z) (body : list Z) : list Z := first :: encode_remaining_len (Z.of_nat (length body)) ++ body.

Definition connect_body (client_id : list Z) : list Z :=
  push_str [77; 81; 84; 84] ++ [4; 0x02] ++ be16 60 ++ push_str client_id.
Definition connect (client_id : list Z) : list Z := packet 0x10 (connect_body client_id).

Definition publish_body (topic payload : list Z) (pid : Z) : list Z := push_str topic ++ be16 pid ++ payload.
Definition publish (topic payload : list Z) (pid : Z) : list Z := packet 0x32 (publish_body topic payload pid).

Definition subscribe_body (topic_filter : list Z) (pid max_qos : Z) : list Z :=
  be16 pid ++ push_str topic_filter ++ [Z.min max_qos 1].
Definition subscribe (topic_filter : list Z) (pid max_qos : Z) : list Z := packet 0x82 (subscribe_body topic_filter pid max_qos).

Inductive Pkt :=
| ConnAck (code : Z)
| Publish (qos : Z) (pid : option Z) (topic payload : list Z)
| PubAck (pid : Z)
| SubAck (pid : Z) (codes : list Z)
| PingResp
| Other.

Definition byte_at (body : list Z) (i : nat) (d : Z) : Z := default d (body !! i).

Definition parse (first : Z) (body : list Z) : Pkt :=
  match Z.shiftr first 4 with
  | 2 => ConnAck (byte_at body 1 0xFF)
  | 3 =>
      let qos := Z.land (Z.shiftr first 1) 0x3 in
      match body with
      | hi :: lo :: _ =>
          let tlen := of_be16 hi lo in
          if Z.of_nat (length body) <? 2 + tlen then Other
          else
            let t := slice 2 (Z.to_nat tlen) body in
            let topic := if utf8 t then t else [] in
            let off := 2 + tlen in
            if (0 <? qos) && (off + 2 <=? Z.of_nat (length body)) then
              Publish qos (Some (of_be16 (byte_at body (Z.to_nat off) 0) (byte_at body (Z.to_nat off + 1) 0))) topic
                (drop (Z.to_nat (off + 2)) body)
            else Publish qos None topic (drop (Z.to_nat off) body)
      | _ => Other
      end
  | 4 => PubAck (of_be16 (byte_at body 0 0) (byte_at body 1 0))
  | 9 => SubAck (of_be16 (byte_at body 0 0) (byte_at body 1 0)) (drop 2 body)
  | 13 => PingResp
  | _ => Other
  end.

(** *** The length field *)

Lemma cont_byte (b : Z) : 0 <= b < 128 →
  Z.lor b 0x80 = b + 128 ∧ Z.land (b + 128) 0x7F = b ∧ Z.land (b + 128) 0x80 ≠ 0 ∧ Z.land b 0x7F = b ∧ Z.land b 0x80 = 0.
Proof.
  intros Hb.
  assert (∀ n, (n < 128)%nat → bool_decide (Z.lor (Z.of_nat n) 0x80 = Z.of_nat n + 128 ∧ Z.land (Z.of_nat n + 128) 0x7F = Z.of_nat n ∧
    Z.land (Z.of_nat n + 128) 0x80 ≠ 0 ∧ Z.land (Z.of_nat n) 0x7F = Z.of_nat n ∧ Z.land (Z.of_nat n) 0x80 = 0) = true) as H.
  { intros n Hn. do 128 (destruct n as [|n]; [vm_compute; reflexivity|]). lia. }
  specialize (H (Z.to_nat b) ltac:(lia)). apply bool_decide_eq_true in H. by rewrite Z2Nat.id in H by lia.
Qed.

Lemma pow128_bound (j : nat) : (j <= 4)%nat → 0 < 128 ^ Z.of_nat j <= 268435456.
Proof. intros Hj. do 5 (destruct j as [|j]; [vm_compute; intuition discriminate|]). lia. Qed.

(** From position [j] on, the encoding is read back exactly when it ends within four bytes. *)
Lemma decode_encode (fuel : nat) : ∀ n j i val rest, (j <= 3)%nat → 0 <= n < 128 ^ Z.of_nat fuel →
  0 <= val → val + n * 128 ^ Z.of_nat j < 2 ^ 64 → (0 < fuel)%nat →
  decode_loop (encode_loop fuel n ++ rest) i (128 ^ Z.of_nat j) val =
    if decide (n < 128 ^ Z.of_nat (4 - j)) then
      Some (val + n * 128 ^ Z.of_nat j, i + Z.of_nat (length (encode_loop fuel n))) else None.
Proof.
  induction fuel as [|fuel IH]; intros n j i val rest Hj Hn Hv Hb Hf; [lia|]. clear Hf.
  pose proof (pow128_bound j ltac:(lia)) as Hp. set (p := 128 ^ Z.of_nat j) in *.
  assert (0 <= n mod 128 < 128) as Hm by (apply Z.mod_pos_bound; lia).
  destruct (cont_byte (n mod 128) Hm) as (C1 & C2 & C3 & C4 & C5).
  assert (n mod 128 * p <= n * p) as Hle by (apply Z.mul_le_mono_nonneg_r; [lia|apply Z.mod_le; lia]).
  assert (0 <= n mod 128 * p) as Hge by nia.
  cbn [encode_loop]. unfold u8. rewrite wrap_small by lia. destruct (Z.ltb_spec 0 (n / 128)) as [Hq|Hq].
  - rewrite C1. cbn [app decode_loop]. rewrite C2, (proj2 (Z.eqb_neq _ _) C3).
    rewrite (u64_small (n mod 128 * p)), (u64_small (val + _)) by lia.
    assert (p * 128 = 128 ^ Z.of_nat (S j)) as Ep by (subst p; rewrite Nat2Z.inj_succ, Z.pow_succ_r by lia; lia).
    rewrite Ep. pose proof (pow128_bound (S j) ltac:(lia)) as Hp'. rewrite u64_small by lia.
    destruct (decide (j = 3%nat)) as [->|Hj3].
    + change (128 ^ Z.of_nat 4) with 268435456. cbn [Z.ltb Z.compare]. rewrite decide_False; [done|].
      change (128 ^ Z.of_nat (4 - 3)) with 128. Z.to_euclidean_division_equations; lia.
    + assert (128 ^ Z.of_nat (S j) <= 128 * 128 * 128) as Hs.
      { change (128 * 128 * 128) with (128 ^ 3). apply Z.pow_le_mono_r; lia. }
      rewrite (proj2 (Z.ltb_ge _ _)) by lia.
      destruct fuel as [|fuel]; [cbn in Hn; Z.to_euclidean_division_equations; lia|].
      rewrite IH; [|lia| |lia| |lia].
      * assert (128 ^ Z.of_nat (4 - j) = 128 * 128 ^ Z.of_nat (4 - S j)) as E4.
        { rewrite <- Z.pow_succ_r by lia. f_equal. lia. }
        set (q := 128 ^ Z.of_nat (4 - S j)) in *. rewrite E4. cbn [length].
        destruct (decide (n / 128 < q)) as [H1|H1].
        -- rewrite decide_True by (Z.to_euclidean_division_equations; lia). do 2 f_equal; [|lia].
           rewrite <- Ep. Z.to_euclidean_division_equations; nia.
        -- rewrite decide_False by (Z.to_euclidean_division_equations; lia). done.
      * rewrite Nat2Z.inj_succ, Z.pow_succ_r in Hn by lia. Z.to_euclidean_division_equations; lia.
      * rewrite <- Ep. Z.to_euclidean_division_equations; nia.
  - assert (n < 128) as Hs by (Z.to_euclidean_division_equations; lia).
    assert (n mod 128 = n) as Em by (apply Z.mod_small; lia). rewrite Em in *. cbn [app decode_loop length].
    rewrite C4, C5. cbn [Z.eqb]. rewrite (u64_small (n * p)), u64_small by lia. rewrite decide_True; [done|].
    assert (128 ^ 1 <= 128 ^ Z.of_nat (4 - j)) by (apply Z.pow_le_mono_r; lia). lia.
Qed.

Lemma remaining_len_roundtrip (n : Z) (rest : list Z) : 0 <= n < 2 ^ 63 →
  decode_remaining_len (encode_remaining_len n ++ rest) =
    if decide (n < 2 ^ 28) then Some (n, Z.of_nat (length (encode_remaining_len n))) else None.
Proof.
  intros Hn. unfold decode_remaining_len, encode_remaining_len. change 1 with (128 ^ Z.of_nat 0) at 1.
  rewrite (decode_encode 10 n 0 0 0 rest); [|lia| |lia|cbn; lia|lia].
  - change (128 ^ Z.of_nat (4 - 0)) with (2 ^ 28). change (128 ^ Z.of_nat 0) with 1. by rewrite Z.mul_1_r.
  - split; [lia|]. etransitivity; [apply Hn|]. by vm_compute.
Qed.

(** *** Packets *)

(** What is read back is decided by the length field alone. *)
Lemma parse_publish_split (len : Z) (t : list Z) (x y : Z) (rest : list Z) :
  u16 len = Z.of_nat (length t) →
  parse 0x32 (be16 len ++ t ++ x :: y :: rest) =
    Publish 1 (Some (of_be16 x y)) (if utf8 t then t else []) rest.
Proof.
  intros Hl. pose proof (wrap_range 16 len ltac:(lia)) as Hr. fold (u16 len) in Hr.
  unfold parse. change (Z.shiftr 0x32 4) with 3. change (Z.land (Z.shiftr 0x32 1) 0x3) with 1. cbn [be16 app].
  assert (of_be16 (u16 len / 256) (u16 len mod 256) = Z.of_nat (length t)) as ->.
  { rewrite <- Hl. unfold of_be16. Z.to_euclidean_division_equations; lia. }
  set (n := length t) in *.
  assert (Z.of_nat (length (u16 len / 256 :: u16 len mod 256 :: t ++ x :: y :: rest)) = 4 + Z.of_nat n + Z.of_nat (length rest))
    as -> by (cbn [length]; rewrite length_app; cbn [length]; lia).
  rewrite (proj2 (Z.ltb_ge _ _)), (proj2 (Z.leb_le _ _)) by lia. cbn [Z.ltb Z.compare andb].
  unfold slice. cbn [drop]. rewrite Nat2Z.id, drop_0, (take_app_length' t) by done.
  replace (Z.to_nat (2 + Z.of_nat n)) with (S (S n)) by lia. replace (Z.to_nat (2 + Z.of_nat n + 2)) with (S (S (n + 2))) by lia.
  rewrite Nat.add_comm. cbn [Nat.add]. unfold byte_at. cbn [lookup list_lookup drop].
  rewrite (list_lookup_middle t) by done.
  rewrite (lookup_app_r t) by lia. replace (S n - length t)%nat with 1%nat by lia. cbn [lookup list_lookup from_option].
  unfold id. f_equal. rewrite drop_app_ge by lia. by replace (n + 2 - length t)%nat with 2%nat by lia.
Qed.

Lemma parse_publish (topic payload : list Z) (pid : Z) :
  utf8 topic = true → Z.of_nat (length topic) < 2 ^ 16 → 0 <= pid < 2 ^ 16 →
  parse 0x32 (publish_body topic payload pid) = Publish 1 (Some pid) topic payload.
Proof.
  intros Hu Hl Hp. unfold publish_body, push_str. rewrite <- app_assoc. unfold be16 at 2. cbn [app].
  rewrite parse_publish_split by (unfold u16; apply wrap_small; lia). by rewrite of_be16_be16, Hu.
Qed.

(** A longer topic is cut where the wrapped length says. *)
Lemma parse_publish_long (topic payload : list Z) (pid : Z) :
  2 ^ 16 <= Z.of_nat (length topic) →
  let n := Z.to_nat (Z.of_nat (length topic) mod 2 ^ 16) in
  parse 0x32 (publish_body topic payload pid) =
    Publish 1 (Some (of_be16 (byte_at topic n 0) (byte_at topic (n + 1) 0)))
      (if utf8 (take n topic) then take n topic else []) (drop (n + 2) topic ++ be16 pid ++ payload).
Proof.
  intros Hl n. pose proof (Z.mod_pos_bound (Z.of_nat (length topic)) (2 ^ 16) ltac:(lia)) as Hm.
  assert (n + 1 < length topic)%nat as Hn.
  { subst n. change (2 ^ 16) with 65536 in *. Z.to_euclidean_division_equations; lia. }
  destruct (lookup_lt_is_Some_2 topic n) as [x Hx]; [lia|].
  destruct (lookup_lt_is_Some_2 topic (n + 1)) as [y Hy]; [lia|]. unfold byte_at. rewrite Hx, Hy. cbn [from_option].
  assert (topic = take n topic ++ x :: y :: drop (n + 2) topic) as Et.
  { rewrite <- (take_drop n topic) at 1. f_equal. rewrite (drop_S _ x n), (drop_S _ y (S n)) by (done || by rewrite <- Hy; f_equal; lia).
    do 3 f_equal. lia. }
  unfold publish_body, push_str. rewrite <- app_assoc. rewrite Et at 2. rewrite <- app_assoc. cbn [app].
  apply parse_publish_split. rewrite length_take, Nat.min_l by lia. subst n. rewrite Z2Nat.id by lia. done.
Qed.

(** C27: MQTT packets. The length field of every packet of less than 2^28 bytes of
    body is read back as the length of the body, that of a longer one is refused.
    The body of a QoS 1 message with a UTF-8 topic of less than 65536 bytes is
    parsed back to its topic, packet id and payload. A topic of 65536 bytes or
    more is cut where its length modulo 65536 says: the next two bytes of the
    topic are taken for the packet id, and the rest of it is read as payload. *)
Theorem mqtt_publish_roundtrip :
  (∀ first body, Z.of_nat (length body) < 2 ^ 63 → ∃ hdr, packet first body = first :: hdr ++ body ∧
     decode_remaining_len (hdr ++ body) =
       if decide (Z.of_nat (length body) < 2 ^ 28) then Some (Z.of_nat (length body), Z.of_nat (length hdr)) else None) ∧
  (∀ topic payload pid, utf8 topic = true → Z.of_nat (length topic) < 2 ^ 16 → 0 <= pid < 2 ^ 16 →
     publish topic payload pid = packet 0x32 (publish_body topic payload pid) ∧
     parse 0x32 (publish_body topic payload pid) = Publish 1 (Some pid) topic payload) ∧
  ∀ topic payload pid, 2 ^ 16 <= Z.of_nat (length topic) →
    let n := Z.to_nat (Z.of_nat (length topic) mod 2 ^ 16) in
    parse 0x32 (publish_body topic payload pid) =
      Publish 1 (Some (of_be16 (byte_at topic n 0) (byte_at topic (n + 1) 0)))
        (if utf8 (take n topic) then take n topic else []) (drop (n + 2) topic ++ be16 pid ++ payload).
Proof.
  split; [|split; [|exact parse_publish_long]].
  - intros first body Hl. exists (encode_remaining_len (Z.of_nat (length body))). split; [done|].
    apply remaining_len_roundtrip. lia.
  - intros topic payload pid Hu Hl Hp. split; [done|by apply parse_publish].
Qed.

End Mqtt.

(** ** Compact tool-call frames *)

Module McpCb.
Import Utf8.

(** MCB1 *)
Definition CB_MAGIC : list Z := [77; 67; 66; 49].

(** The rest of [l] behind the first occurrence of [pat]. *)
Fixpoint behind (pat l : list Z) : option (list Z) :=
  if decide (take (length pat) l = pat) then Some (drop (length pat) l)
  else match l with [] => None | _ :: l => behind pat l end.

Fixpoint until (c : Z) (l : list Z) : list Z :=
  match l with [] => [] | b :: l => if b =? c then [] else b :: until c l end.

(** The pattern is the key in quotes, a colon and a quote. *)
Definition json_str (json key : list Z) : option (list Z) :=
  until 34 <$> behind ([34] ++ key ++ [34; 58; 34]) json.

(** From the first opening brace on. *)
Fixpoint from_brace (l : list Z) : list Z :=
  match l with [] => [] | b :: l' => if b =? 123 then l else from_brace l' end.

(** The text up to the brace that closes the first one, outside of strings. *)
Fixpoint object (l : list Z) (depth : nat) (in_str : bool) : option (list Z) :=
  match l with
  | [] => None
  | c :: l' =>
      if in_str then
        if c =? 92 then match l' with [] => None | e :: l'' => (fun o => c :: e :: o) <$> object l'' depth true end
        else cons c <$> object l' depth (negb (c =? 34))
      else if c =? 34 then cons c <$> object l' depth true
      else if c =? 123 then cons c <$> object l' (S depth) false
      else if c =? 125 then
        match depth with
        | S O => Some [c]
        | _ => cons c <$> object l' (pred depth) false
        end
      else cons c <$> object l' depth false
  end.

(** The key is arguments, in quotes, and a colon. *)
Definition ARGUMENTS : list Z := [34; 97; 114; 103; 117; 109; 101; 110; 116; 115; 34; 58].

Definition find_arguments (buf : list Z) : option (list Z) :=
  match behind ARGUMENTS buf with
  | Some l => object (from_brace l) 0 false
  | None => None
  end.

(** The name key. *)
Definition NAME : list Z := [110; 97; 109; 101].

(** Magic, seq, name length, name, length and text of the arguments. *)
Definition cb_frame (seq : Z) (name args : list Z) : list Z :=
  CB_MAGIC ++ [seq] ++ [u8 (Z.of_nat (length name))] ++ name ++ le_bytes 2 (u16 (Z.of_nat (length args))) ++ args.

Definition json_to_cb (json_req : list Z) (seq : Z) : option (list Z) :=
  match json_str json_req NAME with
  | Some name => Some (cb_frame seq name (default [123; 125] (find_arguments json_req)))
  | None => None
  end.

Definition cb_parse (frame : list Z) : option (Z * list Z * list Z) :=
  let n := Z.of_nat (length frame) in
  if (n <? 8) || negb (bool_decide (take 4 frame = CB_MAGIC)) then None
  else
    let seq := default 0 (frame !! 4%nat) in
    let name_len := default 0 (frame !! 5%nat) in
    if n <? 6 + name_len + 2 then None
    else
      let name := slice 6 (Z.to_nat name_len) frame in
      if negb (utf8 name) then None
      else
        let args_len := of_le (slice (6 + Z.to_nat name_len) 2 frame) in
        if n <? 8 + name_len + args_len then None
        else Some (seq, name, slice (8 + Z.to_nat name_len) (Z.to_nat args_len) frame).

Definition result_to_cb (seq status : Z) (payload : list Z) : list Z :=
  CB_MAGIC ++ [seq] ++ [status] ++ le_bytes 2 (u16 (Z.of_nat (length payload))) ++ payload.

(** *** Calls *)

Inductive CallState := InFlight | Done | TimedOut.

#[global] Instance call_state_eq_dec : EqDecision CallState.
Proof. solve_decision. Defined.

Record CallTracker := mkCall { c_seq : Z; c_state : CallState; c_deadline : Z; c_result : option (list Z) }.

Record CallTable := mkCalls { calls : list CallTracker; timeout_ms : Z }.

Definition call_new (timeout : Z) : CallTable := mkCalls [] timeout.

Definition expire (now : Z) (c : CallTracker) : CallTracker :=
  if bool_decide (c_state c = InFlight) && (c_deadline c <=? now)
  then mkCall (c_seq c) TimedOut (c_deadline c) (c_result c) else c.

Definition sweep (t : CallTable) (now : Z) : CallTable := mkCalls (expire now <$> calls t) (timeout_ms t).

Definition has_seq (seq : Z) (c : CallTracker) : bool := c_seq c =? seq.

Definition begin (t : CallTable) (seq now : Z) : bool * CallTable :=
  let t := sweep t now in
  match find_first (has_seq seq) (calls t) with
  | Some c =>
      if bool_decide (c_state c = InFlight) || bool_decide (c_state c = Done) then (false, t)
      else
        let reopened := mkCall seq InFlight (now +! timeout_ms t) None in
        (true, mkCalls (default (calls t) (update_first (has_seq seq) (fun _ => reopened) (calls t))) (timeout_ms t))
  | None => (true, mkCalls (calls t ++ [mkCall seq InFlight (now +! timeout_ms t) None]) (timeout_ms t))
  end.

Definition complete (t : CallTable) (seq : Z) (result : list Z) : bool * CallTable :=
  match update_first (fun c => has_seq seq c && bool_decide (c_state c = InFlight))
          (fun c => mkCall (c_seq c) Done (c_deadline c) (Some result)) (calls t) with
  | Some cs => (true, mkCalls cs (timeout_ms t))
  | None => (false, t)
  end.

Definition replay (t : CallTable) (seq : Z) : option (list Z) :=
  match find_first (fun c => has_seq seq c && bool_decide (c_state c = Done)) (calls t) with
  | Some c => c_result c
  | None => None
  end.

(** *** Frames *)

Lemma cb_parse_frame (seq : Z) (name args : list Z) :
  utf8 name = true → Z.of_nat (length name) < 2 ^ 8 → Z.of_nat (length args) < 2 ^ 16 →
  cb_parse (cb_frame seq name args) = Some (seq, name, args).
Proof.
  intros Hu Hn Ha. unfold cb_parse, cb_frame. unfold u8, u16. rewrite !wrap_small by lia.
  set (n := length name) in *. set (a := length args) in *. set (L := le_bytes 2 (Z.of_nat a)).
  assert (length L = 2%nat) as HL by apply (le_bytes_length 2).
  set (f := CB_MAGIC ++ _). assert (Z.of_nat (length f) = 8 + Z.of_nat n + Z.of_nat a) as Hf.
  { subst f. rewrite !length_app, HL. cbn [length CB_MAGIC]. lia. }
  rewrite Hf, (proj2 (Z.ltb_ge _ _)) by lia. cbn [orb].
  change (take 4 f) with CB_MAGIC. rewrite bool_decide_eq_true_2 by done. cbn [negb].
  change (f !! 4%nat) with (Some seq). change (f !! 5%nat) with (Some (Z.of_nat n)). cbn [from_option]. unfold id.
  rewrite (proj2 (Z.ltb_ge _ _)), Nat2Z.id by lia.
  assert (slice 6 n f = name) as ->.
  { unfold slice. change (drop 6 f) with (drop 0 (name ++ L ++ args)). rewrite drop_0. by apply take_app_length'. }
  rewrite Hu. cbn [negb].
  assert (slice (6 + n) 2 f = L) as ->.
  { unfold slice. rewrite <- drop_drop. change (drop 6 f) with (drop 0 (name ++ L ++ args)). rewrite drop_0.
    rewrite drop_app_length' by done. by rewrite take_app_length'. }
  assert (of_le L = Z.of_nat a) as ->.
  { unfold L. rewrite of_le_bytes by lia. apply wrap_small. lia. }
  rewrite (proj2 (Z.ltb_ge _ _)), Nat2Z.id by lia. do 2 f_equal.
  unfold slice. replace (8 + n)%nat with (6 + (n + 2))%nat by lia. rewrite <- !drop_drop.
  change (drop 6 f) with (drop 0 (name ++ L ++ args)). rewrite drop_0, drop_app_length' by done.
  rewrite drop_app_length' by done. by apply take_ge.
Qed.

(** *** The call table *)

Inductive call_op := CBegin (seq now : Z) | CComplete (seq : Z) (result : list Z) | CSweep (now : Z).

Definition call_step (t : CallTable) (o : call_op) : CallTable :=
  match o with
  | CBegin seq now => snd (begin t seq now)
  | CComplete seq result => snd (complete t seq result)
  | CSweep now => sweep t now
  end.

Definition call_op_ok (o : call_op) : Prop := match o with CBegin seq _ => is_byte seq | _ => True end.

(** One entry per sequence number, each a byte; finished calls have their result. *)
Record calls_ok (t : CallTable) : Prop := {
  ck_seqs : NoDup (c_seq <$> calls t);
  ck_byte : Forall (fun c => is_byte (c_seq c)) (calls t);
  ck_done : ∀ c, c ∈ calls t → c_state c = Done → is_Some (c_result c)
}.

(** Finished calls of [t] are in [t']. *)
Definition keeps_done (t t' : CallTable) : Prop := ∀ c, c ∈ calls t → c_state c = Done → c ∈ calls t'.

Lemma expire_seq (now : Z) (c : CallTracker) : c_seq (expire now c) = c_seq c.
Proof. unfold expire. by destruct (_ && _). Qed.

Lemma expire_done (now : Z) (c : CallTracker) : c_state (expire now c) = Done ↔ c_state c = Done.
Proof.
  unfold expire. destruct (bool_decide_reflect (c_state c = InFlight)) as [E|]; [|done].
  destruct (_ <=? _); cbn; by rewrite ?E.
Qed.

Lemma expire_result (now : Z) (c : CallTracker) : c_state c = Done → expire now c = c.
Proof. intros E. unfold expire. by rewrite bool_decide_eq_false_2 by congruence. Qed.

Lemma sweep_ok (t : CallTable) (now : Z) : calls_ok t → calls_ok (sweep t now) ∧ keeps_done t (sweep t now).
Proof.
  intros [H1 H2 H3]. split; [split; cbn|].
  - rewrite <- list_fmap_compose. rewrite (list_fmap_ext (c_seq ∘ expire now) c_seq (calls t)); [done|].
    intros ? c _. apply expire_seq.
  - apply Forall_fmap. eapply Forall_impl; [exact H2|]. intros c Hc. cbn. by rewrite expire_seq.
  - intros c (c0 & -> & Hin)%list_elem_of_fmap Hd%expire_done. rewrite expire_result by done. auto.
  - intros c Hin Hd. apply list_elem_of_fmap. exists c. by rewrite expire_result.
Qed.

(** An update of an unfinished entry that keeps its number. *)
Lemma update_ok (t : CallTable) (p : CallTracker → bool) (f : CallTracker → CallTracker) (cs : list CallTracker) :
  calls_ok t → update_first p f (calls t) = Some cs →
  (∀ c, c ∈ calls t → p c = true → c_seq (f c) = c_seq c ∧ c_state c ≠ Done ∧ (c_state (f c) = Done → is_Some (c_result (f c)))) →
  calls_ok (mkCalls cs (timeout_ms t)) ∧ keeps_done t (mkCalls cs (timeout_ms t)).
Proof.
  intros [H1 H2 H3] (l1 & x & l2 & Hl & -> & Hx & _)%update_first_Some Hf.
  rewrite Hl in *. destruct (Hf x ltac:(set_solver) Hx) as (Es & Hnd & Hr). split; [split; cbn|].
  - by rewrite fmap_app, fmap_cons, Es, <- fmap_cons, <- fmap_app.
  - apply Forall_app in H2 as [? [? ?]%Forall_cons]. apply Forall_app. split; [done|]. apply Forall_cons. by rewrite Es.
  - intros c [Hc|[->|Hc]%elem_of_cons]%elem_of_app Hd; [apply H3; set_solver|auto|apply H3; set_solver].
  - unfold keeps_done. cbn. rewrite Hl. intros c [Hc|[->|Hc]%elem_of_cons]%elem_of_app Hd; set_solver.
Qed.

Lemma begin_ok (t : CallTable) (seq now : Z) : calls_ok t → is_byte seq →
  calls_ok (snd (begin t seq now)) ∧ keeps_done t (snd (begin t seq now)) ∧
  (fst (begin t seq now) = true → ∀ c, c ∈ calls t → c_seq c = seq → c_state c ≠ Done).
Proof.
  intros Hok Hb. destruct (sweep_ok t now Hok) as [Hok1 Hk1]. unfold begin. set (t1 := sweep t now) in *.
  destruct (find_first (has_seq seq) (calls t1)) as [c|] eqn:E.
  - pose proof (find_first_elem _ _ _ E) as [Hin Hseq%Z.eqb_eq]. destruct (bool_decide (c_state c = InFlight) || _) eqn:Es; [done|].
    apply orb_false_iff in Es as [Ei%bool_decide_eq_false Ed%bool_decide_eq_false].
    assert (∀ c', c' ∈ calls t1 → c_seq c' = seq → c' = c) as Hu.
    { intros c' Hin' Hs'. destruct Hok1 as [Hnd _ _]. apply list_elem_of_lookup in Hin as [i Hi], Hin' as [j Hj].
      assert (i = j) as <-; [|congruence]. apply (NoDup_lookup (c_seq <$> calls t1) i j seq Hnd);
        rewrite list_lookup_fmap, ?Hi, ?Hj; cbn; congruence. }
    destruct (update_first _ _ _) as [cs|] eqn:Eu; cbn.
    + destruct (update_ok t1 _ _ cs Hok1 Eu) as [? Hk].
      { intros c' Hin' Hs'%Z.eqb_eq. rewrite (Hu c' Hin' Hs'). cbn. done. }
      split; [done|]. split; [intros c' ? Hd; by apply Hk; [apply Hk1|]|].
      intros _ c' Hin' Hs' Hd. apply Ed. by rewrite <- (Hu c' (Hk1 c' Hin' Hd) Hs').
    + apply update_first_None in Eu. rewrite Forall_forall in Eu. apply Eu in Hin. unfold has_seq in Hin.
      by rewrite Hseq, Z.eqb_refl in Hin.
  - apply find_first_None in E. rewrite Forall_forall in E. cbn. split; [split; cbn|split].
    + rewrite fmap_app. apply NoDup_app. split; [apply Hok1|]. split; [|apply NoDup_singleton].
      intros x (c & -> & Hc)%list_elem_of_fmap Hx%list_elem_of_singleton. apply E in Hc. unfold has_seq in Hc. cbn in Hx.
      by rewrite Hx, Z.eqb_refl in Hc.
    + apply Forall_app. split; [apply Hok1|by apply Forall_singleton].
    + intros c [Hc| ->%list_elem_of_singleton]%elem_of_app Hd; [by apply Hok1|done].
    + intros c Hin Hd. cbn. apply elem_of_app. left. by apply Hk1.
    + intros _ c Hin Hs Hd. apply (Hk1 c) in Hin; [|done]. apply E in Hin. unfold has_seq in Hin. by rewrite Hs, Z.eqb_refl in Hin.
Qed.

Lemma call_step_ok (t : CallTable) (o : call_op) : calls_ok t → call_op_ok o →
  calls_ok (call_step t o) ∧ keeps_done t (call_step t o).
Proof.
  intros Hok Ho. destruct o as [seq now|seq r|now]; cbn [call_step call_op_ok] in *.
  - by destruct (begin_ok t seq now Hok Ho) as (? & ? & _).
  - unfold complete. destruct (update_first _ _ _) as [cs|] eqn:E; cbn; [|split; [done|by intros c]].
    apply (update_ok t _ _ cs Hok E). intros c Hin [_ Hs%bool_decide_eq_true]%andb_true_iff. cbn.
    split; [done|]. split; [congruence|done].
  - by apply sweep_ok.
Qed.

Lemma replay_done (t : CallTable) (seq : Z) (r : list Z) : calls_ok t →
  replay t seq = Some r ↔ ∃ c, c ∈ calls t ∧ c_seq c = seq ∧ c_state c = Done ∧ c_result c = Some r.
Proof.
  intros [Hnd _ _]. unfold replay. split.
  - destruct (find_first _ _) as [c|] eqn:E; [|done]. intros Hr.
    apply find_first_elem in E as [Hin [Hs%Z.eqb_eq Hd%bool_decide_eq_true]%andb_true_iff]. by exists c.
  - intros (c & Hin & Hs & Hd & Hr).
    destruct (find_first_is_Some (fun c => has_seq seq c && bool_decide (c_state c = Done)) (calls t) c Hin) as [c' E].
    { unfold has_seq. by rewrite Hs, Z.eqb_refl, bool_decide_eq_true_2. }
    rewrite E. apply find_first_elem in E as [Hin' [Hs'%Z.eqb_eq _]%andb_true_iff].
    apply list_elem_of_lookup in Hin as [i Hi], Hin' as [j Hj].
    assert (i = j) as <-; [|congruence]. apply (NoDup_lookup (c_seq <$> calls t) i j seq Hnd);
      rewrite list_lookup_fmap, ?Hi, ?Hj; cbn; congruence.
Qed.

Lemma calls_run (os : list call_op) : ∀ t, calls_ok t → Forall call_op_ok os →
  calls_ok (foldl call_step t os) ∧ keeps_done t (foldl call_step t os).
Proof.
  induction os as [|o os IH]; intros t Hok Hos; [split; [done|by intros c]|]. apply Forall_cons in Hos as [Ho Hos].
  destruct (call_step_ok t o Hok Ho) as [Hok1 Hk1]. destruct (IH _ Hok1 Hos) as [Hok' Hk']. split; [done|].
  intros c Hin Hd. apply Hk'; [by apply Hk1|done].
Qed.

Lemma seqs_bounded (t : CallTable) : calls_ok t → (length (calls t) <= 256)%nat.
Proof.
  intros [H1 H2 _]. rewrite <- (length_fmap c_seq). change 256%nat with (length (seqZ 0 256)). apply submseteq_length.
  apply NoDup_submseteq; [done|]. intros x (c & -> & Hc)%list_elem_of_fmap. apply elem_of_seqZ.
  rewrite Forall_forall in H2. apply H2 in Hc. unfold is_byte in Hc. lia.
Qed.

(** *** Claims *)

(** Tool-call frames. A request whose name is valid UTF-8 of less than 256 bytes and whose
    arguments take less than 65536 bytes is translated into a frame from which the device reads
    back the sequence number, the name and the arguments, or an empty object when the
    request has none. *)
Theorem tool_call_frame_roundtrip (json name : list Z) (seq : Z) :
  json_str json NAME = Some name → utf8 name = true → Z.of_nat (length name) < 2 ^ 8 →
  Z.of_nat (length (default [123; 125] (find_arguments json))) < 2 ^ 16 →
  ∃ frame, json_to_cb json seq = Some frame ∧
    cb_parse frame = Some (seq, name, default [123; 125] (find_arguments json)).
Proof.
  intros Hn Hu Hl Ha. unfold json_to_cb. rewrite Hn. eexists. split; [done|]. by apply cb_parse_frame.
Qed.

(** Calls are idempotent. In every history of starts, completions and sweeps each sequence
    number has one entry; once a call is completed, a repeated start is refused and its result is
    replayed unchanged for ever. Entries are never removed: when all 256 numbers are completed no
    call can be started any more. *)
Theorem call_table_idempotent (timeout : Z) (os : list call_op) :
  Forall call_op_ok os →
  let t := foldl call_step (call_new timeout) os in
  NoDup (c_seq <$> calls t) ∧ (length (calls t) <= 256)%nat ∧
  (∀ seq r os' now, Forall call_op_ok os' → is_byte seq → replay t seq = Some r →
     let t' := foldl call_step t os' in replay t' seq = Some r ∧ fst (begin t' seq now) = false) ∧
  ((∀ seq, is_byte seq → is_Some (replay t seq)) →
     ∀ seq os' now, Forall call_op_ok os' → is_byte seq → fst (begin (foldl call_step t os') seq now) = false).
Proof.
  intros Hos t. assert (calls_ok t) as Hok.
  { apply calls_run; [|done]. split; cbn; [constructor|constructor|]. by intros c ?%elem_of_nil. }
  assert (∀ seq r os' now, Forall call_op_ok os' → is_byte seq → replay t seq = Some r →
    replay (foldl call_step t os') seq = Some r ∧ fst (begin (foldl call_step t os') seq now) = false) as Hrep.
  { intros seq r os' now Hos' Hs Hr. destruct (calls_run os' t Hok Hos') as [Hok' Hk]. set (t' := foldl call_step t os') in *.
    apply (replay_done t seq r Hok) in Hr as (c & Hin & Hc & Hd & Hres). specialize (Hk c Hin Hd).
    split; [apply (replay_done t' seq r Hok'); by exists c|]. apply not_true_is_false. intros Hb.
    destruct (begin_ok t' seq now Hok' Hs) as (_ & _ & H). by apply (H Hb c Hk). }
  split; [apply Hok|]. split; [by apply seqs_bounded|]. split; [exact Hrep|].
  intros Hall seq os' now Hos' Hs. destruct (Hall seq Hs) as [r Hr]. exact (proj2 (Hrep seq r os' now Hos' Hs Hr)).
Qed.

(** The call gpio_write with the argument 3. *)
Definition demo_json : list Z :=
  [123; 34; 110; 97; 109; 101; 34; 58; 34; 103; 112; 105; 111; 34; 44] ++ ARGUMENTS ++ [123; 34; 125; 34; 58; 51; 125; 125].

Lemma tool_call_frame_roundtrip_witness :
  ∃ frame, json_to_cb demo_json 9 = Some frame ∧ cb_parse frame = Some (9, [103; 112; 105; 111], [123; 34; 125; 34; 58; 51; 125]).
Proof. apply (tool_call_frame_roundtrip demo_json [103; 112; 105; 111] 9); [reflexivity|reflexivity|reflexivity|reflexivity]. Defined.

Lemma call_table_idempotent_witness :
  fst (begin (foldl call_step (call_new 100) [CBegin 7 1000; CComplete 7 [1]]) 7 5000) = false.
Proof.
  destruct (call_table_idempotent 100 [CBegin 7 1000; CComplete 7 [1]]) as (_ & _ & H & _).
  - apply Forall_cons. split; [cbn; unfold is_byte; lia|]. by apply Forall_singleton.
  - apply (H 7 [1] [] 5000); [constructor|unfold is_byte; lia|reflexivity].
Defined.

End McpCb.

(** ** mDNS *)

Module Mdns.

Definition MDNS_PORT : Z := 5353.

(** Labels, each behind its length in one byte, and a zero. *)
Definition encode_name (labels : list (list Z)) : list Z :=
  mjoin ((fun l => u8 (Z.of_nat (length l)) :: l) <$> labels) ++ [0].

(** _karte, _tcp, local; and ._karte._tcp.local *)
Definition svc_labels : list (list Z) := [[95; 107; 97; 114; 116; 101]; [95; 116; 99; 112]; [108; 111; 99; 97; 108]].
Definition instance_name (host : list Z) : list Z := host ++ mjoin ((fun l => 46 :: l) <$> svc_labels).

(** One record: name, type and class, time to live, data behind its length. *)
Definition record (name : list Z) (ty : Z) (rd : list Z) : list Z :=
  name ++ [0x00; ty; 0x80; 0x01] ++ [0x00; 0x00; 0x11; 0x94] ++ be16 (Z.of_nat (length rd)) ++ rd.

Definition build_karte_announce (host : list Z) (port : Z) (txt : list Z) : list Z :=
  let inst := instance_name host in
  [0x00; 0x00; 0x84; 0x00; 0x00; 0x00; 0x00; 0x03; 0x00; 0x00; 0x00; 0x00] ++
  record (encode_name svc_labels) 0x0C (encode_name [inst]) ++
  record (encode_name [inst]) 0x21 ([0x00; 0x00; 0x00; 0x00] ++ be16 port ++ encode_name [host; [108; 111; 99; 97; 108]]) ++
  record (encode_name [inst]) 0x10 (Z.min (Z.of_nat (length txt)) 255 :: take 255 txt).

(** A reader of names without compression. *)
Fixpoint decode_name (fuel : nat) (l : list Z) : option (list (list Z) * list Z) :=
  match fuel, l with
  | S fuel, n :: l =>
      if n =? 0 then Some ([], l)
      else if Z.of_nat (length l) <? n then None
      else '(ls, rest) ← decode_name fuel (drop (Z.to_nat n) l); Some (take (Z.to_nat n) l :: ls, rest)
  | _, _ => None
  end.

Lemma decode_encode_name (ls : list (list Z)) : ∀ fuel rest, (length ls < fuel)%nat →
  Forall (fun l => 0 < Z.of_nat (length l) < 256) ls → decode_name fuel (encode_name ls ++ rest) = Some (ls, rest).
Proof.
  unfold encode_name. induction ls as [|l ls IH]; intros [|fuel] rest Hf Hls; cbn [length] in Hf; try lia; [done|].
  apply Forall_cons in Hls as [Hl Hls]. cbn [fmap list_fmap]. change (mjoin (?x :: ?y)) with (x ++ mjoin y).
  rewrite <- !app_assoc, <- app_comm_cons. cbn [decode_name]. unfold u8. rewrite wrap_small by lia.
  rewrite (proj2 (Z.eqb_neq _ _)), (proj2 (Z.ltb_ge _ _)) by (rewrite ?length_app; lia).
  rewrite Nat2Z.id, drop_app_length, take_app_length, app_assoc. by rewrite IH by (done || lia).
Qed.

(** The announcement. Names of labels of 1 to 255 bytes are read back label by label; but the
    name of the instance, host._karte._tcp.local, is written as one label with dots in it, so that
    the pointer record names a host with a single label in place of four. *)
Theorem mdns_instance_is_one_label :
  (∀ ls rest, Forall (fun l => 0 < Z.of_nat (length l) < 256) ls →
     decode_name (S (length ls)) (encode_name ls ++ rest) = Some (ls, rest)) ∧
  ∀ host port txt, Z.of_nat (length host) + 18 < 256 →
    ∃ rest, decode_name 4 (drop 12 (build_karte_announce host port txt)) = Some (svc_labels, rest) ∧
      ∃ rest', decode_name 2 (drop 10 rest) = Some ([host ++ mjoin ((fun l => 46 :: l) <$> svc_labels)], rest').
Proof.
  split; [intros ls rest Hls; apply decode_encode_name; [lia|done]|].
  intros host port txt Hh. unfold build_karte_announce. rewrite drop_app_length'; [|done]. unfold record at 1.
  rewrite <- !app_assoc. eexists. split.
  { apply decode_encode_name; [cbn; lia|]. repeat first [apply Forall_nil_2|apply Forall_cons_2]; cbn; lia. }
  unfold be16 at 1. cbn [app drop]. rewrite drop_0. eexists. apply decode_encode_name; [cbn; lia|].
  apply Forall_singleton. unfold instance_name. rewrite length_app. cbn. lia.
Qed.

End Mdns.
