(* ===== verification/Fabric.v ===== *)
(** The device fabric: capability descriptors (kernel/src/capability.rs) and the
    table of devices seen on the network (kernel/src/drt.rs).

    Text is a list of bytes; [str] turns a literal into one. The registry and the
    device table are the vectors of the source, searched from the front. A wire
    message is split and parsed as [parse_wire] does, with the decimal parser of
    [u64::from_str]. *)

From stdpp Require Import base numbers list strings sorting sets.
From Stdlib Require Import ZArith Lia.
From S2P Require Import Prelude Wire.
Local Open Scope Z_scope.
Local Open Scope rust_scope.

(** ** Text *)

Module Text.

Definition str (s : string) : list Z := (fun a => Z.of_N (Ascii.N_of_ascii a)) <$> String.list_ascii_of_string s.

(** [s.split(c)] *)
Fixpoint split (c : Z) (l : list Z) : list (list Z) :=
  match l with
  | [] => [[]]
  | b :: l =>
      if b =? c then [] :: split c l
      else match split c l with [] => [[b]] | s :: ss => (b :: s) :: ss end
  end.

(** [format!] of an unsigned number; twenty digits are enough for a u64. *)
Fixpoint decimal (fuel : nat) (n : Z) : list Z :=
  match fuel with
  | O => []
  | S fuel => if n <? 10 then [48 + n] else decimal fuel (n / 10) ++ [48 + n mod 10]
  end.

Definition show_u64 (n : Z) : list Z := decimal 20 n.

Definition is_digit (b : Z) : bool := (48 <=? b) && (b <=? 57).

Definition digit_step (acc : option Z) (b : Z) : option Z :=
  match acc with
  | Some a => if is_digit b && (a * 10 + (b - 48) <? 2 ^ 64) then Some (a * 10 + (b - 48)) else None
  | None => None
  end.

(** [str::parse::<u64>]: an optional plus sign and at least one digit. *)
Definition parse_u64 (l : list Z) : option Z :=
  match (match l with 43 :: ds => ds | _ => l end) with
  | [] => None
  | ds => foldl digit_step (Some 0) ds
  end.

Lemma split_cons (c : Z) (a l : list Z) : c ∉ a → split c (a ++ c :: l) = a :: split c l.
Proof.
  induction a as [|b a IH]; intros Hc; cbn [app split].
  - by rewrite Z.eqb_refl.
  - rewrite not_elem_of_cons in Hc. destruct Hc as [Hb Ha]. rewrite (proj2 (Z.eqb_neq _ _)) by congruence. by rewrite IH.
Qed.

Lemma split_none (c : Z) (a : list Z) : c ∉ a → split c a = [a].
Proof.
  induction a as [|b a IH]; intros Hc; cbn [split]; [done|]. rewrite not_elem_of_cons in Hc. destruct Hc as [Hb Ha].
  rewrite (proj2 (Z.eqb_neq _ _)) by congruence. by rewrite IH.
Qed.

Lemma split_ne (c : Z) (l : list Z) : split c l ≠ [].
Proof. destruct l as [|b l]; cbn; [done|]. destruct (b =? c); [done|]. by destruct (split c l). Qed.

(** Segments have no separator, and joined by it they are the text. *)
Lemma split_sound (c : Z) (l s : list Z) (ss : list (list Z)) :
  split c l = s :: ss → (c ∉ s) ∧ match ss with [] => l = s | _ => ∃ l', l = s ++ c :: l' ∧ split c l' = ss end.
Proof.
  revert s ss. induction l as [|b l IH]; intros s ss H; cbn in H.
  - injection H as <- <-. split; [apply not_elem_of_nil|done].
  - destruct (Z.eqb_spec b c) as [->|Hb].
    + injection H as <- <-. split; [apply not_elem_of_nil|]. destruct (split c l) as [|t ts] eqn:E; [by apply split_ne in E|].
      by exists l.
    + destruct (split c l) as [|t ts] eqn:E; [by apply split_ne in E|]. injection H as <- <-.
      destruct (IH t ts eq_refl) as [Hc Hl]. split; [by apply not_elem_of_cons|].
      destruct ts as [|t' ts]; [by subst|]. destruct Hl as (l' & -> & Hl'). by exists l'.
Qed.

Lemma decimal_digits (fuel : nat) : ∀ n, 0 <= n → Forall (fun b => is_digit b = true) (decimal fuel n).
Proof.
  induction fuel as [|fuel IH]; intros n Hn; cbn; [constructor|]. destruct (Z.ltb_spec n 10).
  - apply Forall_singleton. unfold is_digit. apply andb_true_iff. rewrite !Z.leb_le. lia.
  - apply Forall_app. split; [apply IH; Z.to_euclidean_division_equations; lia|]. apply Forall_singleton.
    unfold is_digit. apply andb_true_iff. rewrite !Z.leb_le. pose proof (Z.mod_pos_bound n 10). lia.
Qed.

Lemma decimal_parse (fuel : nat) : ∀ n, 0 <= n < 2 ^ 64 → n < 10 ^ Z.of_nat fuel → (0 < fuel)%nat →
  foldl digit_step (Some 0) (decimal fuel n) = Some n ∧ decimal fuel n ≠ [].
Proof.
  induction fuel as [|fuel IH]; intros n Hn Hf H0; [lia|]. cbn [decimal]. destruct (Z.ltb_spec n 10) as [Hs|Hs].
  - split; [|done]. cbn. unfold is_digit. rewrite !(proj2 (Z.leb_le _ _)) by lia. cbn. replace (48 + n - 48) with n by lia.
    by rewrite (proj2 (Z.ltb_lt _ _)) by lia.
  - rewrite Nat2Z.inj_succ, Z.pow_succ_r in Hf by lia.
    destruct fuel as [|fuel]; [cbn in Hf; lia|].
    destruct (IH (n / 10)) as [E _]; [Z.to_euclidean_division_equations; lia|Z.to_euclidean_division_equations; lia|lia|].
    rewrite foldl_app, E. pose proof (Z.mod_pos_bound n 10 ltac:(lia)). cbn [foldl digit_step]. split.
    + unfold is_digit. rewrite !(proj2 (Z.leb_le _ _)) by lia. cbn [andb].
      replace (n / 10 * 10 + (48 + n mod 10 - 48)) with n by (Z.to_euclidean_division_equations; lia).
      by rewrite (proj2 (Z.ltb_lt _ _)) by lia.
    + intros H'. apply (f_equal length) in H'. rewrite length_app in H'. cbn in H'. lia.
Qed.

Lemma parse_show (n : Z) : 0 <= n < 2 ^ 64 → parse_u64 (show_u64 n) = Some n.
Proof.
  intros Hn. destruct (decimal_parse 20 n Hn) as [E Hne]; [change (10 ^ Z.of_nat 20) with 100000000000000000000; lia|lia|].
  unfold parse_u64, show_u64. pose proof (decimal_digits 20 n ltac:(lia)) as Hd.
  destruct (decimal 20 n) as [|d ds] eqn:El; [done|]. apply Forall_cons in Hd as [Hd _].
  assert (d ≠ 43) by (intros ->; done). destruct (decide (d = 43)); [done|].
  assert (match d :: ds with 43 :: ds' => ds' | _ => d :: ds end = d :: ds) as ->; [|done].
  destruct d as [|[[]|[]|]|]; try done. all: repeat (try done; match goal with p : positive |- _ => destruct p end).
Qed.

Lemma digits_no (c : Z) (l : list Z) : is_digit c = false → Forall (fun b => is_digit b = true) l → c ∉ l.
Proof. intros Hc Hl Hin. rewrite Forall_forall in Hl. apply Hl in Hin. congruence. Qed.

End Text.

(** ** Capability descriptors *)

Module Capability.
Import Text.

Inductive Ty := TBool | I32 | I64 | F64 | Str | Bytes | Json.

Definition json_kind (t : Ty) : list Z :=
  match t with
  | TBool => str "boolean"
  | I32 | I64 => str "integer"
  | F64 => str "number"
  | Str => str "string"
  | Bytes => str "string"
  | Json => str "object"
  end.

Record FieldDesc := mkField { f_name : list Z; f_ty : Ty; f_desc : list Z; f_required : bool }.

Definition EXEC : Z := 1.
Definition READ : Z := 2.
Definition WRITE : Z := 4.
Definition CONFIG : Z := 8.

Record ToolDesc := mkTool { t_name : list Z; t_desc : list Z; t_inputs : list FieldDesc; t_outputs : list FieldDesc; t_perm : Z }.

Record CapDesc := mkCap { device_id : list Z; device_type : list Z; version : Z; tools : list ToolDesc }.

(** [REGISTRY]: the devices and whether they are online. *)
Abbreviation Registry := (list (CapDesc * bool)).

Definition has_id (id : list Z) (d : CapDesc * bool) : bool := bool_decide (device_id d.1 = id).

Definition register_device (reg : Registry) (desc : CapDesc) : result unit unit * Registry :=
  if existsb (has_id (device_id desc)) reg then (Err tt, reg) else (Ok tt, reg ++ [(desc, true)]).

Definition set_online (reg : Registry) (id : list Z) (online : bool) : bool * Registry :=
  match update_first (has_id id) (fun d => (d.1, online)) reg with
  | Some reg' => (true, reg')
  | None => (false, reg)
  end.

Definition online_devices (reg : Registry) : nat := length (filter (fun d => d.2 = true) reg).

Definition lookup_desc (reg : Registry) (id : list Z) : option CapDesc := fst <$> find_first (has_id id) reg.

Definition device_count (reg : Registry) : nat := length reg.

(** The order of [String]: byte by byte. *)
Fixpoint text_le (a b : list Z) : bool :=
  match a, b with
  | [], _ => true
  | _ :: _, [] => false
  | x :: a, y :: b => (x <? y) || ((x =? y) && text_le a b)
  end.

Definition text_order (a b : list Z) : Prop := text_le a b = true.

#[global] Instance text_order_dec : RelDecision text_order.
Proof. intros a b. unfold text_order. apply _. Defined.

Definition sort_text (l : list (list Z)) : list (list Z) := merge_sort text_order l.

Definition tool_name (ty : list Z) (t : ToolDesc) : list Z := ty ++ str "_" ++ t_name t.

Definition tool_names (reg : Registry) : list (list Z) :=
  sort_text (mjoin ((fun d => tool_name (device_type d.1) <$> tools d.1) <$> reg)).

(** The double quote, 34. *)
Definition quoted (s : list Z) : list Z := [34] ++ s ++ [34].

Fixpoint separated (items : list (list Z)) : list Z :=
  match items with
  | [] => []
  | [i] => i
  | i :: items => i ++ str "," ++ separated items
  end.

Definition write_fields (fields : list FieldDesc) : list Z :=
  separated ((fun f => quoted (f_name f) ++ str ":{" ++ quoted (str "type") ++ str ":" ++ quoted (json_kind (f_ty f)) ++
                       str "," ++ quoted (str "description") ++ str ":" ++ quoted (f_desc f) ++ str "}") <$> fields).

Definition write_required (fields : list FieldDesc) : list Z :=
  separated (quoted ∘ f_name <$> filter (fun f => f_required f = true) fields).

Definition tool_json (ty : list Z) (t : ToolDesc) : list Z :=
  str "{" ++ quoted (str "name") ++ str ":" ++ quoted (tool_name ty t) ++ str "," ++
  quoted (str "description") ++ str ":" ++ quoted (t_desc t) ++ str "," ++
  quoted (str "inputSchema") ++ str ":{" ++ quoted (str "type") ++ str ":" ++ quoted (str "object") ++ str "," ++
  quoted (str "properties") ++ str ":{" ++ write_fields (t_inputs t) ++ str "}," ++
  quoted (str "required") ++ str ":[" ++ write_required (t_inputs t) ++ str "]}," ++
  quoted (str "outputSchema") ++ str ":{" ++ quoted (str "type") ++ str ":" ++ quoted (str "object") ++ str "," ++
  quoted (str "properties") ++ str ":{" ++ write_fields (t_outputs t) ++ str "}}," ++
  quoted (str "perm") ++ str ":" ++ show_u64 (t_perm t) ++ str "}".

Definition field (name : string) (ty : Ty) (desc : string) (required : bool) : FieldDesc :=
  mkField (str name) ty (str desc) required.

Definition VFS_TOOLS : list ToolDesc :=
  [mkTool (str "read") (str "read bytes from a file")
     [field "path" Str "absolute path" true; field "len" I32 "max bytes" false]
     [field "data" Bytes "file bytes" true] (Z.lor READ EXEC);
   mkTool (str "write") (str "write bytes to a file (create if missing)")
     [field "path" Str "absolute path" true; field "data" Bytes "bytes to write" true]
     [field "written" I32 "bytes written" true] WRITE;
   mkTool (str "ls") (str "list directory entries")
     [field "path" Str "directory path" false] [field "entries" Json "name list" true] READ].

Definition TIMER_TOOLS : list ToolDesc :=
  [mkTool (str "sleep_until") (str "yield until wallclock reaches unix_ms")
     [field "unix_ms" I64 "target time" true] [field "woke" TBool "always true on return" true] EXEC;
   mkTool (str "sleep_ms") (str "relative delay in milliseconds")
     [field "ms" I32 "delay" true] [field "woke" TBool "always true on return" true] EXEC].

Definition GPIO_TOOLS : list ToolDesc :=
  [mkTool (str "write") (str "set virtual gpio level")
     [field "pin" I32 "pin number" true; field "value" TBool "level" true] [] WRITE;
   mkTool (str "read") (str "read virtual gpio level")
     [field "pin" I32 "pin number" true] [field "value" TBool "level" true] READ].

Definition register_builtin_devices (reg : Registry) : Registry :=
  let reg := snd (register_device reg (mkCap (str "vfs0") (str "vfs") 1 VFS_TOOLS)) in
  let reg := snd (register_device reg (mkCap (str "timer0") (str "timer") 1 TIMER_TOOLS)) in
  snd (register_device reg (mkCap (str "gpio0") (str "gpio") 1 GPIO_TOOLS)).

Definition reg_ok (reg : Registry) : Prop := NoDup ((fun d => device_id d.1) <$> reg).

Lemma register_ok (reg : Registry) (desc : CapDesc) : reg_ok reg →
  reg_ok (snd (register_device reg desc)) ∧
  (lookup_desc reg (device_id desc) = None → lookup_desc (snd (register_device reg desc)) (device_id desc) = Some desc) ∧
  ∀ id d, lookup_desc reg id = Some d → lookup_desc (snd (register_device reg desc)) id = Some d.
Proof.
  intros Hok. unfold register_device, lookup_desc. destruct (existsb _ reg) eqn:E; cbn.
  - split; [done|]. split; [|done]. apply existsb_exists in E as (x & Hx%list_elem_of_In & Hid).
    destruct (find_first_is_Some _ _ _ Hx Hid) as [y ->]. done.
  - assert (Forall (fun d => has_id (device_id desc) d = false) reg) as Hn.
    { apply Forall_forall. intros d Hd. apply not_true_is_false. intros Hid.
      rewrite <- not_true_iff_false, existsb_exists in E. apply E. exists d. by rewrite list_elem_of_In in Hd. }
    split; [|split].
    + unfold reg_ok. rewrite fmap_app. apply NoDup_app. split; [done|]. split; [|apply NoDup_singleton].
      intros x (d & -> & Hd)%list_elem_of_fmap Hx%list_elem_of_singleton. rewrite Forall_forall in Hn. apply Hn in Hd.
      unfold has_id in Hd. apply bool_decide_eq_false in Hd. done.
    + intros _. rewrite find_first_skip by done. cbn. unfold has_id. by rewrite bool_decide_eq_true_2.
    + intros id d. rewrite find_first_app. by destruct (find_first (has_id id) reg).
Qed.

End Capability.

(** ** The device table *)

Module Drt.
Import Utf8 Text Capability.

Inductive DevState := Online | Stale | Offline.

#[global] Instance dev_state_eq_dec : EqDecision DevState.
Proof. solve_decision. Defined.

Record DrtEntry := mkEntry { desc : CapDesc; state : DevState; last_seen_ms : Z }.

Definition HEARTBEAT_TIMEOUT_MS : Z := 1500.
Definition STALE_TIMEOUT_MS : Z := 3000.

Abbreviation Drt := (list DrtEntry).

Definition is_dev (id : list Z) (e : DrtEntry) : bool := bool_decide (device_id (desc e) = id).

Definition announce (d : Drt) (c : CapDesc) (now : Z) : bool * Drt :=
  match update_first (is_dev (device_id c)) (fun e => mkEntry (desc e) Online now) d with
  | Some d' => (false, d')
  | None => (true, d ++ [mkEntry c Online now])
  end.

Definition heartbeat (d : Drt) (id : list Z) (now : Z) : bool * Drt :=
  match find_first (is_dev id) d, update_first (is_dev id) (fun e => mkEntry (desc e) Online now) d with
  | Some e, Some d' => (negb (bool_decide (state e = Online)), d')
  | _, _ => (false, d)
  end.

Definition bye (d : Drt) (id : list Z) : bool * Drt :=
  match find_first (is_dev id) d, update_first (is_dev id) (fun e => mkEntry (desc e) Offline (last_seen_ms e)) d with
  | Some e, Some d' => (negb (bool_decide (state e = Offline)), d')
  | _, _ => (false, d)
  end.

(** One entry in [tick], and whether it changed. *)
Definition age_entry (now : Z) (e : DrtEntry) : bool * DrtEntry :=
  let age := saturating_sub now (last_seen_ms e) in
  match state e with
  | Online => if HEARTBEAT_TIMEOUT_MS <=? age then (true, mkEntry (desc e) Stale (last_seen_ms e)) else (false, e)
  | Stale =>
      if HEARTBEAT_TIMEOUT_MS + STALE_TIMEOUT_MS <=? age then (true, mkEntry (desc e) Offline (last_seen_ms e)) else (false, e)
  | Offline => (false, e)
  end.

Definition tick (d : Drt) (now : Z) : nat * Drt :=
  (length (filter (fun e => fst (age_entry now e) = true) d), snd ∘ age_entry now <$> d).

Definition discoverable (d : Drt) : list (list Z) := device_id ∘ desc <$> filter (fun e => state e ≠ Offline) d.
Definition offline (d : Drt) : list (list Z) := device_id ∘ desc <$> filter (fun e => state e = Offline) d.

(** A, H and B *)
Definition verb_of (s : list Z) : option Z :=
  if decide (s = [65]) then Some 65 else if decide (s = [72]) then Some 72 else if decide (s = [66]) then Some 66 else None.

Definition parse_wire (msg : list Z) : option (Z * list Z) :=
  if utf8 msg then
    match split 124 msg with
    | [magic; v; id; seq] =>
        if decide (magic = str "KRT1") then
          verb ← verb_of v; _ ← parse_u64 seq; Some (verb, id)
        else None
    | _ => None
    end
  else None.

(** [verb as char], as text. *)
Definition char_of (b : Z) : list Z := if b <? 128 then [b] else [0xC0 + b / 64; 0x80 + b mod 64].

Definition make_wire (verb : Z) (id : list Z) (seq : Z) : list Z :=
  str "KRT1" ++ [124] ++ char_of verb ++ [124] ++ id ++ [124] ++ show_u64 seq.

(** The statics: the registry, the table and its version number. *)
Record Fabric := mkFabric { reg : Registry; drt : Drt; table_seq : Z }.

Definition ends_with (s suffix : list Z) : bool := bool_decide (drop (length s - length suffix) s = suffix).

Definition handle_wire (f : Fabric) (msg : list Z) (now : Z) : bool * Fabric :=
  let bump (r : bool * Drt) := (fst r, mkFabric (reg f) (snd r) (if fst r then table_seq f +! 1 else table_seq f)) in
  match parse_wire msg with
  | None => (false, f)
  | Some (verb, id) =>
      if verb =? 65 then
        match lookup_desc (reg f) id with
        | Some d => bump (announce (drt f) d now)
        | None =>
            if negb (ends_with id (str "-node")) then (false, f)
            else bump (announce (drt f) (mkCap (str "remote") (str "remote") 1 []) now)
        end
      else if verb =? 72 then bump (heartbeat (drt f) id now)
      else if verb =? 66 then bump (bye (drt f) id)
      else (false, f)
  end.

(** [devices.dedup()] *)
Fixpoint dedup (l : list (list Z)) : list (list Z) :=
  match l with
  | [] => []
  | x :: l' => match l' with [] => [x] | y :: _ => if decide (x = y) then dedup l' else x :: dedup l' end
  end.

Definition tool_table (f : Fabric) : Z * list (list Z) * list (list Z) :=
  let es := filter (fun e => state e ≠ Offline) (drt f) in
  (table_seq f,
   sort_text (mjoin ((fun e => tool_name (device_type (desc e)) <$> tools (desc e)) <$> es)),
   dedup (sort_text (device_type ∘ desc <$> es))).

(** Text that [parse_wire] takes apart. *)
Definition wire_text (v : Z) (id seq : list Z) : list Z := str "KRT1" ++ [124] ++ [v] ++ [124] ++ id ++ [124] ++ seq.

Lemma wire_text_split (v : Z) (id seq : list Z) : v ≠ 124 → 124 ∉ id → 124 ∉ seq →
  split 124 (wire_text v id seq) = [str "KRT1"; [v]; id; seq].
Proof.
  intros Hv Hid Hseq. unfold wire_text. cbn [app].
  change (str "KRT1" ++ 124 :: v :: 124 :: id ++ 124 :: seq) with (str "KRT1" ++ 124 :: ([v] ++ 124 :: (id ++ 124 :: seq))).
  rewrite split_cons by (change (str "KRT1") with [75; 82; 84; 49]; rewrite !not_elem_of_cons; repeat split; [lia..|apply not_elem_of_nil]).
  rewrite split_cons by (intros H%list_elem_of_singleton; congruence). rewrite split_cons by done. by rewrite split_none.
Qed.

Lemma verb_of_Some (s : list Z) (v : Z) : verb_of s = Some v ↔ s = [v] ∧ (v = 65 ∨ v = 72 ∨ v = 66).
Proof. unfold verb_of. repeat case_decide; naive_solver. Qed.

Lemma parse_wire_Some (msg : list Z) (v : Z) (id : list Z) : parse_wire msg = Some (v, id) ↔
  ∃ seq n, msg = wire_text v id seq ∧ utf8 msg = true ∧ (v = 65 ∨ v = 72 ∨ v = 66) ∧ (124 ∉ id) ∧ (124 ∉ seq) ∧ parse_u64 seq = Some n.
Proof.
  unfold parse_wire. split.
  - destruct (utf8 msg) eqn:Eu; [|done].
    destruct (split 124 msg) as [|a [|b [|c [|d [|? ?]]]]] eqn:E; try done. case_decide as Ha; [|done].
    intros (v' & Hv & (n & Hn & [= <- <-])%bind_Some)%bind_Some. apply verb_of_Some in Hv as [-> Hv].
    apply split_sound in E as (_ & l1 & -> & E). apply split_sound in E as (_ & l2 & -> & E).
    apply split_sound in E as (Hc & l3 & -> & E). apply split_sound in E as (Hd & ->). subst a.
    exists d, n. done.
  - intros (seq & n & -> & Eu & Hv & Hid & Hseq & Hn). rewrite Eu, wire_text_split by (done || naive_solver).
    rewrite decide_True by done. cbn. rewrite (proj2 (verb_of_Some [v] v)) by done. cbn. by rewrite Hn.
Qed.

Lemma show_is_ascii (n : Z) : 0 <= n → Forall (fun b => b < 0x80) (show_u64 n).
Proof.
  intros Hn. eapply Forall_impl; [by apply decimal_digits|]. intros b. unfold is_digit. rewrite andb_true_iff, !Z.leb_le. lia.
Qed.

(** Every message [make_wire] builds for one of the three verbs, a device id
    that is text without the separator and a sequence number is taken back to its
    verb and id by [parse_wire]; and whatever datagram [parse_wire] accepts is
    UTF-8, of exactly this form, with an id without separator and a sequence
    number within 64 bits. *)
Theorem drt_wire_roundtrip :
  (∀ verb id seq, verb = 65 ∨ verb = 72 ∨ verb = 66 → utf8 id = true → 124 ∉ id → 0 <= seq < 2 ^ 64 →
     parse_wire (make_wire verb id seq) = Some (verb, id)) ∧
  (∀ msg verb id, parse_wire msg = Some (verb, id) →
     utf8 msg = true ∧ (124 ∉ id) ∧ (verb = 65 ∨ verb = 72 ∨ verb = 66) ∧
     ∃ seq n, msg = str "KRT1" ++ [124] ++ [verb] ++ [124] ++ id ++ [124] ++ seq ∧ parse_u64 seq = Some n).
Proof.
  split.
  - intros verb id seq Hv Hu Hid Hseq. apply parse_wire_Some. exists (show_u64 seq), seq.
    assert (make_wire verb id seq = wire_text verb id (show_u64 seq)) as ->.
    { unfold make_wire, wire_text, char_of. by rewrite (proj2 (Z.ltb_lt _ _)) by lia. }
    split; [done|]. split.
    { unfold wire_text. change ([124] ++ show_u64 seq) with (124 :: show_u64 seq).
      rewrite 3!app_assoc.
      rewrite utf8_concat, utf8_concat; [|done|].
      - apply utf8_ascii. apply Forall_cons. split; [lia|]. apply show_is_ascii. lia.
      - apply utf8_ascii. change (str "KRT1") with [75; 82; 84; 49]. repeat (apply Forall_cons; split; [lia|]). constructor. }
    split; [done|]. split; [done|]. split; [|by apply parse_show].
    apply digits_no; [done|]. apply decimal_digits. lia.
  - intros msg verb id (seq & n & -> & Hu & Hv & Hid & _ & Hn)%parse_wire_Some. eauto 10.
Qed.

(** A device that is not heard of: the ticks that follow. *)
Definition silence (d : Drt) (ts : list Z) : Drt := foldl (fun d t => snd (tick d t)) d ts.

Definition age_run (e : DrtEntry) (ts : list Z) : DrtEntry := foldl (fun e t => snd (age_entry t e)) e ts.

Lemma age_run_cons (e : DrtEntry) (t : Z) (ts : list Z) : age_run e (t :: ts) = age_run (snd (age_entry t e)) ts.
Proof. done. Qed.

Lemma age_entry_keeps (t : Z) (e : DrtEntry) :
  desc (snd (age_entry t e)) = desc e ∧ last_seen_ms (snd (age_entry t e)) = last_seen_ms e.
Proof. unfold age_entry. destruct (state e); repeat case_match; done. Qed.

Lemma age_run_keeps (ts : list Z) : ∀ e, desc (age_run e ts) = desc e ∧ last_seen_ms (age_run e ts) = last_seen_ms e.
Proof.
  induction ts as [|t ts IH]; intros e; [done|]. rewrite age_run_cons. destruct (IH (snd (age_entry t e))) as [-> ->]. apply age_entry_keeps.
Qed.

Lemma silence_map (ts : list Z) : ∀ d, silence d ts = (fun e => age_run e ts) <$> d.
Proof.
  induction ts as [|t ts IH]; intros d; [by rewrite list_fmap_id|].
  change (silence d (t :: ts)) with (silence (snd (tick d t)) ts). rewrite IH. unfold tick. cbn [snd].
  by rewrite <- list_fmap_compose.
Qed.

Lemma find_dev_map (g : DrtEntry → DrtEntry) (id : list Z) (d : Drt) : (∀ e, desc (g e) = desc e) →
  find_first (is_dev id) (g <$> d) = g <$> find_first (is_dev id) d.
Proof.
  intros Hg. induction d as [|e d IH]; [done|]. rewrite fmap_cons. cbn. unfold is_dev at 1 3. rewrite Hg.
  by destruct (bool_decide _).
Qed.

Definition aged (limit last : Z) (t : Z) : Prop := last + limit <= t.

#[global] Instance aged_dec (limit last t : Z) : Decision (aged limit last t).
Proof. unfold aged. apply _. Defined.

Lemma age_run_offline (ts : list Z) : ∀ e, state e = Offline → state (age_run e ts) = Offline.
Proof.
  induction ts as [|t ts IH]; intros e He; [done|]. rewrite age_run_cons. apply IH. unfold age_entry. by rewrite He.
Qed.

Lemma age_run_stale (ts : list Z) : ∀ e, state e = Stale → 0 <= last_seen_ms e →
  state (age_run e ts) = if decide (Exists (aged 4500 (last_seen_ms e)) ts) then Offline else Stale.
Proof.
  induction ts as [|t ts IH]; intros e He H0; [by rewrite decide_False by (rewrite Exists_nil; tauto)|].
  rewrite age_run_cons. unfold age_entry. rewrite He. change (HEARTBEAT_TIMEOUT_MS + STALE_TIMEOUT_MS) with 4500.
  unfold saturating_sub. destruct (Z.leb_spec 4500 (Z.max 0 (t - last_seen_ms e))); cbn [snd].
  - rewrite decide_True by (apply Exists_cons_hd; unfold aged; lia). by apply age_run_offline.
  - rewrite IH by done. apply decide_ext. rewrite Exists_cons. unfold aged at 2. intuition lia.
Qed.

Lemma age_run_online (ts : list Z) : ∀ e, state e = Online → 0 <= last_seen_ms e →
  (state (age_run e ts) = Online ↔ Forall (fun t => ¬ aged 1500 (last_seen_ms e) t) ts) ∧
  (state (age_run e ts) = Offline ↔
     ∃ before t after, ts = before ++ t :: after ∧ aged 1500 (last_seen_ms e) t ∧ Exists (aged 4500 (last_seen_ms e)) after).
Proof.
  induction ts as [|t ts IH]; intros e He H0.
  - cbn. rewrite He. split; [naive_solver|]. split; [done|]. intros ([|] & ? & ? & ? & _); done.
  - rewrite age_run_cons. unfold age_entry. rewrite He. unfold saturating_sub, HEARTBEAT_TIMEOUT_MS.
    destruct (Z.leb_spec 1500 (Z.max 0 (t - last_seen_ms e))) as [Ht|Ht]; cbn [snd].
    + assert (aged 1500 (last_seen_ms e) t) as Ha by (unfold aged; lia).
      rewrite age_run_stale by done. cbn [last_seen_ms]. split.
      * rewrite Forall_cons. case_decide; naive_solver.
      * case_decide as Hx; [split; [intros _; by exists [], t, ts|done]|].
        split; [done|]. intros (before & u & after & Heq & _ & Hex). destruct Hx.
        destruct before; injection Heq as -> ->; [done|]. apply Exists_app. right. by apply Exists_cons_tl.
    + assert (¬ aged 1500 (last_seen_ms e) t) as Ha by (unfold aged; lia).
      destruct (IH e He H0) as [-> ->]. rewrite Forall_cons. split; [naive_solver|]. split.
      * intros (before & u & after & -> & Hu & Hex). by exists (t :: before), u, after.
      * intros ([|t' before] & u & after & Heq & Hu & Hex); injection Heq as -> ->; [done|]. by exists before, u, after.
Qed.

Lemma find_update_dev (g : DrtEntry → DrtEntry) (id : list Z) (d : Drt) : (∀ e, desc (g e) = desc e) →
  match update_first (is_dev id) g d with
  | Some d' => ∃ e, find_first (is_dev id) d = Some e ∧ find_first (is_dev id) d' = Some (g e)
  | None => find_first (is_dev id) d = None
  end.
Proof.
  intros Hg. destruct (update_first _ _ _) as [d'|] eqn:E.
  - apply find_first_update_same in E; [done|]. intros x. unfold is_dev. by rewrite Hg.
  - by apply find_first_None, (proj1 (update_first_None _ _ _) E).
Qed.

(** Whatever was known of a device, a heartbeat or an announcement makes it online. *)
Lemma contact_online (d : Drt) (c : CapDesc) (id : list Z) (now : Z) :
  (∃ e, find_first (is_dev (device_id c)) (snd (announce d c now)) = Some e ∧ state e = Online ∧ last_seen_ms e = now) ∧
  (is_Some (find_first (is_dev id) d) →
   ∃ e, find_first (is_dev id) (snd (heartbeat d id now)) = Some e ∧ state e = Online ∧ last_seen_ms e = now).
Proof.
  split.
  - unfold announce. pose proof (find_update_dev (fun e => mkEntry (desc e) Online now) (device_id c) d ltac:(done)) as H.
    destruct (update_first _ _ _) as [d'|]; cbn [snd]; [destruct H as (e & _ & ->); eauto|].
    rewrite find_first_app, H. cbn. unfold is_dev. cbn. rewrite bool_decide_eq_true_2 by done. eauto.
  - intros [e He]. unfold heartbeat.
    pose proof (find_update_dev (fun e => mkEntry (desc e) Online now) id d ltac:(done)) as H. rewrite He in *.
    destruct (update_first _ _ _) as [d'|]; [|done]. destruct H as (e' & _ & H). cbn [snd]. rewrite H. eauto.
Qed.

(** The life of a device in the table. After an announcement or a heartbeat
    at time [t0], and ticks at the times [ts] without another message, the entry
    still carries [t0] and is Online exactly when no tick came 1500 ms or more
    after [t0]; it is Offline exactly when some tick came 1500 ms after it and a
    later one 4500 ms after it. So one late tick, however late, never takes a
    device offline. *)
Theorem drt_device_timeline (d : Drt) (c : CapDesc) (t0 : Z) (ts : list Z) (contacted : Drt)
    (Hc : contacted = snd (announce d c t0) ∨
          is_Some (find_first (is_dev (device_id c)) d) ∧ contacted = snd (heartbeat d (device_id c) t0))
    (H0 : 0 <= t0) :
  ∃ e, find_first (is_dev (device_id c)) (silence contacted ts) = Some e ∧ last_seen_ms e = t0 ∧
    (state e = Online ↔ Forall (fun t => t < t0 + 1500) ts) ∧
    (state e = Offline ↔ ∃ before t after, ts = before ++ t :: after ∧ t0 + 1500 <= t ∧ Exists (fun t => t0 + 4500 <= t) after).
Proof.
  assert (∃ e, find_first (is_dev (device_id c)) contacted = Some e ∧ state e = Online ∧ last_seen_ms e = t0) as (e & He & Ho & Hl).
  { destruct (contact_online d c (device_id c) t0) as [Ha Hb]. destruct Hc as [->|[Hd ->]]; [apply Ha|by apply Hb]. }
  exists (age_run e ts). rewrite silence_map, find_dev_map, He by (intros; apply age_run_keeps).
  destruct (age_run_keeps ts e) as [_ ->]. destruct (age_run_online ts e Ho ltac:(lia)) as [-> ->]. rewrite Hl.
  split; [done|]. split; [done|]. split; [|done]. apply Forall_iff. intros t. unfold aged. lia.
Qed.

Lemma drt_device_timeline_witness :
  ∃ e, find_first (is_dev (str "gpio0")) (silence (snd (announce [] (mkCap (str "gpio0") (str "gpio") 1 GPIO_TOOLS) 0)) [4500; 9000]) = Some e ∧
    state e = Offline.
Proof.
  destruct (drt_device_timeline [] (mkCap (str "gpio0") (str "gpio") 1 GPIO_TOOLS) 0 [4500; 9000] _ (or_introl eq_refl)
              ltac:(lia)) as (e & He & _ & _ & Hoff).
  exists e. split; [exact He|]. apply Hoff. exists [], 4500, [9000]. split; [done|]. split; [lia|]. apply Exists_cons_hd. lia.
Defined.

(** What [tool_table] shows: the descriptors of the entries not offline. *)
Definition shown (d : Drt) : list CapDesc := desc <$> filter (fun e => state e ≠ Offline) d.

Lemma shown_fmap {B : Type} (F : CapDesc → B) (d d' : Drt) : shown d' = shown d →
  (fun e => F (desc e)) <$> filter (fun e => state e ≠ Offline) d' = (fun e => F (desc e)) <$> filter (fun e => state e ≠ Offline) d.
Proof. intros H. pose proof (f_equal (fmap F) H) as HF. unfold shown in HF. by rewrite <- !list_fmap_compose in HF. Qed.

Lemma tool_table_shown (f f' : Fabric) : table_seq f' = table_seq f → shown (drt f') = shown (drt f) → tool_table f' = tool_table f.
Proof.
  unfold tool_table. intros Hs H. rewrite Hs.
  pose proof (shown_fmap (fun c => tool_name (device_type c) <$> tools c) _ _ H) as Ht.
  pose proof (shown_fmap device_type _ _ H) as Hd. cbv beta zeta in *. unfold compose. by rewrite Ht, Hd.
Qed.

Lemma shown_update (g : DrtEntry → DrtEntry) (id : list Z) (d d' : Drt) (e : DrtEntry) :
  update_first (is_dev id) g d = Some d' → find_first (is_dev id) d = Some e →
  desc (g e) = desc e → (state e = Offline ↔ state (g e) = Offline) → shown d' = shown d.
Proof.
  intros Hu Hf Hd Hs. apply update_first_Some in Hu as (l1 & x & l2 & -> & -> & Hx & Hl).
  rewrite find_first_skip in Hf by done. cbn in Hf. rewrite Hx in Hf. injection Hf as <-.
  unfold shown. rewrite !filter_app, !filter_cons, !fmap_app. f_equal.
  repeat case_decide; try tauto. by rewrite !fmap_cons, Hd.
Qed.

Lemma heartbeat_shown (d : Drt) (id : list Z) (now : Z) :
  fst (heartbeat d id now) = false → shown (snd (heartbeat d id now)) = shown d.
Proof.
  unfold heartbeat. destruct (find_first _ _) as [e|] eqn:Ef; [|done]. destruct (update_first _ _ _) as [d'|] eqn:Eu; [|done].
  cbn. intros H%negb_false_iff%bool_decide_eq_true. eapply shown_update; [done..|]. cbn. rewrite H. done.
Qed.

Lemma bye_shown (d : Drt) (id : list Z) : fst (bye d id) = false → shown (snd (bye d id)) = shown d.
Proof.
  unfold bye. destruct (find_first _ _) as [e|] eqn:Ef; [|done]. destruct (update_first _ _ _) as [d'|] eqn:Eu; [|done].
  cbn. intros H%negb_false_iff%bool_decide_eq_true. eapply shown_update; [done..|]. cbn. by rewrite H.
Qed.

Lemma announce_shown (d : Drt) (c : CapDesc) (now : Z) : fst (announce d c now) = false →
  shown (snd (announce d c now)) = shown d ∨ ∃ e, find_first (is_dev (device_id c)) d = Some e ∧ state e = Offline.
Proof.
  unfold announce. destruct (update_first _ _ _) as [d'|] eqn:Eu; [|done]. intros _. cbn [snd].
  pose proof (find_update_dev (fun e => mkEntry (desc e) Online now) (device_id c) d ltac:(done)) as H. rewrite Eu in H.
  destruct H as (e & He & _). destruct (decide (state e = Offline)); [eauto|]. left. by eapply shown_update.
Qed.

(** The descriptor an announcement of [id] brings into the table. *)
Definition announced (f : Fabric) (id : list Z) : option CapDesc :=
  match lookup_desc (reg f) id with
  | Some d => Some d
  | None => if ends_with id (str "-node") then Some (mkCap (str "remote") (str "remote") 1 []) else None
  end.

(** A fabric in which gpio0 was announced and said goodbye. *)
Definition after_bye : Fabric :=
  let f := mkFabric (register_builtin_devices []) [] 0 in
  snd (handle_wire (snd (handle_wire f (make_wire 65 (str "gpio0") 1) 20)) (make_wire 66 (str "gpio0") 2) 40).

(** The version number that the reader of the tool table polls. Every
    message that [handle_wire] answers with true moves it by one. A message
    answered with false leaves the whole table and its version as they were,
    except one: the announcement of a device the table holds as offline. There
    the device and its tools come back under the old version number. *)
Theorem table_seq_tracks_table :
  (∀ f msg now,
     let (changed, f') := handle_wire f msg now in
     reg f' = reg f ∧ table_seq f' = (if changed then table_seq f +! 1 else table_seq f) ∧
     (changed = false → tool_table f' = tool_table f ∨
        ∃ id c e, parse_wire msg = Some (65, id) ∧ announced f id = Some c ∧
          find_first (is_dev (device_id c)) (drt f) = Some e ∧ state e = Offline)) ∧
  (let (changed, f') := handle_wire after_bye (make_wire 65 (str "gpio0") 3) 60 in
   changed = false ∧ table_seq f' = table_seq after_bye ∧
   tool_table after_bye = (2, [], []) ∧ tool_table f' = (2, [str "gpio_read"; str "gpio_write"], [str "gpio"])).
Proof.
  split; [|by vm_compute]. intros f msg now. unfold handle_wire, announced.
  destruct (parse_wire msg) as [[verb id]|]; [|by auto].
  destruct (Z.eqb_spec verb 65) as [->|]; [|destruct (verb =? 72); [|destruct (verb =? 66); [|by auto]]].
  - assert (∀ c, lookup_desc (reg f) id = Some c ∨ lookup_desc (reg f) id = None ∧ ends_with id (str "-node") = true ∧
       c = mkCap (str "remote") (str "remote") 1 [] → announced f id = Some c) as Hann.
    { unfold announced. intros c [->|(-> & -> & ->)]; done. }
    assert (∀ c, announced f id = Some c → fst (announce (drt f) c now) = false →
       tool_table (mkFabric (reg f) (snd (announce (drt f) c now)) (table_seq f)) = tool_table f ∨
       ∃ e, find_first (is_dev (device_id c)) (drt f) = Some e ∧ state e = Offline) as Hc.
    { intros c _ H. destruct (announce_shown _ _ _ H); [left; by apply tool_table_shown|eauto]. }
    fold (announced f id).
    destruct (lookup_desc (reg f) id) as [c|] eqn:El; cbn [negb]; [|destruct (ends_with _ _) eqn:Ee; [|cbn; by auto]].
    all: cbn [negb]; split; [done|]; split; [done|]; intros H; rewrite H; cbn [fst snd];
      destruct (Hc _ (Hann _ ltac:(auto)) H) as [?|(e & ?)]; [by left|right; eauto 10].
  - split; [done|]. split; [done|]. intros H. rewrite H. left. by apply tool_table_shown, heartbeat_shown.
  - split; [done|]. split; [done|]. intros H. rewrite H. left. by apply tool_table_shown, bye_shown.
Qed.

End Drt.
