(* ===== verification/FileSys.v ===== *)
(** FileSys: the file system calls of kernel/src/syscall/mod.rs and the user copies
    of syscall/user_ptr.rs, over the descriptor tables, the VFS, the flat store, the
    pipes, the terminal and the environment.

    [um] is what [user_read_u8] returns for each address. Stores to user memory are
    part of the outcome, as (address, bytes). A call that blocks takes the list of
    what the rest of the system does each time it waits; when the list ends it is
    still blocked. Bytes a process writes to the terminal are in [console]; log
    output of the kernel is left out. *)

From stdpp Require Import base numbers list gmap strings sets.
From Stdlib Require Import ZArith Lia.
From S2P Require Import Prelude Ring Pipe Tty Vfs RamFs FlatFs FileLock FdTable BTree Epoll FdSys KLog Wire Fabric.
Local Open Scope Z_scope.
Local Open Scope rust_scope.

Module FileSys.
Import Path FdTable FdSys Utf8.

Definition ERR_NOENT : Z := -2.
Definition ERR_IO : Z := -5.
Definition ERR_RANGE : Z := -34.

(** ** Reading user memory *)

Section user.
Context (um : Z → Z).

Definition user_read_bytes (addr : Z) (n : nat) : list Z := user_bytes um addr 0 n.

(** [if byte == 0 { break; } buf.push(byte)] *)
Fixpoint c_string (bs : list Z) : list Z :=
  match bs with
  | [] => []
  | b :: bs => if b =? 0 then [] else b :: c_string bs
  end.

(** [user_read::<usize>] *)
Definition user_read_usize (addr : Z) : Z := of_le (user_read_bytes addr 8).

Definition read_user_string (addr : Z) : list Z := c_string (user_read_bytes addr 4096).

Fixpoint read_ptrs (ptr_array : Z) (i : Z) (n : nat) : list Z :=
  match n with
  | O => []
  | S n =>
      let ptr := user_read_usize (ptr_array +! i *! 8) in
      if ptr =? 0 then [] else ptr :: read_ptrs ptr_array (i + 1) n
  end.

Definition read_user_argv (ptr_array : Z) : list (list Z) := read_user_string <$> read_ptrs ptr_array 0 256.

(** [s.iter().position(|&b| b == b'=')], then the parts around it. *)
Fixpoint split_eq (s : list Z) : option (list Z * list Z) :=
  match s with
  | [] => None
  | b :: s => if b =? 61 then Some ([], s) else (fun kv => (b :: kv.1, kv.2)) <$> split_eq s
  end.

Definition read_user_envp (ptr_array : Z) : list (list Z * list Z) :=
  omap (fun p => split_eq (read_user_string p)) (read_ptrs ptr_array 0 256).

Definition count_user_string (ptr : Z) : Z :=
  if ptr =? 0 then 0 else Z.of_nat (length (c_string (user_read_bytes ptr 256))).

Definition read_user_path (ptr len : Z) : option str :=
  if (ptr =? 0) || (len =? 0) || (512 <? len) then None
  else let buf := c_string (user_read_bytes ptr (Z.to_nat len)) in if utf8 buf then Some buf else None.

End user.

(** ** Paths *)

Definition starts_with (p s : str) : bool := bool_decide (p `prefix_of` s).

Definition is_pseudo_path (path : str) : bool :=
  starts_with (bytes "/proc") path || starts_with (bytes "/sys") path || starts_with (bytes "/dev") path ||
  starts_with (bytes "/run") path || starts_with (bytes "/etc") path || starts_with (bytes "/tmp") path.

(** [trim_start_matches('/')], [trim_end_matches('/')] and [strip_prefix('/')] *)
Fixpoint trim_start (s : str) : str :=
  match s with
  | c :: s' => if c =? SLASH then trim_start s' else s
  | [] => []
  end.
Definition trim_end (s : str) : str := reverse (trim_start (reverse s)).
Definition strip_one (s : str) : str :=
  match s with
  | c :: s' => if c =? SLASH then s' else s
  | [] => []
  end.

Definition cwd (env : Env.env) : str := default [SLASH] (Env.get env (bytes "CWD")).

Definition resolve_path (env : Env.env) (path : str) : str :=
  match path with
  | c :: p => if c =? SLASH then p else strip_one (trim_end (cwd env) ++ [SLASH] ++ path)
  | [] => trim_start (trim_end (cwd env))
  end.

(** ** The state of the calls *)

Inductive outcome :=
| Returned (v : Z) (stores : list (Z * list Z)) (woken : list nat)
| Blocked.

Definition ret (v : Z) : outcome := Returned v [] [].

(** Stores of single bytes. *)
Definition byte_stores (ws : list (Z * Z)) : list (Z * list Z) := (fun ab => (ab.1, [ab.2])) <$> ws.

Section calls.
Context {F : Type} `{Vfs.FileSystem F} {D : Type} (B : FlatFs.Backend D).
(** [ext4::metadata_of(inode)]: is it a directory. *)
Context (metadata_of : D → Z → option bool).

Record World := mkWorld {
  kern : @Kernel F;
  files : @FlatFs.Files D;
  genv : Env.env;
  penv : option (gmap str str);
  tty : Tty.Tty;
  PRNG : Z;
  console : list Z
}.

Definition set_kern (w : World) (k : Kernel) : World :=
  mkWorld k (files w) (genv w) (penv w) (tty w) (PRNG w) (console w).
Definition set_files (w : World) (f : FlatFs.Files) : World :=
  mkWorld (kern w) f (genv w) (penv w) (tty w) (PRNG w) (console w).
Definition set_genv (w : World) (e : Env.env) : World :=
  mkWorld (kern w) (files w) e (penv w) (tty w) (PRNG w) (console w).
Definition set_tty (w : World) (t : Tty.Tty) : World :=
  mkWorld (kern w) (files w) (genv w) (penv w) t (PRNG w) (console w).
Definition print (w : World) (bs : list Z) : World :=
  mkWorld (kern w) (files w) (genv w) (penv w) (tty w) (PRNG w) (console w ++ bs).

Definition set_vfs (k : @Kernel F) (v : Vfs.VfsState F) : Kernel :=
  mkKernel (tables k) (pipes k) (locks k) (epolls k) v.
Definition set_pipe_table (w : World) (p : Pipe.Table) : World := set_kern w (set_pipes (kern w) p).

(** [with_fd_table(|t| match t.alloc..(..) { Some(fd) => fd as isize, None => err })] *)
Definition alloc_in (w : World) (t : nat) (alloc : Fds → option nat * Fds) (err : Z) : exec (Z * World) :=
  let! fds := table (kern w) t in
  match alloc fds with
  | (Some fd, fds') => Ret (Z.of_nat fd, set_kern w (set_table (kern w) t fds'))
  | (None, fds') => Ret (err, set_kern w (set_table (kern w) t fds'))
  end.

(** [if let Some(f) = fd_table.get_mut(fd) { f.pos += n }] *)
Definition advance (w : World) (t fd : nat) (n : Z) : exec World :=
  let! fds := table (kern w) t in
  Ret (set_kern w (set_table (kern w) t (snd (get_mut fds fd (fun d => FdTable.set_pos d (pos d +! n)))))).

(** ** Opening *)

Definition is_urandom (n : str) : bool :=
  bool_decide (n = bytes "/dev/urandom") || bool_decide (n = bytes "/dev/random") ||
  bool_decide (n = bytes "dev/urandom") || bool_decide (n = bytes "dev/random").

(** [x86]: [cfg!(target_arch = "x86_64")] *)
Definition open_flags (x86 : bool) (flags : Z) : Z :=
  let linux_o_creat := if x86 then 0x40 else 0x100 in
  let has_creat := negb (Z.land flags linux_o_creat =? 0) || negb (Z.land flags O_CREAT =? 0) in
  Z.lor (if has_creat then O_CREAT else 0) (Z.land flags (Z.lor O_TRUNC O_APPEND)).

Definition sys_open (x86 : bool) (um : Z → Z) (w : World) (t : nat) (path path_len flags : Z) : exec (Z * World) :=
  if (path =? 0) || (path_len =? 0) || (256 <? path_len) then Ret (ERR_INVAL, w)
  else
    match read_user_path um path path_len with
    | None | Some [] => Ret (ERR_INVAL, w)
    | Some n =>
        let name := resolve_path (genv w) n in
        if bool_decide (name = []) then Ret (ERR_INVAL, w)
        else
          let! r := Vfs.open (vfs (kern w)) name (open_flags x86 flags) in
          let '(r, v) := r in
          let w := set_kern w (set_vfs (kern w) v) in
          match r with
          | Ok vfs_fd => alloc_in w t (fun fds => alloc_vfs_fd fds name vfs_fd flags) ERR_NOMEM
          | Err _ =>
              let pseudo := is_pseudo_path name in
              let ur := is_urandom name in
              if negb pseudo && negb ur && bool_decide (is_Some (FlatFs.read (FlatFs.FS (files w)) name))
              then alloc_in w t (fun fds => FdTable.alloc fds name flags) ERR_NOMEM
              else if ur then alloc_in w t (fun fds => alloc_urandom_fd fds flags) ERR_NOMEM
              else if pseudo then alloc_in w t (fun fds => alloc_fake_fd fds name flags) ERR_NOMEM
              else Ret (ERR_NOENT, w)
          end
    end.

Definition linux_open (um : Z → Z) (w : World) (t : nat) (path flags : Z) : exec (Z * World) :=
  let path_len := count_user_string um path in
  if path_len =? 0 then Ret (ERR_NOENT, w) else sys_open true um w t path path_len (u32 flags).

Definition openat_flags (flags : Z) : Z :=
  let has_creat := negb (Z.land flags 0x40 =? 0) in
  u32 (Z.lor (if has_creat then 0x100 else 0) (Z.land flags 0x600)).

Definition linux_openat (um : Z → Z) (w : World) (t : nat) (pathname flags : Z) : exec (Z * World) :=
  match read_user_path um pathname (count_user_string um pathname) with
  | None | Some [] => Ret (ERR_NOENT, w)
  | Some path_str =>
      let our_flags := openat_flags flags in
      let! r := Vfs.open (vfs (kern w)) path_str our_flags in
      let '(r, v) := r in
      let w := set_kern w (set_vfs (kern w) v) in
      match r with
      | Ok vfs_fd => alloc_in w t (fun fds => alloc_vfs_fd fds path_str vfs_fd our_flags) ERR_NOMEM
      | Err _ =>
          if is_urandom path_str then alloc_in w t (fun fds => alloc_urandom_fd fds our_flags) ERR_NOENT
          else if is_pseudo_path path_str || starts_with (bytes "/etc") path_str
          then alloc_in w t (fun fds => alloc_fake_fd fds path_str our_flags) ERR_NOENT
          else Ret (ERR_NOENT, w)
      end
  end.

(** ** Reading and writing *)

(** The loop of [pipe_read]; [others] is what happens while the task is blocked. *)
Fixpoint pipe_read (others : list (Pipe.Table → Pipe.Table)) (proc : nat) (p : Pipe.Table) (id : nat) (buf len : Z)
    : exec (outcome * Pipe.Table) :=
  let! r := Pipe.with_pipe p id (fun p => Pipe.read p buf len) in
  match r with
  | (None, p) => Ret (ret ERR_INVAL, p)
  | (Some (n, eff), p) =>
      if n =? -1 then
        let! r := Pipe.with_pipe p id (fun p => Ret (tt, Pipe.set_reader_blocked p proc)) in
        match others with
        | [] => Ret (Blocked, snd r)
        | f :: others => pipe_read others proc (f (snd r)) id buf len
        end
      else Ret (Returned n (byte_stores (Pipe.user_writes eff)) (Pipe.woken eff), p)
  end.

Fixpoint pipe_write (um : Z → Z) (others : list (Pipe.Table → Pipe.Table)) (proc : nat) (p : Pipe.Table) (id : nat)
    (buf len : Z) : exec (outcome * Pipe.Table) :=
  let! r := Pipe.with_pipe p id (fun p => Pipe.write um p buf len) in
  match r with
  | (None, p) => Ret (ret ERR_INVAL, p)
  | (Some (n, eff), p) =>
      if n =? Pipe.EPIPE then Ret (ret n, p)
      else if n =? -1 then
        let! r := Pipe.with_pipe p id (fun p => Ret (tt, Pipe.set_writer_blocked p proc)) in
        match others with
        | [] => Ret (Blocked, snd r)
        | f :: others => pipe_write um others proc (f (snd r)) id buf len
        end
      else Ret (Returned n [] (Pipe.woken eff), p)
  end.

(** The loop on the terminal: a read into a kernel buffer, then [poll_uart] and [schedule]. *)
Fixpoint tty_read (others : list (Tty.Tty → Tty.Tty)) (t : Tty.Tty) (buf len : Z) : exec (outcome * Tty.Tty) :=
  let! r := Tty.read t 1 len in
  let '(ws, t) := r in
  if 0 <? Z.of_nat (length ws) then Ret (Returned (Z.of_nat (length ws)) [(buf, snd <$> ws)] [], t)
  else match others with
       | [] => Ret (Blocked, t)
       | f :: others => tty_read others (f t) buf len
       end.

(** [buf == 0 || len == 0 || len > 65536] *)
Definition bad_buffer (buf len : Z) : bool := (buf =? 0) || (len =? 0) || (65536 <? len).

(** The end of [sys_write]: read the file, change it at the position, write it back. *)
Definition file_write (um : Z → Z) (w : World) (t : nat) (fd : nat) (buf len : Z) : exec (outcome * World) :=
  let! fds := table (kern w) t in
  match get fds fd with
  | None => Ret (ret ERR_INVAL, w)
  | Some f =>
      if bool_decide (name f = []) then Ret (ret ERR_INVAL, w)
      else
        let data := default [] (FlatFs.read_file_owned B (files w) (name f)) in
        let end_ := pos f +! len in
        let data := if Z.of_nat (length data) <? end_ then resize (Z.to_nat end_) 0 data else data in
        let! data := copy_in um buf (pos f) data 0 (Z.to_nat len) in
        let w := set_files w (snd (FlatFs.write_file_owned B (files w) (name f) data)) in
        let! w := advance w t fd len in
        Ret (ret len, w)
  end.

Definition sys_write (um : Z → Z) (others : list (Pipe.Table → Pipe.Table)) (proc : nat) (w : World) (t : nat)
    (fd buf len : Z) : exec (outcome * World) :=
  if bad_buffer buf len then Ret (ret ERR_INVAL, w)
  else
    let! info := get_fd_info (kern w) t fd in
    match info with
    | Some (PipeWrite, Some id, _) =>
        let! r := pipe_write um others proc (pipes (kern w)) id buf len in
        Ret (fst r, set_pipe_table w (snd r))
    | Some (PipeRead, _, _) => Ret (ret ERR_INVAL, w)
    | Some (Stdio, _, _) => Ret (ret len, print w (user_read_bytes um buf (Z.to_nat len)))
    | Some (FakeFile _, _, _) =>
        let! fds := table (kern w) t in
        let! r := fake_write um fds fd buf len in
        Ret (ret (default len (fst r)), set_kern w (set_table (kern w) t (snd r)))
    | Some (Urandom, _, _) => Ret (ret len, w)
    | Some (VfsFile vfs_fd, _, _) =>
        let! r := Vfs.write (vfs (kern w)) vfs_fd (user_read_bytes um buf (Z.to_nat len)) in
        let '(r, v) := r in
        Ret (ret (match r with Ok n => n | Err _ => ERR_IO end), set_kern w (set_vfs (kern w) v))
    | Some (File, _, _) => file_write um w t (Z.to_nat fd) buf len
    | _ => Ret (ret len, print w (user_read_bytes um buf (Z.to_nat len)))
    end.

(** The end of [sys_read]. *)
Definition file_read (w : World) (t : nat) (fd : nat) (buf len : Z) : exec (outcome * World) :=
  let! fds := table (kern w) t in
  match get fds fd with
  | None => Ret (ret ERR_INVAL, w)
  | Some f =>
      if bool_decide (name f = []) then Ret (ret ERR_INVAL, w)
      else
        match FlatFs.read_file_owned B (files w) (name f) with
        | None => Ret (ret ERR_NOENT, w)
        | Some data =>
            if Z.of_nat (length data) <=? pos f then Ret (ret 0, w)
            else
              let to_read := Z.min len (Z.of_nat (length data) - pos f) in
              let! w' := advance w t fd to_read in
              Ret (Returned to_read [(buf, slice (Z.to_nat (pos f)) (Z.to_nat to_read) data)] [], w')
        end
  end.

Definition sys_read (others : list (Pipe.Table → Pipe.Table)) (inputs : list (Tty.Tty → Tty.Tty)) (proc : nat)
    (w : World) (t : nat) (fd buf len : Z) : exec (outcome * World) :=
  if bad_buffer buf len then Ret (ret ERR_INVAL, w)
  else
    let! info := get_fd_info (kern w) t fd in
    match info with
    | Some (PipeRead, Some id, _) =>
        let! r := pipe_read others proc (pipes (kern w)) id buf len in
        Ret (fst r, set_pipe_table w (snd r))
    | Some (PipeWrite, _, _) => Ret (ret ERR_INVAL, w)
    | Some (Stdio, _, _) =>
        let! r := tty_read inputs (tty w) buf len in
        Ret (fst r, set_tty w (snd r))
    | Some (File, _, _) => file_read w t (Z.to_nat fd) buf len
    | Some (FakeFile _, _, _) | Some (Urandom, _, _) =>
        let! fds := table (kern w) t in
        let! r := fake_read (PRNG w) fds fd buf len in
        let '(n, ws, prng, fds) := r in
        Ret (Returned (default 0 n) (byte_stores ws) [],
             mkWorld (set_table (kern w) t fds) (files w) (genv w) (penv w) (tty w) prng (console w))
    | Some (VfsFile vfs_fd, _, _) =>
        let! r := Vfs.read (vfs (kern w)) vfs_fd len in
        match r with
        | (Ok bs, v) =>
            let! w := advance (set_kern w (set_vfs (kern w) v)) t (Z.to_nat fd) (Z.of_nat (length bs)) in
            Ret (Returned (Z.of_nat (length bs)) [(buf, bs)] [], w)
        | (Err _, v) => Ret (ret ERR_IO, set_kern w (set_vfs (kern w) v))
        end
    | _ => Ret (ret ERR_INVAL, w)
    end.

(** The VFS descriptor behind an open descriptor. *)
Definition vfs_fd_of (w : World) (t : nat) (fd : Z) : exec (option nat) :=
  let! fds := table (kern w) t in
  Ret (if fd <? 0 then None
       else match get fds (Z.to_nat fd) with
            | Some d => match fd_type d with VfsFile v => Some v | _ => None end
            | None => None
            end).

Definition linux_pread64 (others : list (Pipe.Table → Pipe.Table)) (inputs : list (Tty.Tty → Tty.Tty)) (proc : nat)
    (w : World) (t : nat) (fd buf count offset : Z) : exec (outcome * World) :=
  if count =? 0 then Ret (ret 0, w)
  else
    let! o := vfs_fd_of w t fd in
    match o with
    | Some v =>
        let! r := Vfs.pread (vfs (kern w)) v count offset in
        match r with
        | Ok bs => Ret (Returned (Z.of_nat (length bs)) [(buf, bs)] [], w)
        | Err _ => sys_read others inputs proc w t fd buf count
        end
    | None => sys_read others inputs proc w t fd buf count
    end.

Definition linux_pwrite64 (um : Z → Z) (others : list (Pipe.Table → Pipe.Table)) (proc : nat) (w : World) (t : nat)
    (fd buf count offset : Z) : exec (outcome * World) :=
  if count =? 0 then Ret (ret 0, w)
  else
    let! o := vfs_fd_of w t fd in
    match o with
    | Some v =>
        let! r := Vfs.pwrite (vfs (kern w)) v (user_read_bytes um buf (Z.to_nat count)) offset in
        match r with
        | (Ok n, v) => Ret (ret n, set_kern w (set_vfs (kern w) v))
        | (Err _, v) => sys_write um others proc (set_kern w (set_vfs (kern w) v)) t fd buf count
        end
    | None => sys_write um others proc w t fd buf count
    end.

(** [isize::saturating_add] *)
Definition isize_saturating_add (a b : Z) : Z := Z.max (- 2 ^ 63) (Z.min (2 ^ 63 - 1) (a + b)).

Definition linux_lseek (w : World) (t : nat) (fd offset whence : Z) : exec (Z * World) :=
  let! fds := table (kern w) t in
  match get fds (Z.to_nat fd) with
  | None => Ret (-9, w)
  | Some desc =>
      let file_size :=
        match fd_type desc with
        | VfsFile v =>
            match Vfs.fd_metadata (vfs (kern w)) v with Ok meta => Vfs.m_size meta | Err _ => pos desc end
        | FakeFile data => Z.of_nat (length data)
        | _ => pos desc
        end in
      let base :=
        if whence =? 0 then Some 0
        else if whence =? 1 then Some (i64 (pos desc))
        else if whence =? 2 then Some (i64 file_size)
        else None in
      match base with
      | None => Ret (ERR_INVAL, w)
      | Some base =>
          let new_pos := isize_saturating_add base (i64 offset) in
          if new_pos <? 0 then Ret (ERR_INVAL, w)
          else
            let fds := snd (get_mut fds (Z.to_nat fd) (fun d => FdTable.set_pos d new_pos)) in
            Ret (new_pos, set_kern w (set_table (kern w) t fds))
      end
  end.

(** ftruncate, in the dispatcher. *)
Definition linux_ftruncate (w : World) (t : nat) (fd length : Z) : exec (Z * World) :=
  let! fds := table (kern w) t in
  match (if fd <? 0 then None else get fds (Z.to_nat fd)) with
  | None => Ret (0, w)
  | Some d =>
      match fd_type d with
      | VfsFile v =>
          let '(r, v') := Vfs.truncate (vfs (kern w)) v length in
          Ret (match r with Ok _ => 0 | Err _ => -1 end, set_kern w (set_vfs (kern w) v'))
      | FakeFile _ =>
          let '(ok, fds) := fake_truncate fds fd length in
          Ret (if ok then 0 else ERR_INVAL, set_kern w (set_table (kern w) t fds))
      | _ => Ret (0, w)
      end
  end.

(** ** Metadata and directories *)

(** The 144 bytes of struct stat. *)
Definition fill_stat_buffer (st_mode st_size st_ino : Z) : list Z :=
  replicate 8 0 ++ le_bytes 8 st_ino ++ le_bytes 8 1 ++ le_bytes 4 st_mode ++ replicate 20 0 ++
  le_bytes 8 st_size ++ le_bytes 8 4096 ++ replicate 80 0.

Definition S_DIR : Z := 0x41FF.
Definition S_REG : Z := 0x81A4.

Definition linux_stat (um : Z → Z) (w : World) (pathname statbuf : Z) : outcome :=
  if statbuf =? 0 then ret 0
  else
    match read_user_path um pathname (count_user_string um pathname) with
    | None => ret (-2)
    | Some s =>
        let resolved := resolve_path (genv w) s in
        let meta :=
          match Vfs.walk_path_resolved (vfs (kern w)) resolved with
          | Ok ino =>
              match Vfs.inode_metadata (vfs (kern w)) ino with
              | Ok meta => Some (if Vfs.is_dir meta then S_DIR else S_REG, Vfs.m_size meta, ino)
              | Err _ => None
              end
          | Err _ => None
          end in
        match meta with
        | Some (mode, size, ino) => Returned 0 [(statbuf, fill_stat_buffer mode size ino)] []
        | None =>
            if is_pseudo_path resolved then Returned 0 [(statbuf, fill_stat_buffer S_DIR 0 0)] [] else ret (-2)
        end
    end.

Definition linux_fstat (w : World) (t : nat) (fd statbuf : Z) : exec outcome :=
  if statbuf =? 0 then Ret (ret 0)
  else
    let! fds := table (kern w) t in
    let '(mode, size, ino) :=
      match get fds (Z.to_nat fd) with
      | None => (S_DIR, 0, 0)
      | Some desc =>
          match fd_type desc with
          | VfsFile v =>
              let ino := default 0 (Vfs.get_inode_for_fd (vfs (kern w)) v) in
              match Vfs.fd_metadata (vfs (kern w)) v with
              | Ok meta => (if Vfs.is_dir meta then S_DIR else S_REG, Vfs.m_size meta, ino)
              | Err _ => (S_REG, 0, ino)
              end
          | Urandom => (0x21A4, 0, 0)
          | FakeFile _ => (S_REG, 0, 0)
          | Stdio => (0x21A4, 0, 1)
          | PipeRead | PipeWrite => (0x11A4, 0, 0)
          | _ => (S_REG, 0, 0)
          end
      end in
    Ret (Returned 0 [(statbuf, fill_stat_buffer mode size ino)] []).

Definition align_up (value align : Z) : Z := Z.land (value +! align -! 1) (not64 (align -! 1)).

Definition dirent_type (ty : Vfs.VfsFileType) : Z :=
  match ty with Vfs.Directory => 4 | Vfs.File => 8 end.

(** The record of one entry, and its length: linux_dirent64 or linux_dirent. *)
Definition reclen (name : str) : Z := align_up (8 + 8 + 2 + 1 + Z.of_nat (length name) + 1) 8.

Definition dirent64 (idx : Z) (e : Vfs.VfsDirEntry) : list Z :=
  le_bytes 8 (idx +! 1) ++ le_bytes 8 (idx +! 1) ++ le_bytes 2 (reclen (Vfs.e_name e)) ++
  [dirent_type (Vfs.e_type e)] ++ Vfs.e_name e ++
  replicate (Z.to_nat (reclen (Vfs.e_name e)) - 19 - length (Vfs.e_name e)) 0.

Definition dirent (idx : Z) (e : Vfs.VfsDirEntry) : list Z :=
  le_bytes 8 (idx +! 1) ++ le_bytes 8 (idx +! 1) ++ le_bytes 2 (reclen (Vfs.e_name e)) ++ Vfs.e_name e ++
  replicate (Z.to_nat (reclen (Vfs.e_name e)) - 19 - length (Vfs.e_name e)) 0 ++ [dirent_type (Vfs.e_type e)].

(** The loop: the bytes written and the next index, or the error it returns; the stores of
    the records before it are done in both cases. *)
Fixpoint dents_loop (fuel : nat) (record : Z → Vfs.VfsDirEntry → list Z) (v : Vfs.VfsState F) (vfs_fd : nat)
    (idx dirp count written : Z) (out : list (Z * list Z)) : result (Z * Z) Z * list (Z * list Z) :=
  match fuel with
  | O => (Ok (written, idx), out)
  | S fuel =>
      match Vfs.readdir_at v vfs_fd idx with
      | Ok (Some entry) =>
          let rl := reclen (Vfs.e_name entry) in
          if count <? written +! rl then
            if written =? 0 then (Err ERR_INVAL, out) else (Ok (written, idx), out)
          else if 280 <? rl then (Err ERR_RANGE, out)
          else dents_loop fuel record v vfs_fd (idx +! 1) dirp count (written +! rl)
                 (out ++ [(dirp +! written, record idx entry)])
      | Ok None => (Ok (written, idx), out)
      | Err Vfs.NotADirectory => (Err (-20), out)
      | Err _ => (Err ERR_IO, out)
      end
  end.

(** A record has at least 24 bytes, so [count / 24 + 1] rounds are enough. *)
Definition getdents (record : Z → Vfs.VfsDirEntry → list Z) (w : World) (t : nat) (fd dirp count : Z)
    : exec (outcome * World) :=
  if (dirp =? 0) || (count =? 0) then Ret (ret ERR_INVAL, w)
  else
    let! fds := table (kern w) t in
    match get fds (Z.to_nat fd) with
    | None => Ret (ret ERR_INVAL, w)
    | Some desc =>
        match fd_type desc with
        | VfsFile v =>
            match dents_loop (S (Z.to_nat (count / 24))) record (vfs (kern w)) v (pos desc) dirp count 0 [] with
            | (Err e, out) => Ret (Returned e out [], w)
            | (Ok (written, idx), out) =>
                let fds := if written =? 0 then fds
                           else snd (get_mut fds (Z.to_nat fd) (fun d => FdTable.set_pos d idx)) in
                Ret (Returned written out [], set_kern w (set_table (kern w) t fds))
            end
        | _ => Ret (ret (-20), w)
        end
    end.

Definition linux_getdents64 (w : World) (t : nat) (fd dirp count : Z) : exec (outcome * World) :=
  getdents dirent64 w t fd dirp count.
Definition linux_getdents (w : World) (t : nat) (fd dirp count : Z) : exec (outcome * World) :=
  getdents dirent w t fd dirp count.

Definition sys_chdir (um : Z → Z) (w : World) (path path_len : Z) : Z * World :=
  match read_user_path um path path_len with
  | None | Some [] => (ERR_INVAL, w)
  | Some n =>
      let resolved := resolve_path (genv w) n in
      let found :=
        if FlatFs.has_ext4 B (FlatFs.disk (files w)) then
          match FlatFs.ext4_lookup_path B (FlatFs.disk (files w)) resolved with
          | Some inode => match metadata_of (FlatFs.disk (files w)) inode with Some true => true | _ => false end
          | None => false
          end
        else true in
      if found then (ERR_OK, set_genv w (Env.set (genv w) (bytes "CWD") (SLASH :: resolved)))
      else (ERR_NOENT, w)
  end.

Definition linux_chdir (um : Z → Z) (w : World) (path : Z) : Z * World :=
  let path_len := count_user_string um path in
  if path_len =? 0 then (ERR_INVAL, w) else sys_chdir um w path path_len.

Definition linux_getcwd (buf size : Z) : outcome :=
  if (buf =? 0) || (size =? 0) then ret ERR_INVAL
  else let n := Z.min 2 size in Returned (n - 1) [(buf, firstn (Z.to_nat n) [SLASH; 0])] [].

(** The one of syscall/linux.rs. *)
Definition sys_getcwd (w : World) (buf_ptr buf_len : Z) : outcome :=
  if (buf_ptr =? 0) || (buf_len =? 0) then ret ERR_RANGE
  else
    match Env.get (genv w) (bytes "CWD") with
    | None =>
        if buf_len <? 2 then ret ERR_RANGE else Returned 1 [(buf_ptr, [SLASH]); (buf_ptr +! 1, [0])] []
    | Some cwd =>
        if buf_len <=? Z.of_nat (length cwd) then ret ERR_RANGE
        else Returned (Z.of_nat (length cwd)) [(buf_ptr, cwd); (buf_ptr +! Z.of_nat (length cwd), [0])] []
    end.

(** [for &b in bytes { if written >= len { break; } user_write(..); written += 1; }] *)
Definition put_capped (len : nat) (out bs : list Z) : list Z := out ++ firstn (len - length out) bs.

Definition sys_ls (w : World) (buf len : Z) : outcome :=
  if (buf =? 0) || (len =? 0) then ret ERR_INVAL
  else
    let n := Z.to_nat len in
    let listing := FlatFs.list_directory B (files w) (trim_start (cwd (genv w))) in
    let out := foldl (fun out '(name, size) =>
                 put_capped n (put_capped n (put_capped n (put_capped n out name) [9]) (Text.show_u64 size)) [10])
                 [] listing in
    Returned (Z.of_nat (length out)) [(buf, out)] [].

(** The first lines of mkdir and unlink. *)
Definition path_arg (um : Z → Z) (w : World) (path path_len : Z) : option str :=
  if (path =? 0) || (path_len =? 0) || (256 <? path_len) then None
  else match read_user_path um path path_len with
       | None | Some [] => None
       | Some n => Some (resolve_path (genv w) n)
       end.

Definition sys_mkdir (um : Z → Z) (w : World) (path path_len : Z) : Z * World :=
  match path_arg um w path path_len with
  | None => (ERR_INVAL, w)
  | Some n =>
      match FlatFs.lookup_path B (files w) n with
      | Some inode =>
          (match metadata_of (FlatFs.disk (files w)) inode with Some false => -20 | _ => -17 end, w)
      | None =>
          let '(r, f) := FlatFs.create_dir B (files w) n in
          (match r with Ok _ => 0 | Err _ => ERR_IO end, set_files w f)
      end
  end.

Definition sys_unlink (um : Z → Z) (w : World) (path path_len : Z) : Z * World :=
  match path_arg um w path path_len with
  | None => (ERR_INVAL, w)
  | Some n => (0, set_files w (snd (FlatFs.delete_file B (files w) n)))
  end.

Definition linux_mkdirat (um : Z → Z) (w : World) (path_ptr : Z) : Z * World :=
  if path_ptr =? 0 then (-22, w)
  else
    let actual_len := count_user_string um path_ptr in
    if (actual_len =? 0) || (256 <? actual_len) then (-2, w) else sys_mkdir um w path_ptr actual_len.

(** ** Environment variables *)

(** [while kbuf.last() == Some(&0) { kbuf.pop(); }] *)
Fixpoint drop_zeros (s : list Z) : list Z :=
  match s with
  | b :: s' => if b =? 0 then drop_zeros s' else s
  | [] => []
  end.
Definition env_arg (um : Z → Z) (addr len : Z) : str :=
  let s := reverse (drop_zeros (reverse (user_read_bytes um addr (Z.to_nat len)))) in
  if utf8 s then s else [].

Definition sys_setenv (um : Z → Z) (w : World) (key key_len val val_len : Z) : Z * World :=
  if (key =? 0) || (key_len =? 0) || (128 <? key_len) || (val =? 0) || (4096 <? val_len) then (ERR_INVAL, w)
  else
    let k := env_arg um key key_len in
    let v := env_arg um val val_len in
    (0, mkWorld (kern w) (files w) (Env.set (genv w) k v) (insert k v <$> penv w) (tty w) (PRNG w) (console w)).

Definition sys_getenv (um : Z → Z) (w : World) (key key_len buf buf_len : Z) : outcome :=
  if (key =? 0) || (key_len =? 0) || (128 <? key_len) then ret ERR_INVAL
  else
    let k := env_arg um key key_len in
    match (match penv w ≫= (fun e => e !! k) with Some v => Some v | None => Env.get (genv w) k end) with
    | None => ret (-1)
    | Some v =>
        if negb (buf =? 0) && (0 <? buf_len)
        then let n := Z.min (Z.of_nat (length v)) buf_len in Returned n [(buf, firstn (Z.to_nat n) v)] []
        else ret (Z.of_nat (length v))
    end.

End calls.


(** ** Descriptors *)

Section facts.
Context {F : Type} `{Vfs.FileSystem F} {D : Type} (B : FlatFs.Backend D).
Abbreviation World := (@World F D).

Lemma table_set (k : @Kernel F) (t : nat) (fds fds' : Fds) : table k t = Ret fds → table (set_table k t fds') t = Ret fds'.
Proof.
  unfold table, set_table. cbn. destruct (tables k !! t) eqn:E; [|done]. intros _.
  rewrite list_lookup_insert_eq; [done|]. by apply lookup_lt_Some in E.
Qed.

Lemma get_mut_get (fds : Fds) (fd : nat) (d : FileDescriptor) (f : FileDescriptor → FileDescriptor) :
  get fds fd = Some d → valid (f d) = valid d → get (snd (get_mut fds fd f)) fd = Some (f d).
Proof.
  intros Hg Hv. unfold get_mut. rewrite Hg. cbn. unfold get in *.
  destruct (fds !! fd) as [[d'|]|] eqn:E; [|done..]. destruct (valid d') eqn:Ev; [|done]. injection Hg as ->.
  rewrite list_lookup_insert_eq by (by apply lookup_lt_Some in E). by rewrite Hv, Ev.
Qed.

(** Moving the position of a descriptor changes nothing [get_fd_info] sees. *)
Lemma info_set_pos (k : @Kernel F) (t : nat) (fds : Fds) (fd : nat) (p fd' : Z) : table k t = Ret fds →
  get_fd_info (set_table k t (snd (get_mut fds fd (fun d => FdTable.set_pos d p)))) t fd' = get_fd_info k t fd'.
Proof.
  intros Ht. unfold get_fd_info. destruct (bad_fd fd'); [done|]. rewrite Ht, (table_set k t fds) by done. cbn [exec_bind].
  f_equal. unfold get_mut. destruct (get fds fd) as [d|] eqn:E; [|done]. cbn [snd].
  destruct (decide (Z.to_nat fd' = fd)) as [->|Hne].
  - unfold get in *. destruct (fds !! fd) as [[d'|]|] eqn:El; try done. destruct (valid d') eqn:Ev; [|done].
    injection E as ->. rewrite list_lookup_insert_eq by (by apply lookup_lt_Some in El). cbn. by rewrite Ev.
  - unfold get. by rewrite list_lookup_insert_ne.
Qed.

(** What a successful lseek leaves behind. *)
Lemma lseek_spec (w w' : World) (t : nat) (fd offset whence p : Z) :
  linux_lseek w t fd offset whence = Ret (p, w') → 0 <= p →
  ∃ fds d, table (kern w) t = Ret fds ∧ get fds (Z.to_nat fd) = Some d ∧
    w' = set_kern w (set_table (kern w) t (snd (get_mut fds (Z.to_nat fd) (fun d => FdTable.set_pos d p)))).
Proof.
  unfold linux_lseek. destruct (table (kern w) t) as [fds|] eqn:Ht; [|done]. cbn [exec_bind].
  destruct (get fds (Z.to_nat fd)) as [d|] eqn:Hd; [|intros [= <- _]; lia]. intros Hr Hp. exists fds, d.
  split; [done|]. split; [done|]. destruct (if whence =? 0 then _ else _) as [base|]; [|injection Hr as <- _; unfold ERR_INVAL in Hp; lia].
  destruct (isize_saturating_add base (i64 offset) <? 0); [injection Hr as <- _; unfold ERR_INVAL in Hp; lia|].
  by injection Hr as <- <-.
Qed.

End facts.

(** The end of the file, from the position on. *)
Definition from_pos (data : list Z) (p len : Z) : list Z := firstn (Z.to_nat len) (drop (Z.to_nat p) data).

(** Lseek. Whenever it succeeds on a descriptor of an in-memory file, the next
    read returns the bytes from the new position on. On a descriptor of a VFS file
    it moves a position that reads do not use: the next read returns what it would
    have returned without the call. *)
Theorem lseek_moves_only_memory_files {F : Type} `{Vfs.FileSystem F} {D : Type} (B : FlatFs.Backend D)
    (w w' : @World F D) (t : nat) (fd offset whence p : Z) (fds : Fds) (d : FileDescriptor) :
  linux_lseek w t fd offset whence = Ret (p, w') → 0 <= p < 2 ^ 64 →
  table (kern w) t = Ret fds → get fds (Z.to_nat fd) = Some d → 0 <= fd < Z.of_nat MAX_FDS →
  ∀ others inputs proc buf len, bad_buffer buf len = false → 0 <= len →
  (∀ v o w1, fd_type d = VfsFile v → sys_read B others inputs proc w t fd buf len = Ret (o, w1) →
     ∃ w2, sys_read B others inputs proc w' t fd buf len = Ret (o, w2) ∧ vfs (kern w2) = vfs (kern w1)) ∧
  (∀ data, fd_type d = FakeFile data → Z.of_nat (length data) < 2 ^ 64 →
     ∃ w2, sys_read B others inputs proc w' t fd buf len =
       Ret (Returned (Z.of_nat (length (from_pos data p len))) (byte_stores (user_stores buf 0 (from_pos data p len))) [], w2)).
Proof.
  intros Hs Hp Ht Hd Hfd others inputs proc buf len Hb Hl0.
  destruct (lseek_spec w w' t fd offset whence p Hs ltac:(lia)) as (fds' & d' & Ht' & Hd' & Hw).
  rewrite Ht in Ht'. injection Ht' as <-. rewrite Hd in Hd'. injection Hd' as <-.
  assert (bad_fd fd = false) as Hbad.
  { unfold bad_fd. rewrite (proj2 (Z.ltb_ge _ _)), (proj2 (Z.leb_gt _ _)) by lia. done. }
  assert (get_fd_info (kern w) t fd = Ret (Some (fd_type d, pipe_id d, name d))) as Hinfo.
  { unfold get_fd_info. rewrite Hbad, Ht. cbn [exec_bind]. by rewrite Hd. }
  assert (get_fd_info (kern w') t fd = Ret (Some (fd_type d, pipe_id d, name d))) as Hinfo'.
  { subst w'. cbn [kern set_kern]. by rewrite info_set_pos. }
  unfold sys_read. rewrite Hb, Hinfo, Hinfo'. cbn [exec_bind]. split.
  - intros v o w1 Hty. rewrite Hty. subst w'. cbn [kern set_kern vfs set_table].
    destruct (Vfs.read (vfs (kern w)) v len) as [[[bs|e] vs]|]; [| |done]; cbn [exec_bind].
    + unfold advance. cbn [kern set_kern set_vfs]. intros Hr.
      destruct (table _ t) as [fdsA|] eqn:EA in Hr; [|done]. cbn [exec_bind] in Hr. injection Hr as <- <-.
      match goal with |- context [table ?k t] => destruct (table k t) as [fdsB|] eqn:EB end.
      * cbn [exec_bind]. eexists. split; [done|]. done.
      * exfalso. unfold table, set_vfs, set_table in EA, EB. cbn in EA, EB.
        destruct (tables (kern w) !! t) eqn:E; [|done]. rewrite list_lookup_insert_eq in EB; [done|].
        by apply lookup_lt_Some in E.
    + intros [= <- <-]. eexists. split; [done|]. done.
  - intros data Hty H63. rewrite Hty. subst w'. cbn [kern set_kern]. rewrite (table_set _ _ fds) by done. cbn [exec_bind].
    pose proof (get_mut_get fds (Z.to_nat fd) d (fun d => FdTable.set_pos d p) Hd eq_refl) as [Hg _]%get_Some.
    rewrite (fake_read_spec _ fd _ data (proj2 (slot_at_Some _ _ _) (conj (proj1 Hfd) Hg)) Hty) by (cbn; lia).
    cbn [exec_bind default from_option]. by eexists.
Qed.

(** ** Opening *)

Lemma vfs_alloc_get (files files' : Vfs.OpenFileTable) (id i : nat) (ino fl : Z) :
  Vfs.alloc files id ino fl = (Ok i, files') → Vfs.get files' i = Some (Vfs.mkOpenFile id ino 0 fl).
Proof.
  unfold Vfs.alloc, Vfs.get. destruct (Vfs.first_none files 0) as [j|] eqn:E.
  - intros [= <- <-]. assert (j < length files)%nat as Hj; [|by rewrite list_lookup_insert_eq].
    revert j E. assert (∀ fs k j, Vfs.first_none fs k = Some j → (k <= j < k + length fs)%nat) as Hgen.
    { induction fs as [|[o|] fs IH]; intros k j; cbn; [done| |intros [= <-]; lia]. intros Hj%IH. lia. }
    intros j Hj%Hgen. lia.
  - case_match; [done|]. intros [= <- <-]. by rewrite list_lookup_middle.
Qed.

Section open.
Context {F : Type} `{Vfs.FileSystem F} {D : Type} (B : FlatFs.Backend D).

(** A file is opened at its start with the flags passed to the layer. *)
Lemma vfs_open_file (v v' : Vfs.VfsState F) (path : str) (fl : Z) (i : nat) :
  Vfs.open v path fl = Ret (Ok i, v') →
  ∃ file, Vfs.get (Vfs.open_files v') i = Some file ∧ Vfs.flags file = fl ∧ Vfs.pos file = 0.
Proof.
  assert (∀ w id ino, Vfs.alloc_fd w id ino fl = Ret (Ok i, v') →
    ∃ file, Vfs.get (Vfs.open_files v') i = Some file ∧ Vfs.flags file = fl ∧ Vfs.pos file = 0) as Ha.
  { intros w id ino. unfold Vfs.alloc_fd. destruct (Vfs.alloc _ id ino fl) as [r files'] eqn:E. intros [= -> <-].
    apply vfs_alloc_get in E. by eexists. }
  unfold Vfs.open, Vfs.try_bind. intros Ho. repeat (case_match; simplify_eq; try done); eauto.
Qed.

(** The descriptor [alloc_in] returns for a VFS file. *)
Lemma alloc_in_vfs (w w' : @World F D) (t v : nat) (n : str) (fl err fd : Z) :
  alloc_in w t (fun fds => alloc_vfs_fd fds n v fl) err = Ret (fd, w') → err < 0 → 0 <= fd →
  ∃ fds k, table (kern w) t = Ret fds ∧ fd = Z.of_nat k ∧
    w' = set_kern w (set_table (kern w) t (<[k := Some (mkFd n 0 fl true (VfsFile v) None 0)]> fds)) ∧
    (k < length fds)%nat.
Proof.
  unfold alloc_in. destruct (table (kern w) t) as [fds|]; [|done]. cbn [exec_bind]. unfold alloc_vfs_fd.
  destruct (fill_free_spec (fun _ => mkFd n 0 fl true (VfsFile v) None 0) fds 0) as [[_ ->]|(k & Hk & _ & _ & ->)];
    intros [= <- <-] He Hf; [lia|]. by exists fds, k.
Qed.

End open.

(** The bits of the flags that reach the VFS. *)
Definition kept_flags (x86 : bool) : Z := if x86 then 0x740 else 0x700.

Lemma open_flags_zero (x86 : bool) (flags : Z) : open_flags x86 flags = 0 ↔ Z.land flags (kept_flags x86) = 0.
Proof.
  unfold open_flags, kept_flags, O_CREAT, O_TRUNC, O_APPEND. rewrite Z.lor_eq_0_iff.
  destruct x86.
  - change 0x740 with (Z.lor 0x40 (Z.lor 0x100 (Z.lor 0x200 0x400))). rewrite !Z.land_lor_distr_r, !Z.lor_eq_0_iff.
    destruct (Z.eqb_spec (Z.land flags 0x40) 0), (Z.eqb_spec (Z.land flags 0x100) 0); cbn; intuition (try done; try lia).
  - change 0x700 with (Z.lor 0x100 (Z.lor 0x200 0x400)). rewrite !Z.land_lor_distr_r, !Z.lor_eq_0_iff.
    destruct (Z.eqb_spec (Z.land flags 0x100) 0); cbn; intuition (try done; try lia).
Qed.

Lemma open_flags_not_wronly (x86 : bool) (flags : Z) : open_flags x86 flags ≠ Vfs.O_WRONLY.
Proof.
  intros E. apply (f_equal (fun x => Z.testbit x 0)) in E. revert E. unfold open_flags. rewrite Z.lor_spec, Z.land_spec.
  replace (Z.testbit (Z.lor O_TRUNC O_APPEND) 0) with false by done. rewrite andb_false_r.
  match goal with |- context [if ?c then O_CREAT else 0] => destruct c end; done.
Qed.

(** C28: open ignores the access mode of a file the VFS has.  Suppose the path is
    readable and names a file the VFS opens, and open returns a descriptor.  Then
    a write through it from a valid buffer fails with EIO when the flags had none
    of O_CREAT, O_TRUNC and O_APPEND, whatever the access mode; when they had one
    of them and the file system's own write of the bytes at offset 0 succeeds,
    the write returns what that returned; and a read into a valid buffer returns
    what the file system's own read at offset 0 does when that succeeds,
    whatever the flags.  So O_RDWR and O_WRONLY alone give descriptors that
    cannot be written, and O_RDONLY with O_CREAT one that can.  Files that the VFS
    does not have and open serves from the RAM store or as a fake file are not
    covered. *)
Theorem open_ignores_access_mode {F : Type} `{Vfs.FileSystem F} {D : Type} (B : FlatFs.Backend D) (x86 : bool)
    (um : Z → Z) (w w' : @World F D) (t : nat) (path path_len flags fd : Z) (n : str) (v : nat) (vs : Vfs.VfsState F) :
  read_user_path um path path_len = Some n → n ≠ [] → path_len <= 256 → resolve_path (genv w) n ≠ [] →
  Vfs.open (vfs (kern w)) (resolve_path (genv w) n) (open_flags x86 flags) = Ret (Ok v, vs) →
  sys_open x86 um w t path path_len flags = Ret (fd, w') → 0 <= fd < Z.of_nat MAX_FDS →
  ∀ um' others inputs proc buf len, bad_buffer buf len = false →
  (Z.land flags (kept_flags x86) = 0 → sys_write B um' others proc w' t fd buf len = Ret (ret ERR_IO, w')) ∧
  (Z.land flags (kept_flags x86) ≠ 0 →
     ∀ file f m f', Vfs.get (Vfs.open_files vs) v = Some file → Vfs.get_fs vs (Vfs.mount_id file) = Ok f →
     Vfs.write_file f (Vfs.inode file) 0 (user_read_bytes um' buf (Z.to_nat len)) = Ret (Ok m, f') →
     ∃ w1, sys_write B um' others proc w' t fd buf len = Ret (ret m, w1)) ∧
  (∀ file f bs, Vfs.get (Vfs.open_files vs) v = Some file → Vfs.get_fs vs (Vfs.mount_id file) = Ok f →
     Vfs.read_file f (Vfs.inode file) 0 len = Ret (Ok bs) →
     ∃ w1, sys_read B others inputs proc w' t fd buf len = Ret (Returned (Z.of_nat (length bs)) [(buf, bs)] [], w1)).
Proof.
  intros Hpath Hn Hlen Hres Hvfs Hopen Hfd um' others inputs proc buf len Hbuf.
  destruct (vfs_open_file _ _ _ _ _ Hvfs) as (file & Hfile & Hfl & Hpos).
  unfold sys_open in Hopen. assert ((path =? 0) || (path_len =? 0) || (256 <? path_len) = false) as Hb.
  { unfold read_user_path in Hpath. destruct ((path =? 0) || (path_len =? 0)); [done|]. by apply Z.ltb_ge. }
  rewrite Hb, Hpath in Hopen. destruct n as [|c n]; [done|]. rewrite bool_decide_eq_false_2, Hvfs in Hopen by done.
  cbn [exec_bind] in Hopen. apply alloc_in_vfs in Hopen as (fds & k & Ht & -> & Hw & Hk); [|done|lia].
  cbn [kern set_kern] in Ht. set (d := mkFd _ _ _ _ _ _ _) in Hw.
  assert (table (kern w') t = Ret (<[k := Some d]> fds)) as Ht'.
  { subst w'. cbn [kern set_kern]. by rewrite (table_set _ _ fds). }
  assert (get_fd_info (kern w') t (Z.of_nat k) = Ret (Some (VfsFile v, None, name d))) as Hinfo.
  { unfold get_fd_info, bad_fd. rewrite (proj2 (Z.ltb_ge _ _)), (proj2 (Z.leb_gt _ _)) by lia. cbn [orb].
    rewrite Ht'. cbn [exec_bind]. unfold get. rewrite Nat2Z.id, list_lookup_insert_eq by done. done. }
  assert (vfs (kern w') = vs) as Hvs by (by subst w').
  unfold sys_write, sys_read. rewrite Hbuf, Hinfo. cbn [exec_bind]. rewrite Hvs.
  unfold Vfs.write, Vfs.read. rewrite Hfile. cbn [ok_or Vfs.try_bind]. rewrite Hfl. split; [|split].
  - intros Hz%open_flags_zero. rewrite Hz. cbn. repeat f_equal. rewrite <- Hvs. by destruct w' as [[]].
  - intros Hz file' f m f' [= <-] Hf Hw'. rewrite (proj2 (Z.eqb_neq _ _)) by (by rewrite open_flags_zero).
    rewrite Hf. cbn [Vfs.try_bind]. rewrite Hpos, Hw'. cbn [exec_bind Vfs.try_bind]. by eexists.
  - intros file' f bs [= <-] Hf Hr. rewrite (proj2 (Z.eqb_neq _ _)) by apply open_flags_not_wronly.
    rewrite Hf. cbn [Vfs.try_bind]. rewrite Hpos, Hr. cbn [exec_bind Vfs.try_bind]. unfold advance. cbn [kern set_kern].
    assert (table (set_vfs (kern w') (Vfs.set_pos vs v (0 +! Z.of_nat (length bs)))) t = Ret (<[k := Some d]> fds)) as -> by done.
    cbn [exec_bind]. by eexists.
Qed.

(** ** Directory records *)

Lemma reclen_val (n : str) : (length n <= 255)%nat → reclen n = (27 + Z.of_nat (length n)) / 8 * 8.
Proof.
  intros Hn. unfold reclen, align_up. change (8 -! 1) with (2 ^ 3 - 1).
  rewrite (u64_small (_ + 8)), u64_small by lia. rewrite land_not_ones by (unfold is_u64; lia).
  do 2 f_equal. lia.
Qed.

Lemma reclen_bounds (n : str) : (length n <= 255)%nat →
  24 <= reclen n <= 280 ∧ 20 + Z.of_nat (length n) <= reclen n.
Proof. intros Hn. rewrite reclen_val by done. Z.to_euclidean_division_equations; lia. Qed.

(** The entries of a listing that fit into [room] bytes. *)
Fixpoint fitting (room : Z) (es : list Vfs.VfsDirEntry) : list Vfs.VfsDirEntry :=
  match es with
  | [] => []
  | e :: es => if reclen (Vfs.e_name e) <=? room then e :: fitting (room - reclen (Vfs.e_name e)) es else []
  end.

(** The stores of their records. *)
Fixpoint records (record : Z → Vfs.VfsDirEntry → list Z) (idx addr : Z) (es : list Vfs.VfsDirEntry) : list (Z * list Z) :=
  match es with
  | [] => []
  | e :: es => (addr, record idx e) :: records record (idx + 1) (addr + reclen (Vfs.e_name e)) es
  end.

Definition total (es : list Vfs.VfsDirEntry) : Z := foldr (fun e n => reclen (Vfs.e_name e) + n) 0 es.

Definition names_ok (es : list Vfs.VfsDirEntry) : Prop := Forall (fun e => (length (Vfs.e_name e) <= 255)%nat) es.

Lemma fitting_total (es : list Vfs.VfsDirEntry) : ∀ room, names_ok es → 0 <= room →
  0 <= total (fitting room es) <= room ∧ 24 * Z.of_nat (length (fitting room es)) <= total (fitting room es).
Proof.
  unfold total. induction es as [|e es IH]; intros room Hn Hr; cbn; [lia|]. apply Forall_cons in Hn as [He Hn].
  destruct (Z.leb_spec (reclen (Vfs.e_name e)) room) as [Hle|]; cbn; [|lia].
  specialize (IH (room - reclen (Vfs.e_name e)) Hn ltac:(lia)). pose proof (reclen_bounds _ He). lia.
Qed.

Section dents.
Context {F : Type} `{Vfs.FileSystem F}.
Context (record : Z → Vfs.VfsDirEntry → list Z) (v : Vfs.VfsState F) (fd : nat) (dirp count : Z).
Context (Hdirp : 0 <= dirp) (Hcount : 0 <= count) (H64 : dirp + count < 2 ^ 63).

(** The directory holds exactly [es] from index [idx] on. *)
Definition lists (idx : Z) (es : list Vfs.VfsDirEntry) : Prop :=
  0 <= idx ∧ idx + Z.of_nat (length es) < 2 ^ 63 ∧
  ∀ i : nat, (i <= length es)%nat → Vfs.readdir_at v fd (idx + Z.of_nat i) = Ok (es !! i).

Lemma lists_tail (idx : Z) (e : Vfs.VfsDirEntry) (es : list Vfs.VfsDirEntry) :
  lists idx (e :: es) → Vfs.readdir_at v fd idx = Ok (Some e) ∧ lists (idx + 1) es.
Proof.
  intros (H0 & Hl & Hr). cbn [length] in *. split.
  - specialize (Hr 0%nat ltac:(lia)). by rewrite Z.add_0_r in Hr.
  - split; [lia|]. split; [lia|]. intros i Hi. specialize (Hr (S i) ltac:(lia)).
    change ((e :: es) !! S i) with (es !! i) in Hr. rewrite <- Hr. f_equal. lia.
Qed.

Lemma dents_loop_ok (es : list Vfs.VfsDirEntry) : ∀ fuel idx written out,
  names_ok es → lists idx es → 0 <= written <= count → (count - written) / 24 < Z.of_nat fuel →
  let m := fitting (count - written) es in
  dents_loop fuel record v fd idx dirp count written out =
    if bool_decide (m = [] ∧ es ≠ [] ∧ written = 0) then (Err ERR_INVAL, out)
    else (Ok (written + total m, idx + Z.of_nat (length m)), out ++ records record idx (dirp + written) m).
Proof.
  induction es as [|e es IH]; intros fuel idx written out Hn Hl Hw Hf.
  all: destruct fuel as [|fuel]; [exfalso; pose proof (Z.div_pos (count - written) 24); lia|]; cbn [dents_loop].
  - destruct Hl as (_ & _ & Hr). specialize (Hr 0%nat ltac:(cbn; lia)). rewrite Z.add_0_r in Hr. rewrite Hr. cbn [lookup list_lookup fitting].
    rewrite bool_decide_eq_false_2 by naive_solver. cbn [total foldr length records]. by rewrite !Z.add_0_r, app_nil_r.
  - destruct (lists_tail _ _ _ Hl) as [Hr Hl']. pose proof (proj1 Hl). pose proof (proj1 (proj2 Hl)) as Hb. cbn [length] in Hb. rewrite Hr.
    apply Forall_cons in Hn as [He Hn]. pose proof (reclen_bounds _ He) as Hrl. set (rl := reclen (Vfs.e_name e)) in *.
    rewrite (u64_small (written + rl)) by lia. cbn [fitting]. fold rl.
    destruct (Z.ltb_spec count (written + rl)) as [Hover|Hfit].
    + rewrite (proj2 (Z.leb_gt _ _)) by lia. destruct (Z.eqb_spec written 0) as [->|Hne].
      * rewrite bool_decide_eq_true_2 by done. done.
      * rewrite bool_decide_eq_false_2 by tauto. cbn [total foldr length records]. by rewrite !Z.add_0_r, app_nil_r.
    + rewrite (proj2 (Z.leb_le _ _)) by lia. rewrite (proj2 (Z.ltb_ge 280 rl)) by lia.
      rewrite !u64_small by lia. rewrite IH by (done || lia || (Z.to_euclidean_division_equations; lia)).
      rewrite !bool_decide_eq_false_2 by (intros (? & ? & ?); (done || lia)).
      replace (count - (written + rl)) with (count - written - rl) by lia. cbn [total foldr length records]. fold rl.
      rewrite <- app_assoc. cbn [app]. fold (total (fitting (count - written - rl) es)). f_equal; [f_equal; f_equal; lia|].
      do 3 f_equal. lia.
Qed.

End dents.

(** A reader of linux_dirent64 records: the offset of the next entry, the type and the name. *)
Fixpoint parse_dirents (fuel : nat) (bs : list Z) : list (Z * Z * list Z) :=
  match fuel with
  | O => []
  | S fuel =>
      (of_le (slice 8 8 bs), bs !!! 18%nat, c_string (drop 19 bs)) ::
      parse_dirents fuel (drop (Z.to_nat (of_le (slice 16 2 bs))) bs)
  end.

Lemma c_string_zero (n rest : list Z) : Forall (fun b => b ≠ 0) n → c_string (n ++ 0 :: rest) = n.
Proof. induction 1 as [|b n Hb _ IH]; [done|]. cbn. by rewrite (proj2 (Z.eqb_neq _ _) Hb), IH. Qed.

Lemma le8 (x : Z) : length (le_bytes 8 x) = 8%nat.
Proof. apply (le_bytes_length 8). Qed.
Lemma le2 (x : Z) : length (le_bytes 2 x) = 2%nat.
Proof. apply (le_bytes_length 2). Qed.

Lemma dirent64_length (idx : Z) (e : Vfs.VfsDirEntry) : (length (Vfs.e_name e) <= 255)%nat →
  length (dirent64 idx e) = Z.to_nat (reclen (Vfs.e_name e)).
Proof.
  intros He. pose proof (reclen_bounds _ He). unfold dirent64.
  rewrite !length_app, !le8, le2, length_replicate. cbn [length]. lia.
Qed.

Lemma parse_record (fuel : nat) (idx : Z) (e : Vfs.VfsDirEntry) (rest : list Z) :
  (length (Vfs.e_name e) <= 255)%nat → Forall (fun b => b ≠ 0) (Vfs.e_name e) → 0 <= idx < 2 ^ 63 →
  parse_dirents (S fuel) (dirent64 idx e ++ rest) =
    (idx + 1, dirent_type (Vfs.e_type e), Vfs.e_name e) :: parse_dirents fuel rest.
Proof.
  intros He H0 Hi. pose proof (reclen_bounds _ He) as Hrl. cbn [parse_dirents].
  assert (of_le (slice 16 2 (dirent64 idx e ++ rest)) = reclen (Vfs.e_name e)) as ->.
  { unfold dirent64. rewrite <- !app_assoc. unfold slice.
    rewrite app_assoc, drop_app_length' by (by rewrite length_app, !le8).
    rewrite take_app_length' by (by rewrite le2). rewrite of_le_bytes by lia. apply wrap_small. lia. }
  rewrite <- (dirent64_length idx), drop_app_length by done. f_equal. unfold dirent64. rewrite <- !app_assoc. f_equal; [f_equal|].
  - unfold slice. rewrite drop_app_length' by (by rewrite le8). rewrite take_app_length' by (by rewrite le8).
    rewrite of_le_bytes, (u64_small (idx + 1)) by lia. apply wrap_small. lia.
  - rewrite !app_assoc, <- app_assoc, <- (app_assoc _ (Vfs.e_name e)), drop_app_length' by (by rewrite !length_app, !le8, le2).
    destruct (Z.to_nat (reclen (Vfs.e_name e)) - 19 - length (Vfs.e_name e))%nat as [|k] eqn:Hk; [lia|].
    cbn [replicate app]. by apply c_string_zero.
Qed.

Definition contents (idx : Z) (es : list Vfs.VfsDirEntry) : list (Z * Z * list Z) :=
  imap (fun i e => (idx + Z.of_nat i + 1, dirent_type (Vfs.e_type e), Vfs.e_name e)) es.

Lemma parse_records (es : list Vfs.VfsDirEntry) : ∀ idx addr,
  names_ok es → Forall (fun e => Forall (fun b => b ≠ 0) (Vfs.e_name e)) es → 0 <= idx → idx + Z.of_nat (length es) < 2 ^ 63 →
  parse_dirents (length es) (mjoin (snd <$> records dirent64 idx addr es)) = contents idx es.
Proof.
  induction es as [|e es IH]; intros idx addr Hn H0 Hi Hl; [done|].
  apply Forall_cons in Hn as [He Hn]. apply Forall_cons in H0 as [He0 H0]. cbn [length] in Hl.
  change (mjoin _) with (dirent64 idx e ++ mjoin (snd <$> records dirent64 (idx + 1) (addr + reclen (Vfs.e_name e)) es)).
  cbn [length]. rewrite parse_record by (done || lia). rewrite IH by (done || lia).
  unfold contents. rewrite imap_cons. f_equal; [do 2 f_equal; lia|].
  apply imap_ext. intros i x _. cbn. do 2 f_equal. lia.
Qed.

Lemma fitting_prefix (es : list Vfs.VfsDirEntry) : ∀ room, ∃ rest, es = fitting room es ++ rest ∧
  ∀ e, head rest = Some e → room - total (fitting room es) < reclen (Vfs.e_name e).
Proof.
  induction es as [|e es IH]; intros room; cbn; [by exists []|].
  destruct (Z.leb_spec (reclen (Vfs.e_name e)) room) as [Hle|Hgt].
  - destruct (IH (room - reclen (Vfs.e_name e))) as (rest & Heq & Hr). exists rest. split; [cbn; by rewrite <- Heq|].
    intros x Hx. specialize (Hr x Hx). cbn. fold (total (fitting (room - reclen (Vfs.e_name e)) es)). lia.
  - exists (e :: es). split; [done|]. intros x [= <-]. cbn. lia.
Qed.

Section listing.
Context {F : Type} `{Vfs.FileSystem F} {D : Type}.
Abbreviation World := (@World F D).

(** C29: one getdents64 call on a directory that holds the entries [es] from the
    descriptor's position on writes the records of the longest prefix of [es] that fits in
    the buffer, one after the other from the buffer's start, and returns their total size;
    reading the buffer back record by record gives exactly these entries with their types and
    with the position of the entry after each; the descriptor moves behind the last one, so
    the next call continues there. When there are entries and not even the first one fits, the
    call returns EINVAL and nothing changes. *)
Theorem getdents64_reads_directory (w : World) (t : nat) (fds : Fds) (fd dirp count : Z) (desc : FileDescriptor) (v : nat)
    (es : list Vfs.VfsDirEntry) :
  table (kern w) t = Ret fds → get fds (Z.to_nat fd) = Some desc → fd_type desc = VfsFile v →
  0 < dirp → 0 < count → dirp + count < 2 ^ 63 →
  names_ok es → Forall (fun e => Forall (fun b => b ≠ 0) (Vfs.e_name e)) es → lists (vfs (kern w)) v (pos desc) es →
  let m := fitting count es in
  let out := records dirent64 (pos desc) dirp m in
  (m = [] ∧ es ≠ [] ∧ linux_getdents64 w t fd dirp count = Ret (ret ERR_INVAL, w)) ∨
  ((m ≠ [] ∨ es = []) ∧
   (∃ rest, es = m ++ rest ∧ ∀ e, head rest = Some e → count - total m < reclen (Vfs.e_name e)) ∧
   parse_dirents (length m) (mjoin (snd <$> out)) = contents (pos desc) m ∧
   ∃ w' fds', linux_getdents64 w t fd dirp count = Ret (Returned (total m) out [], w') ∧
     w' = set_kern w (set_table (kern w) t fds') ∧
     get fds' (Z.to_nat fd) = Some (FdTable.set_pos desc (pos desc + Z.of_nat (length m)))).
Proof.
  intros Ht Hg Hty Hd Hc H64 Hn H0 Hl m out. unfold linux_getdents64, getdents.
  rewrite (proj2 (Z.eqb_neq dirp 0)), (proj2 (Z.eqb_neq count 0)) by lia. cbn [orb]. rewrite Ht. cbn [exec_bind]. rewrite Hg, Hty.
  rewrite (dents_loop_ok dirent64 (vfs (kern w)) v dirp count) with (es := es)
    by (done || lia || (Z.to_euclidean_division_equations; lia)).
  rewrite Z.sub_0_r, Z.add_0_r. fold m. cbn [app].
  destruct (fitting_prefix es count) as (rest & Hes & Hrest). fold m in Hes, Hrest.
  pose proof (fitting_total es count Hn ltac:(lia)) as [Htot Hlen]. fold m in Htot, Hlen.
  case_bool_decide as Hm; [left; by destruct Hm as (? & ? & _)|].
  right. split; [destruct (decide (m = [])), (decide (es = [])); tauto|]. split; [by exists rest|]. split.
  { destruct Hl as (? & Hl & _). rewrite Hes in Hn, H0, Hl. unfold names_ok in Hn. apply Forall_app in Hn as [Hn _]. apply Forall_app in H0 as [H0 _].
    rewrite length_app in Hl. apply parse_records; (done || lia). }
  eexists _, _. split; [done|]. split; [done|]. rewrite Z.add_0_l. destruct (Z.eqb_spec (total m) 0) as [Hz|Hz].
  - rewrite Hg. replace (length m) with 0%nat by lia. rewrite Z.add_0_r. by destruct desc.
  - by apply (get_mut_get fds _ desc (fun d => FdTable.set_pos d (pos desc + Z.of_nat (length m)))).
Qed.

End listing.

(** ** Paths *)

Section paths.
Context {F : Type} `{Vfs.FileSystem F} {D : Type} (B : FlatFs.Backend D) (metadata_of : D → Z → option bool).
Abbreviation World := (@World F D).

Lemma starts_with_app (p s : str) : starts_with p (p ++ s) = true.
Proof. apply bool_decide_eq_true_2. by apply prefix_app_r. Qed.

Lemma starts_with_cons (c d : Z) (p s : str) : starts_with (c :: p) (d :: s) = true → c = d ∧ starts_with p s = true.
Proof.
  unfold starts_with. rewrite !bool_decide_eq_true. intros Hp. split; [by apply prefix_cons_inv_1 in Hp|].
  by apply prefix_cons_inv_2 in Hp.
Qed.

(** A pseudo path is absolute and has a letter after the slash. *)
Lemma pseudo_form (n : str) : is_pseudo_path n = true → ∃ c s, n = SLASH :: c :: s ∧ c ≠ SLASH.
Proof.
  unfold is_pseudo_path. rewrite !orb_true_iff. intros Hp. destruct n as [|d [|c s]].
  - by destruct Hp as [[[[[?|?]|?]|?]|?]|?].
  - destruct Hp as [[[[[Hp|Hp]|Hp]|Hp]|Hp]|Hp]; by apply starts_with_cons in Hp as [_ ?].
  - exists c, s. destruct Hp as [[[[[Hp|Hp]|Hp]|Hp]|Hp]|Hp]; apply starts_with_cons in Hp as [<- Hp];
      by apply starts_with_cons in Hp as [<- _].
Qed.

Lemma not_pseudo (c : Z) (s : str) : c ≠ SLASH → is_pseudo_path (c :: s) = false.
Proof. intros Hc. destruct (is_pseudo_path (c :: s)) eqn:E; [|done]. by apply pseudo_form in E as (? & ? & [= ->] & _). Qed.

Lemma not_urandom (c : Z) (s : str) : c ≠ SLASH → is_urandom (SLASH :: c :: s) = false → is_urandom (c :: s) = false.
Proof.
  intros Hc. unfold is_urandom. rewrite !orb_false_iff, !bool_decide_eq_false.
  intros [[[Hu Hr] _] _]. repeat split; intros Heq; injection Heq; intros; subst; done.
Qed.

Lemma count_user_string_le (um : Z → Z) (p : Z) : 0 <= count_user_string um p <= 256.
Proof.
  unfold count_user_string. case_match; [lia|].
  assert (∀ bs, (length (c_string bs) <= length bs)%nat) as Hc.
  { induction bs as [|b bs IH]; cbn; [lia|]. case_match; cbn; lia. }
  specialize (Hc (user_read_bytes um p 256)). unfold user_read_bytes in *. rewrite user_bytes_length in Hc. lia.
Qed.

(** The stand-in files for paths under /proc, /sys, /dev, /run, /etc and /tmp. For such a
    path that the VFS does not have, openat makes an empty in-memory file in the
    first free descriptor, but open looks at the path after its leading slash was
    removed, never recognises it and fails with ENOENT, and so does stat. *)
Theorem pseudo_paths_only_through_openat (um : Z → Z) (w : World) (t : nat) (path flags flags' statbuf : Z) (n : str)
    (fds : Fds) (e1 e2 e3 : Vfs.VfsError) (v1 v2 : Vfs.VfsState F) :
  read_user_path um path (count_user_string um path) = Some n → is_pseudo_path n = true → is_urandom n = false →
  Vfs.open (vfs (kern w)) (resolve_path (genv w) n) (open_flags true (u32 flags)) = Ret (Err e1, v1) →
  FlatFs.read (FlatFs.FS (files w)) (resolve_path (genv w) n) = None →
  Vfs.walk_path_resolved (vfs (kern w)) (resolve_path (genv w) n) = Err e3 →
  Vfs.open (vfs (kern w)) n (openat_flags flags') = Ret (Err e2, v2) →
  table (kern w) t = Ret fds → Exists (fun s => is_free s = true) fds → statbuf ≠ 0 →
  (∃ w1, linux_open um w t path flags = Ret (ERR_NOENT, w1)) ∧
  linux_stat um w path statbuf = ret ERR_NOENT ∧
  (∃ w2 fds2 k d, linux_openat um w t path flags' = Ret (Z.of_nat k, w2) ∧ table (kern w2) t = Ret fds2 ∧
     get fds2 k = Some d ∧ fd_type d = FakeFile [] ∧ name d = n).
Proof.
  intros Hpath Hps Hur Ho1 Hflat Hwalk Ho2 Ht Hfree Hst.
  destruct (pseudo_form n Hps) as (c & s & -> & Hc). assert (resolve_path (genv w) (SLASH :: c :: s) = c :: s) as Hres by done.
  rewrite Hres in Ho1, Hflat, Hwalk. pose proof (count_user_string_le um path) as Hle.
  pose proof Hpath as Hnz. unfold read_user_path in Hnz.
  destruct ((path =? 0) || (count_user_string um path =? 0)) eqn:Hz; [done|]. clear Hnz.
  pose proof Hz as [_ Hz0]%orb_false_iff. split; [|split].
  - unfold linux_open. rewrite Hz0. unfold sys_open. rewrite Hz, (proj2 (Z.ltb_ge _ _)) by lia. cbn [orb].
    rewrite Hpath, Hres, bool_decide_eq_false_2, Ho1 by done. cbn [exec_bind].
    rewrite not_pseudo, not_urandom by done. cbn [files set_kern negb andb]. rewrite Hflat. by eexists.
  - unfold linux_stat. rewrite (proj2 (Z.eqb_neq _ _)) by done. by rewrite Hpath, Hres, Hwalk, not_pseudo.
  - unfold linux_openat. rewrite Hpath. cbv zeta. rewrite Ho2. cbn [exec_bind]. rewrite Hur, Hps. cbn [orb]. unfold alloc_in.
    assert (table (kern (set_kern w (set_vfs (kern w) v2))) t = Ret fds) as Ht' by done.
    rewrite Ht'. cbn [exec_bind]. unfold alloc_fake_fd.
    match goal with |- context [fill_free 0 fds ?mk] =>
      destruct (fill_free_spec mk fds 0) as [[Hall _]|(k & Hk & _ & _ & ->)] end.
    + exfalso. apply Exists_exists in Hfree as (x & Hin & Hx). eapply Forall_forall in Hall; [|done]. congruence.
    + eexists _, _, k, _. split; [done|]. cbn [kern set_kern]. rewrite (table_set _ _ fds) by done. split; [done|].
      unfold get. by rewrite list_lookup_insert_eq.
Qed.

Lemma trim_start_suffix (s : str) : ∃ a, s = a ++ trim_start s.
Proof.
  induction s as [|c s [a Ha]]; [by exists []|]. cbn. case_match; [|by exists []]. exists (c :: a). cbn. by rewrite <- Ha.
Qed.

Lemma trim_end_head (c : Z) (s : str) : trim_end (c :: s) = [] ∨ ∃ s', trim_end (c :: s) = c :: s'.
Proof.
  unfold trim_end. destruct (trim_start_suffix (reverse (c :: s))) as [a Ha].
  apply (f_equal reverse) in Ha. rewrite reverse_app, reverse_involutive in Ha.
  destruct (reverse (trim_start (reverse (c :: s)))) as [|d s']; [by left|]. right. exists s'. by injection Ha as <- _.
Qed.

(** Chdir. After a successful one, getcwd of syscall/linux.rs returns the absolute path it was
    called with, however it was given, a relative path is looked up below that directory
    and an absolute one as before; the getcwd the dispatcher calls returns the root in every case. *)
Theorem chdir_moves_relative_paths (um : Z → Z) (w w' : World) (path path_len : Z) (n : str) :
  read_user_path um path path_len = Some n → sys_chdir B metadata_of um w path path_len = (ERR_OK, w') →
  let dir := SLASH :: resolve_path (genv w) n in
  (∀ buf size, 0 < buf → Z.of_nat (length dir) < size →
     sys_getcwd w' buf size =
       Returned (Z.of_nat (length dir)) [(buf, dir); (buf +! Z.of_nat (length dir), [0])] [] ∧
     linux_getcwd buf size = Returned 1 [(buf, [SLASH; 0])] []) ∧
  (∀ p, p ≠ [] → head p ≠ Some SLASH → SLASH :: resolve_path (genv w') p = trim_end dir ++ [SLASH] ++ p) ∧
  (∀ p, resolve_path (genv w') (SLASH :: p) = p).
Proof.
  intros Hpath. unfold sys_chdir. rewrite Hpath. destruct n as [|c n]; [done|].
  cbv zeta. match goal with |- (if ?b then _ else _) = _ → _ => destruct b; [|done] end. intros [= <-]. set (dir := SLASH :: _).
  assert (Env.get (genv (set_genv w (Env.set (genv w) (bytes "CWD") dir))) (bytes "CWD") = Some dir) as Hget.
  { cbn [genv set_genv]. by rewrite Env.get_set, decide_True. }
  fold dir. split; [|split].
  - intros buf size Hb Hs. unfold sys_getcwd, linux_getcwd. rewrite Hget. assert (1 <= length dir)%nat by (cbn; lia).
    rewrite (proj2 (Z.eqb_neq buf 0)), (proj2 (Z.eqb_neq size 0)) by lia. cbn [orb]. rewrite (proj2 (Z.leb_gt _ _)) by lia.
    split; [done|]. by rewrite Z.min_l by lia.
  - intros [|d p] Hp Hh; [done|]. unfold resolve_path. rewrite (proj2 (Z.eqb_neq d SLASH)) by (intros ->; done).
    unfold cwd. rewrite Hget. cbn [default from_option id].
    destruct (trim_end_head SLASH (resolve_path (genv w) (c :: n))) as [E|[s' E]]; fold dir in E; by rewrite E.
  - done.
Qed.

End paths.

(** ** A machine with a RAM disk *)

(** A mounted RAM disk with the files a ("hello") and etc/b, one process and no disk. *)
Definition demo_vfs : Vfs.VfsState RamFs.RamFileSystem :=
  snd (Vfs.mount Vfs.new_internal [SLASH]
    (snd (RamFs.create_path (snd (RamFs.create_path RamFs.new (bytes "/a") (bytes "hello"))) (bytes "/etc/b") [1]))).

Definition demo : @World RamFs.RamFileSystem (str * list Z) :=
  mkWorld (kernel_init demo_vfs) (FlatFs.mkFiles ([], []) false FlatFs.new) (Env.init []) None Tty.init_state 1 [].

(** User memory with the text [s] at address 4096. *)
Definition text_at (s : str) (a : Z) : Z := (s ++ [0]) !!! Z.to_nat (a - 4096).

Definition nothing : FlatFs.Backend (str * list Z) := FlatFs.one_file false.

(** The descriptor 3 of the first process after an open. *)
Definition demo_open (s : str) (flags : Z) : @World RamFs.RamFileSystem (str * list Z) :=
  run (sys_open true (text_at s) demo 0 4096 (Z.of_nat (length s)) flags) snd demo.

(** And after openat, which does not read its path relative to the working directory. *)
Definition demo_openat (s : str) (flags : Z) : @World RamFs.RamFileSystem (str * list Z) :=
  run (linux_openat (text_at s) demo 0 4096 flags) snd demo.

Definition demo_table (w : @World RamFs.RamFileSystem (str * list Z)) : Fds := run (table (kern w) 0) id [].

Definition fd3 (w : @World RamFs.RamFileSystem (str * list Z)) : FileDescriptor :=
  default (mkFd [] 0 0 false File None 0) (get (demo_table w) 3).

Lemma open_ignores_access_mode_witness :
  let w2 := demo_open (bytes "/a") 2 in
  let w1 := demo_open (bytes "/a") 0x400 in
  sys_write nothing (text_at []) [] 0 w2 0 3 8192 1 = Ret (ret ERR_IO, w2) ∧
  (∃ w, sys_write nothing (text_at []) [] 0 w1 0 3 8192 1 = Ret (ret 1, w)) ∧
  (∃ w, sys_read nothing [] [] 0 w1 0 3 8192 10 = Ret (Returned 5 [(8192, bytes "hello")] [], w)).
Proof.
  intros w2 w1.
  destruct (open_ignores_access_mode nothing true (text_at (bytes "/a")) demo w2 0 4096 2 2 3 (bytes "/a") 0 (vfs (kern w2))
    ltac:(vm_compute; reflexivity) ltac:(done) ltac:(lia) ltac:(done) ltac:(vm_compute; reflexivity)
    ltac:(vm_compute; reflexivity) ltac:(vm_compute; split; done) (text_at []) [] [] 0%nat 8192 1 eq_refl) as (Hro & _ & _).
  pose proof (open_ignores_access_mode nothing true (text_at (bytes "/a")) demo w1 0 4096 2 0x400 3 (bytes "/a") 0 (vfs (kern w1))
    ltac:(vm_compute; reflexivity) ltac:(done) ltac:(lia) ltac:(done) ltac:(vm_compute; reflexivity)
    ltac:(vm_compute; reflexivity) ltac:(vm_compute; split; done) (text_at []) [] [] 0%nat 8192) as Happ.
  split; [by apply Hro|]. split.
  - eapply (proj1 (proj2 (Happ 1 eq_refl))); [done|vm_compute; reflexivity..].
  - change 5 with (Z.of_nat (length (bytes "hello"))). eapply (proj2 (proj2 (Happ 10 eq_refl))); vm_compute; reflexivity.
Defined.

Lemma lseek_moves_only_memory_files_witness :
  let w := demo_open (bytes "/a") 0 in
  let w' := run (linux_lseek w 0 3 2 0) snd w in
  run (sys_read nothing [] [] 0 w 0 3 8192 10) fst Blocked = Returned 5 [(8192, bytes "hello")] [] ∧
  ∃ w2, sys_read nothing [] [] 0 w' 0 3 8192 10 = Ret (Returned 5 [(8192, bytes "hello")] [], w2) ∧
    vfs (kern w2) = vfs (kern (run (sys_read nothing [] [] 0 w 0 3 8192 10) snd w)).
Proof.
  intros w w'. split; [vm_compute; reflexivity|].
  destruct (lseek_moves_only_memory_files nothing w w' 0 3 2 0 2 (demo_table w) (fd3 w) ltac:(vm_compute; reflexivity)
    ltac:(lia) ltac:(vm_compute; reflexivity) ltac:(vm_compute; reflexivity) ltac:(vm_compute; split; done)
    [] [] 0%nat 8192 10 eq_refl ltac:(lia)) as [Hv _].
  apply (Hv 0%nat); vm_compute; reflexivity.
Defined.

Lemma getdents64_reads_directory_witness :
  let w := demo_openat (bytes "/") 0 in
  ∃ w' out, linux_getdents64 w 0 3 8192 40 = Ret (Returned 24 out [], w') ∧
    parse_dirents 1 (mjoin (snd <$> out)) = [(1, 8, bytes "a")] ∧
    ∃ fds, table (kern w') 0 = Ret fds ∧ pos <$> get fds 3 = Some 1.
Proof.
  intros w.
  set (es := [Vfs.mkDirEntry (bytes "a") Vfs.File 5; Vfs.mkDirEntry (bytes "etc") Vfs.Directory 0]).
  destruct (getdents64_reads_directory w 0 (demo_table w) 3 8192 40 (fd3 w) 0%nat es)
    as [(Hf & _)|(_ & _ & Hp & w' & fds' & Hc & -> & Hpos)]; try (vm_compute; reflexivity); try lia.
  - repeat constructor; cbn; lia.
  - repeat constructor; done.
  - split; [vm_compute; done|]. split; [vm_compute; reflexivity|].
    intros [|[|[|i]]] Hi; [vm_compute; reflexivity..|]. cbn in Hi. lia.
  - done.
  - eexists _, _. split; [exact Hc|]. split; [exact Hp|]. exists fds'. split; [by apply table_set with (demo_table w)|].
    change (Z.to_nat 3) with 3%nat in Hpos. by rewrite Hpos.
Defined.

Lemma pseudo_paths_only_through_openat_witness :
  (∃ w, linux_open (text_at (bytes "/etc/x")) demo 0 4096 0 = Ret (ERR_NOENT, w)) ∧
  linux_stat (text_at (bytes "/etc/x")) demo 4096 8192 = ret ERR_NOENT ∧
  ∃ w fds k d, linux_openat (text_at (bytes "/etc/x")) demo 0 4096 0 = Ret (Z.of_nat k, w) ∧ table (kern w) 0 = Ret fds ∧
    get fds k = Some d ∧ fd_type d = FakeFile [] ∧ name d = bytes "/etc/x".
Proof.
  eapply (pseudo_paths_only_through_openat (text_at (bytes "/etc/x")) demo 0 4096 0 0 8192 (bytes "/etc/x") (demo_table demo));
    try (vm_compute; reflexivity).
  - vm_compute. do 3 right. left. done.
  - done.
Defined.

Lemma chdir_moves_relative_paths_witness :
  let w := snd (sys_chdir nothing (fun _ _ => None) (text_at (bytes "/etc/")) demo 4096 5) in
  SLASH :: resolve_path (genv w) (bytes "b") = bytes "/etc/b" ∧ ∃ st, sys_getcwd w 8192 64 = Returned 5 st [].
Proof.
  intros w. destruct (chdir_moves_relative_paths nothing (fun _ _ => None) (text_at (bytes "/etc/")) demo w 4096 5 (bytes "/etc/"))
    as (Hcwd & Hrel & _); [vm_compute; reflexivity..|]. split.
  - rewrite (Hrel (bytes "b") ltac:(done) ltac:(done)). vm_compute. reflexivity.
  - eexists. exact (proj1 (Hcwd 8192 64 ltac:(lia) ltac:(vm_compute; reflexivity))).
Defined.

End FileSys.
