(* ===== verification/LinuxSys.v ===== *)
(** LinuxSys: the Linux compatibility calls of kernel/src/syscall/mod.rs and
    syscall/linux.rs that do not touch files, and the two entries of the system calls.

    [Misc] has the signal state, clocks, sleeping, random bytes and the system
    information. A call returns its value and its stores to user memory; [uptime] is
    what [uptime_ms] returns. [Entry] has the dispatchers: a match arm is a list
    of names, a name that is a constant in scope matches its number and any
    other name matches everything, as a pattern of the language does. The result says
    which function is called with which arguments. *)

From stdpp Require Import base numbers list strings.
From Stdlib Require Import ZArith Lia.
From S2P Require Import Prelude Ring Pipe Tty Vfs RamFs FlatFs FileLock FdTable BTree Epoll FdSys KLog Wire Fabric FileSys.
Local Open Scope Z_scope.
Local Open Scope rust_scope.

Module Misc.
Import Path.

Abbreviation stores := (list (Z * list Z)).

Definition FAKE_EPOCH : Z := 1749427200.

(** ** Signals *)

Record SignalState := mkSignal {
  handlers : list Z;
  mask : Z;
  altstack_sp : Z;
  altstack_size : Z;
  altstack_flags : Z
}.

Definition SIGNAL_STATE : SignalState := mkSignal (replicate 64 0) 0 0 0 0.

(** User memory after a store: a pointer given twice reads what the call itself wrote. *)
Definition stored (um : Z → Z) (st : Z * list Z) (a : Z) : Z :=
  let i := u64 (a - st.1) in if i <? Z.of_nat (length st.2) then st.2 !!! Z.to_nat i else um a.

Definition all_stored (um : Z → Z) (sts : stores) : Z → Z := foldl stored um sts.

Section user.
Context (um : Z → Z).
Abbreviation user_read := (FileSys.user_read_usize um).
Abbreviation user_read_after out := (FileSys.user_read_usize (all_stored um out)).

Definition linux_rt_sigaction (s : SignalState) (sig act_ptr oldact_ptr : Z) : Z * stores * SignalState :=
  if (sig =? 0) || (64 <? sig) then (-22, [], s)
  else
    let i := Z.to_nat (sig - 1) in
    let out :=
      if oldact_ptr =? 0 then []
      else [(oldact_ptr, le_bytes 8 (handlers s !!! i)); (oldact_ptr +! 8, le_bytes 8 0);
            (oldact_ptr +! 16, le_bytes 8 0); (oldact_ptr +! 24, le_bytes 8 0)] in
    let s :=
      if act_ptr =? 0 then s
      else mkSignal (<[i := user_read_after out act_ptr]> (handlers s)) (mask s) (altstack_sp s) (altstack_size s) (altstack_flags s) in
    (0, out, s).

Definition set_mask (s : SignalState) (m : Z) : SignalState :=
  mkSignal (handlers s) m (altstack_sp s) (altstack_size s) (altstack_flags s).

Definition linux_rt_sigprocmask (s : SignalState) (how set_ptr oldset_ptr : Z) : Z * stores * SignalState :=
  let out := if negb (oldset_ptr =? 0) && negb (how =? 3) then [(oldset_ptr, le_bytes 8 (mask s))] else [] in
  if set_ptr =? 0 then (0, out, s)
  else
    let new_mask := user_read_after out set_ptr in
    if how =? 0 then (0, out, set_mask s (Z.lor (mask s) new_mask))
    else if how =? 1 then (0, out, set_mask s (Z.land (mask s) (not64 new_mask)))
    else if how =? 2 then (0, out, set_mask s new_mask)
    else (-22, out, s).

Definition linux_sigaltstack (s : SignalState) (ss_ptr oss_ptr : Z) : Z * stores * SignalState :=
  let out :=
    if oss_ptr =? 0 then []
    else [(oss_ptr, le_bytes 8 (altstack_sp s)); (oss_ptr +! 8, le_bytes 8 (altstack_flags s));
          (oss_ptr +! 16, le_bytes 8 (altstack_size s))] in
  let s :=
    if ss_ptr =? 0 then s
    else mkSignal (handlers s) (mask s) (user_read_after out ss_ptr) (user_read_after out (ss_ptr +! 16))
           (user_read_after out (ss_ptr +! 8)) in
  (0, out, s).

(** ** Time *)

Definition linux_gettimeofday (uptime tv : Z) : Z * stores :=
  let tv_sec := i64 (uptime / 1000 +! FAKE_EPOCH) in
  let tv_usec := i64 ((uptime mod 1000) *! 1000) in
  (0, if tv =? 0 then [] else [(tv, le_bytes 8 tv_sec); (tv +! 8, le_bytes 8 tv_usec)]).

Definition linux_time (uptime tloc : Z) : Z * stores :=
  let now := i64 (FAKE_EPOCH +! uptime / 1000) in
  (now, if tloc =? 0 then [] else [(tloc, le_bytes 8 now)]).

(** Seconds and nanoseconds of a clock. *)
Definition clock_value (clockid uptime : Z) : option (Z * Z) :=
  if (clockid =? 0) || (clockid =? 5) then
    Some (i64 (FAKE_EPOCH +! uptime / 1000), i64 ((uptime mod 1000) *! 1000000))
  else if (clockid =? 1) || (clockid =? 4) || (clockid =? 6) || (clockid =? 7) || (clockid =? 2) || (clockid =? 3) then
    let secs := i64 (uptime / 1000) in
    let nsecs := i64 ((uptime mod 1000) *! 1000000) in
    Some (secs, if (secs =? 0) && (nsecs =? 0) then 1 else nsecs)
  else None.

Definition linux_clock_gettime (uptime clockid tp : Z) : Z * stores :=
  if tp =? 0 then (0, [])
  else
    match clock_value clockid uptime with
    | None => (-22, [])
    | Some (secs, nsecs) => (0, [(tp, le_bytes 8 secs); (tp +! 8, le_bytes 8 nsecs)])
    end.

Definition saturating_mul (a b : Z) : Z := Z.min USIZE_MAX (a * b).

(** The value, and the tick given to [sleep_until] when it sleeps. *)
Definition linux_nanosleep (uptime req_ptr : Z) : Z * option Z :=
  if req_ptr =? 0 then (-14, None)
  else
    let sec := i64 (user_read req_ptr) in
    let nsec := i64 (user_read (req_ptr +! 8)) in
    if (sec <? 0) || (nsec <? 0) || (1000000000 <=? nsec) then (-22, None)
    else
      let ms := saturating_add (saturating_mul (u64 sec) 1000) ((u64 nsec +! 999999) / 1000000) in
      if ms =? 0 then (0, None) else (0, Some (saturating_add uptime ms)).

End user.

(** ** Random bytes *)

Definition PRNG_STATE : Z := 0x123456789ABCDEF0.

Definition lcg (s : Z) : Z := s *! 6364136223846793005 +! 1442695040888963407.

Fixpoint random_bytes (s i : Z) (n : nat) : list Z * Z :=
  match n with
  | O => ([], s)
  | S n =>
      let next := lcg s in
      let byte := u8 (Z.land (Z.shiftr next (i mod 8 * 8)) 0xFF) in
      let '(bs, s) := random_bytes next (i + 1) n in
      (byte :: bs, s)
  end.

(** The bytes go to [buf], [buf + 1], ... one at a time. *)
Definition linux_getrandom (s buf count : Z) : Z * stores * Z :=
  if (buf =? 0) || (count =? 0) then (FdSys.ERR_INVAL, [], s)
  else
    let '(bs, s) := random_bytes s 0 (Z.to_nat count) in
    (i64 count, imap (fun i b => (buf +! Z.of_nat i, [b])) bs, s).

(** ** System information *)

Definition uname_fields : list (list Z) :=
  [bytes "Linux" ++ [0]; bytes "karteos" ++ [0]; bytes "6.1.0" ++ [0]; bytes "#1 SMP KarteOS" ++ [0]; bytes "x86_64" ++ [0]; [0]].

(** [uts_buf[offset..offset + len].copy_from_slice(&field[..len]); offset += 65] *)
Fixpoint fill_fields (uts_buf : list Z) (offset : nat) (fields : list (list Z)) : exec (list Z) :=
  match fields with
  | [] => Ret uts_buf
  | field :: fields =>
      let len := (length field `min` 65)%nat in
      if (length uts_buf <? offset + len)%nat then Panic
      else fill_fields (firstn offset uts_buf ++ firstn len field ++ skipn (offset + len) uts_buf) (offset + 65) fields
  end.

Definition linux_uname (buf : Z) : exec (Z * stores) :=
  if buf =? 0 then Ret (-14, [])
  else
    let! uts_buf := fill_fields (replicate 390 0) 0 uname_fields in
    Ret (0, [(buf, uts_buf)]).

(** The one of syscall/linux.rs: one store of 65 bytes per field. *)
Definition sys_uname (buf : Z) : Z * stores :=
  if buf =? 0 then (FdSys.ERR_INVAL, [])
  else (0, imap (fun i field => let len := (length field `min` 65)%nat in
                   (buf +! Z.of_nat (i * 65), firstn len field ++ replicate (65 - len) 0)) uname_fields).

Definition linux_sysinfo (info : Z) : Z * stores :=
  (0, if info =? 0 then []
      else [(info, replicate 112 0); (info +! 32, le_bytes 8 (512 * 1024 / 4)); (info +! 40, le_bytes 8 (256 * 1024 / 4));
            (info +! 80, le_bytes 2 1); (info +! 104, le_bytes 4 4096)]).

Definition sys_sysinfo (info_ptr : Z) : Z * stores :=
  if info_ptr =? 0 then (FdSys.ERR_INVAL, [])
  else (0, [(info_ptr, replicate 112 0); (info_ptr +! 32, le_bytes 8 (512 * 1024 * 1024));
            (info_ptr +! 40, le_bytes 8 (256 * 1024 * 1024)); (info_ptr +! 104, le_bytes 4 1)]).

(** [fd as u64] extends the sign. *)
Definition sys_fstat (fd stat_ptr : Z) : Z * stores :=
  if stat_ptr =? 0 then (FdSys.ERR_INVAL, [])
  else (0, [(stat_ptr, replicate 144 0); (stat_ptr +! 8, le_bytes 8 (u64 fd +! 1)); (stat_ptr +! 16, le_bytes 8 1);
            (stat_ptr +! 24, le_bytes 4 0x81A4); (stat_ptr +! 56, le_bytes 8 4096)]).

Definition linux_sched_getaffinity (size mask : Z) : Z * stores :=
  if (mask =? 0) || (size <? 8) then (-22, []) else (8, [(mask, [1; 0; 0; 0; 0; 0; 0; 0])]).

(** The arm of [translate_x86_64]: [size] zero bytes, then the first one again. *)
Definition translate_getaffinity (size mask_ptr : Z) : Z * stores :=
  (i64 size,
   if negb (mask_ptr =? 0) && (0 <? size)
   then ((fun i => (mask_ptr +! Z.of_nat i, [0])) <$> seq 0 (Z.to_nat size)) ++ [(mask_ptr, [1])]
   else []).

(** ** Segment bases *)

(** The two model specific registers, the base saved with the task and the pending one. *)
Record Bases := mkBases { fs_msr : Z; gs_msr : Z; task_fs_base : Z; PENDING_FS_BASE : Z }.

Definition linux_arch_prctl (b : Bases) (code addr : Z) : Z * stores * Bases :=
  if code =? 0x1001 then (0, [], mkBases (fs_msr b) addr (task_fs_base b) (PENDING_FS_BASE b))
  else if code =? 0x1002 then (0, [], mkBases addr (gs_msr b) addr addr)
  else if code =? 0x1003 then if addr =? 0 then (-22, [], b) else (0, [(addr, le_bytes 8 (fs_msr b))], b)
  else if code =? 0x1004 then if addr =? 0 then (-22, [], b) else (0, [(addr, le_bytes 8 (gs_msr b))], b)
  else (-22, [], b).

(** ** Memory *)

Lemma user_bytes_ext (um um' : Z → Z) (p : Z) (n : nat) : ∀ i,
  (∀ k, i <= k < i + Z.of_nat n → um (p +! k) = um' (p +! k)) → FdTable.user_bytes um p i n = FdTable.user_bytes um' p i n.
Proof. induction n as [|n IH]; intros i Hk; [done|]. cbn. f_equal; [apply Hk; lia|]. apply IH. intros k ?. apply Hk. lia. Qed.

Lemma user_bytes_list (um : Z → Z) (p : Z) (bs : list Z) : ∀ i,
  (∀ k b, bs !! k = Some b → um (p +! (i + Z.of_nat k)) = b) → FdTable.user_bytes um p i (length bs) = bs.
Proof.
  induction bs as [|b bs IH]; intros i Hk; [done|]. cbn. f_equal.
  - specialize (Hk 0%nat b eq_refl). by rewrite Z.add_0_r in Hk.
  - apply IH. intros k c Hc. rewrite <- (Hk (S k) c Hc). do 2 f_equal. lia.
Qed.

Lemma u64_offset (p k : Z) : u64 (p +! k - p) = u64 k.
Proof. unfold u64, wrap. rewrite Zminus_mod_idemp_l. f_equal. lia. Qed.

Lemma stored_in (um : Z → Z) (p : Z) (bs : list Z) (k : nat) (b : Z) :
  Z.of_nat (length bs) <= 2 ^ 64 → bs !! k = Some b → stored um (p, bs) (p +! Z.of_nat k) = b.
Proof.
  intros Hl Hb. pose proof (lookup_lt_Some _ _ _ Hb). unfold stored. cbn [fst snd].
  rewrite u64_offset, u64_small, (proj2 (Z.ltb_lt _ _)), Nat2Z.id by lia. by apply list_lookup_total_correct.
Qed.

Lemma stored_out (um : Z → Z) (p : Z) (bs : list Z) (a : Z) :
  Z.of_nat (length bs) <= u64 (a - p) → stored um (p, bs) a = um a.
Proof. intros Ha. unfold stored. cbn [fst snd]. by rewrite (proj2 (Z.ltb_ge _ _)). Qed.

(** Two stores one after the other in memory are one. *)
Lemma stored_app (um : Z → Z) (p : Z) (xs ys : list Z) (a : Z) :
  Z.of_nat (length xs + length ys) <= 2 ^ 64 →
  stored (stored um (p, xs)) (p +! Z.of_nat (length xs), ys) a = stored um (p, xs ++ ys) a.
Proof.
  intros Hl. unfold stored. cbn [fst snd]. rewrite length_app.
  assert (u64 (a - (p +! Z.of_nat (length xs))) = u64 (u64 (a - p) - Z.of_nat (length xs))) as ->.
  { unfold u64, wrap. rewrite Zminus_mod_idemp_r, Zminus_mod_idemp_l. f_equal. lia. }
  set (i := u64 (a - p)). assert (is_u64 i) as Hi by apply u64_range. unfold is_u64 in Hi.
  destruct (Z.ltb_spec i (Z.of_nat (length xs))) as [Hx|Hx].
  - rewrite (proj2 (Z.ltb_lt i (Z.of_nat (length xs + length ys)))) by lia.
    assert (u64 (i - Z.of_nat (length xs)) = i - Z.of_nat (length xs) + 2 ^ 64) as ->.
    { unfold u64, wrap. symmetry. apply Z.mod_unique with (-1); lia. }
    rewrite (proj2 (Z.ltb_ge _ _)) by lia. rewrite !list_lookup_total_alt, lookup_app_l by lia. done.
  - rewrite u64_small by lia. destruct (Z.ltb_spec (i - Z.of_nat (length xs)) (Z.of_nat (length ys))) as [Hy|Hy].
    + rewrite (proj2 (Z.ltb_lt _ _)) by lia. rewrite !list_lookup_total_alt, lookup_app_r by lia. do 2 f_equal. lia.
    + by rewrite (proj2 (Z.ltb_ge _ _)) by lia.
Qed.

(** [user_read] of what was stored at the same place, and of memory the store did not touch. *)
Lemma read_same (um : Z → Z) (p x : Z) : is_u64 x → FileSys.user_read_usize (stored um (p, le_bytes 8 x)) p = x.
Proof.
  intros Hx. unfold FileSys.user_read_usize, FileSys.user_read_bytes.
  change 8%nat with (Z.to_nat 8). assert (Z.to_nat 8 = length (le_bytes 8 x)) as -> by (by rewrite (le_bytes_length 8)).
  rewrite user_bytes_list; [rewrite of_le_bytes by lia; by apply wrap_small|].
  intros k b Hb. rewrite Z.add_0_l. apply stored_in; [|done]. rewrite (le_bytes_length 8). lia.
Qed.

(** The eight bytes at [p] and the [n] bytes at [q] have no address in common. *)
Definition disjoint (p q n : Z) : Prop := ∀ k, 0 <= k < 8 → n <= u64 (p +! k - q).

Lemma read_disjoint (um : Z → Z) (p q : Z) (bs : list Z) : disjoint p q (Z.of_nat (length bs)) →
  FileSys.user_read_usize (stored um (q, bs)) p = FileSys.user_read_usize um p.
Proof.
  intros Hd. unfold FileSys.user_read_usize, FileSys.user_read_bytes. f_equal. apply user_bytes_ext.
  intros k Hk. apply stored_out, Hd. lia.
Qed.

(** ** Signals *)

(** The signal mask. rt_sigprocmask with a set that does not overlap the place for the
    old one adds, removes or replaces exactly the signals of the set, for how = 0, 1 and 2,
    and stores the old mask. When both pointers are the same, as in
    sigprocmask(SIG_SETMASK, &s, &s), the old mask is stored before the set is
    read: blocking and replacing change nothing and unblocking clears the whole
    mask. *)
Theorem sigprocmask_set_and_old (um : Z → Z) (s : SignalState) (how set old : Z) :
  is_u64 (mask s) → is_u64 (FileSys.user_read_usize um set) → set ≠ 0 → 0 <= how <= 2 →
  let '(r, out, s') := linux_rt_sigprocmask um s how set old in
  r = 0 ∧ (old ≠ 0 → out = [(old, le_bytes 8 (mask s))]) ∧ handlers s' = handlers s ∧
  (old = 0 ∨ disjoint set old 8 → ∀ i, 0 <= i < 64 →
     let b := Z.testbit (mask s) i in let n := Z.testbit (FileSys.user_read_usize um set) i in
     Z.testbit (mask s') i = (if how =? 0 then b || n else if how =? 1 then b && negb n else n)) ∧
  (old = set → mask s' = if how =? 1 then 0 else mask s).
Proof.
  intros Hm Hset Hs0 Hhow. unfold linux_rt_sigprocmask. rewrite (proj2 (Z.eqb_neq how 3)), (proj2 (Z.eqb_neq set 0)) by lia.
  rewrite andb_true_r.
  set (out := if negb (old =? 0) then _ else _).
  set (new := FileSys.user_read_usize (all_stored um out) set).
  assert (old = 0 ∨ disjoint set old 8 → new = FileSys.user_read_usize um set) as Hdis.
  { unfold new, out. intros [->|Hd]; [done|]. destruct (old =? 0); [done|]. apply read_disjoint. by rewrite (le_bytes_length 8). }
  assert (old = set → new = mask s) as Hsame.
  { unfold new, out. intros ->. rewrite (proj2 (Z.eqb_neq set 0)) by done. by apply read_same. }
  assert (old ≠ 0 → out = [(old, le_bytes 8 (mask s))]) as Hout.
  { unfold out. intros Ho. by rewrite (proj2 (Z.eqb_neq old 0)). }
  clearbody new out. assert (how = 0 ∨ how = 1 ∨ how = 2) as [->|[->| ->]] by lia; cbn.
  all: split; [done|]; split; [done|]; split; [done|]; split.
  - intros Hd i Hi. by rewrite (Hdis Hd), Z.lor_spec.
  - intros He. rewrite (Hsame He). apply Z.lor_diag.
  - intros Hd i Hi. rewrite (Hdis Hd), Z.land_spec. f_equal. unfold not64, u64, wrap.
    rewrite Z.mod_pow2_bits_low, Z.lnot_spec by lia. done.
  - intros He. rewrite (Hsame He). apply Z.bits_inj'. intros i Hi. rewrite Z.land_spec, Z.bits_0. unfold not64, u64, wrap.
    destruct (decide (i < 64)) as [Hl|Hg].
    + rewrite Z.mod_pow2_bits_low, Z.lnot_spec by lia. apply andb_negb_r.
    + rewrite Z.mod_pow2_bits_high by lia. apply andb_false_r.
  - intros Hd i Hi. by rewrite (Hdis Hd).
  - done.
Qed.

Lemma sigprocmask_set_and_old_witness :
  let um a := if a =? 4096 then 6 else 0 in
  let s := set_mask SIGNAL_STATE 3 in
  mask (linux_rt_sigprocmask um s 2 4096 8192).2 = 6 ∧ mask (linux_rt_sigprocmask um s 2 4096 4096).2 = 3 ∧
  mask (linux_rt_sigprocmask um s 1 4096 4096).2 = 0.
Proof.
  intros um s. split; [vm_compute; reflexivity|]. split.
  - pose proof (sigprocmask_set_and_old um s 2 4096 4096 ltac:(done) ltac:(done) ltac:(done) ltac:(lia)) as Hr.
    destruct (linux_rt_sigprocmask um s 2 4096 4096) as [[r out] s']. destruct Hr as (_ & _ & _ & _ & Hr). by apply Hr.
  - pose proof (sigprocmask_set_and_old um s 1 4096 4096 ltac:(done) ltac:(done) ltac:(done) ltac:(lia)) as Hr.
    destruct (linux_rt_sigprocmask um s 1 4096 4096) as [[r out] s']. destruct Hr as (_ & _ & _ & _ & Hr). by apply Hr.
Defined.

(** The handler table: a call with a new handler is seen by the next query of that signal and of no other. *)
Lemma sigaction_get_set (um um' : Z → Z) (s : SignalState) (sig sig' act old : Z) :
  length (handlers s) = 64%nat → 1 <= sig <= 64 → 1 <= sig' <= 64 → act ≠ 0 → old ≠ 0 →
  let '(r, _, s') := linux_rt_sigaction um s sig act 0 in
  r = 0 ∧ ∃ rest, linux_rt_sigaction um' s' sig' 0 old =
    (0, (old, le_bytes 8 (if sig' =? sig then FileSys.user_read_usize um act else handlers s !!! Z.to_nat (sig' - 1))) :: rest, s').
Proof.
  intros Hl Hs Hs' Ha Ho. unfold linux_rt_sigaction.
  rewrite (proj2 (Z.eqb_neq sig 0)), (proj2 (Z.ltb_ge 64 sig)), (proj2 (Z.eqb_neq act 0)) by lia. cbn [orb].
  split; [done|]. rewrite (proj2 (Z.eqb_neq sig' 0)), (proj2 (Z.ltb_ge 64 sig')), (proj2 (Z.eqb_neq old 0)) by lia.
  cbn [orb handlers]. eexists. do 4 f_equal. destruct (Z.eqb_spec sig' sig) as [->|Hne].
  - rewrite list_lookup_total_insert_eq by lia. done.
  - rewrite list_lookup_total_insert_ne by lia. done.
Qed.

(** ** Time *)

Definition ns (v : Z * Z) : Z := v.1 * 10 ^ 9 + v.2.

Lemma i64_small (x : Z) : 0 <= x < 2 ^ 63 → i64 x = x.
Proof. intros Hx. unfold i64, to_signed. rewrite wrap_small by lia. by rewrite (proj2 (Z.ltb_lt _ _)) by lia. Qed.

Lemma clock_realtime (c u : Z) : is_u64 u → c = 0 ∨ c = 5 →
  clock_value c u = Some (FAKE_EPOCH + u / 1000, u mod 1000 * 1000000).
Proof.
  unfold is_u64. intros Hu Hc. assert (0 <= u / 1000 < 2 ^ 55) by (Z.to_euclidean_division_equations; lia).
  pose proof (Z.mod_pos_bound u 1000). unfold clock_value, FAKE_EPOCH.
  destruct Hc as [-> | ->]; cbn [Z.eqb orb Pos.eqb]; rewrite !u64_small by lia; by rewrite !i64_small by lia.
Qed.

Lemma clock_monotonic (c u : Z) : is_u64 u → In c [1; 2; 3; 4; 6; 7] →
  clock_value c u = Some (u / 1000, if u =? 0 then 1 else u mod 1000 * 1000000).
Proof.
  unfold is_u64. intros Hu Hc. assert (0 <= u / 1000 < 2 ^ 55) by (Z.to_euclidean_division_equations; lia).
  pose proof (Z.mod_pos_bound u 1000).
  assert (clock_value c u = Some (i64 (u / 1000), if (i64 (u / 1000) =? 0) && (i64 (u mod 1000 *! 1000000) =? 0) then 1
                                                  else i64 (u mod 1000 *! 1000000))) as ->.
  { by repeat destruct Hc as [<-|Hc]. }
  rewrite u64_small, !i64_small by lia. do 2 f_equal.
  destruct (Z.eqb_spec u 0) as [->|Hu0]; [done|].
  destruct (Z.eqb_spec (u / 1000) 0), (Z.eqb_spec (u mod 1000 * 1000000) 0); try done.
  exfalso. Z.to_euclidean_division_equations; lia.
Qed.

(** The clocks. At every uptime each known clock has its nanoseconds below one second. The
    clocks that count from the start of the system never go backwards and are never zero,
    the others are the uptime after the fixed epoch, and gettimeofday and time
    agree with them; every other clock number is refused. *)
Theorem clocks_agree_and_never_go_back (u u' tp : Z) : 0 <= u <= u' → u' < 2 ^ 64 → tp ≠ 0 →
  (∀ c v, clock_value c u = Some v → 0 <= v.2 < 10 ^ 9 ∧
     linux_clock_gettime u c tp = (0, [(tp, le_bytes 8 v.1); (tp +! 8, le_bytes 8 v.2)])) ∧
  (∀ c v v', clock_value c u = Some v → clock_value c u' = Some v' → ns v <= ns v' ∧ 0 < ns v ∧
     (u + 1 <= u' → 0 < u → ns v < ns v')) ∧
  (∀ v, clock_value 0 u = Some v →
     linux_gettimeofday u tp = (0, [(tp, le_bytes 8 v.1); (tp +! 8, le_bytes 8 (v.2 / 1000))]) ∧
     linux_time u tp = (v.1, [(tp, le_bytes 8 v.1)])) ∧
  (∀ c, ¬ 0 <= c <= 7 → linux_clock_gettime u c tp = (-22, [])).
Proof.
  intros Hu Hu' Htp. assert (is_u64 u) as Hr by (unfold is_u64; lia). assert (is_u64 u') as Hr' by (unfold is_u64; lia).
  assert (∀ c v, clock_value c u = Some v → (c = 0 ∨ c = 5) ∨ In c [1; 2; 3; 4; 6; 7]) as Hknown.
  { intros c v Hc. unfold clock_value in Hc. cbn [In].
    destruct (Z.eqb_spec c 0), (Z.eqb_spec c 5), (Z.eqb_spec c 1), (Z.eqb_spec c 4), (Z.eqb_spec c 6), (Z.eqb_spec c 7),
      (Z.eqb_spec c 2), (Z.eqb_spec c 3); cbn [orb] in Hc; try lia; done. }
  pose proof (Z.mod_pos_bound u 1000). split; [|split; [|split]].
  - intros c v Hc. split.
    + destruct (Hknown c v Hc) as [Hk|Hk]; [rewrite clock_realtime in Hc by done|rewrite clock_monotonic in Hc by done];
        injection Hc as <-; cbn [snd]; [lia|]. destruct (u =? 0); lia.
    + unfold linux_clock_gettime. rewrite (proj2 (Z.eqb_neq tp 0)), Hc by done. by destruct v.
  - intros c v v' Hc Hc'. destruct (Hknown c v Hc) as [Hk|Hk].
    + rewrite clock_realtime in Hc, Hc' by done. injection Hc as <-. injection Hc' as <-. unfold ns, FAKE_EPOCH. cbn [fst snd].
      Z.to_euclidean_division_equations; lia.
    + rewrite clock_monotonic in Hc, Hc' by done. injection Hc as <-. injection Hc' as <-. unfold ns. cbn [fst snd].
      destruct (Z.eqb_spec u 0), (Z.eqb_spec u' 0); Z.to_euclidean_division_equations; lia.
  - intros v Hc. rewrite clock_realtime in Hc by auto. injection Hc as <-. cbn [fst snd].
    unfold linux_gettimeofday, linux_time. rewrite (proj2 (Z.eqb_neq tp 0)) by done.
    assert (0 <= u / 1000 < 2 ^ 55) by (Z.to_euclidean_division_equations; unfold is_u64 in Hr; lia). unfold FAKE_EPOCH.
    rewrite !(u64_small (u / 1000 + _)), !(u64_small (_ + u / 1000)), !(u64_small (u mod 1000 * _)), !i64_small by lia.
    replace (u mod 1000 * 1000000 / 1000) with (u mod 1000 * 1000) by (Z.to_euclidean_division_equations; lia).
    by rewrite (Z.add_comm (u / 1000)).
  - intros c Hc. unfold linux_clock_gettime. rewrite (proj2 (Z.eqb_neq tp 0)) by done.
    destruct (clock_value c u) as [v|] eqn:E; [|done]. exfalso. destruct (Hknown c v E) as [?|Hk]; [lia|]. cbn in Hk. lia.
Qed.

Lemma clocks_agree_and_never_go_back_witness :
  clock_value 1 0 = Some (0, 1) ∧ linux_clock_gettime 1500 1 4096 = (0, [(4096, le_bytes 8 1); (4104, le_bytes 8 500000000)]).
Proof.
  split; [reflexivity|].
  apply (proj1 (clocks_agree_and_never_go_back 1500 1500 4096 ltac:(lia) ltac:(lia) ltac:(lia)) 1 (1, 500000000)). reflexivity.
Defined.

(** Nanosleep. A request outside 0 <= seconds and 0 <= nanoseconds < 10^9 is refused. Any
    other one returns at once exactly when it is zero, and otherwise sleeps until a
    tick that is not earlier than the requested interval after now and less
    than one millisecond after it, unless that tick is past the end of the 64-bit
    clock, where it stops. *)
Theorem nanosleep_not_early (um : Z → Z) (uptime req : Z) : is_u64 uptime → req ≠ 0 →
  let sec := i64 (FileSys.user_read_usize um req) in
  let nsec := i64 (FileSys.user_read_usize um (req +! 8)) in
  let want := uptime * 10 ^ 6 + sec * 10 ^ 9 + nsec in
  let '(r, wake) := linux_nanosleep um uptime req in
  if (0 <=? sec) && (0 <=? nsec) && (nsec <? 10 ^ 9) then
    r = 0 ∧ (wake = None ↔ sec = 0 ∧ nsec = 0) ∧
    ∀ t, wake = Some t →
      (t = USIZE_MAX ∨ want <= t * 10 ^ 6 < want + 10 ^ 6) ∧ t <= USIZE_MAX
  else r = -22 ∧ wake = None.
Proof.
  intros Hu Hreq sec nsec want. unfold linux_nanosleep. rewrite (proj2 (Z.eqb_neq req 0)) by done. fold sec nsec.
  assert (sec < 2 ^ 63) as Hsec.
  { unfold sec, i64, to_signed. pose proof (wrap_range 64 (FileSys.user_read_usize um req)) as Hw. cbv zeta.
    change (64 - 1) with 63. destruct (Z.ltb_spec (wrap 64 (FileSys.user_read_usize um req)) (2 ^ 63)); lia. }
  unfold is_u64 in Hu. destruct (Z.ltb_spec sec 0), (Z.leb_spec 0 sec); try lia; [done|].
  destruct (Z.ltb_spec nsec 0), (Z.leb_spec 0 nsec); try lia; [done|].
  destruct (Z.leb_spec 1000000000 nsec), (Z.ltb_spec nsec (10 ^ 9)); try lia; [done|]. cbn [orb andb].
  rewrite !u64_small by (rewrite ?u64_small; lia). unfold saturating_mul, saturating_add, USIZE_MAX.
  assert (nsec <= (nsec + 999999) / 1000000 * 10 ^ 6 < nsec + 10 ^ 6) as Hq by (Z.to_euclidean_division_equations; lia).
  set (q := (nsec + 999999) / 1000000) in *. clearbody q sec nsec. remember (Z.min _ _) as ms eqn:Ems.
  assert (ms = 0 ↔ sec = 0 ∧ nsec = 0) as Hms by lia.
  destruct (Z.eqb_spec ms 0) as [Hz|Hnz]; (split; [done|]).
  - split; [intuition|done].
  - split; [split; [done|intuition]|]. intros t [= <-]. unfold want. lia.
Qed.

Lemma nanosleep_not_early_witness :
  let um a := if a =? 4104 then 1 else 0 in
  linux_nanosleep um 1000 4096 = (0, Some 1001) ∧
  ∀ t, Some 1001 = Some t → (t = USIZE_MAX ∨ 1000 * 10 ^ 6 + 1 <= t * 10 ^ 6 < 1000 * 10 ^ 6 + 1 + 10 ^ 6) ∧ t <= USIZE_MAX.
Proof.
  intros um. split; [vm_compute; reflexivity|].
  exact (proj2 (proj2 (nanosleep_not_early um 1000 4096 ltac:(done) ltac:(done)))).
Defined.

(** ** Random bytes *)

Definition lcg_iter (n : nat) (s : Z) : Z := Nat.iter n lcg s.

Lemma random_bytes_lookup (n : nat) : ∀ s i k, (k < n)%nat →
  (random_bytes s i n).1 !! k = Some (u8 (Z.land (Z.shiftr (lcg_iter (S k) s) ((i + Z.of_nat k) mod 8 * 8)) 0xFF)).
Proof.
  induction n as [|n IH]; intros s i k Hk; [lia|]. cbn [random_bytes].
  destruct (random_bytes (lcg s) (i + 1) n) as [bs s'] eqn:E. destruct k as [|k].
  - cbn. by rewrite Z.add_0_r.
  - cbn [fst]. change ((?b :: bs) !! S k) with (bs !! k). specialize (IH (lcg s) (i + 1) k ltac:(lia)). rewrite E in IH. cbn [fst] in IH. rewrite IH.
    unfold lcg_iter. rewrite (Nat.iter_succ_r (S k)). by replace (i + 1 + Z.of_nat k) with (i + Z.of_nat (S k)) by lia.
Qed.

(** The low byte alone: an affine map modulo 256, and its iterates. *)
Lemma lcg_low (s : Z) : lcg s mod 256 = (45 * (s mod 256) + 79) mod 256.
Proof.
  unfold lcg, u64, wrap. rewrite Zplus_mod_idemp_l. change (2 ^ 64) with (256 * 2 ^ 56).
  rewrite Z.rem_mul_r by lia. rewrite (Z.mul_comm 256), Z.mod_add, Z.mod_mod by lia.
  replace (s * 6364136223846793005 + 1442695040888963407)
    with (45 * s + 79 + (s * 24859907124401535 + 5635527503472513) * 256) by lia.
  rewrite Z.mod_add by lia. by rewrite <- (Zplus_mod_idemp_l (45 * (s mod 256))), Zmult_mod_idemp_r, Zplus_mod_idemp_l.
Qed.

Fixpoint low_affine (n : nat) : Z * Z :=
  match n with
  | O => (1, 0)
  | S n => let '(a, b) := low_affine n in (45 * a mod 256, (45 * b + 79) mod 256)
  end.

Lemma lcg_iter_low (n : nat) (s : Z) : lcg_iter n s mod 256 = ((low_affine n).1 * s + (low_affine n).2) mod 256.
Proof.
  induction n as [|n IH]; [cbn [low_affine fst snd]; f_equal; change (lcg_iter 0 s) with s; lia|].
  change (lcg_iter (S n) s) with (lcg (lcg_iter n s)). rewrite lcg_low, IH. cbn [low_affine].
  destruct (low_affine n) as [a b]. cbn [fst snd].
  rewrite <- (Zplus_mod_idemp_l (45 * _)), Zmult_mod_idemp_r, Zplus_mod_idemp_l.
  rewrite Zplus_mod_idemp_r, <- (Zplus_mod_idemp_l (_ * s)), Zmult_mod_idemp_l, Zplus_mod_idemp_l. f_equal. lia.
Qed.

Lemma lcg_iter_add (a b : nat) (s : Z) : lcg_iter (a + b) s = lcg_iter a (lcg_iter b s).
Proof. apply Nat.iter_add. Qed.

Lemma lcg_period (s : Z) : lcg_iter 256 s mod 256 = s mod 256.
Proof.
  rewrite lcg_iter_low. assert (low_affine 256 = (1, 0)) as -> by (vm_compute; reflexivity). cbn [fst snd]. f_equal. lia.
Qed.

(** Getrandom. It fills the whole buffer, the bytes depend only on the generator's state, and
    every eighth byte, the one taken from the low end of the state, repeats
    after 256 bytes, whatever the state is. *)
Theorem getrandom_fills_and_repeats (s buf count : Z) : 0 < buf → 0 < count < 2 ^ 63 → 
  let '(r, out, s') := linux_getrandom s buf count in
  r = count ∧ s' = lcg_iter (Z.to_nat count) s ∧ (fst <$> out) = (fun i => buf +! Z.of_nat i) <$> seq 0 (Z.to_nat count) ∧
  Forall (fun st => ∃ b, st.2 = [b] ∧ is_byte b) out ∧
  ∀ i : nat, (i mod 8 = 0)%nat → Z.of_nat (i + 256) < count →
    snd <$> out !! i = snd <$> out !! (i + 256)%nat.
Proof.
  intros Hb Hc. unfold linux_getrandom. rewrite (proj2 (Z.eqb_neq buf 0)), (proj2 (Z.eqb_neq count 0)) by lia. cbn [orb].
  destruct (random_bytes s 0 (Z.to_nat count)) as [bs s'] eqn:E.
  assert (length bs = Z.to_nat count ∧ s' = lcg_iter (Z.to_nat count) s) as [Hl Hs].
  { revert E. generalize 0. generalize (Z.to_nat count) as n. intros n. revert s bs. induction n as [|n IH]; intros s bs i; cbn [random_bytes]; [by intros [= <- <-]|].
    destruct (random_bytes (lcg s) (i + 1) n) as [bs1 s1] eqn:E1. intros [= <- <-]. destruct (IH _ _ _ E1) as [Hl1 Hs1].
    split; [cbn; lia|]. rewrite Hs1. unfold lcg_iter. by rewrite Nat.iter_succ_r. }
  pose proof (random_bytes_lookup (Z.to_nat count) s 0) as Hlook. rewrite E in Hlook. cbn [fst] in Hlook.
  splits.
  - apply i64_small. lia.
  - done.
  - apply list_eq. intros k. rewrite !list_lookup_fmap, list_lookup_imap. destruct (decide (k < Z.to_nat count)%nat) as [Hk|Hk].
    + rewrite Hlook by done. rewrite lookup_seq_lt by done. done.
    + rewrite lookup_ge_None_2, lookup_ge_None_2 by (rewrite ?length_seq; lia). done.
  - apply Forall_lookup. intros k st. rewrite list_lookup_imap. destruct (bs !! k) as [b|] eqn:Hk; [|done]. intros [= <-].
    exists b. split; [done|]. rewrite Hlook in Hk by (apply lookup_lt_Some in Hk; lia). injection Hk as <-. by apply wrap_range.
  - intros i Hi Hc'. rewrite !list_lookup_imap, !Hlook by lia. cbn [fmap option_fmap option_map snd]. 
    assert (∀ k : nat, (k mod 8 = 0)%nat → Z.land (Z.shiftr (lcg_iter (S k) s) ((0 + Z.of_nat k) mod 8 * 8)) 0xFF = lcg_iter (S k) s mod 256) as Hlow.
    { intros k Hk. replace ((0 + Z.of_nat k) mod 8) with 0 by (rewrite Z.add_0_l; change 8 with (Z.of_nat 8); rewrite <- Nat2Z.inj_mod; lia).
      rewrite Z.mul_0_l, Z.shiftr_0_r. by apply (Z.land_ones _ 8). }
    assert ((i + 256) mod 8 = 0)%nat as Hi' by (rewrite Nat.Div0.add_mod, Hi; reflexivity).
    rewrite (Hlow i Hi), (Hlow _ Hi'). do 3 f_equal.
    replace (S (i + 256)) with (256 + S i)%nat by lia. by rewrite lcg_iter_add, lcg_period.
Qed.

Lemma getrandom_fills_and_repeats_witness :
  let '(r, out, _) := linux_getrandom PRNG_STATE 4096 300 in r = 300 ∧ snd <$> out !! 8%nat = snd <$> out !! 264%nat.
Proof.
  pose proof (getrandom_fills_and_repeats PRNG_STATE 4096 300 ltac:(lia) ltac:(lia)) as Hr.
  destruct (linux_getrandom PRNG_STATE 4096 300) as [[r out] s']. destruct Hr as (Hr & _ & _ & _ & Hrep).
  split; [exact Hr|]. apply (Hrep 8%nat); [reflexivity|]. cbn. lia.
Defined.

(** ** System information *)

Lemma uname_buffer : fill_fields (replicate 390 0) 0 uname_fields =
  Ret (mjoin ((fun f => f ++ replicate (65 - length f) 0) <$> uname_fields)).
Proof. vm_compute. reflexivity. Qed.

Lemma all_stored_ext (um um' : Z → Z) (sts : stores) (a : Z) :
  (∀ a, um a = um' a) → all_stored um sts a = all_stored um' sts a.
Proof.
  revert um um'. induction sts as [|st sts IH]; intros um um' He; [apply He|]. apply IH. intros x. unfold stored.
  case_match; [done|apply He].
Qed.

(** Chunks of one size, stored one after the other. *)
Lemma chunks_stored (um : Z → Z) (p a : Z) (n : nat) (chunks : list (list Z)) : ∀ xs k,
  Forall (fun c => length c = n) chunks → Z.of_nat (length xs + n * length chunks) <= 2 ^ 64 → length xs = (k * n)%nat →
  all_stored (stored um (p, xs)) (imap (fun i c => (p +! Z.of_nat ((k + i) * n), c)) chunks) a = stored um (p, xs ++ mjoin chunks) a.
Proof.
  induction chunks as [|c cs IH]; intros xs k Hc Hl Hk; [by rewrite app_nil_r|].
  apply Forall_cons in Hc as [Hc Hcs]. cbn [length] in Hl. rewrite imap_cons, Nat.add_0_r, <- Hk.
  change (all_stored ?m (?x :: ?l)) with (all_stored (stored m x) l).
  erewrite all_stored_ext; [|intros x; apply stored_app; lia].
  change (mjoin (c :: cs)) with (c ++ mjoin cs). rewrite app_assoc, <- (IH (xs ++ c) (S k)); [|done|rewrite length_app; lia|rewrite length_app; lia].
  f_equal. apply imap_ext. intros i x _. cbn. do 3 f_equal. lia.
Qed.

Lemma u64_shift (p x y : Z) : u64 (p +! x - (p +! y)) = u64 (x - y).
Proof. unfold u64, wrap. rewrite Zminus_mod_idemp_l, Zminus_mod_idemp_r. f_equal. lia. Qed.

(** Reading a field of a structure at [p] that was stored, and one beside what was stored. *)
Lemma field_same (um : Z → Z) (p off : Z) (n : nat) (bs : list Z) : n = length bs → Z.of_nat n <= 2 ^ 64 →
  FdTable.user_bytes (stored um (p +! off, bs)) p off n = bs.
Proof.
  intros -> Hl. apply user_bytes_list. intros k b Hb. pose proof (lookup_lt_Some _ _ _ Hb).
  unfold stored. cbn [fst snd]. rewrite u64_shift, u64_small by lia.
  rewrite (proj2 (Z.ltb_lt _ _)) by lia. apply list_lookup_total_correct. rewrite <- Hb. f_equal. lia.
Qed.

Lemma field_other (um : Z → Z) (p off y : Z) (n : nat) (bs : list Z) :
  0 <= off → 0 <= y → off + Z.of_nat n <= y ∨ y + Z.of_nat (length bs) <= off →
  off + Z.of_nat n < 2 ^ 63 → y + Z.of_nat (length bs) < 2 ^ 63 →
  FdTable.user_bytes (stored um (p +! y, bs)) p off n = FdTable.user_bytes um p off n.
Proof.
  intros Ho Hy Hd Ho' Hy'. apply user_bytes_ext. intros k Hk. apply stored_out. rewrite u64_shift.
  destruct Hd; [|rewrite u64_small; lia]. unfold u64, wrap. rewrite <- (Z.mod_unique (k - y) (2 ^ 64) (-1) (k - y + 2 ^ 64)); lia.
Qed.

Lemma field_slice (um : Z → Z) (p : Z) (bs : list Z) (off n : nat) :
  (off + n <= length bs)%nat → Z.of_nat (length bs) <= 2 ^ 64 →
  FdTable.user_bytes (stored um (p, bs)) p (Z.of_nat off) n = slice off n bs.
Proof.
  intros Hn Hl. assert (length (slice off n bs) = n) as Hlen by (unfold slice; rewrite length_take, length_drop; lia).
  rewrite <- Hlen at 1. apply user_bytes_list. intros k b. unfold slice.
  destruct (decide (k < n)%nat) as [Hk|Hk]; [|rewrite lookup_take_ge by lia; done].
  rewrite lookup_take_lt, lookup_drop by done. rewrite <- Nat2Z.inj_add. by apply stored_in.
Qed.

(** System information. The two uname functions leave user memory in the same state, six
    fields of 65 bytes that read back as the names; the two sysinfo functions write different
    words, but both describe 512 MiB of memory, half of it free. *)
Theorem sysinfo_and_uname_agree (um : Z → Z) (buf : Z) : 0 < buf →
  (∃ st, linux_uname buf = Ret (0, st) ∧ (sys_uname buf).1 = 0 ∧
    (∀ a, all_stored um st a = all_stored um (sys_uname buf).2 a) ∧
    ∀ i f, uname_fields !! i = Some f →
      FdTable.user_bytes (all_stored um st) buf (Z.of_nat (i * 65)) (length f) = f) ∧
  (let word m off := of_le (FdTable.user_bytes m buf off 8) in
   let unit m := of_le (FdTable.user_bytes m buf 104 4) in
   let m1 := all_stored um (linux_sysinfo buf).2 in
   let m2 := all_stored um (sys_sysinfo buf).2 in
   word m1 32 * unit m1 = 512 * 2 ^ 20 ∧ word m2 32 * unit m2 = 512 * 2 ^ 20 ∧
   word m1 40 * unit m1 = 256 * 2 ^ 20 ∧ word m2 40 * unit m2 = 256 * 2 ^ 20).
Proof.
  intros Hb. split.
  - unfold linux_uname, sys_uname. rewrite (proj2 (Z.eqb_neq buf 0)) by lia. rewrite uname_buffer. cbn [exec_bind fst snd].
    eexists. split; [done|]. split; [done|]. set (chunks := _ <$> uname_fields). split.
    + intros a. change (all_stored um [(buf, mjoin chunks)] a) with (stored um (buf, [] ++ mjoin chunks) a).
      rewrite <- (chunks_stored um buf a 65 chunks [] 0); [|by repeat constructor|cbn; lia|done].
      erewrite all_stored_ext; [|intros x; apply stored_out; cbn; apply u64_range].
      f_equal.
    + intros i f Hf. change (all_stored um [?x]) with (stored um x).
      do 6 (destruct i as [|i]; [injection Hf as <-; rewrite field_slice by (vm_compute; lia || done); reflexivity|]). done.
  - unfold linux_sysinfo, sys_sysinfo. rewrite (proj2 (Z.eqb_neq buf 0)) by lia. cbn [fst snd all_stored foldl].
    repeat split; repeat first [rewrite field_same by (reflexivity || done) | rewrite field_other by (vm_compute; first [done | left; done | right; done])]; reflexivity.
Qed.

Lemma sysinfo_and_uname_agree_witness :
  ∃ st, linux_uname 4096 = Ret (0, st) ∧ FdTable.user_bytes (all_stored (fun _ => 7) st) 4096 130 6 = bytes "6.1.0" ++ [0].
Proof.
  destruct (sysinfo_and_uname_agree (fun _ => 7) 4096 ltac:(lia)) as [(st & Hst & _ & _ & Hf) _].
  exists st. split; [exact Hst|]. exact (Hf 2%nat _ eq_refl).
Defined.

(** What arch_prctl sets is what it reads back; setting the FS base also reaches the task and the pending value. *)
Lemma arch_prctl_get_set (b : Bases) (v p : Z) : p ≠ 0 →
  (let b' := (linux_arch_prctl b 0x1002 v).2 in
   task_fs_base b' = v ∧ PENDING_FS_BASE b' = v ∧ linux_arch_prctl b' 0x1003 p = (0, [(p, le_bytes 8 v)], b')) ∧
  (let b' := (linux_arch_prctl b 0x1001 v).2 in linux_arch_prctl b' 0x1004 p = (0, [(p, le_bytes 8 v)], b')).
Proof. intros Hp. unfold linux_arch_prctl. cbn. by rewrite (proj2 (Z.eqb_neq p 0)). Qed.

End Misc.

Module Entry.

(** The functions the dispatchers call. *)
Inductive handler :=
| sys_debug_print | sys_exit | sys_write | sys_read | sys_brk | sys_getpid | sys_pipe | sys_dup2 | sys_open
| sys_close | sys_spawn | sys_exec | sys_exec_fd | sys_waitpid | sys_ls | sys_mkdir | sys_unlink | sys_setenv
| sys_getenv | sys_chdir | sys_kill | sys_fork | sys_ioctl | sys_socket | sys_bind | sys_connect | sys_listen
| sys_accept | sys_sendto | sys_recvfrom | sys_shutdown | sys_syslog | sys_setpriority | sys_getscheduler
| sys_wait4 | sys_execve_linux | linux_open | linux_openat | linux_stat | linux_fstat | linux_lseek
| linux_mmap | linux_mprotect | linux_munmap | linux_rt_sigaction | linux_rt_sigprocmask | linux_pread64
| linux_pwrite64 | schedule | linux_madvise | linux_dup | linux_nanosleep | linux_clone | linux_wait4
| linux_uname | linux_getdents | linux_getcwd | linux_chdir | linux_gettimeofday | linux_sysinfo
| linux_fcntl | linux_fsync | ftruncate | linux_sigaltstack | linux_arch_prctl | linux_time
| linux_futex_impl | linux_sched_getaffinity | linux_getdents64 | linux_set_tid_address | linux_clock_gettime
| linux_exit_group | linux_mkdirat | sys_eventfd2 | sys_epoll_wait | sys_epoll_ctl | sys_epoll_create1
| linux_getrandom | sys_getcwd | sys_sysinfo | sys_uname | sys_fstat | translate_getaffinity.

(** A constant, or a call; [schedule] is followed by the value 0. *)
Inductive Call := Value (v : Z) | Invoke (h : handler) (args : list Z).

(** The functions that only call another one, or return a constant. *)
Definition linux_lstat (pathname statbuf : Z) : Call := Invoke linux_stat [pathname; statbuf].
Definition linux_newfstatat (dirfd pathname statbuf flags : Z) : Call := Invoke linux_stat [pathname; statbuf].
Definition linux_poll (fds nfds timeout : Z) : Call := Value 0.
Definition linux_readv (fd iov iovcnt : Z) : Call := Value 0.
Definition linux_writev (fd iov iovcnt : Z) : Call := Value 0.
Definition linux_dup2 (oldfd newfd : Z) : Call := Invoke sys_dup2 [i32 oldfd; i32 newfd].
Definition linux_pause : Call := Value (-4).
Definition linux_pipe (fd_ptr : Z) : Call := Invoke sys_pipe [fd_ptr].
Definition linux_getppid : Call := Value 1.
Definition linux_socket (domain socket_type protocol : Z) : Call := Value FileSys.ERR_IO.
Definition linux_accept (fd : Z) : Call := Invoke sys_accept [fd].
Definition linux_sched_setaffinity (pid size mask : Z) : Call := Value 0.
Definition linux_tgkill (tgid tid sig : Z) : Call := Value 0.

(** ** Matching *)

(** A pattern that is a name: the constant's number, or a binding, which matches everything. *)
Fixpoint lookup_const (name : string) (consts : list (string * Z)) : option Z :=
  match consts with
  | [] => None
  | (n, v) :: consts => if String.eqb n name then Some v else lookup_const name consts
  end.

Definition matches (consts : list (string * Z)) (id : Z) (name : string) : bool :=
  match lookup_const name consts with
  | Some v => id =? v
  | None => true
  end.

Fixpoint first_arm {A : Type} (consts : list (string * Z)) (id : Z) (arms : list (list string * A)) (default : A) : A :=
  match arms with
  | [] => default
  | (names, a) :: arms => if existsb (matches consts id) names then a else first_arm consts id arms default
  end.

(** The same for arms that are numbers. *)
Fixpoint number_arm {A : Type} (id : Z) (arms : list (Z * A)) (default : A) : A :=
  match arms with
  | [] => default
  | (n, a) :: arms => if id =? n then a else number_arm id arms default
  end.

(** The constants of [x86_64_syscalls]. *)
Definition x86_64_syscalls : list (string * Z) :=
  [("L_READ", 0); ("L_WRITE", 1); ("L_OPEN", 2); ("L_CLOSE", 3); ("L_STAT", 4); ("L_FSTAT", 5);
   ("L_POLL", 7); ("L_LSEEK", 8); ("L_MMAP", 9); ("L_MPROTECT", 10); ("L_MUNMAP", 11); ("L_BRK", 12);
   ("L_RT_SIGACTION", 13); ("L_RT_SIGPROCMASK", 14); ("L_IOCTL", 16); ("L_PREAD64", 17); ("L_ACCESS", 21);
   ("L_PIPE", 22); ("L_SELECT", 23); ("L_SCHED_YIELD", 24); ("L_MADVISE", 28); ("L_DUP", 32);
   ("L_NANOSLEEP", 35); ("L_GETPID", 39); ("L_SOCKET", 41); ("L_CONNECT", 42); ("L_CLONE", 56);
   ("L_FORK", 57); ("L_EXECVE", 59); ("L_EXIT", 60); ("L_EXIT_GROUP", 231); ("L_WAIT4", 61);
   ("L_KILL", 62); ("L_FCNTL", 72); ("L_FSYNC", 74); ("L_GETDENTS", 78); ("L_GETDENTS64", 217);
   ("L_GETCWD", 79); ("L_CHDIR", 80); ("L_MKDIR", 83); ("L_RMDIR", 84); ("L_UNLINK", 87);
   ("L_READLINK", 89); ("L_GETUID", 102); ("L_GETGID", 104); ("L_GETEUID", 107); ("L_GETEGID", 108);
   ("L_SIGALTSTACK", 131); ("L_GETTIMEOFDAY", 96); ("L_GETRLIMIT", 97); ("L_GETRUSAGE", 98);
   ("L_SYSINFO", 99); ("L_TIMES", 100); ("L_PTRACE", 101); ("L_SET_TID_ADDR", 218); ("L_SETRLIMIT", 160);
   ("L_GETPID2", 39); ("L_GETTID", 186); ("L_UNAME", 122); ("L_TGKILL", 234); ("L_TKILL", 200);
   ("L_TIME", 201); ("L_FUTEX", 202); ("L_SCHED_SETAFFINITY", 203); ("L_SCHED_GETAFFINITY", 204);
   ("L_SET_THREAD_AREA", 205); ("L_GET_THREAD_AREA", 211); ("L_CLOCK_GETTIME", 228);
   ("L_CLOCK_GETRES", 229); ("L_OPENAT", 257); ("L_MKDIRAT", 258); ("L_NEWFSTATAT", 262);
   ("L_UNLINKAT", 263); ("L_READLINKAT", 267); ("L_FACCESSAT", 269); ("L_PRLIMIT64", 302);
   ("L_GETRANDOM", 318); ("L_ARCH_PRCTL", 158); ("L_SYSLOG", 103); ("L_PRCTL", 157);
   ("L_SET_ROBUST_LIST", 273); ("L_GET_ROBUST_LIST", 274); ("L_RSEQ", 334); ("L_UNSHARE", 272);
   ("L_EPOLL_CREATE1", 291); ("L_EPOLL_CTL", 233); ("L_EPOLL_PWAIT", 281); ("L_EPOLL_WAIT", 232);
   ("L_EVENTFD2", 290); ("L_FACCESSAT2", 439); ("L_PIPE2", 293); ("L_DUP3", 292); ("L_MREMAP", 25);
   ("L_MINCORE", 27); ("L_SHMGET", 29); ("L_SHMAT", 30); ("L_SHMCTL", 31); ("L_RECVMSG", 47);
   ("L_SENDMSG", 46); ("L_LISTEN", 50); ("L_BIND", 49); ("L_ACCEPT", 43); ("L_SENDTO", 44);
   ("L_RECVFROM", 45); ("L_SHUTDOWN", 48); ("L_GETSOCKNAME", 51); ("L_GETPEERNAME", 52);
   ("L_SETSOCKOPT", 54); ("L_GETSOCKOPT", 55); ("L_SIGACTION", 13); ("L_RT_SIGRETURN", 15)].

(** The constants of [riscv_syscalls]. *)
Definition riscv_syscalls : list (string * Z) :=
  [("L_IOCTL", 29); ("L_OPENAT", 56); ("L_CLOSE", 57); ("L_LSEEK", 62); ("L_READ", 63); ("L_WRITE", 64);
   ("L_FSTAT", 80); ("L_EXIT", 93); ("L_EXIT_GROUP", 94); ("L_SET_TID_ADDR", 96); ("L_GETPID", 172);
   ("L_BRK", 214); ("L_MUNMAP", 215); ("L_MMAP", 222); ("L_MPROTECT", 226); ("L_MADVISE", 233);
   ("L_SOCKET", 198); ("L_BIND", 200); ("L_CONNECT", 203); ("L_LISTEN", 201); ("L_ACCEPT", 202);
   ("L_SENDTO", 206); ("L_RECVFROM", 207); ("L_SHUTDOWN", 210)].

(** The call numbers of syscall/mod.rs. *)
Definition native_syscalls : list (string * Z) :=
  [("SYS_DEBUG_PRINT", 0); ("SYS_EXIT", 1); ("SYS_WRITE", 2); ("SYS_READ", 3); ("SYS_BRK", 4);
   ("SYS_GETPID", 5); ("SYS_MMAP", 6); ("SYS_PIPE", 7); ("SYS_DUP2", 8); ("SYS_OPEN", 10);
   ("SYS_CLOSE", 11); ("SYS_SPAWN", 30); ("SYS_WAITPID", 31); ("SYS_EXEC", 32); ("SYS_EXEC_FD", 33);
   ("SYS_FORK", 34); ("SYS_LS", 40); ("SYS_MKDIR", 41); ("SYS_UNLINK", 42); ("SYS_SETENV", 50);
   ("SYS_GETENV", 51); ("SYS_CHDIR", 52); ("SYS_KILL", 60); ("SYS_SIGRET", 61); ("SYS_IOCTL", 80);
   ("SYS_SOCKET", 70); ("SYS_BIND", 71); ("SYS_CONNECT", 72); ("SYS_LISTEN", 73); ("SYS_ACCEPT", 74);
   ("SYS_SENDTO", 75); ("SYS_RECVFROM", 76); ("SYS_SHUTDOWN", 77); ("SYS_SYSLOG", 81);
   ("SYS_SETPRIORITY", 82); ("SYS_GETSCHEDULER", 83); ("LINUX_WAIT4", 84); ("LINUX_EXECVE", 85);
   ("LINUX_CLONE", 100); ("LINUX_FUTEX", 101); ("LINUX_RT_SIGACTION", 102); ("LINUX_RT_SIGPROCMASK", 103);
   ("LINUX_RT_SIGRETURN", 104); ("LINUX_SIGALTSTACK", 105); ("LINUX_SCHED_YIELD", 106);
   ("LINUX_MMAP", 110); ("LINUX_MPROTECT", 111); ("LINUX_MUNMAP", 112); ("LINUX_ARCH_PRCTL", 113);
   ("LINUX_MADVISE", 114); ("LINUX_GETRANDOM", 114); ("LINUX_SET_TID_ADDRESS", 115)].

Section args.
Context (um : Z → Z).
Context (args : list Z).
Abbreviation a0 := (args !!! 0%nat).
Abbreviation a1 := (args !!! 1%nat).
Abbreviation a2 := (args !!! 2%nat).
Abbreviation a3 := (args !!! 3%nat).
Abbreviation a4 := (args !!! 4%nat).
Abbreviation a5 := (args !!! 5%nat).
Abbreviation count_user_string := (FileSys.count_user_string um).

(** ** The syscall instruction *)

(** Files, memory, signals, processes and sockets. *)
Definition linux_low_arms : list (Z * Call) :=
  [(0, Invoke sys_read [i32 a0; a1; a2]); (1, Invoke sys_write [i32 a0; a1; a2]); (2, Invoke linux_open [a0; a1; a2]);
   (3, Invoke sys_close [i32 a0]); (4, Invoke linux_stat [a0; a1]); (5, Invoke linux_fstat [a0; a1]);
   (6, linux_lstat a0 a1); (7, linux_poll a0 a1 a2); (8, Invoke linux_lseek [a0; a1; a2]);
   (9, Invoke linux_mmap [a0; a1; a2; a3; a4; a5]); (10, Invoke linux_mprotect [a0; a1; a2]);
   (11, Invoke linux_munmap [a0; a1]); (12, Invoke sys_brk [a0]);
   (13, Invoke linux_rt_sigaction [a0; a1; a2]); (14, Invoke linux_rt_sigprocmask [a0; a1; a2]); (15, Value 0);
   (16, Invoke sys_ioctl [i32 a0; a1; a2]); (17, Invoke linux_pread64 [i32 a0; a1; a2; a3; a4]);
   (18, Invoke linux_pwrite64 [i32 a0; a1; a2; a3; a4]); (19, linux_readv a0 a1 a2);
   (20, linux_writev a0 a1 a2); (21, Value 0); (22, linux_pipe a0); (23, Value 0);
   (24, Invoke schedule []); (25, Value FdSys.ERR_INVAL); (26, Value 0); (27, Value 0);
   (28, Invoke linux_madvise [a0; a1; a2]); (29, Invoke linux_dup [a0]); (30, linux_dup2 a0 a1);
   (31, linux_pause); (32, Invoke linux_dup [a0]); (33, Value 0); (34, Value 0);
   (35, Invoke linux_nanosleep [a0; a1]); (36, Value 0); (37, Value 0); (38, Value 0);
   (39, Invoke sys_getpid []); (40, linux_getppid); (41, linux_socket a0 a1 a2);
   (42, Invoke sys_connect [i32 a0; a1; a2]); (43, linux_accept (i32 a0));
   (44, Invoke sys_sendto [i32 a0; a1; a2; a3; a4; a5]); (45, Invoke sys_recvfrom [i32 a0; a1; a2]);
   (46, Invoke sys_bind [i32 a0; a1; a2]); (47, Value 0); (48, Value 0); (49, Invoke sys_socket [a0; a1; a2]);
   (50, Invoke sys_listen [i32 a0; a1]); (51, Value 0); (52, Value 0); (53, Value 0); (54, Value 0);
   (55, Invoke sys_shutdown [i32 a0]); (56, Invoke linux_clone [a0; a1; a2; a3; a4]); (57, Invoke sys_fork []);
   (58, Value 0); (59, Invoke sys_exec [a0; count_user_string a0; a1; a2]); (60, Invoke sys_exit [i32 a0])].

(** The numbers from 61 on. *)
Definition linux_high_arms : list (Z * Call) :=
  [(61, Invoke linux_wait4 [a0; a1; a2]); (63, Invoke linux_uname [a0]); (78, Invoke linux_getdents [a0; a1; a2]);
   (79, Invoke linux_getcwd [a0; a1]); (80, Invoke linux_chdir [a0]); (83, Invoke sys_mkdir [a0; count_user_string a0]);
   (87, Invoke sys_unlink [a0; count_user_string a0]); (89, Value 0); (96, Invoke linux_gettimeofday [a0; a1]);
   (97, Value 0); (98, Value 0); (99, Invoke linux_sysinfo [a0]); (100, Value 0); (101, Value FdSys.ERR_INVAL);
   (102, Value 0); (103, Value 0); (104, Value 0); (105, Value 0); (106, Value 0); (107, Value 0); (108, Value 0);
   (72, Invoke linux_fcntl [a0; a1; a2]); (74, Invoke linux_fsync [a0]); (75, Invoke linux_fsync [a0]);
   (77, Invoke ftruncate [i32 a0; a1]); (122, Invoke linux_uname [a0]); (131, Invoke linux_sigaltstack [a0; a1]);
   (157, Value 0); (158, Invoke linux_arch_prctl [a0; a1]); (160, Value 0); (186, Invoke sys_getpid []); (200, Value 0);
   (201, Invoke linux_time [a0]); (202, Invoke linux_futex_impl [a0; a1; a2; a3]);
   (203, linux_sched_setaffinity a0 a1 a2); (204, Invoke linux_sched_getaffinity [a0; a1; a2]);
   (217, Invoke linux_getdents64 [a0; a1; a2]); (218, Invoke linux_set_tid_address [a0]);
   (228, Invoke linux_clock_gettime [a0; a1]); (231, Invoke linux_exit_group [i32 a0]);
   (234, linux_tgkill a0 a1 a2); (257, Invoke linux_openat [a0; a1; a2; a3]);
   (258, Invoke linux_mkdirat [a0; a1; a2; a3]); (262, linux_newfstatat a0 a1 a2 a3);
   (263, Invoke sys_unlink [a1; count_user_string a1]); (267, Value 0); (272, Value 0); (273, Value 0); (274, Value 0);
   (290, Invoke sys_eventfd2 [a0; a1]); (232, Invoke sys_epoll_wait [a0; a1; a2; i64 a3]);
   (233, Invoke sys_epoll_ctl [a0; a1; a2; a3]); (281, Invoke sys_epoll_wait [a0; a1; a2; i64 a3]);
   (291, Invoke sys_epoll_create1 [a0]); (292, Invoke sys_dup2 [i32 a0; i32 a1]); (293, Value 0); (302, Value 0);
   (285, Value 0); (318, Invoke linux_getrandom [a0; a1; a2]); (334, Value (-38)); (435, Value (-38))].

Definition linux_arms : list (Z * Call) := linux_low_arms ++ linux_high_arms.

Definition dispatch_linux_syscall (nr : Z) : Call := number_arm nr linux_arms (Value (-38)).

(** ** int 0x80 and ecall *)

Definition native_arms (x86 : bool) : list (list string * Call) :=
  [(["SYS_DEBUG_PRINT"], Invoke sys_debug_print [a0; a1]); (["SYS_EXIT"], Invoke sys_exit [i32 a0]);
   (["SYS_WRITE"], Invoke sys_write [i32 a0; a1; a2]); (["SYS_READ"], Invoke sys_read [i32 a0; a1; a2]);
   (["SYS_BRK"], Invoke sys_brk [a0]); (["SYS_GETPID"], Invoke sys_getpid []);
   (["SYS_MMAP"], Invoke linux_mmap [a0; a1; a2; a3; a4; a5]); (["SYS_PIPE"], Invoke sys_pipe [a0]);
   (["SYS_DUP2"], Invoke sys_dup2 [i32 a0; i32 a1]); (["SYS_OPEN"], Invoke sys_open [a0; a1; u32 a2]);
   (["SYS_CLOSE"], Invoke sys_close [i32 a0]); (["SYS_SPAWN"], Invoke sys_spawn [a0; a1]);
   (["SYS_EXEC"], Invoke sys_exec [a0; a1; a2; a3]); (["SYS_EXEC_FD"], Invoke sys_exec_fd [a0; a1; i32 a2; i32 a3]);
   (["SYS_WAITPID"], Invoke sys_waitpid [a0]); (["SYS_LS"], Invoke sys_ls [a0; a1]);
   (["SYS_MKDIR"], Invoke sys_mkdir [a0; a1]); (["SYS_UNLINK"], Invoke sys_unlink [a0; a1]);
   (["SYS_SETENV"], Invoke sys_setenv [a0; a1; a2; a3]); (["SYS_GETENV"], Invoke sys_getenv [a0; a1; a2; a3]);
   (["SYS_CHDIR"], Invoke sys_chdir [a0; a1]); (["SYS_KILL"], Invoke sys_kill [a0; a1]); (["SYS_FORK"], Invoke sys_fork []);
   (["SYS_IOCTL"], Invoke sys_ioctl [i32 a0; a1; a2]); (["SYS_SOCKET"], Invoke sys_socket [a0; a1; a2]);
   (["SYS_BIND"], Invoke sys_bind [i32 a0; a1; a2]); (["SYS_CONNECT"], Invoke sys_connect [i32 a0; a1; a2]);
   (["SYS_LISTEN"], Invoke sys_listen [i32 a0; a1]); (["SYS_ACCEPT"], Invoke sys_accept [i32 a0]);
   (["SYS_SENDTO"], Invoke sys_sendto [i32 a0; a1; a2; a3; a4; a5]);
   (["SYS_RECVFROM"], Invoke sys_recvfrom [i32 a0; a1; a2]); (["SYS_SHUTDOWN"], Invoke sys_shutdown [i32 a0]);
   (["SYS_SYSLOG"], Invoke sys_syslog [a0; a1; a2]); (["SYS_SETPRIORITY"], Invoke sys_setpriority [a0; a1; a2]);
   (["SYS_GETSCHEDULER"], Invoke sys_getscheduler [a0]); (["LINUX_WAIT4"], Invoke sys_wait4 [a0; a1; a2; a3]);
   (["LINUX_EXECVE"], Invoke sys_execve_linux [a0; a1; a2]); (["LINUX_CLONE"], Invoke linux_clone [a0; a1; a2; a3; a4]);
   (["LINUX_FUTEX"], Invoke linux_futex_impl [a0; a1; a2; a3]);
   (["LINUX_RT_SIGACTION"], Invoke linux_rt_sigaction [a0; a1; a2]);
   (["LINUX_RT_SIGPROCMASK"], Invoke linux_rt_sigprocmask [a0; a1; a2]); (["LINUX_RT_SIGRETURN"], Value 0);
   (["LINUX_SIGALTSTACK"], Invoke linux_sigaltstack [a0; a1]); (["LINUX_SCHED_YIELD"], Invoke schedule []);
   (["LINUX_MMAP"], Invoke linux_mmap [a0; a1; a2; a3; a4; a5]); (["LINUX_MPROTECT"], Invoke linux_mprotect [a0; a1; a2]);
   (["LINUX_MUNMAP"], Invoke linux_munmap [a0; a1]); (["LINUX_MADVISE"], Invoke linux_madvise [a0; a1; a2]);
   (["LINUX_GETRANDOM"], Invoke linux_getrandom [a0; a1; a2]);
   (["LINUX_SET_TID_ADDRESS"], Invoke linux_set_tid_address [a0]);
   (["LINUX_ARCH_PRCTL"], if x86 then Invoke linux_arch_prctl [a0; a1] else Value 0)].

Definition dispatch_inner (x86 : bool) (id : Z) : Call :=
  first_arm native_syscalls id (native_arms x86) (Value FdSys.ERR_INVAL).

End args.

(** ** Translation *)

(** A call made while translating is [Handled] with that call. *)
Inductive Translation := Dispatch (karte_nr : Z) (args : list Z) | Handled (c : Call).

Definition KARTEOS_NATIVE_NUMBERS : list Z :=
  [0; 1; 2; 3; 4; 5; 6; 7; 8; 10; 11; 30; 31; 32; 33; 34; 40; 41; 42; 50; 51; 52; 60; 61; 70; 71; 72; 73; 74; 75; 76; 77].

Section translate.
Context (um : Z → Z).
Context (args : list Z).
Abbreviation a0 := (args !!! 0%nat).
Abbreviation a1 := (args !!! 1%nat).
Abbreviation a2 := (args !!! 2%nat).
Abbreviation a3 := (args !!! 3%nat).
Abbreviation count_user_string := (FileSys.count_user_string um).

Definition SYS (name : string) : Z := default 0 (lookup_const name native_syscalls).

(** The arm of [L_OPENAT]. *)
Definition translate_openat : Translation :=
  let path_len := count_user_string a1 in
  if path_len =? 0 then Handled (Value FileSys.ERR_NOENT) else Dispatch (SYS "SYS_OPEN") [a1; path_len; a2; 0; 0; 0].

(** Memory, processes, signals and files. *)
Definition x86_64_file_arms : list (list string * option Translation) :=
  [(["L_MMAP"], Some (Dispatch 110 args)); (["L_MPROTECT"], Some (Dispatch 111 [a0; a1; a2; 0; 0; 0]));
   (["L_MUNMAP"], Some (Dispatch 112 [a0; a1; 0; 0; 0; 0])); (["L_MADVISE"], Some (Dispatch 114 [a0; a1; a2; 0; 0; 0]));
   (["L_EXIT_GROUP"], Some (Dispatch (SYS "SYS_EXIT") args)); (["L_GETPID"], Some (Dispatch (SYS "SYS_GETPID") args));
   (["L_GETTID"], Some (Dispatch (SYS "SYS_GETPID") args)); (["L_CLONE"], Some (Handled (Value (-38))));
   (["L_FORK"], Some (Dispatch (SYS "SYS_FORK") args)); (["L_EXECVE"], Some (Dispatch 85 [a0; a1; a2; 0; 0; 0]));
   (["L_FUTEX"], Some (Dispatch 101 args)); (["L_RT_SIGACTION"], Some (Dispatch 102 args));
   (["L_RT_SIGPROCMASK"], Some (Dispatch 103 args)); (["L_RT_SIGRETURN"], Some (Dispatch 104 args));
   (["L_SIGALTSTACK"], Some (Dispatch 105 args)); (["L_OPENAT"], Some translate_openat);
   (["L_NEWFSTATAT"], Some (Handled (Value 0))); (["L_FSTAT"], Some (Handled (Invoke sys_fstat [i32 a0; a1])));
   (["L_PREAD64"], Some (Dispatch (SYS "SYS_READ") [a0; a1; a2; 0; 0; 0]));
   (["L_PIPE"; "L_PIPE2"], Some (Dispatch (SYS "SYS_PIPE") args));
   (["L_GETDENTS"; "L_GETDENTS64"], Some (Handled (Value 0)));
   (["L_GETCWD"], Some (Handled (Invoke sys_getcwd [a0; a1]))); (["L_KILL"], Some (Handled (Value 0)));
   (["L_MKDIR"], Some (Dispatch (SYS "SYS_MKDIR") [a0; count_user_string a0; 0; 0; 0; 0]));
   (["L_UNLINK"], Some (Dispatch (SYS "SYS_UNLINK") [a0; count_user_string a0; 0; 0; 0; 0]));
   (["L_READLINK"; "L_READLINKAT"], Some (Handled (Value FileSys.ERR_NOENT)));
   (["L_ACCESS"; "L_FACCESSAT"; "L_FACCESSAT2"], Some (Handled (Value 0))); (["L_IOCTL"], Some (Handled (Value 0)))].

(** Scheduling, time and system information. *)
Definition x86_64_time_arms : list (list string * option Translation) :=
  [(["L_SCHED_YIELD"], Some (Dispatch 106 args));
   (["L_SCHED_GETAFFINITY"], Some (Handled (Invoke translate_getaffinity [a1; a2])));
   (["L_GETTIMEOFDAY"], Some (Handled (Invoke linux_gettimeofday [a0; a1])));
   (["L_CLOCK_GETTIME"], Some (Handled (Invoke linux_clock_gettime [a0; a1])));
   (["L_NANOSLEEP"], Some (Handled (Invoke linux_nanosleep [a0; a1])));
   (["L_TIME"], Some (Handled (Invoke linux_time [a0]))); (["L_SYSINFO"], Some (Handled (Invoke sys_sysinfo [a0])));
   (["L_UNAME"], Some (Handled (Invoke sys_uname [a0]))); (["L_GETRLIMIT"; "L_PRLIMIT64"], Some (Handled (Value 0)));
   (["L_GETUID"; "L_GETGID"; "L_GETEUID"; "L_GETEGID"], Some (Handled (Value 0)));
   (["L_SET_TID_ADDR"], Some (Dispatch 115 args)); (["L_SET_ROBUST_LIST"; "L_GET_ROBUST_LIST"], Some (Handled (Value 0)));
   (["L_RSEQ"], Some (Handled (Value (-38))))].

(** Threads, epoll, the rest and the network. *)
Definition x86_64_misc_arms : list (list string * option Translation) :=
  [(["L_SET_THREAD_AREA"], Some (Handled (Value 0)));
   (["L_ARCH_PRCTL"], Some (Dispatch (SYS "LINUX_ARCH_PRCTL") args)); (["L_PRCTL"], Some (Handled (Value 0)));
   (["L_SYSLOG"], Some (Dispatch (SYS "SYS_SYSLOG") [a1; a2; 0; 0; 0; 0]));
   (["L_EPOLL_CREATE1"], Some (Handled (Value 3))); (["L_EPOLL_CTL"], Some (Handled (Value 0)));
   (["L_EPOLL_WAIT"; "L_EPOLL_PWAIT"], Some (Handled (Value 0)));
   (["L_EVENTFD2"], Some (Handled (Invoke sys_eventfd2 [a0; a1]))); (["L_SELECT"], Some (Handled (Value 0)));
   (["L_UNSHARE"], Some (Handled (Value 0))); (["L_MREMAP"], Some (Handled (Value FdSys.ERR_INVAL)));
   (["L_MINCORE"], Some (Handled (Value 0))); (["L_PTRACE"], Some (Handled (Value FdSys.ERR_INVAL)));
   (["L_TKILL"; "L_TGKILL"], Some (Handled (Value 0))); (["L_GET_RANDOM"], Some (Dispatch 114 args));
   (["L_GETRUSAGE"], Some (Handled (Value 0))); (["L_TIMES"], Some (Handled (Value 0)));
   (["L_DUP3"], Some (Dispatch (SYS "SYS_DUP2") [a0; a1; 0; 0; 0; 0])); (["L_BIND"], Some (Dispatch (SYS "SYS_BIND") args));
   (["L_ACCEPT"], Some (Dispatch (SYS "SYS_ACCEPT") [a0; 0; 0; 0; 0; 0]));
   (["L_SENDTO"], Some (Dispatch (SYS "SYS_SENDTO") args));
   (["L_RECVFROM"], Some (Dispatch (SYS "SYS_RECVFROM") [a0; a1; a2; 0; 0; 0]));
   (["L_SHUTDOWN"], Some (Dispatch (SYS "SYS_SHUTDOWN") [a0; a1; 0; 0; 0; 0]));
   (["L_SETSOCKOPT"; "L_GETSOCKOPT"; "L_SENDMSG"; "L_RECVMSG"], Some (Handled (Value 0)))].

Definition x86_64_arms : list (list string * option Translation) := x86_64_file_arms ++ x86_64_time_arms ++ x86_64_misc_arms.

Definition translate_x86_64 (id : Z) : option Translation :=
  if id =? 61 then Some (Dispatch 84 [a0; a1; a2; a3; 0; 0])
  else if existsb (Z.eqb id) KARTEOS_NATIVE_NUMBERS then None
  else if id =? 12 then None
  else first_arm x86_64_syscalls id x86_64_arms None.

Definition riscv_arms : list (list string * option Translation) :=
  [(["L_IOCTL"], Some (Handled (Value 0))); (["L_OPENAT"], Some translate_openat);
   (["L_CLOSE"], Some (Dispatch (SYS "SYS_CLOSE") args)); (["L_LSEEK"], Some (Handled (Value 0)));
   (["L_READ"], Some (Dispatch (SYS "SYS_READ") args)); (["L_WRITE"], Some (Dispatch (SYS "SYS_WRITE") args));
   (["L_FSTAT"], Some (Handled (Value 0))); (["L_EXIT"], Some (Dispatch (SYS "SYS_EXIT") args));
   (["L_EXIT_GROUP"], Some (Dispatch (SYS "SYS_EXIT") args)); (["L_SET_TID_ADDR"], Some (Handled (Value (i64 a0))));
   (["L_GETPID"], Some (Dispatch (SYS "SYS_GETPID") args)); (["L_BRK"], Some (Dispatch (SYS "SYS_BRK") args));
   (["L_MUNMAP"], Some (Dispatch 112 [a0; a1; 0; 0; 0; 0])); (["L_MMAP"], Some (Dispatch 110 args));
   (["L_MPROTECT"], Some (Dispatch 111 [a0; a1; a2; 0; 0; 0])); (["L_MADVISE"], Some (Dispatch 114 [a0; a1; a2; 0; 0; 0]));
   (["L_SOCKET"], Some (Dispatch (SYS "SYS_SOCKET") args)); (["L_BIND"], Some (Dispatch (SYS "SYS_BIND") args));
   (["L_CONNECT"], Some (Dispatch (SYS "SYS_CONNECT") args)); (["L_LISTEN"], Some (Dispatch (SYS "SYS_LISTEN") args));
   (["L_ACCEPT"], Some (Dispatch (SYS "SYS_ACCEPT") args)); (["L_SENDTO"], Some (Dispatch (SYS "SYS_SENDTO") args));
   (["L_RECVFROM"], Some (Dispatch (SYS "SYS_RECVFROM") args)); (["L_SHUTDOWN"], Some (Dispatch (SYS "SYS_SHUTDOWN") args))].

Definition translate_riscv (id : Z) : option Translation := first_arm riscv_syscalls id riscv_arms None.

Definition translate (x86 enabled : bool) (id : Z) : option Translation :=
  if enabled then if x86 then translate_x86_64 id else translate_riscv id else None.

(** What [dispatch] does to the machine before: the first call of all switches the timer on. *)
Inductive machine_op := enable_timer_interrupt | set_next_timer | unmask_external_irqs.

Definition first_call (x86 TIMER_ENABLED : bool) : list machine_op * bool :=
  if TIMER_ENABLED then ([], true)
  else ([enable_timer_interrupt; set_next_timer] ++ (if x86 then [unmask_external_irqs] else []), true).

(** The call that [dispatch] then makes. *)
Definition dispatch (x86 enabled : bool) (id : Z) : Call :=
  match translate x86 enabled id with
  | Some (Dispatch karte_nr args) => dispatch_inner args x86 karte_nr
  | Some (Handled c) => c
  | None => dispatch_inner args x86 id
  end.

End translate.
(** ** What the entries reach *)

(** The numbers of arms before the first binding, and whether there is one. *)
Fixpoint covered {A : Type} (consts : list (string * Z)) (arms : list (list string * A)) : list Z * option A :=
  match arms with
  | [] => ([], None)
  | (names, a) :: arms =>
      match mapM (fun n => lookup_const n consts) names with
      | None => ([], Some a)
      | Some ns => let '(rest, b) := covered consts arms in (ns ++ rest, b)
      end
  end.

Lemma mapM_matches (consts : list (string * Z)) (id : Z) (names : list string) (ns : list Z) :
  mapM (fun n => lookup_const n consts) names = Some ns →
  existsb (matches consts id) names = bool_decide (id ∈ ns).
Proof.
  revert ns. induction names as [|n names IH]; intros ns Hm.
  - injection Hm as <-. symmetry. apply bool_decide_eq_false_2. apply not_elem_of_nil.
  - cbn in Hm. destruct (lookup_const n consts) as [v|] eqn:E; [|done]. cbn in Hm.
    destruct (mapM _ names) as [ns'|]; [|done]. injection Hm as <-. cbn. unfold matches at 1. rewrite E, (IH ns') by done.
    destruct (Z.eqb_spec id v) as [->|Hne]; cbn; symmetry.
    + apply bool_decide_eq_true_2. by left.
    + apply bool_decide_ext. rewrite elem_of_cons. intuition.
Qed.

Lemma mapM_binds (consts : list (string * Z)) (id : Z) (names : list string) :
  mapM (fun n => lookup_const n consts) names = None → existsb (matches consts id) names = true.
Proof.
  induction names as [|n names IH]; [done|]. intros Hm. cbn in Hm |- *. unfold matches at 1.
  destruct (lookup_const n consts) as [v|]; [|done]. cbn in Hm. destruct (mapM _ names); [done|]. rewrite IH by done. apply orb_true_r.
Qed.

(** A number that no arm names goes to the binding, or to the last arm when there is none. *)
Lemma first_arm_uncovered {A : Type} (consts : list (string * Z)) (id : Z) (arms : list (list string * A)) (d : A) :
  id ∉ (covered consts arms).1 → first_arm consts id arms d = default d (covered consts arms).2.
Proof.
  induction arms as [|[names a] arms IH]; [done|]. cbn [covered first_arm]. 
  destruct (mapM _ names) as [ns|] eqn:Em.
  - destruct (covered consts arms) as [rest b]. cbn [fst snd]. intros [Hn Hr]%not_elem_of_app.
    rewrite (mapM_matches _ id _ ns), bool_decide_eq_false_2 by done. by apply IH.
  - intros _. by rewrite mapM_binds.
Qed.

(** The Linux numbers [translate_x86_64] knows. *)
Definition translated_numbers : list Z := (covered x86_64_syscalls (x86_64_arms (fun _ => 0) [])).1.

Lemma covered_x86 (um : Z → Z) (args : list Z) :
  covered x86_64_syscalls (x86_64_arms um args) = (translated_numbers, Some (Some (Dispatch 114 args))).
Proof. reflexivity. Qed.

Lemma first_arm_in {A : Type} (consts : list (string * Z)) (id : Z) (arms : list (list string * A)) (d : A) (P : A → Prop) :
  P d → Forall P (snd <$> arms) → P (first_arm consts id arms d).
Proof.
  intros Hd. induction arms as [|[names a] arms IH]; [done|]. intros [Ha Hr]%Forall_cons. cbn [first_arm]. case_match; auto.
Qed.

(** Case analysis on the members of a list of numbers. *)
Ltac each_number H := repeat (apply elem_of_cons in H as [->|H]); [..|by apply not_elem_of_nil in H].

Lemma translate_other (um : Z → Z) (args : list Z) (id : Z) :
  id ∉ translated_numbers → id ∉ KARTEOS_NATIVE_NUMBERS → id ≠ 12 → translate_x86_64 um args id = Some (Dispatch 114 args).
Proof.
  intros Ht Hn H12. unfold translate_x86_64.
  rewrite (proj2 (Z.eqb_neq id 61)) by (intros ->; apply Hn; apply (bool_decide_unpack _); vm_compute; exact I).
  destruct (existsb (Z.eqb id) KARTEOS_NATIVE_NUMBERS) eqn:E.
  { apply existsb_exists in E as (x & Hx & <-%Z.eqb_eq). by apply list_elem_of_In in Hx. }
  rewrite (proj2 (Z.eqb_neq id 12)) by done. by rewrite first_arm_uncovered; rewrite covered_x86.
Qed.

Definition is_madvise (c : Call) : bool := match c with Invoke linux_madvise _ => true | _ => false end.
Definition is_getrandom (c : Call) : bool := match c with Invoke linux_getrandom _ => true | _ => false end.

Lemma inner_not_getrandom (args : list Z) (x86 : bool) (id : Z) (l : list Z) :
  dispatch_inner args x86 id ≠ Invoke linux_getrandom l.
Proof.
  unfold dispatch_inner. destruct (decide (id ∈ (covered native_syscalls (native_arms args x86)).1)) as [Hin|Hout].
  - vm_compute in Hin. each_number Hin; intros E%(f_equal is_getrandom);
      first [change (false = true) in E; discriminate E | destruct x86; change (false = true) in E; discriminate E].
  - rewrite first_arm_uncovered by done. discriminate.
Qed.

Definition not_handled_getrandom (t : option Translation) : Prop :=
  match t with Some (Handled (Invoke linux_getrandom _)) => False | _ => True end.

Lemma openat_not_getrandom (um : Z → Z) (args : list Z) : not_handled_getrandom (Some (translate_openat um args)).
Proof. unfold translate_openat. by destruct (_ =? 0). Qed.

Lemma translate_not_getrandom (um : Z → Z) (args : list Z) (x86 enabled : bool) (id : Z) :
  not_handled_getrandom (translate um args x86 enabled id).
Proof.
  unfold translate. destruct enabled, x86; try done.
  - unfold translate_x86_64. repeat case_match; try done. apply first_arm_in; [done|].
    repeat (apply Forall_cons; split; [|]); first [exact I | apply Forall_nil_2 | apply openat_not_getrandom].
  - unfold translate_riscv. apply first_arm_in; [done|].
    repeat (apply Forall_cons; split; [|]); first [exact I | apply Forall_nil_2 | apply openat_not_getrandom].
Qed.

(** The arm for getrandom in the translation names a constant that does not exist, so it
    matches every number left. With the layer on, every number that is not one
    of the arms before it, not a native number of the guard and not 12 is executed as
    madvise with its arguments: among them the native calls ioctl, syslog and
    setpriority, and the Linux numbers of accept, sendto, recvfrom, shutdown, bind,
    getrusage, times, dup3 and getrandom, whose own arms come later. Linux brk is
    refused, and no number reaches getrandom in any configuration. *)
Theorem unlisted_numbers_become_madvise (um : Z → Z) (args : list Z) :
  (∀ id, id ∉ translated_numbers → id ∉ KARTEOS_NATIVE_NUMBERS → id ≠ 12 →
     dispatch um args true true id = Invoke linux_madvise [args !!! 0%nat; args !!! 1%nat; args !!! 2%nat]) ∧
  (∀ id, id ∈ [80; 81; 82; 43; 44; 45; 46; 47; 48; 49; 54; 55; 98; 100; 292; 318] →
     dispatch um args true true id = Invoke linux_madvise [args !!! 0%nat; args !!! 1%nat; args !!! 2%nat] ∧
     dispatch um args true false id ≠ dispatch um args true true id) ∧
  dispatch um args true true 12 = Value FdSys.ERR_INVAL ∧
  (∀ x86 enabled id l, dispatch um args x86 enabled id ≠ Invoke linux_getrandom l).
Proof.
  split; [|split; [|split]].
  - intros id Ht Hn H12. unfold dispatch, translate. by rewrite translate_other.
  - intros id Hid. each_number Hid; (split; [reflexivity|]); intros E%(f_equal is_madvise); change (false = true) in E; discriminate E.
  - reflexivity.
  - intros x86 enabled id l. unfold dispatch. pose proof (translate_not_getrandom um args x86 enabled id) as Ht.
    destruct (translate um args x86 enabled id) as [[nr args'|c]|]; [apply inner_not_getrandom| |apply inner_not_getrandom].
    by intros ->.
Qed.

(** The Linux numbers with the same meaning on both ways into the kernel. *)
Definition agreed_numbers : list Z :=
  [9; 13; 14; 15; 21; 22; 23; 24; 25; 27; 28; 35; 39; 57; 83; 87; 96; 97; 101; 102; 104; 107; 108; 131; 157; 158; 186; 200;
   201; 202; 218; 228; 234; 272; 273; 274; 290; 302; 334].

Lemma number_arm_uncovered {A : Type} (id : Z) (arms : list (Z * A)) (d : A) : id ∉ arms.*1 → number_arm id arms d = d.
Proof.
  induction arms as [|[n a] arms IH]; [done|]. cbn. intros [Hn Hr]%not_elem_of_cons.
  by rewrite (proj2 (Z.eqb_neq _ _) Hn), IH.
Qed.

(** C30: the two ways into the kernel. With the compatibility layer on, a Linux call number does the
    same through int 0x80 as through the syscall instruction, for all arguments, exactly when it
    is one of 39 numbers. *)
Theorem entries_agree_on (nr : Z) :
  (∀ um args, dispatch um args true true nr = dispatch_linux_syscall um args nr) ↔ nr ∈ agreed_numbers.
Proof.
  split.
  - intros Heq. specialize (Heq (fun _ => 0) [101; 102; 103; 104; 105; 106]).
    destruct (decide (nr ∈ translated_numbers ++ KARTEOS_NATIVE_NUMBERS ++ 12 :: (linux_arms (fun _ => 0) []).*1)) as [Hin|Hout].
    + destruct (decide (nr ∈ agreed_numbers)) as [|Hn]; [done|]. exfalso. revert Hn Heq. vm_compute in Hin.
      each_number Hin; intros Hn Heq; first [apply Hn; apply (bool_decide_unpack _); vm_compute; exact I | vm_compute in Heq; discriminate Heq].
    + apply not_elem_of_app in Hout as [Ht Hout]. apply not_elem_of_app in Hout as [Hn Hout].
      apply not_elem_of_cons in Hout as [H12 Hl]. exfalso. revert Heq. unfold dispatch, translate. rewrite translate_other by done.
      unfold dispatch_linux_syscall. rewrite number_arm_uncovered by done. discriminate.
  - intros Hin um args. each_number Hin; reflexivity.
Qed.

End Entry.
