(* ===== verification/Services.v ===== *)
(** Services: the tokens of kernel/src/capauth.rs, the leader election of arbiter.rs, the model
    table and block pool of model.rs and the interpreter of wasm.rs. *)

From stdpp Require Import base numbers list strings sets gmap.
From Stdlib Require Import ZArith Lia.
From S2P Require Import Prelude Vfs BTree.
Local Open Scope Z_scope.
Local Open Scope rust_scope.

Module CapAuth.
Import Path.

Record CapToken := mkToken {
  token_id : Z;
  device_id : str;
  tool_name : str;
  perm_bits : Z;
  issued_ms : Z;
  expires_ms : Z
}.

Inductive VerifyResult := VOk | NoToken | Expired | Revoked | PermDenied.

Record TokenManager := mkManager { tokens : list CapToken; revoked : list Z; next_id : Z }.

Definition new : TokenManager := mkManager [] [] 1.

Definition issue (m : TokenManager) (dev tool : str) (perm now ttl : Z) : Z * TokenManager :=
  let id := next_id m in
  (id, mkManager (tokens m ++ [mkToken id dev tool perm now (now +! ttl)]) (revoked m) (next_id m +! 1)).

Definition verify (m : TokenManager) (id : Z) (dev tool : str) (need now : Z) : VerifyResult :=
  match find_first (fun t => token_id t =? id) (tokens m) with
  | None => NoToken
  | Some t =>
      if expires_ms t <=? now then Expired
      else if bool_decide (id ∈ revoked m) then Revoked
      else if bool_decide (device_id t ≠ dev) || bool_decide (tool_name t ≠ tool) then NoToken
      else if negb (Z.land (perm_bits t) need =? need) then PermDenied
      else VOk
  end.

Definition revoke (m : TokenManager) (id : Z) : bool * TokenManager :=
  if bool_decide (id ∈ revoked m) then (false, m)
  else (true, mkManager (tokens m) (revoked m ++ [id]) (next_id m)).

Definition sweep (m : TokenManager) (now : Z) : Z * TokenManager :=
  let kept := filter (fun t => now < expires_ms t) (tokens m) in
  (Z.of_nat (length (tokens m)) - Z.of_nat (length kept), mkManager kept (revoked m) (next_id m)).

(** ** Registration *)

Fixpoint fnv_loop (h : Z) (data : list Z) : Z :=
  match data with
  | [] => h
  | b :: data => fnv_loop (Z.lxor h b *! 0x100000001b3) data
  end.

Definition fnv1a64 (data : list Z) : Z := fnv_loop 0xcbf29ce484222325 data.

Definition registration_key (dev : str) : option str :=
  if decide (dev = bytes "vfs0") then Some (bytes "kartevfs0key")
  else if decide (dev = bytes "timer0") then Some (bytes "kartetimer0key")
  else if decide (dev = bytes "gpio0") then Some (bytes "kartegpio0key")
  else None.

Definition manifest_hash (dev key : str) : Z := fnv1a64 (dev ++ [0] ++ key).

Definition verify_manifest (dev : str) (claimed_hash : Z) : bool :=
  match registration_key dev with
  | None => false
  | Some key => manifest_hash dev key =? claimed_hash
  end.

(** ** Histories *)

Inductive op :=
| Issue (dev tool : str) (perm now ttl : Z)
| Revoke (id : Z)
| Sweep (now : Z).

#[global] Instance op_eq_dec : EqDecision op.
Proof. solve_decision. Defined.

Definition apply (m : TokenManager) (o : op) : TokenManager :=
  match o with
  | Issue dev tool perm now ttl => (issue m dev tool perm now ttl).2
  | Revoke id => (revoke m id).2
  | Sweep now => (sweep m now).2
  end.

Definition run (ops : list op) : TokenManager := foldl apply new ops.

Definition is_issue (o : op) : bool := match o with Issue _ _ _ _ _ => true | _ => false end.
Definition issues (ops : list op) : Z := Z.of_nat (length (List.filter is_issue ops)).

(** Times do not leave 64 bits. *)
Definition timely (o : op) : Prop :=
  match o with Issue _ _ _ now ttl => 0 <= now + ttl < 2 ^ 64 | _ => True end.

(** [tok] was given out by operation [i] and has not been swept since. *)
Definition live (ops : list op) (tok : CapToken) : Prop :=
  ∃ (i : nat) dev tool perm now ttl, ops !! i = Some (Issue dev tool perm now ttl) ∧
    tok = mkToken (1 + issues (take i ops)) dev tool perm now (now + ttl) ∧
    ∀ j s, (i < j)%nat → ops !! j = Some (Sweep s) → s < now + ttl.

Lemma issues_app (xs ys : list op) : issues (xs ++ ys) = issues xs + issues ys.
Proof. unfold issues. rewrite List.filter_app, length_app. lia. Qed.

Lemma issues_take (ops : list op) (i : nat) (o : op) : ops !! i = Some o → is_issue o = true →
  issues (take i ops) < issues ops.
Proof.
  intros Hi Ho. rewrite <- (take_drop_middle ops i o Hi) at 2. rewrite issues_app. unfold issues at 3. cbn. rewrite Ho. cbn. lia.
Qed.

(** The manager holds exactly the live tokens, with distinct numbers below the next one. *)
Definition tracks (ops : list op) (m : TokenManager) : Prop :=
  next_id m = 1 + issues ops ∧ (∀ x, x ∈ revoked m ↔ Revoke x ∈ ops) ∧
  (∀ tok, tok ∈ tokens m ↔ live ops tok).

Lemma live_app (ops : list op) (o : op) (tok : CapToken) :
  live (ops ++ [o]) tok ↔
  match o with
  | Issue dev tool perm now ttl => live ops tok ∨ tok = mkToken (1 + issues ops) dev tool perm now (now + ttl)
  | Revoke _ => live ops tok
  | Sweep s => live ops tok ∧ s < expires_ms tok
  end.
Proof.
  assert (∀ i x, (ops ++ [o]) !! i = Some x ↔ ops !! i = Some x ∨ i = length ops ∧ x = o) as Hlook.
  { intros i x. rewrite lookup_app_Some. split.
    - intros [?|[Hl Hx]]; [by left|]. apply list_lookup_singleton_Some in Hx as [Hz <-]. right. split; [lia|done].
    - intros [?|[-> ->]]; [by left|]. right. split; [lia|]. by rewrite Nat.sub_diag. }
  assert (∀ i x, ops !! i = Some x → take i (ops ++ [o]) = take i ops) as Htake.
  { intros i x Hi. apply take_app_le. apply lookup_lt_Some in Hi. lia. }
  split.
  - intros (i & dev & tool & perm & now & ttl & [Hi|[-> Hi]]%Hlook & -> & Hs).
    + rewrite (Htake _ _ Hi). pose proof (lookup_lt_Some _ _ _ Hi) as Hlt.
      assert (live ops (mkToken (1 + issues (take i ops)) dev tool perm now (now + ttl))) as Hlive.
      { exists i, dev, tool, perm, now, ttl. split; [done|]. split; [done|]. intros j s Hj Hjs. apply (Hs j s Hj). apply Hlook. by left. }
      destruct o as [| |s]; [by left|done|]. split; [done|]. cbn. apply (Hs (length ops) s); [done|]. apply Hlook. by right.
    + subst o. right. by rewrite take_app_length.
  - assert (live ops tok → (∀ s, o = Sweep s → s < expires_ms tok) → live (ops ++ [o]) tok) as Hkeep.
    { intros (i & dev & tool & perm & now & ttl & Hi & -> & Hs) Ho. exists i, dev, tool, perm, now, ttl.
      split; [apply Hlook; by left|]. rewrite (Htake _ _ Hi). split; [done|].
      intros j s Hj [Hjs|[-> Hjs]]%Hlook; [by apply (Hs j)|]. by apply (Ho s). }
    destruct o as [dev tool perm now ttl| |s].
    + intros [Hl| ->]; [by apply Hkeep|]. exists (length ops), dev, tool, perm, now, ttl.
      split; [apply Hlook; by right|]. rewrite take_app_length. split; [done|].
      intros j s Hj [Hjs|[-> _]]%Hlook; [|lia]. apply lookup_lt_Some in Hjs. lia.
    + intros Hl. by apply Hkeep.
    + intros [Hl Hs]. apply Hkeep; [done|]. by intros s' [= <-].
Qed.

Lemma run_tracks (ops : list op) : Forall timely ops → issues ops < 2 ^ 64 - 1 → tracks ops (run ops).
Proof.
  induction ops as [|o ops IH] using rev_ind; intros Ht Hn.
  { split; [done|]. split; [intros x; cbn; by rewrite !elem_of_nil|]. intros tok. cbn. rewrite elem_of_nil.
    split; [done|]. by intros (i & ? & ? & ? & ? & ? & ? & _). }
  apply Forall_app in Ht as [Ht Ho]. apply Forall_cons in Ho as [Ho _]. rewrite issues_app in Hn.
  assert (0 <= issues ops ∧ 0 <= issues [o]) as [H0 H1] by (unfold issues; lia).
  destruct (IH Ht ltac:(lia)) as (Hid & Hrev & Htok). unfold run. rewrite foldl_app. cbn [foldl]. fold (run ops).
  split; [|split].
  - rewrite issues_app. destruct o; cbn [apply]; unfold issue, revoke, sweep.
    + change (issues [_]) with 1 in *. cbn [snd next_id]. rewrite Hid, u64_small by lia. lia.
    + change (issues [_]) with 0. case_match; cbn [snd next_id]; lia.
    + change (issues [_]) with 0. cbn [snd next_id]. lia.
  - intros x. rewrite elem_of_app, list_elem_of_singleton, <- Hrev. destruct o as [|y|]; cbn [apply]; unfold issue, revoke, sweep.
    + cbn [snd revoked]. intuition congruence.
    + case_bool_decide as Hy; cbn [snd revoked].
      * split; [tauto|]. intros [?|[= ->]]; done.
      * rewrite elem_of_app, list_elem_of_singleton. intuition congruence.
    + cbn [snd revoked]. intuition congruence.
  - intros tok. rewrite live_app. destruct o as [dev tool perm now ttl|x|now]; cbn [apply]; rewrite <- Htok; unfold issue, revoke, sweep.
    + cbn [snd tokens]. rewrite elem_of_app, list_elem_of_singleton, Hid. cbn [timely] in Ho. by rewrite (u64_small (now + ttl)) by lia.
    + by case_bool_decide.
    + cbn [snd tokens]. rewrite list_elem_of_filter. tauto.
Qed.

Lemma live_unique (ops : list op) (t1 t2 : CapToken) : live ops t1 → live ops t2 → token_id t1 = token_id t2 → t1 = t2.
Proof.
  intros (i & d1 & to1 & p1 & n1 & l1 & Hi & -> & _) (j & d2 & to2 & p2 & n2 & l2 & Hj & -> & _). cbn. intros He.
  assert (∀ a b o, (a < b)%nat → ops !! a = Some o → is_issue o = true → (b < length ops)%nat → issues (take a ops) < issues (take b ops)) as Hlt.
  { intros a b o Hab Ha Ho Hb. assert (take a ops = take a (take b ops)) as -> by (rewrite take_take; f_equal; lia). apply (issues_take _ _ o); [|done].
    by rewrite lookup_take_lt. }
  pose proof (lookup_lt_Some _ _ _ Hi). pose proof (lookup_lt_Some _ _ _ Hj).
  destruct (lt_eq_lt_dec i j) as [[Hl|Heq]|Hg].
  - specialize (Hlt i j _ Hl Hi eq_refl ltac:(lia)). lia.
  - subst j. rewrite Hi in Hj. by injection Hj as <- <- <- <- <-.
  - specialize (Hlt j i _ Hg Hj eq_refl ltac:(lia)). lia.
Qed.

(** Tokens. After any history, a token passes the check for a device, a tool, a set of permissions and
    a time exactly when it was issued for that device and tool with at least these permissions, has not
    expired, was never revoked, not even before it was issued, and no clean-up with a later clock
    removed it. In particular revocation is final, and a clock that goes back does not
    revive a removed token. *)
Theorem token_accepted_iff (ops : list op) (id need now : Z) (dev tool : str) :
  Forall timely ops → issues ops < 2 ^ 64 - 1 →
  (verify (run ops) id dev tool need now = VOk) ↔
  ∃ (i : nat) perm t ttl, ops !! i = Some (Issue dev tool perm t ttl) ∧ id = 1 + issues (take i ops) ∧
    now < t + ttl ∧ (Revoke id ∉ ops) ∧ Z.land perm need = need ∧
    (∀ j s, (i < j)%nat → ops !! j = Some (Sweep s) → s < t + ttl).
Proof.
  intros Ht Hn. destruct (run_tracks ops Ht Hn) as (_ & Hrev & Htok). unfold verify. split.
  - destruct (find_first _ (tokens (run ops))) as [tok|] eqn:E; [|done]. apply find_first_Some in E as (l1 & l2 & Hk & Hid & _).
    apply Z.eqb_eq in Hid. assert (live ops tok) as Hl by (apply Htok; rewrite Hk; apply elem_of_app; right; left).
    destruct Hl as (i & dev' & tool' & perm & t & ttl & Hi & -> & Hs). cbn [token_id device_id tool_name perm_bits expires_ms] in *.
    destruct (Z.leb_spec (t + ttl) now); [done|]. case_bool_decide as Hr; [done|].
    case_bool_decide as Hd; [done|]. case_bool_decide as Hto; [done|]. subst dev' tool'.
    destruct (Z.eqb_spec (Z.land perm need) need) as [Hp|]; [|done]. intros _.
    exists i, perm, t, ttl. rewrite Hrev in Hr. splits; (done || lia).
  - intros (i & perm & t & ttl & Hi & -> & Hnow & Hr & Hp & Hs).
    set (tok := mkToken (1 + issues (take i ops)) dev tool perm t (t + ttl)).
    assert (live ops tok) as Hl by (by exists i, dev, tool, perm, t, ttl).
    destruct (find_first _ (tokens (run ops))) as [tok'|] eqn:E.
    + apply find_first_Some in E as (l1 & l2 & Hk & Hid & _). apply Z.eqb_eq in Hid.
      assert (live ops tok') as Hl' by (apply Htok; rewrite Hk; apply elem_of_app; right; left).
      rewrite (live_unique ops tok' tok Hl' Hl Hid). cbn [expires_ms device_id tool_name perm_bits tok].
      rewrite (proj2 (Z.leb_gt _ _)), bool_decide_eq_false_2 by (done || (by rewrite Hrev)).
      rewrite !bool_decide_eq_false_2 by tauto. by rewrite (proj2 (Z.eqb_eq _ _) Hp).
    + exfalso. apply Htok in Hl. rewrite find_first_None in E. eapply Forall_forall in E; [|exact Hl]. cbn in E.
      by rewrite Z.eqb_refl in E.
Qed.

Lemma token_accepted_iff_witness :
  let ops := [Issue (bytes "gpio0") (bytes "write") 2 1000 5000; Sweep 3000; Revoke 7] in
  verify (run ops) 1 (bytes "gpio0") (bytes "write") 2 2000 = VOk.
Proof.
  intros ops. apply token_accepted_iff; [by repeat constructor|done|].
  exists 0%nat, 2, 1000, 5000. split; [done|]. split; [done|]. split; [done|]. split.
  - apply (bool_decide_unpack _). reflexivity.
  - split; [done|]. intros [|[|[|j]]] s Hj Hs; try discriminate. injection Hs as <-. lia.
Defined.

(** ** The hash *)

Definition PRIME : Z := 0x100000001b3.

Lemma times_prime_inj (x y : Z) : is_u64 x → is_u64 y → x *! PRIME = y *! PRIME → x = y.
Proof.
  unfold is_u64, u64, wrap. intros Hx Hy He.
  assert (∀ z, (z * PRIME mod 2 ^ 64) * 14886173955864302971 mod 2 ^ 64 = z mod 2 ^ 64) as Hinv.
  { intros z. rewrite Zmult_mod_idemp_l, <- Z.mul_assoc.
    rewrite <- (Zmult_mod_idemp_r (PRIME * _)). replace (PRIME * 14886173955864302971 mod 2 ^ 64) with 1 by reflexivity. by rewrite Z.mul_1_r. }
  rewrite <- (Z.mod_small x (2 ^ 64)), <- (Z.mod_small y (2 ^ 64)) by lia. by rewrite <- (Hinv x), <- (Hinv y), He.
Qed.

Lemma xor_byte_u64 (h b : Z) : is_u64 h → is_byte b → is_u64 (Z.lxor h b).
Proof.
  unfold is_u64, is_byte. intros Hh Hb. split; [apply Z.lxor_nonneg; lia|].
  destruct (decide (Z.lxor h b = 0)) as [->|Hne]; [lia|]. assert (0 <= Z.lxor h b) by (apply Z.lxor_nonneg; lia).
  apply Z.log2_lt_pow2; [lia|]. eapply Z.le_lt_trans; [apply Z.log2_lxor; lia|]. apply Z.max_lub_lt.
  - destruct (decide (h = 0)) as [->|]; [cbn; lia|]. apply Z.log2_lt_pow2; lia.
  - destruct (decide (b = 0)) as [->|]; [cbn; lia|]. apply Z.log2_lt_pow2; lia.
Qed.

Lemma fnv_loop_inj (data : list Z) : ∀ h h', Forall is_byte data → is_u64 h → is_u64 h' →
  fnv_loop h data = fnv_loop h' data → h = h'.
Proof.
  induction data as [|b data IH]; intros h h' Hd Hh Hh'; [done|]. apply Forall_cons in Hd as [Hb Hd]. cbn [fnv_loop].
  intros He. apply IH in He; [|done|apply u64_range|apply u64_range]. apply times_prime_inj in He; [|by apply xor_byte_u64..].
  apply (f_equal (fun z => Z.lxor z b)) in He. by rewrite !Z.lxor_assoc, Z.lxor_nilpotent, !Z.lxor_0_r in He.
Qed.

Lemma fnv_loop_app (h : Z) (xs ys : list Z) : fnv_loop h (xs ++ ys) = fnv_loop (fnv_loop h xs) ys.
Proof. revert h. induction xs as [|x xs IH]; intros h; [done|]. apply IH. Qed.

Lemma fnv_loop_u64 (data : list Z) : ∀ h, is_u64 h → is_u64 (fnv_loop h data).
Proof. induction data as [|b data IH]; intros h Hh; [done|]. apply IH, u64_range. Qed.

Lemma fnv_one_byte (a c : list Z) (x y : Z) : Forall is_byte c → is_byte x → is_byte y → x ≠ y →
  fnv1a64 (a ++ x :: c) ≠ fnv1a64 (a ++ y :: c).
Proof.
  intros Hc Hx Hy Hne. unfold fnv1a64. rewrite !fnv_loop_app. cbn [fnv_loop]. set (h := fnv_loop _ a).
  assert (is_u64 h) as Hh by (by apply fnv_loop_u64). intros He. apply fnv_loop_inj in He; [|done|apply u64_range|apply u64_range].
  apply times_prime_inj in He; [|by apply xor_byte_u64..]. apply (f_equal (Z.lxor h)) in He.
  by rewrite <- !Z.lxor_assoc, Z.lxor_nilpotent, !Z.lxor_0_l in He.
Qed.

(** Registration. A device is accepted exactly when it is one of the three known ones and claims the hash of
    its name and key; a claim made with a key that differs from the right one in one byte, anywhere,
    is refused. *)
Theorem manifest_refuses_one_byte (dev : str) (a c : list Z) (x : Z) (h : Z) :
  registration_key dev = Some (a ++ x :: c) →
  (verify_manifest dev h = true ↔ h = manifest_hash dev (a ++ x :: c)) ∧
  (∀ y, is_byte y → y ≠ x → verify_manifest dev (manifest_hash dev (a ++ y :: c)) = false) ∧
  (∀ dev', dev' ∉ [bytes "vfs0"; bytes "timer0"; bytes "gpio0"] → verify_manifest dev' h = false).
Proof.
  intros Hk. split; [|split].
  - unfold verify_manifest. rewrite Hk, Z.eqb_eq. done.
  - intros y Hy Hne. unfold verify_manifest. rewrite Hk. apply Z.eqb_neq. unfold manifest_hash. rewrite !app_assoc.
    assert (Forall is_byte (a ++ x :: c)) as Hb.
    { unfold registration_key in Hk. repeat (case_decide; [injection Hk as <-; by repeat constructor|]). done. }
    apply Forall_app in Hb as [_ Hb]. apply Forall_cons in Hb as [Hx Hc]. by apply fnv_one_byte.
  - intros dev' Hd. unfold verify_manifest, registration_key. rewrite !not_elem_of_cons in Hd.
    by rewrite !decide_False by tauto.
Qed.

Lemma manifest_refuses_one_byte_witness :
  verify_manifest (bytes "gpio0") (manifest_hash (bytes "gpio0") (bytes "kartegpio0kez")) = false.
Proof.
  destruct (manifest_refuses_one_byte (bytes "gpio0") (bytes "kartegpio0ke") [] 121 0 eq_refl) as (_ & Hy & _).
  by apply (Hy 122).
Defined.

End CapAuth.

Module Arbiter.

(** The verbs. *)
Inductive verb := ARB_ELECT | ARB_VICTORY | ARB_HEARTBEAT.

Definition LEASE_TIMEOUT_MS : Z := 3000.

Inductive Role := Follower | Candidate | Leader.

Record Arbiter := mkArbiter {
  self_id : nat;
  self_priority : Z;
  role : Role;
  leader_id : option nat;
  term : Z;
  last_heartbeat_ms : Z;
  votes : list (nat * nat);
  elections : Z
}.

Definition new (id : nat) (priority : Z) : Arbiter := mkArbiter id priority Follower None 0 0 [] 0.

Definition start_election (a : Arbiter) (now : Z) : option verb * Arbiter :=
  (Some ARB_ELECT,
   mkArbiter (self_id a) (self_priority a) Candidate None (u32 (term a + 1)) (last_heartbeat_ms a)
     (BTree.insert (self_id a) (self_id a) []) (u32 (elections a + 1))).

(** [self.votes.values().filter(|&&v| v == cand).count()] *)
Definition votes_for (vs : list (nat * nat)) (cand : nat) : Z :=
  Z.of_nat (length (List.filter (fun v => (v.2 =? cand)%nat) vs)).

(** One round of the loop over the votes. *)
Definition better (vs : list (nat * nat)) (best : option (Z * nat)) (cand : nat) : option (Z * nat) :=
  let c := match best with Some (n, _) => n | None => 0 end in
  let n := votes_for vs cand in
  if (c <? n) || ((n =? c) && match best with Some (_, id) => (id <? cand)%nat | None => true end)
  then Some (n, cand) else best.

Definition is_candidate (r : Role) : bool := match r with Candidate => true | _ => false end.

Definition resolve (a : Arbiter) (now : Z) : option verb * Arbiter :=
  if negb (is_candidate (role a)) then (None, a)
  else
    match foldl (better (votes a)) None (votes a).*2 with
    | Some (n, cand) =>
        if 2 <=? n then
          (Some ARB_VICTORY,
           mkArbiter (self_id a) (self_priority a) (if (cand =? self_id a)%nat then Leader else Follower) (Some cand) (term a)
             (last_heartbeat_ms a) (votes a) (elections a))
        else (None, a)
    | None => (None, a)
    end.

Definition tick (a : Arbiter) (now : Z) : option verb * Arbiter :=
  match role a with
  | Follower =>
      if bool_decide (is_Some (leader_id a)) && (LEASE_TIMEOUT_MS <? saturating_sub now (last_heartbeat_ms a))
      then start_election a now else (None, a)
  | Candidate => resolve a now
  | Leader => (Some ARB_HEARTBEAT, a)
  end.

Definition vote (a : Arbiter) (cand : nat) : Arbiter :=
  mkArbiter (self_id a) (self_priority a) (role a) (leader_id a) (term a) (last_heartbeat_ms a)
    (BTree.insert (self_id a) cand (votes a)) (elections a).

Definition on_elect (a : Arbiter) (candidate_id : nat) (candidate_priority now : Z) : option verb * Arbiter :=
  if self_priority a <? candidate_priority then (None, vote a candidate_id)
  else if candidate_priority <? self_priority a then start_election a now
  else if (self_id a <? candidate_id)%nat then (None, vote a candidate_id)
  else (None, (start_election a now).2).

Definition on_heartbeat (a : Arbiter) (leader : nat) (now : Z) : Arbiter :=
  mkArbiter (self_id a) (self_priority a) (if is_candidate (role a) then Follower else role a) (Some leader) (term a) now
    (votes a) (elections a).

Definition on_victory (a : Arbiter) (leader : nat) : Arbiter :=
  mkArbiter (self_id a) (self_priority a) (if (leader =? self_id a)%nat then Leader else Follower) (Some leader) (term a)
    (last_heartbeat_ms a) [] (elections a).

Definition simulate_leader_failure (a : Arbiter) (now : Z) : option verb * Arbiter :=
  tick (mkArbiter (self_id a) (self_priority a) (role a) (leader_id a) (term a)
          (saturating_sub now (LEASE_TIMEOUT_MS + 1)) (votes a) (elections a)) now.

(** ** Counting *)

(** The order of the loop: more votes first, then the larger number. *)
Definition beats (vs : list (nat * nat)) (c d : nat) : Prop :=
  votes_for vs d < votes_for vs c ∨ votes_for vs d = votes_for vs c ∧ (d <= c)%nat.

Lemma votes_for_pos (vs : list (nat * nat)) (c : nat) : c ∈ vs.*2 → 1 <= votes_for vs c.
Proof.
  unfold votes_for. induction vs as [|[k v] vs IH]; cbn [fmap list_fmap]; [by intros ?%elem_of_nil|].
  intros [->|Hin]%elem_of_cons; cbn.
  - rewrite Nat.eqb_refl. cbn. lia.
  - specialize (IH Hin). destruct (v =? c)%nat; cbn; lia.
Qed.

Lemma count_best (vs : list (nat * nat)) (cs : list nat) : ∀ best,
  (∀ n c, best = Some (n, c) → n = votes_for vs c ∧ 1 <= n) → (∀ c, c ∈ cs → 1 <= votes_for vs c) →
  match foldl (better vs) best cs with
  | None => best = None ∧ cs = []
  | Some (n, c) => n = votes_for vs c ∧ 1 <= n ∧ (best = Some (n, c) ∨ c ∈ cs) ∧ (∀ d, d ∈ cs → beats vs c d) ∧
      (∀ m d, best = Some (m, d) → beats vs c d)
  end.
Proof.
  induction cs as [|x cs IH]; intros best Hb Hc; cbn [foldl].
  { destruct best as [[n c]|]; [|done]. destruct (Hb n c eq_refl). splits; [done|done|by left| |].
    - by intros d ?%elem_of_nil.
    - intros m d [= <- <-]. right. lia. }
  assert (1 <= votes_for vs x) as Hx by (apply Hc; left).
  assert (∀ n c, better vs best x = Some (n, c) → n = votes_for vs c ∧ 1 <= n) as Hb'.
  { intros n c. unfold better. destruct best as [[m d]|].
    - case_match; intros [= <- <-]; [done|by apply Hb].
    - case_match; intros [= <- <-]; done. }
  specialize (IH (better vs best x) Hb' ltac:(intros c Hcs; apply Hc; by right)).
  assert (∃ n c, better vs best x = Some (n, c) ∧ beats vs c x ∧ (best = Some (n, c) ∨ c = x) ∧ ∀ m d, best = Some (m, d) → beats vs c d)
    as (n & c & Hbx & Hcx & Hfrom & Hbest).
  { unfold better, beats. destruct best as [[m d]|].
    - destruct (Hb m d eq_refl) as [-> Hm].
      destruct (Z.ltb_spec (votes_for vs d) (votes_for vs x)), (Z.eqb_spec (votes_for vs x) (votes_for vs d)), (Nat.ltb_spec d x);
        cbn [orb andb]; eexists _, _; (split; [reflexivity|]); splits; try (by left); try (by right); try lia;
        intros ? ? [= <- <-]; lia.
    - rewrite (proj2 (Z.ltb_lt 0 _)) by lia. cbn [orb]. eexists _, _. split; [done|]. splits; [lia|by right|done]. }
  rewrite Hbx in *. destruct (foldl (better vs) (Some (n, c)) cs) as [[n' c']|]; [|by destruct IH].
  destruct IH as (Hn' & Hn1 & Hin & Hall & Hprev). specialize (Hprev n c eq_refl).
  assert (∀ d, beats vs c d → beats vs c' d) as Htrans by (unfold beats in *; intros d Hd; lia).
  splits; [done|done| | |].
  - destruct Hin as [[= <- <-]|Hin]; [|right; by right]. destruct Hfrom as [?| ->]; [by left|right; left].
  - intros d [->|Hd]%elem_of_cons; [by apply Htrans|by apply Hall].
  - intros m d Hd. apply Htrans. by apply (Hbest m d).
Qed.

(** Counting the votes. A candidate elects the one with the most votes, the larger number on a tie, when that is at least
    two votes, and becomes leader if that is itself and follower if not; otherwise nothing changes. Other roles
    do not count. *)
Theorem resolve_elects_majority (a : Arbiter) (now : Z) : role a = Candidate →
  (∀ v a', resolve a now = (Some v, a') → v = ARB_VICTORY ∧ ∃ c, leader_id a' = Some c ∧ c ∈ (votes a).*2 ∧ 2 <= votes_for (votes a) c ∧
     (∀ d, d ∈ (votes a).*2 → beats (votes a) c d) ∧ (role a' = Leader ↔ c = self_id a) ∧ role a' ≠ Candidate) ∧
  ((resolve a now = (None, a)) ↔ ∀ d, votes_for (votes a) d < 2).
Proof.
  intros Hr. unfold resolve. rewrite Hr. cbn [is_candidate negb].
  pose proof (count_best (votes a) (votes a).*2 None ltac:(done) (votes_for_pos (votes a))) as Hc.
  assert (∀ d, 1 <= votes_for (votes a) d → d ∈ (votes a).*2) as Hin.
  { intros d. unfold votes_for. clear. induction (votes a) as [|[k v] vs IH]; cbn; [lia|].
    destruct (Nat.eqb_spec v d) as [->|]; [intros _; left|]. intros Hd. right. by apply IH. }
  destruct (foldl (better (votes a)) None (votes a).*2) as [[n c]|].
  - destruct Hc as (-> & Hn & [?|Hcin] & Hall & _); [done|]. destruct (Z.leb_spec 2 (votes_for (votes a) c)) as [H2|H2]; split.
    + intros v a' [= <- <-]. split; [done|]. exists c. cbn [leader_id role]. splits; [done..| |].
      * destruct (Nat.eqb_spec c (self_id a)); split; done.
      * by destruct (c =? self_id a)%nat.
    + split; [done|]. intros Hd. specialize (Hd c). lia.
    + done.
    + split; [|done]. intros _ d. destruct (decide (1 <= votes_for (votes a) d)) as [Hd|]; [|lia].
      destruct (Hall d (Hin d Hd)); lia.
  - destruct Hc as [_ Hc]. split; [done|]. split; [|done]. intros _ d.
    destruct (decide (1 <= votes_for (votes a) d)) as [Hd|]; [|lia]. apply Hin in Hd. rewrite Hc in Hd. by apply elem_of_nil in Hd.
Qed.

Lemma resolve_elects_majority_witness :
  let a := mkArbiter 2 20 Candidate None 1 0 [(1, 2); (2, 2)]%nat 1 in
  ∃ a', resolve a 0 = (Some ARB_VICTORY, a') ∧ role a' = Leader.
Proof.
  intros a. destruct (resolve_elects_majority a 0 eq_refl) as [Hv _].
  destruct (resolve a 0) as [[v|] a'] eqn:E; [|discriminate E].
  destruct (Hv v a' eq_refl) as (-> & c & Hc & _ & _ & _ & Hl & _). exists a'. split; [done|]. apply Hl.
  injection E as <-. injection Hc as <-. reflexivity.
Defined.

(** ** A fabric of arbiters *)

Inductive msg := MElect (candidate : nat) (priority : Z) | MVictory (leader : nat) | MHeartbeat (leader : nat).

(** What a verb returned by a node puts on the bus. *)
Definition say (a : Arbiter) (v : option verb) : list msg :=
  match v with
  | None => []
  | Some ARB_ELECT => [MElect (self_id a) (self_priority a)]
  | Some ARB_VICTORY => match leader_id a with Some l => [MVictory l] | None => [] end
  | Some ARB_HEARTBEAT => [MHeartbeat (self_id a)]
  end.

Definition receive (a : Arbiter) (m : msg) (now : Z) : option verb * Arbiter :=
  match m with
  | MElect c p => on_elect a c p now
  | MVictory l => (None, on_victory a l)
  | MHeartbeat l => (None, on_heartbeat a l now)
  end.

(** Nodes tick and receive in any order; messages may be delayed, lost and repeated. *)
Definition net : Type := list Arbiter * list msg.

Inductive net_step : net → net → Prop :=
| net_tick nodes sent i a now v a' : nodes !! i = Some a → tick a now = (v, a') →
    net_step (nodes, sent) (<[i := a']> nodes, sent ++ say a' v)
| net_fail nodes sent i a now v a' : nodes !! i = Some a → simulate_leader_failure a now = (v, a') →
    net_step (nodes, sent) (<[i := a']> nodes, sent ++ say a' v)
| net_receive nodes sent i a m now v a' : nodes !! i = Some a → m ∈ sent → receive a m now = (v, a') →
    net_step (nodes, sent) (<[i := a']> nodes, sent ++ say a' v).

(** Followers that have counted nothing, of any leader that is not among them. *)
Definition net_init (s : net) : Prop := Forall (fun a => role a = Follower ∧ votes a = []) s.1 ∧ s.2 = [].

Definition quiet (a : Arbiter) : Prop := role a ≠ Leader ∧ (votes a = [] ∨ ∃ c, votes a = [(self_id a, c)]).

Definition is_elect (m : msg) : Prop := match m with MElect _ _ => True | _ => False end.

Lemma quiet_resolve (a : Arbiter) (now : Z) : quiet a → resolve a now = (None, a).
Proof.
  intros [_ Hv]. unfold resolve. destruct (role a); try done. destruct Hv as [->|[c ->]]; [done|].
  cbn. unfold better, votes_for. cbn. rewrite Nat.eqb_refl. done.
Qed.

Lemma quiet_start (a : Arbiter) (now : Z) : quiet (start_election a now).2.
Proof. split; [done|]. right. by exists (self_id a). Qed.

Lemma quiet_vote (a : Arbiter) (c : nat) : quiet a → quiet (vote a c).
Proof.
  intros [Hr Hv]. split; [done|]. right. exists c. destruct Hv as [Hv|[d Hv]]; cbn [vote votes self_id]; rewrite Hv; [done|].
  cbn [BTree.insert]. by rewrite Nat.ltb_irrefl, Nat.eqb_refl.
Qed.

Lemma quiet_elect (a : Arbiter) (c : nat) (p now : Z) (v : option verb) (a' : Arbiter) :
  quiet a → on_elect a c p now = (v, a') → quiet a' ∧ Forall is_elect (say a' v) ∧ (role a = Candidate → role a' = Candidate).
Proof.
  intros Hq. unfold on_elect. repeat case_match; intros [= <- <-].
  all: splits; try done; try (by apply quiet_vote); try (by repeat constructor); apply (quiet_start a now).
Qed.

Lemma quiet_tick (a : Arbiter) (now : Z) (v : option verb) (a' : Arbiter) :
  quiet a → tick a now = (v, a') → quiet a' ∧ Forall is_elect (say a' v) ∧ (role a = Candidate → role a' = Candidate).
Proof.
  intros Hq. unfold tick. destruct (role a) eqn:Hr.
  - case_match; intros [= <- <-]; splits; try done; try (by repeat constructor). apply (quiet_start a now).
  - rewrite quiet_resolve by done. by intros [= <- <-].
  - by destruct Hq as [Hl _].
Qed.

Lemma quiet_fail (a : Arbiter) (now : Z) (v : option verb) (a' : Arbiter) :
  quiet a → simulate_leader_failure a now = (v, a') → quiet a' ∧ Forall is_elect (say a' v) ∧ (role a = Candidate → role a' = Candidate).
Proof. intros Hq Hs. by destruct (quiet_tick _ now v a' (Hq : quiet (mkArbiter _ _ _ _ _ _ _ _)) Hs). Qed.

Definition net_quiet (s : net) : Prop := Forall quiet s.1 ∧ Forall is_elect s.2.

Lemma net_quiet_step (s s' : net) : net_quiet s → net_step s s' →
  net_quiet s' ∧ ∀ i a, s.1 !! i = Some a → role a = Candidate → ∃ a', s'.1 !! i = Some a' ∧ role a' = Candidate.
Proof.
  intros [Hn Hs] Hstep.
  assert (∃ nodes sent i a v a', s = (nodes, sent) ∧ s' = (<[i := a']> nodes, sent ++ say a' v) ∧ nodes !! i = Some a ∧
    quiet a' ∧ Forall is_elect (say a' v) ∧ (role a = Candidate → role a' = Candidate)) as (nodes & sent & i & a & v & a' & -> & -> & Hi & Hq & Hv & Hc).
  { destruct Hstep as [nodes sent i a now v a' Hi Ht|nodes sent i a now v a' Hi Ht|nodes sent i a m now v a' Hi Hm Ht];
      (assert (quiet a) as Hqa by (eapply Forall_lookup_1; [exact Hn|exact Hi])); exists nodes, sent, i, a, v, a'; (do 3 (split; [done|])).
    - by apply (quiet_tick a now).
    - by apply (quiet_fail a now).
    - eapply Forall_forall in Hs; [|exact Hm]. destruct m as [c p| |]; [|done..]. by apply (quiet_elect a c p now). }
  split; [split; cbn [fst snd]|].
  - by apply Forall_insert.
  - by apply Forall_app.
  - intros j b Hj Hb. cbn [fst] in *. destruct (decide (j = i)) as [->|Hne].
    + rewrite Hi in Hj. injection Hj as <-. exists a'. rewrite list_lookup_insert_eq by (by eapply lookup_lt_Some). auto.
    + exists b. by rewrite list_lookup_insert_ne.
Qed.

(** No fabric of arbiters ever elects a leader. From any number of followers whose leader is gone, with
    any delays, losses and repetitions of messages, no node is ever leader, nothing but election calls is
    ever sent, and a node that has become a candidate stays one: a node enters only its own vote in its table, no message
    carries a vote to a candidate, and one vote is never the required two. *)
Theorem fabric_never_elects (s : net) : reachable net_init net_step s →
  Forall (fun a => role a ≠ Leader) s.1 ∧ Forall is_elect s.2 ∧
  ∀ s' i a, net_step s s' → s.1 !! i = Some a → role a = Candidate → ∃ a', s'.1 !! i = Some a' ∧ role a' = Candidate.
Proof.
  intros Hr. assert (net_quiet s) as Hq.
  { revert s Hr. apply reachable_invariant.
    - intros [nodes sent] [Hn Hs]. cbn in *. subst sent. split; [|constructor]. eapply Forall_impl; [exact Hn|].
      intros a [Hr Hv]. split; [by rewrite Hr|by left].
    - intros s s' Hs Hstep. by apply (net_quiet_step s s'). }
  splits.
  - eapply Forall_impl; [exact (proj1 Hq)|]. by intros a [? _].
  - apply Hq.
  - intros s' i a Hstep. by apply (net_quiet_step s s').
Qed.

Lemma fabric_never_elects_witness :
  let a := mkArbiter 1 10 Follower (Some 3%nat) 0 0 [] 0 in
  let b := mkArbiter 2 20 Follower (Some 3%nat) 0 0 [] 0 in
  let a1 := (tick a 5000).2 in
  Forall (fun a => role a ≠ Leader) [a1; b] ∧ Forall is_elect [MElect 1 10].
Proof.
  intros a b a1. destruct (fabric_never_elects ([a1; b], [MElect 1 10])) as (Hl & Hs & _); [|by split].
  apply (reach_step _ _ ([a; b], [])).
  - apply reach_init. split; [by repeat constructor|done].
  - exact (net_tick [a; b] [] 0 a 5000 (Some ARB_ELECT) a1 eq_refl eq_refl).
Defined.

(** A leader that hears another leader's heartbeat stays leader, whatever the priorities are. *)
Lemma heartbeat_keeps_leader (a : Arbiter) (l : nat) (now : Z) : role a = Leader → role (on_heartbeat a l now) = Leader.
Proof. intros Hr. unfold on_heartbeat. by rewrite Hr. Qed.

End Arbiter.

Module Model.
Import Path.

Definition MODEL_QUOTA : nat := 4.

Inductive ModelState := Loading | Loaded | Pinned | Unloading.

Record ModelEntry := mkEntry { m_name : str; state : ModelState; weight_pages : Z; kv_blocks : Z }.

Record ModelTable := mkTable { models : gmap Z ModelEntry; next_id : Z }.

Definition new : ModelTable := mkTable ∅ 1.

Definition load (t : ModelTable) (name : str) (weights blocks : Z) : result Z unit * ModelTable :=
  if (MODEL_QUOTA <=? size (models t))%nat then (Err tt, t)
  else
    let id := next_id t in
    (Ok id, mkTable (<[id := mkEntry name Loading weights blocks]> (models t)) (u32 (next_id t + 1))).

Definition set_state (e : ModelEntry) (s : ModelState) : ModelEntry := mkEntry (m_name e) s (weight_pages e) (kv_blocks e).

Definition mark_loaded (t : ModelTable) (id : Z) : result unit unit * ModelTable :=
  match models t !! id with
  | None => (Err tt, t)
  | Some m => (Ok tt, mkTable (<[id := set_state m Loaded]> (models t)) (next_id t))
  end.

Definition pin (t : ModelTable) (id : Z) : result unit unit * ModelTable :=
  match models t !! id with
  | None => (Err tt, t)
  | Some m =>
      match state m with
      | Unloading => (Err tt, t)
      | _ => (Ok tt, mkTable (<[id := set_state m Pinned]> (models t)) (next_id t))
      end
  end.

(** The state is set and the entry removed in the same call. *)
Definition unload (t : ModelTable) (id : Z) : result unit unit * ModelTable :=
  match models t !! id with
  | None => (Err tt, t)
  | Some m => (Ok tt, mkTable (delete id (<[id := set_state m Unloading]> (models t))) (next_id t))
  end.

Definition count (t : ModelTable) : nat := size (models t).
Definition get (t : ModelTable) (id : Z) : option ModelEntry := models t !! id.

(** ** The block pool *)

Record KvPool := mkPool { total_blocks : Z; used_blocks : Z; yielded_blocks : Z }.

Definition pool_new (total : Z) : KvPool := mkPool total 0 0.

Definition alloc_blocks (p : KvPool) (n : Z) : bool * KvPool :=
  let cur := used_blocks p in
  let avail := saturating_sub (total_blocks p) cur in
  let '(used, yielded) :=
    if avail <? n then (saturating_sub cur (n - avail), yielded_blocks p +! (n - avail)) else (cur, yielded_blocks p) in
  let used := u32 (used + n) in
  (used <=? total_blocks p, mkPool (total_blocks p) used yielded).

Definition free_blocks (p : KvPool) (n : Z) : KvPool :=
  mkPool (total_blocks p) (saturating_sub (used_blocks p) n) (yielded_blocks p).

(** Both are made on the first call. *)
Definition init (t : option ModelTable) (p : option KvPool) : option ModelTable * option KvPool :=
  (match t with None => Some new | _ => t end, match p with None => Some (pool_new 1024) | _ => p end).

(** ** Histories of the table *)

Inductive op := Load (name : str) (weights blocks : Z) | MarkLoaded (id : Z) | Pin (id : Z) | Unload (id : Z).

(** The new table and the number a load returned. *)
Definition apply (t : ModelTable) (o : op) : option Z * ModelTable :=
  match o with
  | Load name w b => let '(r, t) := load t name w b in (match r with Ok id => Some id | Err _ => None end, t)
  | MarkLoaded id => (None, (mark_loaded t id).2)
  | Pin id => (None, (pin t id).2)
  | Unload id => (None, (unload t id).2)
  end.

Fixpoint run (t : ModelTable) (os : list op) : list Z * ModelTable :=
  match os with
  | [] => ([], t)
  | o :: os =>
      let '(r, t) := apply t o in
      let '(ids, t) := run t os in
      (match r with Some id => id :: ids | None => ids end, t)
  end.

(** At most four models, none between unloading and removal, and numbers below the next one. *)
Definition table_ok (t : ModelTable) : Prop :=
  (size (models t) <= MODEL_QUOTA)%nat ∧ map_Forall (fun id m => state m ≠ Unloading ∧ 1 <= id < next_id t) (models t) ∧ 1 <= next_id t.

Lemma replace_ok (t : ModelTable) (id : Z) (m : ModelEntry) (s : ModelState) :
  table_ok t → models t !! id = Some m → s ≠ Unloading → table_ok (mkTable (<[id := set_state m s]> (models t)) (next_id t)).
Proof.
  intros (Hs & Hm & Hn) Hid Hst. split; [|split]; cbn [models next_id].
  - rewrite map_size_insert, Hid. done.
  - apply map_Forall_insert_2; [|done]. split; [done|]. by apply (Hm id m).
  - done.
Qed.

Lemma apply_ok (t : ModelTable) (o : op) : table_ok t → next_id t < 2 ^ 32 - 1 →
  table_ok (apply t o).2 ∧
  match (apply t o).1 with
  | Some id => id = next_id t ∧ next_id (apply t o).2 = next_id t + 1 ∧ models t !! id = None ∧
      ∃ e, get (apply t o).2 id = Some e ∧ state e = Loading
  | None => next_id (apply t o).2 = next_id t
  end.
Proof.
  intros Hok Hlt. pose proof Hok as (Hs & Hm & Hn). destruct o as [name w b|id|id|id]; cbn [apply].
  - unfold load. destruct (Nat.leb_spec MODEL_QUOTA (size (models t))); [done|]. cbn [fst snd].
    assert (models t !! next_id t = None) as Hnone.
    { destruct (models t !! next_id t) eqn:E; [|done]. apply Hm in E as [_ ?]. lia. }
    unfold u32. rewrite wrap_small by lia. split; [|splits; [done|done|done|]].
    + split; [|split]; cbn [models next_id].
      * rewrite map_size_insert, Hnone. lia.
      * apply map_Forall_insert_2; [cbn; split; [done|lia]|]. eapply map_Forall_impl; [exact Hm|]. intros k x [? ?]. split; [done|lia].
      * lia.
    + unfold get. cbn [models]. rewrite lookup_insert_eq. by eexists.
  - unfold mark_loaded. destruct (models t !! id) as [m|] eqn:E; [|done]. split; [by apply replace_ok|done].
  - unfold pin. destruct (models t !! id) as [m|] eqn:E; [|done]. destruct (state m) eqn:Es; [..|done]; (split; [by apply replace_ok|done]).
  - unfold unload. destruct (models t !! id) as [m|] eqn:E; [|done]. cbn [fst snd]. rewrite delete_insert_eq. split; [|done].
    split; [|split]; cbn [models next_id].
    + rewrite map_size_delete, E. lia.
    + by apply map_Forall_delete.
    + done.
Qed.

Lemma run_ok (os : list op) : ∀ t, table_ok t → next_id t + Z.of_nat (length os) < 2 ^ 32 →
  table_ok (run t os).2 ∧ NoDup (run t os).1 ∧ Forall (fun id => next_id t <= id < next_id (run t os).2) (run t os).1 ∧
  next_id t <= next_id (run t os).2.
Proof.
  induction os as [|o os IH]; intros t Hok Hn; cbn [run length] in *.
  { splits; [done|constructor|constructor|cbn; lia]. }
  destruct (apply_ok t o Hok ltac:(lia)) as [Hok' Hr]. destruct (apply t o) as [r t1]. cbn [fst snd] in *.
  assert (next_id t1 <= next_id t + 1) by (destruct r; [destruct Hr as (_ & -> & _)|rewrite Hr]; lia).
  destruct (IH t1 Hok' ltac:(lia)) as (H1 & H2 & H3 & H4). destruct (run t1 os) as [ids t2]. cbn [fst snd] in *.
  destruct r as [id|].
  - destruct Hr as (-> & Hr & _). splits; [done| | |lia].
    + constructor; [|done]. intros Hin. eapply Forall_forall in H3; [|exact Hin]. cbn in H3. lia.
    + constructor; [lia|]. eapply Forall_impl; [exact H3|]. cbn. intros x ?. lia.
  - splits; [done|done| |lia]. eapply Forall_impl; [exact H3|]. cbn. intros x ?. lia.
Qed.

(** The model table. In every history of fewer than 2^32 - 1 calls at most four models are loaded, the numbers the
    loads return are distinct, a load succeeds exactly when fewer than four models are there, and no
    entry is ever seen unloading, so pinning a model in the table always succeeds. *)
Theorem model_table_quota (os : list op) : 1 + Z.of_nat (length os) < 2 ^ 32 - 1 →
  let '(ids, t) := run new os in
  (count t <= 4)%nat ∧ NoDup ids ∧
  (∀ name w b, (∃ id, (load t name w b).1 = Ok id ∧ id ∉ ids) ↔ (count t < 4)%nat) ∧
  (∀ id m, get t id = Some m → (pin t id).1 = Ok tt ∧ ∃ m', get (pin t id).2 id = Some m' ∧ state m' = Pinned).
Proof.
  intros Hn. assert (table_ok new) as Hok by (split; [cbn [models new]; rewrite map_size_empty; unfold MODEL_QUOTA; lia|]; split; [apply map_Forall_empty|cbn; lia]).
  destruct (run_ok os new Hok ltac:(cbn; lia)) as (Hok' & Hnd & Hids & _). destruct (run new os) as [ids t]. cbn [fst snd] in *.
  pose proof Hok' as (Hs & Hm & _). splits; [done|done| |].
  - intros name w b. unfold load, count. destruct (Nat.leb_spec MODEL_QUOTA (size (models t))) as [Hq|Hq]; unfold MODEL_QUOTA in *; cbn [fst].
    + split; [by intros (? & ? & _)|lia].
    + split; [lia|]. intros _. exists (next_id t). split; [done|]. intros Hin. eapply Forall_forall in Hids; [|exact Hin]. cbn in Hids. lia.
  - intros id m Hg. unfold get, pin in *. rewrite Hg. destruct (Hm id m Hg) as [Hst _].
    destruct (state m) eqn:E; [..|done]; (split; [done|]); cbn [snd models]; rewrite lookup_insert_eq; by eexists.
Qed.

Lemma model_table_quota_witness :
  let '(ids, t) := run new [Load (bytes "a") 1 1; Load (bytes "b") 1 1; Pin 1; Unload 1] in ids = [1; 2] ∧ (count t <= 4)%nat ∧ NoDup ids.
Proof.
  pose proof (model_table_quota [Load (bytes "a") 1 1; Load (bytes "b") 1 1; Pin 1; Unload 1] ltac:(cbn; lia)) as Hr.
  assert ((run new [Load (bytes "a") 1 1; Load (bytes "b") 1 1; Pin 1; Unload 1]).1 = [1; 2]) as Hids by (vm_compute; reflexivity).
  destruct (run new _) as [ids t]. destruct Hr as (Hc & Hn & _). by split.
Defined.

(** The block pool. While it is not overdrawn a request is granted exactly when it is not larger than the whole pool, by
    counting blocks of others as given up if need be. A refused request is charged all the same: from then on
    the pool is overdrawn and every request for at least one block is refused, until blocks are freed. *)
Theorem kv_pool_refusal_is_charged (p : KvPool) (n : Z) :
  0 <= used_blocks p <= total_blocks p → total_blocks p < 2 ^ 32 → 0 <= n < 2 ^ 32 →
  let '(ok, p') := alloc_blocks p n in
  (ok = true ↔ n <= total_blocks p) ∧
  (used_blocks p' = if used_blocks p + n <=? total_blocks p then used_blocks p + n else Z.max (total_blocks p) n) ∧
  (used_blocks p + n <= total_blocks p → yielded_blocks p' = yielded_blocks p) ∧
  (ok = false → ∀ ms, Forall (fun m => 0 < m < 2 ^ 32) ms → 
     ∀ m, 0 < m < 2 ^ 32 → (alloc_blocks (foldl (fun p m => (alloc_blocks p m).2) p' ms) m).1 = false).
Proof.
  intros Hu Ht Hn. destruct p as [T u y]. cbn [used_blocks total_blocks yielded_blocks] in *.
  assert (∀ q m, total_blocks q = T → T < used_blocks q < 2 ^ 32 → 0 < m < 2 ^ 32 →
    (alloc_blocks q m).1 = false ∧ total_blocks (alloc_blocks q m).2 = T ∧ T < used_blocks (alloc_blocks q m).2 < 2 ^ 32) as Hstuck.
  { intros [T' c z] m HT Hc Hm. cbn in HT, Hc. subst T'. unfold alloc_blocks, saturating_sub. cbn [used_blocks total_blocks yielded_blocks].
    rewrite (Z.max_l 0 (T - c)) by lia. rewrite (proj2 (Z.ltb_lt 0 m)) by lia. rewrite Z.sub_0_r. unfold u32.
    rewrite wrap_small by lia. cbn [fst snd total_blocks used_blocks]. splits; [apply Z.leb_gt; lia|done|lia|lia]. }
  unfold alloc_blocks at 1, saturating_sub. cbn [used_blocks total_blocks yielded_blocks]. rewrite (Z.max_r 0 (T - u)) by lia.
  destruct (Z.ltb_spec (T - u) n) as [Hover|Hfit].
  - rewrite (proj2 (Z.leb_gt (u + n) T)) by lia. replace (u - (n - (T - u))) with (T - n) by lia. unfold u32. rewrite wrap_small by lia.
    cbn [used_blocks]. splits; [rewrite Z.leb_le; lia|lia|lia|].
    intros Hf%Z.leb_gt ms Hms. set (p' := mkPool T _ _). assert (total_blocks p' = T ∧ T < used_blocks p' < 2 ^ 32) as Hp' by (cbn; lia).
    clearbody p'. revert p' Hp'. induction ms as [|m' ms IH]; intros p' [HT Hp'] m Hm; [by apply Hstuck|].
    apply Forall_cons in Hms as [Hm' Hms]. apply IH; [done| |done]. by apply Hstuck.
  - rewrite (proj2 (Z.leb_le (u + n) T)) by lia. unfold u32. rewrite wrap_small by lia. cbn [used_blocks]. splits; [rewrite Z.leb_le; lia|done|done|].
    intros Hf%Z.leb_gt. lia.
Qed.

Lemma kv_pool_refusal_is_charged_witness :
  let p' := (alloc_blocks (pool_new 8) 9).2 in (alloc_blocks (pool_new 8) 9).1 = false ∧ (alloc_blocks p' 1).1 = false.
Proof.
  intros p'. split; [reflexivity|].
  pose proof (kv_pool_refusal_is_charged (pool_new 8) 9 ltac:(cbn; lia) ltac:(cbn; lia) ltac:(lia)) as (_ & _ & _ & Hs).
  apply (Hs eq_refl [] ltac:(constructor) 1). lia.
Defined.

End Model.

Module Wasm.

Inductive WasmErr := BadMagic | BadSection | Unsupported.

Definition MAGIC : list Z := [0; 97; 115; 109].

(** The module is its bytes. *)
Definition parse (bs : list Z) : result (list Z) WasmErr :=
  if (length bs <? 8)%nat || bool_decide (take 4 bs ≠ MAGIC) then Err BadMagic else Ok bs.

(** The loop that reads a LEB128 length; shifts are taken modulo the width. *)
Fixpoint leb (bs : list Z) (len shift : Z) : option (Z * list Z) :=
  match bs with
  | [] => None
  | b :: bs =>
      let len := Z.lor len (u64 (Z.shiftl (Z.land b 0x7F) (shift mod 64))) in
      if Z.land b 0x80 =? 0 then Some (len, bs) else leb bs len (shift + 7)
  end.

(** [c.get(off..off + len)], with the bytes after it. *)
Definition get_range (bs : list Z) (len : Z) : option (list Z * list Z) :=
  if len <=? Z.of_nat (length bs) then Some (take (Z.to_nat len) bs, drop (Z.to_nat len) bs) else None.

(** The loop over the sections, on the bytes from [off] on. *)
Fixpoint section_loop (fuel : nat) (bs : list Z) (id : Z) : option (list Z) :=
  match fuel, bs with
  | O, _ | _, [] => None
  | S fuel, sid :: bs =>
      match leb bs 0 0 with
      | None => None
      | Some (len, bs) =>
          match get_range bs len with
          | None => None
          | Some (payload, rest) => if sid =? id then Some payload else section_loop fuel rest id
          end
      end
  end.

Definition section (code : list Z) (id : Z) : option (list Z) := section_loop (length code) (drop 8 code) id.

(** Reading opcodes, or in the number of an i32.const with its value and shift so far. *)
Inductive mode := Ready | InConst (v shift : Z).

(** The loop of [run_expr], on the bytes from [off] on; the top of the stack is first. *)
Fixpoint exec_loop (m : mode) (stack : list Z) (body : list Z) : result Z WasmErr :=
  match body with
  | [] => match m with Ready => Err Unsupported | InConst _ _ => Err BadSection end
  | b :: body =>
      match m with
      | InConst v shift =>
          let v := i32 (Z.lor v (i32 (Z.shiftl (Z.land b 0x7F) (shift mod 32)))) in
          if Z.land b 0x80 =? 0 then
            let v := if negb (Z.land b 0x40 =? 0) && (shift <? 25) then i32 (Z.lor v (i32 (Z.shiftl (-1) (shift + 7)))) else v in
            exec_loop Ready (v :: stack) body
          else exec_loop (InConst v (shift + 7)) stack body
      | Ready =>
          if b =? 0x41 then exec_loop (InConst 0 0) stack body
          else if b =? 0x6A then
            match stack with
            | y :: x :: stack => exec_loop Ready (i32 (x + y) :: stack) body
            | _ => Err Unsupported
            end
          else if b =? 0x1A then exec_loop Ready (tail stack) body
          else if b =? 0x0B then match stack with v :: _ => Ok v | [] => Err Unsupported end
          else Err Unsupported
      end
  end.

(** [for _ in 0..nl]: only declarations of no locals are passed over. *)
Fixpoint locals (nl : nat) (body : list Z) : result (list Z) WasmErr :=
  match nl with
  | O => Ok body
  | S nl =>
      match body with
      | [] => Err BadSection
      | cnt :: body => if cnt =? 0 then locals nl body else Err Unsupported
      end
  end.

Definition run_expr (body : list Z) : result Z WasmErr :=
  match body with
  | [] => Err BadSection
  | nl :: body => let? body := locals (Z.to_nat nl) body in exec_loop Ready [] body
  end.

Definition call_export (code : list Z) : result Z WasmErr :=
  match section code 10 with
  | None => Err Unsupported
  | Some [] => Err BadSection
  | Some (count :: rest) =>
      if count =? 0 then Err Unsupported
      else
        match leb rest 0 0 with
        | None => Err BadSection
        | Some (size, rest) =>
            match get_range rest size with
            | None => Err BadSection
            | Some (body, _) => run_expr body
            end
        end
  end.

(** ** Programs and their encoding *)

Inductive instr := Const (v : Z) | Add | Drop.

(** What a program computes. *)
Fixpoint sem (prog : list instr) (stack : list Z) : result Z WasmErr :=
  match prog with
  | [] => match stack with v :: _ => Ok v | [] => Err Unsupported end
  | Const v :: prog => sem prog (v :: stack)
  | Add :: prog => match stack with y :: x :: stack => sem prog (i32 (x + y) :: stack) | _ => Err Unsupported end
  | Drop :: prog => sem prog (tail stack)
  end.

(** Signed and unsigned LEB128. *)
Fixpoint sleb (fuel : nat) (v : Z) : list Z :=
  match fuel with
  | O => []
  | S fuel =>
      let b := v mod 128 in
      let rest := v / 128 in
      if ((rest =? 0) && (b <? 64)) || ((rest =? -1) && (64 <=? b)) then [b] else (b + 128) :: sleb fuel rest
  end.

Fixpoint uleb (fuel : nat) (n : Z) : list Z :=
  match fuel with
  | O => []
  | S fuel => if n <? 128 then [n] else (n mod 128 + 128) :: uleb fuel (n / 128)
  end.

Definition encode_instr (i : instr) : list Z :=
  match i with Const v => 0x41 :: sleb 5 v | Add => [0x6A] | Drop => [0x1A] end.

Definition encode (prog : list instr) : list Z := mjoin (encode_instr <$> prog).

Definition sized (bs : list Z) : list Z := uleb 9 (Z.of_nat (length bs)) ++ bs.

(** A module: sections with other numbers, then a code section whose first function is the program. *)
Definition code_section (count : Z) (prog : list instr) (others : list Z) : list Z :=
  count :: sized (0 :: encode prog ++ [0x0B]) ++ others.

Definition module_bytes (version : list Z) (sections : list (Z * list Z)) (count : Z) (prog : list instr) (others rest : list Z) : list Z :=
  MAGIC ++ version ++ mjoin ((fun s => s.1 :: sized s.2) <$> sections) ++ 10 :: sized (code_section count prog others) ++ rest.

(** ** Numbers *)

Lemma low_bits (x n : Z) : 0 <= n → Z.land x (2 ^ n - 1) = x mod 2 ^ n.
Proof. intros Hn. rewrite <- Z.land_ones by done. f_equal. rewrite Z.ones_equiv. lia. Qed.

Lemma lor_shift (a x s : Z) : 0 <= s → 0 <= a < 2 ^ s → Z.lor a (x * 2 ^ s) = a + x * 2 ^ s.
Proof.
  intros Hs Ha. rewrite <- Z.lxor_lor, Z.add_nocarry_lxor; [done|..].
  all: apply Z.bits_inj'; intros i Hi; rewrite Z.land_spec, Z.bits_0; destruct (decide (i < s)) as [Hl|Hg].
  all: try (rewrite <- (Z.shiftl_mul_pow2 x s), (Z.shiftl_spec_low x) by done; apply andb_false_r).
  all: rewrite <- (Z.mod_small a (2 ^ s)), Z.mod_pow2_bits_high by lia; done.
Qed.

(** The masks on a byte with and without its top bit. *)
Lemma byte_masks (b : Z) : 0 <= b < 128 →
  Z.land b 0x7F = b ∧ Z.land b 0x80 = 0 ∧ Z.land (b + 128) 0x7F = b ∧ Z.land (b + 128) 0x80 = 128 ∧
  (Z.land b 0x40 =? 0) = (b <? 64).
Proof.
  intros Hb. assert (forallb (fun b => (Z.land b 0x7F =? b) && (Z.land b 0x80 =? 0) && (Z.land (b + 128) 0x7F =? b) &&
    (Z.land (b + 128) 0x80 =? 128) && Bool.eqb (Z.land b 0x40 =? 0) (b <? 64)) (Z.of_nat <$> seq 0 128) = true) as Hall by (vm_compute; reflexivity).
  rewrite forallb_forall in Hall. assert (In b (Z.of_nat <$> seq 0 128)) as Hin.
  { rewrite <- (Z2Nat.id b) by lia. apply in_map, in_seq. lia. }
  apply Hall in Hin. rewrite !andb_true_iff, !Z.eqb_eq, eqb_true_iff in Hin. tauto.
Qed.

Lemma leb_uleb (fuel : nat) : ∀ n acc s rest, (0 < fuel)%nat → 0 <= n < 128 ^ Z.of_nat fuel → 0 <= s → s + 7 * Z.of_nat fuel <= 63 → 0 <= acc < 2 ^ s →
  leb (uleb fuel n ++ rest) acc s = Some (acc + n * 2 ^ s, rest).
Proof.
  induction fuel as [|fuel IH]; intros n acc s rest Hpos Hn Hs Hf Ha; [lia|]. cbn [uleb].
  assert (0 < 2 ^ s <= 2 ^ 56) as Hp by (split; [lia|apply Z.pow_le_mono_r; lia]).
  assert (2 ^ (s + 7) = 2 ^ s * 128) as Hp7 by (rewrite Z.pow_add_r by lia; done).
  destruct (Z.ltb_spec n 128) as [Hl|Hg]; cbn [app leb].
  - destruct (byte_masks n ltac:(lia)) as (-> & -> & _). rewrite (Z.mod_small s 64), Z.shiftl_mul_pow2, u64_small by nia.
    by rewrite lor_shift by lia.
  - destruct (byte_masks (n mod 128) (Z.mod_pos_bound n 128 ltac:(lia))) as (_ & _ & -> & -> & _). cbn [Z.eqb].
    pose proof (Z.mod_pos_bound n 128 ltac:(lia)). rewrite (Z.mod_small s 64), Z.shiftl_mul_pow2, u64_small, lor_shift by nia.
    rewrite IH.
    + do 2 f_equal. rewrite Hp7. pose proof (Z.div_mod n 128 ltac:(lia)). nia.
    + destruct fuel; [cbn in Hn; lia|lia].
    + rewrite Nat2Z.inj_succ, Z.pow_succ_r in Hn by lia. split; [apply Z.div_pos; lia|apply Z.div_lt_upper_bound; lia].
    + lia.
    + lia.
    + nia.
Qed.

Lemma i32_id (x : Z) : - 2 ^ 31 <= x < 2 ^ 31 → i32 x = x.
Proof.
  intros Hx. unfold i32, to_signed, wrap. change (32 - 1) with 31. cbv zeta. destruct (Z_lt_dec x 0) as [Hn|Hn].
  - rewrite <- (Z.mod_unique x (2 ^ 32) (-1) (x + 2 ^ 32)) by lia. rewrite (proj2 (Z.ltb_ge _ _)) by lia. lia.
  - rewrite Z.mod_small by lia. by rewrite (proj2 (Z.ltb_lt _ _)) by lia.
Qed.

(** Equal modulo 2^32. *)
Lemma i32_mod (x y k : Z) : - 2 ^ 31 <= y < 2 ^ 31 → x = y + k * 2 ^ 32 → i32 x = y.
Proof. intros Hy ->. rewrite <- (i32_id y Hy) at 2. unfold i32, to_signed, wrap. by rewrite Z.mod_add by lia. Qed.

Lemma const_decoded (fuel : nat) : ∀ v acc s stack rest, (1 <= fuel <= 5)%nat → s = 35 - 7 * Z.of_nat fuel →
  - 2 ^ (31 - s) <= v < 2 ^ (31 - s) → 0 <= acc < 2 ^ s →
  exec_loop (InConst acc s) stack (sleb fuel v ++ rest) = exec_loop Ready (acc + v * 2 ^ s :: stack) rest.
Proof.
  induction fuel as [|fuel IH]; intros v acc s stack rest Hf Hs Hv Ha; [lia|]. cbn [sleb].
  pose proof (Z.div_mod v 128 ltac:(lia)) as Hdm. pose proof (Z.mod_pos_bound v 128 ltac:(lia)) as Hb.
  destruct (byte_masks (v mod 128) Hb) as (M1 & M2 & M3 & M4 & M5).
  assert (0 <= s <= 28) as Hs28 by lia. assert (0 < 2 ^ s <= 2 ^ 28) as Hp by (split; [lia|apply Z.pow_le_mono_r; lia]).
  assert (2 ^ 31 = 2 ^ (31 - s) * 2 ^ s) as H31 by (rewrite <- Z.pow_add_r by lia; f_equal; lia).
  assert (- 2 ^ 31 <= acc + v * 2 ^ s < 2 ^ 31) as Hr by nia.
  destruct (((v / 128 =? 0) && (v mod 128 <? 64)) || ((v / 128 =? -1) && (64 <=? v mod 128))) eqn:Efin; cbn [app exec_loop].
  - rewrite M1, M2, M5. cbn [Z.eqb]. f_equal. f_equal. rewrite (Z.mod_small s 32), Z.shiftl_mul_pow2 by lia.
    apply orb_true_iff in Efin as [Efin|Efin]; apply andb_true_iff in Efin as [E1 E2]; apply Z.eqb_eq in E1.
    + apply Z.ltb_lt in E2. rewrite (proj2 (Z.ltb_lt _ _)) by lia. cbn [negb andb]. replace (v mod 128) with v by lia.
      rewrite (i32_id (v * 2 ^ s)) by nia. rewrite lor_shift by lia. by apply i32_id.
    + apply Z.leb_le in E2. rewrite (proj2 (Z.ltb_ge _ _)) by lia. cbn [negb andb]. assert (v mod 128 = v + 128) as -> by lia.
      destruct (Z.ltb_spec s 25) as [Hlt|Hge].
      * assert (2 ^ (s + 7) = 2 ^ s * 128) as Hp7 by (rewrite Z.pow_add_r by lia; done).
        assert (2 ^ (s + 7) <= 2 ^ 31) by (apply Z.pow_le_mono_r; lia).
        assert (0 <= (v + 128) * 2 ^ s <= 127 * 2 ^ s) as Hv1 by nia.
        rewrite (i32_id ((v + 128) * 2 ^ s)) by lia. rewrite lor_shift, (i32_id (acc + (v + 128) * 2 ^ s)) by lia.
        rewrite Z.shiftl_mul_pow2, (i32_id (-1 * _)) by lia. rewrite lor_shift by lia. rewrite i32_id by lia. lia.
      * assert (s = 28) as -> by lia. change (2 ^ (31 - 28)) with 8 in Hv. rewrite (i32_mod ((v + 128) * 2 ^ 28) (v * 2 ^ 28) 8) by lia. rewrite lor_shift by lia. by apply i32_id.
  - assert (s <> 28) as Hne.
    { intros ->. change (2 ^ (31 - 28)) with 8 in Hv. destruct (Z_lt_dec v 0).
      - assert (v / 128 = -1) as Hq by (Z.to_euclidean_division_equations; lia). rewrite Hq in Efin. cbn [Z.eqb] in Efin.
        rewrite (proj2 (Z.leb_le _ _)) in Efin by lia. done.
      - assert (v / 128 = 0) as Hq by (Z.to_euclidean_division_equations; lia). rewrite Hq in Efin.
        rewrite (proj2 (Z.ltb_lt _ _)) in Efin by lia. done. }
    assert (2 ^ (s + 7) = 2 ^ s * 128) as Hp7 by (rewrite Z.pow_add_r by lia; done).
    assert (2 ^ (s + 7) <= 2 ^ 28) by (apply Z.pow_le_mono_r; lia).
    rewrite M3, M4. cbn [Z.eqb]. rewrite (Z.mod_small s 32), Z.shiftl_mul_pow2 by lia. rewrite (i32_id (v mod 128 * 2 ^ s)) by nia.
    assert (0 <= v mod 128 * 2 ^ s <= 127 * 2 ^ s) as Hv1 by nia.
    rewrite lor_shift, i32_id by lia. rewrite IH; [|lia|lia| |lia].
    + f_equal. f_equal. nia.
    + assert (2 ^ (31 - s) = 2 ^ (31 - (s + 7)) * 128) as Hq by (rewrite <- (Z.pow_add_r 2 _ 7) by lia; f_equal; lia). nia.
Qed.

(** ** Programs *)

Definition i32_instr (i : instr) : Prop := match i with Const v => - 2 ^ 31 <= v < 2 ^ 31 | _ => True end.

Lemma exec_encoded (prog : list instr) : ∀ stack rest, Forall i32_instr prog →
  exec_loop Ready stack (encode prog ++ 0x0B :: rest) = sem prog stack.
Proof.
  induction prog as [|i prog IH]; intros stack rest Hp; [done|]. apply Forall_cons in Hp as [Hi Hp].
  change (encode (i :: prog)) with (encode_instr i ++ encode prog). rewrite <- app_assoc. destruct i as [v| |].
  - change (encode_instr (Const v)) with (0x41 :: sleb 5 v). cbn [app exec_loop Z.eqb Pos.eqb].
    rewrite const_decoded by (cbn; lia || done). cbn [sem]. rewrite Z.mul_1_r. by apply IH.
  - cbn [encode_instr app exec_loop Z.eqb Pos.eqb sem]. destruct stack as [|y [|x stack]]; [done..|]. by apply IH.
  - cbn [encode_instr app exec_loop Z.eqb Pos.eqb sem]. by apply IH.
Qed.

Lemma leb_sized (bs rest : list Z) : Z.of_nat (length bs) < 2 ^ 63 → leb (sized bs ++ rest) 0 0 = Some (Z.of_nat (length bs), bs ++ rest).
Proof.
  intros Hl. unfold sized. rewrite <- app_assoc, leb_uleb by (cbn; lia). do 2 f_equal. cbn. lia.
Qed.

Lemma get_range_app (bs rest : list Z) : get_range (bs ++ rest) (Z.of_nat (length bs)) = Some (bs, rest).
Proof.
  unfold get_range. rewrite (proj2 (Z.leb_le _ _)) by (rewrite length_app; lia). by rewrite Nat2Z.id, take_app_length, drop_app_length.
Qed.

Lemma section_found (sections : list (Z * list Z)) (id : Z) (payload rest : list Z) : ∀ fuel,
  Forall (fun s => s.1 ≠ id ∧ Z.of_nat (length s.2) < 2 ^ 63) sections → Z.of_nat (length payload) < 2 ^ 63 → (length sections < fuel)%nat →
  section_loop fuel (mjoin ((fun s => s.1 :: sized s.2) <$> sections) ++ id :: sized payload ++ rest) id = Some payload.
Proof.
  induction sections as [|[sid p] sections IH]; intros fuel Hs Hp Hf; (destruct fuel as [|fuel]; [lia|]).
  - cbn [fmap list_fmap mjoin list_join app section_loop]. rewrite leb_sized, get_range_app by done. by rewrite Z.eqb_refl.
  - apply Forall_cons in Hs as [[Hne Hl] Hs]. cbn [fst snd] in Hne, Hl.
    change (mjoin _) with ((sid :: sized p) ++ mjoin ((fun s => s.1 :: sized s.2) <$> sections)).
    rewrite <- app_assoc. cbn [app section_loop]. rewrite leb_sized, get_range_app by done.
    rewrite (proj2 (Z.eqb_neq _ _) Hne). apply IH; [done|done|]. cbn in Hf. lia.
Qed.

(** More rounds than bytes change nothing. *)
Lemma leb_shorter (bs : list Z) : ∀ acc s n rest, leb bs acc s = Some (n, rest) → (length rest < length bs)%nat.
Proof.
  induction bs as [|b bs IH]; intros acc s n rest; [done|]. cbn. case_match; [intros [= _ <-]; lia|]. intros Hr%IH. lia.
Qed.

Lemma section_fuel (fuel fuel' : nat) : ∀ bs id, (length bs <= fuel)%nat → (fuel <= fuel')%nat →
  section_loop fuel' bs id = section_loop fuel bs id.
Proof.
  revert fuel'. induction fuel as [|fuel IH]; intros fuel' bs id Hb Hf.
  { destruct bs; [|cbn in Hb; lia]. by destruct fuel'. }
  destruct fuel' as [|fuel']; [lia|]. destruct bs as [|sid bs]; [done|]. cbn [section_loop].
  destruct (leb bs 0 0) as [[n r]|] eqn:E; [|done]. apply leb_shorter in E. unfold get_range. destruct (n <=? _); [|done]. destruct (sid =? id); [done|].
  apply IH; [|lia]. rewrite length_drop. cbn in Hb. lia.
Qed.

(** C31: the interpreter. A module with any version, any sections before the code section and any bytes after it is parsed, and calling it
    runs the program of its first function: the result is what the program computes on a stack of
    32-bit numbers, or the error for an addition or an end on too small a stack. *)
Theorem wasm_runs_program (version : list Z) (sections : list (Z * list Z)) (count : Z) (prog : list instr) (others rest : list Z) :
  length version = 4%nat → Forall (fun s => s.1 ≠ 10 ∧ Z.of_nat (length s.2) < 2 ^ 63) sections → count ≠ 0 →
  Forall i32_instr prog → Z.of_nat (length (code_section count prog others)) < 2 ^ 63 →
  let m := module_bytes version sections count prog others rest in
  parse m = Ok m ∧ call_export m = sem prog [].
Proof.
  intros Hv Hs Hc Hp Hl m. split.
  - unfold parse. rewrite (proj2 (Nat.ltb_ge _ _)) by (unfold m, module_bytes; rewrite !length_app; cbn; lia).
    by rewrite bool_decide_eq_false_2 by (unfold m, module_bytes; cbn; tauto).
  - unfold call_export, section.
    assert (drop 8 m = mjoin ((fun s => s.1 :: sized s.2) <$> sections) ++ 10 :: sized (code_section count prog others) ++ rest) as ->.
    { unfold m, module_bytes. rewrite app_assoc, drop_app_length' by (rewrite length_app, Hv; done). done. }
    rewrite section_found; [|done|done|].
    + unfold code_section at 1. rewrite (proj2 (Z.eqb_neq _ _) Hc).
      set (body := 0 :: encode prog ++ [11]). assert (length body <= length (code_section count prog others))%nat as Hb.
      { unfold code_section, sized. fold body. change (length (?x :: ?l)) with (S (length l)) at 1. rewrite !length_app. lia. }
      rewrite leb_sized, get_range_app by lia. unfold body. cbn [run_expr locals Z.to_nat result_bind]. by apply exec_encoded.
    + assert (∀ ss, (length ss <= length (mjoin ((fun s : Z * list Z => s.1 :: sized s.2) <$> ss)))%nat) as Hlen.
      { induction ss as [|x ss IH]; [done|]. change (mjoin _) with ((x.1 :: sized x.2) ++ mjoin ((fun s => s.1 :: sized s.2) <$> ss)).
        rewrite length_app. cbn [length]. lia. }
      unfold m, module_bytes. rewrite !length_app. specialize (Hlen sections). cbn [length MAGIC]. lia.
Qed.

Lemma wasm_runs_program_witness :
  let m := module_bytes [1; 0; 0; 0] [(1, [1; 96; 0; 1; 127])] 1 [Const 7; Const (-1000); Add] [] [] in
  parse m = Ok m ∧ call_export m = Ok (-993).
Proof.
  apply (wasm_runs_program [1; 0; 0; 0] [(1, [1; 96; 0; 1; 127])] 1 [Const 7; Const (-1000); Add] [] []).
  - reflexivity.
  - repeat constructor; cbn; lia.
  - done.
  - repeat constructor; cbn; lia.
  - vm_compute. reflexivity.
Defined.

End Wasm.
