(* ===== verification/Vga.v ===== *)
(** The text console of kernel/src/driver/vga.rs: the 80 x 25 buffer, the cursor, the attributes and the parser of
    escape sequences.

    A cell is a character and its attribute. A read or write outside the buffer is [Panic]: the driver would
    touch other memory there. [uart] collects the bytes of status reports, [hw_cursor] is the position last
    written to the cursor registers. *)

From stdpp Require Import base numbers list strings.
From Stdlib Require Import ZArith Lia.
From S2P Require Import Prelude.
Local Open Scope Z_scope.
Local Open Scope rust_scope.

Module Vga.

Definition COLS : nat := 80.
Definition ROWS : nat := 25.
Definition DEFAULT_ATTR : Z := 0x07.
Definition CSI_MAX_PARAMS : nat := 16.

Abbreviation cell := (Z * Z)%type.

Inductive ParseState := Normal | Escape | Csi.

(** [Attrs]: CURRENT_FG, CURRENT_BG, BOLD and REVERSE. *)
Record Attrs := mkAttrs { fg : Z; bg : Z; bold : bool; reverse_ : bool }.

(** [Parser]: PARSE_STATE, CSI_PARAMS, CSI_PARAM_COUNT and CSI_HAS_QUESTION. *)
Record Parser := mkParser { pstate : ParseState; params : list Z; param_count : nat; has_question : bool }.

Record Vga := mkVga {
  cells : list cell;
  col : nat;
  row : nat;
  visible : bool;
  attrs : Attrs;
  saved_col : nat;
  saved_row : nat;
  parser : Parser;
  hw_cursor : Z;
  uart : list Z
}.

Definition set_cells (v : Vga) (c : list cell) : Vga :=
  mkVga c (col v) (row v) (visible v) (attrs v) (saved_col v) (saved_row v) (parser v) (hw_cursor v) (uart v).
Definition move (v : Vga) (c r : nat) : Vga :=
  mkVga (cells v) c r (visible v) (attrs v) (saved_col v) (saved_row v) (parser v) (hw_cursor v) (uart v).
Definition set_visible (v : Vga) (b : bool) : Vga :=
  mkVga (cells v) (col v) (row v) b (attrs v) (saved_col v) (saved_row v) (parser v) (hw_cursor v) (uart v).
Definition set_attrs (v : Vga) (a : Attrs) : Vga :=
  mkVga (cells v) (col v) (row v) (visible v) a (saved_col v) (saved_row v) (parser v) (hw_cursor v) (uart v).
Definition save (v : Vga) : Vga :=
  mkVga (cells v) (col v) (row v) (visible v) (attrs v) (col v) (row v) (parser v) (hw_cursor v) (uart v).
Definition set_parser (v : Vga) (p : Parser) : Vga :=
  mkVga (cells v) (col v) (row v) (visible v) (attrs v) (saved_col v) (saved_row v) p (hw_cursor v) (uart v).
Definition send (v : Vga) (bs : list Z) : Vga :=
  mkVga (cells v) (col v) (row v) (visible v) (attrs v) (saved_col v) (saved_row v) (parser v) (hw_cursor v) (uart v ++ bs).

Definition set_state (v : Vga) (s : ParseState) : Vga :=
  set_parser v (mkParser s (params (parser v)) (param_count (parser v)) (has_question (parser v))).

(** [(bg & 0x0F) << 4 | (fg & 0x0F)], computed on bytes. *)
Definition current_attr (a : Attrs) : Z :=
  let f := if bold a && (fg a <? 8) then u8 (fg a + 8) else fg a in
  Z.lor (u8 (Z.shiftl (Z.land (bg a) 0x0F) 4)) (Z.land f (if reverse_ a then 0x07 else 0x0F)).

Definition update_hardware_cursor (v : Vga) : Vga :=
  let pos := if visible v then u16 (Z.of_nat (row v * COLS + col v)) else 0xFFFF in
  mkVga (cells v) (col v) (row v) (visible v) (attrs v) (saved_col v) (saved_row v) (parser v) pos (uart v).

(** ** The buffer *)

Definition write_cell (cs : list cell) (i : nat) (c : cell) : exec (list cell) :=
  if (i <? length cs)%nat then Ret (<[i := c]> cs) else Panic.

Definition write_char (cs : list cell) (c r : nat) (ch attr : Z) : exec (list cell) := write_cell cs (r * COLS + c) (ch, attr).

(** A loop of writes of one cell. *)
Fixpoint fill (cs : list cell) (ixs : list nat) (c : cell) : exec (list cell) :=
  match ixs with
  | [] => Ret cs
  | i :: ixs => let! cs := write_cell cs i c in fill cs ixs c
  end.

(** The cells of row [r] from column [a] up to [b]. *)
Definition span (r a b : nat) : list nat := (fun c => r * COLS + c)%nat <$> seq a (b - a).

(** [for row in a..b { for col in 0..COLS { .. } }] *)
Definition rows_between (a b : nat) : list nat := mjoin ((fun r => span r 0 COLS) <$> seq a (b - a)).

(** A loop that copies cells one after the other. *)
Fixpoint copy_cells (cs : list cell) (moves : list (nat * nat)) : exec (list cell) :=
  match moves with
  | [] => Ret cs
  | (src, dst) :: moves =>
      match cs !! src with
      | None => Panic
      | Some c => let! cs := write_cell cs dst c in copy_cells cs moves
      end
  end.

Definition row_moves (src dst : nat) : list (nat * nat) := (fun c => (src * COLS + c, dst * COLS + c)%nat) <$> seq 0 COLS.

Definition scroll_up (v : Vga) : exec Vga :=
  let cs := take (COLS * (ROWS - 1)) (drop COLS (cells v)) ++ drop (COLS * (ROWS - 1)) (cells v) in
  let! cs := fill cs (span (ROWS - 1) 0 COLS) (32, current_attr (attrs v)) in
  Ret (set_cells v cs).

(** [CURSOR_ROW += 1; if CURSOR_ROW >= ROWS { scroll_up(); CURSOR_ROW = ROWS - 1; }] *)
Definition next_row (v : Vga) : exec Vga :=
  let v := move v (col v) (S (row v)) in
  if (ROWS <=? row v)%nat then let! v := scroll_up v in Ret (move v (col v) (ROWS - 1)) else Ret v.

(** ** Control sequences *)

Definition csi_param (v : Vga) (idx : nat) (default : Z) : Z :=
  let p := parser v in
  let x := params p !!! idx in
  if (idx <? param_count p)%nat && negb (x =? 0) then x else default.

Definition param_nat (v : Vga) (idx : nat) (default : Z) : nat := Z.to_nat (csi_param v idx default).

Definition erase (v : Vga) (ixs : list nat) : exec Vga :=
  let! cs := fill (cells v) ixs (32, current_attr (attrs v)) in Ret (set_cells v cs).

Definition erase_display (v : Vga) : exec Vga :=
  let mode := csi_param v 0 0 in
  if mode =? 0 then erase v (span (row v) (col v) COLS ++ rows_between (row v + 1) ROWS)
  else if mode =? 1 then erase v (rows_between 0 (row v) ++ span (row v) 0 (col v + 1))
  else if (mode =? 2) || (mode =? 3) then erase v (rows_between 0 ROWS)
  else Ret v.

Definition erase_line (v : Vga) : exec Vga :=
  let mode := csi_param v 0 0 in
  if mode =? 0 then erase v (span (row v) (col v) COLS)
  else if mode =? 1 then erase v (span (row v) 0 (col v + 1))
  else if mode =? 2 then erase v (span (row v) 0 COLS)
  else Ret v.

(** [for i in 0..n { if col + i >= COLS { break; } .. }] *)
Definition erase_chars (v : Vga) : exec Vga :=
  erase v (span (row v) (col v) (Nat.min (col v + param_nat v 0 1) COLS)).

Definition sgr_step (a : Attrs) (p : Z) : Attrs :=
  if p =? 0 then mkAttrs 7 0 false false
  else if p =? 1 then mkAttrs (fg a) (bg a) true (reverse_ a)
  else if p =? 7 then mkAttrs (fg a) (bg a) (bold a) true
  else if p =? 22 then mkAttrs (fg a) (bg a) false (reverse_ a)
  else if p =? 27 then mkAttrs (fg a) (bg a) (bold a) false
  else if (30 <=? p) && (p <=? 37) then mkAttrs (p - 30) (bg a) (bold a) (reverse_ a)
  else if p =? 38 then a
  else if p =? 39 then mkAttrs 7 (bg a) (bold a) (reverse_ a)
  else if (40 <=? p) && (p <=? 47) then mkAttrs (fg a) (p - 40) (bold a) (reverse_ a)
  else if p =? 48 then a
  else if p =? 49 then mkAttrs (fg a) 0 (bold a) (reverse_ a)
  else if (90 <=? p) && (p <=? 97) then mkAttrs (p - 90 + 8) (bg a) (bold a) (reverse_ a)
  else if (100 <=? p) && (p <=? 107) then mkAttrs (fg a) (p - 100 + 8) (bold a) (reverse_ a)
  else a.

(** The loop reads [CSI_PARAMS[i]] for each [i] below the count. *)
Definition sgr (v : Vga) : exec Vga :=
  let p := parser v in
  let p := if (param_count p =? 0)%nat then mkParser (pstate p) (<[0%nat := 0]> (params p)) 1 (has_question p) else p in
  if (param_count p <=? length (params p))%nat
  then Ret (set_attrs (set_parser v p) (foldl sgr_step (attrs v) (take (param_count p) (params p))))
  else Panic.

(** Device status: two decimal digits for the row and for the column. *)
Definition report (v : Vga) : Vga :=
  let mode := csi_param v 0 0 in
  if mode =? 6 then
    let r := Z.of_nat (row v + 1) in
    let c := Z.of_nat (col v + 1) in
    send v [27; 91; 48 + r / 10; 48 + r mod 10; 59; 48 + c / 10; 48 + c mod 10; 82]
  else if mode =? 5 then send v [27; 91; 48; 110]
  else v.

Definition insert_line (attr : Z) (r : nat) (cs : list cell) : exec (list cell) :=
  let! cs := copy_cells cs (mjoin ((fun i => row_moves (i - 1) i) <$> reverse (seq (r + 1) (ROWS - (r + 1))))) in
  fill cs (span r 0 COLS) (32, attr).

Definition delete_line (attr : Z) (r : nat) (cs : list cell) : exec (list cell) :=
  let! cs := copy_cells cs (mjoin ((fun i => row_moves (i + 1) i) <$> seq r (ROWS - 1 - r))) in
  fill cs (span (ROWS - 1) 0 COLS) (32, attr).

(** [for _ in 0..n] *)
Fixpoint repeat_exec {A : Type} (n : nat) (f : A → exec A) (a : A) : exec A :=
  match n with
  | O => Ret a
  | S n => let! a := f a in repeat_exec n f a
  end.

Definition change_lines (f : Z → nat → list cell → exec (list cell)) (v : Vga) : exec Vga :=
  let! cs := repeat_exec (param_nat v 0 1) (f (current_attr (attrs v)) (row v)) (cells v) in
  Ret (set_cells v cs).

Definition csi_dispatch (v : Vga) (final_byte : Z) : exec Vga :=
  let n := param_nat v 0 1 in
  let! v :=
    if (final_byte =? 72) || (final_byte =? 102) then
      Ret (move v (Nat.min (param_nat v 1 1 - 1) (COLS - 1)) (Nat.min (n - 1) (ROWS - 1)))
    else if final_byte =? 65 then Ret (move v (col v) (row v - n))
    else if final_byte =? 66 then Ret (move v (col v) (Nat.min (row v + n) (ROWS - 1)))
    else if final_byte =? 67 then Ret (move v (Nat.min (col v + n) (COLS - 1)) (row v))
    else if final_byte =? 68 then Ret (move v (col v - n) (row v))
    else if final_byte =? 69 then Ret (move v 0 (Nat.min (row v + n) (ROWS - 1)))
    else if final_byte =? 70 then Ret (move v 0 (row v - n))
    else if final_byte =? 71 then Ret (move v (Nat.min (n - 1) (COLS - 1)) (row v))
    else if final_byte =? 100 then Ret (move v (col v) (Nat.min (n - 1) (ROWS - 1)))
    else if final_byte =? 74 then erase_display v
    else if final_byte =? 75 then erase_line v
    else if final_byte =? 88 then erase_chars v
    else if final_byte =? 109 then sgr v
    else if final_byte =? 104 then
      Ret (if has_question (parser v) && (csi_param v 0 0 =? 25) then set_visible v true else v)
    else if final_byte =? 108 then
      Ret (if has_question (parser v) && (csi_param v 0 0 =? 25) then set_visible v false else v)
    else if final_byte =? 115 then Ret (save v)
    else if final_byte =? 117 then Ret (move v (saved_col v) (saved_row v))
    else if final_byte =? 110 then Ret (report v)
    else if final_byte =? 114 then Ret v
    else if final_byte =? 76 then change_lines insert_line v
    else if final_byte =? 77 then change_lines delete_line v
    else Ret v in
  Ret (update_hardware_cursor v).

(** ** Characters *)

Definition clear_screen (v : Vga) : exec Vga :=
  let! cs := fill (cells v) (rows_between 0 ROWS) (32, DEFAULT_ATTR) in
  Ret (update_hardware_cursor (move (set_cells v cs) 0 0)).

(** A character at the cursor, which then moves on. *)
Definition put_here (v : Vga) (c : Z) : exec Vga :=
  let! cs := write_char (cells v) (col v) (row v) c (current_attr (attrs v)) in
  let v := move (set_cells v cs) (S (col v)) (row v) in
  if (COLS <=? col v)%nat then next_row (move v 0 (row v)) else Ret v.

(** The loop of the tab: it ends when the line does. *)
Fixpoint put_spaces (n : nat) (v : Vga) : exec Vga :=
  match n with
  | O => Ret v
  | S n =>
      let! v' := put_here v 32 in
      if (COLS <=? S (col v))%nat then Ret v' else put_spaces n v'
  end.

Definition put_tab (v : Vga) : exec Vga :=
  let next_tab := ((col v + 8) / 8 * 8)%nat in
  put_spaces (if (next_tab <? COLS)%nat then next_tab - col v else COLS - col v) v.

Definition put_normal (v : Vga) (c : Z) : exec Vga :=
  let! v :=
    if c =? 0x1B then Ret (set_state v Escape)
    else if c =? 10 then next_row (move v 0 (row v))
    else if c =? 13 then Ret (move v 0 (row v))
    else if c =? 9 then put_tab v
    else if c =? 8 then Ret (if (0 <? col v)%nat then move v (col v - 1) (row v) else v)
    else if c =? 7 then Ret v
    else if 0x20 <=? c then put_here v c
    else Ret v in
  Ret (update_hardware_cursor v).

Definition reverse_index (v : Vga) : exec Vga :=
  if (row v =? 0)%nat then
    let cs := foldl (fun cs r => take (r * COLS) cs ++ take COLS (drop ((r - 1) * COLS) cs) ++ drop ((r + 1) * COLS) cs)
                (cells v) (reverse (seq 1 (ROWS - 1))) in
    let! cs := fill cs (span 0 0 COLS) (32, current_attr (attrs v)) in
    Ret (set_cells v cs)
  else Ret (move v (col v) (row v - 1)).

Definition put_escape (v : Vga) (c : Z) : exec Vga :=
  if c =? 91 then Ret (set_parser v (mkParser Csi (replicate CSI_MAX_PARAMS 0) 0 false))
  else if c =? 99 then
    let! v := clear_screen v in
    Ret (set_state (set_visible (set_attrs v (mkAttrs 7 0 false false)) true) Normal)
  else if c =? 55 then Ret (set_state (save v) Normal)
  else if c =? 56 then Ret (set_state (update_hardware_cursor (move v (saved_col v) (saved_row v))) Normal)
  else if c =? 68 then let! v := next_row v in Ret (set_state (update_hardware_cursor v) Normal)
  else if c =? 77 then let! v := reverse_index v in Ret (set_state (update_hardware_cursor v) Normal)
  else Ret (set_state v Normal).

Definition put_csi (v : Vga) (c : Z) : exec Vga :=
  let p := parser v in
  let n := param_count p in
  if (48 <=? c) && (c <=? 57) then
    if (n <? CSI_MAX_PARAMS)%nat
    then Ret (set_parser v (mkParser Csi (<[n := u16 (params p !!! n * 10 + (c - 48))]> (params p)) n (has_question p)))
    else Ret v
  else if c =? 59 then
    Ret (if (n <? CSI_MAX_PARAMS - 1)%nat then set_parser v (mkParser Csi (params p) (S n) (has_question p)) else v)
  else if c =? 63 then Ret (set_parser v (mkParser Csi (params p) n true))
  else if (0x20 <=? c) && (c <=? 0x2F) then Ret v
  else if (0x40 <=? c) && (c <=? 0x7E) then
    let v := if (n =? 0)%nat && (params p !!! 0%nat =? 0) then v else set_parser v (mkParser Csi (params p) (S n) (has_question p)) in
    let! v := csi_dispatch v c in
    Ret (set_state v Normal)
  else Ret (set_state v Normal).

(** [initialized]: VGA_INITIALIZED *)
Definition putchar (initialized : bool) (v : Vga) (c : Z) : exec Vga :=
  if negb initialized then Ret v
  else match pstate (parser v) with
       | Normal => put_normal v c
       | Escape => put_escape v c
       | Csi => put_csi v c
       end.

Definition screen_size : nat * nat := (COLS, ROWS).
Definition cursor_pos (v : Vga) : nat * nat := (col v, row v).

(** The state before [init], on whatever the buffer holds, and after it. *)
Definition power_on (cs : list cell) : Vga :=
  mkVga cs 0 0 true (mkAttrs 7 0 false false) 0 0 (mkParser Normal (replicate CSI_MAX_PARAMS 0) 0 false) 0 [].

Fixpoint puts (v : Vga) (bs : list Z) : exec Vga :=
  match bs with
  | [] => Ret v
  | b :: bs => let! v := putchar true v b in puts v bs
  end.

(** [print] of the console: each byte goes to the serial port and to the screen, a newline with a carriage return
    before it. *)
Definition console_putchar (initialized : bool) (v : Vga) (c : Z) : exec Vga := putchar initialized (send v [c]) c.

Fixpoint console_print (initialized : bool) (v : Vga) (s : list Z) : exec Vga :=
  match s with
  | [] => Ret v
  | b :: s =>
      let! v := if b =? 10 then console_putchar initialized v 13 else Ret v in
      let! v := console_putchar initialized v b in
      console_print initialized v s
  end.

Definition bytes_of (s : string) : list Z := (fun a => Z.of_N (Ascii.N_of_ascii a)) <$> String.list_ascii_of_string s.

Definition banner : list Z := bytes_of "[vga] Text mode 80x25 initialized (ANSI escape support)" ++ [10].

Definition init (v : Vga) : exec Vga :=
  let! v := clear_screen v in
  console_print true v banner.

(** ** The buffer operations stay inside *)

Lemma write_cell_ok cs i c : (i < length cs)%nat → write_cell cs i c = Ret (<[i := c]> cs).
Proof. intros. unfold write_cell. by rewrite (proj2 (Nat.ltb_lt _ _)). Qed.

Lemma fill_ok ixs c : ∀ cs, Forall (fun i => (i < length cs)%nat) ixs →
  ∃ cs', fill cs ixs c = Ret cs' ∧ length cs' = length cs ∧
    (∀ i, i ∈ ixs → cs' !! i = Some c) ∧ (∀ i, i ∉ ixs → cs' !! i = cs !! i).
Proof.
  induction ixs as [|j ixs IH]; intros cs Hin; cbn.
  - exists cs. splits; try done. intros i Hi. by apply elem_of_nil in Hi.
  - apply Forall_cons in Hin as [Hj Hin]. rewrite write_cell_ok by done. cbn.
    destruct (IH (<[j := c]> cs)) as (cs' & -> & Hlen & Hset & Hkeep).
    { rewrite length_insert. done. }
    rewrite length_insert in Hlen. exists cs'. splits; try done.
    + intros i Hi. destruct (decide (i ∈ ixs)) as [Hr|Hr]; [by apply Hset|].
      apply elem_of_cons in Hi as [-> | Hi]; [|done].
      rewrite Hkeep by done. by apply list_lookup_insert_eq.
    + intros i Hi. apply not_elem_of_cons in Hi as [Hne Hi]. rewrite Hkeep by done.
      by apply list_lookup_insert_ne.
Qed.

Lemma elem_of_span i r a b : i ∈ span r a b ↔ (r * COLS + a ≤ i < r * COLS + b)%nat.
Proof.
  unfold span. rewrite list_elem_of_fmap. split.
  - intros (c & -> & Hc%elem_of_seq). lia.
  - intros Hi. exists (i - r * COLS)%nat. rewrite elem_of_seq. lia.
Qed.

Lemma elem_of_rows_between i a b : i ∈ rows_between a b ↔ (a * COLS ≤ i < b * COLS)%nat.
Proof.
  unfold rows_between. rewrite list_elem_of_join. setoid_rewrite list_elem_of_fmap. split.
  - intros (l & Hi & r & -> & Hr%elem_of_seq). apply elem_of_span in Hi. unfold COLS in *. nia.
  - intros Hi. exists (span (i / COLS) 0 COLS). pose proof (Nat.div_mod_eq i COLS). pose proof (Nat.mod_upper_bound i COLS).
    unfold COLS in *. rewrite elem_of_span. split; [unfold COLS; lia|].
    exists (i / 80)%nat. split; [done|]. rewrite elem_of_seq. lia.
Qed.

(** Every cell of the buffer is a pair of bytes. *)
Definition byte_cells (cs : list cell) : Prop := Forall (fun c => is_byte c.1 ∧ is_byte c.2) cs.

Definition buffer_ok (cs : list cell) : Prop := length cs = (COLS * ROWS)%nat ∧ byte_cells cs.

Lemma write_cell_buffer cs i c : buffer_ok cs → (i < COLS * ROWS)%nat → is_byte c.1 → is_byte c.2 →
  ∃ cs', write_cell cs i c = Ret cs' ∧ buffer_ok cs'.
Proof.
  intros [Hlen Hb] Hi H1 H2. eexists. split; [apply write_cell_ok; lia|]. split; [by rewrite length_insert|].
  by apply Forall_insert.
Qed.

Lemma fill_buffer ixs c : is_byte c.1 → is_byte c.2 → ∀ cs, buffer_ok cs → Forall (fun i => (i < COLS * ROWS)%nat) ixs →
  ∃ cs', fill cs ixs c = Ret cs' ∧ buffer_ok cs'.
Proof.
  intros H1 H2. induction ixs as [|j ixs IH]; intros cs Hcs Hin; cbn; [eauto|].
  apply Forall_cons in Hin as [Hj Hin]. destruct (write_cell_buffer cs j c) as (cs' & -> & Hcs'); try done. by apply IH.
Qed.

Lemma copy_buffer moves : ∀ cs, buffer_ok cs → Forall (fun m => (m.1 < COLS * ROWS)%nat ∧ (m.2 < COLS * ROWS)%nat) moves →
  ∃ cs', copy_cells cs moves = Ret cs' ∧ buffer_ok cs'.
Proof.
  induction moves as [|[src dst] moves IH]; intros cs Hcs Hin; cbn [copy_cells]; [eauto|].
  apply Forall_cons in Hin as [[Hs Hd] Hin]. cbn [fst snd] in Hs, Hd.
  destruct (lookup_lt_is_Some_2 cs src) as [c Hc]; [destruct Hcs; lia|]. rewrite Hc.
  assert (is_byte c.1 ∧ is_byte c.2) as [H1 H2] by (destruct Hcs as [_ Hb]; by eapply Forall_lookup_1 in Hb).
  destruct (write_cell_buffer cs dst c) as (cs' & -> & Hcs'); try done. by apply IH.
Qed.

Lemma span_inside r a b : (r < ROWS)%nat → (b ≤ COLS)%nat → Forall (fun i => (i < COLS * ROWS)%nat) (span r a b).
Proof. intros. apply Forall_forall. intros i Hi%elem_of_span. unfold COLS, ROWS in *. lia. Qed.

Lemma rows_inside a b : (b ≤ ROWS)%nat → Forall (fun i => (i < COLS * ROWS)%nat) (rows_between a b).
Proof. intros. apply Forall_forall. intros i Hi%elem_of_rows_between. unfold COLS, ROWS in *. lia. Qed.

Lemma row_moves_inside src dst : (src < ROWS)%nat → (dst < ROWS)%nat →
  Forall (fun m => (m.1 < COLS * ROWS)%nat ∧ (m.2 < COLS * ROWS)%nat) (row_moves src dst).
Proof.
  intros. apply Forall_fmap, Forall_forall. intros c Hc%elem_of_seq. unfold compose. cbn [fst snd].
  unfold COLS, ROWS in *. lia.
Qed.

(** ** The invariant of the console *)

Definition attrs_ok (a : Attrs) : Prop := 0 ≤ fg a < 16 ∧ 0 ≤ bg a < 16.

Definition params_ok (p : Parser) : Prop :=
  length (params p) = CSI_MAX_PARAMS ∧ Forall (fun x => 0 ≤ x < 2 ^ 16) (params p) ∧ (param_count p ≤ CSI_MAX_PARAMS)%nat.

Record screen_ok (v : Vga) : Prop := mkScreenOk {
  ok_buffer : buffer_ok (cells v);
  ok_col : (col v < COLS)%nat;
  ok_row : (row v < ROWS)%nat;
  ok_saved : (saved_col v < COLS)%nat ∧ (saved_row v < ROWS)%nat;
  ok_attrs : attrs_ok (attrs v);
  ok_params : params_ok (parser v)
}.

(** While parameters are collected there is room for one more. *)
Definition vga_ok (v : Vga) : Prop :=
  screen_ok v ∧ (pstate (parser v) = Csi → (param_count (parser v) < CSI_MAX_PARAMS)%nat).

Lemma current_attr_byte a : attrs_ok a → is_byte (current_attr a).
Proof.
  intros [Hf Hb]. destruct a as [f b bo rv]. cbn in Hf, Hb.
  assert (f = 0 ∨ f = 1 ∨ f = 2 ∨ f = 3 ∨ f = 4 ∨ f = 5 ∨ f = 6 ∨ f = 7 ∨ f = 8 ∨ f = 9 ∨ f = 10 ∨ f = 11 ∨ f = 12 ∨ f = 13 ∨ f = 14 ∨ f = 15) as Ef by lia.
  assert (b = 0 ∨ b = 1 ∨ b = 2 ∨ b = 3 ∨ b = 4 ∨ b = 5 ∨ b = 6 ∨ b = 7 ∨ b = 8 ∨ b = 9 ∨ b = 10 ∨ b = 11 ∨ b = 12 ∨ b = 13 ∨ b = 14 ∨ b = 15) as Eb by lia.
  repeat destruct Ef as [-> | Ef]; try subst f; repeat destruct Eb as [-> | Eb]; try subst b; destruct bo, rv; by vm_compute.
Qed.

Lemma sgr_step_ok a p : attrs_ok a → attrs_ok (sgr_step a p).
Proof.
  intros [Hf Hb]. unfold sgr_step.
  repeat match goal with |- context [if ?b then _ else _] => destruct b eqn:?E end; split; cbn [fg bg]; lia.
Qed.

(** What an operation promises: it returns, and the screen stays well formed. *)
Definition total_ok (v : Vga) (r : exec Vga) : Prop :=
  ∃ v', r = Ret v' ∧ screen_ok v' ∧ pstate (parser v') = pstate (parser v).

Create HintDb vga.

Lemma total_ok_ret v v' : screen_ok v' → pstate (parser v') = pstate (parser v) → total_ok v (Ret v').
Proof. intros. by exists v'. Qed.

Lemma total_ok_bind v r f : total_ok v r → (∀ v', screen_ok v' → total_ok v' (f v')) → total_ok v (exec_bind r f).
Proof. intros (v' & -> & Hv' & Hp) Hf. destruct (Hf v' Hv') as (w & Hw & Hok & Hq). exists w. splits; try done. congruence. Qed.

Lemma set_cells_ok v cs : screen_ok v → buffer_ok cs → screen_ok (set_cells v cs).
Proof. intros [] ?. by constructor. Qed.

Lemma move_ok v c r : screen_ok v → (c < COLS)%nat → (r < ROWS)%nat → screen_ok (move v c r).
Proof. intros [] ? ?. by constructor. Qed.

Lemma update_hardware_cursor_ok v : screen_ok v → screen_ok (update_hardware_cursor v).
Proof. intros []. by constructor. Qed.

Lemma blank_attr_byte v : screen_ok v → is_byte (current_attr (attrs v)).
Proof. intros []. by apply current_attr_byte. Qed.

Lemma erase_ok v ixs : screen_ok v → Forall (fun i => (i < COLS * ROWS)%nat) ixs → total_ok v (erase v ixs).
Proof.
  intros Hv Hin. unfold erase.
  destruct (fill_buffer ixs (32, current_attr (attrs v))) with (cs := cells v) as (cs & -> & Hcs);
    [by cbn|by apply blank_attr_byte|by apply Hv|done|].
  apply total_ok_ret; [by apply set_cells_ok|done].
Qed.

Lemma scroll_buffer cs : buffer_ok cs →
  buffer_ok (take (COLS * (ROWS - 1)) (drop COLS cs) ++ drop (COLS * (ROWS - 1)) cs).
Proof.
  intros [Hlen Hb]. split.
  - rewrite length_app, length_take, !length_drop, Hlen. done.
  - apply Forall_app. split; [by apply Forall_take, Forall_drop|by apply Forall_drop].
Qed.

Lemma scroll_up_ok v : screen_ok v → total_ok v (scroll_up v).
Proof.
  intros Hv. unfold scroll_up.
  destruct (fill_buffer (span (ROWS - 1) 0 COLS) (32, current_attr (attrs v)))
    with (cs := take (COLS * (ROWS - 1)) (drop COLS (cells v)) ++ drop (COLS * (ROWS - 1)) (cells v)) as (cs & -> & Hcs);
    [by cbn|by apply blank_attr_byte|by apply scroll_buffer, Hv|apply span_inside; unfold ROWS; lia|].
  apply total_ok_ret; [by apply set_cells_ok|done].
Qed.

Lemma scroll_up_pos v v' : scroll_up v = Ret v' → col v' = col v ∧ row v' = row v.
Proof. unfold scroll_up. destruct (fill _ _ _); cbn; intros [= <-]; done. Qed.

(** The row may be one past the last when this starts. *)
Lemma scroll_up_past v : screen_ok (move v (col v) (ROWS - 1)) →
  total_ok v (let! v := scroll_up v in Ret (move v (col v) (ROWS - 1))).
Proof.
  intros Hv. destruct (scroll_up_ok _ Hv) as (w & Hw & Hok & Hp). unfold scroll_up in *. cbn [move cells attrs] in Hw.
  destruct (fill _ _ _) as [cs|]; cbn in Hw |- *; [|done]. injection Hw as <-.
  apply total_ok_ret; [|done]. destruct Hok. by constructor.
Qed.

Lemma next_row_ok v : screen_ok v → total_ok v (next_row v).
Proof.
  intros Hv. unfold next_row. cbn [row move].
  destruct (Nat.leb_spec ROWS (S (row v))).
  - apply (scroll_up_past (move v (col v) (S (row v)))). destruct Hv. constructor; try done. cbn. unfold ROWS. lia.
  - apply total_ok_ret; [|done]. apply move_ok; [done|apply Hv|lia].
Qed.

Lemma put_here_ok v c : screen_ok v → is_byte c → total_ok v (put_here v c).
Proof.
  intros Hv Hc. unfold put_here, write_char. pose proof (ok_col _ Hv). pose proof (ok_row _ Hv).
  destruct (write_cell_buffer (cells v) (row v * COLS + col v) (c, current_attr (attrs v))) as (cs & -> & Hcs);
    [apply Hv|unfold COLS, ROWS in *; lia|done|by apply blank_attr_byte|].
  cbn [exec_bind]. cbn [col move]. destruct (Nat.leb_spec COLS (S (col v))).
  - apply (next_row_ok (move (move (set_cells v cs) (S (col v)) (row v)) 0 (row v))).
    destruct Hv. constructor; try done. cbn. unfold COLS. lia.
  - apply total_ok_ret; [|done]. apply move_ok; [by apply set_cells_ok|lia|done].
Qed.

Lemma put_spaces_ok n : ∀ v, screen_ok v → total_ok v (put_spaces n v).
Proof.
  induction n as [|n IH]; intros v Hv; cbn [put_spaces]; [by apply total_ok_ret|].
  apply total_ok_bind; [by apply put_here_ok; [|vm_compute]|]. intros v' Hv'.
  destruct (_ <=? _)%nat; [by apply total_ok_ret|by apply IH].
Qed.

Lemma repeat_exec_ok {A : Type} (P : A → Prop) (f : A → exec A) : (∀ a, P a → ∃ b, f a = Ret b ∧ P b) →
  ∀ n a, P a → ∃ b, repeat_exec n f a = Ret b ∧ P b.
Proof.
  intros Hf n. induction n as [|n IH]; intros a Ha; cbn; [eauto|].
  destruct (Hf a Ha) as (b & -> & Hb). by apply IH.
Qed.

Lemma insert_line_buffer attr r cs : is_byte attr → (r < ROWS)%nat → buffer_ok cs →
  ∃ cs', insert_line attr r cs = Ret cs' ∧ buffer_ok cs'.
Proof.
  intros Ha Hr Hcs. unfold insert_line.
  destruct (copy_buffer (mjoin ((fun i => row_moves (i - 1) i) <$> reverse (seq (r + 1) (ROWS - (r + 1))))) cs Hcs) as (cs' & -> & Hcs').
  { apply Forall_join, Forall_fmap, Forall_reverse, Forall_forall. intros i Hi%elem_of_seq. apply row_moves_inside; lia. }
  cbn [exec_bind]. apply fill_buffer; [by cbn|done|done|by apply span_inside].
Qed.

Lemma delete_line_buffer attr r cs : is_byte attr → (r < ROWS)%nat → buffer_ok cs →
  ∃ cs', delete_line attr r cs = Ret cs' ∧ buffer_ok cs'.
Proof.
  intros Ha Hr Hcs. unfold delete_line.
  destruct (copy_buffer (mjoin ((fun i => row_moves (i + 1) i) <$> seq r (ROWS - 1 - r))) cs Hcs) as (cs' & -> & Hcs').
  { apply Forall_join, Forall_fmap, Forall_forall. intros i Hi%elem_of_seq. apply row_moves_inside; unfold ROWS in *; lia. }
  cbn [exec_bind]. apply fill_buffer; [by cbn|done|done|apply span_inside; unfold ROWS; lia].
Qed.

Lemma change_lines_ok f v : screen_ok v →
  (∀ attr r cs, is_byte attr → (r < ROWS)%nat → buffer_ok cs → ∃ cs', f attr r cs = Ret cs' ∧ buffer_ok cs') →
  total_ok v (change_lines f v).
Proof.
  intros Hv Hf. unfold change_lines.
  destruct (repeat_exec_ok buffer_ok (f (current_attr (attrs v)) (row v))) with (n := param_nat v 0 1) (a := cells v)
    as (cs & -> & Hcs); [|apply Hv|].
  - intros cs Hcs. apply Hf; [by apply blank_attr_byte|apply Hv|done].
  - apply total_ok_ret; [by apply set_cells_ok|done].
Qed.

Lemma sgr_ok v : screen_ok v → total_ok v (sgr v).
Proof.
  intros Hv. destruct (ok_params _ Hv) as (Hlen & Hu & Hn). unfold sgr.
  set (p := if (param_count (parser v) =? 0)%nat then _ else _).
  assert (params_ok p ∧ pstate p = pstate (parser v)) as [(Hlen' & Hu' & Hn') Hs].
  { subst p. destruct (_ =? 0)%nat; [|done]. split; [|done]. unfold params_ok. splits; cbn [params param_count].
    - by rewrite length_insert.
    - by apply Forall_insert.
    - unfold CSI_MAX_PARAMS. lia. }
  rewrite (proj2 (Nat.leb_le _ _)) by lia. apply total_ok_ret; [|done].
  destruct Hv. constructor; try done. cbn [attrs set_attrs]. clearbody p. revert ok_attrs0.
  generalize (take (param_count p) (params p)). intros l. generalize (attrs v).
  induction l as [|x l IH]; intros a Ha; cbn; [done|]. by apply IH, sgr_step_ok.
Qed.

#[export] Hint Resolve total_ok_ret erase_ok scroll_up_ok next_row_ok put_here_ok put_spaces_ok sgr_ok : vga.

Lemma clear_screen_buffer v : buffer_ok (cells v) → ∃ cs, clear_screen v = Ret (update_hardware_cursor (move (set_cells v cs) 0 0)) ∧
  fill (cells v) (rows_between 0 ROWS) (32, DEFAULT_ATTR) = Ret cs ∧ buffer_ok cs.
Proof.
  intros Hv. unfold clear_screen.
  destruct (fill_buffer (rows_between 0 ROWS) (32, DEFAULT_ATTR)) with (cs := cells v) as (cs & -> & Hcs);
    [by cbn|by cbn|done|by apply rows_inside|].
  by exists cs.
Qed.

Lemma clear_screen_ok v : screen_ok v → total_ok v (clear_screen v).
Proof.
  intros Hv. destruct (clear_screen_buffer v) as (cs & -> & _ & Hcs); [apply Hv|].
  apply total_ok_ret; [|done]. apply update_hardware_cursor_ok, move_ok; [by apply set_cells_ok|unfold COLS; lia|unfold ROWS; lia].
Qed.

Lemma shift_down_buffer l : ∀ cs, Forall (fun r => (1 ≤ r < ROWS)%nat) l → buffer_ok cs →
  buffer_ok (foldl (fun cs r => take (r * COLS) cs ++ take COLS (drop ((r - 1) * COLS) cs) ++ drop ((r + 1) * COLS) cs) cs l).
Proof.
  induction l as [|r l IH]; intros cs Hl Hcs; cbn [foldl]; [done|].
  apply Forall_cons in Hl as [Hr Hl]. apply IH; [done|]. destruct Hcs as [Hlen Hb]. split.
  - rewrite !length_app, !length_take, !length_drop, Hlen. unfold COLS, ROWS in *. lia.
  - unfold byte_cells in *. rewrite !Forall_app. splits; [by apply Forall_take|by apply Forall_take, Forall_drop|by apply Forall_drop].
Qed.

Lemma reverse_index_ok v : screen_ok v → total_ok v (reverse_index v).
Proof.
  intros Hv. unfold reverse_index. destruct (Nat.eqb_spec (row v) 0) as [E|E].
  - set (cs0 := foldl _ _ _). assert (buffer_ok cs0) as Hcs0.
    { apply shift_down_buffer; [|apply Hv]. apply Forall_reverse, Forall_forall. intros r Hr%elem_of_seq. unfold ROWS in *. lia. }
    clearbody cs0. destruct (fill_buffer (span 0 0 COLS) (32, current_attr (attrs v))) with (cs := cs0) as (cs & -> & Hcs);
      [by cbn|by apply blank_attr_byte|done|apply span_inside; unfold ROWS; lia|].
    apply total_ok_ret; [by apply set_cells_ok|done].
  - apply total_ok_ret; [|done]. apply move_ok; [done|apply Hv|]. pose proof (ok_row _ Hv). lia.
Qed.

Lemma erase_display_ok v : screen_ok v → total_ok v (erase_display v).
Proof.
  intros Hv. pose proof (ok_col _ Hv). pose proof (ok_row _ Hv). unfold erase_display.
  repeat case_match; auto with vga; apply erase_ok; try done; rewrite ?Forall_app; splits;
    first [apply span_inside; unfold ROWS, COLS in *; lia | apply rows_inside; unfold ROWS in *; lia].
Qed.

Lemma erase_line_ok v : screen_ok v → total_ok v (erase_line v).
Proof.
  intros Hv. pose proof (ok_col _ Hv). pose proof (ok_row _ Hv). unfold erase_line.
  repeat case_match; auto with vga; apply erase_ok; try done; apply span_inside; unfold COLS in *; lia.
Qed.

Lemma erase_chars_ok v : screen_ok v → total_ok v (erase_chars v).
Proof. intros Hv. apply erase_ok; [done|]. apply span_inside; [apply Hv|lia]. Qed.

Lemma report_ok v : screen_ok v → screen_ok (report v) ∧ pstate (parser (report v)) = pstate (parser v).
Proof. intros Hv. unfold report. repeat case_match; split; try done; destruct Hv; by constructor. Qed.

(** Every final byte of a control sequence keeps the screen well formed. *)
Lemma csi_dispatch_ok v c : screen_ok v → total_ok v (csi_dispatch v c).
Proof.
  intros Hv. pose proof (ok_col _ Hv). pose proof (ok_row _ Hv). pose proof (ok_saved _ Hv) as [? ?]. unfold csi_dispatch.
  apply total_ok_bind; [|intros v' Hv'; apply total_ok_ret; [by apply update_hardware_cursor_ok|done]].
  set (n := param_nat v 0 1). set (m := param_nat v 1 1). clearbody n m.
  repeat lazymatch goal with |- total_ok _ (if ?b then _ else _) => destruct b end;
    first [ apply total_ok_ret; [apply move_ok; unfold COLS, ROWS in *; try done; lia | done]
          | by apply erase_display_ok | by apply erase_line_ok | by apply erase_chars_ok | by apply sgr_ok
          | apply change_lines_ok; [done|]; intros; by apply insert_line_buffer
          | apply change_lines_ok; [done|]; intros; by apply delete_line_buffer
          | apply total_ok_ret; by apply report_ok
          | apply total_ok_ret; [destruct (_ && _); destruct Hv; by constructor | by destruct (_ && _)]
          | apply total_ok_ret; [destruct Hv; by constructor | done] ].
Qed.

Lemma set_state_ok v s : screen_ok v → screen_ok (set_state v s).
Proof. intros []. by constructor. Qed.

Lemma put_escape_ok v c : screen_ok v → ∃ v', put_escape v c = Ret v' ∧ vga_ok v'.
Proof.
  intros Hv. pose proof (ok_saved _ Hv) as [? ?]. unfold put_escape.
  assert (∀ w, screen_ok w → vga_ok (set_state w Normal)) as Hnormal by (intros w Hw; split; [by apply set_state_ok|done]).
  repeat lazymatch goal with |- context [if ?b then _ else _] => destruct b end.
  - eexists. split; [reflexivity|]. split; [|cbn; unfold CSI_MAX_PARAMS; lia].
    destruct Hv. constructor; try done. unfold params_ok. splits; [done|by apply Forall_replicate|cbn; lia].
  - destruct (clear_screen_ok v Hv) as (w & -> & Hw & _). eexists. split; [reflexivity|]. apply Hnormal.
    destruct Hw. by constructor.
  - eexists. split; [reflexivity|]. apply Hnormal. destruct Hv. by constructor.
  - eexists. split; [reflexivity|]. by apply Hnormal, update_hardware_cursor_ok, move_ok.
  - destruct (next_row_ok v Hv) as (w & -> & Hw & _). eexists. split; [reflexivity|]. by apply Hnormal, update_hardware_cursor_ok.
  - destruct (reverse_index_ok v Hv) as (w & -> & Hw & _). eexists. split; [reflexivity|]. by apply Hnormal, update_hardware_cursor_ok.
  - eexists. split; [reflexivity|]. by apply Hnormal.
Qed.

Lemma set_parser_ok v p : screen_ok v → params_ok p → screen_ok (set_parser v p).
Proof. intros [] ?. by constructor. Qed.

Lemma put_csi_ok v c : screen_ok v → pstate (parser v) = Csi → (param_count (parser v) < CSI_MAX_PARAMS)%nat →
  ∃ v', put_csi v c = Ret v' ∧ vga_ok v'.
Proof.
  intros Hv Hs Hn. destruct (ok_params _ Hv) as (Hlen & Hu & _). unfold put_csi. rewrite (proj2 (Nat.ltb_lt _ _) Hn).
  repeat lazymatch goal with |- ∃ _, (if ?b then _ else _) = _ ∧ _ => destruct b end;
    try (eexists; split; [reflexivity|]).
  - split; [|done]. apply set_parser_ok; [done|]. unfold params_ok. cbn [params param_count]. rewrite length_insert.
    splits; [done| |lia]. apply Forall_insert; [done|]. by apply Z.mod_pos_bound.
  - destruct (Nat.ltb_spec (param_count (parser v)) (CSI_MAX_PARAMS - 1)) as [Hlt|Hge]; [|done].
    split; [|cbn; lia]. apply set_parser_ok; [done|]. unfold params_ok. cbn [params param_count]. splits; [done|done|lia].
  - split; [|done]. apply set_parser_ok; [done|]. unfold params_ok. cbn [params param_count]. splits; [done|done|lia].
  - done.
  - set (w := if _ && _ then _ else _). assert (screen_ok w) as Hw.
    { subst w. destruct (_ && _); [done|]. apply set_parser_ok; [done|]. unfold params_ok. cbn [params param_count].
      splits; [done|done|lia]. }
    clearbody w. destruct (csi_dispatch_ok w c Hw) as (w' & -> & Hw' & _). eexists. split; [reflexivity|].
    split; [by apply set_state_ok|done].
  - split; [by apply set_state_ok|done].
Qed.

Lemma putchar_ok v c : vga_ok v → is_byte c → ∃ v', putchar true v c = Ret v' ∧ vga_ok v'.
Proof.
  intros [Hv Hn] Hc. unfold putchar. cbn [negb]. destruct (pstate (parser v)) eqn:Es.
  - assert (total_ok v (put_normal v c) ∨ c = 27) as [(v' & -> & Hv' & Hs)| ->].
    { destruct (Z.eq_dec c 27) as [->|Hne]; [by right|left]. unfold put_normal.
      rewrite (proj2 (Z.eqb_neq c 0x1B)) by done.
      apply total_ok_bind; [|intros v' Hv'; apply total_ok_ret; [by apply update_hardware_cursor_ok|done]].
      assert (screen_ok (move v 0 (row v))) as Hm by (apply move_ok; [done|unfold COLS; lia|apply Hv]).
      repeat case_match; auto with vga.
      - by apply (next_row_ok (move v 0 (row v))).
      - by apply put_spaces_ok.
      - apply total_ok_ret; [|done]. pose proof (ok_col _ Hv). apply move_ok; [done|lia|apply Hv]. }
    + exists v'. split; [done|]. split; [done|]. rewrite Hs, Es. done.
    + eexists. split; [reflexivity|]. split; [by apply update_hardware_cursor_ok, set_state_ok|done].
  - apply put_escape_ok; done.
  - apply put_csi_ok; try done. by apply Hn.
Qed.

Lemma puts_ok bs : ∀ v, Forall is_byte bs → vga_ok v → ∃ v', puts v bs = Ret v' ∧ vga_ok v'.
Proof.
  induction bs as [|b bs IH]; intros v Hbs Hv; cbn [puts]; [eauto|]. apply Forall_cons in Hbs as [Hb Hbs].
  destruct (putchar_ok v b Hv Hb) as (v' & -> & Hv'). by apply IH.
Qed.

Lemma console_print_ok s : ∀ v, Forall is_byte s → vga_ok v → ∃ v', console_print true v s = Ret v' ∧ vga_ok v'.
Proof.
  assert (∀ v c, vga_ok v → is_byte c → ∃ v', console_putchar true v c = Ret v' ∧ vga_ok v') as Hput.
  { intros v c [[] Hn] Hc. apply putchar_ok; [|done]. split; [by constructor|done]. }
  induction s as [|b s IH]; intros v Hs Hv; cbn [console_print]; [eauto|]. apply Forall_cons in Hs as [Hb Hs].
  assert (∃ v', (if b =? 10 then console_putchar true v 13 else Ret v) = Ret v' ∧ vga_ok v') as (v1 & -> & Hv1).
  { destruct (b =? 10); [by apply Hput|eauto]. }
  cbn [exec_bind]. destruct (Hput v1 b Hv1 Hb) as (v2 & -> & Hv2). by apply IH.
Qed.

(** The console as [init] finds it on a buffer with arbitrary contents. *)
Lemma power_on_ok cs : buffer_ok cs → vga_ok (power_on cs).
Proof.
  intros Hcs. split; [|done]. constructor; try done; cbn [power_on col row saved_col saved_row]; unfold COLS, ROWS; try lia.
  unfold params_ok. cbn [power_on parser params param_count]. splits; [done|by apply Forall_replicate|lia].
Qed.

(** C32: The console never leaves its buffer. [init] returns on any contents of the text buffer, and after it every
    sequence of bytes, escape sequences cut short or with any parameters included, is processed without an
    access outside the 80 x 25 cells or outside the parameter array; the cursor and the saved cursor stay on the
    screen and every cell holds two bytes. *)
Theorem console_stays_inside (cs : list cell) (bs : list Z) :
  buffer_ok cs → Forall is_byte bs →
  ∃ v0 v, init (power_on cs) = Ret v0 ∧ puts v0 bs = Ret v ∧ vga_ok v.
Proof.
  intros Hcs Hbs. unfold init.
  destruct (clear_screen_ok (power_on cs)) as (v1 & Hv1 & Hok & Hp); [by apply power_on_ok|]. rewrite Hv1. cbn [exec_bind].
  destruct (console_print_ok banner v1) as (v0 & Hv0 & Hok0).
  - apply Forall_forall. intros b Hb. apply list_elem_of_In in Hb. cbn in Hb. unfold is_byte. lia.
  - split; [done|]. by rewrite Hp.
  - destruct (puts_ok bs v0 Hbs Hok0) as (v & Hv & Hokv). exists v0, v. done.
Qed.

Lemma console_stays_inside_witness :
  ∃ v0 v, init (power_on (replicate 2000 (0, 0))) = Ret v0 ∧ puts v0 [27; 91; 57; 57; 57; 59; 59; 72; 255; 27; 77; 10] = Ret v ∧ vga_ok v.
Proof.
  apply (console_stays_inside (replicate 2000 (0, 0)) [27; 91; 57; 57; 57; 59; 59; 72; 255; 27; 77; 10]).
  - split; [by rewrite length_replicate|]. apply Forall_replicate. done.
  - repeat (apply Forall_cons; split; [done|]). apply Forall_nil. done.
Defined.

(** ** What printed text looks like *)

Definition blank : cell := (32, DEFAULT_ATTR).
Definition pad (l : list cell) : list cell := l ++ replicate (COLS - length l) blank.

(** A text: the finished lines and the line being written. *)
Abbreviation text := (list (list cell) * list cell)%type.

Definition lay_char (t : text) (c : Z) : text :=
  let cur := t.2 ++ [(c, DEFAULT_ATTR)] in
  if (length cur <? COLS)%nat then (t.1, cur) else (t.1 ++ [cur], []).

Definition lay (t : text) (b : Z) : text :=
  if b =? 10 then (t.1 ++ [pad t.2], [])
  else if b =? 9 then Nat.iter (8 - length t.2 mod 8) (fun t => lay_char t 32) t
  else lay_char t b.

(** Newlines, tabs and printable characters. *)
Definition plain (b : Z) : Prop := b = 10 ∨ b = 9 ∨ 32 ≤ b < 256.

(** The screen shows the last lines of a text, with the cursor at its end. *)
Record shows (v : Vga) (t : text) : Prop := mkShows {
  sh_cells : cells v = mjoin (drop (length t.1 - 24) t.1) ++ pad t.2 ++ replicate ((24 - length (drop (length t.1 - 24) t.1)) * COLS) blank;
  sh_row : row v = length (drop (length t.1 - 24) t.1);
  sh_col : col v = length t.2;
  sh_cur : (length t.2 < COLS)%nat;
  sh_lines : Forall (fun l => length l = COLS) t.1;
  sh_normal : pstate (parser v) = Normal;
  sh_attrs : attrs v = mkAttrs 7 0 false false
}.

Lemma length_pad l : (length l ≤ COLS)%nat → length (pad l) = COLS.
Proof. intros. unfold pad. rewrite length_app, length_replicate. lia. Qed.

Lemma mjoin_cons (l : list cell) (ls : list (list cell)) : mjoin (l :: ls) = l ++ mjoin ls.
Proof. done. Qed.

Lemma mjoin_last (l : list cell) (ls : list (list cell)) : mjoin (ls ++ [l]) = mjoin ls ++ l.
Proof. by rewrite join_app, mjoin_cons, app_nil_r. Qed.

Lemma length_mjoin_rows (ls : list (list cell)) : Forall (fun l => length l = COLS) ls → length (mjoin ls) = (length ls * COLS)%nat.
Proof. induction 1 as [|l ls Hl _ IH]; [done|]. rewrite mjoin_cons, length_app, IH, Hl. cbn. lia. Qed.

Lemma fill_last (a b : list cell) c : length a = (COLS * (ROWS - 1))%nat → length b = COLS →
  fill (a ++ b) (span (ROWS - 1) 0 COLS) c = Ret (a ++ replicate COLS c).
Proof.
  intros Ha Hb. destruct (fill_ok (span (ROWS - 1) 0 COLS) c (a ++ b)) as (cs & -> & Hlen & Hset & Hkeep).
  { eapply Forall_impl; [apply span_inside; unfold ROWS; lia|]. intros i Hi. rewrite length_app, Ha, Hb. unfold COLS, ROWS in *. lia. }
  f_equal. rewrite length_app, Ha, Hb in Hlen. apply list_eq. intros i.
  destruct (decide (i ∈ span (ROWS - 1) 0 COLS)) as [Hi|Hi].
  - rewrite Hset by done. apply elem_of_span in Hi. rewrite lookup_app_r by (unfold COLS, ROWS in *; lia).
    symmetry. apply lookup_replicate. split; [done|]. unfold COLS, ROWS in *. lia.
  - rewrite Hkeep by done. rewrite elem_of_span in Hi. destruct (decide (i < length a)%nat) as [Hl|Hl].
    + by rewrite !lookup_app_l.
    + assert (length a + COLS ≤ i)%nat by (unfold COLS, ROWS in *; lia).
      rewrite !lookup_ge_None_2; rewrite ?length_app, ?length_replicate; [done|lia|lia].
Qed.

(** A finished line moves the text up by one when the screen is full. *)
Lemma next_row_shows v ls l : 
  cells v = mjoin (drop (length ls - 24) ls) ++ l ++ replicate ((24 - length (drop (length ls - 24) ls)) * COLS) blank →
  row v = length (drop (length ls - 24) ls) → col v = 0%nat → length l = COLS → Forall (fun l => length l = COLS) ls →
  pstate (parser v) = Normal → attrs v = mkAttrs 7 0 false false →
  ∃ v', next_row v = Ret v' ∧ shows v' (ls ++ [l], []).
Proof.
  intros Hc Hr Hcol Hl Hls Hp Ha. rewrite length_drop in Hr, Hc. unfold next_row. cbn [row move].
  assert (Forall (fun l => length l = COLS) (ls ++ [l])) as Hls' by (apply Forall_app; split; [done|by apply Forall_cons]).
  destruct (Nat.leb_spec ROWS (S (row v))) as [Hfull|Hroom]; rewrite Hr in *; unfold ROWS in *.
  - unfold scroll_up. cbn [cells move attrs]. rewrite Hc, Ha.
    replace ((24 - (length ls - (length ls - 24))) * COLS)%nat with 0%nat by lia. cbn [replicate]. rewrite app_nil_r.
    destruct (drop (length ls - 24) ls) as [|l0 up] eqn:Hup.
    { apply (f_equal length) in Hup. rewrite length_drop in Hup. cbn in Hup. lia. }
    assert (Forall (fun l => length l = COLS) (l0 :: up)) as [Hl0 Hupl]%Forall_cons by (rewrite <- Hup; by apply Forall_drop).
    assert (length up = 23%nat) as Hlen by (apply (f_equal length) in Hup; rewrite length_drop in Hup; cbn in Hup; lia).
    assert (drop (length (ls ++ [l]) - 24) (ls ++ [l]) = up ++ [l]) as Hdrop.
    { rewrite length_app. cbn [length]. replace (length ls + 1 - 24)%nat with (length ls - 24 + 1)%nat by lia.
      rewrite <- drop_drop, drop_app_le by lia. rewrite Hup. done. }
    rewrite mjoin_cons, <- app_assoc, (drop_app_length' l0) by done.
    pose proof (length_mjoin_rows up Hupl) as Hj. rewrite Hlen in Hj.
    rewrite (take_ge (mjoin up ++ l)) by (rewrite length_app, Hj, Hl; unfold COLS, ROWS; lia).
    rewrite (app_assoc l0), drop_app_length' by (rewrite length_app, Hj, Hl0; done).
    rewrite <- app_assoc, (app_assoc (mjoin up) l), fill_last by (rewrite ?length_app, ?Hj; unfold COLS, ROWS in *; lia).
    eexists. split; [reflexivity|]. constructor; cbn [fst snd]; try done.
    + rewrite Hdrop, length_app, Hlen. cbn [cells move set_cells]. rewrite mjoin_last.
      cbn [length Nat.add Nat.sub Nat.mul replicate]. unfold pad. cbn [app]. rewrite app_nil_r. done.
    + rewrite Hdrop, length_app, Hlen. done.
    + cbn. unfold COLS. lia.
  - assert (length ls < 24)%nat by lia. eexists. split; [reflexivity|].
    assert (drop (length (ls ++ [l]) - 24) (ls ++ [l]) = ls ++ [l]) as Hdrop.
    { rewrite length_app. cbn [length]. replace (length ls + 1 - 24)%nat with 0%nat by lia. done. }
    constructor; cbn [fst snd]; try done.
    + rewrite Hdrop. cbn [cells move]. rewrite Hc. replace (length ls - 24)%nat with 0%nat by lia. rewrite drop_0, Nat.sub_0_r.
      rewrite mjoin_last, <- app_assoc. f_equal. f_equal.
      unfold pad. cbn [app length]. rewrite Nat.sub_0_r, <- replicate_add. f_equal. rewrite length_app. cbn. unfold COLS. lia.
    + rewrite Hdrop, length_app. cbn. lia.
    + cbn. unfold COLS. lia.
Qed.

Lemma shows_hw v t : shows v t → shows (update_hardware_cursor v) t.
Proof. intros []. by constructor. Qed.

Lemma pad_insert (l : list cell) (c : cell) : (length l < COLS)%nat → <[length l := c]> (pad l) = pad (l ++ [c]).
Proof.
  intros Hl. unfold pad. rewrite length_app. cbn [length].
  replace (COLS - length l)%nat with (S (COLS - (length l + 1))) by lia. cbn [replicate].
  rewrite insert_app_r_alt, Nat.sub_diag by lia. cbn. by rewrite <- app_assoc.
Qed.

Lemma put_here_shows v t c : shows v t → ∃ v', put_here v c = Ret v' ∧ shows v' (lay_char t c).
Proof.
  intros Hv. destruct t as [ls cur]. destruct Hv as [Hc Hr Hcol Hcur Hls Hp Ha]. cbn [fst snd] in *.
  set (up := drop (length ls - 24) ls) in *.
  assert (Forall (fun l => length l = COLS) up) as Hup by (by apply Forall_drop).
  pose proof (length_mjoin_rows up Hup) as Hj. pose proof (length_pad cur) as Hpad.
  unfold put_here, write_char. rewrite write_cell_ok by (rewrite Hc, !length_app, Hj, Hpad by lia; lia).
  assert (<[(row v * COLS + col v)%nat := (c, current_attr (attrs v))]> (cells v)
          = mjoin up ++ pad (cur ++ [(c, DEFAULT_ATTR)]) ++ replicate ((24 - length up) * COLS) blank) as Hw.
  { rewrite Hc, Hr, Hcol, Ha, <- Hj. rewrite insert_app_r, insert_app_l by (rewrite Hpad by lia; lia).
    by rewrite <- pad_insert. }
  rewrite Hw. cbn [exec_bind]. cbn [col move]. unfold lay_char. cbn [fst snd]. rewrite length_app. cbn [length].
  rewrite Hcol. replace (length cur + 1)%nat with (S (length cur)) by lia.
  destruct (Nat.leb_spec COLS (S (length cur))) as [Hfull|Hroom].
  - rewrite (proj2 (Nat.ltb_ge _ _)) by lia.
    assert (pad (cur ++ [(c, DEFAULT_ATTR)]) = cur ++ [(c, DEFAULT_ATTR)]) as Hpd.
    { unfold pad. rewrite length_app. cbn [length]. replace (COLS - (length cur + 1))%nat with 0%nat by lia. apply app_nil_r. }
    rewrite Hpd. apply next_row_shows; try done. rewrite length_app. cbn. lia.
  - rewrite (proj2 (Nat.ltb_lt _ _)) by lia. eexists. split; [reflexivity|]. constructor; cbn [fst snd]; try done.
    + cbn. rewrite length_app. cbn. lia.
    + rewrite length_app. cbn. lia.
Qed.

Lemma lay_char_col t c : (length t.2 < COLS)%nat → (S (length t.2) < COLS)%nat → length (lay_char t c).2 = S (length t.2).
Proof.
  intros H1 H2. unfold lay_char. rewrite length_app. cbn [length]. rewrite (proj2 (Nat.ltb_lt _ _)) by lia. cbn [snd].
  rewrite length_app. cbn. lia.
Qed.

Lemma put_spaces_shows n : ∀ v t, shows v t → (length t.2 + n ≤ COLS)%nat →
  ∃ v', put_spaces n v = Ret v' ∧ shows v' (Nat.iter n (fun t => lay_char t 32) t).
Proof.
  induction n as [|n IH]; intros v t Hv Hn; cbn [put_spaces]; [eauto|].
  destruct (put_here_shows v t 32 Hv) as (v' & -> & Hv'). cbn [exec_bind]. rewrite (sh_col _ _ Hv). rewrite Nat.iter_succ_r.
  destruct (Nat.leb_spec COLS (S (length t.2))) as [Hfull|Hroom].
  - assert (n = 0)%nat as -> by lia. eauto.
  - apply IH; [done|]. rewrite lay_char_col by lia. lia.
Qed.

Lemma putchar_shows v t b : shows v t → plain b → ∃ v', putchar true v b = Ret v' ∧ shows v' (lay t b).
Proof.
  intros Hv Hb. unfold putchar. cbn [negb]. rewrite (sh_normal _ _ Hv). unfold put_normal, lay.
  assert ((b =? 0x1B) = false) as -> by (unfold plain in Hb; lia).
  assert (∀ r t', (∃ v', r = Ret v' ∧ shows v' t') → ∃ v', (let! v := r in Ret (update_hardware_cursor v)) = Ret v' ∧ shows v' t') as Hhw.
  { intros r t' (v' & -> & Hv'). eexists. split; [reflexivity|by apply shows_hw]. }
  apply Hhw. clear Hhw. destruct (Z.eqb_spec b 10) as [->|H10].
  { destruct Hv. apply next_row_shows; try done. apply length_pad. lia. }
  assert ((b =? 13) = false) as -> by (unfold plain in Hb; lia).
  destruct (Z.eqb_spec b 9) as [->|H9].
  - unfold put_tab. rewrite (sh_col _ _ Hv). pose proof (sh_cur _ _ Hv) as Hcur.
    set (k := (8 - length t.2 mod 8)%nat).
    assert ((if ((length t.2 + 8) / 8 * 8 <? COLS)%nat then (length t.2 + 8) / 8 * 8 - length t.2 else COLS - length t.2) = k
            ∧ length t.2 + k ≤ COLS)%nat as [-> Hk].
    { subst k. pose proof (Nat.div_mod_eq (length t.2) 8). pose proof (Nat.mod_upper_bound (length t.2) 8).
      replace ((length t.2 + 8) / 8)%nat with (length t.2 / 8 + 1)%nat by (rewrite <- (Nat.div_add _ 1) by lia; f_equal; lia).
      unfold COLS in *. destruct (Nat.ltb_spec ((length t.2 / 8 + 1) * 8) 80); lia. }
    by apply put_spaces_shows.
  - assert ((b =? 8) = false ∧ (b =? 7) = false ∧ (0x20 <=? b) = true) as (-> & -> & ->) by (unfold plain in Hb; lia).
    by apply put_here_shows.
Qed.

Lemma puts_shows bs : ∀ v t, shows v t → Forall plain bs → ∃ v', puts v bs = Ret v' ∧ shows v' (foldl lay t bs).
Proof.
  induction bs as [|b bs IH]; intros v t Hv Hbs; cbn [puts foldl]; [eauto|]. apply Forall_cons in Hbs as [Hb Hbs].
  destruct (putchar_shows v t b Hv Hb) as (v' & -> & Hv'). by apply IH.
Qed.

Lemma clear_screen_shows cs : buffer_ok cs → ∃ v, clear_screen (power_on cs) = Ret v ∧ shows v ([], []).
Proof.
  intros Hcs. destruct (clear_screen_buffer (power_on cs)) as (cs' & -> & Hfill & _); [done|].
  eexists. split; [reflexivity|]. destruct (fill_ok (rows_between 0 ROWS) (32, DEFAULT_ATTR) cs) as (cs2 & Hf2 & Hlen & Hset & _).
  { eapply Forall_impl; [by apply rows_inside|]. destruct Hcs as [-> _]. done. }
  cbn [cells power_on] in Hfill. rewrite Hf2 in Hfill. injection Hfill as ->.
  apply shows_hw. constructor; try done; [|cbn; unfold COLS; lia]. cbn [cells move set_cells fst snd length Nat.sub].
  destruct Hcs as [Hl _]. rewrite Hl in Hlen. change (mjoin (drop 0 []) ++ _) with (replicate 2000 blank).
  apply list_eq. intros i. destruct (decide (i < 2000)%nat) as [Hi|Hi].
  - rewrite Hset by (apply elem_of_rows_between; unfold COLS, ROWS; lia). symmetry. by apply lookup_replicate.
  - rewrite !lookup_ge_None_2; [done|rewrite length_replicate; lia|rewrite Hlen; unfold COLS, ROWS; lia].
Qed.

(** C33: On a cleared screen, text of printable characters, tabs and newlines appears as it should for every length:
    it is laid out in lines of 80 cells (a full line ends itself, a newline pads the line with blanks, a tab
    advances to the next multiple of eight), the screen shows the line being written below the last 24 finished
    ones, and the cursor stands behind the last character. *)
Theorem printed_text_is_shown (cs : list cell) (bs : list Z) :
  buffer_ok cs → Forall plain bs →
  ∃ v0 v, clear_screen (power_on cs) = Ret v0 ∧ puts v0 bs = Ret v ∧ shows v (foldl lay ([], []) bs).
Proof.
  intros Hcs Hbs. destruct (clear_screen_shows cs Hcs) as (v0 & H0 & Hs). 
  destruct (puts_shows bs v0 _ Hs Hbs) as (v & Hv & Hsv). exists v0, v. done.
Qed.

Lemma printed_text_is_shown_witness :
  ∃ v0 v, clear_screen (power_on (replicate 2000 (1, 2))) = Ret v0 ∧ puts v0 [65; 9; 66; 10; 67] = Ret v ∧
    shows v (foldl lay ([], []) [65; 9; 66; 10; 67]).
Proof.
  apply (printed_text_is_shown (replicate 2000 (1, 2)) [65; 9; 66; 10; 67]).
  - split; [by rewrite length_replicate|]. apply Forall_replicate. done.
  - unfold plain. repeat (apply Forall_cons; split; [lia|]). apply Forall_nil. done.
Defined.

(** ** Cursor reports *)

Lemma putchar_csi v c : pstate (parser v) = Csi → putchar true v c = put_csi v c.
Proof. intros E. unfold putchar. by rewrite E. Qed.

(** The console after the parameters [ps] of a control sequence, the last one still open. *)
Definition collecting (v : Vga) (ps : list Z) (n : nat) : Vga := set_parser v (mkParser Csi ps n false).

Lemma puts_csi v bs : pstate (parser v) = Normal →
  puts v (27 :: 91 :: bs) = puts (collecting (update_hardware_cursor v) (replicate CSI_MAX_PARAMS 0) 0) bs.
Proof. intros E. cbn [puts]. unfold putchar at 1. cbn [negb]. rewrite E. done. Qed.

Lemma puts_digit v ps n d bs : (n < CSI_MAX_PARAMS)%nat → 0 ≤ d ≤ 9 →
  puts (collecting v ps n) (48 + d :: bs) = puts (collecting v (<[n := u16 (ps !!! n * 10 + d)]> ps) n) bs.
Proof.
  intros Hn Hd. cbn [puts]. rewrite putchar_csi by done. unfold put_csi, collecting. cbn [parser set_parser params param_count has_question].
  assert ((48 <=? 48 + d) && (48 + d <=? 57) = true) as -> by lia. rewrite (proj2 (Nat.ltb_lt _ _) Hn). cbn [exec_bind].
  replace (48 + d - 48) with d by lia. done.
Qed.

Lemma puts_semicolon v ps n bs : (n < CSI_MAX_PARAMS - 1)%nat →
  puts (collecting v ps n) (59 :: bs) = puts (collecting v ps (S n)) bs.
Proof.
  intros Hn. cbn [puts]. rewrite putchar_csi by done. unfold put_csi, collecting. cbn [parser set_parser params param_count has_question].
  rewrite (proj2 (Nat.ltb_lt _ _) Hn). done.
Qed.

Lemma puts_cup w ps r c : ps !!! 0%nat = r → ps !!! 1%nat = c → 1 ≤ r → 1 ≤ c →
  ∃ w', puts (collecting w ps 1) [72] = Ret w' ∧ cells w' = cells w ∧
    cursor_pos w' = (Nat.min (Z.to_nat c - 1) (COLS - 1), Nat.min (Z.to_nat r - 1) (ROWS - 1)).
Proof.
  intros H0 H1 Hr Hc. cbn [puts]. rewrite putchar_csi by done. eexists. split; [|split].
  - unfold put_csi. cbn -[csi_dispatch]. unfold csi_dispatch. cbn -[param_nat ROWS COLS]. reflexivity.
  - done.
  - unfold cursor_pos, param_nat, csi_param. cbn -[Nat.min ROWS COLS lookup_total]. rewrite H0, H1.
    rewrite !(proj2 (Z.eqb_neq _ 0)) by lia. done.
Qed.

(** Two digits on a parameter that was zero. *)
Lemma two_digits x : 0 ≤ x < 100 → u16 (u16 (0 * 10 + x / 10) * 10 + x mod 10) = x.
Proof.
  intros. pose proof (Z.div_mod x 10). pose proof (Z.mod_pos_bound x 10).
  assert (0 ≤ x / 10 < 10) by (split; [apply Z.div_pos; lia|apply Z.div_lt_upper_bound; lia]).
  unfold u16. rewrite (wrap_small 16 (0 * 10 + x / 10)) by lia. rewrite wrap_small; lia.
Qed.

(** The position of two two-digit parameters. *)
Definition position (r c : Z) : list Z := [27; 91; 48 + r / 10; 48 + r mod 10; 59; 48 + c / 10; 48 + c mod 10].

Lemma puts_position w r c : pstate (parser w) = Normal → 1 ≤ r < 100 → 1 ≤ c < 100 →
  ∃ w', puts w (position r c ++ [72]) = Ret w' ∧ cells w' = cells w ∧
    cursor_pos w' = (Nat.min (Z.to_nat c - 1) (COLS - 1), Nat.min (Z.to_nat r - 1) (ROWS - 1)).
Proof.
  intros Hw Hr Hc. unfold position. cbn [app]. rewrite puts_csi by done.
  assert (∀ x, 1 ≤ x < 100 → 0 ≤ x / 10 ≤ 9) as Hdiv.
  { intros x Hx. split; [apply Z.div_pos; lia|apply Z.lt_succ_r, Z.div_lt_upper_bound; lia]. }
  pose proof (Hdiv r Hr). pose proof (Hdiv c Hc). pose proof (Z.mod_pos_bound r 10). pose proof (Z.mod_pos_bound c 10).
  rewrite !puts_digit, puts_semicolon, !puts_digit by (unfold CSI_MAX_PARAMS; lia).
  change (cells w) with (cells (update_hardware_cursor w)). apply puts_cup; try lia; rewrite <- two_digits by lia; reflexivity.
Qed.

(** A cursor report is a cursor position: the bytes with which the console answers the status request ESC [ 6 n,
    with the final R replaced by H, put the cursor of any console where it was when the report was made, and
    leave its cells alone. *)
Theorem cursor_report_roundtrip (v w : Vga) :
  vga_ok v → pstate (parser v) = Normal → pstate (parser w) = Normal →
  ∃ v' w' rep, puts v [27; 91; 54; 110] = Ret v' ∧ cursor_pos v' = cursor_pos v ∧ uart v' = uart v ++ rep ++ [82] ∧
    puts w (rep ++ [72]) = Ret w' ∧ cursor_pos w' = cursor_pos v ∧ cells w' = cells w.
Proof.
  intros [Hv _] Hp Hw. pose proof (ok_col _ Hv) as Hc. pose proof (ok_row _ Hv) as Hr. unfold COLS, ROWS in Hc, Hr.
  set (r := Z.of_nat (row v + 1)). set (c := Z.of_nat (col v + 1)).
  destruct (puts_position w r c) as (w' & Hw' & Hcells & Hpos); [done|lia|lia|].
  exists (set_state (update_hardware_cursor (send (collecting (update_hardware_cursor v) (6 :: replicate 15 0) 1) (position r c ++ [82]))) Normal).
  exists w', (position r c). splits; try done.
  - rewrite puts_csi by done. change 54 with (48 + 6). rewrite puts_digit by (unfold CSI_MAX_PARAMS; lia). done.
  - rewrite Hpos. unfold cursor_pos, COLS, ROWS. f_equal; lia.
Qed.

Lemma cursor_report_roundtrip_witness :
  ∃ v' w' rep, puts (power_on (replicate 2000 blank)) [27; 91; 54; 110] = Ret v' ∧
    cursor_pos v' = (0%nat, 0%nat) ∧ uart v' = [] ++ rep ++ [82] ∧
    puts (move (power_on (replicate 2000 blank)) 3 4) (rep ++ [72]) = Ret w' ∧ cursor_pos w' = (0%nat, 0%nat) ∧
    cells w' = replicate 2000 blank.
Proof.
  apply (cursor_report_roundtrip (power_on (replicate 2000 blank)) (move (power_on (replicate 2000 blank)) 3 4)); [|done|done].
  apply power_on_ok. split; [by rewrite length_replicate|]. apply Forall_replicate. done.
Defined.

(** ** Attributes *)

(** Reverse video does not reverse. For the eight plain colours without bold, the sequence that selects it leaves
    the attribute of the cells written next as it was, instead of exchanging foreground and background. *)
Theorem reverse_video_is_ignored (a : Attrs) :
  0 ≤ fg a < 8 → 0 ≤ bg a < 8 → bold a = false → reverse_ a = false →
  current_attr (sgr_step a 7) = current_attr a ∧
  (current_attr (sgr_step a 7) = current_attr (mkAttrs (bg a) (fg a) false false) ↔ fg a = bg a).
Proof.
  intros Hf Hb. destruct a as [f b bo rv]. cbn in Hf, Hb. cbn [bold reverse_]. intros -> ->.
  assert (f = 0 ∨ f = 1 ∨ f = 2 ∨ f = 3 ∨ f = 4 ∨ f = 5 ∨ f = 6 ∨ f = 7) as Ef by lia.
  assert (b = 0 ∨ b = 1 ∨ b = 2 ∨ b = 3 ∨ b = 4 ∨ b = 5 ∨ b = 6 ∨ b = 7) as Eb by lia.
  repeat destruct Ef as [-> | Ef]; try subst f; repeat destruct Eb as [-> | Eb]; try subst b; split; done.
Qed.

Lemma reverse_video_is_ignored_witness :
  current_attr (sgr_step (mkAttrs 7 0 false false) 7) = current_attr (mkAttrs 7 0 false false) ∧
  (current_attr (sgr_step (mkAttrs 7 0 false false) 7) = current_attr (mkAttrs 0 7 false false) ↔ 7 = 0).
Proof. apply (reverse_video_is_ignored (mkAttrs 7 0 false false)); cbn; [lia|lia|done|done]. Defined.

End Vga.
