(* ===== verification/Extents.v ===== *)
(** The extent trees of the vendored ext4 file system: the nodes of ext4_defs/extents.rs, lookup and insertion of
    ext4_impls/extents.rs, the inodes of ext4_defs/inode.rs and ext4_impls/inode.rs and the block allocator of
    ext4_impls/balloc.rs.

    Nodes, inodes, descriptors and the superblock are the bytes the code reads and writes through pointer casts; a
    read or write that leaves its buffer is [Panic]. The disk is the cached device of Disk.v, the bitmaps and
    checksums are those of Ext4.v. *)

From stdpp Require Import base numbers list.
From Stdlib Require Import ZArith Lia.
From S2P Require Import Prelude Disk Ext4.
Local Open Scope Z_scope.
Local Open Scope rust_scope.

Module Extent.
Import Ialloc.

Definition EXT_INIT_MAX_LEN : Z := 32768.
Definition EXT_MAX_BLOCKS : Z := 0xFFFFFFFF.
Definition EXT4_EXTENT_MAGIC : Z := 0xF30A.

Inductive Errno :=
  | EPERM | ENOENT | EINTR | EIO | ENXIO | E2BIG | EBADF | EAGAIN | ENOMEM | EACCES | EFAULT | ENOTBLK | EBUSY | EEXIST | EXDEV
  | ENODEV | ENOTDIR | EISDIR | EINVAL | ENFILE | EMFILE | ENOTTY | ETXTBSY | EFBIG | ENOSPC | ESPIPE | EROFS | EMLINK | EPIPE
  | ENAMETOOLONG | ENOTSUP.

Record Ext4ExtentHeader := mkHeader {
  magic : Z;
  entries_count : Z;
  max_entries_count : Z;
  depth : Z;
  generation : Z
}.

Record Ext4ExtentIndex := mkIndex {
  ifirst_block : Z;
  leaf_lo : Z;
  leaf_hi : Z;
  padding : Z
}.

Record Ext4Extent := mkExtent {
  first_block : Z;
  block_count : Z;
  start_hi : Z;
  start_lo : Z
}.

(** The node is the root in the inode (15 words) or a block of the disk. *)
Record ExtentNode := mkNode {
  header : Ext4ExtentHeader;
  data : list Z;
  is_root : bool
}.

Record ExtentPathNode := mkPathNode {
  pheader : Ext4ExtentHeader;
  pindex : option Ext4ExtentIndex;
  pextent : option Ext4Extent;
  position : Z;
  pblock : Z;
  pblock_of_node : Z
}.

Record SearchPath := mkSearchPath {
  sdepth : Z;
  maxdepth : Z;
  path : list ExtentPathNode
}.

(** ** Entries as bytes *)

Definition load_header (l : list Z) : Ext4ExtentHeader :=
  mkHeader (field 0 2 l) (field 2 2 l) (field 4 2 l) (field 6 2 l) (field 8 4 l).

Definition index_of (l : list Z) : Ext4ExtentIndex := mkIndex (field 0 4 l) (field 4 4 l) (field 8 2 l) (field 10 2 l).
Definition extent_of (l : list Z) : Ext4Extent := mkExtent (field 0 4 l) (field 4 2 l) (field 6 2 l) (field 8 4 l).

Definition header_bytes (h : Ext4ExtentHeader) : list Z :=
  le_bytes 2 (magic h) ++ le_bytes 2 (entries_count h) ++ le_bytes 2 (max_entries_count h) ++ le_bytes 2 (depth h) ++
  le_bytes 4 (generation h).
Definition index_bytes (x : Ext4ExtentIndex) : list Z :=
  le_bytes 4 (ifirst_block x) ++ le_bytes 4 (leaf_lo x) ++ le_bytes 2 (leaf_hi x) ++ le_bytes 2 (padding x).
Definition extent_bytes (x : Ext4Extent) : list Z :=
  le_bytes 4 (first_block x) ++ le_bytes 2 (block_count x) ++ le_bytes 2 (start_hi x) ++ le_bytes 4 (start_lo x).

(** The twelve bytes of entry [pos], behind the header. *)
Definition entry (l : list Z) (pos : Z) : exec (list Z) :=
  if (0 <=? pos) && (12 * pos + 24 <=? Z.of_nat (length l)) then Ret (slice (Z.to_nat (12 * pos + 12)) 12 l) else Panic.

Definition load_extent (l : list Z) (pos : Z) : exec Ext4Extent := let! b := entry l pos in Ret (extent_of b).
Definition load_index (l : list Z) (pos : Z) : exec Ext4ExtentIndex := let! b := entry l pos in Ret (index_of b).

Definition put_entry (l : list Z) (pos : Z) (b : list Z) : exec (list Z) :=
  if (0 <=? pos) && (12 * pos + 24 <=? Z.of_nat (length l)) then Ret (Disk.copy_at l (Z.to_nat (12 * pos + 12)) b) else Panic.

Definition load_from_data (l : list Z) (root : bool) : result ExtentNode Errno :=
  if (length l =? (if root then 60 else 4096))%nat then Ok (mkNode (load_header l) l root) else Err EINVAL.

Definition index_get_pblock (x : Ext4ExtentIndex) : Z := Z.lor (Z.shiftl (leaf_hi x) 32) (leaf_lo x).
Definition index_store_pblock (x : Ext4ExtentIndex) (b : Z) : Ext4ExtentIndex :=
  mkIndex (ifirst_block x) (Z.land b 0xffffffff) (u16 (Z.shiftr b 32)) (padding x).
Definition get_pblock (x : Ext4Extent) : Z := Z.lor (start_lo x) (Z.shiftl (start_hi x) 32).
Definition store_pblock (x : Ext4Extent) (b : Z) : Ext4Extent :=
  mkExtent (first_block x) (block_count x) (u16 (Z.shiftr b 32)) (Z.land b 0xffffffff).
Definition is_unwritten (x : Ext4Extent) : bool := EXT_INIT_MAX_LEN <? block_count x.
Definition get_actual_len (x : Ext4Extent) : Z := if is_unwritten x then block_count x - EXT_INIT_MAX_LEN else block_count x.
Definition set_actual_len (x : Ext4Extent) (len : Z) : Ext4Extent := mkExtent (first_block x) len (start_hi x) (start_lo x).
Definition mark_unwritten (x : Ext4Extent) : Ext4Extent :=
  mkExtent (first_block x) (Z.lor (block_count x) EXT_INIT_MAX_LEN) (start_hi x) (start_lo x).

(** ** Binary search *)

(** [while l <= r]: one half is left in each round. *)
Fixpoint extent_loop (fuel : nat) (d : list Z) (lblock l r : Z) : exec Z :=
  match fuel with
  | O => Panic
  | S fuel =>
      if l <=? r then
        let m := l + (r - l) / 2 in
        let! ext := load_extent d m in
        if lblock <? first_block ext then extent_loop fuel d lblock l (m - 1) else extent_loop fuel d lblock (m + 1) r
      else Ret l
  end.

Definition binsearch_extent (n : ExtentNode) (lblock : Z) : exec (option (Ext4Extent * Z)) :=
  let count := entries_count (header n) in
  if (count =? 0) || (is_root n && (count <=? 1)) then let! ext := load_extent (data n) 0 in Ret (Some (ext, 0))
  else
    let! l := extent_loop (S (Z.to_nat count)) (data n) lblock 1 (count - 1) in
    let! ext := load_extent (data n) (l - 1) in
    Ret (Some (ext, l - 1)).

(** The loop also ends at the first entry, which nothing can come before. *)
Fixpoint index_loop (fuel : nat) (d : list Z) (lblock l r : Z) : exec Z :=
  match fuel with
  | O => Panic
  | S fuel =>
      if l <=? r then
        let m := l + (r - l) / 2 in
        let! ix := load_index d m in
        if lblock <? ifirst_block ix then if m =? 0 then Ret l else index_loop fuel d lblock l (m - 1)
        else index_loop fuel d lblock (m + 1) r
      else Ret l
  end.

Definition binsearch_idx (n : ExtentNode) (lblock : Z) : exec (option Z) :=
  let count := entries_count (header n) in
  if count =? 0 then Ret None
  else
    let max_entries := Z.of_nat ((length (data n) - 12) / 12) in
    if is_root n then
      let r := if max_entries <=? count - 1 then max_entries - 1 else count - 1 in
      if (max_entries <=? count - 1) && (max_entries <=? 1) then Ret None
      else if r <? 1 then Ret None
      else
        let! l := index_loop (S (Z.to_nat count)) (data n) lblock 1 r in
        Ret (if l =? 0 then None else Some (l - 1))
    else
      let entries := Z.min count max_entries in
      if entries =? 0 then Ret None
      else
        let! l := index_loop (S (Z.to_nat entries)) (data n) lblock 0 (entries - 1) in
        Ret (if l =? 0 then None else Some (l - 1)).

(** ** The file system in memory *)

(** [Ext4]: the superblock as it was read when the volume was opened, and the system zones. *)
Record Ext4 := mkExt4 { super_block : list Z; system_zone_cache : option (list (Z * Z)) }.

(** The fields of the superblock that Ext4.v names. *)
Definition view (sb : list Z) : Ext4Superblock :=
  mkSuper (field 0 4 sb) (field 4 4 sb) (field 336 4 sb) (field 16 4 sb) (field 20 4 sb) (field 32 4 sb) (field 40 4 sb)
    (field 254 2 sb) (field 100 4 sb) (slice 104 16 sb).

Definition sb_of (fs : Ext4) : Ext4Superblock := view (super_block fs).
Definition inode_size (fs : Ext4) : Z := field 88 2 (super_block fs).

Definition free_blocks_count (sb : list Z) : Z := Z.lor (field 12 4 sb) (Z.shiftl (field 344 4 sb) 32).
Definition set_free_blocks_count (sb : list Z) (n : Z) : list Z :=
  set_field 344 4 (set_field 12 4 sb (Z.land n 0xffffffff)) (u32 (Z.shiftr n 32)).

(** *** Block group descriptors *)

Definition get_block_bitmap_block (s : Ext4Superblock) (bg : list Z) : Z :=
  if EXT4_MIN_BLOCK_GROUP_DESCRIPTOR_SIZE <? desc_size_raw s
  then Z.lor (field 0 4 bg) (Z.shiftl (field 32 4 bg) 32) else field 0 4 bg.
Definition get_inode_table_blk_num (bg : list Z) : Z := field 8 4 bg.
Definition get_free_blocks_count (bg : list Z) : Z := field 12 2 bg.
Definition bg_set_free_blocks_count (bg : list Z) (cnt : Z) : list Z := set_field 44 2 (set_field 12 2 bg (Z.land cnt 0xffff)) 0.

Definition ext4_balloc_bitmap_csum (s : Ext4Superblock) (bitmap : list Z) : exec Z :=
  let! csum := Crc.ext4_crc32c Crc.EXT4_CRC32_INIT (uuid s) (u32 (Z.of_nat (length (uuid s)))) in
  Crc.ext4_crc32c csum bitmap (blocks_per_group s / 8).

Definition set_block_group_balloc_bitmap_csum (s : Ext4Superblock) (bg bitmap : list Z) : exec (list Z) :=
  let! csum := ext4_balloc_bitmap_csum s bitmap in
  if Z.shiftr (Z.land (features_read_only s) 0x400) 10 =? 0 then Ret bg
  else
    let bg1 := set_field 24 2 bg (u16 (Z.land csum 0xFFFF)) in
    Ret (if desc_size s =? EXT4_MAX_BLOCK_GROUP_DESCRIPTOR_SIZE then set_field 56 2 bg1 (u16 (Z.shiftr csum 16)) else bg1).

Definition get_block_group_checksum (s : Ext4Superblock) (bg : list Z) (bgid : Z) : exec Z :=
  let! c1 := Crc.ext4_crc32c Crc.EXT4_CRC32_INIT (uuid s) (u32 (Z.of_nat (length (uuid s)))) in
  let! c2 := Crc.ext4_crc32c c1 (le_bytes 4 bgid) 4 in
  let! c3 := Crc.ext4_crc32c c2 (set_field 30 2 bg 0) (desc_size s) in
  Ret (Z.land c3 0xFFFF).

Definition set_block_group_checksum (s : Ext4Superblock) (bg : list Z) (bgid : Z) : exec (list Z) :=
  let! csum := get_block_group_checksum s bg bgid in Ret (set_field 30 2 bg csum).

(** *** Inodes *)

Definition inode_block (i : list Z) : list Z := slice 40 60 i.
Definition set_inode_block (i root : list Z) : list Z := Disk.copy_at i 40 root.
Definition blocks_count (i : list Z) : Z := Z.lor (field 28 4 i) (Z.shiftl (field 116 2 i) 32).
Definition set_blocks_count (i : list Z) (n : Z) : list Z :=
  set_field 116 2 (set_field 28 4 i (Z.land n 0xFFFFFFFF)) (u16 (Z.shiftr n 32)).
Definition size (i : list Z) : Z := field 4 4 i.
Definition set_size (i : list Z) (n : Z) : list Z := set_field 108 4 (set_field 4 4 i (Z.land n 0xffffffff)) (u32 (Z.shiftr n 32)).
Definition inode_generation (i : list Z) : Z := field 100 4 i.

Definition root_extent_header (i : list Z) : Ext4ExtentHeader := load_header (inode_block i).
Definition set_root_header (i : list Z) (h : Ext4ExtentHeader) : list Z := Disk.copy_at i 40 (header_bytes h).
Definition root_extent_at (i : list Z) (pos : Z) : exec Ext4Extent := load_extent (inode_block i) pos.
Definition set_root_extent_at (i : list Z) (pos : Z) (x : Ext4Extent) : exec (list Z) :=
  let! root := put_entry (inode_block i) pos (extent_bytes x) in Ret (set_inode_block i root).
Definition set_root_first_index (i : list Z) (x : Ext4ExtentIndex) : exec (list Z) :=
  let! root := put_entry (inode_block i) 0 (index_bytes x) in Ret (set_inode_block i root).

Definition extent_tree_init (i : list Z) : list Z := set_root_header i (mkHeader EXT4_EXTENT_MAGIC 0 4 0 0).

Definition with_entries (h : Ext4ExtentHeader) (n : Z) : Ext4ExtentHeader :=
  mkHeader (magic h) n (max_entries_count h) (depth h) (generation h).

(** The checksum of the inode with its checksum fields cleared. The buffer has 256 bytes. *)
Definition get_inode_checksum (fs : Ext4) (i : list Z) (num : Z) : exec (Z * list Z) :=
  let i0 := set_field 130 2 (set_field 124 2 i 0) 0 in
  let! c1 := Crc.ext4_crc32c Crc.EXT4_CRC32_INIT (uuid (sb_of fs)) (u32 (Z.of_nat (length (uuid (sb_of fs))))) in
  let! c2 := Crc.ext4_crc32c c1 (le_bytes 4 num) 4 in
  let! c3 := Crc.ext4_crc32c c2 (le_bytes 4 (inode_generation i)) 4 in
  let! c4 := Crc.ext4_crc32c c3 (i0 ++ replicate (256 - length i0) 0) (inode_size fs) in
  let i1 := set_field 124 2 i0 (Z.land c4 0xffff) in
  let i2 := if 128 <? inode_size fs then set_field 130 2 i1 (u16 (Z.shiftr c4 16)) else i1 in
  Ret (if inode_size fs =? 128 then Z.land c4 0xFFFF else c4, i2).

Definition set_inode_checksum (fs : Ext4) (i : list Z) (num : Z) : exec (list Z) :=
  let! (csum, i1) := get_inode_checksum fs i num in
  let i2 := set_field 124 2 i1 (u16 (Z.shiftr (u32 (Z.shiftl csum 16)) 16)) in
  Ret (if 128 <? inode_size fs then set_field 130 2 i2 (u16 (Z.shiftr csum 16)) else i2).

(** ** Operations on the disk and one inode *)

Section ops.
Context {D : Type} `{BlockIO D}.
(** The memory behind a block that ends with a short descriptor, as in Ext4.v. *)
Context (junk : list Z).
Context (fs : Ext4).

(** The device, and the [Ext4InodeRef] that is passed along: its bytes. Its number does not change. *)
Record St := mkSt { dev : Disk.Device D; inode : list Z }.

Definition M (A : Type) : Type := St → exec (result A Errno * St).

Definition mret {A} (a : A) : M A := fun st => Ret (Ok a, st).
Definition mfail {A} (e : Errno) : M A := fun st => Ret (Err e, st).
Definition mbind {A B} (m : M A) (k : A → M B) : M B := fun st =>
  let! (r, st) := m st in
  match r with Ok a => k a st | Err e => Ret (Err e, st) end.
(** An operation on values, which may panic. *)
Definition lift {A} (e : exec A) : M A := fun st => let! a := e in Ret (Ok a, st).
Definition get_inode : M (list Z) := fun st => Ret (Ok (inode st), st).
Definition put_inode (i : list Z) : M unit := fun st => Ret (Ok tt, mkSt (dev st) i).
Definition read_at (off : Z) : M (list Z) := fun st =>
  let! (l, d) := read_dev (dev st) off in Ret (Ok l, mkSt d (inode st)).
Definition write_at (off : Z) (l : list Z) : M unit := fun st =>
  let! d := write_dev (dev st) off l in Ret (Ok tt, mkSt d (inode st)).
Definition load_group (bgid : Z) : M (list Z) := fun st =>
  let! (bg, d) := load_new junk (dev st) (sb_of fs) bgid in Ret (Ok bg, mkSt d (inode st)).

Notation "'do!' x := m 'in' k" := (mbind m (fun x => k)) (at level 10, x pattern, m at level 100, k at level 200).

(** *** ext4_defs/super_block.rs, block_group.rs: writing back *)

Definition sync_super (sb : list Z) : M unit :=
  do! csum := lift (Crc.ext4_crc32c Crc.EXT4_CRC32_INIT sb 0x3fc) in
  write_at 1024 (set_field 1020 4 sb csum).

Definition sync_group (bg : list Z) (bgid : Z) : M unit :=
  do! bg := lift (set_block_group_checksum (sb_of fs) bg (u32 bgid)) in
  do! (block_id, offset) := lift (desc_pos (sb_of fs) bgid) in
  let dsize := if desc_size_raw (sb_of fs) =? 0 then 32 else desc_size_raw (sb_of fs) in
  write_at (block_id *! 4096 +! offset) (take (Z.to_nat (Z.min 64 dsize)) bg).

(** *** ext4_impls/inode.rs: inodes on the disk *)

Definition inode_disk_pos (num : Z) : M Z :=
  let s := sb_of fs in
  let n := u32 (num - 1) in
  if inodes_per_group s =? 0 then lift Panic
  else
    do! bg := load_group (n / inodes_per_group s) in
    mret (get_inode_table_blk_num bg *! 4096 +! n mod inodes_per_group s *! inode_size fs).

Definition write_back_inode (num : Z) : M unit :=
  do! pos := inode_disk_pos num in
  do! i := get_inode in
  do! i := lift (set_inode_checksum fs i num) in
  do! _ := put_inode i in
  write_at pos i.

Definition get_inode_ref (num : Z) : M unit :=
  do! pos := inode_disk_pos num in
  do! b := read_at pos in
  put_inode (take 156 b).

(** *** ext4_impls/extents.rs: lookup *)

Definition push (sp : SearchPath) (n : ExtentPathNode) : SearchPath := mkSearchPath (sdepth sp) (maxdepth sp) (path sp ++ [n]).

(** The walk from the root to a leaf. *)
Fixpoint descend (d : nat) (lblock : Z) (node : ExtentNode) (sp : SearchPath) (pblock_of_node : Z)
    : M (ExtentNode * SearchPath * Z) :=
  match d with
  | O => mret (node, sp, pblock_of_node)
  | S d =>
      do! index_pos := lift (binsearch_idx node lblock) in
      match index_pos with
      | None => mfail ENOENT
      | Some pos =>
          do! index := lift (load_index (data node) pos) in
          let sp := push sp (mkPathNode (header node) (Some index) None pos (leaf_lo index) pblock_of_node) in
          do! next := read_at (leaf_lo index *! 4096) in
          match load_from_data next false with
          | Err e => mfail e
          | Ok node => descend d lblock node (mkSearchPath (sdepth sp + 1) (maxdepth sp) (path sp)) (leaf_lo index)
          end
      end
  end.

Definition find_extent (lblock : Z) : M SearchPath :=
  do! i := get_inode in
  match load_from_data (inode_block i) true with
  | Err _ => lift Panic
  | Ok node =>
      if 5 <? depth (header node) then mfail ENOENT
      else
        do! (node, sp, pn) := descend (Z.to_nat (depth (header node))) lblock node (mkSearchPath 0 4 []) 0 in
        do! found := lift (binsearch_extent node lblock) in
        match found with
        | Some (ext, pos) =>
            let n := mkPathNode (header node) None (Some ext) pos (u64 (lblock - first_block ext + get_pblock ext)) pn in
            mret (mkSearchPath (sdepth sp) (depth (header node)) (path sp ++ [n]))
        | None => mret (push sp (mkPathNode (header node) None None 0 0 pn))
        end
  end.

Definition get_pblock_idx (lblock : Z) : M Z := fun st =>
  let! (r, st) := find_extent lblock st in
  match r with
  | Ok sp => match last (path sp) with Some n => Ret (Ok (pblock n), st) | None => Panic end
  | Err _ => Ret (Ok 0, st)
  end.

(** *** ext4_impls/balloc.rs *)

Definition fdb : Z := first_data_block (sb_of fs).
Definition bpg : Z := blocks_per_group (sb_of fs).

Definition get_bgid_of_block (baddr : Z) : exec Z :=
  let baddr := if negb (fdb =? 0) && negb (baddr =? 0) then baddr - 1 else baddr in
  if bpg =? 0 then Panic else Ret (u32 (baddr / bpg)).

Definition get_block_of_bgid (bgid : Z) : Z := (if negb (fdb =? 0) then 1 else 0) +! bgid *! bpg.

Definition addr_to_idx_bg (baddr : Z) : exec Z :=
  let baddr := if negb (fdb =? 0) && negb (baddr =? 0) then baddr - 1 else baddr in
  if bpg =? 0 then Panic else Ret (u32 (baddr mod bpg)).

Definition bg_idx_to_addr (index bgid : Z) : Z :=
  let index := if negb (fdb =? 0) then u32 (index + 1) else index in
  bpg *! bgid +! index.

Definition is_system_reserved_block (block_num : Z) : bool :=
  match system_zone_cache fs with
  | None => false
  | Some zones => existsb (fun z => (z.1 <=? block_num) && (block_num <=? z.2)) zones
  end.

(** [inode_num] of the [Ext4InodeRef]. *)
Context (num : Z).

Definition update_free_block_counts (bg : list Z) (bgid : Z) : M unit :=
  let sb := set_free_blocks_count (super_block fs) (u64 (free_blocks_count (super_block fs) - 1)) in
  do! _ := sync_super sb in
  do! i := get_inode in
  do! _ := put_inode (set_blocks_count i (blocks_count i +! 4096 / 512)) in
  do! _ := write_back_inode num in
  sync_group (bg_set_free_blocks_count bg (u32 (get_free_blocks_count bg - 1))) bgid.

(** A free block that is not in a system zone. *)
Definition free_here (bitmap : list Z) (bgid idx : Z) : exec bool :=
  let! clr := Bitmap.ext4_bmap_is_bit_clr bitmap idx in
  Ret (clr && negb (is_system_reserved_block (bg_idx_to_addr idx bgid))).

(** [for tmp_idx in from..end] *)
Fixpoint scan (n : nat) (bitmap : list Z) (bgid idx : Z) : exec (option Z) :=
  match n with
  | O => Ret None
  | S n =>
      let! ok := free_here bitmap bgid idx in
      if ok then Ret (Some idx) else scan n bitmap bgid (idx + 1)
  end.

(** The goal, the rest of its 64 blocks, then the first free one of the group from the goal on. *)
Definition pick (bitmap : list Z) (bgid idx end_ : Z) (first_ok : bool) : exec (option Z) :=
  if first_ok then Ret (Some idx)
  else
    let near := Z.min (Z.land (u32 (idx + 63)) (Z.lnot 63)) end_ in
    let! found := scan (Z.to_nat (near - (idx + 1))) bitmap bgid (idx + 1) in
    match found with
    | Some i => Ret (Some i)
    | None =>
        let! found := Bitmap.ext4_bmap_bit_find_clr bitmap idx end_ in
        match found with
        | Some i => Ret (if is_system_reserved_block (bg_idx_to_addr i bgid) then None else Some i)
        | None => Ret None
        end
    end.

(** Marking block [idx] of the group, and the counters. *)
Definition take_block (bg bitmap : list Z) (bgid idx : Z) : M Z :=
  let blk := get_block_bitmap_block (sb_of fs) bg in
  do! bitmap := lift (Bitmap.ext4_bmap_bit_set bitmap idx) in
  do! bg := lift (set_block_group_balloc_bitmap_csum (sb_of fs) bg bitmap) in
  do! _ := write_at (blk *! 4096) bitmap in
  do! _ := update_free_block_counts bg bgid in
  mret (bg_idx_to_addr idx bgid).

(** [while count > 0]: one group per round. *)
Fixpoint alloc_loop (n : nat) (groups bgid idx : Z) : M Z :=
  match n with
  | O => mfail ENOSPC
  | S n =>
      do! bg := load_group bgid in
      if get_free_blocks_count bg =? 0 then alloc_loop n groups (u32 (bgid + 1) mod groups) idx
      else
        do! first := lift (addr_to_idx_bg (get_block_of_bgid bgid)) in
        let idx := if idx <? first then first else idx in
        do! bitmap := read_at (get_block_bitmap_block (sb_of fs) bg *! 4096) in
        do! goal := lift (free_here bitmap bgid idx) in
        do! found := lift (pick bitmap bgid idx bpg goal) in
        match found with
        | Some i => take_block bg bitmap bgid i
        | None => alloc_loop n groups (u32 (bgid + 1) mod groups) idx
        end
  end.

Definition balloc_alloc_block (goal : option Z) : M Z :=
  do! (bgid, idx) := lift match goal with
    | Some g => let! b := get_bgid_of_block g in let! i := addr_to_idx_bg g in Ret (b, i)
    | None => Ret (0, 0)
    end in
  do! groups := lift (block_group_count (sb_of fs)) in
  alloc_loop (Z.to_nat groups) groups bgid idx.

(** From a group on; the first block of a group is taken without a look at the system zones, and the search runs
    over the whole bitmap block. *)
Fixpoint alloc_from_loop (n : nat) (groups bgid idx : Z) : M (Z * Z) :=
  match n with
  | O => mfail ENOSPC
  | S n =>
      do! bg := load_group bgid in
      if get_free_blocks_count bg =? 0 then alloc_from_loop n groups (u32 (bgid + 1) mod groups) idx
      else
        do! first := lift (addr_to_idx_bg (get_block_of_bgid bgid)) in
        let idx := if idx <? first then first else idx in
        if 32768 <=? idx then alloc_from_loop n groups (u32 (bgid + 1) mod groups) 0
        else
          do! bitmap := read_at (get_block_bitmap_block (sb_of fs) bg *! 4096) in
          do! goal := lift (Bitmap.ext4_bmap_is_bit_clr bitmap idx) in
          do! found := lift (pick bitmap bgid idx 32768 goal) in
          match found with
          | Some i => do! b := take_block bg bitmap bgid i in mret (b, bgid)
          | None => alloc_from_loop n groups (u32 (bgid + 1) mod groups) 0
          end
  end.

(** The block, and the group where the next search starts. *)
Definition balloc_alloc_block_from (start_bgid : Z) : M (Z * Z) :=
  do! groups := lift (block_group_count (sb_of fs)) in
  alloc_from_loop (Z.to_nat groups) groups start_bgid 0.

(** [for bit in start_bit..=end_bit] *)
Fixpoint ext4_bmap_bits_free (n : nat) (bitmap : list Z) (bit : Z) : exec (list Z) :=
  match n with
  | O => Ret bitmap
  | S n => let! b := Bitmap.ext4_bmap_bit_clr bitmap bit in ext4_bmap_bits_free n b (bit + 1)
  end.

(** [while bg_first <= bg_last]. The descriptor and bitmap are those of the first group in every round. *)
Fixpoint free_loop (rounds : nat) (sb : list Z) (bgid start count : Z) : M unit :=
  match rounds with
  | O => mret tt
  | S rounds =>
      let idx := start mod bpg in
      do! bg := load_group bgid in
      let blk := get_block_bitmap_block (sb_of fs) bg in
      do! bitmap := read_at (blk *! 4096) in
      let room := u64 (32768 - idx) in
      let free_cnt := if room <? count then room else count in
      do! bitmap := lift (ext4_bmap_bits_free (Z.to_nat (u32 (idx + u32 free_cnt - 1) - u32 idx + 1)) bitmap (u32 idx)) in
      do! bg := lift (set_block_group_balloc_bitmap_csum (sb_of fs) bg bitmap) in
      do! _ := write_at (blk *! 4096) bitmap in
      let sb := set_free_blocks_count sb (free_blocks_count sb +! free_cnt) in
      do! _ := sync_super sb in
      do! i := get_inode in
      do! _ := put_inode (set_blocks_count i (blocks_count i -! free_cnt *! 8)) in
      do! _ := write_back_inode num in
      do! _ := sync_group (bg_set_free_blocks_count bg (u32 (get_free_blocks_count bg +! free_cnt))) bgid in
      free_loop rounds sb bgid (start +! free_cnt) (count -! free_cnt)
  end.

Definition balloc_free_blocks (start count : Z) : M unit :=
  if bpg =? 0 then lift Panic
  else
    let bg_first := start / bpg in
    let bg_last := (start +! count -! 1) / bpg in
    free_loop (Z.to_nat (bg_last - bg_first + 1)) (super_block fs) bg_first start count.

(** *** ext4_impls/extents.rs: insertion *)

Definition ext4_extent_tail_offset (h : Ext4ExtentHeader) : Z := 12 + max_entries_count h * 12.

Definition has_metadata_checksums : bool := negb (Z.land (features_read_only (sb_of fs)) 0x400 =? 0).

Definition calculate_extent_block_checksum (i l : list Z) : exec Z :=
  if negb has_metadata_checksums then Ret 0
  else
    let! c1 := Crc.ext4_crc32c Crc.EXT4_CRC32_INIT (uuid (sb_of fs)) (u32 (Z.of_nat (length (uuid (sb_of fs))))) in
    let! c2 := Crc.ext4_crc32c c1 (le_bytes 4 num) 4 in
    let! c3 := Crc.ext4_crc32c c2 (le_bytes 4 (inode_generation i)) 4 in
    Crc.ext4_crc32c c3 l (u32 (Z.of_nat (length l))).

Definition set_extent_block_checksum (block_addr : Z) : M unit :=
  if negb has_metadata_checksums then mret tt
  else
    do! l := read_at (block_addr *! 4096) in
    if negb (magic (load_header l) =? EXT4_EXTENT_MAGIC) then mfail EINVAL
    else
      let tail_offset := ext4_extent_tail_offset (load_header l) in
      if Z.of_nat (length l) <? tail_offset + 4 then lift Panic
      else
        do! i := get_inode in
        do! csum := lift (calculate_extent_block_checksum i (take (Z.to_nat tail_offset) l)) in
        write_at (block_addr *! 4096) (Disk.copy_at l (Z.to_nat tail_offset) (le_bytes 4 csum)).

(** Its callers only log the error. *)
Definition logged (m : M unit) : M unit := fun st => let! (_, st) := m st in Ret (Ok tt, st).

(** The block is taken for an extent node, although [pblock] of a leaf is a block of the file. *)
Definition get_extent_from_node (n : ExtentPathNode) (pos : Z) : M Ext4Extent :=
  do! l := read_at (pblock n *! 4096) in
  match load_from_data l false with
  | Err _ => lift Panic
  | Ok node => lift (load_extent (data node) pos)
  end.

Definition can_merge (ex1 ex2 : Ext4Extent) : bool :=
  if negb (Bool.eqb (is_unwritten ex1) (is_unwritten ex2)) then false
  else if negb (u32 (first_block ex1 + get_actual_len ex1) =? first_block ex2) then false
  else if EXT_INIT_MAX_LEN <? get_actual_len ex1 + get_actual_len ex2 then false
  else get_pblock ex1 +! get_actual_len ex1 =? get_pblock ex2.

Definition extend (left_ext right_ext : Ext4Extent) : Ext4Extent :=
  let x := set_actual_len left_ext (u16 (get_actual_len left_ext + get_actual_len right_ext)) in
  if is_unwritten left_ext then mark_unwritten x else x.

(** [search_path.path[search_path.depth]] *)
Definition node_of (sp : SearchPath) : exec ExtentPathNode :=
  match path sp !! Z.to_nat (sdepth sp) with Some n => Ret n | None => Panic end.

(** The extent in memory grows; in a node with more than four places so does the one at the position of the path. *)
Definition merge_extent (sp : SearchPath) (left_ext right_ext : Ext4Extent) : M Ext4Extent :=
  let merged := extend left_ext right_ext in
  do! n := lift (node_of sp) in
  if 4 <? max_entries_count (pheader n) then
    do! l := read_at (pblock_of_node n *! 4096) in
    do! x := lift (load_extent l (position n)) in
    do! l := lift (put_entry l (position n) (extent_bytes (extend x right_ext))) in
    do! _ := write_at (pblock_of_node n *! 4096) l in
    mret merged
  else mret merged.

(** The root moves to a new block, and the root becomes an index with one entry. *)
Definition ext_grow_indepth : M unit :=
  do! new_block := balloc_alloc_block None in
  do! _ := read_at (new_block *! 4096) in
  do! i := get_inode in
  let old := root_extent_header i in
  do! first := (if (depth old =? 0) && (0 <? entries_count old)
                then do! x := lift (root_extent_at i 0) in mret (first_block x) else mret 0) in
  if 48 <? entries_count old * 12 then lift Panic
  else
    let h := mkHeader EXT4_EXTENT_MAGIC (entries_count old) 340 0 0 in
    let entries := slice 12 (Z.to_nat (entries_count old * 12)) (inode_block i) in
    do! _ := write_at (new_block *! 4096) (Disk.copy_at (Disk.copy_at (replicate 4096 0) 0 (header_bytes h)) 12 entries) in
    do! _ := logged (set_extent_block_checksum new_block) in
    let i := set_root_header i (mkHeader EXT4_EXTENT_MAGIC 1 4 (u16 (depth old + 1)) (generation old)) in
    let i := set_inode_block i (Disk.copy_at (inode_block i) 12 (replicate 48 0)) in
    do! i := lift (set_root_first_index i (index_store_pblock (mkIndex first 0 0 0) new_block)) in
    do! _ := put_inode i in
    write_back_inode num.

(** [insert_again] is [insert_extent], called again after the tree has grown. *)
Definition insert_new_extent (insert_again : Ext4Extent → M unit) (sp : SearchPath) (newex : Ext4Extent) : M unit :=
  do! n := lift (node_of sp) in
  let h := pheader n in
  if sdepth sp =? 0 then
    do! i := get_inode in
    if entries_count h =? 0 then
      do! i := lift (set_root_extent_at i (position n) newex) in
      let rh := root_extent_header i in
      do! _ := put_inode (set_root_header i (with_entries rh (u16 (entries_count rh + 1)))) in
      write_back_inode num
    else if entries_count h =? max_entries_count h then
      do! _ := ext_grow_indepth in
      insert_again newex
    else
      do! i := lift (set_root_extent_at i (position n + 1) newex) in
      let rh := root_extent_header i in
      put_inode (set_root_header i (with_entries rh (u16 (entries_count rh + 1))))
  else
    do! l := read_at (pblock_of_node n *! 4096) in
    do! l := lift (put_entry l (position n + 1) (extent_bytes newex)) in
    let lh := load_header l in
    do! _ := write_at (pblock_of_node n *! 4096) (Disk.copy_at l 0 (header_bytes (with_entries lh (u16 (entries_count lh + 1))))) in
    logged (set_extent_block_checksum (pblock_of_node n)).

Definition create_new_leaf (insert_again : Ext4Extent → M unit) (newex : Ext4Extent) : M unit :=
  do! _ := ext_grow_indepth in
  insert_again newex.

(** The merges with the neighbours of the extent found; [true] when one was done. *)
Definition try_merge (sp : SearchPath) (n : ExtentPathNode) (ex newex : Ext4Extent) : M bool :=
  let pos := position n in
  let last_extent_pos := entries_count (pheader n) - 1 in
  if can_merge ex newex then
    do! merged := merge_extent sp ex newex in
    if pblock_of_node n =? 0 then
      do! i := get_inode in
      do! i := lift (set_root_extent_at i pos merged) in
      do! _ := put_inode i in
      mret true
    else mret true
  else
    do! right_done :=
      (if (pos <? last_extent_pos) && (u32 (first_block ex + block_count ex) <? first_block newex) then
         do! next := get_extent_from_node n (pos + 1) in
         if can_merge next newex then do! _ := merge_extent sp newex next in mret true else mret false
       else mret false) in
    if right_done then mret true
    else if (0 <? pos) && (u32 (first_block newex + block_count newex) <? first_block ex) then
      do! prev := get_extent_from_node n (pos - 1) in
      if can_merge prev newex then do! _ := merge_extent sp prev newex in mret true else mret false
    else mret false.

(** The calls nest once more for each time the tree grows. *)
Fixpoint insert_extent_fuel (fuel : nat) (newex : Ext4Extent) : M unit :=
  match fuel with
  | O => lift Panic
  | S fuel =>
      do! sp := find_extent (first_block newex) in
      do! n := lift (node_of sp) in
      let h := pheader n in
      if entries_count h =? 0 then insert_new_extent (insert_extent_fuel fuel) sp newex
      else
        do! merged := match pextent n with Some ex => try_merge sp n ex newex | None => mret false end in
        if merged then mret tt
        else if entries_count h <? max_entries_count h then insert_new_extent (insert_extent_fuel fuel) sp newex
        else create_new_leaf (insert_extent_fuel fuel) newex
  end.

Definition insert_extent (newex : Ext4Extent) : M unit := insert_extent_fuel 2 newex.

(** *** ext4_impls/inode.rs: appending a block *)

(** The logical block behind the end of the file. *)
Definition next_iblock (i : list Z) : Z := u32 ((size i + 4095) / 4096).

Definition append_extent (iblock new_block : Z) : M Z :=
  do! _ := insert_extent (store_pblock (mkExtent iblock (u16 (Z.min 1 (u32 (EXT_MAX_BLOCKS - iblock)))) 0 0) new_block) in
  do! i := get_inode in
  do! _ := put_inode (set_size i (size i +! 4096)) in
  do! _ := write_back_inode num in
  mret new_block.

Definition append_inode_pblk : M Z :=
  do! i := get_inode in
  do! new_block := balloc_alloc_block None in
  append_extent (next_iblock i) new_block.

Definition append_inode_pblk_from (start_bgid : Z) : M (Z * Z) :=
  do! i := get_inode in
  do! (new_block, bgid) := balloc_alloc_block_from start_bgid in
  do! b := append_extent (next_iblock i) new_block in
  mret (b, bgid).

End ops.

(** ** Search *)

(** Entry [i] of a node is [e i], for the first [n] entries. *)
Definition holds_extents (l : list Z) (es : list Ext4Extent) : Prop :=
  ∀ i e, es !! i = Some e → load_extent l (Z.of_nat i) = Ret e.

Definition holds_indexes (l : list Z) (xs : list Ext4ExtentIndex) : Prop :=
  ∀ i x, xs !! i = Some x → load_index l (Z.of_nat i) = Ret x.

(** The last entry that does not start behind the block, or the first entry. *)
Definition last_before (first : nat → option Z) (n lblock p : Z) : Prop :=
  0 ≤ p < n ∧ (0 < p → ∃ f, first (Z.to_nat p) = Some f ∧ f ≤ lblock) ∧
  ∀ i f, p < Z.of_nat i → first i = Some f → lblock < f.

Section loops.
Context (lblock : Z) (n : Z) (first : nat → option Z).
Context (Hfirst : ∀ i, 0 ≤ i < n → ∃ f, first (Z.to_nat i) = Some f).
Context (Hlast : ∀ i f, first i = Some f → Z.of_nat i < n).
(** The entries are in order. *)
Context (Hsorted : ∀ i j f g, (i < j)%nat → first i = Some f → first j = Some g → f ≤ g).

(** Where a loop from [l] to [r] stands. *)
Definition searched (lo l r : Z) : Prop :=
  lo ≤ l ≤ r + 1 ∧ r < n ∧ (lo < l → ∃ f, first (Z.to_nat (l - 1)) = Some f ∧ f ≤ lblock) ∧
  ∀ i f, r < Z.of_nat i → first i = Some f → lblock < f.

Lemma searched_left lo l r m f : searched lo l r → 0 ≤ lo → l ≤ m ≤ r → first (Z.to_nat m) = Some f → lblock < f →
  searched lo l (m - 1).
Proof.
  intros (H1 & H2 & H3 & H4) Hlo Hm Hf Hlt. unfold searched. splits; [lia..|done|]. intros i g Hi Hg.
  destruct (decide (i = Z.to_nat m)) as [->|Hne]; [congruence|].
  pose proof (Hsorted (Z.to_nat m) i f g ltac:(lia) Hf Hg). lia.
Qed.

Lemma searched_right lo l r m f : searched lo l r → 0 ≤ lo → l ≤ m ≤ r → first (Z.to_nat m) = Some f → f ≤ lblock →
  searched lo (m + 1) r.
Proof.
  intros (H1 & H2 & H3 & H4) Hlo Hm Hf Hle. unfold searched. splits; [lia..| |done].
  intros _. exists f. by replace (m + 1 - 1) with m by lia.
Qed.

Lemma middle l r : l ≤ r → l ≤ l + (r - l) / 2 ≤ r.
Proof.
  intros. pose proof (Z.div_pos (r - l) 2 ltac:(lia) ltac:(lia)). pose proof (Z.mul_div_le (r - l) 2 ltac:(lia)). lia.
Qed.

Lemma extent_loop_spec l fuel : ∀ lo r, 1 ≤ lo →
  (∀ i, 0 ≤ i < n → ∃ e, load_extent l i = Ret e ∧ first (Z.to_nat i) = Some (first_block e)) →
  searched 1 lo r → r - lo + 1 < Z.of_nat fuel →
  ∃ x, extent_loop fuel l lblock lo r = Ret x ∧ searched 1 x (x - 1).
Proof.
  induction fuel as [|fuel IH]; intros lo r Hlo Hl Hs Hf; [destruct Hs as [? _]; lia|]. cbn [extent_loop].
  destruct (Z.leb_spec lo r) as [Hle|Hgt].
  - pose proof (middle lo r Hle) as Hm. set (m := lo + (r - lo) / 2) in *. clearbody m.
    destruct (Hl m) as (e & -> & He); [destruct Hs as (_ & ? & _); lia|]. cbn [exec_bind].
    destruct (Z.ltb_spec lblock (first_block e)).
    + apply IH; [done|done|by eapply searched_left|lia].
    + apply IH; [lia|done|by eapply searched_right|lia].
  - exists lo. split; [done|]. destruct Hs as (? & ? & ? & ?). by replace r with (lo - 1) in * by lia.
Qed.

Lemma index_loop_spec l lo0 fuel : ∀ lo r, 0 ≤ lo0 →
  (∀ i, 0 ≤ i < n → ∃ x, load_index l i = Ret x ∧ first (Z.to_nat i) = Some (ifirst_block x)) →
  searched lo0 lo r → r - lo + 1 < Z.of_nat fuel →
  ∃ x, index_loop fuel l lblock lo r = Ret x ∧ searched lo0 x (x - 1).
Proof.
  induction fuel as [|fuel IH]; intros lo r Hlo Hl Hs Hf; [destruct Hs as [? _]; lia|]. cbn [index_loop].
  destruct (Z.leb_spec lo r) as [Hle|Hgt].
  - pose proof (middle lo r Hle) as Hm. set (m := lo + (r - lo) / 2) in *. clearbody m.
    assert (lo0 ≤ lo) by (destruct Hs; lia).
    destruct (Hl m) as (e & -> & He); [destruct Hs as (_ & ? & _); lia|]. cbn [exec_bind].
    destruct (Z.ltb_spec lblock (ifirst_block e)).
    + assert (searched lo0 lo (m - 1)) as Hs' by (by eapply searched_left). destruct (Z.eqb_spec m 0) as [->|Hne].
      * exists lo. split; [done|]. by replace (0 - 1) with (lo - 1) in Hs' by lia.
      * apply IH; [done|done|done|lia].
    + apply IH; [done|done|by eapply searched_right|lia].
  - exists lo. split; [done|]. destruct Hs as (? & ? & ? & ?). by replace r with (lo - 1) in * by lia.
Qed.

Lemma searched_before lo x : 0 ≤ lo ≤ 1 → 1 ≤ x → searched lo x (x - 1) → last_before first n lblock (x - 1).
Proof.
  intros Hlo Hx (H1 & H2 & H3 & H4). unfold last_before. splits; [lia..| |done]. intros Hp. apply H3. lia.
Qed.
End loops.

Definition starts (es : list Ext4Extent) (i : nat) : option Z := first_block <$> es !! i.
Definition istarts (xs : list Ext4ExtentIndex) (i : nat) : option Z := ifirst_block <$> xs !! i.

Definition in_order (f : nat → option Z) : Prop := ∀ i j a b, (i < j)%nat → f i = Some a → f j = Some b → a ≤ b.

Lemma starts_some es i : 0 ≤ i < Z.of_nat (length es) → ∃ e, es !! Z.to_nat i = Some e ∧ starts es (Z.to_nat i) = Some (first_block e).
Proof.
  intros Hi. destruct (lookup_lt_is_Some_2 es (Z.to_nat i)) as [e He]; [lia|]. exists e. split; [done|]. unfold starts. by rewrite He.
Qed.

Lemma istarts_some xs i : 0 ≤ i < Z.of_nat (length xs) → ∃ x, xs !! Z.to_nat i = Some x ∧ istarts xs (Z.to_nat i) = Some (ifirst_block x).
Proof.
  intros Hi. destruct (lookup_lt_is_Some_2 xs (Z.to_nat i)) as [e He]; [lia|]. exists e. split; [done|]. unfold istarts. by rewrite He.
Qed.

Lemma fmap_lookup_bound {A} (l : list A) (f : A → Z) i a : f <$> l !! i = Some a → Z.of_nat i < Z.of_nat (length l).
Proof. destruct (l !! i) eqn:E; [|done]. intros _. apply lookup_lt_Some in E. lia. Qed.

Lemma holds_load l es i : holds_extents l es → 0 ≤ i < Z.of_nat (length es) →
  ∃ e, load_extent l i = Ret e ∧ starts es (Z.to_nat i) = Some (first_block e).
Proof.
  intros Hl Hi. destruct (starts_some es i Hi) as (e & He & Hs). exists e. split; [|done].
  replace i with (Z.of_nat (Z.to_nat i)) by lia. by apply Hl.
Qed.

Lemma holds_iload l xs i : holds_indexes l xs → 0 ≤ i < Z.of_nat (length xs) →
  ∃ x, load_index l i = Ret x ∧ istarts xs (Z.to_nat i) = Some (ifirst_block x).
Proof.
  intros Hl Hi. destruct (istarts_some xs i Hi) as (e & He & Hs). exists e. split; [|done].
  replace i with (Z.of_nat (Z.to_nat i)) by lia. by apply Hl.
Qed.

(** The search in a leaf returns the last extent that does not start behind the block, or the first one. *)
Lemma binsearch_extent_spec n es lblock :
  holds_extents (data n) es → entries_count (header n) = Z.of_nat (length es) → es ≠ [] → in_order (starts es) →
  ∃ p e, binsearch_extent n lblock = Ret (Some (e, p)) ∧ es !! Z.to_nat p = Some e ∧
    last_before (starts es) (Z.of_nat (length es)) lblock p.
Proof.
  intros Hl Hc Hne Ho. assert (0 < length es)%nat as Hpos by (destruct es; [done|cbn; lia]).
  unfold binsearch_extent. rewrite Hc. rewrite (proj2 (Z.eqb_neq _ 0)) by lia. cbn [orb].
  destruct (is_root n && (Z.of_nat (length es) <=? 1)) eqn:Hroot.
  - apply andb_true_iff in Hroot as [_ Hle%Z.leb_le]. destruct (lookup_lt_is_Some_2 es 0) as [e He]; [lia|].
    rewrite (Hl 0%nat e He : load_extent (data n) 0 = Ret e). cbn [exec_bind]. exists 0, e. splits; try done.
    unfold last_before. splits; [lia..|]. intros i f Hi Hf. apply fmap_lookup_bound in Hf. lia.
  - destruct (extent_loop_spec lblock (Z.of_nat (length es)) (starts es) Ho (data n) (S (Z.to_nat (Z.of_nat (length es)))) 1
                (Z.of_nat (length es) - 1)) as (x & -> & Hs); [lia|by intros; apply holds_load| |lia|].
    { unfold searched. splits; [lia..|]. intros i f Hi Hf. apply fmap_lookup_bound in Hf. lia. }
    cbn [exec_bind]. destruct Hs as (H1 & H2 & H3 & H4) eqn:Es; clear Es.
    destruct (starts_some es (x - 1)) as (e & He & Hf); [lia|].
    rewrite <- (Z2Nat.id (x - 1)) by lia. rewrite (Hl _ e He). cbn [exec_bind]. exists (Z.of_nat (Z.to_nat (x - 1))), e.
    rewrite Nat2Z.id. splits; try done. rewrite Z2Nat.id by lia. apply (searched_before lblock _ _ 1 x); [lia|lia|].
    unfold searched. splits; first [done|lia].
Qed.

(** The search in an index node; the root needs two entries for it. *)
Lemma binsearch_idx_spec n xs lblock p :
  holds_indexes (data n) xs → entries_count (header n) = Z.of_nat (length xs) → in_order (istarts xs) →
  length (data n) = (if is_root n then 60 else 4096)%nat →
  (if is_root n then 2 ≤ length xs ≤ 4 else 1 ≤ length xs ≤ 340)%nat →
  (∃ x, xs !! Z.to_nat p = Some x ∧ ifirst_block x ≤ lblock) → last_before (istarts xs) (Z.of_nat (length xs)) lblock p →
  binsearch_idx n lblock = Ret (Some p).
Proof.
  intros Hl Hc Ho Hlen Hn (x & Hx & Hxl) (Hp1 & Hp2 & Hp3). unfold binsearch_idx. rewrite Hc, (proj2 (Z.eqb_neq _ 0)) by (destruct (is_root n); lia).
  assert (∀ l, searched lblock (Z.of_nat (length xs)) (istarts xs) (if is_root n then 1 else 0) l (l - 1) → 1 ≤ l → l - 1 = p) as Huniq.
  { intros l Hs Hl1. apply searched_before in Hs as (Hb1 & Hb2 & Hb3); [|destruct (is_root n); lia|done].
    assert (istarts xs (Z.to_nat p) = Some (ifirst_block x)) as Hxp by (unfold istarts; by rewrite Hx).
    destruct (Z.lt_trichotomy (l - 1) p) as [Hlt|[Heq|Hgt]]; [|done|].
    - pose proof (Hb3 (Z.to_nat p) (ifirst_block x) ltac:(lia) Hxp). lia.
    - destruct Hb2 as (f & Hf & Hfl); [lia|]. pose proof (Hp3 (Z.to_nat (l - 1)) f ltac:(lia) Hf). lia. }
  rewrite Hlen. destruct (is_root n).
  - change (Z.of_nat ((60 - 12) / 12)) with 4. rewrite (proj2 (Z.leb_gt 4 _)) by lia. cbn [andb].
    rewrite (proj2 (Z.ltb_ge _ 1)) by lia.
    destruct (index_loop_spec lblock (Z.of_nat (length xs)) (istarts xs) Ho (data n) 1 (S (Z.to_nat (Z.of_nat (length xs)))) 1
                (Z.of_nat (length xs) - 1)) as (l & -> & Hs); [lia|by intros; apply holds_iload| |lia|].
    { unfold searched. splits; [lia..|]. intros i f Hi Hf. apply fmap_lookup_bound in Hf. lia. }
    cbn [exec_bind]. assert (1 ≤ l) by (destruct Hs; lia). rewrite (proj2 (Z.eqb_neq l 0)) by lia. by rewrite (Huniq l).
  - change (Z.of_nat ((4096 - 12) / 12)) with 340. rewrite Z.min_l by lia. rewrite (proj2 (Z.eqb_neq _ 0)) by lia.
    destruct (index_loop_spec lblock (Z.of_nat (length xs)) (istarts xs) Ho (data n) 0 (S (Z.to_nat (Z.of_nat (length xs)))) 0
                (Z.of_nat (length xs) - 1)) as (l & -> & Hs); [lia|by intros; apply holds_iload| |lia|].
    { unfold searched. splits; [lia..|]. intros i f Hi Hf. apply fmap_lookup_bound in Hf. lia. }
    cbn [exec_bind]. assert (l ≠ 0) as Hl0.
    { intros ->. destruct Hs as (_ & _ & _ & H4).
      pose proof (H4 (Z.to_nat p) (ifirst_block x) ltac:(lia) ltac:(unfold istarts; by rewrite Hx)). lia. }
    rewrite (proj2 (Z.eqb_neq l 0)) by done. rewrite (Huniq l); [done|done|]. destruct Hs; lia.
Qed.

(** A root index with one entry finds nothing. *)
Lemma binsearch_idx_single n lblock : is_root n = true → entries_count (header n) = 1 → length (data n) = 60%nat →
  binsearch_idx n lblock = Ret None.
Proof. intros Hr Hc Hl. unfold binsearch_idx. rewrite Hr, Hc, Hl. done. Qed.

(** ** Lookup *)

Definition covers (e : Ext4Extent) (b : Z) : Prop := first_block e ≤ b < first_block e + get_actual_len e.

(** Extents in order, none reaching into the next. *)
Definition extents_ok (es : list Ext4Extent) : Prop :=
  ∀ i j e e', (i < j)%nat → es !! i = Some e → es !! j = Some e' →
    first_block e ≤ first_block e' ∧ first_block e + get_actual_len e ≤ first_block e'.

Lemma extents_ok_order es : extents_ok es → in_order (starts es).
Proof.
  intros Hok i j a b Hij Ha Hb. unfold starts in Ha, Hb. apply fmap_Some in Ha as (e & He & ->).
  apply fmap_Some in Hb as (e' & He' & ->). by destruct (Hok i j e e' Hij He He').
Qed.

(** In a leaf the search for a covered block returns the extent that covers it. *)
Lemma binsearch_covered n es e lblock :
  holds_extents (data n) es → entries_count (header n) = Z.of_nat (length es) → extents_ok es → e ∈ es → covers e lblock →
  ∃ p, binsearch_extent n lblock = Ret (Some (e, p)) ∧ es !! Z.to_nat p = Some e.
Proof.
  intros Hl Hc Hok Hin Hcov. destruct (binsearch_extent_spec n es lblock) as (p & x & Hb & Hx & H1 & H2 & H3);
    [done|done|by intros ->; apply elem_of_nil in Hin|by apply extents_ok_order|].
  exists p. apply list_elem_of_lookup in Hin as (i & Hi). pose proof (lookup_lt_Some _ _ _ Hi).
  destruct (Nat.lt_trichotomy i (Z.to_nat p)) as [Hlt|[->|Hgt]].
  - destruct (Hok i (Z.to_nat p) e x Hlt Hi Hx) as [_ Hend]. destruct H2 as (f & Hf & Hfl); [lia|].
    unfold starts in Hf. rewrite Hx in Hf. injection Hf as <-. destruct Hcov. lia.
  - rewrite Hx in Hi. injection Hi as ->. done.
  - pose proof (H3 i (first_block e) ltac:(lia) ltac:(unfold starts; by rewrite Hi)). destruct Hcov. lia.
Qed.

Section lookup.
Context {D : Type} `{BlockIO D, !BlockLaws D}.

(** The node [l] of height [h] holds the extents [es]; child nodes are in blocks below 2^32. *)
Fixpoint stored (dv : Disk.Device D) (h : nat) (root : bool) (l : list Z) (es : list Ext4Extent) : Prop :=
  length l = (if root then 60 else 4096)%nat ∧
  match h with
  | O => holds_extents l es ∧ entries_count (load_header l) = Z.of_nat (length es) ∧ extents_ok es
  | S h =>
      ∃ kids : list (Ext4ExtentIndex * list Ext4Extent),
        holds_indexes l kids.*1 ∧ entries_count (load_header l) = Z.of_nat (length kids) ∧
        (1 ≤ length kids ≤ if root then 4 else 340)%nat ∧ es = mjoin kids.*2 ∧
        (∀ i x es', kids !! i = Some (x, es') →
           leaf_hi x = 0 ∧ usable dv (index_get_pblock x) ∧ stored dv h false (block (Disk.dev dv) (index_get_pblock x)) es' ∧
           ∀ e, e ∈ es' → ifirst_block x ≤ first_block e) ∧
        (∀ i j x x' es' es'', (i < j)%nat → kids !! i = Some (x, es') → kids !! j = Some (x', es'') →
           ifirst_block x ≤ ifirst_block x' ∧ ∀ e, e ∈ es' → first_block e + get_actual_len e ≤ ifirst_block x')
  end.

(** The root is an index with a single entry. *)
Definition single_index (root : list Z) : Prop := 0 < depth (load_header root) ∧ entries_count (load_header root) = 1.

#[global] Instance single_index_dec root : Decision (single_index root).
Proof. unfold single_index. apply _. Defined.

Lemma index_below x : leaf_hi x = 0 → index_get_pblock x = leaf_lo x.
Proof. unfold index_get_pblock. by intros ->. Qed.

Lemma same_disk_trans (a b c : Disk.Device D) : Disk.same_disk a b → Disk.same_disk b c → Disk.same_disk a c.
Proof. intros (H1 & H2 & H3) (H4 & H5 & H6). unfold Disk.same_disk. by rewrite H4, H5, H6. Qed.

Lemma read_at_spec (st : St) dv blk : Disk.same_disk dv (dev st) → Disk.coherent dv → usable dv blk →
  ∃ st', read_at (blk *! 4096) st = Ret (Ok (block (Disk.dev dv) blk), st') ∧ Disk.same_disk dv (dev st') ∧ inode st' = inode st.
Proof.
  intros Hs Hc Hu. unfold read_at.
  destruct (read_dev_spec (dev st) blk) as (d & -> & Hd); [by eapply same_disk_coherent|by eapply usable_same|].
  cbn [exec_bind]. eexists. splits; [by destruct Hs as (-> & _)|by eapply same_disk_trans|done].
Qed.

(** The child whose extents cover the block. *)
Lemma index_of_covered n xs (kids : list (Ext4ExtentIndex * list Ext4Extent)) lblock e :
  xs = kids.*1 → holds_indexes (data n) xs → entries_count (header n) = Z.of_nat (length kids) →
  length (data n) = (if is_root n then 60 else 4096)%nat →
  (if is_root n then 2 ≤ length kids ≤ 4 else 1 ≤ length kids ≤ 340)%nat →
  (∀ i x es', kids !! i = Some (x, es') → ∀ e, e ∈ es' → ifirst_block x ≤ first_block e) →
  (∀ i j x x' es' es'', (i < j)%nat → kids !! i = Some (x, es') → kids !! j = Some (x', es'') →
     ifirst_block x ≤ ifirst_block x' ∧ ∀ e, e ∈ es' → first_block e + get_actual_len e ≤ ifirst_block x') →
  e ∈ mjoin kids.*2 → covers e lblock →
  ∃ p x es', binsearch_idx n lblock = Ret (Some (Z.of_nat p)) ∧ kids !! p = Some (x, es') ∧ e ∈ es'.
Proof.
  intros -> Hl Hc Hlen Hn Hkey Hord He Hcov. apply list_elem_of_join in He as (es' & He & Hin).
  apply list_elem_of_lookup in Hin as (p & Hp). rewrite list_lookup_fmap in Hp. apply fmap_Some in Hp as ([x es''] & Hp & ->). cbn in He.
  exists p, x, es''. splits; try done. assert (istarts kids.*1 p = Some (ifirst_block x)) as Hst.
  { unfold istarts. by rewrite list_lookup_fmap, Hp. }
  pose proof (Hkey p x es'' Hp e He). pose proof (lookup_lt_Some _ _ _ Hp). destruct Hcov as [Hc1 Hc2].
  assert (∀ i f, istarts kids.*1 i = Some f → ∃ x es', kids !! i = Some (x, es') ∧ f = ifirst_block x) as Hget.
  { intros i f Hf. unfold istarts in Hf. rewrite list_lookup_fmap in Hf. destruct (kids !! i) as [[y ys]|]; [|done].
    injection Hf as <-. eauto. }
  apply binsearch_idx_spec with (xs := kids.*1); try done; rewrite ?length_fmap; try done.
  - intros i j a b Hij Ha Hb. apply Hget in Ha as (y & ys & Hy & ->). apply Hget in Hb as (z & zs & Hz & ->).
    by destruct (Hord i j y z ys zs Hij Hy Hz).
  - exists x. rewrite Nat2Z.id, list_lookup_fmap, Hp. split; [done|lia].
  - unfold last_before. rewrite Nat2Z.id. splits; [lia..| |].
    + intros _. exists (ifirst_block x). split; [done|lia].
    + intros i f Hi Hf. apply Hget in Hf as (y & ys & Hy & ->).
      destruct (Hord p i x y es'' ys ltac:(lia) Hp Hy) as [_ Hend]. specialize (Hend e He). lia.
Qed.

Lemma descend_spec dv lblock e h : Disk.coherent dv → covers e lblock → ∀ st node sp pn es,
  Disk.same_disk dv (dev st) → stored dv h (is_root node) (data node) es → header node = load_header (data node) → e ∈ es →
  (h = 0%nat ∨ is_root node = false ∨ entries_count (header node) ≠ 1) →
  ∃ node' sp' pn' st' es', descend h lblock node sp pn st = Ret (Ok (node', sp', pn'), st') ∧
    Disk.same_disk dv (dev st') ∧ inode st' = inode st ∧ holds_extents (data node') es' ∧
    entries_count (header node') = Z.of_nat (length es') ∧ extents_ok es' ∧ e ∈ es'.
Proof.
  intros Hc Hcov. induction h as [|h IH]; intros st node sp pn es Hs (Hlen & Hst) Hh He Hmany; cbn [descend].
  - destruct Hst as (H1 & H2 & H3). rewrite <- Hh in H2. exists node, sp, pn, st, es. done.
  - destruct Hst as (kids & H1 & H2 & H3 & -> & H4 & H5). rewrite <- Hh in H2.
    assert (if is_root node then 2 ≤ length kids ≤ 4 else 1 ≤ length kids ≤ 340)%nat as H3'.
    { destruct (is_root node); [|lia]. destruct Hmany as [?|[?|?]]; [done|done|lia]. }
    destruct (index_of_covered node _ kids lblock e eq_refl H1 H2 Hlen H3') as (p & x & es' & Hb & Hp & Hin); try done.
    { intros i y ys Hy. by apply (H4 i y ys Hy). }
    destruct (H4 p x es' Hp) as (Hhi & Hu & Hstored & _). rewrite (index_below _ Hhi) in Hu, Hstored.
    unfold mbind at 1, lift at 1. rewrite Hb. cbn [exec_bind]. unfold mbind at 1, lift at 1.
    rewrite (H1 p x) by (by rewrite list_lookup_fmap, Hp). cbn [exec_bind].
    destruct (read_at_spec st dv (leaf_lo x) Hs Hc Hu) as (st1 & Hr & Hs1 & Hi1). unfold mbind at 1. rewrite Hr. cbn [exec_bind].
    unfold load_from_data. assert (length (block (Disk.dev dv) (leaf_lo x)) = 4096%nat) as -> by apply Disk.bytes_length.
    cbn [Nat.eqb]. rewrite <- Hi1. eapply IH; [done|exact Hstored|done|done|by right; left].
Qed.

Lemma lookup_covered (st : St) (es : list Ext4Extent) (e : Ext4Extent) (lblock : Z) :
  let root := inode_block (inode st) in
  let h := depth (load_header root) in
  Disk.coherent (dev st) → 0 ≤ h ≤ 5 → stored (dev st) (Z.to_nat h) true root es → e ∈ es → covers e lblock →
  0 ≤ get_pblock e → get_pblock e + get_actual_len e < 2 ^ 64 → ¬ single_index root →
  ∃ st', get_pblock_idx lblock st = Ret (Ok (get_pblock e + (lblock - first_block e)), st') ∧
    Disk.same_disk (dev st) (dev st') ∧ inode st' = inode st.
Proof.
  intros root h Hc Hh Hst He Hcov Hp0 Hp1 Hmany. unfold get_pblock_idx, find_extent. fold root. unfold mbind at 1, get_inode at 1.
  cbn [exec_bind]. fold root. unfold load_from_data.
  assert (length root = 60%nat) as Hlen by (destruct (Z.to_nat h); destruct Hst as [? _]; done). rewrite Hlen. cbn [Nat.eqb header]. fold h.
  rewrite (proj2 (Z.ltb_ge 5 h)) by lia.
  destruct (descend_spec (dev st) lblock e (Z.to_nat h) Hc Hcov st (mkNode (load_header root) root true) (mkSearchPath 0 4 []) 0 es)
    as (node & sp & pn & st' & es' & Hd & Hs & Hi & H1 & H2 & H3 & H4); [done..| |].
  { destruct (decide (h = 0)) as [E|E]; [left; lia|]. right; right. intros E1. apply Hmany. split; [fold h; lia|done]. }
  unfold mbind at 1. rewrite Hd. cbn [exec_bind].
  destruct (binsearch_covered node es' e lblock H1 H2 H3 H4 Hcov) as (p & Hb & _). unfold mbind at 1, lift. rewrite Hb. cbn [exec_bind].
  unfold mret. cbn [exec_bind path]. rewrite last_snoc. cbn [pblock]. exists st'. splits; try done.
  destruct Hcov. rewrite u64_small by lia. by replace (lblock - first_block e + get_pblock e) with (get_pblock e + (lblock - first_block e)) by lia.
Qed.

(** The search in such a root finds nothing, and the block number is 0. *)
Lemma lookup_single (st : St) (lblock : Z) :
  length (inode_block (inode st)) = 60%nat → single_index (inode_block (inode st)) → depth (load_header (inode_block (inode st))) ≤ 5 →
  get_pblock_idx lblock st = Ret (Ok 0, st).
Proof.
  intros Hl [Hd Hn] Hd5. unfold get_pblock_idx, find_extent, mbind at 1, get_inode at 1. cbn [exec_bind].
  unfold load_from_data. rewrite Hl. cbn [Nat.eqb header]. rewrite (proj2 (Z.ltb_ge 5 _)) by lia.
  destruct (Z.to_nat (depth (load_header (inode_block (inode st))))) as [|d] eqn:E; [lia|]. cbn [descend].
  unfold mbind at 1 2, lift at 1. by rewrite binsearch_idx_single.
Qed.

(** C34: Lookup in extent trees. For an inode whose root holds a well-formed tree of up to five levels, with its
    index blocks below 2^32, and a block of the file that an extent covers: unless the root is an index with a single
    entry, the physical block computed is the block of that extent at the same distance from its start; under such a
    root every block is computed as 0. In both cases nothing on the disk changes. *)
Theorem pblock_of_covered_block (st : St) (es : list Ext4Extent) (e : Ext4Extent) (lblock : Z) :
  let root := inode_block (inode st) in
  let h := depth (load_header root) in
  Disk.coherent (dev st) → 0 ≤ h ≤ 5 → stored (dev st) (Z.to_nat h) true root es → e ∈ es → covers e lblock →
  0 ≤ get_pblock e → get_pblock e + get_actual_len e < 2 ^ 64 →
  ∃ st', get_pblock_idx lblock st =
      Ret (Ok (if decide (single_index root) then 0 else get_pblock e + (lblock - first_block e)), st') ∧
    Disk.same_disk (dev st) (dev st') ∧ inode st' = inode st.
Proof.
  intros root h Hc Hh Hst He Hcov Hp0 Hp1. destruct (decide (single_index root)) as [Hs|Hs]; [|by eapply lookup_covered].
  exists st. splits; try done. apply lookup_single; [|done|apply Hh].
  fold root. destruct (Z.to_nat h); destruct Hst as [? _]; done.
Qed.
End lookup.

(** ** Bytes of the inode *)

(** Bytes written elsewhere leave a slice alone; the slice written to is what was written. *)
Lemma slice_copy_out (l src : list Z) (pos off n : nat) : (pos + length src ≤ length l)%nat →
  (off + n ≤ pos ∨ pos + length src ≤ off)%nat → slice off n (Disk.copy_at l pos src) = slice off n l.
Proof.
  intros Hlen Hout. apply list_eq. intros k. rewrite !slice_lookup. case_decide; [|done].
  rewrite Disk.copy_at_lookup by done. by rewrite decide_False by lia.
Qed.

Lemma slice_copy_in (l src : list Z) (pos off n : nat) : (pos + length src ≤ length l)%nat →
  (pos ≤ off ∧ off + n ≤ pos + length src)%nat → slice off n (Disk.copy_at l pos src) = slice (off - pos) n src.
Proof.
  intros Hlen Hin. apply list_eq. intros k. rewrite !slice_lookup. case_decide; [|done].
  rewrite Disk.copy_at_lookup by done. rewrite decide_True by lia. f_equal. lia.
Qed.

Lemma slice_of_slice {A} (off n off' m : nat) (l : list A) : (off' + m ≤ n)%nat → slice off' m (slice off n l) = slice (off + off') m l.
Proof.
  intros. apply list_eq. intros k. rewrite !slice_lookup. case_decide; [|done]. rewrite decide_True by lia. f_equal. lia.
Qed.

Lemma set_field_length off n l v : (off + n ≤ length l)%nat → length (set_field off n l v) = length l.
Proof. intros. apply Disk.copy_at_length. by rewrite le_bytes_length. Qed.

Definition root_kept (i i' : list Z) : Prop := length i' = 156%nat ∧ inode_block i' = inode_block i.

Lemma root_kept_trans i j k : root_kept i j → root_kept j k → root_kept i k.
Proof. intros [? E1] [? E2]. split; [done|congruence]. Qed.

Lemma root_kept_set i off n v : length i = 156%nat → (off + n ≤ 40 ∨ 100 ≤ off ∧ off + n ≤ 156)%nat → root_kept i (set_field off n i v).
Proof.
  intros Hi Ho. split; [rewrite set_field_length; lia|]. apply slice_copy_out; rewrite le_bytes_length; lia.
Qed.

Lemma root_kept_set2 i off n v off' n' v' : length i = 156%nat → (off + n ≤ 40 ∨ 100 ≤ off ∧ off + n ≤ 156)%nat →
  (off' + n' ≤ 40 ∨ 100 ≤ off' ∧ off' + n' ≤ 156)%nat → root_kept i (set_field off' n' (set_field off n i v) v').
Proof.
  intros Hi H1 H2. destruct (root_kept_set i off n v Hi H1) as [Hl E].
  eapply root_kept_trans; [split; [exact Hl|exact E]|]. by apply root_kept_set.
Qed.

(** The four checksum bytes of the inode are outside of its root. *)
Lemma set_inode_checksum_root fs i num i' : length i = 156%nat → set_inode_checksum fs i num = Ret i' → root_kept i i'.
Proof.
  intros Hi. unfold set_inode_checksum, get_inode_checksum.
  destruct (Crc.ext4_crc32c _ _ _); cbn [exec_bind]; [|done]. destruct (Crc.ext4_crc32c _ _ _); cbn [exec_bind]; [|done].
  destruct (Crc.ext4_crc32c _ _ _); cbn [exec_bind]; [|done]. destruct (Crc.ext4_crc32c _ _ _); cbn [exec_bind]; [|done].
  assert (∀ j v, root_kept i j → root_kept i (set_field 124 2 j v)) as H124.
  { intros j v [Hl E]. destruct (root_kept_set j 124 2 v Hl) as [Hl' E']; [lia|]. split; [done|congruence]. }
  assert (∀ j v, root_kept i j → root_kept i (set_field 130 2 j v)) as H130.
  { intros j v [Hl E]. destruct (root_kept_set j 130 2 v Hl) as [Hl' E']; [lia|]. split; [done|congruence]. }
  intros [= <-]. destruct (128 <? inode_size fs);
    [apply H130, H124, H130, H124, H130, H124|apply H124, H124, H130, H124]; exact (conj Hi eq_refl).
Qed.

(** ** Operations that leave the root alone *)

Section keeps.
Context {D : Type} `{BlockIO D} (junk : list Z) (fs : Ext4) (num : Z).

Definition keeps {A} (m : M (D := D) A) : Prop := ∀ st r st', m st = Ret (r, st') → length (inode st) = 156%nat →
  root_kept (inode st) (inode st').

Lemma root_keeps_bind {A B} (m : M A) (k : A → M B) : keeps m → (∀ a, keeps (k a)) → keeps (mbind m k).
Proof.
  intros Hm Hk st r st'. unfold mbind. destruct (m st) as [[[a|e] st1]|] eqn:E; cbn [exec_bind]; [| |done].
  - intros Hr Hl. pose proof (Hm _ _ _ E Hl) as K1. eapply root_kept_trans; [exact K1|]. eapply Hk; [done|apply K1].
  - intros [= <- <-] Hl. by eapply Hm.
Qed.

Lemma keeps_ret {A} (a : A) : keeps (mret a).
Proof. intros st r st' [= <- <-] Hl. done. Qed.

Lemma keeps_fail {A} e : keeps (mfail (A := A) e).
Proof. intros st r st' [= <- <-] Hl. done. Qed.

Lemma keeps_lift {A} (e : exec A) : keeps (lift e).
Proof. intros st r st'. unfold lift. destruct e; cbn; [|done]. intros [= <- <-] Hl. done. Qed.

Lemma keeps_get : keeps get_inode.
Proof. intros st r st' [= <- <-] Hl. done. Qed.

Lemma keeps_read off : keeps (read_at off).
Proof. intros st r st'. unfold read_at. destruct (read_dev _ _) as [[l d]|]; cbn; [|done]. intros [= <- <-] Hl. done. Qed.

Lemma keeps_write off l : keeps (write_at off l).
Proof. intros st r st'. unfold write_at. destruct (write_dev _ _ _) as [d|]; cbn; [|done]. intros [= <- <-] Hl. done. Qed.

Lemma keeps_group bgid : keeps (load_group junk fs bgid).
Proof. intros st r st'. unfold load_group. destruct (load_new _ _ _ _) as [[l d]|]; cbn; [|done]. intros [= <- <-] Hl. done. Qed.

Lemma keeps_logged (m : M unit) : keeps m → keeps (logged m).
Proof.
  intros Hm st r st'. unfold logged. destruct (m st) as [[x st1]|] eqn:E; cbn [exec_bind]; [|done].
  intros [= <- <-] Hl. by eapply Hm.
Qed.

(** A change of the inode between two operations. *)
Lemma keeps_modify {B} (f : list Z → list Z) (k : M B) : (∀ i, length i = 156%nat → root_kept i (f i)) → keeps k →
  keeps (mbind get_inode (fun i => mbind (put_inode (f i)) (fun _ => k))).
Proof.
  intros Hf Hk st r st' Hr Hl. unfold mbind, get_inode, put_inode in Hr. cbn [exec_bind] in Hr.
  pose proof (Hf _ Hl) as K. eapply root_kept_trans; [exact K|]. exact (Hk _ _ _ Hr (proj1 K)).
Qed.

Create HintDb keeps.
#[local] Hint Resolve root_keeps_bind keeps_ret keeps_fail keeps_lift keeps_get keeps_read keeps_write keeps_group keeps_logged : keeps.
Ltac keeps_tac := repeat first [ apply root_keeps_bind; [solve [auto with keeps]|intros [? ?]] | apply root_keeps_bind; [solve [auto with keeps]|intros ?]
  | progress auto with keeps | case_match ].

Lemma keeps_write_back : keeps (write_back_inode junk fs num).
Proof.
  unfold write_back_inode. apply root_keeps_bind; [unfold inode_disk_pos; keeps_tac|]. intros pos st r st' Hr Hl.
  unfold mbind, get_inode, lift, put_inode in Hr. cbn [exec_bind] in Hr.
  destruct (set_inode_checksum fs (inode st) num) as [i|] eqn:E; cbn [exec_bind] in Hr; [|done].
  pose proof (set_inode_checksum_root _ _ _ _ Hl E) as K. eapply root_kept_trans; [exact K|]. exact (keeps_write _ _ _ _ _ Hr (proj1 K)).
Qed.

Lemma keeps_update bg bgid : keeps (update_free_block_counts junk fs num bg bgid).
Proof.
  unfold update_free_block_counts. apply root_keeps_bind; [unfold sync_super; keeps_tac|]. intros _.
  apply keeps_modify; [intros i Hi; apply root_kept_set2; lia|].
  apply root_keeps_bind; [apply keeps_write_back|]. intros _. unfold sync_group. keeps_tac.
Qed.

Lemma keeps_alloc_loop n : ∀ groups bgid idx, keeps (alloc_loop junk fs num n groups bgid idx).
Proof.
  induction n as [|n IH]; intros groups bgid idx; cbn [alloc_loop]; [apply keeps_fail|].
  apply root_keeps_bind; [apply keeps_group|]. intros bg. destruct (_ =? 0); [apply IH|].
  apply root_keeps_bind; [apply keeps_lift|]. intros first. apply root_keeps_bind; [apply keeps_read|]. intros bitmap.
  apply root_keeps_bind; [apply keeps_lift|]. intros goal. apply root_keeps_bind; [apply keeps_lift|]. intros [i|]; [|apply IH].
  unfold take_block. do 3 (apply root_keeps_bind; [auto with keeps|intros ?]). apply root_keeps_bind; [apply keeps_update|]. intros _. apply keeps_ret.
Qed.

Lemma keeps_alloc goal : keeps (balloc_alloc_block junk fs num goal).
Proof.
  unfold balloc_alloc_block. apply root_keeps_bind; [apply keeps_lift|]. intros [bgid idx].
  apply root_keeps_bind; [apply keeps_lift|]. intros groups. apply keeps_alloc_loop.
Qed.

Lemma keeps_checksum blk : keeps (logged (set_extent_block_checksum fs num blk)).
Proof. apply keeps_logged. unfold set_extent_block_checksum. keeps_tac. Qed.
End keeps.

(** ** The root of the inode after changes *)

Lemma length_header_bytes h : length (header_bytes h) = 12%nat.
Proof. done. Qed.
Lemma length_extent_bytes x : length (extent_bytes x) = 12%nat.
Proof. done. Qed.
Lemma length_index_bytes x : length (index_bytes x) = 12%nat.
Proof. done. Qed.

Lemma inode_block_length i : length i = 156%nat → length (inode_block i) = 60%nat.
Proof. intros Hi. apply slice_length. lia. Qed.

Lemma inode_block_set i root : length i = 156%nat → length root = 60%nat → inode_block (set_inode_block i root) = root.
Proof.
  intros Hi Hr. unfold inode_block, set_inode_block. rewrite slice_copy_in by lia. unfold slice. cbn [Nat.sub drop].
  apply take_ge. lia.
Qed.

Lemma inode_block_header i h : length i = 156%nat → inode_block (set_root_header i h) = Disk.copy_at (inode_block i) 0 (header_bytes h).
Proof.
  intros Hi. pose proof (length_header_bytes h) as Hh. apply list_eq. intros k. unfold inode_block, set_root_header.
  rewrite slice_lookup, (Disk.copy_at_lookup (slice 40 60 i)) by (rewrite slice_length; lia).
  rewrite (Disk.copy_at_lookup i), slice_lookup, Hh by lia. destruct (decide (k < 60)%nat), (decide (k < 12)%nat);
    [rewrite !decide_True by lia; f_equal; lia|by rewrite !decide_False by lia|lia|by rewrite decide_False by lia].
Qed.

Lemma field_copy_in l src pos off n : (pos + length src ≤ length l)%nat → (pos ≤ off ∧ off + n ≤ pos + length src)%nat →
  field off n (Disk.copy_at l pos src) = field (off - pos) n src.
Proof. intros. unfold field. by rewrite slice_copy_in. Qed.

Lemma field_copy_out l src pos off n : (pos + length src ≤ length l)%nat → (off + n ≤ pos ∨ pos + length src ≤ off)%nat →
  field off n (Disk.copy_at l pos src) = field off n l.
Proof. intros. unfold field. by rewrite slice_copy_out. Qed.

Lemma field_le_bytes l1 l2 n v off : length l1 = off → field off n (l1 ++ le_bytes (Z.of_nat n) v ++ l2) = wrap (Z.of_nat n * 8) v.
Proof. intros Hl. unfold field. rewrite slice_app by (rewrite ?le_bytes_length; done). rewrite of_le_bytes by lia. done. Qed.

Definition wrap_header (h : Ext4ExtentHeader) : Ext4ExtentHeader :=
  mkHeader (u16 (magic h)) (u16 (entries_count h)) (u16 (max_entries_count h)) (u16 (depth h)) (u32 (generation h)).

Lemma load_header_bytes h : load_header (header_bytes h) = wrap_header h.
Proof.
  unfold load_header, wrap_header, header_bytes. f_equal.
  - apply (field_le_bytes []). done.
  - apply (field_le_bytes (le_bytes 2 (magic h))). done.
  - rewrite (app_assoc (le_bytes 2 (magic h))). apply field_le_bytes. done.
  - rewrite (app_assoc (le_bytes 2 (magic h))), (app_assoc _ (le_bytes 2 (max_entries_count h))). apply field_le_bytes. done.
  - rewrite <- (app_nil_r (le_bytes 4 (generation h))).
    rewrite (app_assoc (le_bytes 2 (magic h))), (app_assoc _ (le_bytes 2 (max_entries_count h))), (app_assoc _ (le_bytes 2 (depth h))).
    apply field_le_bytes. done.
Qed.

Lemma load_header_copy l h : (12 ≤ length l)%nat → load_header (Disk.copy_at l 0 (header_bytes h)) = wrap_header h.
Proof.
  intros Hl. rewrite <- load_header_bytes. unfold load_header.
  rewrite !field_copy_in by (rewrite length_header_bytes; lia). done.
Qed.

(** Writing behind the header leaves it alone. *)
Lemma load_header_behind l src pos : (12 ≤ pos)%nat → (pos + length src ≤ length l)%nat →
  load_header (Disk.copy_at l pos src) = load_header l.
Proof. intros Hp Hl. unfold load_header. by rewrite !field_copy_out by lia. Qed.

(** ** Growing *)

Section grow.
Context {D : Type} `{BlockIO D} (junk : list Z) (fs : Ext4) (num : Z).

Lemma mbind_ok {A B} (m : M (D := D) A) (k : A → M B) st b st' : mbind m k st = Ret (Ok b, st') →
  ∃ a st1, m st = Ret (Ok a, st1) ∧ k a st1 = Ret (Ok b, st').
Proof. unfold mbind. destruct (m st) as [[[a|e] st1]|]; cbn; [eauto|done|done]. Qed.

(** After growing, the root is an index with one entry, one level higher. *)
Lemma grow_root (st st1 : St) : length (inode st) = 156%nat → ext_grow_indepth junk fs num st = Ret (Ok tt, st1) →
  length (inode st1) = 156%nat ∧
  load_header (inode_block (inode st1)) =
    wrap_header (mkHeader EXT4_EXTENT_MAGIC 1 4 (u16 (depth (root_extent_header (inode st)) + 1)) (generation (root_extent_header (inode st)))).
Proof.
  intros Hl Hg. unfold ext_grow_indepth in Hg.
  apply mbind_ok in Hg as (nb & s1 & H1 & Hg). apply mbind_ok in Hg as (l & s2 & H2 & Hg). apply mbind_ok in Hg as (i & s3 & H3 & Hg).
  pose proof (keeps_alloc junk fs num _ _ _ _ H1 Hl) as K1. pose proof (keeps_read _ _ _ _ H2 (proj1 K1)) as K2.
  injection H3 as <- <-. pose proof (root_kept_trans _ _ _ K1 K2) as [Hl2 E2]. unfold root_extent_header in *. rewrite E2 in Hg.
  set (old := load_header (inode_block (inode st))) in *.
  apply mbind_ok in Hg as (first & s4 & H4 & Hg).
  assert (s4 = s2) as ->.
  { destruct (_ && _); [|by injection H4]. apply mbind_ok in H4 as (x & s5 & H5 & H6). injection H6 as _ <-.
    unfold lift in H5. destruct (root_extent_at _ _); [by injection H5|done]. }
  destruct (48 <? _); [done|]. apply mbind_ok in Hg as ([] & s5 & H5 & Hg). apply mbind_ok in Hg as ([] & s6 & H6 & Hg).
  pose proof (length_header_bytes (mkHeader EXT4_EXTENT_MAGIC 1 4 (u16 (depth old + 1)) (generation old))) as Hhb.
  set (h := mkHeader EXT4_EXTENT_MAGIC 1 4 (u16 (depth old + 1)) (generation old)) in *.
  assert (length (set_root_header (inode s2) h) = 156%nat) as Hl3 by (unfold set_root_header; rewrite Disk.copy_at_length; lia).
  set (i1 := set_root_header (inode s2) h) in *. pose proof (inode_block_length i1 Hl3) as Hb1.
  set (r1 := Disk.copy_at (inode_block i1) 12 (replicate 48 0)) in *.
  assert (length r1 = 60%nat) as Hr1 by (subst r1; rewrite Disk.copy_at_length; rewrite ?length_replicate; lia).
  assert (length (set_inode_block i1 r1) = 156%nat) as Hl4 by (unfold set_inode_block; rewrite Disk.copy_at_length; lia).
  assert (inode_block (set_inode_block i1 r1) = r1) as Hib by (by apply inode_block_set).
  apply mbind_ok in Hg as (i2 & s7 & H7 & Hg). apply mbind_ok in Hg as ([] & s8 & H8 & Hg).
  unfold lift in H7. destruct (set_root_first_index _ _) as [i3|] eqn:E7; [|done]. cbn [exec_bind] in H7. injection H7 as <- <-.
  unfold set_root_first_index, put_entry in E7. rewrite Hib, Hr1 in E7. cbn [Z.leb andb] in E7. cbn [exec_bind] in E7. injection E7 as <-.
  unfold put_inode in H8. injection H8 as <-. set (r2 := Disk.copy_at r1 _ _) in *.
  assert (length r2 = 60%nat) as Hr2 by (subst r2; rewrite Disk.copy_at_length; rewrite ?length_index_bytes; lia).
  assert (length (set_inode_block (set_inode_block i1 r1) r2) = 156%nat) as Hl6 by (unfold set_inode_block at 1; rewrite Disk.copy_at_length; lia).
  destruct (keeps_write_back junk fs num _ _ _ Hg Hl6) as [Hl5 E5]. cbn [inode] in E5.
  split; [done|]. rewrite E5, inode_block_set by done. subst r2. rewrite load_header_behind by (rewrite ?length_index_bytes; lia).
  subst r1. rewrite load_header_behind by (rewrite ?length_replicate; lia). subst i1. rewrite inode_block_header by done.
  apply load_header_copy. rewrite inode_block_length; lia.
Qed.

(** A root index with one entry is never searched successfully. *)
Lemma find_extent_single (st : St (D := D)) lblock : length (inode st) = 156%nat → entries_count (load_header (inode_block (inode st))) = 1 →
  1 ≤ depth (load_header (inode_block (inode st))) → find_extent lblock st = Ret (Err ENOENT, st).
Proof.
  intros Hl Hc Hd. unfold find_extent, mbind at 1, get_inode at 1. cbn [exec_bind]. unfold load_from_data.
  rewrite inode_block_length by done. cbn [Nat.eqb header].
  destruct (5 <? _); [done|]. destruct (Z.to_nat _) as [|d] eqn:E; [lia|]. unfold mbind at 1. cbn [descend]. unfold mbind at 1, lift at 1.
  rewrite binsearch_idx_single; [done|done|exact Hc|by apply inode_block_length].
Qed.

Lemma find_after_grow (st st1 : St) lblock : length (inode st) = 156%nat → 0 ≤ depth (root_extent_header (inode st)) ≤ 5 →
  ext_grow_indepth junk fs num st = Ret (Ok tt, st1) → find_extent lblock st1 = Ret (Err ENOENT, st1).
Proof.
  intros Hl Hd Hg. destruct (grow_root st st1 Hl Hg) as [Hl1 Hh]. apply find_extent_single; [done|by rewrite Hh|].
  rewrite Hh. cbn [wrap_header depth]. unfold u16. rewrite !wrap_small; rewrite ?wrap_small; lia.
Qed.

Lemma lookup_after_grow (st st1 : St) lblock : length (inode st) = 156%nat → 0 ≤ depth (root_extent_header (inode st)) ≤ 5 →
  ext_grow_indepth junk fs num st = Ret (Ok tt, st1) → get_pblock_idx lblock st1 = Ret (Ok 0, st1).
Proof. intros Hl Hd Hg. unfold get_pblock_idx. by rewrite (find_after_grow st st1). Qed.

Lemma insert_after_grow (st st1 : St) newex k : length (inode st) = 156%nat → 0 ≤ depth (root_extent_header (inode st)) ≤ 5 →
  ext_grow_indepth junk fs num st = Ret (Ok tt, st1) → insert_extent_fuel junk fs num (S k) newex st1 = Ret (Err ENOENT, st1).
Proof. intros Hl Hd Hg. cbn [insert_extent_fuel]. unfold mbind at 1. by rewrite (find_after_grow st st1). Qed.
End grow.

(** ** Extents in the root *)

Definition extent_fits (x : Ext4Extent) : Prop :=
  0 ≤ first_block x < 2 ^ 32 ∧ 0 ≤ block_count x < 2 ^ 16 ∧ 0 ≤ start_hi x < 2 ^ 16 ∧ 0 ≤ start_lo x < 2 ^ 32.

Lemma copy_at_bytes l pos src : Forall is_byte l → Forall is_byte src → Forall is_byte (Disk.copy_at l pos src).
Proof. intros. unfold Disk.copy_at. rewrite !Forall_app. splits; [by apply Forall_take|done|by apply Forall_drop]. Qed.

Lemma header_bytes_byte h : Forall is_byte (header_bytes h).
Proof. unfold header_bytes. rewrite !Forall_app. splits; apply le_bytes_byte; lia. Qed.

Lemma extent_bytes_byte x : Forall is_byte (extent_bytes x).
Proof. unfold extent_bytes. rewrite !Forall_app. splits; apply le_bytes_byte; lia. Qed.

Lemma field_range off n l : Forall is_byte l → 0 ≤ field off n l < 2 ^ (8 * Z.of_nat n).
Proof.
  intros Hl. unfold field, of_le. destruct (little_endian_to_Z_bound 8 (slice off n l)) as [H0 H1]; [lia|by apply slice_bytes|].
  split; [done|]. eapply Z.lt_le_trans; [exact H1|]. apply Z.pow_le_mono_r; [lia|]. unfold slice. rewrite length_take. lia.
Qed.

Lemma load_extent_fits l pos x : Forall is_byte l → load_extent l pos = Ret x → extent_fits x.
Proof.
  intros Hl. unfold load_extent, entry. destruct (_ && _); cbn [exec_bind]; [|done]. intros [= <-].
  set (b := slice _ _ _). assert (Forall is_byte b) as Hb by (by apply slice_bytes).
  pose proof (field_range 0 4 b Hb). pose proof (field_range 4 2 b Hb). pose proof (field_range 6 2 b Hb). pose proof (field_range 8 4 b Hb). done.
Qed.

Lemma extent_of_bytes x : extent_fits x → extent_of (extent_bytes x) = x.
Proof.
  intros (H1 & H2 & H3 & H4). destruct x as [f c hi lo]. unfold extent_of, extent_bytes. cbn [first_block block_count start_hi start_lo] in *.
  f_equal.
  - etrans; [by apply (field_le_bytes [])|by apply wrap_small].
  - etrans; [by apply (field_le_bytes (le_bytes 4 f))|by apply wrap_small].
  - rewrite (app_assoc (le_bytes 4 f)). etrans; [by apply field_le_bytes|by apply wrap_small].
  - rewrite <- (app_nil_r (le_bytes 4 lo)), (app_assoc (le_bytes 4 f)), (app_assoc _ (le_bytes 2 hi)).
    etrans; [by apply field_le_bytes|by apply wrap_small].
Qed.

Lemma entry_put l pos b j : length b = 12%nat → 0 ≤ pos → 12 * pos + 24 ≤ Z.of_nat (length l) → 0 ≤ j →
  entry (Disk.copy_at l (Z.to_nat (12 * pos + 12)) b) j = if decide (j = pos) then Ret b else entry l j.
Proof.
  intros Hb Hp Hl Hj. assert (Z.to_nat (12 * pos + 12) + length b ≤ length l)%nat as Hin by lia.
  unfold entry. rewrite Disk.copy_at_length by done. case_decide as Hjp.
  - subst j. rewrite (proj2 (Z.leb_le 0 pos)), (proj2 (Z.leb_le _ _)) by lia. cbn [andb]. f_equal. rewrite slice_copy_in by lia.
    rewrite Nat.sub_diag. unfold slice. cbn [drop]. apply take_ge. lia.
  - destruct (_ && _) eqn:E; [|done]. apply andb_true_iff in E as [_ E%Z.leb_le]. f_equal. apply slice_copy_out; lia.
Qed.

Lemma entry_header l h j : (12 ≤ length l)%nat → 0 ≤ j → entry (Disk.copy_at l 0 (header_bytes h)) j = entry l j.
Proof.
  intros Hl Hj. unfold entry. rewrite Disk.copy_at_length by (rewrite length_header_bytes; lia).
  destruct (_ && _); [|done]. f_equal. apply slice_copy_out; rewrite ?length_header_bytes; lia.
Qed.

(** The inode holds the extents [es] in its root, which is a leaf with four places. *)
Record root_leaf (i : list Z) (es : list Ext4Extent) : Prop := mkRootLeaf {
  rl_length : length i = 156%nat;
  rl_bytes : Forall is_byte i;
  rl_depth : depth (root_extent_header i) = 0;
  rl_max : max_entries_count (root_extent_header i) = 4;
  rl_count : entries_count (root_extent_header i) = Z.of_nat (length es);
  rl_holds : holds_extents (inode_block i) es;
  rl_ok : extents_ok es
}.

Lemma load_extent_put l pos x j : extent_fits x → 0 ≤ pos → 12 * pos + 24 ≤ Z.of_nat (length l) → 0 ≤ j →
  load_extent (Disk.copy_at l (Z.to_nat (12 * pos + 12)) (extent_bytes x)) j = if decide (j = pos) then Ret x else load_extent l j.
Proof.
  intros Hx Hp Hl Hj. unfold load_extent. rewrite entry_put by done. case_decide; [|done]. cbn [exec_bind]. by rewrite extent_of_bytes.
Qed.

(** The root after a write to entry [pos]. *)
Lemma set_root_extent_spec i pos x : length i = 156%nat → Forall is_byte i → extent_fits x → (pos < 4)%nat →
  ∃ i', set_root_extent_at i (Z.of_nat pos) x = Ret i' ∧ length i' = 156%nat ∧ Forall is_byte i' ∧ root_extent_header i' = root_extent_header i ∧
    ∀ j, load_extent (inode_block i') (Z.of_nat j) = if decide (j = pos) then Ret x else load_extent (inode_block i) (Z.of_nat j).
Proof.
  intros Hl Hby Hx Hp. pose proof (inode_block_length i Hl) as Hb. unfold set_root_extent_at, put_entry.
  rewrite Hb, (proj2 (Z.leb_le 0 _)), (proj2 (Z.leb_le _ _)) by lia. cbn [andb exec_bind].
  set (r := Disk.copy_at _ _ _). assert (length r = 60%nat) as Hr by (subst r; rewrite Disk.copy_at_length; rewrite ?length_extent_bytes; lia).
  eexists. splits; [reflexivity|unfold set_inode_block; rewrite Disk.copy_at_length; lia| | |].
  - apply copy_at_bytes; [done|]. apply copy_at_bytes; [by apply slice_bytes|apply extent_bytes_byte].
  - unfold root_extent_header. rewrite inode_block_set by done. apply load_header_behind; rewrite ?length_extent_bytes; lia.
  - intros j. rewrite inode_block_set by done. subst r. rewrite load_extent_put by (try done; lia).
    destruct (decide (j = pos)); [rewrite decide_True by lia|rewrite decide_False by lia]; done.
Qed.

Lemma wrap_load_header l : Forall is_byte l → wrap_header (load_header l) = load_header l.
Proof.
  intros Hl. unfold wrap_header, load_header. cbn [magic entries_count max_entries_count depth generation].
  f_equal; apply wrap_small; [by apply (field_range _ 2)..|by apply (field_range _ 4)].
Qed.

(** Setting the count leaves the entries and the rest of the header. *)
Lemma set_entries_spec i n : length i = 156%nat → Forall is_byte i → 0 ≤ n < 2 ^ 16 →
  let i' := set_root_header i (with_entries (root_extent_header i) n) in
  length i' = 156%nat ∧ Forall is_byte i' ∧ root_extent_header i' = with_entries (root_extent_header i) n ∧
  ∀ j, load_extent (inode_block i') (Z.of_nat j) = load_extent (inode_block i) (Z.of_nat j).
Proof.
  intros Hl Hby Hn i'. pose proof (inode_block_length i Hl) as Hb. splits.
  - unfold i', set_root_header. rewrite Disk.copy_at_length; rewrite ?length_header_bytes; lia.
  - apply copy_at_bytes; [done|apply header_bytes_byte].
  - unfold i', root_extent_header. rewrite inode_block_header, load_header_copy by lia.
    pose proof (wrap_load_header (inode_block i) (slice_bytes _ _ _ Hby)) as Hw.
    revert Hw. generalize (load_header (inode_block i)). intros [m e x d g]. unfold wrap_header, with_entries.
    cbn [magic entries_count max_entries_count depth generation]. intros [= -> _ -> -> ->]. f_equal. by apply wrap_small.
  - intros j. unfold i', load_extent. rewrite inode_block_header, entry_header by lia. done.
Qed.

Lemma root_leaf_replace i es pos x : root_leaf i es → extent_fits x → (pos < length es ≤ 4)%nat → extents_ok (<[pos := x]> es) →
  ∃ i', set_root_extent_at i (Z.of_nat pos) x = Ret i' ∧ root_leaf i' (<[pos := x]> es).
Proof.
  intros [Hl Hby Hd Hm Hc Hh _] Hx Hpos Ho. destruct (set_root_extent_spec i pos x Hl Hby Hx) as (i' & -> & Hl' & Hby' & Hh' & He); [lia|].
  exists i'. split; [done|]. constructor; rewrite ?Hh', ?length_insert; try done. intros j e Hj. rewrite He. case_decide as Hjp.
  - subst j. rewrite list_lookup_insert_eq in Hj by lia. by injection Hj as ->.
  - rewrite list_lookup_insert_ne in Hj by done. by apply Hh.
Qed.

Lemma root_leaf_push i es x : root_leaf i es → extent_fits x → (length es < 4)%nat → extents_ok (es ++ [x]) →
  ∃ i', set_root_extent_at i (Z.of_nat (length es)) x = Ret i' ∧
    root_leaf (set_root_header i' (with_entries (root_extent_header i') (u16 (entries_count (root_extent_header i') + 1)))) (es ++ [x]).
Proof.
  intros [Hl Hby Hd Hm Hc Hh _] Hx Hpos Ho. destruct (set_root_extent_spec i (length es) x Hl Hby Hx Hpos) as (i' & -> & Hl' & Hby' & Hh' & He).
  exists i'. split; [done|]. rewrite Hh', Hc. unfold u16. rewrite wrap_small by lia.
  destruct (set_entries_spec i' (Z.of_nat (length es) + 1) Hl' Hby') as (Hl2 & Hby2 & Hh2 & He2); [lia|]. rewrite Hh' in Hl2, Hby2, Hh2, He2.
  constructor; rewrite ?Hh2; try done; cbn [with_entries entries_count]; [rewrite length_app; cbn; lia|].
  intros j e Hj. rewrite He2, He. case_decide as Hjp.
  - subst j. rewrite list_lookup_middle in Hj by done. by injection Hj as ->.
  - apply Hh. apply lookup_app_Some in Hj as [Hj|[Hge Hj]]; [done|]. apply list_lookup_singleton_Some in Hj as [? _]. lia.
Qed.

(** ** Merging *)

(** Block [b] of the file is block [p] of the disk. *)
Definition maps (es : list Ext4Extent) (b p : Z) : Prop := ∃ e, e ∈ es ∧ covers e b ∧ p = get_pblock e + (b - first_block e).

Lemma lor_shiftl a b n : 0 ≤ n → 0 ≤ a < 2 ^ n → Z.lor a (Z.shiftl b n) = a + b * 2 ^ n.
Proof.
  intros Hn Ha. assert (Z.land a (Z.shiftl b n) = 0) as Hand.
  { apply Z.bits_inj'. intros k Hk. rewrite Z.land_spec, Z.bits_0. destruct (decide (k < n)).
    - by rewrite Z.shiftl_spec_low, andb_false_r.
    - destruct (Z.eq_dec a 0) as [->|H0]; [by rewrite Z.bits_0|].
      rewrite Z.bits_above_log2; [done|lia|]. apply Z.log2_lt_pow2; [lia|]. eapply Z.lt_le_trans; [apply Ha|]. apply Z.pow_le_mono_r; lia. }
  rewrite <- Z.shiftl_mul_pow2 by done. rewrite (Z.add_nocarry_lxor _ _ Hand). symmetry. by apply Z.lxor_lor.
Qed.

Lemma lor_bit15 a : 0 ≤ a < 32768 → Z.lor a 32768 = a + 32768.
Proof. intros Ha. exact (lor_shiftl a 1 15 ltac:(lia) Ha). Qed.

Lemma get_actual_len_range x : extent_fits x → 0 ≤ get_actual_len x ≤ block_count x.
Proof. intros (_ & Hc & _). unfold get_actual_len, is_unwritten, EXT_INIT_MAX_LEN. destruct (Z.ltb_spec 32768 (block_count x)); lia. Qed.

(** A merged extent is as long as both; with 32768 blocks an unwritten one becomes a written one. *)
Lemma extend_spec e x : extent_fits e → extent_fits x → can_merge e x = true →
  get_actual_len (extend e x) = get_actual_len e + get_actual_len x ∧ extent_fits (extend e x) ∧
  first_block (extend e x) = first_block e ∧ get_pblock (extend e x) = get_pblock e.
Proof.
  intros He Hx. pose proof (get_actual_len_range e He) as Hle. pose proof (get_actual_len_range x Hx) as Hlx. unfold can_merge.
  destruct (negb _); [done|]. destruct (negb _); [done|]. destruct (Z.ltb_spec EXT_INIT_MAX_LEN (get_actual_len e + get_actual_len x)) as [|Hsum]; [done|].
  intros _. unfold EXT_INIT_MAX_LEN in Hsum. unfold extend, u16. rewrite wrap_small by lia. destruct He as (H1 & H2 & H3 & H4).
  assert (0 ≤ get_actual_len e + get_actual_len x) as Hs0 by lia.
  assert (is_unwritten e = true → 0 < get_actual_len e + get_actual_len x) as Hs1.
  { intros E. unfold get_actual_len at 1. rewrite E. unfold is_unwritten, EXT_INIT_MAX_LEN in *. apply Z.ltb_lt in E. lia. }
  set (s := get_actual_len e + get_actual_len x) in *. clearbody s. destruct (is_unwritten e); [specialize (Hs1 eq_refl)|].
  - unfold mark_unwritten, set_actual_len, EXT_INIT_MAX_LEN. cbn [first_block block_count start_hi start_lo].
    destruct (Z.eq_dec s 32768) as [->|Hne].
    + split; [done|]. split; [|done]. unfold extent_fits. cbn [first_block block_count start_hi start_lo]. change (Z.lor 32768 32768) with 32768. lia.
    + rewrite lor_bit15 by lia. split; [|split; [unfold extent_fits; cbn [first_block block_count start_hi start_lo]; change (2 ^ 16) with 65536 in *; splits; first [done|lia]|done]].
      unfold get_actual_len, is_unwritten, EXT_INIT_MAX_LEN. cbn [block_count]. rewrite (proj2 (Z.ltb_lt _ _)) by lia. lia.
  - unfold set_actual_len. split; [|split; [unfold extent_fits; cbn [first_block block_count start_hi start_lo]; change (2 ^ 16) with 65536 in *; splits; first [done|lia]|done]].
    unfold get_actual_len at 1, is_unwritten, EXT_INIT_MAX_LEN. cbn [block_count]. by rewrite (proj2 (Z.ltb_ge _ _)) by lia.
Qed.

Lemma get_pblock_range x : extent_fits x → 0 ≤ get_pblock x < 2 ^ 48.
Proof. intros (_ & _ & Hh & Hl). unfold get_pblock. rewrite lor_shiftl by lia. lia. Qed.

Section insert.
Context {D : Type} `{BlockIO D} (junk : list Z) (fs : Ext4) (num : Z).
Implicit Types st : St (D := D).

(** The path to the last extent of a root leaf. *)
Definition last_node (i : list Z) (n : nat) (e : Ext4Extent) (lblock : Z) : ExtentPathNode :=
  mkPathNode (root_extent_header i) None (Some e) (Z.of_nat n - 1) (u64 (lblock - first_block e + get_pblock e)) 0.
Definition last_path (i : list Z) (n : nat) (e : Ext4Extent) (lblock : Z) : SearchPath := mkSearchPath 0 0 [last_node i n e lblock].

Lemma mbind_eq {A B} (m : M A) (k : A → M B) st a st1 : m st = Ret (Ok a, st1) → mbind m k st = k a st1.
Proof. intros Hm. unfold mbind. by rewrite Hm. Qed.

Lemma lift_eq {A} (x : exec A) st a : x = Ret a → lift x st = Ret (Ok a, st).
Proof. by intros ->. Qed.

Lemma node_of_last i n e lblock : node_of (last_path i n e lblock) = Ret (last_node i n e lblock).
Proof. done. Qed.

Lemma find_last st es e lblock : root_leaf (inode st) es → last es = Some e → first_block e ≤ lblock →
  find_extent lblock st = Ret (Ok (last_path (inode st) (length es) e lblock), st).
Proof.
  intros [Hl Hby Hd Hm Hc Hh Ho] Hlast Hle. unfold find_extent, mbind at 1, get_inode at 1. cbn [exec_bind]. unfold load_from_data.
  rewrite inode_block_length by done. cbn [Nat.eqb header]. fold (root_extent_header (inode st)). rewrite Hd.
  change (5 <? 0) with false. change (Z.to_nat 0) with 0%nat. cbn [descend]. unfold mbind at 1, mret at 1. cbn [exec_bind].
  cbn beta iota. set (n := mkNode _ _ _). rewrite last_lookup in Hlast. pose proof (lookup_lt_Some _ _ _ Hlast) as Hlt.
  destruct (binsearch_extent_spec n es lblock) as (p & x & Hb & Hx & Hp1 & Hp2 & Hp3); [done|done|by intros ->|by apply extents_ok_order|].
  assert (p = Z.of_nat (length es) - 1) as Hp.
  { destruct (Z.eq_dec p (Z.of_nat (length es) - 1)); [done|].
    pose proof (Hp3 (pred (length es)) (first_block e) ltac:(lia) ltac:(unfold starts; by rewrite Hlast)). lia. }
  replace (Z.to_nat p) with (pred (length es)) in Hx by lia. rewrite Hlast in Hx. injection Hx as <-.
  unfold mbind, lift. rewrite Hb. cbn [exec_bind]. unfold mret, last_path, last_node. subst p. cbn [sdepth path app]. by rewrite (Hd : depth (header n) = 0).
Qed.

(** In the root only the extent in memory changes. *)
Lemma merge_extent_root st sp n x y : node_of sp = Ret n → max_entries_count (pheader n) = 4 →
  merge_extent sp x y st = Ret (Ok (extend x y), st).
Proof. intros Hn Hm. unfold merge_extent. rewrite (mbind_eq _ _ _ _ _ (lift_eq _ st _ Hn)). by rewrite Hm. Qed.

(** Appending behind the last extent: no neighbour is read from the disk. *)
Lemma try_merge_last st es e newex sp : root_leaf (inode st) es → last es = Some e → extent_fits newex →
  first_block e + get_actual_len e ≤ first_block newex → first_block newex + block_count newex < 2 ^ 32 →
  can_merge e newex = false → try_merge sp (last_node (inode st) (length es) e (first_block newex)) e newex st = Ret (Ok false, st).
Proof.
  intros Hr Hlast Hx Hbeh Hmax Hcan. unfold try_merge. rewrite Hcan. cbn [last_node position pheader]. rewrite (rl_count _ _ Hr). rewrite (proj2 (Z.ltb_ge _ _)) by lia. cbn [andb].
  assert ((u32 (first_block newex + block_count newex) <? first_block e) = false) as Hw.
  { pose proof (load_extent_fits (inode_block (inode st)) (Z.of_nat (pred (length es))) e) as Hfit.
    rewrite last_lookup in Hlast. destruct (get_actual_len_range e) as [? _].
    - apply Hfit; [by apply slice_bytes, Hr|]. by apply (rl_holds _ _ Hr).
    - destruct Hx as (? & ? & _). unfold u32. rewrite wrap_small by lia. apply Z.ltb_ge. lia. }
  rewrite Hw, andb_false_r. done.
Qed.

Lemma extents_ok_push es e x : extents_ok es → last es = Some e → 0 ≤ get_actual_len e → first_block e + get_actual_len e ≤ first_block x →
  extents_ok (es ++ [x]).
Proof.
  intros Ho Hlast Hlen Hx i j a b Hij Ha Hb. rewrite last_lookup in Hlast.
  apply lookup_app_Some in Ha as [Ha|[Hge Ha]]; apply lookup_app_Some in Hb as [Hb|[Hge' Hb]].
  - by eapply Ho.
  - apply list_lookup_singleton_Some in Hb as [_ <-]. pose proof (lookup_lt_Some _ _ _ Ha).
    destruct (decide (i = pred (length es))) as [->|Hne]; [assert (a = e) as -> by congruence; lia|].
    destruct (Ho i (pred (length es)) a e ltac:(lia) Ha Hlast) as [H1 H2]. split; lia.
  - pose proof (lookup_lt_Some _ _ _ Hb). lia.
  - apply list_lookup_singleton_Some in Ha as [? _]. apply list_lookup_singleton_Some in Hb as [? _]. lia.
Qed.

Lemma extents_ok_last es e x : extents_ok es → last es = Some e → first_block x = first_block e → extents_ok (<[pred (length es) := x]> es).
Proof.
  intros Ho Hlast Hx i j a b Hij Ha Hb. rewrite last_lookup in Hlast. pose proof (lookup_lt_Some _ _ _ Hlast) as Hlt.
  pose proof (lookup_lt_Some _ _ _ Hb) as Hj. rewrite length_insert in Hj. rewrite list_lookup_insert_ne in Ha by lia.
  destruct (decide (j = pred (length es))) as [->|Hne].
  - rewrite list_lookup_insert_eq in Hb by done. injection Hb as <-. rewrite Hx. exact (Ho i _ a e Hij Ha Hlast).
  - rewrite list_lookup_insert_ne in Hb by done. exact (Ho i j a b Hij Ha Hb).
Qed.
End insert.

Section theorems.
Context {D : Type} `{BlockIO D} (junk : list Z) (fs : Ext4) (num : Z).

Lemma maps_push es x b p : maps (es ++ [x]) b p ↔ maps es b p ∨ maps [x] b p.
Proof. unfold maps. setoid_rewrite elem_of_app. naive_solver. Qed.

(** A merged extent maps what both map. *)
Lemma maps_merge es e x y b p : last es = Some e → first_block y = first_block e → get_pblock y = get_pblock e →
  get_actual_len y = get_actual_len e + get_actual_len x → first_block x = first_block e + get_actual_len e →
  get_pblock x = get_pblock e + get_actual_len e → 0 ≤ get_actual_len e → 0 ≤ get_actual_len x →
  maps (<[pred (length es) := y]> es) b p ↔ maps es b p ∨ maps [x] b p.
Proof.
  intros Hlast Hf Hp Hlen Hx Hpx He Hx0. rewrite last_lookup in Hlast. pose proof (lookup_lt_Some _ _ _ Hlast) as Hlt.
  assert (∀ q, q = get_pblock y + (b - first_block y) → covers y b → (covers e b ∧ q = get_pblock e + (b - first_block e)) ∨
    (covers x b ∧ q = get_pblock x + (b - first_block x))) as Hsplit by (unfold covers; intros; lia).
  unfold maps. split.
  - intros (z & Hz & Hc & ->). apply list_elem_of_lookup in Hz as (i & Hi). destruct (decide (i = pred (length es))) as [->|Hne].
    + rewrite list_lookup_insert_eq in Hi by done. injection Hi as <-.
      destruct (Hsplit _ eq_refl Hc) as [[H1 H2]|[H1 H2]]; [left; exists e|right; exists x]; splits; try done.
      * by eapply list_elem_of_lookup_2.
      * by apply list_elem_of_singleton.
    + rewrite list_lookup_insert_ne in Hi by done. left. exists z. splits; try done. by eapply list_elem_of_lookup_2.
  - intros [(z & Hz & Hc & ->)|(z & Hz & Hc & ->)].
    + apply list_elem_of_lookup in Hz as (i & Hi). destruct (decide (i = pred (length es))) as [->|Hne].
      * rewrite Hlast in Hi. injection Hi as <-. exists y. splits; [|unfold covers in *; lia|lia].
        eapply list_elem_of_lookup_2. by apply list_lookup_insert_eq.
      * exists z. splits; try done. eapply list_elem_of_lookup_2. by rewrite list_lookup_insert_ne by done.
    + apply list_elem_of_singleton in Hz as ->. exists y. splits; [|unfold covers in *; lia|lia].
      eapply list_elem_of_lookup_2. by apply list_lookup_insert_eq.
Qed.

Lemma can_merge_facts e x : extent_fits e → extent_fits x → first_block e + get_actual_len e < 2 ^ 32 → can_merge e x = true →
  first_block x = first_block e + get_actual_len e ∧ get_pblock x = get_pblock e + get_actual_len e.
Proof.
  intros He Hx Hmax. pose proof (get_pblock_range e He). pose proof (get_actual_len_range e He). destruct He as (? & ? & _).
  unfold can_merge. destruct (negb _); [done|]. destruct (Z.eqb_spec (u32 (first_block e + get_actual_len e)) (first_block x)) as [E|]; [|done].
  cbn [negb]. destruct (_ <? _); [done|]. intros E2%Z.eqb_eq. unfold u32 in E. rewrite wrap_small in E by lia. rewrite u64_small in E2 by lia. lia.
Qed.

(** C35: Appending to a file whose extents are in the inode is right. An extent that starts at or behind the end of the
    last one, and either continues it on the disk or finds one of the four places free, is inserted without
    touching the disk: afterwards the root holds a well-formed list of extents that maps what the old ones
    mapped and what the new one maps, and nothing else. *)
Theorem append_extent_to_root (st : St (D := D)) (es : list Ext4Extent) (e newex : Ext4Extent) :
  root_leaf (inode st) es → (length es ≤ 4)%nat → last es = Some e → extent_fits newex →
  first_block e + get_actual_len e ≤ first_block newex → first_block newex + block_count newex < 2 ^ 32 →
  can_merge e newex = true ∨ (length es < 4)%nat →
  ∃ st' es', insert_extent junk fs num newex st = Ret (Ok tt, st') ∧ dev st' = dev st ∧ root_leaf (inode st') es' ∧
    ∀ b p, maps es' b p ↔ maps es b p ∨ maps [newex] b p.
Proof.
  intros Hr Hlen Hlast Hx Hbeh Hmax Hroom. assert (es !! pred (length es) = Some e) as Hpe by (by rewrite <- last_lookup).
  pose proof (lookup_lt_Some _ _ _ Hpe) as Hlt.
  assert (extent_fits e) as He by (eapply load_extent_fits; [apply slice_bytes, Hr|by apply (rl_holds _ _ Hr)]).
  pose proof (get_actual_len_range e He) as Hle. pose proof (get_actual_len_range newex Hx) as Hlx.
  unfold insert_extent. cbn [insert_extent_fuel].
  rewrite (mbind_eq _ _ _ _ _ (find_last st es e (first_block newex) Hr Hlast ltac:(lia))).
  rewrite (mbind_eq _ _ _ _ _ (lift_eq _ st _ (node_of_last _ _ _ _))). cbn [last_node pheader pextent]. fold (last_node (inode st) (length es) e (first_block newex)).
  rewrite (rl_count _ _ Hr), (proj2 (Z.eqb_neq _ 0)) by lia. destruct (can_merge e newex) eqn:Hcan.
  - destruct (extend_spec e newex He Hx Hcan) as (Hl1 & Hfit & Hf1 & Hp1).
    destruct (root_leaf_replace (inode st) es (pred (length es)) (extend e newex) Hr Hfit) as (i' & Hi' & Hr'); [lia|by apply (extents_ok_last es e); [apply Hr|..]|].
    destruct (can_merge_facts e newex He Hx) as [Hc1 Hc2]; [destruct Hx; lia|done|].
    eexists (mkSt (dev st) i'), _. splits; [|done|exact Hr'|intros b p; eapply maps_merge; done || lia].
    assert (try_merge (last_path (inode st) (length es) e (first_block newex)) (last_node (inode st) (length es) e (first_block newex)) e newex st
            = Ret (Ok true, mkSt (dev st) i')) as Ht; [|by rewrite (mbind_eq _ _ _ _ _ Ht)].
    unfold try_merge. rewrite Hcan. rewrite (mbind_eq _ _ _ _ _ (merge_extent_root st _ _ e newex (node_of_last _ _ _ _) (rl_max _ _ Hr))).
    cbn [last_node pblock_of_node position Z.eqb]. rewrite (mbind_eq get_inode _ st (inode st) st) by done.
    replace (Z.of_nat (length es) - 1) with (Z.of_nat (pred (length es))) by lia. rewrite (mbind_eq _ _ _ _ _ (lift_eq _ st i' Hi')). done.
  - destruct Hroom as [?|Hroom]; [done|].
    rewrite (mbind_eq _ _ _ _ _ (try_merge_last st es e newex _ Hr Hlast Hx Hbeh Hmax Hcan)).
    rewrite (rl_max _ _ Hr), (proj2 (Z.ltb_lt _ _)) by lia.
    destruct (root_leaf_push (inode st) es newex Hr Hx Hroom) as (i' & Hi' & Hr'); [apply (extents_ok_push es e); [apply Hr|done|lia|done]|].
    eexists (mkSt (dev st) _), _. splits; [|done|exact Hr'|apply maps_push].
    unfold insert_new_extent. rewrite (mbind_eq _ _ _ _ _ (lift_eq _ st _ (node_of_last _ _ _ _))).
    cbn [last_path sdepth last_node pheader position Z.eqb]. rewrite (mbind_eq get_inode _ st (inode st) st) by done.
    rewrite (rl_count _ _ Hr), (rl_max _ _ Hr), !(proj2 (Z.eqb_neq _ _)) by lia.
    replace (Z.of_nat (length es) - 1 + 1) with (Z.of_nat (length es)) by lia.
    rewrite (mbind_eq _ _ _ _ _ (lift_eq _ st i' Hi')). done.
Qed.
End theorems.

Section growing.
Context {D : Type} `{BlockIO D} (junk : list Z) (fs : Ext4) (num : Z).

Lemma descend_inode d lblock : ∀ node sp pn (st st' : St (D := D)) r, descend d lblock node sp pn st = Ret (r, st') → inode st' = inode st.
Proof.
  induction d as [|d IH]; intros node sp pn st st' r; cbn [descend]; [by intros [= <- <-]|].
  unfold mbind at 1, lift at 1. destruct (binsearch_idx node lblock) as [[pos|]|]; cbn [exec_bind]; [|by intros [= <- <-]|done].
  unfold mbind at 1, lift at 1. destruct (load_index (data node) pos) as [x|]; cbn [exec_bind]; [|done].
  unfold mbind at 1, read_at. destruct (read_dev _ _) as [[l dv]|]; cbn [exec_bind]; [|done].
  destruct (load_from_data l false); [|by intros [= <- <-]]. intros Hd%IH. done.
Qed.

(** Lookup does not change the inode, and fails on a tree that is too deep. *)
Lemma find_extent_inode lblock (st st' : St (D := D)) sp : find_extent lblock st = Ret (Ok sp, st') →
  inode st' = inode st ∧ depth (root_extent_header (inode st)) ≤ 5.
Proof.
  unfold find_extent. unfold mbind at 1, get_inode at 1. cbn [exec_bind]. unfold load_from_data.
  destruct (_ =? _)%nat; [|done]. cbn [header]. fold (root_extent_header (inode st)).
  destruct (Z.ltb_spec 5 (depth (root_extent_header (inode st)))) as [|Hd]; [done|]. intros Hf. split; [|done].
  apply mbind_ok in Hf as ([[node sp1] pn] & st1 & H1 & Hf). apply descend_inode in H1.
  apply mbind_ok in Hf as (found & st2 & H2 & Hf). unfold lift in H2. destruct (binsearch_extent node lblock); [|done]. injection H2 as <- <-.
  destruct a as [[ext pos]|]; injection Hf as _ <-; done.
Qed.

Lemma try_merge_inode sp n ex newex (st st' : St (D := D)) : try_merge sp n ex newex st = Ret (Ok false, st') → inode st' = inode st.
Proof.
  assert (∀ pos (st st' : St (D := D)) x, get_extent_from_node n pos st = Ret (Ok x, st') → inode st' = inode st) as Hget.
  { intros pos s s' x Hx. unfold get_extent_from_node in Hx. apply mbind_ok in Hx as (l & s1 & H1 & Hx).
    unfold read_at in H1. destruct (read_dev _ _) as [[l' d]|]; [|done]. injection H1 as <- <-.
    destruct (load_from_data l' false); [|done]. unfold lift in Hx. destruct (load_extent _ _); [|done]. by injection Hx as _ <-. }
  unfold try_merge. destruct (can_merge ex newex).
  { intros Hm. apply mbind_ok in Hm as (m & s1 & _ & Hm). destruct (_ =? 0); [|done].
    apply mbind_ok in Hm as (i & s2 & _ & Hm). apply mbind_ok in Hm as (i' & s3 & _ & Hm). by apply mbind_ok in Hm as (u & s4 & _ & Hm). }
  intros Hm. apply mbind_ok in Hm as (right & s1 & Hr & Hm). destruct right; [done|].
  assert (inode s1 = inode st) as E1.
  { destruct (_ && _); [|unfold mret in Hr; by simplify_eq]. apply mbind_ok in Hr as (x & s2 & H2 & Hr). apply Hget in H2.
    destruct (can_merge x newex); [by apply mbind_ok in Hr as (y & s3 & _ & Hr)|]. unfold mret in Hr. by simplify_eq. }
  clear Hr. destruct (_ && _); [|unfold mret in Hm; by simplify_eq]. apply mbind_ok in Hm as (x & s2 & H2 & Hm). apply Hget in H2.
  destruct (can_merge x newex); [by apply mbind_ok in Hm as (y & s3 & _ & Hm)|]. unfold mret in Hm. simplify_eq. congruence.
Qed.

(** The two ways to insert again after growing agree when they agree on what growing leaves. *)
Lemma grow_then_eq (f g : Ext4Extent → M unit) newex (st : St (D := D)) :
  (∀ st1, ext_grow_indepth junk fs num st = Ret (Ok tt, st1) → f newex st1 = g newex st1) →
  (∀ sp, insert_new_extent junk fs num f sp newex st = insert_new_extent junk fs num g sp newex st) ∧
  create_new_leaf junk fs num f newex st = create_new_leaf junk fs num g newex st.
Proof.
  intros Hfg. assert (mbind (ext_grow_indepth junk fs num) (fun _ => f newex) st = mbind (ext_grow_indepth junk fs num) (fun _ => g newex) st) as Hg.
  { unfold mbind. destruct (ext_grow_indepth junk fs num st) as [[[[]|e] st1]|] eqn:E; cbn [exec_bind]; [by apply Hfg|done|done]. }
  split; [|exact Hg]. intros sp. unfold insert_new_extent. destruct (node_of sp) as [n|]; [|done].
  rewrite !(mbind_eq (lift (Ret n)) _ st n st) by done.
  destruct (sdepth sp =? 0); [|done]. rewrite !(mbind_eq get_inode _ st (inode st) st) by done.
  destruct (entries_count _ =? 0); [done|]. destruct (_ =? max_entries_count _); [exact Hg|done].
Qed.

(** The calls nest at most twice: two is fuel enough. *)
Lemma insert_fuel_enough k newex (st : St (D := D)) : length (inode st) = 156%nat → Forall is_byte (inode st) →
  insert_extent_fuel junk fs num (S (S k)) newex st = insert_extent junk fs num newex st.
Proof.
  intros Hl Hby. unfold insert_extent. cbn [insert_extent_fuel]. fold (insert_extent_fuel junk fs num (S k)). fold (insert_extent_fuel junk fs num 1).
  destruct (find_extent (first_block newex) st) as [[[sp|e] st1]|] eqn:Ef; [|unfold mbind; by rewrite !Ef..].
  rewrite !(mbind_eq _ _ _ _ _ Ef). destruct (find_extent_inode _ _ _ _ Ef) as [E1 Hd]. destruct (node_of sp) as [n|]; [|done].
  rewrite !(mbind_eq (lift (Ret n)) _ st1 n st1) by done.
  assert (0 ≤ depth (root_extent_header (inode st))) as Hd0 by (apply (field_range 6 2); by apply slice_bytes).
  assert (∀ st2, inode st2 = inode st → (∀ sp', insert_new_extent junk fs num (insert_extent_fuel junk fs num (S k)) sp' newex st2 =
      insert_new_extent junk fs num (insert_extent_fuel junk fs num 1) sp' newex st2) ∧
    create_new_leaf junk fs num (insert_extent_fuel junk fs num (S k)) newex st2 = create_new_leaf junk fs num (insert_extent_fuel junk fs num 1) newex st2) as Heq.
  { intros st2 E2. apply grow_then_eq. intros st3 Hg. rewrite !(insert_after_grow junk fs num st2 st3) by (rewrite ?E2; done). done. }
  destruct (entries_count (pheader n) =? 0); [by apply Heq|].
  destruct (pextent n) as [ex|].
  - destruct (try_merge sp n ex newex st1) as [[[b|e] st2]|] eqn:Et; [|unfold mbind; by rewrite !Et..].
    rewrite !(mbind_eq _ _ _ _ _ Et). destruct b; [done|]. apply try_merge_inode in Et. destruct (_ <? _); apply Heq; congruence.
  - rewrite !(mbind_eq (mret false) _ st1 false st1) by done. destruct (_ <? _); by apply Heq.
Qed.

(** Errors other than [e] do not come from [m]. *)
Definition fails_only {A} (ok : Errno → Prop) (m : M (D := D) A) : Prop := ∀ st e st', m st = Ret (Err e, st') → ok e.

Lemma fails_bind {A B} ok (m : M A) (k : A → M B) : fails_only ok m → (∀ a, fails_only ok (k a)) → fails_only ok (mbind m k).
Proof.
  intros Hm Hk st e st'. unfold mbind. destruct (m st) as [[[a|e1] st1]|] eqn:E; cbn [exec_bind]; [by apply Hk| |done].
  intros [= -> ->]. by eapply Hm.
Qed.

Lemma fails_ret {A} ok (a : A) : fails_only ok (mret a).
Proof. done. Qed.
Lemma fails_lift {A} ok (x : exec A) : fails_only ok (lift x).
Proof. intros st e st'. by destruct x. Qed.
Lemma fails_get ok : fails_only ok get_inode.
Proof. done. Qed.
Lemma fails_put ok i : fails_only ok (put_inode i).
Proof. done. Qed.
Lemma fails_read ok off : fails_only ok (read_at off).
Proof. intros st e st'. unfold read_at. by destruct (read_dev _ _) as [[l d]|]. Qed.
Lemma fails_write ok off l : fails_only ok (write_at off l).
Proof. intros st e st'. unfold write_at. by destruct (write_dev _ _ _). Qed.
Lemma fails_group ok bgid : fails_only ok (load_group junk fs bgid).
Proof. intros st e st'. unfold load_group. by destruct (load_new _ _ _ _) as [[bg d]|]. Qed.
Lemma fails_logged ok m : fails_only ok (logged m).
Proof. intros st e st'. unfold logged. by destruct (m st) as [[x st1]|]. Qed.

Create HintDb fails.
#[local] Hint Resolve fails_ret fails_lift fails_get fails_put fails_read fails_write fails_group fails_logged : fails.
Ltac fails_tac := repeat first [ apply fails_bind; [solve [auto with fails]|intros []] | apply fails_bind; [solve [auto with fails]|intros ?]
  | progress auto with fails | case_match ].

Lemma fails_write_back ok : fails_only ok (write_back_inode junk fs num).
Proof. unfold write_back_inode. apply fails_bind; [unfold inode_disk_pos; fails_tac|]. intros pos. fails_tac. Qed.
#[local] Hint Resolve fails_write_back : fails.

Lemma fails_take_block ok bg bitmap bgid idx : fails_only ok (take_block junk fs num bg bitmap bgid idx).
Proof.
  unfold take_block. do 3 (apply fails_bind; [auto with fails|intros ?]). apply fails_bind; [|intros ?; apply fails_ret].
  unfold update_free_block_counts. apply fails_bind; [unfold sync_super; fails_tac|]. intros _.
  do 3 (apply fails_bind; [auto with fails|intros ?]). unfold sync_group. fails_tac.
Qed.

Lemma fails_alloc_loop n : ∀ groups bgid idx, fails_only (eq ENOSPC) (alloc_loop junk fs num n groups bgid idx).
Proof.
  induction n as [|n IH]; intros groups bgid idx; cbn [alloc_loop]; [by intros st e st' [= <- _]|].
  apply fails_bind; [apply fails_group|]. intros bg. destruct (_ =? 0); [apply IH|].
  do 3 (apply fails_bind; [auto with fails|intros ?]). apply fails_bind; [apply fails_lift|]. intros [i|]; [apply fails_take_block|apply IH].
Qed.

(** Growing fails only for lack of a block, and then it has not touched the root. *)
Lemma grow_fails (st st1 : St (D := D)) e : ext_grow_indepth junk fs num st = Ret (Err e, st1) → length (inode st) = 156%nat →
  e = ENOSPC ∧ root_kept (inode st) (inode st1).
Proof.
  unfold ext_grow_indepth. unfold mbind at 1. destruct (balloc_alloc_block junk fs num None st) as [[[b|e1] st2]|] eqn:E; cbn [exec_bind]; [| |done].
  - intros Hf. exfalso. revert Hf. apply (fails_bind (fun _ => False)); [apply fails_read|]. intros _.
    apply fails_bind; [apply fails_get|]. intros i. apply fails_bind; [destruct (_ && _); fails_tac|]. intros first.
    destruct (48 <? _); [apply fails_lift|]. fails_tac.
  - intros [= <- <-] Hl. split; [|by eapply keeps_alloc]. revert E. unfold balloc_alloc_block. intros E. symmetry. revert st e1 st2 Hl E.
    assert (fails_only (eq ENOSPC) (balloc_alloc_block junk fs num None)) as Hf.
    { unfold balloc_alloc_block. apply fails_bind; [apply fails_lift|]. intros [bgid idx]. apply fails_bind; [apply fails_lift|].
      intros groups. apply fails_alloc_loop. }
    intros st e1 st2 _ E. by eapply Hf.
Qed.

(** Blocks that the extents of a root leaf map are found without the disk. *)
Lemma lookup_root_leaf (st : St (D := D)) i es b p : root_leaf i es → inode_block (inode st) = inode_block i → maps es b p →
  get_pblock_idx b st = Ret (Ok p, st).
Proof.
  intros Hr Hi (e & He & Hc & ->). pose proof (rl_depth _ _ Hr) as Hd. unfold root_extent_header in Hd.
  unfold get_pblock_idx, find_extent, mbind at 1, get_inode at 1. cbn [exec_bind]. rewrite Hi. unfold load_from_data.
  rewrite inode_block_length by apply Hr. cbn [Nat.eqb header]. rewrite Hd. change (5 <? 0) with false. change (Z.to_nat 0) with 0%nat. cbn [descend].
  unfold mbind at 1, mret at 1. cbn [exec_bind]. cbn beta iota. set (n := mkNode _ _ _).
  destruct (binsearch_covered n es e b (rl_holds _ _ Hr) (rl_count _ _ Hr) (rl_ok _ _ Hr) He Hc) as (q & Hb & Hq).
  unfold mbind, lift. rewrite Hb. cbn [exec_bind]. unfold mret. cbn [exec_bind path app last pblock].
  assert (extent_fits e) as Hf.
  { apply list_elem_of_lookup in He as (k & Hk). eapply load_extent_fits; [apply slice_bytes, Hr|by apply (rl_holds _ _ Hr)]. }
  pose proof (get_pblock_range e Hf). pose proof (get_actual_len_range e Hf). destruct Hf as (? & ? & _), Hc. rewrite u64_small by lia.
  by replace (b - first_block e + get_pblock e) with (get_pblock e + (b - first_block e)) by lia.
Qed.

(** C36: The fifth extent. When the four places of the root are taken, and a new extent that starts at or behind the end of
    the last one cannot be merged with it, the insertion first makes the tree grow. If that succeeds, the insertion
    then fails with ENOENT, because the search refuses a root index with one entry, which is what growing leaves;
    from then on every block of the file, the old ones included, is looked up as block 0. If growing fails, it is
    for lack of a free block: the insertion fails with ENOSPC, and every block that was mapped is still found. If it
    panics, so does the insertion. *)
Theorem fifth_extent_loses_file (st : St (D := D)) (es : list Ext4Extent) (e newex : Ext4Extent) :
  root_leaf (inode st) es → length es = 4%nat → last es = Some e → extent_fits newex →
  first_block e + get_actual_len e ≤ first_block newex → first_block newex + block_count newex < 2 ^ 32 →
  can_merge e newex = false →
  match ext_grow_indepth junk fs num st with
  | Ret (Ok _, st1) => insert_extent junk fs num newex st = Ret (Err ENOENT, st1) ∧ ∀ b, get_pblock_idx b st1 = Ret (Ok 0, st1)
  | Ret (Err er, st1) => er = ENOSPC ∧ insert_extent junk fs num newex st = Ret (Err ENOSPC, st1) ∧
      ∀ b p, maps es b p → get_pblock_idx b st1 = Ret (Ok p, st1)
  | Panic => insert_extent junk fs num newex st = Panic
  end.
Proof.
  intros Hr Hlen Hlast Hx Hbeh Hmax Hcan. pose proof (rl_length _ _ Hr) as Hl.
  assert (0 ≤ depth (root_extent_header (inode st)) ≤ 5) as Hd by (rewrite (rl_depth _ _ Hr); lia).
  assert (es !! pred (length es) = Some e) as Hpe by (by rewrite <- last_lookup).
  assert (extent_fits e) as He by (eapply load_extent_fits; [apply slice_bytes, Hr|by apply (rl_holds _ _ Hr)]).
  pose proof (get_actual_len_range e He) as Hle.
  assert (insert_extent junk fs num newex st = create_new_leaf junk fs num (insert_extent_fuel junk fs num 1) newex st) as ->.
  { unfold insert_extent. cbn [insert_extent_fuel]. fold (insert_extent_fuel junk fs num 1).
    rewrite (mbind_eq _ _ _ _ _ (find_last st es e (first_block newex) Hr Hlast ltac:(lia))).
    rewrite (mbind_eq _ _ _ _ _ (lift_eq _ st _ (node_of_last _ _ _ _))). cbn [last_node pheader pextent]. fold (last_node (inode st) (length es) e (first_block newex)).
    rewrite (rl_count _ _ Hr), (proj2 (Z.eqb_neq _ 0)) by lia.
    rewrite (mbind_eq _ _ _ _ _ (try_merge_last st es e newex _ Hr Hlast Hx Hbeh Hmax Hcan)).
    by rewrite (rl_max _ _ Hr), (proj2 (Z.ltb_ge _ _)) by lia. }
  unfold create_new_leaf. destruct (ext_grow_indepth junk fs num st) as [[[[]|er] st1]|] eqn:Hg.
  - rewrite (mbind_eq _ _ _ _ _ Hg). split; [by apply (insert_after_grow junk fs num st)|].
    intros b. by apply (lookup_after_grow junk fs num st st1).
  - destruct (grow_fails st st1 er Hg Hl) as [-> [_ Hk]]. unfold mbind. rewrite Hg. split; [done|]. split; [done|].
    intros b p Hm. by apply (lookup_root_leaf st1 (inode st) es).
  - unfold mbind. by rewrite Hg.
Qed.
End growing.

(** ** Examples *)

(** A volume of 16 blocks: superblock, descriptors in block 1, block bitmap in block 2, inodes in block 4; the blocks
    from 9 on are free. Blocks 9 and 10 hold two leaves of a tree. *)
Definition small_super : list Z :=
  set_field 0 4 (set_field 4 4 (set_field 12 4 (set_field 32 4 (set_field 40 4 (set_field 88 2 (set_field 254 2 (replicate 1024 0) 32) 256)
    16) 16) 7) 16) 16.
Definition small_fs : Ext4 := mkExt4 small_super (Some [(0, 4)]).

Definition leaf_of (es : list Ext4Extent) : list Z :=
  header_bytes (mkHeader EXT4_EXTENT_MAGIC (Z.of_nat (length es)) 340 0 0) ++ mjoin (extent_bytes <$> es).

Definition small_disk : Disk.Device Disk.ram_disk :=
  let sector l := l ++ replicate (512 - length l) 0 in
  Disk.mkDevice
    (<[8%nat := sector [2;0;0;0; 3;0;0;0; 4;0;0;0; 7;0; 2;0]]> (<[16%nat := sector [255; 1]]>
      (<[72%nat := sector (leaf_of [mkExtent 0 2 0 11])]> (<[80%nat := sector (leaf_of [mkExtent 4 1 0 13])]> (Disk.blank 128)))))
    Disk.new 0 0 65536.

Lemma small_disk_coherent : Disk.coherent small_disk.
Proof.
  split; [exact (proj1 (Ialloc.volume_coherent []))|by intros s b].
Qed.

Definition root_of (h : Ext4ExtentHeader) (l : list Z) : list Z := replicate 40 0 ++ header_bytes h ++ l ++ replicate (104 - length l) 0.

Definition full_root : list Ext4Extent := [mkExtent 0 1 0 5; mkExtent 2 1 0 6; mkExtent 4 1 0 7; mkExtent 6 1 0 8].
Definition full_inode : list Z := root_of (mkHeader EXT4_EXTENT_MAGIC 4 4 0 0) (mjoin (extent_bytes <$> full_root)).
Definition one_inode : list Z := root_of (mkHeader EXT4_EXTENT_MAGIC 1 4 0 0) (extent_bytes (mkExtent 0 1 0 5)).
Definition tree_inode : list Z := root_of (mkHeader EXT4_EXTENT_MAGIC 2 4 1 0) (index_bytes (mkIndex 0 9 0 0) ++ index_bytes (mkIndex 4 10 0 0)).

Lemma extents_ok_dec es : forallb (fun i => forallb (fun j => match es !! i, es !! j with
    | Some e, Some e' => (first_block e <=? first_block e') && (first_block e + get_actual_len e <=? first_block e') || negb (i <? j)%nat
    | _, _ => true end) (seq 0 (length es))) (seq 0 (length es)) = true → extents_ok es.
Proof.
  intros Hb i j e e' Hij Hi Hj. pose proof (lookup_lt_Some _ _ _ Hi). pose proof (lookup_lt_Some _ _ _ Hj).
  rewrite forallb_forall in Hb. specialize (Hb i ltac:(apply in_seq; lia)). rewrite forallb_forall in Hb.
  specialize (Hb j ltac:(apply in_seq; lia)). rewrite Hi, Hj, (proj2 (Nat.ltb_lt _ _)) in Hb by done. cbn [negb] in Hb. lia.
Qed.

Lemma holds_extents_dec l es : ((fun i => load_extent l (Z.of_nat i)) <$> seq 0 (length es)) = (Ret <$> es) → holds_extents l es.
Proof.
  intros Hl i e Hi. assert ((Ret <$> es) !! i = Some (Ret e)) as Hr by (by rewrite list_lookup_fmap, Hi).
  pose proof (lookup_lt_Some _ _ _ Hi). rewrite <- Hl, list_lookup_fmap, lookup_seq_lt in Hr by done. by injection Hr.
Qed.

Lemma full_inode_leaf : root_leaf full_inode full_root.
Proof.
  constructor; [done|by apply Ialloc.all_bytes|done|done|done|apply holds_extents_dec; by vm_compute|by apply extents_ok_dec].
Qed.

Lemma one_inode_leaf : root_leaf one_inode [mkExtent 0 1 0 5].
Proof.
  constructor; [done|by apply Ialloc.all_bytes|done|done|done|apply holds_extents_dec; by vm_compute|by apply extents_ok_dec].
Qed.

Definition grown : St := match ext_grow_indepth [] small_fs 1 (mkSt small_disk full_inode) with Ret (Ok tt, st) => st | _ => mkSt small_disk full_inode end.

Lemma grown_ok : ext_grow_indepth [] small_fs 1 (mkSt small_disk full_inode) = Ret (Ok tt, grown).
Proof. vm_compute. reflexivity. Qed.

Lemma fifth_extent_loses_file_witness :
  insert_extent [] small_fs 1 (mkExtent 8 1 0 12) (mkSt small_disk full_inode) = Ret (Err ENOENT, grown) ∧
  ∀ b, get_pblock_idx b grown = Ret (Ok 0, grown).
Proof.
  pose proof (fifth_extent_loses_file [] small_fs 1 (mkSt small_disk full_inode) full_root (mkExtent 6 1 0 8) (mkExtent 8 1 0 12)) as H.
  rewrite grown_ok in H. apply H.
  - exact full_inode_leaf.
  - reflexivity.
  - reflexivity.
  - unfold extent_fits. cbn. lia.
  - cbn. lia.
  - cbn. lia.
  - reflexivity.
Defined.

Lemma append_extent_to_root_witness :
  ∃ st' es', insert_extent [] small_fs 1 (mkExtent 1 2 0 6) (mkSt small_disk one_inode) = Ret (Ok tt, st') ∧ dev st' = small_disk ∧
    root_leaf (inode st') es' ∧ ∀ b p, maps es' b p ↔ maps [mkExtent 0 1 0 5] b p ∨ maps [mkExtent 1 2 0 6] b p.
Proof.
  apply (append_extent_to_root [] small_fs 1 (mkSt small_disk one_inode) [mkExtent 0 1 0 5] (mkExtent 0 1 0 5) (mkExtent 1 2 0 6)).
  - exact one_inode_leaf.
  - cbn. lia.
  - reflexivity.
  - unfold extent_fits. cbn. lia.
  - cbn. lia.
  - cbn. lia.
  - left. reflexivity.
Defined.

Definition tree_extents : list Ext4Extent := [mkExtent 0 2 0 11; mkExtent 4 1 0 13].

Lemma tree_stored : stored small_disk 1 true (inode_block tree_inode) tree_extents.
Proof.
  split; [done|]. exists [(mkIndex 0 9 0 0, [mkExtent 0 2 0 11]); (mkIndex 4 10 0 0, [mkExtent 4 1 0 13])].
  splits; [|done|cbn; lia|cbn; lia|done| |].
  - intros i x Hi. destruct i as [|[|]]; cbn in Hi; simplify_eq; by vm_compute.
  - intros i x es' Hi. destruct i as [|[|]]; cbn in Hi; simplify_eq; (split; [done|split; [rewrite index_below by done; unfold usable; cbn; lia|split]]).
    + split; [apply Disk.bytes_length|]. splits; [apply holds_extents_dec; by vm_compute|by vm_compute|by apply extents_ok_dec].
    + intros e He%list_elem_of_singleton. subst e. cbn. lia.
    + split; [apply Disk.bytes_length|]. splits; [apply holds_extents_dec; by vm_compute|by vm_compute|by apply extents_ok_dec].
    + intros e He%list_elem_of_singleton. subst e. cbn. lia.
  - intros i j x x' es' es'' Hij Hi Hj. destruct i as [|[|]], j as [|[|]]; cbn in Hi, Hj; simplify_eq; try lia.
    split; [cbn; lia|]. intros e He%list_elem_of_singleton. subst e. cbn. lia.
Qed.

Lemma pblock_of_covered_block_witness :
  ∃ st', get_pblock_idx 1 (mkSt small_disk tree_inode) = Ret (Ok 12, st') ∧ Disk.same_disk small_disk (dev st') ∧ inode st' = tree_inode.
Proof.
  apply (pblock_of_covered_block (mkSt small_disk tree_inode) tree_extents (mkExtent 0 2 0 11) 1).
  - exact small_disk_coherent.
  - vm_compute. by split.
  - exact tree_stored.
  - left.
  - unfold covers. cbn. lia.
  - by vm_compute.
  - by vm_compute.
Defined.

End Extent.
