(* ===== verification/ExtFile.v ===== *)
(** Files and directories of the vendored ext4 file system: reading files (ext4_impls/file.rs), and the directories of
    ext4_defs/direntry.rs and ext4_impls/dir.rs, on the inodes and extent trees of Extents.v.

    A directory block is its bytes; entries are read and written through pointer casts, and an entry is read with room
    for the longest name, so that the bytes behind the block ([junk]) are read with it. *)

From stdpp Require Import base numbers list.
From Stdlib Require Import ZArith Lia.
From S2P Require Import Prelude Disk Ext4 Extents.
Local Open Scope Z_scope.
Local Open Scope rust_scope.

Module FileIO.
Import Ialloc Extent.

Notation "'do!' x := m 'in' k" := (mbind m (fun x => k)) (at level 10, x pattern, m at level 100, k at level 200).

Section ops.
Context {D : Type} `{BlockIO D}.
Context (junk : list Z) (fs : Ext4).

(** [while total_bytes_read < read_buf_len && iblock < iblock_last]; [left] is what is still to be read. *)
Fixpoint read_blocks (rounds : nat) (file_size total_blocks iblock left : Z) : M (D := D) (list Z) :=
  match rounds with
  | O => mret []
  | S rounds =>
      if left <=? 0 then mret []
      else
        let read_length := Z.min 4096 left in
        let read_length :=
          if total_blocks - 1 <=? iblock then Z.min read_length (u64 (file_size - iblock * 4096)) else read_length in
        do! pblock := get_pblock_idx (u32 iblock) in
        do! l := read_at (pblock *! 4096) in
        do! rest := read_blocks rounds file_size total_blocks (iblock + 1) (left - read_length) in
        mret (take (Z.to_nat read_length) l ++ rest)
  end.

(** What [read_at] does with the inode it has loaded. *)
Definition read_inode (offset len : Z) : M (list Z) :=
  do! i := get_inode in
  let file_size := size i in
  let total_blocks := (file_size + 4095) / 4096 in
  if file_size <=? offset then mret []
  else
    let len := if file_size <? offset +! len then file_size - offset else len in
    let iblock := offset / 4096 in
    let iblock_last := Z.min ((offset +! len +! 4096 -! 1) / 4096) total_blocks in
    let start := offset mod 4096 in
    if 0 <? start then
      let n := Z.min (4096 - start) len in
      do! pblock := get_pblock_idx (u32 iblock) in
      do! l := read_at (pblock *! 4096) in
      do! rest := read_blocks (Z.to_nat (iblock_last - (iblock + 1))) file_size total_blocks (iblock + 1) (len - n) in
      mret (slice (Z.to_nat start) (Z.to_nat n) l ++ rest)
    else read_blocks (Z.to_nat (iblock_last - iblock)) file_size total_blocks iblock len.

(** The bytes stored into a buffer of [len] bytes. *)
Definition read_file (num offset len : Z) : M (list Z) :=
  if len =? 0 then mret []
  else
    do! _ := get_inode_ref junk fs num in
    read_inode offset len.
End ops.

(** ** Reading *)

Section read.
Context {D : Type} `{BlockIO D, !BlockLaws D}.

Lemma stored_same (a b : Disk.Device D) h : Disk.same_disk a b → ∀ r l es, stored a h r l es → stored b h r l es.
Proof.
  intros Hs. induction h as [|h IH]; intros r l es (Hl & Hst); split; try done.
  destruct Hst as (kids & H1 & H2 & H3 & H4 & H5 & H6). exists kids. split; [done|]. split; [done|]. split; [done|]. split; [done|].
  split; [|done]. intros i x es' Hi. destruct (H5 i x es' Hi) as (Hhi & Hu & Hst & Hk). split; [done|]. split; [by eapply usable_same|]. split; [|done].
  apply IH. destruct Hs as (-> & _). done.
Qed.

(** The bytes of the file from [off] on, when its block [b] is block [phys b] of the disk. *)
Definition content (d : D) (phys : Z → Z) (off : Z) (n : nat) : list Z :=
  (fun k => let x := off + Z.of_nat k in default 0 (Disk.byte d (phys (x / 4096) * 4096 + x mod 4096))) <$> seq 0 n.

Lemma content_length d phys off n : length (content d phys off n) = n.
Proof. unfold content. by rewrite length_fmap, length_seq. Qed.

Lemma content_app d phys off n m : content d phys off (n + m) = content d phys off n ++ content d phys (off + Z.of_nat n) m.
Proof.
  unfold content. rewrite seq_app, fmap_app. f_equal.
  rewrite <- (Nat.add_comm n), <- (fmap_add_seq n 0 m), <- list_fmap_compose. apply list_fmap_ext. intros i x _. unfold compose. cbn beta zeta.
  by replace (off + Z.of_nat (n + x)) with (off + Z.of_nat n + Z.of_nat x) by lia.
Qed.

(** Inside one block. *)
Lemma content_block d phys off n : 0 ≤ off → off mod 4096 + Z.of_nat n ≤ 4096 →
  content d phys off n = slice (Z.to_nat (off mod 4096)) n (block d (phys (off / 4096))).
Proof.
  intros Ho Hn. pose proof (Z.mod_pos_bound off 4096 ltac:(lia)). apply list_eq. intros k. rewrite slice_lookup. case_decide as Hk.
  - unfold content, block. rewrite list_lookup_fmap, lookup_seq_lt by done. rewrite Disk.bytes_lookup by lia. cbn [fmap option_fmap option_map].
    assert ((off + Z.of_nat k) / 4096 = off / 4096 ∧ (off + Z.of_nat k) mod 4096 = off mod 4096 + Z.of_nat k) as [E1 E2].
    { pose proof (Z.div_mod off 4096 ltac:(lia)). split.
      - symmetry. apply (Z.div_unique _ _ _ (off mod 4096 + Z.of_nat k)); lia.
      - symmetry. apply (Z.mod_unique _ _ (off / 4096)); lia. }
    cbn [Nat.add]. rewrite E1, E2. do 3 f_equal. lia.
  - apply lookup_ge_None_2. rewrite content_length. lia.
Qed.

(** Every block of a file of [total] blocks is in an extent, and on the disk. *)
Record file_mapped (st : St (D := D)) (es : list Ext4Extent) (phys : Z → Z) (total : Z) : Prop := mkFileMapped {
  fm_coherent : Disk.coherent (dev st);
  fm_depth : 0 ≤ depth (root_extent_header (inode st)) ≤ 5;
  fm_stored : stored (dev st) (Z.to_nat (depth (root_extent_header (inode st)))) true (inode_block (inode st)) es;
  fm_blocks : ∀ b, 0 ≤ b < total → usable (dev st) (phys b) ∧ ∃ e, e ∈ es ∧ covers e b ∧ 0 ≤ get_pblock e ∧
    get_pblock e + get_actual_len e < 2 ^ 64 ∧ phys b = get_pblock e + (b - first_block e)
}.

Lemma file_mapped_same st st' es phys total : Disk.same_disk (dev st) (dev st') → inode st' = inode st →
  file_mapped st es phys total → file_mapped st' es phys total.
Proof.
  intros Hs Hi [H1 H2 H3 H4]. constructor; rewrite ?Hi; [by eapply same_disk_coherent|done|by eapply stored_same|].
  intros b Hb. destruct (H4 b Hb) as [Hu He]. split; [by eapply usable_same|done].
Qed.

(** The block of the disk that is read for block [b] of the file. *)
Definition seen (i : list Z) (phys : Z → Z) (b : Z) : Z := if decide (single_index (inode_block i)) then 0 else phys b.

(** Looking up a block and reading it. *)
Lemma read_block_spec st es phys total b {B} (k : list Z → M B) : file_mapped st es phys total → 0 ≤ b < total → total ≤ 2 ^ 32 →
  ∃ st', Disk.same_disk (dev st) (dev st') ∧ inode st' = inode st ∧
    (do! pblock := get_pblock_idx (u32 b) in do! l := read_at (pblock *! 4096) in k l) st = k (block (Disk.dev (dev st)) (seen (inode st) phys b)) st'.
Proof.
  intros Hf Hb Ht. destruct (fm_blocks _ _ _ _ Hf b Hb) as (Hu & e & He & Hc & Hp0 & Hp1 & Hphys).
  unfold u32. rewrite wrap_small by lia. unfold seen.
  assert (∃ st1, get_pblock_idx b st = Ret (Ok (if decide (single_index (inode_block (inode st))) then 0 else phys b), st1) ∧
    Disk.same_disk (dev st) (dev st1) ∧ inode st1 = inode st) as (st1 & Hr1 & Hs1 & Hi1).
  { case_decide as Hsi.
    - exists st. split; [|done]. pose proof (fm_stored _ _ _ _ Hf) as Hst. apply lookup_single; [|done|apply (fm_depth _ _ _ _ Hf)].
      by destruct (Z.to_nat _); destruct Hst as [? _].
    - rewrite Hphys. by apply (lookup_covered st es e b (fm_coherent _ _ _ _ Hf) (fm_depth _ _ _ _ Hf) (fm_stored _ _ _ _ Hf) He Hc Hp0 Hp1). }
  rewrite (mbind_eq _ _ _ _ _ Hr1). set (q := if decide _ then 0 else phys b) in *.
  assert (usable (dev st) q) as Huq by (subst q; case_decide; [|done]; destruct Hu as (? & ? & ? & ?); unfold usable; lia).
  destruct (read_at_spec st1 (dev st) q Hs1 (fm_coherent _ _ _ _ Hf) Huq) as (st2 & Hr2 & Hs2 & Hi2).
  exists st2. split; [done|]. split; [congruence|]. by rewrite (mbind_eq _ _ _ _ _ Hr2).
Qed.

Lemma read_blocks_spec es phys fsize total rounds : ∀ st iblock left_,
  file_mapped st es phys total → total = (fsize + 4095) / 4096 → total ≤ 2 ^ 32 → fsize < 2 ^ 64 → 0 ≤ iblock →
  0 ≤ left_ ≤ Z.of_nat rounds * 4096 → (0 < left_ → iblock * 4096 + left_ ≤ fsize) →
  ∃ st', read_blocks rounds fsize total iblock left_ st = Ret (Ok (content (Disk.dev (dev st)) (seen (inode st) phys) (iblock * 4096) (Z.to_nat left_)), st') ∧
    Disk.same_disk (dev st) (dev st') ∧ inode st' = inode st.
Proof.
  induction rounds as [|rounds IH]; intros st iblock left_ Hf Ht Hmax Hfs Hi Hl Hle; cbn [read_blocks].
  - exists st. assert (left_ = 0) as -> by lia. splits; try done.
  - destruct (Z.leb_spec left_ 0) as [H0|Hpos].
    { exists st. assert (left_ = 0) as -> by lia. splits; try done. }
    specialize (Hle Hpos). assert (iblock + 1 ≤ total) as Hb by (rewrite Ht; apply Z.div_le_lower_bound; lia).
    assert ((if total - 1 <=? iblock then Z.min (Z.min 4096 left_) (u64 (fsize - iblock * 4096)) else Z.min 4096 left_) = Z.min 4096 left_) as ->.
    { destruct (_ <=? _); [|done]. rewrite u64_small by lia. lia. }
    set (n := Z.min 4096 left_).
    destruct (read_block_spec st es phys total iblock (fun l =>
      do! rest := read_blocks rounds fsize total (iblock + 1) (left_ - n) in mret (take (Z.to_nat n) l ++ rest)) Hf) as (st1 & Hs1 & Hi1 & ->); [lia|done|].
    destruct (IH st1 (iblock + 1) (left_ - n)) as (st2 & Hr2 & Hs2 & Hi2); [by eapply file_mapped_same|done|done|done|lia|lia|lia|].
    rewrite (mbind_eq _ _ _ _ _ Hr2). exists st2. split; [|split; [by eapply same_disk_trans|congruence]].
    unfold mret. do 3 f_equal. replace (Z.to_nat left_) with (Z.to_nat n + Z.to_nat (left_ - n))%nat by lia.
    rewrite content_app, (content_block _ _ (iblock * 4096)) by (rewrite ?Z.mod_mul; lia). rewrite Z.mod_mul, Z.div_mul by lia.
    destruct Hs1 as (-> & _). rewrite Hi1. unfold slice. cbn [Z.to_nat drop]. f_equal. destruct (Z.le_gt_cases 4096 left_).
    + by replace (iblock * 4096 + Z.of_nat (Z.to_nat n)) with ((iblock + 1) * 4096) by lia.
    + by replace (left_ - n) with 0 by lia.
Qed.

(** C37: Reading a file returns its contents. For an inode whose extent tree maps every block of the file to the disk, and a
    file of at most 2^32 blocks, a read at any offset returns the bytes of those blocks from the offset on, as many as were
    asked for and the file has; behind the end it returns none. Except that when the root of the tree is an index
    with a single entry, the bytes returned are those of block 0 of the disk in place of every block. The disk is not
    changed. *)
Theorem read_returns_contents (st : St (D := D)) (es : list Ext4Extent) (phys : Z → Z) (offset len : Z) :
  let fsize := size (inode st) in
  let from b := if decide (single_index (inode_block (inode st))) then 0 else phys b in
  file_mapped st es phys ((fsize + 4095) / 4096) → 0 ≤ fsize ≤ 2 ^ 44 → 0 ≤ offset → 0 ≤ len → offset + len + 4096 < 2 ^ 64 →
  ∃ st', read_inode offset len st = Ret (Ok (content (Disk.dev (dev st)) from offset (Z.to_nat (Z.min len (fsize - offset)))), st') ∧
    Disk.same_disk (dev st) (dev st') ∧ inode st' = inode st.
Proof.
  intros fsize from Hf Hfs Ho Hl Hmax. change from with (seen (inode st) phys). clear from. unfold read_inode. rewrite (mbind_eq get_inode _ st (inode st) st) by done. fold fsize.
  destruct (Z.leb_spec fsize offset) as [Hend|Hin].
  { exists st. split; [|done]. by replace (Z.to_nat (Z.min len (fsize - offset))) with 0%nat by lia. }
  rewrite !(u64_small (offset + len)) by lia.
  assert ((if fsize <? offset + len then fsize - offset else len) = Z.min len (fsize - offset)) as -> by (destruct (Z.ltb_spec fsize (offset + len)); lia).
  set (n := Z.min len (fsize - offset)) in *. assert (0 ≤ n ∧ offset + n ≤ fsize ∧ n ≤ len) as (Hn0 & Hn1 & Hn2) by lia. clearbody n.
  pose proof (Z.div_mod offset 4096 ltac:(lia)) as Hdm. pose proof (Z.mod_pos_bound offset 4096 ltac:(lia)) as Hm.
  set (ib := offset / 4096) in *. set (start := offset mod 4096) in *.
  set (total := (fsize + 4095) / 4096) in *. rewrite !(u64_small (offset + n)), !(u64_small (offset + n + 4096)), !u64_small by lia.
  set (last := (offset + n + 4096 - 1) / 4096). assert (last ≤ total) as Hlt by (apply Z.div_le_mono; lia). rewrite Z.min_l by done.
  assert (offset + n ≤ last * 4096) as Hll.
  { pose proof (Z.div_mod (offset + n + 4096 - 1) 4096 ltac:(lia)). pose proof (Z.mod_pos_bound (offset + n + 4096 - 1) 4096 ltac:(lia)). lia. }
  assert (ib + 1 ≤ total) as Hib by (apply Z.div_le_lower_bound; lia).
  assert (total ≤ 2 ^ 32) as Htot by (apply Z.lt_succ_r, Z.div_lt_upper_bound; lia).
  destruct (Z.ltb_spec 0 start) as [Hs|Hs].
  - set (n1 := Z.min (4096 - start) n).
    destruct (read_block_spec st es phys total ib (fun l => do! rest := read_blocks (Z.to_nat (last - (ib + 1))) fsize total (ib + 1) (n - n1)
      in mret (slice (Z.to_nat start) (Z.to_nat n1) l ++ rest)) Hf) as (st1 & Hs1 & Hi1 & ->); [lia|done|].
    destruct (read_blocks_spec es phys fsize total (Z.to_nat (last - (ib + 1))) st1 (ib + 1) (n - n1)) as (st2 & Hr2 & Hs2 & Hi2);
      [by eapply file_mapped_same|done|done|lia|lia|lia|lia|].
    rewrite (mbind_eq _ _ _ _ _ Hr2). exists st2. split; [|split; [by eapply same_disk_trans|congruence]].
    unfold mret. do 3 f_equal. replace (Z.to_nat n) with (Z.to_nat n1 + Z.to_nat (n - n1))%nat by lia.
    rewrite content_app, (content_block _ _ offset) by (fold start; lia). fold ib start. destruct Hs1 as (-> & _). rewrite Hi1. f_equal.
    destruct (Z.le_gt_cases (4096 - start) n).
    + by replace (offset + Z.of_nat (Z.to_nat n1)) with ((ib + 1) * 4096) by lia.
    + by replace (n - n1) with 0 by lia.
  - assert (offset = ib * 4096) as Hoff by lia. 
    replace (content (Disk.dev (dev st)) (seen (inode st) phys) offset (Z.to_nat n)) with (content (Disk.dev (dev st)) (seen (inode st) phys) (ib * 4096) (Z.to_nat n)) by (by f_equal).
    apply (read_blocks_spec es phys fsize total); try done; lia.
Qed.
End read.
End FileIO.

(** ** Directory blocks *)

Module Dir.
Import Ialloc Extent.

Record Ext4DirEntry := mkEntry {
  de_inode : Z;
  entry_len : nat;
  name_len : nat;
  inode_type : Z;
  de_name : list Z
}.

(** A block without its tail of twelve bytes. *)
Definition BLOCK_DATA_SIZE : nat := 4084.

Section blocks.
(** The memory behind a block: an entry is read with room for the longest name. *)
Context (junk : list Z).

Definition read_entry (l : list Z) (off : nat) : Ext4DirEntry :=
  let b := drop off l ++ junk in
  mkEntry (field 0 4 b) (Z.to_nat (field 4 2 b)) (Z.to_nat (field 6 1 b)) (field 7 1 b) (slice 8 255 b).

Definition unused (de : Ext4DirEntry) : bool := de_inode de =? 0.

Definition compare_name (de : Ext4DirEntry) (name : list Z) : bool :=
  (name_len de =? length name)%nat && bool_decide (take (length name) (de_name de) = name).

Definition actual_len (n : nat) : nat := 8 + n.
(** [(len + 3) & !3] *)
Definition align_len (n : nat) : nat := ((actual_len n + 3) / 4 * 4)%nat.

(** The first [align_len] bytes of the entry in memory. *)
Definition entry_bytes (de : Ext4DirEntry) : list Z :=
  take (align_len (name_len de))
    (le_bytes 4 (de_inode de) ++ le_bytes 2 (Z.of_nat (entry_len de)) ++ [Z.of_nat (name_len de); inode_type de] ++
     de_name de ++ replicate (256 - length (de_name de)) 0).

Definition copy_to_slice (l : list Z) (off : nat) (de : Ext4DirEntry) : exec (list Z) :=
  if (off + align_len (name_len de) <=? length l)%nat then Ret (Disk.copy_at l off (entry_bytes de)) else Panic.

(** [write_entry] on a fresh entry; a name of more than 255 bytes does not fit. *)
Definition write_entry (len : nat) (inode : Z) (name : list Z) (ty : Z) : exec Ext4DirEntry :=
  if (length name <=? 255)%nat then Ret (mkEntry inode len (length name) ty (name ++ replicate (255 - length name) 0)) else Panic.

(** Every round moves on by at least one byte, or none does any more. *)
Definition ROUNDS : nat := 4085.

(** The loops over the entries of a block; [None] when the rounds are used up. *)
Fixpoint find_loop (rounds : nat) (l name : list Z) (off prev : nat) : option (result (Ext4DirEntry * nat * nat) Errno) :=
  match rounds with
  | O => None
  | S rounds =>
      if (off <? BLOCK_DATA_SIZE)%nat then
        let de := read_entry l off in
        if negb (unused de) && compare_name de name then Some (Ok (de, off, prev))
        else find_loop rounds l name (off + entry_len de) off
      else Some (Err ENOENT)
  end.

Definition dir_find_in_block (l name : list Z) : option (result (Ext4DirEntry * nat * nat) Errno) := find_loop ROUNDS l name 0 0.

Definition required_len (name : list Z) : nat :=
  let len := (8 + length name)%nat in
  if negb (len mod 4 =? 0)%nat then len + (4 - len mod 4) else len.

(** The length of the used part of an entry. *)
Definition used_size (de : Ext4DirEntry) : nat :=
  let sz := (8 + name_len de)%nat in
  if negb (name_len de mod 4 =? 0)%nat then sz + (4 - name_len de mod 4) else sz.

Definition split_entry (l : list Z) (off : nat) (de : Ext4DirEntry) (name : list Z) (child ty : Z) : exec (list Z) :=
  let sz := used_size de in
  let free_space := u64 (Z.of_nat (entry_len de) - Z.of_nat sz) in
  let! new_entry := write_entry (Z.to_nat (u16 free_space)) child name ty in
  let! l := copy_to_slice l off (mkEntry (de_inode de) sz (name_len de) (inode_type de) (de_name de)) in
  copy_to_slice l (off + sz) new_entry.

Fixpoint insert_loop (rounds : nat) (l name : list Z) (child ty : Z) (off : nat) : option (exec (result (list Z) Errno)) :=
  match rounds with
  | O => None
  | S rounds =>
      if (off <? BLOCK_DATA_SIZE)%nat then
        let de := read_entry l off in
        if unused de then insert_loop rounds l name child ty off
        else
          let free_space := u64 (Z.of_nat (entry_len de) - Z.of_nat (used_size de)) in
          if Z.of_nat (required_len name) <=? free_space then
            Some (let! l := split_entry l off de name child ty in Ret (Ok l))
          else insert_loop rounds l name child ty (off + entry_len de)
      else Some (Ret (Err ENOSPC))
  end.

Definition try_insert_to_existing_block (l name : list Z) (child ty : Z) : option (exec (result (list Z) Errno)) :=
  insert_loop ROUNDS l name child ty 0.

Definition ext4_dir_tail : list Z := [0; 0; 0; 0; 12; 0; 0; 0xDE; 0; 0; 0; 0].

Definition insert_to_new_block (l name : list Z) (inode ty : Z) : exec (list Z) :=
  let! de := write_entry BLOCK_DATA_SIZE inode name ty in
  let! l := copy_to_slice l 0 de in
  Ret (Disk.copy_at l BLOCK_DATA_SIZE ext4_dir_tail).

Definition ext4_dir_get_csum (s : Ext4Superblock) (de : Ext4DirEntry) (l : list Z) (ino_gen : Z) : exec Z :=
  let! c1 := Crc.ext4_crc32c Crc.EXT4_CRC32_INIT (uuid s) (u32 (Z.of_nat (length (uuid s)))) in
  let! c2 := Crc.ext4_crc32c c1 (le_bytes 4 (de_inode de)) 4 in
  let! c3 := Crc.ext4_crc32c c2 (le_bytes 4 ino_gen) 4 in
  Crc.ext4_crc32c c3 (take BLOCK_DATA_SIZE l) (Z.of_nat BLOCK_DATA_SIZE).

Definition dir_set_csum (s : Ext4Superblock) (l : list Z) (ino_gen : Z) : exec (list Z) :=
  let! csum := ext4_dir_get_csum s (read_entry l 0) l ino_gen in
  Ret (set_field 4092 4 l csum).

(** [while (offset + de_len) < pos] *)
Fixpoint pred_loop (rounds : nat) (l : list Z) (pos off de_len : nat) : option (nat * nat) :=
  match rounds with
  | O => None
  | S rounds =>
      if (off + de_len <? pos)%nat then pred_loop rounds l pos (off + de_len) (entry_len (read_entry l (off + de_len)))
      else Some (off, de_len)
  end.

(** The block after the entry found at [pos] is removed; the predecessor takes over its length. *)
Definition remove_in_block (rounds : nat) (l : list Z) (found : Ext4DirEntry) (pos : nat) : option (exec (list Z)) :=
  let l := set_field pos 4 l 0 in
  if (pos =? 0)%nat then Some (Ret l)
  else match pred_loop rounds l pos 0 (entry_len (read_entry l 0)) with
       | None => None
       | Some (off, de_len) =>
           Some (if (de_len + off =? pos)%nat
                 then Ret (set_field (off + 4) 2 l (u16 (Z.of_nat de_len + Z.of_nat (entry_len found)))) else Panic)
       end.
End blocks.

(** *** A block as a chain of records *)

Record Rec := mkRec { r_ino : Z; r_len : nat; r_type : Z; r_name : list Z }.

Definition rec_ok (r : Rec) : Prop :=
  0 ≤ r_ino r < 2 ^ 32 ∧ 0 ≤ r_type r < 256 ∧ (length (r_name r) ≤ 255)%nat ∧ (8 + length (r_name r) ≤ r_len r)%nat ∧ (r_len r mod 4 = 0)%nat.

(** The record [r] is stored at [off]. *)
Record rec_at (l : list Z) (off : nat) (r : Rec) : Prop := mkRecAt {
  ra_ino : of_le (slice off 4 l) = r_ino r;
  ra_len : of_le (slice (off + 4) 2 l) = Z.of_nat (r_len r);
  ra_name_len : of_le (slice (off + 6) 1 l) = Z.of_nat (length (r_name r));
  ra_type : of_le (slice (off + 7) 1 l) = r_type r;
  ra_name : slice (off + 8) (length (r_name r)) l = r_name r
}.

(** The record starts where the loops still look, and no byte of its name is among the four of the checksum. *)
Definition fits (off : nat) (r : Rec) : Prop :=
  (off < BLOCK_DATA_SIZE ∧ off + 8 + length (r_name r) ≤ 4092 ∧ off + r_len r ≤ 4096)%nat.

(** The records end at the checksum tail, or at the end of a block that has none, or in between. *)
Fixpoint chain (l : list Z) (off : nat) (rs : list Rec) : Prop :=
  match rs with
  | [] => (BLOCK_DATA_SIZE ≤ off ≤ 4096)%nat
  | r :: rs => rec_ok r ∧ rec_at l off r ∧ fits off r ∧ chain l (off + r_len r) rs
  end.

Lemma field_drop (l junk : list Z) off o n : (off + o + n ≤ length l)%nat → field o n (drop off l ++ junk) = of_le (slice (off + o) n l).
Proof.
  intros Hl. unfold field, slice. f_equal. rewrite drop_app_le by (rewrite length_drop; lia). rewrite drop_drop.
  rewrite take_app_le by (rewrite length_drop; lia). done.
Qed.

Lemma read_entry_at junk l off r : length l = 4096%nat → rec_ok r → rec_at l off r → fits off r →
  de_inode (read_entry junk l off) = r_ino r ∧ entry_len (read_entry junk l off) = r_len r ∧
  name_len (read_entry junk l off) = length (r_name r) ∧ inode_type (read_entry junk l off) = r_type r ∧
  take (length (r_name r)) (de_name (read_entry junk l off)) = r_name r.
Proof.
  intros Hl (Hi & Ht & Hn & Hlen & _) [A1 A2 A3 A4 A5] (_ & _ & Hoff).
  unfold read_entry. cbn [de_inode entry_len name_len inode_type de_name].
  rewrite !field_drop, Nat.add_0_r, A1, A2, A3, A4, !Nat2Z.id by lia. splits; try done.
  rewrite <- A5 at 2. unfold slice. rewrite take_take, Nat.min_l by lia. rewrite drop_app_le by (rewrite length_drop; lia).
  rewrite drop_drop, take_app_le by (rewrite length_drop; lia). done.
Qed.

(** A record is a function of its first bytes. *)
Lemma rec_at_same l l' off r : (∀ o n, (o + n ≤ 8 + length (r_name r))%nat → slice (off + o) n l' = slice (off + o) n l) →
  rec_at l off r → rec_at l' off r.
Proof.
  intros Hs [A1 A2 A3 A4 A5]. pose proof (Hs 0%nat 4%nat ltac:(lia)) as H0. rewrite Nat.add_0_r in H0.
  constructor; [by rewrite H0|by rewrite (Hs 4%nat 2%nat) by lia|by rewrite (Hs 6%nat 1%nat) by lia|by rewrite (Hs 7%nat 1%nat) by lia|].
  by rewrite (Hs 8%nat (length (r_name r))) by lia.
Qed.

Lemma chain_same l l' rs : ∀ off, (∀ o n, (off ≤ o)%nat → (o + n ≤ 4092)%nat → slice o n l' = slice o n l) → chain l off rs → chain l' off rs.
Proof.
  induction rs as [|r rs IH]; intros off Hs; [done|]. intros (Hok & Hat & Hle & Hc). split; [done|]. destruct Hok as (_ & _ & _ & Hlen & _), Hle as (? & ? & ?).
  splits; [|done|].
  - eapply rec_at_same; [|done]. intros o n Ho. apply Hs; lia.
  - apply IH; [|done]. intros o n Ho. apply Hs. lia.
Qed.

(** The bytes up to [off] hold the first records of a chain. *)
Fixpoint prefix (l : list Z) (from : nat) (rs : list Rec) : nat → Prop := fun off =>
  match rs with
  | [] => off = from
  | r :: rs => rec_ok r ∧ rec_at l from r ∧ fits from r ∧ prefix l (from + r_len r) rs off
  end.

Lemma prefix_le l rs : ∀ from off, prefix l from rs off → (from ≤ off)%nat.
Proof. induction rs as [|r rs IH]; intros from off; cbn; [lia|]. intros (_ & _ & _ & Hp%IH). lia. Qed.

Lemma chain_app l pre post : ∀ from, chain l from (pre ++ post) ↔ ∃ off, prefix l from pre off ∧ chain l off post.
Proof.
  induction pre as [|r pre IH]; intros from; cbn; [naive_solver|]. setoid_rewrite IH. naive_solver.
Qed.

(** Where the records of a block end. *)
Definition total_len (rs : list Rec) : nat := sum_list_with r_len rs.

Lemma chain_end l rs : ∀ off, chain l off rs → (BLOCK_DATA_SIZE ≤ off + total_len rs ≤ 4096)%nat.
Proof.
  unfold total_len. induction rs as [|r rs IH]; intros off; cbn [chain sum_list_with]; [lia|]. intros (_ & _ & _ & Hc%IH). lia.
Qed.

Lemma prefix_end l rs : ∀ from off, prefix l from rs off → off = (from + total_len rs)%nat.
Proof.
  unfold total_len. induction rs as [|r rs IH]; intros from off; cbn [prefix sum_list_with]; [lia|]. intros (_ & _ & _ & Hp%IH). lia.
Qed.

Lemma prefix_same l l' rs off : ∀ from, (∀ o n, (o + n ≤ off)%nat → slice o n l' = slice o n l) → prefix l from rs off → prefix l' from rs off.
Proof.
  induction rs as [|r rs IH]; intros from Hs; [done|]. intros (Hok & Hat & Hfit & Hp). pose proof (prefix_le _ _ _ _ Hp). destruct Hok as (? & ? & ? & Hlen & ?).
  split; [done|]. split; [|split; [done|by apply IH]]. eapply rec_at_same; [|done]. intros o n Ho. apply Hs. lia.
Qed.

Lemma used_size_align de : used_size de = align_len (name_len de).
Proof.
  unfold used_size, align_len, actual_len. pose proof (Nat.div_mod_eq (name_len de) 4). pose proof (Nat.mod_upper_bound (name_len de) 4).
  set (q := (name_len de / 4)%nat) in *. set (m := (name_len de mod 4)%nat) in *.
  replace (8 + name_len de + 3)%nat with (m + 3 + (q + 2) * 4)%nat by lia. rewrite Nat.div_add by lia.
  clearbody m q. destruct (Nat.eqb_spec m 0) as [->|Hm]; cbn [negb]; [change ((0 + 3) / 4)%nat with 0%nat; lia|].
  assert ((m + 3) / 4 = 1)%nat as -> by (symmetry; apply (Nat.div_unique _ _ _ (m - 1)); lia). lia.
Qed.

Lemma required_len_align name : required_len name = align_len (length name).
Proof.
  unfold required_len, align_len, actual_len. pose proof (Nat.div_mod_eq (8 + length name) 4). pose proof (Nat.mod_upper_bound (8 + length name) 4).
  set (q := ((8 + length name) / 4)%nat) in *. set (m := ((8 + length name) mod 4)%nat) in *.
  replace (8 + length name + 3)%nat with (m + 3 + q * 4)%nat by lia. rewrite Nat.div_add by lia.
  clearbody m q. destruct (Nat.eqb_spec m 0) as [->|Hm]; cbn [negb]; [change ((0 + 3) / 4)%nat with 0%nat; lia|].
  assert ((m + 3) / 4 = 1)%nat as -> by (symmetry; apply (Nat.div_unique _ _ _ (m - 1)); lia). lia.
Qed.

Lemma align_len_bounds n : (8 + n ≤ align_len n ≤ 11 + n)%nat ∧ (align_len n mod 4 = 0)%nat.
Proof.
  unfold align_len, actual_len. split; [|by apply Nat.Div0.mod_mul].
  pose proof (Nat.div_mod_eq (8 + n + 3) 4). pose proof (Nat.mod_upper_bound (8 + n + 3) 4). lia.
Qed.

Lemma slice_take {A} (m o n : nat) (l : list A) : (o + n ≤ m)%nat → slice o n (take m l) = slice o n l.
Proof.
  intros Hm. apply list_eq. intros k. rewrite !slice_lookup. case_decide; [|done]. by rewrite lookup_take_lt by lia.
Qed.

Lemma of_le_one x : of_le [x] = x.
Proof. unfold of_le. cbn. by rewrite Z.lor_0_r. Qed.

(** Where the bytes of an entry are written, its record is stored. *)
Lemma rec_at_entry l off de r : (∀ o n, (o + n ≤ align_len (name_len de))%nat → slice (off + o) n l = slice o n (entry_bytes de)) →
  rec_ok r → Z.of_nat (r_len r) < 2 ^ 16 → de_inode de = r_ino r → entry_len de = r_len r → name_len de = length (r_name r) →
  inode_type de = r_type r → take (length (r_name r)) (de_name de) = r_name r → rec_at l off r.
Proof.
  intros Hs (Hi & Ht & Hn & Hlen & Hmod) H16 E1 E2 E3 E4 E5. pose proof (align_len_bounds (name_len de)) as [Ha _]. rewrite E3 in Ha.
  assert (∀ o n, (o + n ≤ 8 + length (r_name r))%nat → slice (off + o) n l = slice o n
    (le_bytes 4 (r_ino r) ++ le_bytes 2 (Z.of_nat (r_len r)) ++ [Z.of_nat (length (r_name r))] ++ [r_type r] ++ de_name de ++ replicate (256 - length (de_name de)) 0)) as Hs2.
  { intros o n Ho. rewrite Hs by (rewrite E3; lia). unfold entry_bytes. rewrite slice_take by (rewrite E3; lia). by rewrite E1, E2, E3, E4. }
  set (tl := de_name de ++ _) in *. pose proof (Hs2 0%nat 4%nat ltac:(lia)) as H0. rewrite Nat.add_0_r in H0. constructor.
  - rewrite H0. unfold slice. rewrite drop_0, take_app_length' by done. rewrite of_le_bytes by lia. by apply wrap_small.
  - rewrite Hs2 by lia. rewrite (slice_app (le_bytes 4 (r_ino r)) (le_bytes 2 _)) by done. rewrite of_le_bytes by lia. apply wrap_small. lia.
  - rewrite Hs2 by lia. rewrite app_assoc, slice_app by done. apply of_le_one.
  - rewrite Hs2 by lia. rewrite app_assoc, (app_assoc _ [_] ([_] ++ _)), slice_app by done. apply of_le_one.
  - rewrite Hs2 by lia. rewrite !app_assoc. unfold slice. rewrite drop_app_length' by done. subst tl.
    rewrite take_app_le; [done|]. rewrite <- E5 at 1. rewrite length_take. lia.
Qed.

Lemma entry_bytes_length de : (name_len de ≤ 255)%nat → (length (de_name de) ≤ 255)%nat → length (entry_bytes de) = align_len (name_len de).
Proof.
  intros Hn Hd. unfold entry_bytes. rewrite length_take, !length_app, length_replicate.
  pose proof (align_len_bounds (name_len de)) as [? Hm]. pose proof (Nat.div_mod_eq (align_len (name_len de)) 4).
  change (length (le_bytes 4 (de_inode de))) with 4%nat. change (length (le_bytes 2 (Z.of_nat (entry_len de)))) with 2%nat. cbn [length]. lia.
Qed.

Definition room (r : Rec) (name : list Z) : Prop := (align_len (length (r_name r)) + align_len (length name) ≤ r_len r)%nat.
#[global] Instance room_dec r name : Decision (room r name).
Proof. unfold room. apply _. Defined.

Definition shrunk (r : Rec) : Rec := mkRec (r_ino r) (align_len (length (r_name r))) (r_type r) (r_name r).
Definition added (r : Rec) (child ty : Z) (name : list Z) : Rec := mkRec child (r_len r - align_len (length (r_name r))) ty name.

Lemma dir_split_ok r child ty name : rec_ok r → (length name ≤ 255)%nat → 0 ≤ child < 2 ^ 32 → 0 ≤ ty < 256 → room r name →
  rec_ok (shrunk r) ∧ rec_ok (added r child ty name).
Proof.
  intros (Hi & Ht & Hn & Hlen & Hmod) Hname Hc Hty Hroom. unfold room in Hroom.
  pose proof (align_len_bounds (length (r_name r))) as [Ha1 Ham1]. pose proof (align_len_bounds (length name)) as [Ha2 _].
  unfold rec_ok, shrunk, added. cbn [r_ino r_type r_name r_len]. set (sz := align_len (length (r_name r))) in *. clearbody sz.
  split; (split; [lia|]); (split; [lia|]); (split; [lia|]); (split; [lia|]); [done|].
  pose proof (Nat.div_mod_eq (r_len r) 4). pose proof (Nat.div_mod_eq sz 4).
  replace (r_len r - sz)%nat with ((r_len r / 4 - sz / 4) * 4)%nat by lia. by apply Nat.Div0.mod_mul.
Qed.

(** Splitting a record with enough room. *)
Lemma dir_split_spec junk l off r name child ty : length l = 4096%nat → rec_ok r → rec_at l off r → fits off r →
  (length name ≤ 255)%nat → 0 ≤ child < 2 ^ 32 → 0 ≤ ty < 256 → room r name →
  ∃ l', split_entry l off (read_entry junk l off) name child ty = Ret l' ∧ length l' = 4096%nat ∧
    (∀ o n, (o + n ≤ off ∨ off + r_len r ≤ o)%nat → slice o n l' = slice o n l) ∧
    rec_at l' off (shrunk r) ∧ rec_at l' (off + align_len (length (r_name r))) (added r child ty name).
Proof.
  intros Hl Hok Hat Hoff Hname Hchild Hty Hroom. destruct (dir_split_ok r child ty name) as [Hok1 Hok2]; [done..|]. destruct (read_entry_at junk l off r Hl Hok Hat Hoff) as (E1 & E2 & E3 & E4 & E5).
  destruct Hok as (Hi & Ht & Hn & Hlen & Hmod), Hoff as (_ & _ & Hoff). unfold room in Hroom.
  pose proof (align_len_bounds (length (r_name r))) as [Ha1 Ham1]. pose proof (align_len_bounds (length name)) as [Ha2 Ham2].
  set (de := read_entry junk l off) in *. assert (length (de_name de) ≤ 255)%nat as Hdn by (unfold de, read_entry, slice; cbn [de_name]; rewrite length_take; lia).
  unfold split_entry. rewrite used_size_align, E2, E3. set (sz := align_len (length (r_name r))) in *.
  rewrite u64_small by lia. unfold u16. rewrite wrap_small by lia. unfold write_entry. rewrite (proj2 (Nat.leb_le _ _)) by done. cbn [exec_bind].
  set (de1 := mkEntry (de_inode de) sz (length (r_name r)) (inode_type de) (de_name de)).
  set (de2 := mkEntry child _ (length name) ty (name ++ _)).
  assert (length (entry_bytes de1) = sz) as Hb1 by (by apply entry_bytes_length).
  assert (length (entry_bytes de2) = align_len (length name)) as Hb2.
  { apply entry_bytes_length; [done|]. cbn [de2 de_name]. rewrite length_app, length_replicate. lia. }
  unfold copy_to_slice. cbn [de1 de2 name_len]. fold sz. rewrite Hl, (proj2 (Nat.leb_le _ 4096)) by lia. cbn [exec_bind].
  set (l1 := Disk.copy_at l off (entry_bytes de1)). assert (length l1 = 4096%nat) as Hl1 by (unfold l1; rewrite Disk.copy_at_length; lia).
  rewrite Hl1, (proj2 (Nat.leb_le _ 4096)) by lia.
  eexists. split; [reflexivity|]. set (l2 := Disk.copy_at l1 (off + sz) (entry_bytes de2)).
  splits.
  - unfold l2. rewrite Disk.copy_at_length; lia.
  - intros o n Ho. unfold l2. rewrite slice_copy_out by lia. unfold l1. by rewrite slice_copy_out by lia.
  - apply (rec_at_entry l2 off de1 (shrunk r)); try done; cbn [shrunk r_len]; [|fold sz; lia].
    intros o n Ho. cbn [de1 name_len] in Ho. fold sz in Ho. unfold l2. rewrite slice_copy_out by lia. unfold l1. rewrite slice_copy_in by lia.
    f_equal. lia.
  - apply (rec_at_entry l2 (off + sz) de2 (added r child ty name)); try done; cbn [added r_len]; fold sz.
    + intros o n Ho. cbn [de2 name_len] in Ho. unfold l2. rewrite slice_copy_in by lia. f_equal. lia.
    + lia.
    + cbn [de2 entry_len]. lia.
    + cbn [de2 de_name added r_name]. by rewrite take_app_length.
Qed.

(** The first live record with the name, its position and the position of the record before it. *)
Fixpoint find_rec (rs : list Rec) (name : list Z) (off prev : nat) : option (Rec * nat * nat) :=
  match rs with
  | [] => None
  | r :: rs => if decide (r_ino r ≠ 0 ∧ r_name r = name) then Some (r, off, prev) else find_rec rs name (off + r_len r) off
  end.

Lemma chain_length l rs : ∀ off, chain l off rs → (8 * length rs + off ≤ 4096)%nat.
Proof. induction rs as [|r rs IH]; intros off; cbn [chain length]; [lia|]. intros ((_ & _ & _ & ? & _) & _ & _ & Hc%IH). lia. Qed.

Lemma chain_enough l rs : chain l 0 rs → (length rs < ROUNDS)%nat.
Proof. intros Hc%chain_length. unfold ROUNDS. lia. Qed.

Lemma rounds_enough : (BLOCK_DATA_SIZE < 0 + ROUNDS)%nat ∧ (0 < ROUNDS)%nat.
Proof. unfold BLOCK_DATA_SIZE, ROUNDS. lia. Qed.
#[local] Opaque ROUNDS.

Lemma match_entry junk l off r name : length l = 4096%nat → rec_ok r → rec_at l off r → fits off r →
  negb (unused (read_entry junk l off)) && compare_name (read_entry junk l off) name = bool_decide (r_ino r ≠ 0 ∧ r_name r = name).
Proof.
  intros Hl Hok Hat Hoff. destruct (read_entry_at junk l off r Hl Hok Hat Hoff) as (E1 & E2 & E3 & E4 & E5).
  unfold unused, compare_name. rewrite E1, E3. apply eq_bool_prop_intro. rewrite bool_decide_spec, !andb_True, negb_True, !Is_true_true.
  rewrite Z.eqb_eq, Nat.eqb_eq, bool_decide_eq_true. split.
  - intros [H1 [H2 H3]]. split; [done|]. by rewrite <- E5, H2.
  - intros [H1 <-]. done.
Qed.

Lemma find_loop_spec junk l name : length l = 4096%nat → ∀ rs rounds off prev, chain l off rs → (length rs < rounds)%nat →
  find_loop junk rounds l name off prev =
  Some (match find_rec rs name off prev with Some (_, o, p) => Ok (read_entry junk l o, o, p) | None => Err ENOENT end).
Proof.
  intros Hl. induction rs as [|r rs IH]; intros [|rounds] off prev Hc Hr; cbn [length] in Hr; try lia; cbn [find_loop].
  - cbn in Hc. by rewrite (proj2 (Nat.ltb_ge _ _)) by lia.
  - destruct Hc as (Hok & Hat & Hle & Hc). rewrite (proj2 (Nat.ltb_lt _ _)) by apply Hle.
    rewrite (match_entry junk l off r name) by done. cbn [find_rec].
    destruct (decide _) as [Hm|Hm]; [by rewrite bool_decide_true by done|]. rewrite bool_decide_false by done.
    destruct (read_entry_at junk l off r Hl Hok Hat Hle) as (_ & -> & _). apply IH; [done|lia].
Qed.

(** More rounds change nothing: after [ROUNDS] of them the loop has ended, or it never does. *)
Lemma find_stuck junk l name off : entry_len (read_entry junk l off) = 0%nat → (off < BLOCK_DATA_SIZE)%nat →
  negb (unused (read_entry junk l off)) && compare_name (read_entry junk l off) name = false → ∀ k prev, find_loop junk k l name off prev = None.
Proof.
  intros H0 Hoff Hm. induction k as [|k IH]; intros prev; [done|]. cbn [find_loop]. by rewrite (proj2 (Nat.ltb_lt _ _)), Hm, H0, Nat.add_0_r by done.
Qed.

Lemma find_rounds junk l name : ∀ k k' off prev, (BLOCK_DATA_SIZE < off + k)%nat → (0 < k ≤ k')%nat →
  find_loop junk k' l name off prev = find_loop junk k l name off prev.
Proof.
  induction k as [|k IH]; intros [|k'] off prev Hk Hle; try lia; cbn [find_loop]. destruct (Nat.ltb_spec off BLOCK_DATA_SIZE) as [Hoff|]; [|done].
  destruct (negb _ && _) eqn:Hm; [done|]. destruct (Nat.eq_dec (entry_len (read_entry junk l off)) 0) as [H0|H0].
  - rewrite H0, Nat.add_0_r. by rewrite !(find_stuck junk l name off).
  - apply IH; lia.
Qed.

(** What a chain holds under a name. *)
Fixpoint held (rs : list Rec) (name : list Z) : option (Z * Z) :=
  match rs with
  | [] => None
  | r :: rs => if decide (r_ino r ≠ 0 ∧ r_name r = name) then Some (r_ino r, r_type r) else held rs name
  end.

Lemma held_app rs1 rs2 name : held (rs1 ++ rs2) name = match held rs1 name with Some x => Some x | None => held rs2 name end.
Proof. induction rs1 as [|r rs1 IH]; cbn [app held]; [done|]. by case_decide. Qed.

Lemma find_rec_held junk l rs name : length l = 4096%nat → ∀ off prev, chain l off rs →
  match find_rec rs name off prev with
  | Some (_, o, _) => held rs name = Some (de_inode (read_entry junk l o), inode_type (read_entry junk l o))
  | None => held rs name = None
  end.
Proof.
  intros Hl. induction rs as [|r rs IH]; intros off prev; [done|]. intros (Hok & Hat & Hle & Hc). cbn [find_rec held].
  case_decide; [|by apply IH]. by destruct (read_entry_at junk l off r Hl Hok Hat Hle) as (-> & _ & _ & -> & _).
Qed.

(** The inode number and type found under a name. *)
Definition inode_found (o : option (result (Ext4DirEntry * nat * nat) Errno)) : option (result (Z * Z) Errno) :=
  match o with
  | Some (Ok (de, _, _)) => Some (Ok (de_inode de, inode_type de))
  | Some (Err e) => Some (Err e)
  | None => None
  end.

Definition answer (o : option (Z * Z)) : option (result (Z * Z) Errno) := Some (match o with Some x => Ok x | None => Err ENOENT end).

Lemma find_held junk l rs name : length l = 4096%nat → chain l 0 rs → inode_found (dir_find_in_block junk l name) = answer (held rs name).
Proof.
  intros Hl Hc. unfold dir_find_in_block. rewrite (find_loop_spec junk l name Hl rs) by (by try apply (chain_enough l)).
  pose proof (find_rec_held junk l rs name Hl 0 0 Hc) as Hh. destruct (find_rec rs name 0 0) as [[[r o] p]|]; by rewrite Hh.
Qed.

Lemma find_enough junk l name k : (ROUNDS ≤ k)%nat → find_loop junk k l name 0 0 = dir_find_in_block junk l name.
Proof. intros Hk. destruct rounds_enough. by apply find_rounds. Qed.

(** *** Adding an entry to a block *)

Lemma align_fits r : rec_ok r → (align_len (length (r_name r)) ≤ r_len r)%nat.
Proof.
  intros (_ & _ & _ & Hlen & Hmod). pose proof (align_len_bounds (length (r_name r))) as [Ha Ham].
  pose proof (Nat.div_mod_eq (r_len r) 4). pose proof (Nat.div_mod_eq (align_len (length (r_name r))) 4). lia.
Qed.

Lemma insert_step junk k l off r name child ty : length l = 4096%nat → rec_ok r → rec_at l off r → fits off r →
  r_ino r ≠ 0 →
  insert_loop junk (S k) l name child ty off =
  if decide (room r name) then Some (let! l' := split_entry l off (read_entry junk l off) name child ty in Ret (Ok l'))
  else insert_loop junk k l name child ty (off + r_len r).
Proof.
  intros Hl Hok Hat Hoff Hlive. pose proof (align_fits r Hok) as Hal. destruct (read_entry_at junk l off r Hl Hok Hat Hoff) as (E1 & E2 & E3 & _).
  pose proof Hok as (_ & _ & _ & Hlen & _). destruct Hoff as (Hoff & _ & Hoff'). cbn [insert_loop]. rewrite (proj2 (Nat.ltb_lt _ _)) by done.
  unfold unused. rewrite E1, (proj2 (Z.eqb_neq _ _)) by done. rewrite used_size_align, required_len_align, E2, E3, u64_small by lia.
  unfold room. case_decide; [by rewrite (proj2 (Z.leb_le _ _)) by lia|by rewrite (proj2 (Z.leb_gt _ _)) by lia].
Qed.

Lemma insert_skip junk l name child ty pre : length l = 4096%nat → ∀ k from off, prefix l from pre off →
  Forall (fun r => r_ino r ≠ 0 ∧ ¬ room r name) pre →
  insert_loop junk (length pre + k) l name child ty from = insert_loop junk k l name child ty off.
Proof.
  intros Hl. induction pre as [|r pre IH]; intros k from off Hp Hf; [by cbn in Hp; subst|].
  destruct Hp as (Hok & Hat & Hfit & Hp). apply Forall_cons in Hf as [[Hlive Hroom] Hf].
  cbn [length Nat.add]. rewrite (insert_step junk _ l from r) by done.
  rewrite decide_False by done. by apply IH.
Qed.

Lemma insert_stuck junk l name child ty off : (off < BLOCK_DATA_SIZE)%nat →
  unused (read_entry junk l off) = true ∨ entry_len (read_entry junk l off) = 0%nat ∧
    (Z.of_nat (required_len name) <=? u64 (Z.of_nat (entry_len (read_entry junk l off)) - Z.of_nat (used_size (read_entry junk l off)))) = false →
  ∀ k, insert_loop junk k l name child ty off = None.
Proof.
  intros Hoff Hs. induction k as [|k IH]; [done|]. cbn [insert_loop]. rewrite (proj2 (Nat.ltb_lt _ _)) by done.
  destruct (unused _) eqn:Hu; [done|]. destruct Hs as [|[H0 ->]]; [done|]. by rewrite H0, Nat.add_0_r.
Qed.

Lemma insert_rounds junk l name child ty : ∀ k k' off, (BLOCK_DATA_SIZE < off + k)%nat → (0 < k ≤ k')%nat →
  insert_loop junk k' l name child ty off = insert_loop junk k l name child ty off.
Proof.
  induction k as [|k IH]; intros [|k'] off Hk Hle; try lia; cbn [insert_loop]. destruct (Nat.ltb_spec off BLOCK_DATA_SIZE) as [Hoff|]; [|done].
  destruct (unused _) eqn:Hu; [by rewrite !(insert_stuck junk l name child ty off) by auto|].
  destruct (_ <=? _) eqn:Hr; [done|]. destruct (Nat.eq_dec (entry_len (read_entry junk l off)) 0) as [H0|H0].
  - rewrite H0, Nat.add_0_r. by rewrite !(insert_stuck junk l name child ty off) by auto.
  - apply IH; lia.
Qed.

Lemma insert_enough junk l name child ty k : (ROUNDS ≤ k)%nat → insert_loop junk k l name child ty 0 = try_insert_to_existing_block junk l name child ty.
Proof. intros Hk. destruct rounds_enough. by apply insert_rounds. Qed.

(** Behind the two entries there is as much room as the block's records go beyond the place of the checksum tail. *)
Definition roomy (rs : list Rec) (r : Rec) (name : list Z) : Prop :=
  (align_len (length (r_name r)) + align_len (length name) + (total_len rs - BLOCK_DATA_SIZE) ≤ r_len r)%nat.

Lemma roomy_fits l pre r post name off : chain l 0 (pre ++ r :: post) → prefix l 0 pre off → rec_ok r → fits off r → roomy (pre ++ r :: post) r name →
  fits off (shrunk r) ∧ ∀ child ty, fits (off + align_len (length (r_name r))) (added r child ty name).
Proof.
  intros Hc%chain_end Hp%prefix_end Hok (H1 & H2 & H3) Hroom. pose proof (align_fits r Hok). unfold roomy in Hroom.
  pose proof (align_len_bounds (length name)) as [? _]. assert (total_len (pre ++ r :: post) = total_len pre + r_len r + total_len post)%nat as Et.
  { unfold total_len. rewrite sum_list_with_app. cbn [sum_list_with]. lia. }
  unfold fits, BLOCK_DATA_SIZE in *. cbn [shrunk added r_name r_len]. set (sz := align_len (length (r_name r))) in *. clearbody sz. split; [lia|]. intros _ _. lia.
Qed.

Lemma dir_insert_ok junk l pre r post name child ty : length l = 4096%nat → chain l 0 (pre ++ r :: post) →
  Forall (fun r => r_ino r ≠ 0 ∧ ¬ room r name) pre → r_ino r ≠ 0 → room r name → roomy (pre ++ r :: post) r name →
  (length name ≤ 255)%nat → 0 ≤ child < 2 ^ 32 → 0 ≤ ty < 256 →
  ∃ l', try_insert_to_existing_block junk l name child ty = Some (Ret (Ok l')) ∧ length l' = 4096%nat ∧
    chain l' 0 (pre ++ shrunk r :: added r child ty name :: post).
Proof.
  intros Hl Hc Hpre Hlive Hroom Hspare Hname Hchild Hty. pose proof (chain_enough l _ Hc) as Hr. rewrite length_app in Hr. cbn [length] in Hr.
  pose proof Hc as (off & Hp & Hok & Hat & Hfit & Hpost)%chain_app. destruct (roomy_fits l pre r post name off) as [Hf1 Hf2]; [done..|].
  unfold try_insert_to_existing_block. replace ROUNDS with (length pre + S (ROUNDS - length pre - 1))%nat by lia.
  rewrite (insert_skip junk l name child ty pre Hl _ 0 off) by done. rewrite (insert_step junk _ l off r) by done. rewrite decide_True by done.
  destruct (dir_split_spec junk l off r name child ty) as (l' & -> & Hl' & Hsame & Hat1 & Hat2); [done..|].
  destruct (dir_split_ok r child ty name) as [Hok1 Hok2]; [done..|]. pose proof (align_fits r Hok) as Hal.
  exists l'. split; [done|]. split; [done|]. apply chain_app. exists off. split.
  { eapply prefix_same; [|exact Hp]. intros o n Ho. apply Hsame. by left. }
  cbn [chain]. split; [done|]. split; [done|]. split; [done|]. split; [done|]. split; [done|]. split; [by apply Hf2|].
  cbn [shrunk added r_len]. replace (off + _ + _)%nat with (off + r_len r)%nat by lia. eapply chain_same; [|exact Hpost]. intros o n Ho _. apply Hsame. by right.
Qed.

Lemma insert_full junk l rs name child ty : length l = 4096%nat → chain l 0 rs → Forall (fun r => r_ino r ≠ 0 ∧ ¬ room r name) rs →
  try_insert_to_existing_block junk l name child ty = Some (Ret (Err ENOSPC)).
Proof.
  intros Hl Hc Hf. pose proof (chain_enough l _ Hc) as Hr. rewrite <- (app_nil_r rs) in Hc. apply chain_app in Hc as (off & Hp & Hend).
  unfold try_insert_to_existing_block. replace ROUNDS with (length rs + S (ROUNDS - length rs - 1))%nat by lia.
  rewrite (insert_skip junk l name child ty rs Hl _ 0 off) by done. cbn in Hend. cbn [insert_loop]. by rewrite (proj2 (Nat.ltb_ge _ _)) by lia.
Qed.

Lemma first_room rs name : Forall (fun r => r_ino r ≠ 0) rs →
  (∃ pre r post, rs = pre ++ r :: post ∧ Forall (fun r => r_ino r ≠ 0 ∧ ¬ room r name) pre ∧ r_ino r ≠ 0 ∧ room r name) ∨
  Forall (fun r => r_ino r ≠ 0 ∧ ¬ room r name) rs.
Proof.
  induction 1 as [|r rs Hlive Hf IH]; [by right|]. destruct (decide (room r name)).
  { left. by exists [], r, rs. }
  destruct IH as [(pre & r' & post & -> & H1 & H2 & H3)|IH]; [left|right; by constructor].
  exists (r :: pre), r', post. split; [done|]. split; [by constructor|done].
Qed.

Lemma held_split pre r post child ty name other : child ≠ 0 →
  held (pre ++ shrunk r :: added r child ty name :: post) other =
  if decide (other = name) then match held (pre ++ [r]) name with Some x => Some x | None => Some (child, ty) end else held (pre ++ r :: post) other.
Proof.
  intros Hchild. rewrite !held_app. cbn [held shrunk added r_ino r_name r_type].
  destruct (decide (other = name)) as [->|Ho].
  - destruct (held pre name); [done|]. case_decide; [done|]. by rewrite decide_True by done.
  - destruct (held pre other); [done|]. case_decide; [done|]. rewrite decide_False; [done|]. naive_solver.
Qed.

Lemma insert_new junk l rs name child ty : length l = 4096%nat → chain l 0 rs → Forall (fun r => r_ino r ≠ 0) rs →
  held rs name = None → (length name ≤ 255)%nat → 0 < child < 2 ^ 32 → 0 ≤ ty < 256 → Exists (fun r => room r name) rs →
  (∀ r, r ∈ rs → room r name → roomy rs r name) →
  ∃ l' rs', try_insert_to_existing_block junk l name child ty = Some (Ret (Ok l')) ∧ length l' = 4096%nat ∧
    chain l' 0 rs' ∧ Forall (fun r => r_ino r ≠ 0) rs' ∧
    ∀ other, held rs' other = if decide (other = name) then Some (child, ty) else held rs other.
Proof.
  intros Hl Hc Hlive Hnew Hname Hchild Hty Hex Hspare. destruct (first_room rs name Hlive) as [(pre & r & post & -> & Hpre & Hr & Hroom)|Hnone].
  - destruct (dir_insert_ok junk l pre r post name child ty) as (l' & Hi & Hl' & Hc'); [done..|apply Hspare; [apply elem_of_app; right; left|done]|done|lia|done|].
    assert (held (pre ++ [r]) name = None) as Hn. { rewrite held_app in Hnew |- *. destruct (held pre name); [done|]. cbn [held] in *. by case_decide. }
    eexists l', _. split; [done|]. split; [done|]. split; [exact Hc'|]. split.
    { apply Forall_app in Hlive as [H1 H2]. apply Forall_cons in H2 as [_ H2]. apply Forall_app. split; [done|]. constructor; [done|]. constructor; [cbn; lia|done]. }
    intros other. rewrite held_split by lia. by rewrite Hn.
  - exfalso. apply Exists_exists in Hex as (r & Hin & Hroom). by destruct (proj1 (Forall_forall _ _) Hnone r Hin).
Qed.

Lemma insert_none junk l rs name child ty : length l = 4096%nat → chain l 0 rs → Forall (fun r => r_ino r ≠ 0) rs → ¬ Exists (fun r => room r name) rs →
  try_insert_to_existing_block junk l name child ty = Some (Ret (Err ENOSPC)).
Proof.
  intros Hl Hc Hlive Hno. eapply insert_full; [done|exact Hc|]. apply not_Exists_Forall in Hno; [|apply _]. apply Forall_and. done.
Qed.

(** In a block of live entries, an entry for a new name goes into the slack of the first entry that has room for both.
    From then on the name is found with its inode and type, every other name is found as before, and the block is again
    a chain of live entries; without room the block is refused and nothing is written. In a block without a checksum tail the
    entry with room must have room for twelve bytes more. *)
Theorem directory_add_then_find junk l rs name child ty : length l = 4096%nat → chain l 0 rs → Forall (fun r => r_ino r ≠ 0) rs →
  held rs name = None → (length name ≤ 255)%nat → 0 < child < 2 ^ 32 → 0 ≤ ty < 256 →
  (∀ r, r ∈ rs → room r name → roomy rs r name) →
  if decide (Exists (fun r => room r name) rs) then
    ∃ l' rs', try_insert_to_existing_block junk l name child ty = Some (Ret (Ok l')) ∧ length l' = 4096%nat ∧
      chain l' 0 rs' ∧ Forall (fun r => r_ino r ≠ 0) rs' ∧
      inode_found (dir_find_in_block junk l' name) = Some (Ok (child, ty)) ∧
      ∀ other, other ≠ name → inode_found (dir_find_in_block junk l' other) = inode_found (dir_find_in_block junk l other)
  else try_insert_to_existing_block junk l name child ty = Some (Ret (Err ENOSPC)).
Proof.
  intros Hl Hc Hlive Hnew Hname Hchild Hty Hspare. case_decide as Hex; [|by eapply insert_none].
  destruct (insert_new junk l rs name child ty) as (l' & rs' & Hi & Hl' & Hc' & Hlive' & Hh); [done..|]. exists l', rs'.
  split; [done|]. split; [done|]. split; [done|]. split; [done|]. split; [|intros other Ho]; rewrite (find_held junk l' _ _ Hl' Hc'), Hh.
  - by rewrite decide_True by done.
  - rewrite decide_False by done. by rewrite (find_held junk l _ _ Hl Hc).
Qed.

(** *** Removing an entry *)

Definition dead (r : Rec) : Rec := mkRec 0 (r_len r) (r_type r) (r_name r).
Definition widened (p r : Rec) : Rec := mkRec (r_ino p) (r_len p + r_len r) (r_type p) (r_name p).

Lemma set_field_out l pos k v o n : (pos + k ≤ length l)%nat → (o + n ≤ pos ∨ pos + k ≤ o)%nat → slice o n (set_field pos k l v) = slice o n l.
Proof. intros Hl Ho. unfold set_field. assert (length (le_bytes (Z.of_nat k) v) = k) by (rewrite le_bytes_length; lia). by rewrite slice_copy_out by lia. Qed.

Lemma set_field_in l pos k v : (0 < k)%nat → (pos + k ≤ length l)%nat → 0 ≤ v < 2 ^ (8 * Z.of_nat k) → of_le (slice pos k (set_field pos k l v)) = v.
Proof.
  intros Hk Hl Hv. assert (length (le_bytes (Z.of_nat k) v) = k) as Hb by (rewrite le_bytes_length; lia).
  unfold set_field. rewrite slice_copy_in, Nat.sub_diag by lia. unfold slice. rewrite drop_0, take_ge by lia. rewrite of_le_bytes by lia.
  apply wrap_small. by replace (Z.of_nat k * 8) with (8 * Z.of_nat k) by lia.
Qed.

Lemma find_rec_split l rs name : ∀ off prev r o p, chain l off rs → find_rec rs name off prev = Some (r, o, p) →
  ∃ pre post, rs = pre ++ r :: post ∧ prefix l off pre o ∧ held pre name = None ∧ r_ino r ≠ 0 ∧ r_name r = name.
Proof.
  induction rs as [|r0 rs IH]; intros off prev r o p Hc Hf; [done|]. destruct Hc as (Hok & Hat & Hfit & Hc). cbn [find_rec] in Hf. case_decide as Hm.
  - simplify_eq. by exists [], rs.
  - destruct (IH _ _ _ _ _ Hc Hf) as (pre & post & -> & Hp & Hh & Hr). exists (r0 :: pre), post. split; [done|]. split; [done|]. split; [|done].
    cbn [held]. by rewrite decide_False by done.
Qed.

Lemma pred_loop_spec junk l pos p : length l = 4096%nat → ∀ pre rounds from, prefix l from (pre ++ [p]) pos → (length pre < rounds)%nat →
  pred_loop junk rounds l pos from (entry_len (read_entry junk l from)) = Some (pos - r_len p, r_len p)%nat ∧ prefix l from pre (pos - r_len p) ∧
  rec_ok p ∧ rec_at l (pos - r_len p) p ∧ fits (pos - r_len p) p ∧ (r_len p ≤ pos)%nat.
Proof.
  intros Hl. induction pre as [|r pre IH]; intros [|rounds] from Hp Hr; cbn [length app] in *; try lia; destruct Hp as (Hok & Hat & Hfit & Hp); pose proof (prefix_le _ _ _ _ Hp);
    destruct (read_entry_at junk l from _ Hl Hok Hat Hfit) as (_ & -> & _); cbn [pred_loop].
  - cbn in Hp. subst pos. rewrite Nat.ltb_irrefl. replace (from + r_len p - r_len p)%nat with from by lia. splits; first [done|lia].
  - destruct (IH rounds (from + r_len r)%nat Hp) as (IH1 & IH2 & IH3); [lia|]. rewrite (proj2 (Nat.ltb_lt _ _)); [done|].
    destruct IH3 as ((_ & _ & _ & ? & _) & _ & _ & ?). apply prefix_le in IH2. lia.
Qed.

(** The first step: the entry's inode number is cleared. *)
Lemma clear_entry l pre r post pos : length l = 4096%nat → prefix l 0 pre pos → fits pos r → rec_ok r →
  rec_at l pos r → chain l (pos + r_len r) post →
  let l1 := set_field pos 4 l 0 in
  length l1 = 4096%nat ∧ prefix l1 0 pre pos ∧ rec_at l1 pos (dead r) ∧ rec_ok (dead r) ∧ chain l1 (pos + r_len r) post.
Proof.
  intros Hl Hp (_ & _ & Hpos) Hok [A1 A2 A3 A4 A5] Hpost l1. pose proof Hok as (Hi & Ht & Hn & Hlen & Hmod).
  assert (∀ o n, (o + n ≤ pos ∨ pos + 4 ≤ o)%nat → slice o n l1 = slice o n l) as Hs by (intros; apply set_field_out; lia).
  split; [unfold l1; rewrite set_field_length; lia|]. split. { eapply prefix_same; [|exact Hp]. intros. apply Hs. by left. }
  split; [|split].
  - constructor; cbn [dead r_ino r_len r_type r_name]; [apply set_field_in; lia|rewrite Hs by lia; done..].
  - unfold rec_ok. cbn [dead r_ino r_len r_type r_name]. splits; first [done|lia].
  - eapply chain_same; [|exact Hpost]. intros. apply Hs. lia.
Qed.

(** The second step: the entry before takes over its length. *)
Lemma widen_entry l pre p r post off : length l = 4096%nat → prefix l 0 pre off → rec_ok p → rec_ok r → rec_at l off p →
  fits off p → (off + r_len p + r_len r ≤ 4096)%nat → chain l (off + r_len p + r_len r) post →
  let l2 := set_field (off + 4) 2 l (Z.of_nat (r_len p) + Z.of_nat (r_len r)) in
  length l2 = 4096%nat ∧ chain l2 0 (pre ++ widened p r :: post).
Proof.
  intros Hl Hp Hokp Hokr [A1 A2 A3 A4 A5] (Hf1 & Hf2 & Hf3) Hpos Hpost l2. destruct Hokp as (Hi & Ht & Hn & Hlen & Hmod). destruct Hokr as (_ & _ & _ & Hlen' & Hmod').
  assert (∀ o n, (o + n ≤ off + 4 ∨ off + 6 ≤ o)%nat → slice o n l2 = slice o n l) as Hs by (intros; apply set_field_out; lia).
  split; [unfold l2; rewrite set_field_length; lia|]. apply chain_app. exists off. split. { eapply prefix_same; [|exact Hp]. intros. apply Hs. lia. }
  cbn [chain]. split; [|split; [|split; [unfold fits; cbn [widened r_name r_len]; lia|cbn [widened r_len]]]].
  - unfold rec_ok. cbn [widened r_ino r_len r_type r_name]. splits; try first [done|lia]. rewrite Nat.Div0.add_mod, Hmod, Hmod'. done.
  - constructor; cbn [widened r_ino r_len r_type r_name]; try (rewrite Hs by lia; done). rewrite Nat2Z.inj_add. apply set_field_in; lia.
  - eapply chain_same; [|by replace (off + (r_len p + r_len r))%nat with (off + r_len p + r_len r)%nat by lia; exact Hpost]. intros. apply Hs. lia.
Qed.

(** The names of the live entries. *)
Definition live_names (rs : list Rec) : list (list Z) := r_name <$> filter (fun r => r_ino r ≠ 0) rs.

Lemma held_none rs name : name ∉ live_names rs → held rs name = None.
Proof.
  unfold live_names. induction rs as [|r rs IH]; [done|]. rewrite filter_cons. cbn [held]. intros Hn. rewrite decide_False.
  - apply IH. case_decide; [|done]. rewrite fmap_cons in Hn. by apply not_elem_of_cons in Hn as [_ ?].
  - intros [Hl <-]. apply Hn. rewrite decide_True by done. rewrite fmap_cons. by left.
Qed.

Lemma distinct_after pre r post : NoDup (live_names (pre ++ r :: post)) → r_ino r ≠ 0 → held post (r_name r) = None.
Proof.
  intros Hd Hi. apply held_none. unfold live_names in *. rewrite filter_app, filter_cons_True, fmap_app, fmap_cons in Hd by done.
  apply NoDup_app in Hd as (_ & _ & Hd). by apply NoDup_cons in Hd as [? _].
Qed.

(** The entry found under a name, and what stands around it. *)
Lemma found_split junk l rs name found pos prev : length l = 4096%nat → chain l 0 rs → dir_find_in_block junk l name = Some (Ok (found, pos, prev)) →
  ∃ pre r post, rs = pre ++ r :: post ∧ prefix l 0 pre pos ∧ held pre name = None ∧ r_ino r ≠ 0 ∧ r_name r = name ∧ entry_len found = r_len r ∧
    rec_ok r ∧ rec_at l pos r ∧ fits pos r ∧ chain l (pos + r_len r) post.
Proof.
  intros Hl Hc Hf. unfold dir_find_in_block in Hf. rewrite (find_loop_spec junk l name Hl rs) in Hf by (by try apply (chain_enough l)).
  destruct (find_rec rs name 0 0) as [[[r o] p]|] eqn:Hfr; simplify_eq. destruct (find_rec_split l rs name _ _ _ _ _ Hc Hfr) as (pre & post & -> & Hp & Hh & Hi & Hn).
  exists pre, r, post. apply chain_app in Hc as (off & Hp' & Hok & Hat & Hle & Hpost).
  assert (off = pos) as -> by (apply prefix_end in Hp, Hp'; congruence).
  destruct (read_entry_at junk l pos r Hl Hok Hat Hle) as (_ & -> & _). done.
Qed.

(** Where names are distinct, the entry cleared in place is no longer found, and the others are. *)
Lemma held_cleared pre r post name other : held pre name = None → held post name = None → r_name r = name →
  held (pre ++ dead r :: post) other = if decide (other = name) then None else held (pre ++ r :: post) other.
Proof.
  intros H1 H2 H3. rewrite !held_app. cbn [held dead r_ino r_name]. rewrite decide_False by naive_solver.
  destruct (decide (other = name)) as [->|Ho]; [by rewrite H1|]. by rewrite (decide_False (P := _ ∧ _)) by naive_solver.
Qed.

(** The records of a block after [r] is removed: a first one is only cleared, any other is merged into the one before it. *)
Definition removed (pre : list Rec) (r : Rec) (post : list Rec) : list Rec :=
  match last pre with
  | None => dead r :: post
  | Some p => take (pred (length pre)) pre ++ widened p r :: post
  end.

Lemma removed_snoc pre p r post : removed (pre ++ [p]) r post = pre ++ widened p r :: post.
Proof. unfold removed. rewrite last_snoc, length_app, Nat.add_1_r. cbn [pred length]. by rewrite take_app_length. Qed.

(** Clearing and merging look the same to a search. *)
Lemma held_removed pre r post name other : r_name r = name → held (removed pre r post) other = held (pre ++ dead r :: post) other.
Proof.
  intros Hn. destruct pre as [|p pre _] using rev_ind; [done|]. rewrite removed_snoc, <- app_assoc, !held_app. destruct (held pre other); [done|].
  cbn [app held widened dead r_ino r_name r_type]. case_decide; [done|]. by rewrite decide_False by naive_solver.
Qed.

Lemma live_names_app rs1 rs2 : live_names (rs1 ++ rs2) = live_names rs1 ++ live_names rs2.
Proof. unfold live_names. by rewrite filter_app, fmap_app. Qed.

Lemma live_names_cons r rs : live_names (r :: rs) = if decide (r_ino r = 0) then live_names rs else r_name r :: live_names rs.
Proof.
  unfold live_names. rewrite filter_cons. destruct (decide (r_ino r = 0)); [by rewrite decide_False by naive_solver|]. by rewrite decide_True by done.
Qed.

Lemma live_removed pre r post : live_names (removed pre r post) = live_names (pre ++ post).
Proof.
  destruct pre as [|p pre _] using rev_ind; [unfold removed; cbn [last app]; by rewrite live_names_cons|].
  rewrite removed_snoc, <- app_assoc, !(live_names_app pre). cbn [app]. by rewrite !live_names_cons.
Qed.

Lemma remove_block_spec junk l rs name found pos prev : length l = 4096%nat → chain l 0 rs →
  dir_find_in_block junk l name = Some (Ok (found, pos, prev)) →
  ∃ l' pre r post, rs = pre ++ r :: post ∧ r_ino r ≠ 0 ∧ r_name r = name ∧ remove_in_block junk ROUNDS l found pos = Some (Ret l') ∧
    length l' = 4096%nat ∧ chain l' 0 (removed pre r post).
Proof.
  intros Hl Hc Hf. pose proof (chain_enough l rs Hc) as Hr.
  destruct (found_split junk l rs name found pos prev Hl Hc Hf) as (pre & r & post & -> & Hp & _ & Hi & Hn & He & Hok & Hat & Hle & Hpost).
  destruct (clear_entry l pre r post pos) as (Hl1 & Hp1 & Hat1 & Hok1 & Hpost1); [done..|]. unfold remove_in_block. set (l1 := set_field pos 4 l 0) in *. clearbody l1.
  destruct pre as [|p pre _] using rev_ind.
  - cbn in Hp. subst pos. cbn [Nat.eqb]. exists l1, [], r, post. do 4 (split; [done|]). split; [done|]. unfold removed. cbn [last chain]. done.
  - destruct (pred_loop_spec junk l1 pos p Hl1 pre ROUNDS 0 Hp1) as (Hpl & Hpp & Hokp & Hatp & Hfp & Hlen). { rewrite !length_app in Hr. cbn in Hr. lia. }
    destruct Hle as (_ & _ & Hle). pose proof Hokp as (_ & _ & _ & ? & _).
    rewrite Hpl, (proj2 (Nat.eqb_neq pos 0)), (proj2 (Nat.eqb_eq _ pos)), He by lia. unfold u16. rewrite wrap_small by lia.
    destruct (widen_entry l1 pre p r post (pos - r_len p)) as [Hl2 Hc2]; try done; [lia|by replace (pos - r_len p + r_len p + r_len r)%nat with (pos + r_len r)%nat by lia|].
    eexists _, (pre ++ [p]), r, post. do 4 (split; [done|]). split; [exact Hl2|]. rewrite removed_snoc. exact Hc2.
Qed.

Lemma remove_bytes junk rounds l found pos l' : Forall is_byte l → remove_in_block junk rounds l found pos = Some (Ret l') → Forall is_byte l'.
Proof.
  intros Hl. unfold remove_in_block, set_field. assert (∀ k v o l0, Forall is_byte l0 → Forall is_byte (Disk.copy_at l0 o (le_bytes (Z.of_nat k) v))) as Hset
    by (intros; apply copy_at_bytes; [done|apply le_bytes_byte; lia]).
  destruct (pos =? 0)%nat; [intros [= <-]; by apply Hset|]. destruct (pred_loop _ _ _ _ _ _) as [[off len]|]; [|done].
  destruct (_ =? _)%nat; [|done]. intros [= <-]. by apply Hset, Hset.
Qed.

(** C40: after the first entry of a block has been removed, no insertion into the block ends: the loop over the entries
    stays on the unused entry. *)
Theorem insert_hangs_after_removing_first junk l rs name found prev : length l = 4096%nat → chain l 0 rs →
  dir_find_in_block junk l name = Some (Ok (found, 0%nat, prev)) →
  ∃ l', remove_in_block junk ROUNDS l found 0 = Some (Ret l') ∧ ∀ rounds new child ty, insert_loop junk rounds l' new child ty 0 = None.
Proof.
  intros Hl Hc Hf. destruct (found_split junk l rs name found 0 prev Hl Hc Hf) as (pre & r & post & -> & Hp & _ & _ & _ & _ & Hok & Hat & Hle & Hpost).
  destruct (clear_entry l pre r post 0) as (Hl1 & _ & Hat1 & Hok1 & _); [done..|]. eexists. split; [reflexivity|]. intros rounds new child ty.
  apply insert_stuck; [unfold BLOCK_DATA_SIZE; lia|]. destruct (read_entry_at junk _ 0 (dead r) Hl1 Hok1 Hat1 Hle) as (Hz & _). left. unfold unused. by rewrite Hz.
Qed.

(** *** A directory *)

Notation "'do!' x := m 'in' k" := (mbind m (fun x => k)) (at level 10, x pattern, m at level 100, k at level 200).

Section ops.
Context {D : Type} `{BlockIO D}.
Context (junk : list Z) (fs : Ext4).

Definition is_dir (i : list Z) : bool := Z.land (field 0 2 i) 0xF000 =? 0x4000.

(** [m] with an inode of its own, which it returns; the caller's is kept. *)
Definition with_inode {A} (i : list Z) (m : M (D := D) A) : M (A * list Z) := fun st =>
  let! (r, st1) := m (mkSt (dev st) i) in
  Ret (match r with Ok a => Ok (a, inode st1) | Err e => Err e end, mkSt (dev st1) (inode st)).

(** [match r] and [if let Ok]: the error is a value. *)
Definition attempt {A} (m : M (D := D) A) : M (result A Errno) := fun st => let! (r, st) := m st in Ret (Ok r, st).

Definition load_inode (num : Z) : M (D := D) (list Z) :=
  do! (_, i) := with_inode [] (get_inode_ref junk fs num) in mret i.

(** The physical block at the end of the path that [find_extent] returns. *)
Definition find_block (lblock : Z) : M (D := D) Z :=
  do! sp := find_extent lblock in
  do! n := lift (match last (path sp) with Some n => Ret n | None => Panic end) in
  mret (pblock n).

Record Ext4DirSearchResult := mkFound { dentry : Ext4DirEntry; pblock_id : Z; found_offset : nat; prev_offset : nat }.

(** Operations whose loop over the entries of a block does not end return [None]. *)

(** [while iblock < total_blocks] of [dir_find_entry] *)
Fixpoint find_blocks (n : nat) (iblock : Z) (name : list Z) : M (D := D) (option Ext4DirSearchResult) :=
  match n with
  | O => mfail ENOENT
  | S n =>
      do! r := attempt (find_block (u32 iblock)) in
      match r with
      | Err _ => mfail ENOENT
      | Ok fblock =>
          do! l := read_at (fblock *! 4096) in
          match dir_find_in_block junk l name with
          | None => mret None
          | Some (Ok (de, off, prev)) => mret (Some (mkFound de fblock off prev))
          | Some (Err _) => find_blocks n (iblock + 1) name
          end
      end
  end.

Definition find_in_inode (name : list Z) : M (D := D) (option Ext4DirSearchResult) :=
  do! parent := get_inode in
  if negb (is_dir parent) then mfail ENOTDIR
  else find_blocks (Z.to_nat (size parent / 4096)) 0 name.

Definition dir_find_entry (parent_inode : Z) (name : list Z) : M (option Ext4DirSearchResult) :=
  do! parent := load_inode parent_inode in
  do! (r, _) := with_inode parent (find_in_inode name) in
  mret r.

(** The entries of one block that [dir_get_entries] pushes; an entry of length 0 ends the block. *)
Fixpoint entries_of (rounds : nat) (l : list Z) (off : nat) : list Ext4DirEntry :=
  match rounds with
  | O => []
  | S rounds =>
      if (off <? BLOCK_DATA_SIZE)%nat then
        let de := read_entry junk l off in
        (if unused de then [] else [de]) ++ (if (entry_len de =? 0)%nat then [] else entries_of rounds l (off + entry_len de))
      else []
  end.

Fixpoint get_entries_blocks (n : nat) (iblock : Z) : M (D := D) (list Ext4DirEntry) :=
  match n with
  | O => mret []
  | S n =>
      do! r := attempt (find_block (u32 iblock)) in
      do! es := match r with
                | Ok fblock => do! l := read_at (fblock *! 4096) in mret (entries_of BLOCK_DATA_SIZE l 0)
                | Err _ => mret []
                end in
      do! rest := get_entries_blocks n (iblock + 1) in
      mret (es ++ rest)
  end.

Definition entries_of_inode : M (D := D) (list Ext4DirEntry) :=
  do! i := get_inode in
  if negb (is_dir i) then mret []
  else if 0x10000000 <? size i then mret []
  else get_entries_blocks (Z.to_nat (Z.min (size i / 4096) 100001)) 0.

Definition dir_get_entries (num : Z) : M (list Ext4DirEntry) :=
  do! i := load_inode num in
  do! (es, _) := with_inode i entries_of_inode in
  mret es.

(** [while iblock < total_blocks] of [dir_add_entry]; the inner result says whether an entry was written. *)
Fixpoint add_blocks (n : nat) (iblock : Z) (name : list Z) (child ty : Z) : M (D := D) (option bool) :=
  match n with
  | O => mret (Some false)
  | S n =>
      do! pblock := get_pblock_idx (u32 iblock) in
      if pblock =? 0 then add_blocks n (iblock + 1) name child ty
      else
        do! l := read_at (pblock *! 4096) in
        match try_insert_to_existing_block junk l name child ty with
        | None => mret None
        | Some e =>
            do! r := lift e in
            match r with
            | Ok l =>
                do! _ := write_at (pblock *! 4096) l in
                do! parent := get_inode in
                do! l := lift (dir_set_csum junk (sb_of fs) l (inode_generation parent)) in
                do! _ := write_at (pblock *! 4096) l in
                mret (Some true)
            | Err _ => add_blocks n (iblock + 1) name child ty
            end
        end
  end.

(** The parent is the inode of the state; [num] is its number. *)
Definition dir_add_entry (num : Z) (child_num : Z) (child : list Z) (name : list Z) : M (D := D) (option unit) :=
  do! parent := get_inode in
  let block_size := u32 (Z.shiftl 1024 (field 24 4 (super_block fs) mod 32)) in
  do! total_blocks := lift (if block_size =? 0 then Panic else Ret (size parent / block_size)) in
  let ty := if is_dir child then 2 else 1 in
  do! r := add_blocks (Z.to_nat total_blocks) 0 name child_num ty in
  match r with
  | None => mret None
  | Some true => mret (Some tt)
  | Some false =>
      do! new_block := append_inode_pblk junk fs num in
      do! l := read_at (new_block *! 4096) in
      do! l := lift (insert_to_new_block l name child_num ty) in
      do! parent := get_inode in
      do! l := lift (dir_set_csum junk (sb_of fs) l (inode_generation parent)) in
      do! _ := write_at (new_block *! 4096) l in
      mret (Some tt)
  end.

Definition dir_remove_entry (num : Z) (name : list Z) : M (D := D) (option unit) :=
  do! r := dir_find_entry num name in
  match r with
  | None => mret None
  | Some result =>
      do! l := read_at (pblock_id result *! 4096) in
      match remove_in_block junk ROUNDS l (dentry result) (found_offset result) with
      | None => mret None
      | Some e =>
          do! l := lift e in
          do! parent := get_inode in
          do! l := lift (dir_set_csum junk (sb_of fs) l (inode_generation parent)) in
          do! _ := write_at (pblock_id result *! 4096) l in
          mret (Some tt)
      end
  end.

Definition get_name (de : Ext4DirEntry) : list Z := take (name_len de) (de_name de).

(** Whether a block has an entry other than [.] and [..] *)
Fixpoint has_loop (rounds : nat) (l : list Z) (off : nat) : option bool :=
  match rounds with
  | O => None
  | S rounds =>
      if (off <? BLOCK_DATA_SIZE)%nat then
        let de := read_entry junk l off in
        let off := (off + entry_len de)%nat in
        if de_inode de =? 0 then has_loop rounds l off
        else if bool_decide (get_name de = [46]) || bool_decide (get_name de = [46; 46]) then has_loop rounds l off
        else Some true
      else Some false
  end.

Fixpoint has_blocks (n : nat) (iblock : Z) : M (D := D) (option bool) :=
  match n with
  | O => mret (Some false)
  | S n =>
      do! r := attempt (find_block (u32 iblock)) in
      match r with
      | Err _ => has_blocks n (iblock + 1)
      | Ok fblock =>
          do! l := read_at (fblock *! 4096) in
          match has_loop ROUNDS l 0 with
          | None => mret None
          | Some true => mret (Some true)
          | Some false => has_blocks n (iblock + 1)
          end
      end
  end.

Definition dir_has_entry (dir_inode : Z) : M (option bool) :=
  do! parent := load_inode dir_inode in
  if negb (is_dir parent) then mret (Some false)
  else
    do! (r, _) := with_inode parent (has_blocks (Z.to_nat (size parent / 4096)) 0) in
    mret r.
End ops.

(** *** Bytes stay bytes *)

Record entry_ok (de : Ext4DirEntry) : Prop := mkEntryOk { eo_len : (name_len de < 256)%nat; eo_type : is_byte (inode_type de); eo_name : Forall is_byte (de_name de) }.

Lemma entry_bytes_byte de : entry_ok de → Forall is_byte (entry_bytes de).
Proof.
  intros [H1 H2 H3]. unfold entry_bytes. apply Forall_take. rewrite !Forall_app. split; [apply le_bytes_byte; lia|]. split; [apply le_bytes_byte; lia|].
  split; [|split; [done|by apply Forall_replicate]]. constructor; [unfold is_byte; lia|]. by constructor.
Qed.

Lemma read_entry_ok junk l off : Forall is_byte l → Forall is_byte junk → entry_ok (read_entry junk l off).
Proof.
  intros Hl Hj. unfold read_entry. assert (Forall is_byte (drop off l ++ junk)) as Hb by (apply Forall_app; split; [by apply Forall_drop|done]).
  set (b := drop off l ++ junk) in *. clearbody b. pose proof (field_range 6 1 b Hb). pose proof (field_range 7 1 b Hb).
  constructor; cbn [name_len inode_type de_name]; [lia|done|by apply slice_bytes].
Qed.

Lemma insert_bytes junk k l name child ty : Forall is_byte l → Forall is_byte junk → Forall is_byte name → is_byte ty → ∀ off l',
  insert_loop junk k l name child ty off = Some (Ret (Ok l')) → Forall is_byte l'.
Proof.
  intros Hl Hj Hn Ht. induction k as [|k IH]; intros off l'; [done|]. cbn [insert_loop]. destruct (_ <? _)%nat; [|done]. destruct (unused _); [apply IH|].
  destruct (_ <=? _); [|apply IH]. destruct (read_entry_ok junk l off Hl Hj) as [H1 H2 H3]. unfold split_entry, write_entry, copy_to_slice.
  destruct (Nat.leb_spec (length name) 255); cbn [exec_bind]; [|done]. destruct (_ <=? _)%nat; cbn [exec_bind]; [|done]. destruct (_ <=? _)%nat; cbn [exec_bind]; [|done].
  intros [= <-]. apply copy_at_bytes; [apply copy_at_bytes; [done|]|]; apply entry_bytes_byte; constructor; cbn [name_len inode_type de_name]; try done; [lia|].
  apply Forall_app. split; [done|]. by apply Forall_replicate.
Qed.

Lemma set_csum_spec junk s l gen : length l = 4096%nat → Forall is_byte l → Forall is_byte (uuid s) →
  ∃ l', dir_set_csum junk s l gen = Ret l' ∧ length l' = 4096%nat ∧ Forall is_byte l' ∧ ∀ o n, (o + n ≤ 4092)%nat → slice o n l' = slice o n l.
Proof.
  intros Hl Hb Hu. unfold dir_set_csum, ext4_dir_get_csum. generalize (de_inode (read_entry junk l 0)) as ino. intros ino.
  destruct (Crc.crc32c_returns Crc.EXT4_CRC32_INIT (uuid s) (u32 (Z.of_nat (length (uuid s))))) as [c1 ->]; [done|apply Z.mod_le; lia|]. cbn [exec_bind].
  destruct (Crc.crc32c_returns c1 (le_bytes 4 ino) 4) as [c2 ->]; [by apply le_bytes_byte|done|]. cbn [exec_bind].
  destruct (Crc.crc32c_returns c2 (le_bytes 4 gen) 4) as [c3 ->]; [by apply le_bytes_byte|done|]. cbn [exec_bind].
  destruct (Crc.crc32c_returns c3 (take BLOCK_DATA_SIZE l) (Z.of_nat BLOCK_DATA_SIZE)) as [c4 ->]; [by apply Forall_take|rewrite length_take; unfold BLOCK_DATA_SIZE; lia|].
  cbn [exec_bind]. eexists. split; [reflexivity|]. split; [rewrite set_field_length; lia|]. split; [apply copy_at_bytes; [done|by apply le_bytes_byte]|].
  intros o n Ho. apply set_field_out; lia.
Qed.

(** *** Directories on the disk *)

Section dirs.
Context {D : Type} `{BlockIO D, !BlockLaws D}.

(** A write replaces the block and no other. *)
Lemma write_at_spec (st : St (D := D)) blk l : Disk.coherent (dev st) → usable (dev st) blk → length l = 4096%nat →
  ∃ st', write_at (blk *! 4096) l st = Ret (Ok tt, st') ∧ inode st' = inode st ∧ Disk.coherent (dev st') ∧
    (∀ b, usable (dev st) b → usable (dev st') b) ∧
    ∀ b, 0 ≤ b → block (Disk.dev (dev st')) b = if decide (b = blk) then l else block (Disk.dev (dev st)) b.
Proof.
  intros Hc Hu Hl. pose proof (usable_valid (dev st) blk Hu) as Hv. pose proof Hu as (H0 & H1 & H2 & _).
  unfold write_at, write_dev. rewrite u64_small by lia.
  destruct (Disk.write_offset_spec (dev st) (blk * 4096) l Hc) as (d & -> & Hc' & Hm & Hs & Hw); [lia..|]. cbn [exec_bind].
  replace (blk * 4096 + Z.of_nat (length l) - 1) with (blk * 4096 + 4095) in Hw by lia. rewrite Hv in Hw.
  eexists. split; [reflexivity|]. split; [done|]. split; [done|]. split; [unfold usable; cbn [dev]; by rewrite Hs, Hm|]. cbn [dev]. intros b Hb.
  apply list_eq_same_length with (n := 4096%nat); [case_decide; [done|by unfold block; rewrite Disk.bytes_length]|by unfold block; rewrite Disk.bytes_length|].
  intros k x y Hk Hx Hy. unfold block in *. rewrite Disk.bytes_lookup, Hw in Hx by lia. case_decide as Hd.
  - subst b. rewrite decide_True in Hx by lia. replace (Z.to_nat (blk * 4096 + Z.of_nat k - blk * 4096)) with k in Hx by lia. rewrite Hy in Hx. by injection Hx.
  - rewrite decide_False in Hx by lia. rewrite Disk.bytes_lookup in Hy by lia. by simplify_eq.
Qed.

(** A directory whose extents are in the inode: its blocks are on the disk, each is a chain of records. *)
Record dir_mapped (st : St (D := D)) (es : list Ext4Extent) (phys : Z → Z) (bs : list (list Rec)) : Prop := mkDirMapped {
  dm_file : FileIO.file_mapped st es phys (Z.of_nat (length bs));
  dm_depth : depth (root_extent_header (inode st)) = 0;
  dm_dir : is_dir (inode st) = true;
  dm_size : size (inode st) = 4096 * Z.of_nat (length bs);
  dm_max : Z.of_nat (length bs) < 2 ^ 32;
  dm_distinct : ∀ j k, 0 ≤ j < Z.of_nat (length bs) → 0 ≤ k < Z.of_nat (length bs) → phys j = phys k → j = k;
  dm_nonzero : ∀ k, 0 ≤ k < Z.of_nat (length bs) → phys k ≠ 0;
  dm_chain : ∀ k rs, bs !! k = Some rs → chain (block (Disk.dev (dev st)) (phys (Z.of_nat k))) 0 rs;
  dm_bytes : ∀ k, 0 ≤ k < Z.of_nat (length bs) → Forall is_byte (block (Disk.dev (dev st)) (phys k))
}.

Lemma dir_mapped_same st st' es phys bs : Disk.same_disk (dev st) (dev st') → inode st' = inode st → dir_mapped st es phys bs → dir_mapped st' es phys bs.
Proof.
  intros Hs Hi [H1 H2 H3 H4 H5 H6 H7 H8 H9]. pose proof Hs as (Hd & _). constructor; rewrite ?Hi, ?Hd; try done. by eapply FileIO.file_mapped_same.
Qed.

Lemma block_length (d : D) b : length (block d b) = 4096%nat.
Proof. apply Disk.bytes_length. Qed.

(** Looking up and reading block [k] of a directory. *)
Lemma dir_pblock st es phys bs k : dir_mapped st es phys bs → (k < length bs)%nat →
  usable (dev st) (phys (Z.of_nat k)) ∧ ∃ st', get_pblock_idx (u32 (Z.of_nat k)) st = Ret (Ok (phys (Z.of_nat k)), st') ∧
    Disk.same_disk (dev st) (dev st') ∧ inode st' = inode st.
Proof.
  intros Hd Hk. pose proof (dm_file _ _ _ _ Hd) as Hf. pose proof (dm_max _ _ _ _ Hd).
  destruct (FileIO.fm_blocks _ _ _ _ Hf (Z.of_nat k) ltac:(lia)) as (Hu & e & He & Hc & Hp0 & Hp1 & Hphys). split; [done|].
  unfold u32. rewrite wrap_small, Hphys by lia.
  apply (lookup_covered st es e (Z.of_nat k) (FileIO.fm_coherent _ _ _ _ Hf) (FileIO.fm_depth _ _ _ _ Hf) (FileIO.fm_stored _ _ _ _ Hf) He Hc Hp0 Hp1).
  intros [Hpos _]. pose proof (dm_depth _ _ _ _ Hd) as Hz. unfold root_extent_header in Hz. lia.
Qed.

Lemma find_block_of_idx b (st st' : St (D := D)) p : get_pblock_idx b st = Ret (Ok p, st') → p ≠ 0 → find_block b st = Ret (Ok p, st').
Proof.
  unfold get_pblock_idx, find_block, mbind at 1. destruct (find_extent b st) as [[[sp|e] st1]|]; cbn [exec_bind]; [|naive_solver..].
  destruct (last (path sp)) as [n|] eqn:Hl; [|done]. intros [= <- <-] _. unfold mbind, lift. cbn [exec_bind]. done.
Qed.

Lemma read_dir_block st es phys bs k : dir_mapped st es phys bs → (k < length bs)%nat → ∀ st1, Disk.same_disk (dev st) (dev st1) → inode st1 = inode st →
  ∃ st', read_at (phys (Z.of_nat k) *! 4096) st1 = Ret (Ok (block (Disk.dev (dev st)) (phys (Z.of_nat k))), st') ∧ Disk.same_disk (dev st) (dev st') ∧ inode st' = inode st.
Proof.
  intros Hd Hk st1 Hs Hi. destruct (dir_pblock st es phys bs k Hd Hk) as [Hu _].
  destruct (read_at_spec st1 (dev st) (phys (Z.of_nat k)) Hs (FileIO.fm_coherent _ _ _ _ (dm_file _ _ _ _ Hd)) Hu) as (st2 & Hr & Hs2 & Hi2).
  exists st2. split; [done|]. split; [done|]. congruence.
Qed.

Definition found_pair (r : Ext4DirSearchResult) : Z * Z := (de_inode (dentry r), inode_type (dentry r)).

(** The result of a search of block [j]. *)
Definition found_in (junk : list Z) (d : D) (phys : Z → Z) (name : list Z) (f : Ext4DirSearchResult) (j : nat) : Prop :=
  pblock_id f = phys (Z.of_nat j) ∧
  dir_find_in_block junk (block d (phys (Z.of_nat j))) name = Some (Ok (dentry f, found_offset f, prev_offset f)).

(** The blocks are searched in order. *)
Lemma find_blocks_spec junk es phys bs name : ∀ n k st, dir_mapped st es phys bs → (k + n = length bs)%nat →
  ∃ r st', find_blocks junk n (Z.of_nat k) name st = Ret (r, st') ∧ Disk.same_disk (dev st) (dev st') ∧ inode st' = inode st ∧
    match held (mjoin (drop k bs)) name with
    | Some x => ∃ f j rs, r = Ok (Some f) ∧ found_pair f = x ∧ bs !! j = Some rs ∧ found_in junk (Disk.dev (dev st)) phys name f j
    | None => r = Err ENOENT
    end.
Proof.
  induction n as [|n IH]; intros k st Hd Hk; cbn [find_blocks].
  - rewrite drop_ge by lia. cbn. by exists (Err ENOENT), st.
  - assert (k < length bs)%nat as Hlt by lia. destruct (lookup_lt_is_Some_2 bs k Hlt) as [rs Hrs]. pose proof (dm_max _ _ _ _ Hd).
    destruct (dir_pblock st es phys bs k Hd Hlt) as (_ & st1 & Hp & Hs1 & Hi1). apply find_block_of_idx in Hp; [|apply (dm_nonzero _ _ _ _ Hd); lia].
    unfold mbind at 1, attempt. rewrite Hp. cbn [exec_bind].
    destruct (read_dir_block st es phys bs k Hd Hlt st1 Hs1 Hi1) as (st2 & Hr & Hs2 & Hi2). rewrite (mbind_eq _ _ _ _ _ Hr).
    set (l := block _ _). assert (length l = 4096%nat) as Hl by apply block_length. pose proof (dm_chain _ _ _ _ Hd k rs Hrs) as Hc. fold l in Hc.
    rewrite (drop_S bs rs k Hrs). cbn [mjoin list_join]. rewrite held_app. pose proof (find_held junk l rs name Hl Hc) as Hh.
    destruct (held rs name) as [x|]; destruct (dir_find_in_block junk l name) as [[[[de off] prev]|e]|] eqn:Hfind; cbn in Hh; try done.
    + injection Hh as Hh. eexists _, st2. split; [reflexivity|]. split; [done|]. split; [done|]. eexists _, k, rs. split; [reflexivity|]. split; [done|]. split; [done|]. by split.
    + replace (Z.of_nat k + 1) with (Z.of_nat (S k)) by lia. destruct (IH (S k) st2) as (r & st3 & Hf & Hs3 & Hi3 & Hr3); [by eapply dir_mapped_same|lia|].
      exists r, st3. split; [done|]. split; [by eapply same_disk_trans|]. split; [congruence|]. revert Hr3. destruct Hs2 as (-> & _). done.
Qed.

Lemma search_spec junk es phys bs name st : dir_mapped st es phys bs →
  ∃ r st', find_in_inode junk name st = Ret (r, st') ∧ Disk.same_disk (dev st) (dev st') ∧ inode st' = inode st ∧
    match held (mjoin bs) name with
    | Some x => ∃ f j rs, r = Ok (Some f) ∧ found_pair f = x ∧ bs !! j = Some rs ∧ found_in junk (Disk.dev (dev st)) phys name f j
    | None => r = Err ENOENT
    end.
Proof.
  intros Hd. unfold find_in_inode. rewrite (mbind_eq get_inode _ st (inode st) st) by done. rewrite (dm_dir _ _ _ _ Hd), (dm_size _ _ _ _ Hd). cbn [negb].
  replace (4096 * Z.of_nat (length bs) / 4096) with (Z.of_nat (length bs)) by (by rewrite Z.mul_comm, Z.div_mul). rewrite Nat2Z.id.
  apply (find_blocks_spec junk es phys bs name (length bs) 0 st Hd). lia.
Qed.

(** A block of the directory replaced by another chain. *)
Lemma dir_mapped_write st es phys bs k l rs : dir_mapped st es phys bs → (k < length bs)%nat → length l = 4096%nat → Forall is_byte l → chain l 0 rs →
  ∃ st', write_at (phys (Z.of_nat k) *! 4096) l st = Ret (Ok tt, st') ∧ inode st' = inode st ∧ dir_mapped st' es phys (<[k := rs]> bs).
Proof.
  intros Hd Hk Hl Hb Hc. destruct (dir_pblock st es phys bs k Hd Hk) as [Hu _]. destruct Hd as [H1 H2 H3 H4 H5 H6 H7 H8 H9].
  destruct (write_at_spec st (phys (Z.of_nat k)) l (FileIO.fm_coherent _ _ _ _ H1) Hu Hl) as (st' & Hw & Hi & Hc' & Hu' & Hblk).
  assert (∀ j, 0 ≤ j < Z.of_nat (length bs) → 0 ≤ phys j) as Hpos by (intros j Hj; by destruct (FileIO.fm_blocks _ _ _ _ H1 j Hj) as ((? & _) & _)).
  exists st'. split; [done|]. split; [done|]. constructor; rewrite ?Hi, ?length_insert; try done.
  - destruct H1 as [F1 F2 F3 F4]. constructor; rewrite ?Hi; try done.
    + rewrite H2 in *. done.
    + intros b Hb'. destruct (F4 b Hb') as [Hub He]. split; [by apply Hu'|done].
  - intros j rs' Hj. pose proof (lookup_lt_Some _ _ _ Hj) as Hlt. rewrite length_insert in Hlt. rewrite Hblk by (apply Hpos; lia).
    destruct (decide (j = k)) as [->|Hne].
    + rewrite list_lookup_insert_eq in Hj by done. simplify_eq. by rewrite decide_True by done.
    + rewrite list_lookup_insert_ne in Hj by done. rewrite decide_False; [by apply H8|]. intros E. apply H6 in E; lia.
  - intros j Hj. rewrite Hblk by (by apply Hpos). case_decide; [done|]. by apply H9.
Qed.

Definition all_live (bs : list (list Rec)) : Prop := Forall (Forall (fun r => r_ino r ≠ 0)) bs.

(** An entry with room for the name has also room for what its block lacks of a checksum tail. *)
Definition spared (bs : list (list Rec)) (name : list Z) : Prop :=
  ∀ k rs, bs !! k = Some rs → ∀ r, r ∈ rs → room r name → roomy rs r name.

Lemma held_block bs k rs name : bs !! k = Some rs → held (mjoin bs) name = None → held rs name = None.
Proof.
  intros Hk. rewrite <- (take_drop_middle bs k rs Hk), join_app. cbn [mjoin list_join]. rewrite !held_app.
  by destruct (held (mjoin (take k bs)) name), (held rs name).
Qed.

Section adding.
Context (junk : list Z) (fs : Ext4) (es : list Ext4Extent) (phys : Z → Z) (name : list Z) (child ty : Z).
Context (Hname : (length name ≤ 255)%nat) (Hnb : Forall is_byte name) (Hjb : Forall is_byte junk) (Hsb : Forall is_byte (super_block fs)).
Context (Hchild : 0 < child < 2 ^ 32) (Hty : 0 ≤ ty < 256).

(** What follows a successful insertion: the block is written, given its checksum, and written again. *)
Lemma store_block st bs k l rs {B} (m : M B) : dir_mapped st es phys bs → (k < length bs)%nat → length l = 4096%nat → Forall is_byte l → chain l 0 rs →
  ∃ st', inode st' = inode st ∧ dir_mapped st' es phys (<[k := rs]> bs) ∧
    (do! _ := write_at (phys (Z.of_nat k) *! 4096) l in do! parent := get_inode in
     do! l := lift (dir_set_csum junk (sb_of fs) l (inode_generation parent)) in do! _ := write_at (phys (Z.of_nat k) *! 4096) l in m) st = m st'.
Proof.
  intros Hd Hk Hl Hb Hc. destruct (dir_mapped_write st es phys bs k l rs Hd Hk Hl Hb Hc) as (st3 & Hw & Hi3 & Hd3).
  destruct (set_csum_spec junk (sb_of fs) l (inode_generation (inode st3)) Hl Hb) as (l2 & Hcs & Hl2 & Hb2 & Hsame). { by apply slice_bytes. }
  assert (chain l2 0 rs) as Hc2 by (eapply chain_same; [|exact Hc]; intros; by apply Hsame).
  destruct (dir_mapped_write st3 es phys _ k l2 rs Hd3 ltac:(by rewrite length_insert) Hl2 Hb2 Hc2) as (st4 & Hw4 & Hi4 & Hd4). rewrite list_insert_insert_eq in Hd4.
  exists st4. split; [congruence|]. split; [done|].
  rewrite (mbind_eq _ _ _ _ _ Hw), (mbind_eq get_inode _ st3 (inode st3) st3), (mbind_eq _ _ _ _ _ (lift_eq _ _ _ Hcs)), (mbind_eq _ _ _ _ _ Hw4) by done. done.
Qed.

(** The blocks are tried in order, and the first with room takes the entry. *)
Lemma add_blocks_spec bs : all_live bs → held (mjoin bs) name = None → spared bs name → ∀ n k st, dir_mapped st es phys bs → (k + n = length bs)%nat →
  Exists (Exists (fun r => room r name)) (drop k bs) →
  ∃ st' j rs rs', add_blocks junk fs n (Z.of_nat k) name child ty st = Ret (Ok (Some true), st') ∧ inode st' = inode st ∧
    bs !! j = Some rs ∧ dir_mapped st' es phys (<[j := rs']> bs) ∧ Forall (fun r => r_ino r ≠ 0) rs' ∧
    ∀ other, held rs' other = if decide (other = name) then Some (child, ty) else held rs other.
Proof.
  intros Hlive Hnew Hspare. induction n as [|n IH]; intros k st Hd Hk Hex; [rewrite drop_ge in Hex by lia; by inversion Hex|].
  assert (k < length bs)%nat as Hlt by lia. destruct (lookup_lt_is_Some_2 bs k Hlt) as [rs Hrs]. rewrite (drop_S bs rs k Hrs) in Hex. cbn [add_blocks].
  destruct (dir_pblock st es phys bs k Hd Hlt) as (Hu & st1 & Hp & Hs1 & Hi1). rewrite (mbind_eq _ _ _ _ _ Hp).
  rewrite (proj2 (Z.eqb_neq _ _)) by (apply (dm_nonzero _ _ _ _ Hd); lia).
  destruct (read_dir_block st es phys bs k Hd Hlt st1 Hs1 Hi1) as (st2 & Hr & Hs2 & Hi2). rewrite (mbind_eq _ _ _ _ _ Hr). clear Hr Hp.
  set (l := block _ _). assert (length l = 4096%nat) as Hl by apply block_length. pose proof (dm_chain _ _ _ _ Hd k rs Hrs) as Hc. fold l in Hc.
  assert (Forall is_byte l) as Hb by (apply (dm_bytes _ _ _ _ Hd); lia). clearbody l. pose proof (proj1 (Forall_lookup _ _) Hlive k rs Hrs) as Hlr.
  assert (dir_mapped st2 es phys bs) as Hd2 by (by eapply dir_mapped_same). pose proof (held_block bs k rs name Hrs Hnew) as Hno.
  destruct (decide (Exists (fun r => room r name) rs)) as [Hyes|Hnone].
  - destruct (insert_new junk l rs name child ty) as (l1 & rs1 & Hi & Hl1 & Hc1 & Hlive1 & Hh); [done..|by apply (Hspare k)|]. rewrite Hi.
    rewrite (mbind_eq _ _ _ _ _ (lift_eq _ _ _ eq_refl)).
    assert (Forall is_byte l1) as Hb1 by (by eapply (insert_bytes junk ROUNDS l); try exact Hi).
    destruct (store_block st2 bs k l1 rs1 (mret (Some true)) Hd2 Hlt Hl1 Hb1 Hc1) as (st3 & Hi3 & Hd3 & ->).
    exists st3, k, rs, rs1. split; [reflexivity|]. split; [congruence|]. done.
  - rewrite (insert_none junk l rs name child ty) by done. rewrite (mbind_eq _ _ _ _ _ (lift_eq _ _ _ eq_refl)).
    apply Exists_cons in Hex as [Hex|Hex]; [done|]. replace (Z.of_nat k + 1) with (Z.of_nat (S k)) by lia.
    destruct (IH (S k) st2 Hd2 ltac:(lia) Hex) as (st' & j & rs0 & rs' & H1 & H2 & H3). exists st', j, rs0, rs'. split; [done|]. split; [congruence|done].
Qed.
End adding.

(** What a search of the directory answers. *)
Definition looked_up (junk name : list Z) (st : St (D := D)) : option (result (Z * Z) Errno) :=
  match find_in_inode junk name st with
  | Ret (Ok (Some f), _) => Some (Ok (found_pair f))
  | Ret (Err e, _) => Some (Err e)
  | _ => None
  end.

Lemma looked_up_held junk es phys bs name st : dir_mapped st es phys bs → looked_up junk name st = answer (held (mjoin bs) name).
Proof.
  intros Hd. destruct (search_spec junk es phys bs name st Hd) as (r & st' & Hf & _ & _ & Hr). unfold looked_up. rewrite Hf.
  destruct (held (mjoin bs) name); [|by subst]. by destruct Hr as (f & j & rs & -> & <- & _).
Qed.

Lemma held_insert bs j rs rs' name x other : bs !! j = Some rs → held (mjoin bs) name = None →
  (∀ other, held rs' other = if decide (other = name) then Some x else held rs other) →
  held (mjoin (<[j := rs']> bs)) other = if decide (other = name) then Some x else held (mjoin bs) other.
Proof.
  intros Hj Hn Hrs. pose proof (lookup_lt_Some _ _ _ Hj).
  assert (∀ y o, held (mjoin (take j bs ++ y :: drop (S j) bs)) o = match held (mjoin (take j bs)) o with Some x => Some x | None =>
    match held y o with Some x => Some x | None => held (mjoin (drop (S j) bs)) o end end) as E.
  { intros y o. rewrite join_app, held_app. cbn [mjoin list_join]. by rewrite held_app. }
  rewrite insert_take_drop, E, Hrs by done. pose proof (E rs name) as E1. pose proof (E rs other) as E2. rewrite take_drop_middle in E1, E2 by done.
  rewrite Hn in E1. rewrite E2. destruct (decide (other = name)) as [->|]; [|done]. by destruct (held (mjoin (take j bs)) name).
Qed.

(** *** Removing from a directory *)

(** The inode in memory is the one that the inode table holds under the number. *)
Definition inode_on_disk (junk : list Z) (fs : Ext4) (num : Z) (st : St (D := D)) : Prop :=
  ∃ dv, load_inode junk fs num st = Ret (Ok (inode st), mkSt dv (inode st)) ∧ Disk.same_disk (dev st) dv.

Lemma dir_find_spec junk fs num es phys bs name st : dir_mapped st es phys bs → inode_on_disk junk fs num st →
  ∃ r st', dir_find_entry junk fs num name st = Ret (r, st') ∧ Disk.same_disk (dev st) (dev st') ∧ inode st' = inode st ∧
    match held (mjoin bs) name with
    | Some _ => ∃ f j rs, r = Ok (Some f) ∧ bs !! j = Some rs ∧ found_in junk (Disk.dev (dev st)) phys name f j
    | None => r = Err ENOENT
    end.
Proof.
  intros Hd (dv & Hload & Hdv). unfold dir_find_entry. rewrite (mbind_eq _ _ _ _ _ Hload).
  assert (dir_mapped (mkSt dv (inode st)) es phys bs) as Hd1 by (by eapply (dir_mapped_same st)).
  destruct (search_spec junk es phys bs name _ Hd1) as (r & st2 & Hf & Hs2 & Hi2 & Hr). cbn [dev] in Hs2, Hr.
  unfold mbind at 1, with_inode. cbn [dev inode]. rewrite Hf. cbn [exec_bind].
  assert (Disk.same_disk (dev st) (dev st2)) as Hs by (by eapply same_disk_trans). pose proof Hdv as (Hdev & _). rewrite <- Hdev.
  destruct (held (mjoin bs) name) as [x|].
  - destruct Hr as (f & j & rs & -> & _ & Hj & Hin). eexists _, _. split; [reflexivity|]. split; [done|]. split; [done|]. by exists f, j, rs.
  - subst r. eexists _, _. split; [reflexivity|]. done.
Qed.

(** Where names are distinct: the one removed is not held any more, the others are as before. *)
Lemma removed_dir bs j pre r post name : bs !! j = Some (pre ++ r :: post) → r_ino r ≠ 0 → r_name r = name → NoDup (live_names (mjoin bs)) →
  let bs' := <[j := removed pre r post]> bs in
  NoDup (live_names (mjoin bs')) ∧ ∀ other, held (mjoin bs') other = if decide (other = name) then None else held (mjoin bs) other.
Proof.
  intros Hj Hi Hn Hd bs'. pose proof (lookup_lt_Some _ _ _ Hj). set (A := mjoin (take j bs)). set (B := mjoin (drop (S j) bs)).
  assert (mjoin bs = (A ++ pre) ++ r :: (post ++ B)) as E.
  { rewrite <- (take_drop_middle bs j _ Hj), join_app. cbn [mjoin list_join]. fold A B. by rewrite <- !app_assoc. }
  assert (mjoin bs' = A ++ removed pre r post ++ B) as E'.
  { unfold bs'. rewrite insert_take_drop, join_app by done. done. }
  rewrite E in Hd |- *. rewrite E'. split.
  - rewrite !live_names_app, live_removed, live_names_app. rewrite !live_names_app, live_names_cons, decide_False in Hd by done. rewrite <- !app_assoc in Hd |- *.
    rewrite app_assoc in Hd |- *. apply NoDup_app in Hd as (H1 & H2 & H3). rewrite live_names_app in H2, H3. apply NoDup_app. split; [done|]. split; [|by apply NoDup_cons in H3 as [_ H3]].
    intros x Hx Hin. apply (H2 x Hx). by right.
  - intros other. rewrite <- (held_cleared (A ++ pre) r (post ++ B) name other); [|..|done].
    + rewrite !held_app, (held_removed pre r post name other Hn), held_app. cbn [held dead r_ino r_name]. destruct (held A other), (held pre other); try done.
      rewrite !decide_False by naive_solver. by rewrite held_app.
    + apply held_none. intros Hin. rewrite live_names_app, live_names_cons, decide_False in Hd by done. apply NoDup_app in Hd as (_ & H2 & _).
      apply (H2 name Hin). rewrite Hn. by left.
    + rewrite <- Hn. by eapply distinct_after.
Qed.

(** C39: Removing an entry and then searching. Take a directory of 4096-byte blocks whose extents are in its inode, whose
    inode in memory is the one on the disk, and whose entries in use have distinct names. Removing a name that
    it does not hold fails with ENOENT and changes nothing. Removing a name that it holds clears the entry when it is the
    first of its block, and otherwise merges it into the entry before it; the block is written back with its
    checksum. Afterwards the name is not found, every other name as before, and the directory is again of this form.
    This holds for blocks with a checksum tail and for blocks without one whose names end before the last four bytes. *)
Theorem directory_remove_then_gone junk fs num es phys bs name (st : St (D := D)) :
  dir_mapped st es phys bs → inode_on_disk junk fs num st → NoDup (live_names (mjoin bs)) → Forall is_byte (super_block fs) →
  ∃ res st', dir_remove_entry junk fs num name st = Ret (res, st') ∧ inode st' = inode st ∧
    match held (mjoin bs) name with
    | None => res = Err ENOENT ∧ Disk.same_disk (dev st) (dev st')
    | Some _ => res = Ok (Some tt) ∧ ∃ j pre r post, bs !! j = Some (pre ++ r :: post) ∧ r_ino r ≠ 0 ∧ r_name r = name ∧
        let bs' := <[j := removed pre r post]> bs in
        dir_mapped st' es phys bs' ∧ NoDup (live_names (mjoin bs')) ∧ looked_up junk name st' = Some (Err ENOENT) ∧
        ∀ other, other ≠ name → looked_up junk other st' = looked_up junk other st
    end.
Proof.
  intros Hd Hdisk Hnd Hsb. destruct (dir_find_spec junk fs num es phys bs name st Hd Hdisk) as (r0 & st1 & Hf & Hs1 & Hi1 & Hr).
  unfold dir_remove_entry. destruct (held (mjoin bs) name) as [x|].
  2:{ subst r0. unfold mbind at 1. rewrite Hf. cbn [exec_bind]. eexists _, st1. split; [reflexivity|]. done. }
  destruct Hr as (f & j & rs & -> & Hj & Hblk & Hfind). rewrite (mbind_eq _ _ _ _ _ Hf). pose proof (lookup_lt_Some _ _ _ Hj) as Hlt.
  destruct (read_dir_block st es phys bs j Hd Hlt st1 Hs1 Hi1) as (st2 & Hrd & Hs2 & Hi2). rewrite Hblk, (mbind_eq _ _ _ _ _ Hrd).
  pose proof (dm_chain _ _ _ _ Hd j rs Hj) as Hc. assert (Forall is_byte (block (Disk.dev (dev st)) (phys (Z.of_nat j)))) as Hb by (apply (dm_bytes _ _ _ _ Hd); lia).
  destruct (remove_block_spec junk _ rs name _ _ _ (block_length _ _) Hc Hfind) as (l1 & pre & r & post & -> & Hi & Hn & Hrem & Hl1 & Hc1).
  rewrite Hrem, (mbind_eq _ _ _ _ _ (lift_eq _ _ _ eq_refl)), (mbind_eq get_inode _ st2 (inode st2) st2) by done.
  pose proof (remove_bytes _ _ _ _ _ _ Hb Hrem) as Hb1.
  destruct (set_csum_spec junk (sb_of fs) l1 (inode_generation (inode st2)) Hl1 Hb1) as (l2 & Hcs & Hl2 & Hb2 & Hsame). { by apply slice_bytes. }
  rewrite (mbind_eq _ _ _ _ _ (lift_eq _ _ _ Hcs)).
  assert (chain l2 0 (removed pre r post)) as Hc2 by (eapply chain_same; [|exact Hc1]; intros; by apply Hsame).
  assert (dir_mapped st2 es phys bs) as Hd2 by (by eapply dir_mapped_same).
  destruct (dir_mapped_write st2 es phys bs j l2 _ Hd2 Hlt Hl2 Hb2 Hc2) as (st3 & Hw & Hi3 & Hd3). rewrite (mbind_eq _ _ _ _ _ Hw).
  eexists _, st3. split; [reflexivity|]. split; [congruence|]. split; [done|]. exists j, pre, r, post. split; [done|]. split; [done|]. split; [done|].
  destruct (removed_dir bs j pre r post name Hj Hi Hn Hnd) as [Hnd' Hheld]. split; [done|]. split; [done|].
  split; [|intros other Ho]; rewrite (looked_up_held junk es phys _ _ st3 Hd3), Hheld.
  - by rewrite decide_True by done.
  - rewrite decide_False by done. by rewrite (looked_up_held junk es phys bs other st Hd).
Qed.
End dirs.

(** *** Examples *)

(** A directory of one block, with the entries [.] and [..]; it is block 5 of the disk. *)
Definition two_entries : list Z :=
  match insert_to_new_block (replicate 4096 0) [46] 2 2 with
  | Ret l => match try_insert_to_existing_block [] l [46; 46] 2 2 with Some (Ret (Ok l)) => l | _ => [] end
  | Panic => []
  end.

Definition two_recs : list Rec := [mkRec 2 12 2 [46]; mkRec 2 4072 2 [46; 46]].

(** Inode 2, in the inode table behind the first inode of 256 bytes. *)
Definition dir_inode : list Z := set_field 0 2 (set_field 4 4 one_inode 4096) 0x4000.

Definition dir_disk : Disk.Device Disk.ram_disk :=
  Disk.mkDevice (<[32%nat := replicate 256 0 ++ dir_inode ++ replicate 100 0]>
    (foldr (fun i d => <[(40 + i)%nat := slice (512 * i) 512 two_entries]> d) (Disk.dev small_disk) (seq 0 8))) Disk.new 0 0 65536.
Definition dir_state : St := mkSt dir_disk dir_inode.
Definition dir_fs : Ext4 := mkExt4 (set_field 24 4 small_super 2) (Some [(0, 4)]).

Lemma two_entries_chain : chain two_entries 0 two_recs.
Proof.
  assert (∀ ino len ty name off, 0 ≤ ino < 2 ^ 32 → 0 ≤ ty < 256 → bool_decide (length name ≤ 255 ∧ 8 + length name ≤ len ∧ len mod 4 = 0)%nat = true →
    bool_decide ([of_le (slice off 4 two_entries); of_le (slice (off + 4) 2 two_entries); of_le (slice (off + 6) 1 two_entries); of_le (slice (off + 7) 1 two_entries)] =
      [ino; Z.of_nat len; Z.of_nat (length name); ty] ∧ slice (off + 8) (length name) two_entries = name) = true →
    rec_ok (mkRec ino len ty name) ∧ rec_at two_entries off (mkRec ino len ty name)) as Hrec.
  { intros ino len ty name off Hi Ht (Ha & Hb & Hc)%bool_decide_eq_true [Hd He]%bool_decide_eq_true. injection Hd as ? ? ? ?. split; [|by constructor].
    unfold rec_ok. cbn [r_ino r_len r_type r_name]. done. }
  cbn [two_recs chain r_len]. unfold fits, BLOCK_DATA_SIZE. cbn [r_len r_name length].
  destruct (Hrec 2 12%nat 2 [46] 0%nat) as [H1 H2]; [lia|lia|reflexivity|vm_compute; reflexivity|].
  destruct (Hrec 2 4072%nat 2 [46; 46] 12%nat) as [H3 H4]; [lia|lia|reflexivity|vm_compute; reflexivity|].
  split; [done|]. split; [done|]. split; [lia|]. split; [done|]. split; [done|]. split; [lia|]. lia.
Qed.

Lemma two_entries_length : length two_entries = 4096%nat.
Proof. vm_compute. reflexivity. Qed.

Lemma dir_block : block (Disk.dev dir_disk) 5 = two_entries.
Proof. vm_compute. reflexivity. Qed.

Lemma dir_state_mapped : dir_mapped dir_state [mkExtent 0 1 0 5] (fun b => 5 + b) [two_recs].
Proof.
  constructor; [|vm_compute; reflexivity|vm_compute; reflexivity|vm_compute; reflexivity|vm_compute; reflexivity|..].
  - constructor.
    + split; [exact (proj1 (Ialloc.volume_coherent []))|by intros s b].
    + vm_compute. by split.
    + split; [vm_compute; reflexivity|]. splits; [apply holds_extents_dec; by vm_compute|by vm_compute|by apply extents_ok_dec].
    + intros b Hb. cbn in Hb. assert (b = 0) as -> by lia. split; [unfold usable; cbn; lia|]. exists (mkExtent 0 1 0 5). split; [left|]. unfold covers. splits; by vm_compute.
  - intros j k Hj Hk. cbn in Hj, Hk. lia.
  - intros k Hk. lia.
  - intros [|k] rs Hk; [|done]. injection Hk as <-. change (5 + Z.of_nat 0) with 5. cbn [dir_state dev]. rewrite dir_block. exact two_entries_chain.
  - intros k Hk. cbn in Hk. assert (k = 0) as -> by lia. change (5 + 0) with 5. cbn [dir_state dev]. rewrite dir_block. apply Ialloc.all_bytes. vm_compute. reflexivity.
Qed.

Lemma two_recs_roomy name : ∀ r, r ∈ two_recs → room r name → roomy two_recs r name.
Proof. intros r _. unfold room, roomy. change (total_len two_recs - BLOCK_DATA_SIZE)%nat with 0%nat. lia. Qed.

Lemma directory_add_then_find_witness :
  ∃ l' rs', try_insert_to_existing_block [] two_entries [97] 11 1 = Some (Ret (Ok l')) ∧ length l' = 4096%nat ∧
    chain l' 0 rs' ∧ Forall (fun r => r_ino r ≠ 0) rs' ∧
    inode_found (dir_find_in_block [] l' [97]) = Some (Ok (11, 1)) ∧
    ∀ other, other ≠ [97] → inode_found (dir_find_in_block [] l' other) = inode_found (dir_find_in_block [] two_entries other).
Proof.
  pose proof (directory_add_then_find [] two_entries two_recs [97] 11 1 two_entries_length two_entries_chain) as Hw.
  rewrite decide_True in Hw by (right; left; unfold room; cbn; lia). apply Hw.
  - repeat constructor; cbn; lia.
  - reflexivity.
  - cbn. lia.
  - lia.
  - lia.
  - apply two_recs_roomy.
Defined.

Definition found_at (pos : nat) : Ext4DirEntry := read_entry [] two_entries pos.

Definition dir_loaded : Disk.Device Disk.ram_disk :=
  match load_inode [] dir_fs 2 dir_state with Ret (_, st) => dev st | Panic => dir_disk end.

Lemma dir_on_disk : inode_on_disk [] dir_fs 2 dir_state.
Proof. exists dir_loaded. split; [vm_compute; reflexivity|]. split; [|split]; vm_compute; reflexivity. Qed.

Lemma directory_remove_then_gone_witness :
  ∃ res st', dir_remove_entry [] dir_fs 2 [46; 46] dir_state = Ret (res, st') ∧ inode st' = inode dir_state ∧ res = Ok (Some tt) ∧
    looked_up [] [46; 46] st' = Some (Err ENOENT) ∧ ∀ other, other ≠ [46; 46] → looked_up [] other st' = looked_up [] other dir_state.
Proof.
  destruct (directory_remove_then_gone [] dir_fs 2 [mkExtent 0 1 0 5] (fun b => 5 + b) [two_recs] [46; 46] dir_state) as (res & st' & H1 & H2 & H3).
  - exact dir_state_mapped.
  - exact dir_on_disk.
  - apply (bool_decide_unpack _). vm_compute. exact I.
  - apply Ialloc.all_bytes. vm_compute. reflexivity.
  - exists res, st'. split; [exact H1|]. split; [exact H2|]. destruct H3 as (H3 & j & pre & r & post & _ & _ & _ & _ & _ & H4 & H5).
    split; [exact H3|]. split; [exact H4|exact H5].
Defined.

Lemma insert_hangs_after_removing_first_witness :
  ∃ l', remove_in_block [] ROUNDS two_entries (found_at 0) 0 = Some (Ret l') ∧ ∀ rounds new child ty, insert_loop [] rounds l' new child ty 0 = None.
Proof.
  apply (insert_hangs_after_removing_first [] two_entries two_recs [46] (found_at 0) 0).
  - exact two_entries_length.
  - exact two_entries_chain.
  - vm_compute. reflexivity.
Defined.


(** A block without a checksum tail: fifteen entries of 264 bytes, one of 96, and a last one with 28 bytes to spare. *)
Definition tailless : list Z :=
  let put off len n l := Disk.copy_at l off (entry_bytes (mkEntry 11 len n 1 (replicate n 97))) in
  put 4056%nat 40%nat 4%nat (put 3960%nat 96%nat 88%nat
    (foldr (fun i l => put (264 * i)%nat 264%nat 255%nat l) (replicate 4096 0) (seq 0 15))).

(** What [spared] excludes: an entry put at the end of such a block is found in the block, but the checksum written next
    overwrites the last four bytes of its name. *)
Lemma tailless_block_loses_name :
  let name := replicate 20 98 in
  match try_insert_to_existing_block [] tailless name 12 1 with
  | Some (Ret (Ok l)) => inode_found (dir_find_in_block [] l name) = Some (Ok (12, 1)) ∧
      match dir_set_csum [] (sb_of small_fs) l 0 with
      | Ret l => inode_found (dir_find_in_block [] l name) = Some (Err ENOENT)
      | Panic => False
      end
  | _ => False
  end.
Proof. vm_compute. split; reflexivity. Qed.

Lemma read_returns_contents_witness :
  ∃ st', FileIO.read_inode 4 8 dir_state =
      Ret (Ok (FileIO.content (Disk.dev dir_disk) (fun b => if decide (single_index (inode_block dir_inode)) then 0 else 5 + b) 4 8), st') ∧
    Disk.same_disk dir_disk (dev st') ∧ inode st' = dir_inode.
Proof.
  apply (FileIO.read_returns_contents dir_state [mkExtent 0 1 0 5] (fun b => 5 + b) 4 8).
  - exact (dm_file _ _ _ _ dir_state_mapped).
  - split; by vm_compute.
  - lia.
  - lia.
  - lia.
Defined.

End Dir.
